(* ===== verification/_CoqProject ===== *)
-Q . S2P
Prelude.v
Bytes.v
Crc32c.v
PageFormat.v
Types.v
Record.v
Vfs.v
Journal.v
Wal.v
LocalTime.v
VfsFrame.v
Db.v
DbView.v
DbCheckpoint.v
DbSpec.v
Recovery.v
RecoverySpec.v
RecoveryReplay.v
BTreeNode.v
BTreeNodeFacts.v
BTree.v
BTreeTree.v
BTreeRead.v
BTreeSplit.v
BTreePut.v
BTreeErase.v
BTreeScan.v
BTreePager.v
BTreeSpec.v
BTreeFindings.v
StoreSchema.v
Tzif.v
TzifPosix.v
Store.v
Grove.v
StoreRep.v
StoreSpec.v
StoreReads.v
StoreRefine.v
StoreIntegrity.v
StoreExamples.v
CoreSchema.v
Program.v
StoreScan.v
ProgramRefine.v
StoreDump.v
Recorder.v
PunchSchema.v
PunchInstall.v
PunchData.v
PunchRules.v
PunchPayroll.v
PunchLifecycle.v
PunchSync.v
PunchFrames.v
PunchRows.v
PunchScan.v
PunchTables.v
PunchExample.v
PunchIds.v
CoreAccounts.v
CoreAccountsSpec.v
CoreGrants.v
PunchSupervision.v
PunchQueue.v
PunchMonitor.v
PunchRollback.v
PunchMoves.v
PunchIngest.v
PunchSyncSpec.v
PunchFlags.v
PunchRange.v
PunchPairing.v
