(* ===== verification/Prelude.v ===== *)
(** * Archivum: a verification of the storage engine and of Punchline

    Archivum is a storage engine with a server and a time-clock module
    (Punchline) on top.  This library models the engine as it is written in
    engine/src and engine/include, from the checksum up to the typed store, the
    schema, identifiers and recorder of core/src, and the rules, sync, payroll
    and lifecycle of modules/punchline, and proves what makes each part
    correct.

    ** The program and its parts

    A [Vfs] gives files that can be read, written, extended and synced.  The
    [Journal] is an append-only file of checksummed records.  A [Db] is a
    file of pages and a write-ahead log ([Wal]): a write transaction buffers
    its pages, a commit appends them to the log as one chained run of frames,
    a reader sees the log up to the frame it started on, and a checkpoint
    copies the newest pages into the file.  A [BTree] is an ordered map from
    byte strings to byte strings over the pages of a transaction.  The
    [Store] keeps tables and indexes in trees and describes them in a catalog
    tree.  Values are typed; keys are encoded so that byte order is value
    order.  The core keeps an audit log and a change feed: every change of a
    row goes through a [Recorder] in the transaction that makes it.  Punchline
    takes batches of punches from devices, pairs them into shifts, opens
    exceptions, compares hours with the schedule, and moves timesheets from
    recorded to locked.

    ** Files

    - [Prelude]: [Status] and [Result] (status.h), the state-and-error monad
      [M] with its notations [let!] and [let?], generic lemmas, the hint
      database [archivum].
    - [Bytes]: byte buffers, little- and big-endian integers at their width.
    - [Crc32c]: crc32c.cpp.
    - [PageFormat]: page_format.h and page_format.cpp (database header, log
      header, frame header, page checksum).
    - [Types], [Record]: types.cpp and record.cpp (values, UTF-8, keys, rows).
    - [Vfs], [VfsFrame]: vfs.h with the fault model of testing/src: each file
      has volatile and durable content, an operation may fail or be cut
      short, and a power loss applies an arbitrary selection of the operations
      that were not synced, in any order, writes possibly cut short.
    - [Journal], [Wal]: journal.cpp and wal.cpp, operation by operation, in
      the monad over the world of [Vfs].
    - [Db]: db.cpp (open, begin, read, write, allocate, free, commit,
      checkpoint, backup, check).  [DbView], [DbCheckpoint] and [DbSpec]
      hold its invariant, the checkpoint and the refinement.
    - [Recovery]: recovery.cpp (copying and verifying a backup, replaying the
      archived logs up to a target, recovering to a point).  [RecoverySpec]
      has the triples of the file operations, [RecoveryReplay] what a
      recovery yields.
    - [BTreeNode], [BTreeNodeFacts]: [struct Node] of btree.cpp and what its
      methods do to the cells of a page.
    - [BTree]: btree.cpp over the class [PageStore] (PageReader and
      PageWriter).  [BTreeTree] is the shape of a tree without pages;
      [BTreeRead] states [PageStoreLaws] and verifies reading, [BTreeSplit],
      [BTreePut], [BTreeErase] and [BTreeScan] the operations, [BTreePager]
      discharges the laws with the write transaction of [Db], [BTreeSpec]
      states the contract and [BTreeFindings] runs two trees that go wrong.
    - [StoreSchema]: store.h and the part of store.cpp that does not touch
      pages: definitions, their validation, row validation, catalog rows.
    - [LocalTime]: modules/punchline/src/localtime.cpp.
    - [Tzif], [TzifPosix]: modules/punchline/src/tzif.cpp (time zone files,
      POSIX TZ strings, offsets and their inversion).
    - [Store]: store.cpp over the trees: get, scans, insert, update, remove,
      tables, indexes and foreign keys.  [Grove] turns the theorems about one
      tree into an interface of many trees on one page store; [StoreRep] says
      when trees hold the rows of a table, [StoreSpec] what the operations do
      on plain tables, [StoreReads] verifies the reads, [StoreScan] the scans
      on pages, [StoreRefine] the writes, [StoreIntegrity] states what the constraints are for and
      [StoreExamples] has the concrete stores.  [StoreDump] has the dump and
      the restore of a store.
    - [CoreSchema]: core/src/schema.cpp and migrate.cpp (tables, migrations).
    - [Program]: code that uses a reader or a writer, as a free monad over
      catalog, get, scan and row changes, with [exec] on pages and [run] on
      plain tables; [ProgramRefine] shows that they agree.
    - [Recorder]: ids.cpp and recorder.cpp of core/src.
    - [CoreAccounts]: accounts.cpp, authz.cpp, credentials.cpp and the policy
      of module.cpp in core/src; [CoreAccountsSpec] and [CoreGrants] have the
      theorems about accounts, grants and secrets.
    - [PunchSchema], [PunchInstall]: schema.cpp of Punchline and the catalog
      its migrations install.
    - [PunchData], [PunchRules], [PunchPayroll], [PunchLifecycle],
      [PunchSync]: data.cpp, rules.cpp with exceptions.cpp, payroll.cpp,
      lifecycle.cpp and sync.cpp of modules/punchline/src, function by
      function.
    - [PunchFrames]: the tables each operation may change.  [PunchRows]: the
      rows of the structs.  [PunchScan], [PunchTables]: what a scan visits and
      a recorded change does, and the installed tables.  [PunchExample]: a
      small company.  [PunchIds], [PunchSupervision], [PunchQueue],
      [PunchMoves], [PunchIngest], [PunchSyncSpec], [PunchRange],
      [PunchFlags], [PunchPairing]: the theorems about identifiers,
      supervision, the exception queue, transitions, batches and pairing.
    - [PunchMonitor]: the pass of the monitor in
      server/src/modules/punchline_module.cpp.  [PunchRollback]: rollback.cpp
      of modules/punchline/src.

    ** What the theorems show

    - Crash safety: [Wal.wal_crash_safe] and [Journal.journal_crash_safe] run
      any session of operations under any faults, cut the power, and reopen:
      what was acknowledged is there, what was not is there whole or not at
      all.
    - Refinement: [DbSpec.db_refines_spec] compares the pager with a machine
      that has only a list of committed states;
      [RecoveryReplay.recover_to_point_exact] shows what a recovery from a
      backup and archived logs writes: the backup with the transactions that
      the target admits, and nothing else; [BTreeSpec.btree_refines_map]
      compares the tree with a finite map, over any page store with the laws,
      and its witness runs it on the pager.
    - Order and iteration: [Record.encode_key_order],
      [BTreeSpec.for_each_in_order], [BTreeSpec.seek_in_order].
    - Formats: round trips, rigidity and damage detection for every on-disk
      structure; the checksum is polynomial division and detects bursts.
    - Errors: [StoreSchema.validate_row_spec] (and [BTreeSpec.btree_rejects]);
      [StoreSchema.accepted_readable_exact] says which of the accepted
      definitions the catalog can read back, and that it cannot read the
      others.
    - The store: [StoreRefine.store_refines_tables] (insert, update and remove
      on pages do what they do on plain tables, errors included),
      [StoreIntegrity.row_op_preserves_integrity] (primary keys, unique
      indexes and foreign keys hold afterwards, with exactly one exception,
      which [StoreExamples.self_reference_escapes] runs).
    - From pages to programs: [ProgramRefine.exec_refines_run] carries every
      theorem about a module's program on plain tables over to the pages: the
      same answer and the same tables, scans in both directions included.
    - Dump and restore: [StoreDump.dump_restores_in_order]: a dump holds the
      rows of every table in key order, and the tables of any catalog that a
      writer has made can be created parents first, which is the order the
      restore finds.
    - Accounts: [CoreAccountsSpec.verify_account_spec] (who may sign in and
      what it leaves behind), [CoreAccountsSpec.create_account_spec],
      [CoreGrants.grant_role_exact]; [CoreGrants.random_secret_injective] and
      [CoreGrants.uuid_roundtrip].
    - Schema and data: [PunchInstall.schema_installs],
      [PunchRows.rows_roundtrip].
    - Sync: [PunchSyncSpec.batch_keeps_punches] (no punch is lost, and what is
      acknowledged is on file unless it repeats another device's uuid),
      [PunchSyncSpec.replay_stores_nothing],
      [PunchPairing.pairing_adds_shifts] (the fold equals a pure fold, with
      one shift per in punch), [PunchRange.rebuild_range_closed] (its range
      loop ends).  Two say where the code does not do what it means to:
      [PunchFlags.unpaired_stays_open] (pairing resolves no exception of a
      device) and [PunchSyncSpec.refused_uuid_acknowledged] (the uuid of
      another device is accepted when it is repeated).
    - Rules and lifecycle: [PunchSupervision.supervisor_unique],
      [PunchQueue.open_exception_idempotent], [PunchMoves.transition_moves];
      [PunchMonitor.monitor_raises] (after a pass everything overdue has an
      open exception), [PunchRollback.rollback_export_complete].
    - Time zones: [Tzif.Tz.instants_of_exact], [Tzif.Tz.rule_local_latest],
      [TzifPosix.posix_roundtrip].

    ** Bounds and fuel

    Integers are [Z] with the width written out where the code's arithmetic
    can wrap.  Loops over files take the length of the file as fuel, which no
    step exceeds because every step consumes at least one byte; a descent of a
    tree has the 64 levels the code allows, overflow chains the number of
    pages of the database, as in the code; cursor walks take the number of
    steps as an argument and the theorems state how many are enough.
    A cursor of the store takes the pages in use as fuel and a scan the
    entries of the table, which the pages times their size bound; a row
    change adds at most a level to a tree, and the 64 levels of a descent
    bound how many changes one program may make
    ([ProgramRefine.exec_refines_run]).  The batches of the rollback export
    take a round for each of the period's shifts.  The loop of [repair_pairing] takes the number of
    the employee's shifts and one; [PunchRange.rebuild_range_closed] shows that
    it is enough.  Sums of minutes and microseconds are [Z]: the code's int64
    sums are far from their bounds for times that pass validation.
    [BTreeSpec.btree_refines_map] asks for key lengths in a range [lo, hi]
    with 5 (12 + hi) <= 8 (12 + lo): outside it the interior split of the
    code can overflow a page ([BTreeFindings.interior_split_overflows]).

    ** Not modelled

    The operating-system files (vfs_posix.cpp, vfs_win32.cpp) and entropy are
    system calls; random bytes and clocks are arguments.  Mutexes are
    modelled by their effect: calls that hold the writer or catalog lock are
    single steps, interleaved in any order.  The theorems about
    core and Punchline are about [run], on plain tables;
    [ProgramRefine.exec_refines_run] relates it to the pages.  std::sort on
    equal keys may order them either way; the model keeps their order.  Not
    modelled yet: opening, committing and check of the store, and the outer
    loop of migrate.  The theorem about a restore is about the order of its
    tables; that its inserts succeed is not proved.  Argon2 is libsodium's: what its
    documentation promises is a hypothesis.  The rest of the server is HTTP,
    JSON and OIDC through third-party libraries, start-up and threads. *)

From stdpp Require Import base numbers list gmap strings sorting.
From Stdlib Require Import DecimalString NArith OrderedTypeEx.

Open Scope Z_scope.

(** * Status and Result

    [ErrorCode] and [Status] are the engine's error vocabulary
    (engine/include/archivum/status.h).  A C++ function that returns a
    [Status] returns [Result unit] here, [Ret tt] standing for the ok
    status; a [Result<T>] is a [Result T].  [Err] always carries a
    status whose code is not [Ok], as the assertion of the C++ constructor
    demands: the only constructors used are the named ones below. *)

Inductive ErrorCode :=
  | Ok
  | IoError
  | NotFound
  | AlreadyExists
  | Corrupt
  | InvalidArgument
  | Unsupported
  | Crashed
  | Busy
  | Constraint.

#[export] Instance ErrorCode_eq_dec : EqDecision ErrorCode.
Proof. solve_decision. Defined.

Record Status := mkStatus { code : ErrorCode; message : string }.

#[export] Instance Status_eq_dec : EqDecision Status.
Proof. solve_decision. Defined.

Inductive Result (A : Type) :=
  | Ret (a : A)
  | Err (s : Status).
Arguments Ret {A} a.
Arguments Err {A} s.

#[export] Instance Result_eq_dec {A} `{EqDecision A} : EqDecision (Result A).
Proof. solve_decision. Defined.

Definition io {A} (m : string) : Result A := Err (mkStatus IoError m).
Definition not_found {A} (m : string) : Result A := Err (mkStatus NotFound m).
Definition already_exists {A} (m : string) : Result A := Err (mkStatus AlreadyExists m).
Definition corrupt {A} (m : string) : Result A := Err (mkStatus Corrupt m).
Definition invalid_argument {A} (m : string) : Result A := Err (mkStatus InvalidArgument m).
Definition unsupported {A} (m : string) : Result A := Err (mkStatus Unsupported m).
Definition crashed {A} (m : string) : Result A := Err (mkStatus Crashed m).
Definition busy {A} (m : string) : Result A := Err (mkStatus Busy m).
Definition constraint {A} (m : string) : Result A := Err (mkStatus Constraint m).

(** [Result::ok] and the code of a result. *)
Definition is_ok {A} (r : Result A) : bool :=
  match r with Ret _ => true | Err _ => false end.
Definition code_of {A} (r : Result A) : ErrorCode :=
  match r with Ret _ => Ok | Err s => code s end.

(** [to_string(ErrorCode)] and [Status::to_string]. *)
Definition error_code_to_string (c : ErrorCode) : string :=
  match c with
  | Ok => "ok"
  | IoError => "io_error"
  | NotFound => "not_found"
  | AlreadyExists => "already_exists"
  | Corrupt => "corrupt"
  | InvalidArgument => "invalid_argument"
  | Unsupported => "unsupported"
  | Crashed => "crashed"
  | Busy => "busy"
  | Constraint => "constraint"
  end.
Definition status_to_string (s : Status) : string :=
  let out := error_code_to_string (code s) in
  if decide (message s = "") then out else out +:+ ": " +:+ message s.

(** [std::to_string] of a non-negative integer. *)
Definition to_string (z : Z) : string := NilZero.string_of_uint (N.to_uint (Z.to_N z)).

(** * The two monads

    Pure fallible code is sequenced with [let? x := r in k].  Code that
    mutates an object and may fail returns the result together with the
    object's new state: an early return keeps every mutation made before
    it, so the state is outside the error. *)

Definition rbind {A B} (r : Result A) (k : A -> Result B) : Result B :=
  match r with Ret a => k a | Err s => Err s end.

Definition M (S A : Type) : Type := S -> Result A * S.
Definition ret {S A} (a : A) : M S A := fun s => (Ret a, s).
Definition bind {S A B} (m : M S A) (k : A -> M S B) : M S B := fun s =>
  match m s with
  | (Ret a, s') => k a s'
  | (Err e, s') => (Err e, s')
  end.
Definition lift {S A} (r : Result A) : M S A := fun s => (r, s).
Definition getS {S} : M S S := fun s => (Ret s, s).
Definition modS {S} (f : S -> S) : M S unit := fun s => (Ret tt, f s).
(** The code's [Status s = m; if (!s.ok()) ...] where the failure is
    inspected instead of propagated. *)
Definition attempt {S A} (m : M S A) : M S (Result A) := fun s =>
  let '(r, s') := m s in (Ret r, s').

(** An operation on the second part of the state: a method of an object
    calling the filesystem underneath it. *)
Definition onw {S W A} (m : M W A) : M (S * W) A := fun '(s, w) =>
  let '(r, w') := m w in (r, (s, w')).
Definition getO {S W} : M (S * W) S := fun s => (Ret (fst s), s).
Definition modO {S W} (f : S -> S) : M (S * W) unit := fun s => (Ret tt, (f (fst s), snd s)).

Declare Scope archivum_scope.
Delimit Scope archivum_scope with archivum.
Notation "'let?' x ':=' r 'in' k" := (rbind r (fun x => k))
  (at level 10, x pattern, r at level 100, k at level 200) : archivum_scope.
Notation "'let!' x ':=' m 'in' k" := (bind m (fun x => k))
  (at level 10, x pattern, m at level 100, k at level 200) : archivum_scope.
Notation "'do!' m 'in' k" := (bind m (fun _ => k))
  (at level 10, m at level 100, k at level 200) : archivum_scope.
Open Scope archivum_scope.

(** * Proof automation *)

Create HintDb archivum.
Create Rewrite HintDb archivum.

(** Splits the first [if] or [match] on an undestructed term. *)
Ltac split_match :=
  match goal with
  | |- context [match ?x with _ => _ end] =>
      lazymatch x with context [match _ with _ => _ end] => fail | _ => idtac end;
      destruct x eqn:?
  end.
Ltac split_match_in H :=
  match type of H with
  | context [match ?x with _ => _ end] =>
      lazymatch x with context [match _ with _ => _ end] => fail | _ => idtac end;
      destruct x eqn:?
  end.
Ltac split_matches := repeat (split_match; simplify_eq/=; try done).
Ltac split_matches_in H := repeat (split_match_in H; simplify_eq/=; try done).

(** Turns boolean comparisons in the context and the goal into propositions. *)
Ltac breflect :=
  repeat match goal with
  | H : (_ && _)%bool = true |- _ => apply andb_true_iff in H as [? ?]
  | H : (_ || _)%bool = false |- _ => apply orb_false_iff in H as [? ?]
  | H : negb _ = true |- _ => apply negb_true_iff in H
  | H : negb _ = false |- _ => apply negb_false_iff in H
  | H : bool_decide _ = true |- _ => apply bool_decide_eq_true in H
  | H : bool_decide _ = false |- _ => apply bool_decide_eq_false in H
  | H : (_ <? _) = true |- _ => apply Z.ltb_lt in H
  | H : (_ <? _) = false |- _ => apply Z.ltb_ge in H
  | H : (_ <=? _) = true |- _ => apply Z.leb_le in H
  | H : (_ <=? _) = false |- _ => apply Z.leb_gt in H
  | H : (_ =? _) = true |- _ => apply Z.eqb_eq in H
  | H : (_ =? _) = false |- _ => apply Z.eqb_neq in H
  | H : (_ <? _)%nat = true |- _ => apply Nat.ltb_lt in H
  | H : (_ <? _)%nat = false |- _ => apply Nat.ltb_ge in H
  | H : (_ <=? _)%nat = true |- _ => apply Nat.leb_le in H
  | H : (_ <=? _)%nat = false |- _ => apply Nat.leb_gt in H
  | H : (_ =? _)%nat = true |- _ => apply Nat.eqb_eq in H
  | H : (_ =? _)%nat = false |- _ => apply Nat.eqb_neq in H
  end.

(** Equation of a successful sequence: the pure and the stateful form. *)
Lemma rbind_value {A B} (r : Result A) (k : A -> Result B) b :
  rbind r k = Ret b -> exists a, r = Ret a /\ k a = Ret b.
Proof. destruct r; simpl; naive_solver. Qed.

Lemma bind_value {S A B} (m : M S A) (k : A -> M S B) s b s' :
  bind m k s = (Ret b, s') ->
  exists a s1, m s = (Ret a, s1) /\ k a s1 = (Ret b, s').
Proof. unfold bind. destruct (m s) as [[a|e] s1]; naive_solver. Qed.

Ltac inv_bind H :=
  repeat match type of H with
  | rbind _ _ = Ret _ =>
      let E := fresh "E" in apply rbind_value in H as (? & E & H)
  | bind _ _ _ = (Ret _, _) =>
      let E := fresh "E" in apply bind_value in H as (? & ? & E & H)
  end.

(** Proves a decidable closed proposition by evaluation. *)
Ltac decide_now := apply (bool_decide_unpack _); vm_compute; exact I.

Lemma filter_perm {A} (p : A -> bool) l l' : l ≡ₚ l' -> List.filter p l ≡ₚ List.filter p l'.
Proof.
  induction 1 as [|x l l' _ IH|x y l|l l' l'' _ IH1 _ IH2]; cbn [List.filter]; [done| | |by rewrite IH1].
  - destruct (p x); by rewrite IH.
  - destruct (p x), (p y); done || apply perm_swap.
Qed.

(** The order of strings, which sorts the tables of a catalog. *)
Lemma string_compare_refl s : String.compare s s = Eq.
Proof. pose proof (String.compare_antisym s s) as H. by destruct (String.compare s s). Qed.
Lemma string_compare_trans a b c : String.compare a b = Lt -> String.compare b c = Lt -> String.compare a c = Lt.
Proof.
  intros H1 H2. apply String_as_OT.cmp_lt in H1, H2. apply String_as_OT.cmp_lt. by eapply String_as_OT.lt_trans.
Qed.
Lemma string_compare_gt a b : String.compare a b = Gt -> String.compare b a = Lt.
Proof. intros H. rewrite String.compare_antisym, H. done. Qed.
