(* ===== verification/Bytes.v ===== *)
(** Byte buffers.

    A byte is an integer in [0, 256), a buffer (a [std::span<std::byte>],
    a [std::vector<std::byte>] or a [std::string]) is a list of them.
    This file holds the operations the engine builds its formats from:
    reading and overwriting a region of a buffer ([std::memcpy]), the
    little-endian codecs [put_u32], [put_u64], [get_u32] and [get_u64] of
    engine/src/engine/page_format.cpp with [put_u16]/[get_u16] of
    engine/src/engine/btree.cpp, and the unsigned lexicographic comparison
    that [std::memcmp] and a length test make. *)

From S2P Require Import Prelude.
From stdpp Require Import base numbers list.

Open Scope Z_scope.

Abbreviation Bytes := (list Z).

Definition is_byte (b : Z) : Prop := 0 <= b < 256.
Definition bytes_ok (l : Bytes) : Prop := Forall is_byte l.

#[export] Instance is_byte_dec b : Decision (is_byte b).
Proof. unfold is_byte. apply _. Defined.
#[export] Instance bytes_ok_dec l : Decision (bytes_ok l).
Proof. unfold bytes_ok. apply _. Defined.

(** Reading one byte and a region, and overwriting a region in place.  The
    code indexes inside the buffer only; outside it C++ leaves the
    behaviour undefined, and the totalised functions below read zeros and
    drop the bytes that would be written past the end. *)
Definition byte_at (p : Bytes) (i : nat) : Z := nth i p 0.
Definition sub (off n : nat) (p : Bytes) : Bytes := take n (drop off p).
Definition blit (off : nat) (src dst : Bytes) : Bytes :=
  take off dst ++ take (length dst - off) src ++ drop (off + length src) dst.

(** * Little-endian integers *)

(** [out[i] = (v >> (8 * i)) & 0xFF] for [i] below [n]. *)
Definition le_bytes (n : nat) (v : Z) : Bytes :=
  map (fun i => Z.land (Z.shiftr v (8 * Z.of_nat i)) 255) (seq 0 n).

(** [v |= in[i] << (8 * i)] for [i] below [n]. *)
Definition get_le (n : nat) (p : Bytes) (off : nat) : Z :=
  fold_left (fun v i => Z.lor v (Z.shiftl (byte_at p (off + i)) (8 * Z.of_nat i)))
            (seq 0 n) 0.

Definition put_u16 (p : Bytes) (off : nat) (v : Z) : Bytes := blit off (le_bytes 2 v) p.
Definition put_u32 (p : Bytes) (off : nat) (v : Z) : Bytes := blit off (le_bytes 4 v) p.
Definition put_u64 (p : Bytes) (off : nat) (v : Z) : Bytes := blit off (le_bytes 8 v) p.
Definition get_u16 (p : Bytes) (off : nat) : Z := get_le 2 p off.
Definition get_u32 (p : Bytes) (off : nat) : Z := get_le 4 p off.
Definition get_u64 (p : Bytes) (off : nat) : Z := get_le 8 p off.

(** Widths of the machine integers, and the conversions between [int64_t]
    and [uint64_t] that a [static_cast] makes. *)
Definition u16_ok (v : Z) : Prop := 0 <= v < 2 ^ 16.
Definition u32_ok (v : Z) : Prop := 0 <= v < 2 ^ 32.
Definition u64_ok (v : Z) : Prop := 0 <= v < 2 ^ 64.
Definition i64_ok (v : Z) : Prop := - 2 ^ 63 <= v < 2 ^ 63.
#[export] Instance u16_ok_dec v : Decision (u16_ok v).
Proof. unfold u16_ok. apply _. Defined.
#[export] Instance u32_ok_dec v : Decision (u32_ok v).
Proof. unfold u32_ok. apply _. Defined.
#[export] Instance u64_ok_dec v : Decision (u64_ok v).
Proof. unfold u64_ok. apply _. Defined.
#[export] Instance i64_ok_dec v : Decision (i64_ok v).
Proof. unfold i64_ok. apply _. Defined.

Definition wrap32 (v : Z) : Z := v mod 2 ^ 32.
Definition wrap64 (v : Z) : Z := v mod 2 ^ 64.
Definition u64_of_i64 (v : Z) : Z := v mod 2 ^ 64.
Definition i64_of_u64 (v : Z) : Z := if v <? 2 ^ 63 then v else v - 2 ^ 64.

(** * Comparison

    [memcmp] on the common length, then the lengths. *)
Fixpoint memcmp (n : nat) (a b : Bytes) : comparison :=
  match n, a, b with
  | S n, x :: a, y :: b => match x ?= y with Eq => memcmp n a b | c => c end
  | _, _, _ => Eq
  end.
Definition compare_bytes (a b : Bytes) : comparison :=
  match memcmp (Nat.min (length a) (length b)) a b with
  | Eq => (length a ?= length b)%nat
  | c => c
  end.

(** * Buffer lemmas *)

Lemma length_blit off src dst : length (blit off src dst) = length dst.
Proof. unfold blit. rewrite !length_app, !length_take, length_drop. lia. Qed.

Lemma length_sub off n p : length (sub off n p) = Nat.min n (length p - off).
Proof. unfold sub. by rewrite length_take, length_drop. Qed.

Lemma sub_blit_same off src dst n :
  n = length src -> (off + length src <= length dst)%nat ->
  sub off n (blit off src dst) = src.
Proof.
  intros -> H. unfold sub, blit. rewrite (take_ge src) by lia.
  rewrite drop_app_length' by (rewrite length_take; lia).
  by rewrite take_app_length.
Qed.

Lemma sub_blit_before off src dst o n :
  (o + n <= off)%nat -> sub o n (blit off src dst) = sub o n dst.
Proof.
  intros H. unfold sub, blit. apply list_eq. intros i.
  destruct (decide (i < n)%nat) as [Hi|Hi].
  - rewrite !lookup_take_lt, !lookup_drop by lia.
    destruct (decide (o + i < length dst)%nat).
    + rewrite lookup_app_l by (rewrite length_take; lia).
      by rewrite lookup_take_lt by lia.
    + rewrite (lookup_ge_None_2 dst) by lia.
      rewrite lookup_app_r by (rewrite length_take; lia).
      rewrite lookup_app_r by (rewrite !length_take; lia).
      apply lookup_ge_None_2. rewrite length_drop, !length_take. lia.
  - rewrite !lookup_take_ge; [done|lia|lia].
Qed.

Lemma sub_blit_after off src dst o n :
  (off + length src <= o)%nat -> sub o n (blit off src dst) = sub o n dst.
Proof.
  intros H. unfold sub, blit. f_equal.
  destruct (decide (off + length src <= length dst)%nat).
  - rewrite (take_ge src) by lia.
    rewrite app_assoc, drop_app_ge by (rewrite length_app, length_take; lia).
    rewrite drop_drop. f_equal. rewrite length_app, length_take. lia.
  - rewrite (drop_ge dst o) by lia. apply drop_ge.
    rewrite !length_app, !length_take, length_drop. lia.
Qed.

Lemma sub_all p n : (length p <= n)%nat -> sub 0 n p = p.
Proof. intros. unfold sub. rewrite drop_0. by rewrite take_ge. Qed.

Lemma sub_0 n p : sub 0 n p = take n p.
Proof. unfold sub. by rewrite drop_0. Qed.

(** Two buffers are equal when a front region and the rest are. *)
Lemma eq_by_front n (p q : Bytes) : take n p = take n q -> drop n p = drop n q -> p = q.
Proof. intros H1 H2. by rewrite <- (take_drop n p), H1, H2, take_drop. Qed.

Lemma drop_blit off src dst n :
  (off + length src <= n)%nat -> drop n (blit off src dst) = drop n dst.
Proof.
  intros H. pose proof (sub_blit_after off src dst n (length dst) H) as E. unfold sub in E.
  by rewrite !take_ge in E by (rewrite length_drop, ?length_blit; lia).
Qed.

Lemma sub_app_l off n p q : (off + n <= length p)%nat -> sub off n (p ++ q) = sub off n p.
Proof.
  intros. unfold sub. rewrite drop_app_le by lia.
  rewrite take_app_le by (rewrite length_drop; lia). done.
Qed.

Lemma sub_app_r off n p q :
  (length p <= off)%nat -> sub off n (p ++ q) = sub (off - length p) n q.
Proof. intros. unfold sub. by rewrite drop_app_ge. Qed.

Lemma sub_sub o1 n1 o2 n2 p :
  (o2 + n2 <= n1)%nat -> sub o2 n2 (sub o1 n1 p) = sub (o1 + o2) n2 p.
Proof.
  intros. unfold sub. rewrite skipn_firstn_comm, take_take, drop_drop. f_equal. lia.
Qed.

Lemma sub_split off n m p : sub off (n + m) p = sub off n p ++ sub (off + n) m p.
Proof. unfold sub. rewrite <- drop_drop. symmetry. apply take_take_drop. Qed.

Lemma bytes_ok_app a b : bytes_ok (a ++ b) <-> bytes_ok a /\ bytes_ok b.
Proof. apply Forall_app. Qed.

Lemma bytes_ok_cons b l : is_byte b -> bytes_ok l -> bytes_ok (b :: l).
Proof. by constructor. Qed.

Lemma bytes_ok_sub off n p : bytes_ok p -> bytes_ok (sub off n p).
Proof. intros H. apply Forall_take, Forall_drop, H. Qed.

Lemma bytes_ok_take n p : bytes_ok p -> bytes_ok (take n p).
Proof. apply Forall_take. Qed.

Lemma bytes_ok_drop n p : bytes_ok p -> bytes_ok (drop n p).
Proof. apply Forall_drop. Qed.

Lemma bytes_ok_blit off src dst : bytes_ok src -> bytes_ok dst -> bytes_ok (blit off src dst).
Proof. intros. unfold blit, bytes_ok. rewrite !Forall_app. auto using Forall_take, Forall_drop. Qed.

Lemma bytes_ok_replicate n b : is_byte b -> bytes_ok (replicate n b).
Proof. intros. by apply Forall_replicate. Qed.

#[export] Hint Resolve bytes_ok_sub bytes_ok_take bytes_ok_drop bytes_ok_blit
  bytes_ok_replicate : archivum.

(** * Little-endian lemmas *)

(** The value of a little-endian byte string, by place value. *)
Fixpoint le_value (l : Bytes) : Z :=
  match l with [] => 0 | b :: l => b + 256 * le_value l end.

Lemma lor_disjoint v b k :
  0 <= k -> 0 <= v < 2 ^ k -> 0 <= b -> Z.lor v (Z.shiftl b k) = v + b * 2 ^ k.
Proof.
  intros Hk Hv Hb. rewrite Z.shiftl_mul_pow2 by done.
  assert (Hland : Z.land v (b * 2 ^ k) = 0).
  { apply Z.bits_inj'. intros n Hn. rewrite Z.land_spec, Z.bits_0.
    destruct (decide (n < k)).
    - rewrite Z.mul_pow2_bits_low by lia. by rewrite andb_false_r.
    - destruct (decide (v = 0)) as [->|]; [by rewrite Z.bits_0|].
      assert (Z.log2 v < k) by (apply Z.log2_lt_pow2; lia).
      rewrite (Z.bits_above_log2 v) by lia.
      done. }
  rewrite <- Z.lxor_lor by done. symmetry. by apply Z.add_nocarry_lxor.
Qed.

Lemma length_le_bytes n v : length (le_bytes n v) = n.
Proof. unfold le_bytes. by rewrite length_map, length_seq. Qed.

Lemma le_bytes_S n v : le_bytes (S n) v = v mod 256 :: le_bytes n (v / 256).
Proof.
  unfold le_bytes. cbn [seq map]. f_equal.
  - change (8 * Z.of_nat 0) with 0. rewrite Z.shiftr_0_r.
    change 255 with (Z.ones 8). by rewrite Z.land_ones.
  - rewrite <- seq_shift, map_map. apply map_ext. intros i.
    change 256 with (2 ^ 8). rewrite <- (Z.shiftr_div_pow2 v 8) by lia.
    rewrite Z.shiftr_shiftr by lia. do 2 f_equal. lia.
Qed.

Lemma bytes_ok_le_bytes n v : bytes_ok (le_bytes n v).
Proof.
  revert v. induction n as [|n IH]; intros v; [constructor|].
  rewrite le_bytes_S. constructor; [apply Z.mod_pos_bound; lia | apply IH].
Qed.

Lemma le_value_bound l : bytes_ok l -> 0 <= le_value l < 256 ^ Z.of_nat (length l).
Proof.
  induction 1 as [|b l Hb Hl IH]; cbn [le_value length]; [lia|].
  rewrite Nat2Z.inj_succ, Z.pow_succ_r by lia. unfold is_byte in Hb. lia.
Qed.

Lemma le_value_le_bytes n v : 0 <= v < 256 ^ Z.of_nat n -> le_value (le_bytes n v) = v.
Proof.
  revert v. induction n as [|n IH]; intros v Hv.
  - change (256 ^ Z.of_nat 0) with 1 in Hv. cbn. lia.
  - rewrite le_bytes_S. cbn [le_value].
    rewrite Nat2Z.inj_succ, Z.pow_succ_r in Hv by lia.
    rewrite IH by (split; [apply Z.div_pos; lia | apply Z.div_lt_upper_bound; lia]).
    rewrite Z.add_comm. symmetry. apply Z.div_mod. lia.
Qed.

Lemma le_bytes_le_value l : bytes_ok l -> le_bytes (length l) (le_value l) = l.
Proof.
  induction 1 as [|b l Hb Hl IH]; [done|].
  cbn [length le_value]. rewrite le_bytes_S. unfold is_byte in Hb. f_equal.
  - rewrite Z.add_mod, Z.mul_comm, Z.mod_mul, Z.add_0_r, Z.mod_mod by lia.
    by apply Z.mod_small.
  - rewrite Z.mul_comm, Z.div_add, Z.div_small by lia. exact IH.
Qed.

Lemma byte_at_ok p i : bytes_ok p -> is_byte (byte_at p i).
Proof.
  intros H. unfold byte_at. destruct (nth_in_or_default i p 0) as [Hin | ->].
  - apply Forall_forall with (1 := H). by apply list_elem_of_In.
  - done.
Qed.

Lemma drop_byte_at p i : (i < length p)%nat -> drop i p = byte_at p i :: drop (S i) p.
Proof.
  revert i. induction p as [|b p IH]; intros i Hi; cbn in Hi; [lia|].
  destruct i as [|i]; [done|]. cbn [drop]. rewrite IH by lia. done.
Qed.

Lemma get_le_value n p off :
  bytes_ok p -> (off + n <= length p)%nat -> get_le n p off = le_value (sub off n p).
Proof.
  intros Hp Hn. unfold get_le.
  enough (forall m i v, (i + m = n)%nat -> 0 <= v < 256 ^ Z.of_nat i ->
    fold_left (fun v i => Z.lor v (Z.shiftl (byte_at p (off + i)) (8 * Z.of_nat i)))
              (seq i m) v
    = v + 256 ^ Z.of_nat i * le_value (sub (off + i) m p)) as Hgen.
  { rewrite (Hgen n 0%nat 0); [|lia|done]. rewrite Nat.add_0_r.
    change (256 ^ Z.of_nat 0) with 1. lia. }
  induction m as [|m IH]; intros i v Hi Hv; cbn [seq fold_left].
  { unfold sub. rewrite take_0. cbn [le_value]. ring. }
  pose proof (byte_at_ok p (off + i) Hp) as Hb. unfold is_byte in Hb.
  assert (E256 : 2 ^ (8 * Z.of_nat i) = 256 ^ Z.of_nat i) by (by rewrite Z.pow_mul_r by lia).
  rewrite lor_disjoint by (rewrite ?E256; lia). rewrite E256.
  rewrite IH.
  - unfold sub. rewrite (drop_byte_at p (off + i)) by lia. cbn [take le_value].
    replace (off + S i)%nat with (S (off + i)) by lia.
    rewrite Nat2Z.inj_succ, Z.pow_succ_r by lia. ring.
  - lia.
  - rewrite Nat2Z.inj_succ, Z.pow_succ_r by lia. nia.
Qed.

Lemma get_le_bound n p off :
  bytes_ok p -> (off + n <= length p)%nat -> 0 <= get_le n p off < 256 ^ Z.of_nat n.
Proof.
  intros Hp Hn. rewrite get_le_value by done.
  pose proof (le_value_bound (sub off n p) (bytes_ok_sub _ _ _ Hp)) as H.
  rewrite length_sub, Nat.min_l in H by lia. done.
Qed.

Lemma get_le_sub n p o off m :
  bytes_ok p -> (o + n <= m)%nat -> (off + m <= length p)%nat ->
  get_le n (sub off m p) o = get_le n p (off + o).
Proof.
  intros. rewrite !get_le_value; auto with archivum; try (rewrite ?length_sub; lia).
  by rewrite sub_sub.
Qed.

(** What a read returns depends only on the region it reads. *)
Lemma byte_at_sub p off n i : (i < n)%nat -> byte_at (sub off n p) i = byte_at p (off + i).
Proof.
  intros Hi. unfold byte_at, sub. rewrite !nth_lookup, lookup_take_lt by done.
  by rewrite lookup_drop.
Qed.

Lemma get_le_region n p off : get_le n p off = get_le n (sub off n p) 0.
Proof.
  unfold get_le.
  assert (H : forall l v, (forall i, i ∈ l -> (i < n)%nat) ->
    fold_left (fun v i => Z.lor v (Z.shiftl (byte_at p (off + i)) (8 * Z.of_nat i))) l v
    = fold_left (fun v i => Z.lor v (Z.shiftl (byte_at (sub off n p) (0 + i)) (8 * Z.of_nat i))) l v).
  { induction l as [|i l IH]; intros v Hl; [done|]. cbn [fold_left].
    rewrite byte_at_sub by (apply Hl; left). apply IH. intros j Hj. apply Hl. by right. }
  apply H. intros i. rewrite elem_of_seq. lia.
Qed.

Lemma sub_take m n o p : (o + n <= m)%nat -> sub o n (take m p) = sub o n p.
Proof. intros. rewrite <- (sub_0 m p). by rewrite sub_sub. Qed.

Lemma get_le_take m n o p : (o + n <= m)%nat -> get_le n (take m p) o = get_le n p o.
Proof. intros. rewrite get_le_region, (get_le_region n p). by rewrite sub_take. Qed.

Lemma get_le_blit_before n off src p o :
  (o + n <= off)%nat -> get_le n (blit off src p) o = get_le n p o.
Proof. intros. rewrite get_le_region, (get_le_region n p). by rewrite sub_blit_before. Qed.

Lemma get_le_blit_after n off src p o :
  (off + length src <= o)%nat -> get_le n (blit off src p) o = get_le n p o.
Proof. intros. rewrite get_le_region, (get_le_region n p). by rewrite sub_blit_after. Qed.

(** Reading back what was written. *)
Lemma get_put_le n p off v :
  (off + n <= length p)%nat -> 0 <= v < 256 ^ Z.of_nat n ->
  get_le n (blit off (le_bytes n v) p) off = v.
Proof.
  intros Hn Hv. rewrite get_le_region, sub_blit_same by (rewrite length_le_bytes; lia).
  rewrite get_le_value by (rewrite ?length_le_bytes; auto using bytes_ok_le_bytes).
  rewrite sub_all by (rewrite length_le_bytes; lia). by apply le_value_le_bytes.
Qed.

(** Widths of what the readers return. *)
Lemma get_le_range n p off : bytes_ok p -> 0 <= get_le n p off < 256 ^ Z.of_nat n.
Proof.
  intros Hp. unfold get_le.
  enough (H : forall m i v, 0 <= v < 256 ^ Z.of_nat i ->
    0 <= fold_left (fun v i => Z.lor v (Z.shiftl (byte_at p (off + i)) (8 * Z.of_nat i)))
           (seq i m) v < 256 ^ Z.of_nat (i + m)) by (by apply (H n 0%nat 0)).
  induction m as [|m IH]; intros i v Hv; cbn [seq fold_left]; [by rewrite Nat.add_0_r|].
  replace (i + S m)%nat with (S i + m)%nat by lia. apply IH.
  pose proof (byte_at_ok p (off + i) Hp) as Hb. unfold is_byte in Hb.
  assert (E256 : 2 ^ (8 * Z.of_nat i) = 256 ^ Z.of_nat i) by (by rewrite Z.pow_mul_r by lia).
  rewrite lor_disjoint by (rewrite ?E256; lia). rewrite E256.
  rewrite Nat2Z.inj_succ, Z.pow_succ_r by lia. nia.
Qed.

Lemma get_u16_ok p off : bytes_ok p -> u16_ok (get_u16 p off).
Proof. intros. by apply (get_le_range 2). Qed.
Lemma get_u32_ok p off : bytes_ok p -> u32_ok (get_u32 p off).
Proof. intros. by apply (get_le_range 4). Qed.
Lemma get_u64_ok p off : bytes_ok p -> u64_ok (get_u64 p off).
Proof. intros. by apply (get_le_range 8). Qed.

(** Writing back what was read. *)
Lemma le_bytes_get n p off :
  bytes_ok p -> (off + n <= length p)%nat -> le_bytes n (get_le n p off) = sub off n p.
Proof.
  intros. rewrite get_le_value by done.
  assert (length (sub off n p) = n) by (rewrite length_sub; lia).
  rewrite <- (le_bytes_le_value (sub off n p)) at 2 by auto with archivum. congruence.
Qed.

Lemma i64_u64 v : i64_ok v -> i64_of_u64 (u64_of_i64 v) = v.
Proof.
  unfold i64_ok, i64_of_u64, u64_of_i64. intros Hv.
  destruct (decide (0 <= v)).
  - rewrite Z.mod_small by lia. destruct (Z.ltb_spec v (2 ^ 63)); lia.
  - rewrite <- (Z.mod_add _ 1), Z.mul_1_l, Z.mod_small by lia.
    destruct (Z.ltb_spec (v + 2 ^ 64) (2 ^ 63)); lia.
Qed.

Lemma u64_of_i64_ok v : u64_ok (u64_of_i64 v).
Proof. apply Z.mod_pos_bound. lia. Qed.

Lemma u64_i64 v : u64_ok v -> u64_of_i64 (i64_of_u64 v) = v.
Proof.
  unfold u64_ok, i64_of_u64, u64_of_i64. intros Hv. case_match; breflect.
  - by rewrite Z.mod_small by lia.
  - rewrite <- (Z.mod_add _ 1), Z.mul_1_l, Z.mod_small by lia. lia.
Qed.

Lemma i64_of_u64_ok v : u64_ok v -> i64_ok (i64_of_u64 v).
Proof. unfold u64_ok, i64_ok, i64_of_u64. intros. case_match; breflect; lia. Qed.

#[export] Hint Resolve bytes_ok_le_bytes u64_of_i64_ok get_u16_ok get_u32_ok get_u64_ok : archivum.

(** Resolves reads of a buffer built by successive writes at fixed offsets. *)
Ltac buffer_side :=
  rewrite ?length_blit, ?length_le_bytes, ?length_sub, ?length_replicate; cbn [length];
  unfold u16_ok, u32_ok, u64_ok in *; lia.
Ltac buffer_reads :=
  unfold get_u16, get_u32, get_u64, put_u16, put_u32, put_u64;
  repeat first
    [ rewrite get_put_le by buffer_side
    | rewrite get_le_blit_before by lia
    | rewrite get_le_blit_after by buffer_side
    | rewrite sub_blit_before by lia
    | rewrite sub_blit_after by buffer_side
    | rewrite sub_blit_same by buffer_side ].

(** * Comparison lemmas *)

(** The comparison as one structural recursion. *)
Fixpoint lex (a b : Bytes) : comparison :=
  match a, b with
  | [], [] => Eq
  | [], _ :: _ => Lt
  | _ :: _, [] => Gt
  | x :: a, y :: b => match x ?= y with Eq => lex a b | c => c end
  end.

Lemma compare_bytes_lex a b : compare_bytes a b = lex a b.
Proof.
  revert b. induction a as [|x a IH]; intros [|y b]; try done.
  unfold compare_bytes in *. cbn. rewrite <- IH. by destruct (x ?= y).
Qed.

Lemma lex_eq a b : lex a b = Eq <-> a = b.
Proof.
  revert b. induction a as [|x a IH]; intros [|y b]; cbn; try (split; congruence).
  destruct (Z.compare_spec x y) as [->| |].
  - rewrite IH. split; congruence.
  - split; [done|]. intros [= -> ?]. lia.
  - split; [done|]. intros [= -> ?]. lia.
Qed.

Lemma lex_antisym a b : lex b a = CompOpp (lex a b).
Proof.
  revert b. induction a as [|x a IH]; intros [|y b]; try done. cbn.
  rewrite (Z.compare_antisym x y). destruct (x ?= y); cbn; auto.
Qed.

Lemma lex_trans a b c : lex a b = Lt -> lex b c = Lt -> lex a c = Lt.
Proof.
  revert b c. induction a as [|x a IH]; intros [|y b] [|z c]; try done. cbn.
  destruct (Z.compare_spec x y), (Z.compare_spec y z), (Z.compare_spec x z);
    subst; try done; try lia. apply IH.
Qed.

(** A common prefix does not decide. *)
Lemma lex_app p a b : lex (p ++ a) (p ++ b) = lex a b.
Proof. induction p as [|x p IH]; cbn; [done|]. by rewrite Z.compare_refl. Qed.

(** The comparison of two strings of equal length decides before any suffix. *)
Lemma lex_same_length a b c d :
  length a = length b ->
  lex (a ++ c) (b ++ d) = match lex a b with Eq => lex c d | r => r end.
Proof.
  revert b. induction a as [|x a IH]; intros [|y b] H; simplify_eq/=; [done|].
  destruct (x ?= y); auto.
Qed.
