(* ===== verification/Crc32c.v ===== *)
(** CRC-32C (engine/src/crc32c.cpp): the byte-at-a-time, table-driven
    checksum that protects journal records, pages and log frames.

    [crc32c] is the code.  [crc_reference] is what it must compute: the
    message, as one little-endian integer, reduced bit by bit by the
    reflected Castagnoli polynomial.  The file proves the two equal, that
    the seeded form continues a checksum over a concatenation (which is how
    frames and records are hashed piecewise), and that a change confined to
    any four consecutive bytes always changes the checksum. *)

From S2P Require Import Prelude Bytes.
From stdpp Require Import base numbers list.
Open Scope Z_scope.

Definition kPolynomial : Z := 0x82F63B78.

(** One iteration of the inner loop of [make_table]. *)
Definition table_step (c : Z) : Z :=
  if negb (Z.land c 1 =? 0) then Z.lxor kPolynomial (Z.shiftr c 1) else Z.shiftr c 1.

Definition make_table : list Z :=
  map (fun i => Nat.iter 8 table_step (Z.of_nat i)) (seq 0 256).

Definition kTable : list Z := Eval vm_compute in make_table.

(** [~c] on a [uint32_t]. *)
Definition not32 (c : Z) : Z := Z.lxor c 0xFFFFFFFF.

(** The loop body: [kTable[(c ^ b) & 0xFF] ^ (c >> 8)]. *)
Definition crc_byte (c b : Z) : Z :=
  Z.lxor (nth (Z.to_nat (Z.land (Z.lxor c b) 255)) kTable 0) (Z.shiftr c 8).

Definition crc32c_seeded (crc : Z) (data : Bytes) : Z :=
  not32 (fold_left crc_byte data (not32 crc)).
Definition crc32c (data : Bytes) : Z := crc32c_seeded 0 data.

(** The specification: long division of the whole message, one bit at a
    time, over the initial value and the message read as one integer. *)
Definition crc_reference (crc : Z) (data : Bytes) : Z :=
  not32 (Nat.iter (8 * length data) table_step (Z.lxor (not32 crc) (le_value data))).

Example crc32c_check_value :
  crc32c [0x31; 0x32; 0x33; 0x34; 0x35; 0x36; 0x37; 0x38; 0x39] = 0xE3069283.
Proof. vm_compute. reflexivity. Qed.

(** * The division step *)

Lemma table_step_odd c :
  table_step c = Z.lxor (if Z.odd c then kPolynomial else 0) (Z.shiftr c 1).
Proof.
  unfold table_step. change 1 with (Z.ones 1) at 1. rewrite Z.land_ones by lia.
  change (2 ^ 1) with 2. rewrite Zmod_odd.
  destruct (Z.odd c); cbn [negb Z.eqb]; [done | by rewrite Z.lxor_0_l].
Qed.

Lemma table_step_lxor x y : table_step (Z.lxor x y) = Z.lxor (table_step x) (table_step y).
Proof.
  rewrite !table_step_odd, Z.shiftr_lxor.
  rewrite <- !Z.bit0_odd, Z.lxor_spec.
  apply Z.bits_inj'. intros n Hn. rewrite !Z.lxor_spec.
  destruct (Z.testbit x 0), (Z.testbit y 0); cbn [xorb]; rewrite ?Z.bits_0;
    destruct (Z.testbit kPolynomial n), (Z.testbit (Z.shiftr x 1) n),
      (Z.testbit (Z.shiftr y 1) n); done.
Qed.

Lemma steps_lxor n x y :
  Nat.iter n table_step (Z.lxor x y)
  = Z.lxor (Nat.iter n table_step x) (Nat.iter n table_step y).
Proof. induction n as [|n IH]; [done|]. by rewrite !Nat.iter_succ, IH, table_step_lxor. Qed.

Lemma iter_add {A} (f : A -> A) n m x :
  Nat.iter (n + m) f x = Nat.iter n f (Nat.iter m f x).
Proof. induction n as [|n IH]; [done|]. cbn [Nat.add]. by rewrite !Nat.iter_succ, IH. Qed.

(** A value whose low bits are zero is only shifted. *)
Lemma steps_shiftl n v : Nat.iter n table_step (Z.shiftl v (Z.of_nat n)) = v.
Proof.
  revert v. induction n as [|n IH]; intros v; [apply Z.shiftl_0_r|].
  replace (S n) with (n + 1)%nat by lia. rewrite iter_add.
  change (Nat.iter 1 table_step ?x) with (table_step x).
  rewrite table_step_odd.
  replace (Z.of_nat (n + 1)) with (Z.of_nat n + 1) by lia.
  rewrite <- Z.shiftl_shiftl by lia.
  rewrite (Z.shiftl_mul_pow2 (Z.shiftl v (Z.of_nat n)) 1) by lia.
  change (2 ^ 1) with 2. rewrite Z.odd_mul, andb_false_r, Z.lxor_0_l.
  rewrite Z.shiftr_div_pow2 by lia. change (2 ^ 1) with 2. rewrite Z.div_mul by lia.
  apply IH.
Qed.

(** The step is injective on 32-bit values: bit 31 of the result tells
    whether the polynomial was added, because the polynomial has it set. *)
Lemma table_step_u32 c : u32_ok c -> u32_ok (table_step c).
Proof.
  unfold u32_ok. intros Hc. rewrite table_step_odd.
  assert (0 <= Z.shiftr c 1 < 2 ^ 31).
  { rewrite Z.shiftr_div_pow2 by lia. change (2 ^ 1) with 2.
    split; [apply Z.div_pos; lia | apply Z.div_lt_upper_bound; lia]. }
  destruct (Z.odd c).
  - split; [apply Z.lxor_nonneg; unfold kPolynomial; lia|].
    apply Z.log2_lt_cancel. rewrite Z.log2_pow2 by lia.
    apply (Z.le_lt_trans _ (Z.max (Z.log2 kPolynomial) (Z.log2 (Z.shiftr c 1)))).
    + apply Z.log2_lxor; unfold kPolynomial; lia.
    + apply Z.max_lub_lt; [done|].
      apply (Z.le_lt_trans _ (Z.log2 (2 ^ 31))); [apply Z.log2_le_mono; lia | done].
  - rewrite Z.lxor_0_l. lia.
Qed.

Lemma steps_u32 n c : u32_ok c -> u32_ok (Nat.iter n table_step c).
Proof. intros. induction n; [done|]. rewrite Nat.iter_succ. by apply table_step_u32. Qed.

Lemma table_step_bit31 c : u32_ok c -> Z.testbit (table_step c) 31 = Z.odd c.
Proof.
  unfold u32_ok. intros Hc. rewrite table_step_odd, Z.lxor_spec, Z.shiftr_spec by lia.
  assert (Z.testbit c (31 + 1) = false) as ->.
  { destruct (decide (c = 0)) as [->|]; [apply Z.bits_0|].
    apply Z.bits_above_log2; [lia|]. apply Z.log2_lt_pow2; lia. }
  rewrite xorb_false_r. by destruct (Z.odd c).
Qed.

Lemma table_step_inj x y : u32_ok x -> u32_ok y -> table_step x = table_step y -> x = y.
Proof.
  intros Hx Hy E.
  assert (Hodd : Z.odd x = Z.odd y).
  { rewrite <- (table_step_bit31 x), <- (table_step_bit31 y) by done. by rewrite E. }
  rewrite !table_step_odd, Hodd in E.
  assert (Hs : Z.shiftr x 1 = Z.shiftr y 1).
  { apply (f_equal (Z.lxor (if Z.odd y then kPolynomial else 0))) in E.
    by rewrite <- !Z.lxor_assoc, !Z.lxor_nilpotent, !Z.lxor_0_l in E. }
  rewrite (Z.div2_odd x), (Z.div2_odd y), !Z.div2_spec, Hs, Hodd. done.
Qed.

Lemma steps_inj n x y :
  u32_ok x -> u32_ok y -> Nat.iter n table_step x = Nat.iter n table_step y -> x = y.
Proof.
  intros Hx Hy. induction n as [|n IH]; [done|].
  rewrite !Nat.iter_succ. intros E. apply IH, table_step_inj; auto using steps_u32.
Qed.

(** * The table *)

Lemma kTable_spec i : 0 <= i < 256 -> nth (Z.to_nat i) kTable 0 = Nat.iter 8 table_step i.
Proof.
  intros Hi. change kTable with make_table. unfold make_table.
  rewrite (nth_indep _ 0 (Nat.iter 8 table_step (Z.of_nat 0)))
    by (rewrite length_map, length_seq; lia).
  rewrite (map_nth (fun i => Nat.iter 8 table_step (Z.of_nat i))).
  rewrite seq_nth by lia. by rewrite Nat.add_0_l, Z2Nat.id by lia.
Qed.

Lemma lxor_u32 x y : u32_ok x -> u32_ok y -> u32_ok (Z.lxor x y).
Proof.
  unfold u32_ok. intros Hx Hy. split; [apply Z.lxor_nonneg; lia|].
  destruct (decide (Z.lxor x y = 0)) as [->|Hne]; [lia|].
  assert (0 <= Z.lxor x y) by (apply Z.lxor_nonneg; lia).
  apply Z.log2_lt_pow2; [lia|].
  apply (Z.le_lt_trans _ (Z.max (Z.log2 x) (Z.log2 y))); [apply Z.log2_lxor; lia|].
  apply Z.max_lub_lt.
  - destruct (decide (x = 0)) as [->|]; [done | apply Z.log2_lt_pow2; lia].
  - destruct (decide (y = 0)) as [->|]; [done | apply Z.log2_lt_pow2; lia].
Qed.

Lemma not32_u32 c : u32_ok c -> u32_ok (not32 c).
Proof. intros. apply lxor_u32; [done | unfold u32_ok; lia]. Qed.

Lemma not32_invol c : not32 (not32 c) = c.
Proof. unfold not32. by rewrite Z.lxor_assoc, Z.lxor_nilpotent, Z.lxor_0_r. Qed.

Lemma is_byte_u32 b : is_byte b -> u32_ok b.
Proof. unfold is_byte, u32_ok. lia. Qed.

(** One table lookup is eight division steps. *)
Lemma crc_byte_steps c b :
  u32_ok c -> is_byte b -> crc_byte c b = Nat.iter 8 table_step (Z.lxor c b).
Proof.
  intros Hc Hb. unfold crc_byte.
  set (x := Z.lxor c b). change 255 with (Z.ones 8). rewrite Z.land_ones by lia.
  rewrite kTable_spec by (apply Z.mod_pos_bound; lia).
  assert (Hhi : Z.shiftr c 8 = Z.shiftr x 8).
  { unfold x. rewrite Z.shiftr_lxor.
    rewrite (Z.shiftr_div_pow2 b) by lia. unfold is_byte in Hb.
    rewrite (Z.div_small b) by lia. by rewrite Z.lxor_0_r. }
  rewrite Hhi.
  assert (Hx : x = Z.lxor (x mod 2 ^ 8) (Z.shiftl (Z.shiftr x 8) 8)).
  { apply Z.bits_inj'. intros n Hn. rewrite Z.lxor_spec, Z.shiftl_spec by lia.
    destruct (decide (n < 8)).
    - rewrite Z.mod_pow2_bits_low by lia.
      by rewrite (Z.testbit_neg_r _ (n - 8)), xorb_false_r by lia.
    - rewrite Z.mod_pow2_bits_high, Z.shiftr_spec by lia.
      rewrite xorb_false_l. f_equal. lia. }
  rewrite Hx at 3. rewrite steps_lxor. f_equal.
  symmetry. apply (steps_shiftl 8).
Qed.

Lemma crc_byte_u32 c b : u32_ok c -> is_byte b -> u32_ok (crc_byte c b).
Proof.
  intros. rewrite crc_byte_steps by done.
  apply steps_u32, lxor_u32; auto using is_byte_u32.
Qed.

Lemma crc_fold_u32 data c : u32_ok c -> bytes_ok data -> u32_ok (fold_left crc_byte data c).
Proof.
  intros Hc Hd. revert c Hc. induction Hd; intros c Hc; cbn; auto using crc_byte_u32.
Qed.

Lemma le_value_cons_lxor b v : is_byte b -> 0 <= v -> b + 256 * v = Z.lxor b (Z.shiftl v 8).
Proof.
  unfold is_byte. intros Hb Hv.
  rewrite Z.mul_comm. change 256 with (2 ^ 8). rewrite <- lor_disjoint by lia.
  symmetry. apply Z.lxor_lor.
  apply Z.bits_inj'. intros n Hn. rewrite Z.land_spec, Z.bits_0.
  destruct (decide (n < 8)).
  - rewrite Z.shiftl_spec_low by lia. apply andb_false_r.
  - destruct (decide (b = 0)) as [->|]; [by rewrite Z.bits_0|].
    assert (Z.log2 b < 8) by (apply Z.log2_lt_pow2; lia).
    by rewrite (Z.bits_above_log2 b) by lia.
Qed.

(** The running checksum of a string is the division of its integer. *)
Lemma crc_fold_steps data c :
  u32_ok c -> bytes_ok data ->
  fold_left crc_byte data c
  = Nat.iter (8 * length data) table_step (Z.lxor c (le_value data)).
Proof.
  intros Hc Hd. revert c Hc. induction Hd as [|b l Hb Hl IH]; intros c Hc.
  { cbn. by rewrite Z.lxor_0_r. }
  cbn [fold_left le_value length]. rewrite IH by auto using crc_byte_u32.
  rewrite crc_byte_steps by done.
  replace (8 * S (length l))%nat with (8 * length l + 8)%nat by lia.
  rewrite iter_add. f_equal.
  rewrite le_value_cons_lxor by (try apply (le_value_bound l Hl); done).
  rewrite <- Z.lxor_assoc, (steps_lxor 8 (Z.lxor c b)). f_equal.
  symmetry. apply (steps_shiftl 8).
Qed.

Lemma crc_fold_inj data x y :
  bytes_ok data -> u32_ok x -> u32_ok y ->
  fold_left crc_byte data x = fold_left crc_byte data y -> x = y.
Proof.
  intros Hd. revert x y. induction Hd as [|b l Hb Hl IH]; intros x y Hx Hy E; [done|].
  cbn in E. apply IH in E; auto using crc_byte_u32.
  rewrite !crc_byte_steps in E by done.
  apply steps_inj in E; auto using lxor_u32, is_byte_u32.
  apply (f_equal (fun z => Z.lxor z b)) in E.
  by rewrite !Z.lxor_assoc, !Z.lxor_nilpotent, !Z.lxor_0_r in E.
Qed.

Lemma not32_inj x y : not32 x = not32 y -> x = y.
Proof. intros E. by rewrite <- (not32_invol x), E, not32_invol. Qed.

(** * What the rest of the engine uses *)

Lemma crc32c_u32 crc data : u32_ok crc -> bytes_ok data -> u32_ok (crc32c_seeded crc data).
Proof. intros. apply not32_u32, crc_fold_u32; auto using not32_u32. Qed.

Lemma crc32c_seeded_app crc a b :
  crc32c_seeded (crc32c_seeded crc a) b = crc32c_seeded crc (a ++ b).
Proof. unfold crc32c_seeded. by rewrite not32_invol, fold_left_app. Qed.

Lemma crc32c_seed_inj x y data :
  u32_ok x -> u32_ok y -> bytes_ok data ->
  crc32c_seeded x data = crc32c_seeded y data -> x = y.
Proof.
  intros Hx Hy Hd E. apply not32_inj in E.
  apply crc_fold_inj in E; auto using not32_u32, not32_inj.
Qed.

Lemma zero_u32 : u32_ok 0.
Proof. unfold u32_ok. lia. Qed.

#[export] Hint Resolve crc32c_u32 zero_u32 : archivum.

(** Four differing bytes at the same place change every checksum. *)
Lemma crc32c_burst crc p w1 w2 q :
  u32_ok crc -> bytes_ok p -> bytes_ok w1 -> bytes_ok w2 -> bytes_ok q ->
  length w1 = length w2 -> (length w1 <= 4)%nat ->
  crc32c_seeded crc (p ++ w1 ++ q) = crc32c_seeded crc (p ++ w2 ++ q) -> w1 = w2.
Proof.
  intros Hc Hp H1 H2 Hq Hlen H4 E. unfold crc32c_seeded in E.
  apply not32_inj in E. rewrite !fold_left_app in E.
  set (s := fold_left crc_byte p (not32 crc)) in *.
  assert (Hs : u32_ok s) by (apply crc_fold_u32; auto using not32_u32).
  apply crc_fold_inj in E; auto using crc_fold_u32.
  rewrite !crc_fold_steps, Hlen in E by done.
  assert (Hle : forall w, bytes_ok w -> (length w <= 4)%nat -> u32_ok (le_value w)).
  { intros w Hw Hw4. pose proof (le_value_bound w Hw) as Hb. unfold u32_ok.
    change (2 ^ 32) with (256 ^ 4).
    assert (256 ^ Z.of_nat (length w) <= 256 ^ 4) by (apply Z.pow_le_mono_r; lia). lia. }
  assert (u32_ok (le_value w1)) by (apply Hle; [done|lia]).
  assert (u32_ok (le_value w2)) by (apply Hle; [done|lia]).
  apply steps_inj in E; [|by apply lxor_u32..].
  apply (f_equal (Z.lxor s)) in E.
  rewrite <- !Z.lxor_assoc, Z.lxor_nilpotent, !Z.lxor_0_l in E.
  rewrite <- (le_bytes_le_value w1), <- (le_bytes_le_value w2), E, Hlen by done. done.
Qed.

(** * Properties *)

(** [C31] The table-driven checksum of crc32c.cpp, for every 32-bit seed and
    every byte string, is the bit-by-bit division of the whole message by
    the Castagnoli polynomial. *)
Theorem crc32c_is_polynomial_division crc data :
  u32_ok crc -> bytes_ok data -> crc32c_seeded crc data = crc_reference crc data.
Proof.
  intros. unfold crc32c_seeded, crc_reference.
  by rewrite crc_fold_steps by auto using not32_u32.
Qed.

Lemma crc32c_is_polynomial_division_witness :
  u32_ok 7 /\ bytes_ok [1; 2; 255] /\ crc32c_seeded 7 [1; 2; 255] = crc_reference 7 [1; 2; 255].
Proof.
  assert (H1 : u32_ok 7) by (unfold u32_ok; lia).
  assert (H2 : bytes_ok [1; 2; 255]) by decide_now.
  split; [exact H1|]. split; [exact H2|]. exact (crc32c_is_polynomial_division 7 [1; 2; 255] H1 H2).
Defined.

(** Burst detection: two byte strings that differ only inside a window
    of at most four consecutive bytes (any burst of up to 32 bits) never
    have the same checksum, whatever surrounds the window and whatever the
    seed. *)
Theorem crc32c_detects_burst crc p w1 w2 q :
  u32_ok crc -> bytes_ok p -> bytes_ok w1 -> bytes_ok w2 -> bytes_ok q ->
  length w1 = length w2 -> (length w1 <= 4)%nat -> w1 <> w2 ->
  crc32c_seeded crc (p ++ w1 ++ q) <> crc32c_seeded crc (p ++ w2 ++ q).
Proof.
  intros Hc Hp H1 H2 Hq Hl H4 Hne E. apply Hne.
  exact (crc32c_burst crc p w1 w2 q Hc Hp H1 H2 Hq Hl H4 E).
Qed.

Lemma crc32c_detects_burst_witness :
  crc32c_seeded 0 ([9; 9] ++ [1; 2; 3; 4] ++ [7]) <> crc32c_seeded 0 ([9; 9] ++ [4; 3; 2; 1] ++ [7]).
Proof.
  apply (crc32c_detects_burst 0 [9; 9] [1; 2; 3; 4] [4; 3; 2; 1] [7]);
    try decide_now; try done; cbn; lia.
Defined.
