(* ===== verification/PageFormat.v ===== *)
(** On-disk formats of the database file and the write-ahead log
    (engine/include/archivum/engine/page_format.h,
    engine/src/engine/page_format.cpp).

    Each format is a Module named after its C++ struct: a Record of the
    struct's fields with [encode], which overwrites the front of a buffer in
    place, and [decode], which validates a buffer.  Page numbers, frame
    numbers and counters are [Z] with the width their type has in C++. *)

From S2P Require Import Prelude Bytes Crc32c.
From stdpp Require Import base numbers list strings.
Open Scope Z_scope.

Abbreviation PageNo := Z.   (* page 0 is the database header *)
Definition kMinPageSize : Z := 512.
Definition kMaxPageSize : Z := 65536.
Definition kDefaultPageSize : Z := 4096.
Definition kPageTrailerBytes : nat := 4.

(** The test on a page size that the header decoder makes. *)
Definition valid_page_size (n : Z) : bool :=
  negb ((n <? kMinPageSize) || (kMaxPageSize <? n) || negb (Z.land n (n - 1) =? 0)).

Definition seal_page (page : Bytes) : Bytes :=
  let body := (length page - kPageTrailerBytes)%nat in
  put_u32 page body (crc32c (take body page)).

Definition page_checksum_ok (page : Bytes) : bool :=
  if (length page <? kPageTrailerBytes + 1)%nat then false
  else
    let body := (length page - kPageTrailerBytes)%nat in
    get_u32 page body =? crc32c (take body page).

(** [std::memcmp(p, magic, 8) != 0]. *)
Definition magic_differs (p magic : Bytes) : bool :=
  match memcmp 8 p magic with Eq => false | _ => true end.

Module DbHeader.

Definition kMagic : Bytes := [65; 82; 67; 72; 86; 68; 66; 49].
Definition kFormatVersion : Z := 3.
Definition kEncodedBytes : nat := 72.

Record t := mk {
  page_size : Z;
  format_version : Z;
  page_count : Z;
  freelist_head : Z;
  freelist_count : Z;
  change_counter : Z;
  db_id : Bytes;
  commit_time_us : Z
}.

#[export] Instance t_eq_dec : EqDecision t.
Proof. solve_decision. Defined.

Definition encode (h : t) (page : Bytes) : Bytes :=
  let p := blit 0 kMagic page in
  let p := put_u32 p 8 (page_size h) in
  let p := put_u32 p 12 (format_version h) in
  let p := put_u64 p 16 (page_count h) in
  let p := put_u64 p 24 (freelist_head h) in
  let p := put_u64 p 32 (freelist_count h) in
  let p := put_u64 p 40 (change_counter h) in
  let p := blit 48 (db_id h) p in
  put_u64 p 64 (u64_of_i64 (commit_time_us h)).

Definition decode (page : Bytes) : Result t :=
  if (length page <? kEncodedBytes)%nat then corrupt "database header too short"
  else if magic_differs page kMagic then corrupt "database header magic mismatch"
  else
    let h := mk (get_u32 page 8) (get_u32 page 12) (get_u64 page 16) (get_u64 page 24)
                (get_u64 page 32) (get_u64 page 40) (sub 48 16 page)
                (i64_of_u64 (get_u64 page 64)) in
    if negb (format_version h =? kFormatVersion) then
      unsupported ("database format version " +:+ to_string (format_version h))
    else if (page_size h <? kMinPageSize) || (kMaxPageSize <? page_size h)
            || negb (Z.land (page_size h) (page_size h - 1) =? 0) then
      corrupt "database header page size invalid"
    else if page_count h =? 0 then corrupt "database header page count zero"
    else Ret h.

(** The headers the field types and the decoder's checks admit. *)
Definition wf (h : t) : Prop :=
  u32_ok (page_size h) /\ format_version h = kFormatVersion
  /\ u64_ok (page_count h) /\ u64_ok (freelist_head h) /\ u64_ok (freelist_count h)
  /\ u64_ok (change_counter h) /\ length (db_id h) = 16%nat /\ bytes_ok (db_id h)
  /\ i64_ok (commit_time_us h)
  /\ valid_page_size (page_size h) = true /\ page_count h <> 0.

End DbHeader.

Module FreePage.

Definition kMagic : Bytes := [65; 82; 67; 72; 70; 82; 69; 69].
Definition kEncodedBytes : nat := 16.

Record t := mk { next : Z }.

Definition encode (f : t) (page : Bytes) : Bytes :=
  put_u64 (blit 0 kMagic page) 8 (next f).

Definition decode (page : Bytes) : Result t :=
  if (length page <? kEncodedBytes)%nat || magic_differs page kMagic then
    corrupt "free page magic mismatch"
  else Ret (mk (get_u64 page 8)).

End FreePage.

Module WalHeader.

Definition kMagic : Bytes := [65; 82; 67; 72; 87; 65; 76; 49].
Definition kEncodedBytes : nat := 48.

Record t := mk {
  page_size : Z;
  salt1 : Z;
  salt2 : Z;
  db_id : Bytes;
  base_change_counter : Z
}.

#[export] Instance t_eq_dec : EqDecision t.
Proof. solve_decision. Defined.

Definition encode (h : t) (out : Bytes) : Bytes :=
  let p := blit 0 (replicate kEncodedBytes 0) out in
  let p := blit 0 kMagic p in
  let p := put_u32 p 8 (page_size h) in
  let p := put_u32 p 12 (salt1 h) in
  let p := put_u32 p 16 (salt2 h) in
  let p := blit 20 (db_id h) p in
  let p := put_u64 p 36 (base_change_counter h) in
  put_u32 p 44 (crc32c (take 44 p)).

Definition decode (inp : Bytes) : Result t :=
  if (length inp <? kEncodedBytes)%nat then corrupt "WAL header too short"
  else if magic_differs inp kMagic then corrupt "WAL header magic mismatch"
  else if negb (get_u32 inp 44 =? crc32c (take 44 inp)) then
    corrupt "WAL header checksum mismatch"
  else Ret (mk (get_u32 inp 8) (get_u32 inp 12) (get_u32 inp 16) (sub 20 16 inp)
               (get_u64 inp 36)).

Definition chain_seed (h : t) : Z :=
  get_u32 (encode h (replicate kEncodedBytes 0)) 44.

Definition wf (h : t) : Prop :=
  u32_ok (page_size h) /\ u32_ok (salt1 h) /\ u32_ok (salt2 h)
  /\ length (db_id h) = 16%nat /\ bytes_ok (db_id h) /\ u64_ok (base_change_counter h).

End WalHeader.

Module WalFrameHeader.

Definition kEncodedBytes : nat := 32.

Record t := mk {
  page_no : Z;
  db_size_after_commit : Z;
  salt1 : Z;
  salt2 : Z;
  checksum : Z
}.

#[export] Instance t_eq_dec : EqDecision t.
Proof. solve_decision. Defined.

Definition chained_checksum (header_with_zero_checksum page : Bytes) (previous : Z) : Z :=
  let prev := put_u32 (replicate 4 0) 0 previous in
  let c := crc32c prev in
  let c := crc32c_seeded c (take kEncodedBytes header_with_zero_checksum) in
  crc32c_seeded c page.

(** The buffer and the [checksum] member, both of which the C++ method
    writes. *)
Definition encode (h : t) (out page : Bytes) (previous : Z) : Bytes * t :=
  let p := blit 0 (replicate kEncodedBytes 0) out in
  let p := put_u64 p 0 (page_no h) in
  let p := put_u64 p 8 (db_size_after_commit h) in
  let p := put_u32 p 16 (salt1 h) in
  let p := put_u32 p 20 (salt2 h) in
  let c := chained_checksum p page previous in
  (put_u32 p 24 c, mk (page_no h) (db_size_after_commit h) (salt1 h) (salt2 h) c).

Definition decode (inp page : Bytes) (previous : Z) : Result t :=
  if (length inp <? kEncodedBytes)%nat then corrupt "WAL frame header too short"
  else
    let copy := take kEncodedBytes inp in
    let stored := get_u32 copy 24 in
    let copy := blit 24 (replicate 4 0) copy in
    let c := chained_checksum copy page previous in
    if negb (c =? stored) then corrupt "WAL frame checksum mismatch"
    else Ret (mk (get_u64 copy 0) (get_u64 copy 8) (get_u32 copy 16) (get_u32 copy 20) stored).

Definition wf (h : t) : Prop :=
  u64_ok (page_no h) /\ u64_ok (db_size_after_commit h) /\ u32_ok (salt1 h) /\ u32_ok (salt2 h).

End WalFrameHeader.

(** * Shared lemmas *)

Lemma memcmp_eq n a b : memcmp n a b = Eq -> (n <= length a)%nat -> (n <= length b)%nat ->
  take n a = take n b.
Proof.
  revert a b. induction n as [|n IH]; intros [|x a] [|y b]; cbn; try done; try lia.
  destruct (Z.compare_spec x y); try done. intros. subst. f_equal. apply IH; [done|lia..].
Qed.

Lemma memcmp_refl n a : memcmp n a a = Eq.
Proof. revert n. induction a as [|x a IH]; intros [|n]; cbn; try done. by rewrite Z.compare_refl. Qed.

Lemma memcmp_take n a b : memcmp n (take n a) (take n b) = memcmp n a b.
Proof.
  revert a b. induction n as [|n IH]; intros [|x a] [|y b]; cbn; try done.
  by rewrite IH.
Qed.

Lemma magic_differs_false p magic :
  (8 <= length p)%nat -> length magic = 8%nat ->
  magic_differs p magic = false <-> sub 0 8 p = magic.
Proof.
  intros Hp Hm. unfold magic_differs, sub. rewrite drop_0. split; intros H.
  - destruct (memcmp 8 p magic) eqn:E; try done.
    apply memcmp_eq in E; [|lia..]. by rewrite E, take_ge by lia.
  - rewrite <- memcmp_take, H. by rewrite take_ge, memcmp_refl by lia.
Qed.

Lemma length_put_u32 p off v : length (put_u32 p off v) = length p.
Proof. apply length_blit. Qed.
Lemma length_put_u64 p off v : length (put_u64 p off v) = length p.
Proof. apply length_blit. Qed.
Lemma bytes_ok_put_u32 p off v : bytes_ok p -> bytes_ok (put_u32 p off v).
Proof. intros. apply bytes_ok_blit; auto with archivum. Qed.
Lemma bytes_ok_put_u64 p off v : bytes_ok p -> bytes_ok (put_u64 p off v).
Proof. intros. apply bytes_ok_blit; auto with archivum. Qed.
#[export] Hint Rewrite length_put_u32 length_put_u64 length_blit : archivum.
#[export] Hint Resolve bytes_ok_put_u32 bytes_ok_put_u64 : archivum.

(** Overwriting a region with what it already holds changes nothing. *)
Lemma blit_sub off n p : blit off (sub off n p) p = p.
Proof.
  unfold blit. rewrite (take_ge (sub off n p)) by (rewrite length_sub; lia).
  transitivity (take off p ++ drop off p); [f_equal | apply take_drop].
  rewrite length_sub, <- drop_drop. unfold sub.
  rewrite <- (take_drop n (drop off p)) at 3. f_equal.
  destruct (decide (n <= length p - off)%nat).
  - by rewrite Nat.min_l by lia.
  - by rewrite !drop_ge by (rewrite length_drop; lia).
Qed.

Lemma put_get_u32 p off v : bytes_ok p -> (off + 4 <= length p)%nat ->
  v = get_u32 p off -> put_u32 p off v = p.
Proof. intros ?? ->. unfold put_u32, get_u32. rewrite le_bytes_get by done. apply blit_sub. Qed.
Lemma put_get_u64 p off v : bytes_ok p -> (off + 8 <= length p)%nat ->
  v = get_u64 p off -> put_u64 p off v = p.
Proof. intros ?? ->. unfold put_u64, get_u64. rewrite le_bytes_get by done. apply blit_sub. Qed.

Lemma length_seal_page page : length (seal_page page) = length page.
Proof. apply length_blit. Qed.
Lemma bytes_ok_seal_page page : bytes_ok page -> bytes_ok (seal_page page).
Proof. intros. unfold seal_page. auto with archivum. Qed.
#[export] Hint Resolve bytes_ok_seal_page : archivum.
#[export] Hint Rewrite length_seal_page : archivum.

Lemma take_blit off src p n : (n <= off)%nat -> take n (blit off src p) = take n p.
Proof.
  intros Hn. pose proof (sub_blit_before off src p 0 n Hn) as E.
  unfold sub in E. by rewrite !drop_0 in E.
Qed.

Lemma take_seal_page page n :
  (n + 4 <= length page)%nat -> take n (seal_page page) = take n page.
Proof. intros. apply take_blit. unfold kPageTrailerBytes. lia. Qed.

Lemma sub_seal_page page o n :
  (o + n + 4 <= length page)%nat -> sub o n (seal_page page) = sub o n page.
Proof. intros. apply sub_blit_before. unfold kPageTrailerBytes. lia. Qed.

Lemma get_le_seal_page page o n :
  (o + n + 4 <= length page)%nat -> get_le n (seal_page page) o = get_le n page o.
Proof. intros. apply get_le_blit_before. unfold kPageTrailerBytes. lia. Qed.

Lemma seal_page_checksum page :
  bytes_ok page -> (4 < length page)%nat -> page_checksum_ok (seal_page page) = true.
Proof.
  intros Hp Hl. unfold page_checksum_ok. rewrite length_seal_page.
  unfold kPageTrailerBytes at 1. destruct (Nat.ltb_spec (length page) (4 + 1)); [lia|].
  apply Z.eqb_eq. rewrite take_seal_page by (unfold kPageTrailerBytes; lia).
  apply get_put_le; [unfold kPageTrailerBytes; lia|].
  apply (crc32c_u32 0); auto with archivum.
Qed.

(** ** The residue: a page passes its check exactly when the checksum of the
    whole page, trailer included, is one fixed value. *)
Definition residue : Z := Eval vm_compute in not32 (Nat.iter 32 table_step 0xFFFFFFFF).

Lemma not32_lxor s : Z.lxor s (not32 s) = 0xFFFFFFFF.
Proof. unfold not32. by rewrite <- Z.lxor_assoc, Z.lxor_nilpotent, Z.lxor_0_l. Qed.

Lemma page_checksum_residue page :
  bytes_ok page -> (4 < length page)%nat ->
  page_checksum_ok page = true <-> crc32c page = residue.
Proof.
  intros Hp Hl. unfold page_checksum_ok, kPageTrailerBytes.
  destruct (Nat.ltb_spec (length page) (4 + 1)); [lia|].
  set (b := (length page - 4)%nat). rewrite Z.eqb_eq.
  assert (Hsplit : page = take b page ++ sub b 4 page).
  { unfold sub. rewrite (take_ge (drop b page)) by (rewrite length_drop; lia).
    by rewrite take_drop. }
  assert (Hlen : length (sub b 4 page) = 4%nat) by (rewrite length_sub; lia).
  unfold get_u32. rewrite get_le_value by (done || lia).
  rewrite Hsplit at 3. unfold crc32c, crc32c_seeded. rewrite fold_left_app.
  set (s := fold_left crc_byte (take b page) (not32 0)).
  assert (Hs : u32_ok s) by (apply crc_fold_u32; auto using not32_u32 with archivum).
  rewrite (crc_fold_steps (sub b 4 page)) by auto with archivum.
  rewrite Hlen. change (8 * 4)%nat with 32%nat.
  change residue with (not32 (Nat.iter 32 table_step 0xFFFFFFFF)).
  pose proof (le_value_bound (sub b 4 page) ltac:(auto with archivum)) as Hv.
  rewrite Hlen in Hv. change (256 ^ Z.of_nat 4) with (2 ^ 32) in Hv.
  rewrite <- (not32_lxor s). split.
  - by intros ->.
  - intros E. apply not32_inj in E. apply steps_inj in E;
      [|by apply lxor_u32; auto using not32_u32..].
    apply (f_equal (Z.lxor s)) in E.
    by rewrite <- !Z.lxor_assoc, !Z.lxor_nilpotent, !Z.lxor_0_l in E.
Qed.

(** * The headers *)

Lemma length_DbHeader_encode h page : length (DbHeader.encode h page) = length page.
Proof. unfold DbHeader.encode. by autorewrite with archivum. Qed.

Lemma bytes_ok_DbHeader_encode h page :
  DbHeader.wf h -> bytes_ok page -> bytes_ok (DbHeader.encode h page).
Proof.
  intros (?&?&?&?&?&?&?&?&?&?&?) Hp. unfold DbHeader.encode.
  repeat (apply bytes_ok_put_u64 || apply bytes_ok_put_u32 || apply bytes_ok_blit); auto.
  decide_now.
Qed.

Lemma valid_page_size_bounds n : valid_page_size n = true -> 512 <= n <= 65536.
Proof.
  unfold valid_page_size, kMinPageSize, kMaxPageSize. intros H. breflect. lia.
Qed.

(** The decoder reads only the first 72 bytes. *)
Lemma DbHeader_decode_encode h page :
  DbHeader.wf h -> (72 <= length page)%nat -> DbHeader.decode (DbHeader.encode h page) = Ret h.
Proof.
  intros (Hps&Hfv&Hpc&Hfh&Hfc&Hcc&Hlen&Hid&Hct&Hvp&Hnz) Hpage.
  unfold DbHeader.decode. rewrite length_DbHeader_encode. unfold DbHeader.kEncodedBytes.
  destruct (Nat.ltb_spec (length page) 72); [lia|].
  assert (magic_differs (DbHeader.encode h page) DbHeader.kMagic = false) as ->.
  { apply magic_differs_false; [rewrite length_DbHeader_encode; lia | done|].
    unfold DbHeader.encode, DbHeader.kMagic. by buffer_reads. }
  assert (Hct' := u64_of_i64_ok (DbHeader.commit_time_us h)).
  cbv zeta. cbn [DbHeader.page_size DbHeader.format_version DbHeader.page_count].
  assert (E8 : get_u32 (DbHeader.encode h page) 8 = DbHeader.page_size h)
    by (unfold DbHeader.encode, DbHeader.kMagic; by buffer_reads).
  assert (E12 : get_u32 (DbHeader.encode h page) 12 = DbHeader.format_version h)
    by (assert (u32_ok (DbHeader.format_version h)) by (rewrite Hfv; decide_now);
        unfold DbHeader.encode, DbHeader.kMagic; by buffer_reads).
  assert (E16 : get_u64 (DbHeader.encode h page) 16 = DbHeader.page_count h)
    by (unfold DbHeader.encode, DbHeader.kMagic; by buffer_reads).
  rewrite E8, E12, E16, Hfv. cbn [Z.eqb negb DbHeader.kFormatVersion Pos.eqb].
  assert (Hvp' := Hvp). apply negb_true_iff in Hvp' as ->.
  apply Z.eqb_neq in Hnz as ->. f_equal.
  rewrite <- Hfv. transitivity (DbHeader.mk (DbHeader.page_size h) (DbHeader.format_version h)
    (DbHeader.page_count h) (DbHeader.freelist_head h) (DbHeader.freelist_count h)
    (DbHeader.change_counter h) (DbHeader.db_id h) (DbHeader.commit_time_us h)); [|by destruct h].
  clear E8 E12 E16. unfold DbHeader.encode, DbHeader.kMagic.
  f_equal; buffer_reads; auto using i64_u64.
Qed.

Lemma DbHeader_decode_front page :
  (72 <= length page)%nat -> DbHeader.decode page = DbHeader.decode (take 72 page).
Proof.
  intros Hl. unfold DbHeader.decode, magic_differs, DbHeader.kEncodedBytes.
  rewrite length_take, Nat.min_l by done.
  destruct (Nat.ltb_spec (length page) 72); [lia|]. cbv zeta.
  rewrite <- (memcmp_take 8 page), <- (memcmp_take 8 (take 72 page)), take_take.
  change (8 `min` 72)%nat with 8%nat.
  unfold get_u32, get_u64. by rewrite !get_le_take, sub_take by lia.
Qed.

Lemma DbHeader_decode_wf page h :
  bytes_ok page -> DbHeader.decode page = Ret h ->
  DbHeader.wf h /\ DbHeader.encode h page = page.
Proof.
  intros Hp H. unfold DbHeader.decode in H. cbv zeta in H.
  destruct (Nat.ltb_spec (length page) DbHeader.kEncodedBytes) as [|Hl]; [done|].
  unfold DbHeader.kEncodedBytes in Hl.
  destruct (magic_differs page DbHeader.kMagic) eqn:Hm; [done|].
  apply magic_differs_false in Hm; [|lia|done].
  cbn [DbHeader.format_version DbHeader.page_size DbHeader.page_count] in H.
  destruct (negb (_ =? DbHeader.kFormatVersion)) eqn:Hv; [done|].
  destruct (_ || negb _) eqn:Hs in H; [done|].
  destruct (_ =? 0) eqn:Hz in H; [done|]. injection H as <-. breflect. split.
  - unfold DbHeader.wf.
    cbn [DbHeader.page_size DbHeader.format_version DbHeader.page_count DbHeader.freelist_head
         DbHeader.freelist_count DbHeader.change_counter DbHeader.db_id DbHeader.commit_time_us].
    split_and!; auto using i64_of_u64_ok with archivum.
    + rewrite length_sub. lia.
    + unfold valid_page_size. apply negb_true_iff.
      rewrite !orb_false_iff, !Z.ltb_ge, negb_false_iff, Z.eqb_eq. auto.
  - unfold DbHeader.encode.
    cbn [DbHeader.page_size DbHeader.format_version DbHeader.page_count DbHeader.freelist_head
         DbHeader.freelist_count DbHeader.change_counter DbHeader.db_id DbHeader.commit_time_us].
    rewrite u64_i64 by auto with archivum.
    rewrite <- Hm, blit_sub.
    rewrite (put_get_u32 page 8), (put_get_u32 page 12), (put_get_u64 page 16),
      (put_get_u64 page 24), (put_get_u64 page 32), (put_get_u64 page 40), blit_sub,
      (put_get_u64 page 64) by (done || lia). done.
Qed.

Lemma length_WalHeader_encode h out : length (WalHeader.encode h out) = length out.
Proof. unfold WalHeader.encode. by autorewrite with archivum. Qed.

Lemma bytes_ok_WalHeader_encode h out :
  WalHeader.wf h -> bytes_ok out -> bytes_ok (WalHeader.encode h out).
Proof.
  intros (?&?&?&?&?&?) Hp. unfold WalHeader.encode.
  repeat (apply bytes_ok_put_u64 || apply bytes_ok_put_u32 || apply bytes_ok_blit); auto;
    decide_now.
Qed.

(** The bytes of the header do not depend on what the buffer held. *)
Lemma WalHeader_encode_checksum h out :
  WalHeader.wf h -> bytes_ok out -> (48 <= length out)%nat ->
  get_u32 (WalHeader.encode h out) 44 = crc32c (take 44 (WalHeader.encode h out)).
Proof.
  intros Hwf Hp Hl. pose proof (bytes_ok_WalHeader_encode h out Hwf Hp) as Hok.
  unfold WalHeader.encode in *. cbv zeta in *.
  match type of Hok with bytes_ok (put_u32 ?p 44 ?v) => set (q := p) in * end.
  assert (Hq : length q = length out) by (unfold q; by autorewrite with archivum).
  assert (Htake : take 44 (put_u32 q 44 (crc32c (take 44 q))) = take 44 q) by by apply take_blit.
  rewrite Htake. assert (u32_ok (crc32c (take 44 q))).
  { rewrite <- Htake. apply (crc32c_u32 0); auto with archivum. }
  unfold get_u32, put_u32. apply get_put_le; [lia|done].
Qed.

Lemma WalHeader_decode_encode h out :
  WalHeader.wf h -> bytes_ok out -> (48 <= length out)%nat ->
  WalHeader.decode (WalHeader.encode h out) = Ret h.
Proof.
  intros Hwf Hp Hout. unfold WalHeader.decode. rewrite length_WalHeader_encode.
  unfold WalHeader.kEncodedBytes. destruct (Nat.ltb_spec (length out) 48); [lia|].
  rewrite WalHeader_encode_checksum, Z.eqb_refl by done. cbn [negb].
  destruct Hwf as (?&?&?&?&?&?).
  assert (magic_differs (WalHeader.encode h out) WalHeader.kMagic = false) as ->.
  { apply magic_differs_false; [rewrite length_WalHeader_encode; lia | done|].
    unfold WalHeader.encode, WalHeader.kMagic. by buffer_reads. }
  f_equal. transitivity (WalHeader.mk (WalHeader.page_size h) (WalHeader.salt1 h)
    (WalHeader.salt2 h) (WalHeader.db_id h) (WalHeader.base_change_counter h)); [|by destruct h].
  unfold WalHeader.encode, WalHeader.kMagic. f_equal; by buffer_reads.
Qed.

Lemma blit_app_l off src a b :
  (off + length src <= length a)%nat -> blit off src (a ++ b) = blit off src a ++ b.
Proof.
  intros H. unfold blit. rewrite length_app, take_app_le, drop_app_le by lia.
  rewrite !(take_ge src) by lia. by rewrite <- !app_assoc.
Qed.

Lemma blit_0_app src b : blit 0 src (src ++ b) = src ++ b.
Proof.
  unfold blit. rewrite length_app, (take_ge src) by lia. cbn [take app Nat.add].
  by rewrite drop_app_length.
Qed.

Lemma blit_0_zeros n out : (n <= length out)%nat ->
  blit 0 (replicate n 0) out = replicate n 0 ++ drop n out.
Proof.
  intros. unfold blit. rewrite (take_ge (replicate n 0)) by (rewrite length_replicate; lia).
  by rewrite length_replicate.
Qed.

Lemma blit_zeros n : blit 0 (replicate n 0) (replicate n 0) = replicate n 0.
Proof. pose proof (blit_0_app (replicate n 0) []) as H. by rewrite app_nil_r in H. Qed.

(** Encoding into a longer buffer fills its front and keeps the rest. *)
Lemma WalHeader_encode_front h out :
  WalHeader.wf h -> (48 <= length out)%nat ->
  WalHeader.encode h out = WalHeader.encode h (replicate 48 0) ++ drop 48 out.
Proof.
  intros (?&?&?&Hid&?&?) Hout. unfold WalHeader.encode, WalHeader.kEncodedBytes. cbv zeta.
  rewrite blit_zeros, blit_0_zeros by done. unfold put_u32, put_u64.
  assert (length WalHeader.kMagic = 8%nat) by done.
  repeat first
    [ rewrite blit_app_l by (rewrite ?length_blit, ?length_le_bytes, ?length_replicate; lia)
    | rewrite take_app_le by (rewrite !length_blit, length_replicate; lia) ].
  done.
Qed.

Lemma WalHeader_decode_wf inp h :
  bytes_ok inp -> WalHeader.decode inp = Ret h ->
  WalHeader.wf h /\ WalHeader.encode h inp = inp.
Proof.
  intros Hp H. unfold WalHeader.decode in H.
  destruct (Nat.ltb_spec (length inp) WalHeader.kEncodedBytes) as [|Hl]; [done|].
  unfold WalHeader.kEncodedBytes in Hl.
  destruct (magic_differs inp WalHeader.kMagic) eqn:Hm; [done|].
  apply magic_differs_false in Hm; [|lia|done].
  destruct (negb (_ =? _)) eqn:Hc; [done|]. injection H as <-. breflect. split.
  - unfold WalHeader.wf.
    cbn [WalHeader.page_size WalHeader.salt1 WalHeader.salt2 WalHeader.db_id
         WalHeader.base_change_counter].
    split_and!; auto with archivum. rewrite length_sub. lia.
  - unfold WalHeader.encode, WalHeader.kEncodedBytes.
    cbn [WalHeader.page_size WalHeader.salt1 WalHeader.salt2 WalHeader.db_id
         WalHeader.base_change_counter]. cbv zeta.
    match goal with |- put_u32 ?p 44 _ = _ => set (q := p) end.
    assert (Hq : length q = length inp) by (unfold q; by autorewrite with archivum).
    assert (E44 : take 44 q = take 44 inp).
    { rewrite <- !(sub_0 44). change 44%nat with (8 + (4 + (4 + (4 + (16 + 8)))))%nat.
      rewrite !sub_split. unfold q, WalHeader.kMagic in *. rewrite <- Hm.
      unfold get_u32, get_u64, put_u32, put_u64. rewrite !le_bytes_get by (done || lia).
      by buffer_reads. }
    rewrite E44, <- Hc. unfold put_u32, get_u32. rewrite le_bytes_get by (done || lia).
    apply (eq_by_front 48); [|unfold q, WalHeader.kMagic, put_u32, put_u64; rewrite !drop_blit by
      (rewrite ?length_sub, ?length_le_bytes, ?length_replicate; cbn [length]; lia); done].
    rewrite <- !sub_0. change 48%nat with (44 + 4)%nat. rewrite !sub_split. f_equal.
    + rewrite !sub_0. rewrite take_blit by lia. done.
    + rewrite sub_blit_same; [done| | ]; rewrite length_sub; lia.
Qed.

(** The seed of the frame chain is the checksum field of the header on disk. *)
Lemma chain_seed_on_disk h out :
  WalHeader.wf h -> (48 <= length out)%nat ->
  WalHeader.chain_seed h = get_u32 (WalHeader.encode h out) 44.
Proof.
  intros Hwf Hl. rewrite WalHeader_encode_front by done.
  unfold WalHeader.chain_seed, get_u32. rewrite get_le_region, (get_le_region 4 _ 44).
  by rewrite sub_app_l by (rewrite length_WalHeader_encode, length_replicate; lia).
Qed.

Lemma chain_seed_u32 h : WalHeader.wf h -> u32_ok (WalHeader.chain_seed h).
Proof.
  intros Hwf. unfold WalHeader.chain_seed. apply get_u32_ok.
  apply bytes_ok_WalHeader_encode; [done|]. by apply bytes_ok_replicate.
Qed.
#[export] Hint Resolve chain_seed_u32 : archivum.

(** * Frames *)

Lemma chained_checksum_u32 hdr page previous :
  bytes_ok hdr -> bytes_ok page -> u32_ok (WalFrameHeader.chained_checksum hdr page previous).
Proof.
  intros. apply crc32c_u32; [|done]. apply crc32c_u32; [|auto with archivum].
  apply (crc32c_u32 0); [done|]. apply bytes_ok_put_u32. by apply bytes_ok_replicate.
Qed.

(** The three checksum calls hash one string. *)
Lemma chained_checksum_flat hdr page previous :
  WalFrameHeader.chained_checksum hdr page previous
  = crc32c_seeded 0 ([] ++ le_bytes 4 previous ++ take 32 hdr ++ page).
Proof.
  unfold WalFrameHeader.chained_checksum, crc32c. cbv zeta.
  rewrite !crc32c_seeded_app. reflexivity.
Qed.

(** The checksum determines the predecessor: everything hashed after it is
    an injection of the running state, and the predecessor's four bytes are
    within the burst bound. *)
Lemma chained_checksum_previous hdr page p1 p2 :
  bytes_ok hdr -> bytes_ok page -> u32_ok p1 -> u32_ok p2 ->
  WalFrameHeader.chained_checksum hdr page p1 = WalFrameHeader.chained_checksum hdr page p2 ->
  p1 = p2.
Proof.
  intros Hh Hp H1 H2. rewrite !chained_checksum_flat. intros E.
  apply (crc32c_burst 0 []) in E; rewrite ?length_le_bytes; auto with archivum.
  - rewrite <- (le_value_le_bytes 4 p1), <- (le_value_le_bytes 4 p2) by done. by rewrite E.
  - constructor.
  - rewrite bytes_ok_app. auto with archivum.
Qed.

(** The header's bytes before the checksum is filled in. *)
Definition frame_prefix (h : WalFrameHeader.t) : Bytes :=
  le_bytes 8 (WalFrameHeader.page_no h) ++ le_bytes 8 (WalFrameHeader.db_size_after_commit h)
  ++ le_bytes 4 (WalFrameHeader.salt1 h) ++ le_bytes 4 (WalFrameHeader.salt2 h).

Definition frame_checksum (h : WalFrameHeader.t) (page : Bytes) (previous : Z) : Z :=
  WalFrameHeader.chained_checksum (frame_prefix h ++ replicate 8 0) page previous.

(** A frame header on disk: the prefix, the checksum, four zero bytes. *)
Definition frame_header_bytes (h : WalFrameHeader.t) (page : Bytes) (previous : Z) : Bytes :=
  frame_prefix h ++ le_bytes 4 (frame_checksum h page previous) ++ replicate 4 0.

Lemma length_frame_prefix h : length (frame_prefix h) = 24%nat.
Proof. unfold frame_prefix. by rewrite !length_app, !length_le_bytes. Qed.
Lemma length_frame_header_bytes h page previous :
  length (frame_header_bytes h page previous) = 32%nat.
Proof.
  unfold frame_header_bytes.
  by rewrite !length_app, length_frame_prefix, length_le_bytes, length_replicate.
Qed.
Lemma bytes_ok_frame_prefix h : bytes_ok (frame_prefix h).
Proof. unfold frame_prefix. rewrite !bytes_ok_app. auto with archivum. Qed.
Lemma bytes_ok_frame_header_bytes h page previous :
  bytes_ok (frame_header_bytes h page previous).
Proof.
  unfold frame_header_bytes. rewrite !bytes_ok_app.
  split_and!; auto using bytes_ok_frame_prefix with archivum. by apply bytes_ok_replicate.
Qed.
#[export] Hint Resolve bytes_ok_frame_prefix bytes_ok_frame_header_bytes : archivum.
#[export] Hint Rewrite length_frame_prefix length_frame_header_bytes : archivum.

Lemma frame_encode_bytes h out page previous :
  (32 <= length out)%nat ->
  WalFrameHeader.encode h out page previous
  = (frame_header_bytes h page previous ++ drop 32 out,
     WalFrameHeader.mk (WalFrameHeader.page_no h) (WalFrameHeader.db_size_after_commit h)
       (WalFrameHeader.salt1 h) (WalFrameHeader.salt2 h) (frame_checksum h page previous)).
Proof.
  intros Hl. unfold WalFrameHeader.encode, WalFrameHeader.kEncodedBytes. cbv zeta.
  set (p := put_u32 (put_u32 _ 16 _) 20 _).
  assert (Hp : p = (frame_prefix h ++ replicate 8 0) ++ drop 32 out).
  { apply (eq_by_front 32).
    - rewrite take_app_length' by (rewrite length_app, length_frame_prefix; done).
      rewrite <- sub_0. change 32%nat with (8 + (8 + (4 + (4 + 8))))%nat. rewrite !sub_split.
      unfold p, frame_prefix. rewrite <- !app_assoc. buffer_reads.
      rewrite blit_0_zeros by lia. rewrite sub_app_l by (rewrite length_replicate; lia). done.
    - rewrite drop_app_length' by (rewrite length_app, length_frame_prefix; done).
      unfold p, put_u32, put_u64. by rewrite !drop_blit by buffer_side. }
  assert (Hc : WalFrameHeader.chained_checksum p page previous = frame_checksum h page previous).
  { rewrite Hp. unfold frame_checksum, WalFrameHeader.chained_checksum, WalFrameHeader.kEncodedBytes.
    rewrite take_app_length' by (rewrite length_app, length_frame_prefix; done).
    by rewrite (take_ge (frame_prefix h ++ _)) by (rewrite length_app, length_frame_prefix; done). }
  rewrite Hc. f_equal. rewrite Hp. unfold frame_header_bytes, put_u32.
  rewrite blit_app_l by (rewrite length_app, length_frame_prefix, length_le_bytes, length_replicate; lia).
  done.
Qed.

(** What the decoder computes from the first 32 bytes. *)
Lemma frame_decode_equation inp page previous :
  (32 <= length inp)%nat ->
  WalFrameHeader.decode inp page previous
  = if WalFrameHeader.chained_checksum (take 24 inp ++ replicate 4 0 ++ sub 28 4 inp) page previous
       =? get_u32 inp 24
    then Ret (WalFrameHeader.mk (get_u64 inp 0) (get_u64 inp 8) (get_u32 inp 16) (get_u32 inp 20)
                                (get_u32 inp 24))
    else corrupt "WAL frame checksum mismatch".
Proof.
  intros Hl. unfold WalFrameHeader.decode, WalFrameHeader.kEncodedBytes.
  destruct (Nat.ltb_spec (length inp) 32); [lia|]. cbv zeta.
  assert (Hget : forall n o, (o + n <= 32)%nat -> get_le n (take 32 inp) o = get_le n inp o).
  { intros n o Ho. rewrite get_le_region, (get_le_region n inp), <- (sub_0 32 inp).
    by rewrite sub_sub. }
  assert (Hcopy : blit 24 (replicate 4 0) (take 32 inp) = take 24 inp ++ replicate 4 0 ++ sub 28 4 inp).
  { unfold blit. rewrite take_take, length_take, length_replicate. f_equal.
    rewrite take_ge by (rewrite length_replicate; lia). f_equal.
    unfold sub. by rewrite skipn_firstn_comm. }
  assert (Hzero : forall n o, (o + n <= 24)%nat ->
            get_le n (blit 24 (replicate 4 0) (take 32 inp)) o = get_le n inp o).
  { intros n o Ho. rewrite get_le_blit_before by lia. apply Hget. lia. }
  unfold get_u64, get_u32. rewrite !Hzero, Hget, Hcopy by lia.
  by destruct (_ =? _).
Qed.

Lemma frame_prefix_gets h rest :
  WalFrameHeader.wf h ->
  get_u64 (frame_prefix h ++ rest) 0 = WalFrameHeader.page_no h
  /\ get_u64 (frame_prefix h ++ rest) 8 = WalFrameHeader.db_size_after_commit h
  /\ get_u32 (frame_prefix h ++ rest) 16 = WalFrameHeader.salt1 h
  /\ get_u32 (frame_prefix h ++ rest) 20 = WalFrameHeader.salt2 h.
Proof.
  intros (H1&H2&H3&H4).
  assert (Hget : forall n o v, 0 <= v < 256 ^ Z.of_nat n ->
            sub o n (frame_prefix h ++ rest) = le_bytes n v ->
            get_le n (frame_prefix h ++ rest) o = v).
  { intros n o v Hv E. rewrite get_le_region, E.
    rewrite get_le_value by (rewrite ?length_le_bytes; auto with archivum).
    rewrite sub_all by (rewrite length_le_bytes; lia). by apply le_value_le_bytes. }
  split_and!; apply Hget; auto.
Qed.

Lemma frame_decode_bytes h page previous rest :
  WalFrameHeader.wf h -> bytes_ok page ->
  WalFrameHeader.decode (frame_header_bytes h page previous ++ rest) page previous
  = Ret (WalFrameHeader.mk (WalFrameHeader.page_no h) (WalFrameHeader.db_size_after_commit h)
           (WalFrameHeader.salt1 h) (WalFrameHeader.salt2 h) (frame_checksum h page previous)).
Proof.
  intros Hwf Hpage. rewrite frame_decode_equation
    by (rewrite length_app, length_frame_header_bytes; lia).
  assert (Hu : u32_ok (frame_checksum h page previous)).
  { apply chained_checksum_u32; [|done]. rewrite bytes_ok_app. split; auto with archivum.
    by apply bytes_ok_replicate. }
  assert (Hs : get_u32 (frame_header_bytes h page previous ++ rest) 24 = frame_checksum h page previous).
  { unfold get_u32. rewrite get_le_region.
    change (sub 24 4 (frame_header_bytes h page previous ++ rest))
      with (le_bytes 4 (frame_checksum h page previous)).
    rewrite get_le_value by (rewrite ?length_le_bytes; auto with archivum).
    rewrite sub_all by (rewrite length_le_bytes; lia). by apply le_value_le_bytes. }
  rewrite Hs.
  change (take 24 (frame_header_bytes h page previous ++ rest)) with (frame_prefix h).
  change (sub 28 4 (frame_header_bytes h page previous ++ rest)) with (replicate 4 0).
  change (replicate 4 0 ++ replicate 4 0) with (replicate 8 0).
  change (WalFrameHeader.chained_checksum _ page previous) with (frame_checksum h page previous).
  rewrite Z.eqb_refl. unfold frame_header_bytes. rewrite <- app_assoc.
  by destruct (frame_prefix_gets h ((le_bytes 4 (frame_checksum h page previous) ++ replicate 4 0) ++ rest))
    as (-> & -> & -> & ->).
Qed.

(** An accepted frame: its fields have their widths, and the stored bytes
    chain from [previous]. *)
Lemma frame_decode_inv inp page previous h :
  bytes_ok inp -> WalFrameHeader.decode inp page previous = Ret h ->
  (32 <= length inp)%nat /\ WalFrameHeader.wf h
  /\ WalFrameHeader.page_no h = get_u64 inp 0
  /\ WalFrameHeader.db_size_after_commit h = get_u64 inp 8
  /\ WalFrameHeader.salt1 h = get_u32 inp 16 /\ WalFrameHeader.salt2 h = get_u32 inp 20
  /\ WalFrameHeader.checksum h = get_u32 inp 24
  /\ WalFrameHeader.chained_checksum (take 24 inp ++ replicate 4 0 ++ sub 28 4 inp) page previous
     = get_u32 inp 24.
Proof.
  intros Hp H. destruct (decide (32 <= length inp)%nat) as [Hl|Hl].
  - rewrite frame_decode_equation in H by done.
    destruct (_ =? _) eqn:E in H; [|done]. injection H as <-. apply Z.eqb_eq in E.
    split; [done|]. split; [|auto 10].
    unfold WalFrameHeader.wf.
    cbn [WalFrameHeader.page_no WalFrameHeader.db_size_after_commit WalFrameHeader.salt1
         WalFrameHeader.salt2].
    auto with archivum.
  - unfold WalFrameHeader.decode, WalFrameHeader.kEncodedBytes in H.
    by destruct (Nat.ltb_spec (length inp) 32); [|lia].
Qed.

(** * Properties *)

(** A header page as the engine writes it: encoding a well-formed header
    into a page of the database and sealing the page gives a page that passes
    its checksum and from which the decoder reads back every field. *)
Theorem db_header_page_roundtrip h page :
  DbHeader.wf h -> bytes_ok page -> length page = Z.to_nat (DbHeader.page_size h) ->
  let sealed := seal_page (DbHeader.encode h page) in
  page_checksum_ok sealed = true /\ DbHeader.decode sealed = Ret h
  /\ length sealed = length page.
Proof.
  intros Hwf Hp Hl. cbv zeta.
  assert (512 <= DbHeader.page_size h <= 65536) by (apply valid_page_size_bounds, Hwf).
  pose proof (length_DbHeader_encode h page) as Hle.
  split; [|split].
  - apply seal_page_checksum; [by apply bytes_ok_DbHeader_encode | lia].
  - rewrite DbHeader_decode_front, take_seal_page, <- DbHeader_decode_front
      by (rewrite ?length_seal_page; lia).
    apply DbHeader_decode_encode; [done|lia].
  - by rewrite length_seal_page, Hle.
Qed.

Definition sample_header : DbHeader.t :=
  DbHeader.mk 512 3 9 4 2 77 (replicate 16 171) (-5).

Lemma db_header_page_roundtrip_witness :
  DbHeader.decode (seal_page (DbHeader.encode sample_header (replicate 512 0))) = Ret sample_header.
Proof.
  apply (db_header_page_roundtrip sample_header (replicate 512 0)).
  - unfold DbHeader.wf. split_and!; try decide_now; vm_compute; congruence.
  - apply bytes_ok_replicate. decide_now.
  - reflexivity.
Defined.

(** The header decoder accepts nothing malformed: a page it accepts has
    the current format version, a power-of-two page size in range, a
    non-zero page count and fields of their widths, and re-encoding the
    decoded header leaves the page byte for byte as it was. *)
Theorem db_header_decode_sound page h :
  bytes_ok page -> DbHeader.decode page = Ret h ->
  DbHeader.wf h /\ DbHeader.encode h page = page.
Proof. apply DbHeader_decode_wf. Qed.

Lemma db_header_decode_sound_witness :
  DbHeader.wf sample_header
  /\ DbHeader.encode sample_header (DbHeader.encode sample_header (replicate 100 1))
     = DbHeader.encode sample_header (replicate 100 1).
Proof.
  apply (db_header_decode_sound (DbHeader.encode sample_header (replicate 100 1)) sample_header);
    [decide_now | vm_compute; reflexivity].
Defined.

(** [C30] Damage to a sealed page is always detected when it is confined to
    any four consecutive bytes, in the body or in the trailer: if a page
    passes its checksum, no page that differs from it only inside such a
    window passes. *)
Theorem page_damage_detected p w1 w2 q :
  bytes_ok p -> bytes_ok w1 -> bytes_ok w2 -> bytes_ok q ->
  length w1 = length w2 -> (length w1 <= 4)%nat -> w1 <> w2 ->
  page_checksum_ok (p ++ w1 ++ q) = true -> page_checksum_ok (p ++ w2 ++ q) = false.
Proof.
  intros Hp H1 H2 Hq Hlen H4 Hne Hok.
  assert (Hl : (4 < length (p ++ w1 ++ q))%nat).
  { unfold page_checksum_ok, kPageTrailerBytes in Hok.
    destruct (Nat.ltb_spec (length (p ++ w1 ++ q)) (4 + 1)); [done|lia]. }
  assert (Hl2 : (4 < length (p ++ w2 ++ q))%nat) by (rewrite !length_app in *; lia).
  assert (Hb : forall w, bytes_ok w -> bytes_ok (p ++ w ++ q)) by (intros; by rewrite !bytes_ok_app).
  apply page_checksum_residue in Hok; auto.
  destruct (page_checksum_ok (p ++ w2 ++ q)) eqn:E; [|done].
  apply page_checksum_residue in E; auto. exfalso. apply Hne.
  apply (crc32c_burst 0 p w1 w2 q); auto with archivum. unfold crc32c in *. congruence.
Qed.

Lemma page_damage_detected_witness :
  page_checksum_ok ([1; 2] ++ [3; 0; 5] ++ drop 5 (seal_page [1; 2; 3; 4; 5; 6; 0; 0; 0; 0])) = false.
Proof.
  apply (page_damage_detected [1; 2] [3; 4; 5] [3; 0; 5]
           (drop 5 (seal_page [1; 2; 3; 4; 5; 6; 0; 0; 0; 0])));
    try decide_now; try (vm_compute; reflexivity); cbn; lia.
Defined.

(** The log header round trips in both directions: what [encode] writes
    [decode] reads back, and a buffer [decode] accepts is exactly what
    [encode] would write there. *)
Theorem wal_header_roundtrip h out :
  bytes_ok out -> (48 <= length out)%nat ->
  (WalHeader.wf h -> WalHeader.decode (WalHeader.encode h out) = Ret h)
  /\ (WalHeader.decode out = Ret h -> WalHeader.wf h /\ WalHeader.encode h out = out).
Proof.
  intros Hb Hl. split; [intros; by apply WalHeader_decode_encode | by apply WalHeader_decode_wf].
Qed.

Definition sample_wal_header : WalHeader.t := WalHeader.mk 512 17 99 (replicate 16 171) 6.

Lemma wal_header_roundtrip_witness :
  WalHeader.decode (WalHeader.encode sample_wal_header (replicate 60 8)) = Ret sample_wal_header.
Proof.
  apply (wal_header_roundtrip sample_wal_header (replicate 60 8));
    [decide_now | cbn; lia |]. unfold WalHeader.wf. split_and!; decide_now.
Defined.

(** A frame written by [encode] is read back by [decode] with the same
    fields and the checksum [encode] recorded, when it is checked against the
    page and the predecessor it was written for. *)
Theorem wal_frame_roundtrip h out page previous :
  WalFrameHeader.wf h -> bytes_ok page -> (32 <= length out)%nat ->
  WalFrameHeader.decode (fst (WalFrameHeader.encode h out page previous)) page previous
  = Ret (snd (WalFrameHeader.encode h out page previous)).
Proof. intros. rewrite frame_encode_bytes by done. by apply frame_decode_bytes. Qed.

Definition sample_frame : WalFrameHeader.t := WalFrameHeader.mk 5 0 17 99 0.

Lemma wal_frame_roundtrip_witness :
  WalFrameHeader.decode (fst (WalFrameHeader.encode sample_frame (replicate 32 7) [1; 2; 3] 1234))
    [1; 2; 3] 1234
  = Ret (snd (WalFrameHeader.encode sample_frame (replicate 32 7) [1; 2; 3] 1234)).
Proof.
  apply (wal_frame_roundtrip sample_frame (replicate 32 7) [1; 2; 3] 1234);
    [unfold WalFrameHeader.wf; split_and!; decide_now | decide_now | cbn; lia].
Defined.

(** A stale frame is never taken for the continuation of another
    history: bytes that verify against one predecessor checksum are refused
    as corrupt against every other one, with no collisions. *)
Theorem wal_frame_stale_rejected inp page p1 p2 h :
  bytes_ok inp -> bytes_ok page -> u32_ok p1 -> u32_ok p2 -> p1 <> p2 ->
  WalFrameHeader.decode inp page p1 = Ret h ->
  WalFrameHeader.decode inp page p2 = corrupt "WAL frame checksum mismatch".
Proof.
  intros Hi Hp H1 H2 Hne Hd.
  apply frame_decode_inv in Hd as (Hl & _ & _ & _ & _ & _ & _ & Hc); [|done].
  rewrite frame_decode_equation by done.
  destruct (_ =? _) eqn:E; [|done]. apply Z.eqb_eq in E. exfalso. apply Hne.
  rewrite <- Hc in E. symmetry in E. revert E. apply chained_checksum_previous; auto.
  rewrite !bytes_ok_app. split_and!; auto with archivum. by apply bytes_ok_replicate.
Qed.

Lemma wal_frame_stale_rejected_witness :
  WalFrameHeader.decode (fst (WalFrameHeader.encode sample_frame (replicate 32 7) [1; 2; 3] 1234))
    [1; 2; 3] 1235 = corrupt "WAL frame checksum mismatch".
Proof.
  apply (wal_frame_stale_rejected
    (fst (WalFrameHeader.encode sample_frame (replicate 32 7) [1; 2; 3] 1234)) [1; 2; 3] 1234 1235
    (snd (WalFrameHeader.encode sample_frame (replicate 32 7) [1; 2; 3] 1234)));
    try decide_now; vm_compute; congruence.
Defined.
