(* ===== verification/Types.v ===== *)
(** Column types and typed values (engine/include/archivum/engine/types.h,
    engine/src/engine/types.cpp).

    [Value] is the tagged union of the C++ class: the kind selects which of
    the members [i_], [text_], [blob_] and [uuid_] carries the value.  A
    [std::string] that holds text is its byte sequence.  [compare_value] and
    [valid_utf8] are the code; the file shows that the comparison is a total
    order and that [valid_utf8] accepts exactly the UTF-8 encodings of
    sequences of Unicode scalar values. *)

From S2P Require Import Prelude Bytes.
From stdpp Require Import base numbers list strings.
Open Scope Z_scope.

Inductive ColumnType :=
  | TInteger | TDecimal | TText | TBlob | TTimestamp | TBoolean | TUuid.

#[export] Instance ColumnType_eq_dec : EqDecision ColumnType.
Proof. solve_decision. Defined.

(** The enumerators' values, [static_cast<uint8_t>(ColumnType)]. *)
Definition column_type_code (t : ColumnType) : Z :=
  match t with
  | TInteger => 1 | TDecimal => 2 | TText => 3 | TBlob => 4
  | TTimestamp => 5 | TBoolean => 6 | TUuid => 7
  end.

Definition column_type_to_string (t : ColumnType) : string :=
  match t with
  | TInteger => "integer" | TDecimal => "decimal" | TText => "text" | TBlob => "blob"
  | TTimestamp => "timestamp" | TBoolean => "boolean" | TUuid => "uuid"
  end.

Inductive Value :=
  | Null
  | Integer (i : Z)
  | Decimal (units : Z)
  | Text (s : Bytes)
  | Blob (b : Bytes)
  | Timestamp (micros : Z)
  | Boolean (b : bool)
  | Uuid (u : Bytes).

#[export] Instance Value_eq_dec : EqDecision Value.
Proof. solve_decision. Defined.

Abbreviation Row := (list Value).

(** [Value::Kind]. *)
Definition kind (v : Value) : Z :=
  match v with
  | Null => 0 | Integer _ => 1 | Decimal _ => 2 | Text _ => 3 | Blob _ => 4
  | Timestamp _ => 5 | Boolean _ => 6 | Uuid _ => 7
  end.

Definition is_null (v : Value) : bool := match v with Null => true | _ => false end.

(** The values the C++ members can hold. *)
Definition value_ok (v : Value) : Prop :=
  match v with
  | Null | Boolean _ => True
  | Integer i | Decimal i | Timestamp i => i64_ok i
  | Text s | Blob s => bytes_ok s
  | Uuid u => length u = 16%nat /\ bytes_ok u
  end.
#[export] Instance value_ok_dec v : Decision (value_ok v).
Proof. destruct v; cbn; apply _. Defined.

Definition matches (v : Value) (t : ColumnType) : bool :=
  match v with
  | Null => true
  | Integer _ => bool_decide (t = TInteger)
  | Decimal _ => bool_decide (t = TDecimal)
  | Text _ => bool_decide (t = TText)
  | Blob _ => bool_decide (t = TBlob)
  | Timestamp _ => bool_decide (t = TTimestamp)
  | Boolean _ => bool_decide (t = TBoolean)
  | Uuid _ => bool_decide (t = TUuid)
  end.

(** [Value::compare]: a negative, zero or positive [int] is [Lt], [Eq] or
    [Gt].  [std::string::compare] and the blob branch compare the common
    prefix as unsigned bytes and then the lengths. *)
Definition compare_value (a b : Value) : comparison :=
  match a, b with
  | Null, Null => Eq
  | Null, _ => Lt
  | _, Null => Gt
  | Integer x, Integer y | Decimal x, Decimal y | Timestamp x, Timestamp y => x ?= y
  | Boolean x, Boolean y => Z.b2z x ?= Z.b2z y
  | Text x, Text y | Blob x, Blob y => compare_bytes x y
  | Uuid x, Uuid y => memcmp 16 x y
  | _, _ => if kind a <? kind b then Lt else Gt
  end.

(** [operator==] and [operator<]. *)
Definition value_eqb (a b : Value) : bool :=
  match compare_value a b with Eq => kind a =? kind b | _ => false end.
Definition value_ltb (a b : Value) : bool :=
  match compare_value a b with Lt => true | _ => false end.

(** [std::to_string(int64_t)]. *)
Definition int_to_string (z : Z) : string :=
  if z <? 0 then "-" +:+ to_string (- z) else to_string z.

(** The characters of a [std::string]. *)
Definition ascii_of_byte (b : Z) : Ascii.ascii := Ascii.ascii_of_N (Z.to_N b).
Definition string_of_bytes (l : Bytes) : string :=
  fold_right (fun b s => String (ascii_of_byte b) s) EmptyString l.
Fixpoint bytes_of_string (s : string) : Bytes :=
  match s with
  | EmptyString => []
  | String a s => Z.of_N (Ascii.N_of_ascii a) :: bytes_of_string s
  end.

Definition hex_digit (d : Z) : Ascii.ascii :=
  ascii_of_byte (if d <? 10 then 48 + d else 87 + d).
Definition uuid_to_string (u : Bytes) : string :=
  fold_left (fun s i =>
    let b := byte_at u i in
    let s := s +:+ String (hex_digit (Z.shiftr b 4)) (String (hex_digit (Z.land b 15)) EmptyString) in
    if (i =? 3)%nat || (i =? 5)%nat || (i =? 7)%nat || (i =? 9)%nat then s +:+ "-" else s)
    (seq 0 16) EmptyString.

Definition value_to_string (v : Value) : string :=
  match v with
  | Null => "NULL"
  | Integer i | Decimal i | Timestamp i => int_to_string i
  | Boolean b => if b then "true" else "false"
  | Text s => "'" +:+ string_of_bytes s +:+ "'"
  | Blob b => "blob(" +:+ to_string (Z.of_nat (length b)) +:+ ")"
  | Uuid u => uuid_to_string u
  end.

Record ColumnDef := mkColumnDef {
  col_name : string;
  col_type : ColumnType;
  nullable : bool;
  scale : Z
}.
#[export] Instance ColumnDef_eq_dec : EqDecision ColumnDef.
Proof. solve_decision. Defined.

(** * UTF-8 *)

(** The length and the leading bits that a first byte announces. *)
Definition utf8_lead (c : Z) : option (nat * Z) :=
  if c <? 0x80 then Some (1%nat, c)
  else if Z.land c 0xE0 =? 0xC0 then Some (2%nat, Z.land c 0x1F)
  else if Z.land c 0xF0 =? 0xE0 then Some (3%nat, Z.land c 0x0F)
  else if Z.land c 0xF8 =? 0xF0 then Some (4%nat, Z.land c 0x07)
  else None.

(** The inner loop, from [k] up to [len]. *)
Fixpoint utf8_tail (n : nat) (s : Bytes) (at_ : nat) (cp : Z) : option Z :=
  match n with
  | O => Some cp
  | S n =>
      let cc := byte_at s at_ in
      if negb (Z.land cc 0xC0 =? 0x80) then None
      else utf8_tail n s (S at_) (Z.lor (Z.shiftl cp 6) (Z.land cc 0x3F))
  end.

Definition utf8_rejected (len : nat) (cp : Z) : bool :=
  ((len =? 2)%nat && (cp <? 0x80) || (len =? 3)%nat && (cp <? 0x800)
   || (len =? 4)%nat && (cp <? 0x10000))
  || ((0x10FFFF <? cp) || (0xD800 <=? cp) && (cp <=? 0xDFFF)).

(** One iteration of the outer loop: how far it advances [i], or [None] where
    the code returns false. *)
Definition utf8_next (s : Bytes) (i : nat) : option nat :=
  match utf8_lead (byte_at s i) with
  | None => None
  | Some (len, cp) =>
      if (length s <? i + len)%nat then None
      else match utf8_tail (len - 1) s (S i) cp with
           | None => None
           | Some cp => if utf8_rejected len cp then None else Some len
           end
  end.

(** The outer loop.  Every iteration consumes at least one byte, so the
    number of bytes bounds the iterations. *)
Fixpoint utf8_loop (fuel : nat) (s : Bytes) (i : nat) : bool :=
  if (i <? length s)%nat then
    match fuel with
    | O => false
    | S fuel =>
        match utf8_next s i with
        | None => false
        | Some len => utf8_loop fuel s (i + len)
        end
    end
  else true.

Definition valid_utf8 (s : Bytes) : bool := utf8_loop (length s) s 0.

(** The specification: the encoding form of the Unicode standard. *)
Definition scalar (cp : Z) : Prop := 0 <= cp <= 0x10FFFF /\ ~ (0xD800 <= cp <= 0xDFFF).
#[export] Instance scalar_dec cp : Decision (scalar cp).
Proof. unfold scalar. apply _. Defined.
Definition utf8_encode (cp : Z) : Bytes :=
  if cp <? 0x80 then [cp]
  else if cp <? 0x800 then [192 + cp / 64; 128 + cp mod 64]
  else if cp <? 0x10000 then [224 + cp / 4096; 128 + cp / 64 mod 64; 128 + cp mod 64]
  else [240 + cp / 262144; 128 + cp / 4096 mod 64; 128 + cp / 64 mod 64; 128 + cp mod 64].
Definition utf8_encode_all (cps : list Z) : Bytes := concat (map utf8_encode cps).

(** * Order lemmas *)

Lemma memcmp_lex n a b : length a = n -> length b = n -> memcmp n a b = lex a b.
Proof.
  revert a b. induction n as [|n IH]; intros [|x a] [|y b]; cbn; intros; simplify_eq; try done.
  destruct (x ?= y); auto.
Qed.

(** The comparison as an order on keys: the kind, then a byte string or an
    integer. *)
Definition payload_compare (a b : Value) : comparison :=
  match a, b with
  | Integer x, Integer y | Decimal x, Decimal y | Timestamp x, Timestamp y => x ?= y
  | Boolean x, Boolean y => Z.b2z x ?= Z.b2z y
  | Text x, Text y | Blob x, Blob y | Uuid x, Uuid y => lex x y
  | _, _ => Eq
  end.

Lemma compare_value_eq a b :
  value_ok a -> value_ok b ->
  compare_value a b = match kind a ?= kind b with Eq => payload_compare a b | c => c end.
Proof.
  intros Ha Hb. destruct a, b; try reflexivity;
    unfold compare_value, payload_compare; cbn [kind Z.compare Pos.compare Pos.compare_cont].
  - apply compare_bytes_lex.
  - apply compare_bytes_lex.
  - apply memcmp_lex; [apply Ha | apply Hb].
Qed.

Lemma payload_compare_eq a b : kind a = kind b -> payload_compare a b = Eq -> a = b.
Proof.
  destruct a, b; cbn; intros Hk H; try discriminate; try done.
  all: try (apply Z.compare_eq in H; congruence).
  all: try (apply lex_eq in H; congruence).
  apply Z.compare_eq in H. destruct b, b0; cbn in H; congruence || lia.
Qed.

Lemma payload_compare_refl a : payload_compare a a = Eq.
Proof. destruct a; cbn; rewrite ?Z.compare_refl; try done; by apply lex_eq. Qed.

Lemma payload_compare_antisym a b :
  kind a = kind b -> payload_compare b a = CompOpp (payload_compare a b).
Proof.
  destruct a, b; cbn; intros; try discriminate; try done;
    (apply Z.compare_antisym || apply lex_antisym).
Qed.

Lemma payload_compare_trans a b c :
  kind a = kind b -> kind b = kind c ->
  payload_compare a b = Lt -> payload_compare b c = Lt -> payload_compare a c = Lt.
Proof.
  destruct a, b; cbn; try discriminate; destruct c; cbn; try discriminate; intros _ _;
    rewrite ?Z.compare_lt_iff; try lia; apply lex_trans.
Qed.

(** * UTF-8 lemmas *)

Lemma byte_cases (P : Z -> bool) :
  forallb P (map Z.of_nat (seq 0 256)) = true -> forall c, is_byte c -> P c = true.
Proof.
  intros H c Hc. unfold is_byte in Hc. rewrite forallb_forall in H. apply H.
  apply in_map_iff. exists (Z.to_nat c). rewrite in_seq. lia.
Qed.

Lemma utf8_lead_spec c : is_byte c ->
  utf8_lead c = if c <? 128 then Some (1%nat, c)
                else if c <? 192 then None
                else if c <? 224 then Some (2%nat, c - 192)
                else if c <? 240 then Some (3%nat, c - 224)
                else if c <? 248 then Some (4%nat, c - 240) else None.
Proof.
  intros Hc.
  apply (byte_cases (fun c => bool_decide (utf8_lead c =
    if c <? 128 then Some (1%nat, c)
    else if c <? 192 then None
    else if c <? 224 then Some (2%nat, c - 192)
    else if c <? 240 then Some (3%nat, c - 224)
    else if c <? 248 then Some (4%nat, c - 240) else None))) in Hc; [|vm_compute; reflexivity].
  by apply bool_decide_eq_true in Hc.
Qed.

Lemma utf8_cont_spec c : is_byte c ->
  negb (Z.land c 0xC0 =? 0x80) = negb ((128 <=? c) && (c <? 192))
  /\ (128 <= c < 192 -> Z.land c 0x3F = c - 128).
Proof.
  intros Hc.
  apply (byte_cases (fun c =>
    Bool.eqb (negb (Z.land c 0xC0 =? 0x80)) (negb ((128 <=? c) && (c <? 192)))
    && (negb ((128 <=? c) && (c <? 192)) || (Z.land c 0x3F =? c - 128)))) in Hc;
    [|vm_compute; reflexivity].
  apply andb_true_iff in Hc as [H1 H2]. apply eqb_prop in H1. split; [done|].
  intros H. apply orb_true_iff in H2 as [H2|H2].
  - apply negb_true_iff, andb_false_iff in H2. lia.
  - by apply Z.eqb_eq.
Qed.

Lemma utf8_tail_step n s at_ cp :
  bytes_ok s -> 0 <= cp ->
  utf8_tail (S n) s at_ cp
  = if (128 <=? byte_at s at_) && (byte_at s at_ <? 192)
    then utf8_tail n s (S at_) (cp * 64 + (byte_at s at_ - 128)) else None.
Proof.
  intros Hs Hcp. cbn [utf8_tail].
  destruct (utf8_cont_spec (byte_at s at_) (byte_at_ok _ _ Hs)) as [-> H].
  destruct ((128 <=? byte_at s at_) && (byte_at s at_ <? 192)) eqn:E; cbn [negb]; [|done].
  breflect. rewrite H by lia. f_equal.
  rewrite Z.lor_comm, lor_disjoint by lia. change (2 ^ 6) with 64. lia.
Qed.

Lemma utf8_tail_drop n s i at_ cp :
  utf8_tail n s (i + at_) cp = utf8_tail n (drop i s) at_ cp.
Proof.
  revert at_ cp. induction n as [|n IH]; intros at_ cp; [done|]. cbn [utf8_tail].
  assert (byte_at s (i + at_) = byte_at (drop i s) at_) as ->.
  { unfold byte_at. by rewrite !nth_lookup, lookup_drop. }
  by rewrite <- IH, <- Nat.add_succ_r.
Qed.

Lemma utf8_next_drop s i : (i <= length s)%nat -> utf8_next s i = utf8_next (drop i s) 0.
Proof.
  intros Hi. unfold utf8_next.
  assert (byte_at s i = byte_at (drop i s) 0) as ->.
  { unfold byte_at. by rewrite !nth_lookup, lookup_drop, Nat.add_0_r. }
  destruct (utf8_lead _) as [[len cp]|]; [|done].
  rewrite length_drop.
  replace (length s <? i + len)%nat with (length s - i <? 0 + len)%nat
    by (apply eq_true_iff_eq; rewrite !Nat.ltb_lt; lia).
  replace (S i) with (i + 1)%nat by lia. by rewrite utf8_tail_drop.
Qed.

Lemma utf8_rejected_false len cp :
  utf8_rejected len cp = false <->
  ~ (len = 2%nat /\ cp < 0x80) /\ ~ (len = 3%nat /\ cp < 0x800) /\ ~ (len = 4%nat /\ cp < 0x10000)
  /\ cp <= 0x10FFFF /\ ~ (0xD800 <= cp <= 0xDFFF).
Proof.
  unfold utf8_rejected.
  rewrite !orb_false_iff, !andb_false_iff, !Nat.eqb_neq, !Z.ltb_ge, !Z.leb_gt. lia.
Qed.

(** One iteration on the bytes from [i] on, with the bit masks resolved to
    ranges. *)
Definition cont (b : Z) : bool := (128 <=? b) && (b <? 192).
Definition accept (len : nat) (cp : Z) : option nat :=
  if utf8_rejected len cp then None else Some len.
Definition utf8_first (l : Bytes) : option nat :=
  match l with
  | [] => None
  | b0 :: t =>
      if b0 <? 128 then accept 1 b0
      else if b0 <? 192 then None
      else if b0 <? 224 then
        match t with
        | b1 :: _ => if cont b1 then accept 2 ((b0 - 192) * 64 + (b1 - 128)) else None
        | _ => None
        end
      else if b0 <? 240 then
        match t with
        | b1 :: b2 :: _ =>
            if cont b1 then if cont b2 then
              accept 3 (((b0 - 224) * 64 + (b1 - 128)) * 64 + (b2 - 128)) else None else None
        | _ => None
        end
      else if b0 <? 248 then
        match t with
        | b1 :: b2 :: b3 :: _ =>
            if cont b1 then if cont b2 then if cont b3 then
              accept 4 ((((b0 - 240) * 64 + (b1 - 128)) * 64 + (b2 - 128)) * 64 + (b3 - 128))
            else None else None else None
        | _ => None
        end
      else None
  end.

Lemma utf8_next_first l : bytes_ok l -> utf8_next l 0 = utf8_first l.
Proof.
  intros Hl. unfold utf8_next. rewrite utf8_lead_spec by (by apply byte_at_ok).
  destruct l as [|b0 l]; [done|]. change (byte_at (b0 :: l) 0) with b0. cbn [utf8_first].
  destruct (Z.ltb_spec b0 128); [done|].
  destruct (Z.ltb_spec b0 192); [done|].
  destruct (Z.ltb_spec b0 224); [|destruct (Z.ltb_spec b0 240); [|destruct (Z.ltb_spec b0 248); [|done]]].
  - destruct l as [|b1 l]; [done|]. change (length (b0 :: b1 :: l) <? 0 + 2)%nat with false.
    cbn [Nat.sub]. rewrite utf8_tail_step by (done || lia).
    change (byte_at _ 1) with b1. unfold cont. by destruct (_ && _).
  - destruct l as [|b1 [|b2 l]]; [done|done|].
    change (length (b0 :: b1 :: b2 :: l) <? 0 + 3)%nat with false.
    cbn [Nat.sub]. rewrite utf8_tail_step by (done || lia).
    change (byte_at _ 1) with b1. unfold cont. destruct (_ && _) eqn:E1; [|done]. breflect.
    rewrite utf8_tail_step by (done || lia).
    change (byte_at _ 2) with b2. by destruct (_ && _).
  - destruct l as [|b1 [|b2 [|b3 l]]]; [done|done|done|].
    change (length (b0 :: b1 :: b2 :: b3 :: l) <? 0 + 4)%nat with false.
    cbn [Nat.sub]. rewrite utf8_tail_step by (done || lia).
    change (byte_at _ 1) with b1. unfold cont. destruct (_ && _) eqn:E1; [|done]. breflect.
    rewrite utf8_tail_step by (done || lia).
    change (byte_at _ 2) with b2. destruct (_ && _) eqn:E2; [|done]. breflect.
    rewrite utf8_tail_step by (done || lia).
    change (byte_at _ 3) with b3. by destruct (_ && _).
Qed.

Ltac zcase := repeat match goal with
  | |- context [(?x <? ?y)%Z] => destruct (Z.ltb_spec x y); try (exfalso; lia)
  | |- context [(?x <=? ?y)%Z] => destruct (Z.leb_spec x y); try (exfalso; lia)
  end; cbn [andb].

Lemma accept_Some len cp n : accept len cp = Some n <-> n = len /\ utf8_rejected len cp = false.
Proof. unfold accept. destruct (utf8_rejected len cp); naive_solver. Qed.

Lemma cont_true b : cont b = true <-> 128 <= b < 192.
Proof. unfold cont. rewrite andb_true_iff, Z.leb_le, Z.ltb_lt. lia. Qed.

Lemma utf8_first_complete cp l :
  scalar cp -> utf8_first (utf8_encode cp ++ l) = Some (length (utf8_encode cp)).
Proof.
  unfold scalar, utf8_encode. intros Hsc.
  assert (Hc : forall x, cont (128 + x mod 64) = true).
  { intros x. apply cont_true. pose proof (Z.mod_pos_bound x 64). lia. }
  destruct (Z.ltb_spec cp 0x80); [|destruct (Z.ltb_spec cp 0x800); [|destruct (Z.ltb_spec cp 0x10000)]];
    cbn [app utf8_first length]; rewrite ?Hc;
    (zcase; [..|try (Z.to_euclidean_division_equations; lia)]);
    try (Z.to_euclidean_division_equations; lia);
    apply accept_Some; rewrite utf8_rejected_false;
    split; try done; Z.to_euclidean_division_equations; lia.
Qed.

Lemma utf8_first_sound l n :
  bytes_ok l -> utf8_first l = Some n ->
  exists cp rest, scalar cp /\ l = utf8_encode cp ++ rest /\ n = length (utf8_encode cp).
Proof.
  intros Hl H. destruct l as [|b0 l]; [done|].
  assert (Hb0 : is_byte b0) by (by inversion Hl). unfold is_byte in Hb0.
  assert (Hex : forall cp rest, scalar cp -> b0 :: l = utf8_encode cp ++ rest ->
            n = length (utf8_encode cp) -> exists cp rest, scalar cp
            /\ b0 :: l = utf8_encode cp ++ rest /\ n = length (utf8_encode cp)) by eauto.
  cbn [utf8_first] in H.
  destruct (Z.ltb_spec b0 128); [|destruct (Z.ltb_spec b0 192); [done|];
    destruct (Z.ltb_spec b0 224); [|destruct (Z.ltb_spec b0 240);
    [|destruct (Z.ltb_spec b0 248); [|done]]]].
  - apply accept_Some in H as [-> H]. apply utf8_rejected_false in H.
    apply (Hex b0 l); unfold scalar, utf8_encode; zcase; done || lia.
  - destruct l as [|b1 l]; [done|]. destruct (cont b1) eqn:E1; [|done].
    apply cont_true in E1. apply accept_Some in H as [-> H]. apply utf8_rejected_false in H.
    apply (Hex ((b0 - 192) * 64 + (b1 - 128)) l); unfold scalar, utf8_encode; [lia|..]; zcase; [|done].
    cbn [app]. repeat f_equal; Z.to_euclidean_division_equations; lia.
  - destruct l as [|b1 [|b2 l]]; [done..|]. destruct (cont b1) eqn:E1, (cont b2) eqn:E2; try done.
    apply cont_true in E1, E2. apply accept_Some in H as [-> H]. apply utf8_rejected_false in H.
    apply (Hex (((b0 - 224) * 64 + (b1 - 128)) * 64 + (b2 - 128)) l);
      unfold scalar, utf8_encode; [lia|..]; zcase; [|done].
    cbn [app]. repeat f_equal; Z.to_euclidean_division_equations; lia.
  - destruct l as [|b1 [|b2 [|b3 l]]]; [done..|].
    destruct (cont b1) eqn:E1, (cont b2) eqn:E2, (cont b3) eqn:E3; try done.
    apply cont_true in E1, E2, E3. apply accept_Some in H as [-> H]. apply utf8_rejected_false in H.
    apply (Hex ((((b0 - 240) * 64 + (b1 - 128)) * 64 + (b2 - 128)) * 64 + (b3 - 128)) l);
      unfold scalar, utf8_encode; [lia|..]; zcase; [|done].
    cbn [app]. repeat f_equal; Z.to_euclidean_division_equations; lia.
Qed.

Lemma length_utf8_encode cp : (1 <= length (utf8_encode cp))%nat.
Proof. unfold utf8_encode. zcase; cbn; lia. Qed.

Lemma utf8_loop_sound fuel s i :
  bytes_ok s -> utf8_loop fuel s i = true ->
  exists cps, Forall scalar cps /\ drop i s = utf8_encode_all cps.
Proof.
  intros Hs. revert i. induction fuel as [|fuel IH]; intros i H; cbn [utf8_loop] in H;
    destruct (Nat.ltb_spec i (length s)) as [Hi|Hi]; try done.
  1, 3: exists []; split; [constructor | by apply drop_ge].
  destruct (utf8_next s i) as [n|] eqn:E; [|done].
  rewrite utf8_next_drop, utf8_next_first in E by (auto with archivum; lia).
  apply utf8_first_sound in E as (cp & rest & Hcp & Hd & ->); [|auto with archivum].
  destruct (IH _ H) as (cps & Hcps & Hrest).
  exists (cp :: cps). split; [by constructor|].
  rewrite <- drop_drop, Hd, drop_app_length in Hrest.
  by rewrite Hd, Hrest.
Qed.

Lemma utf8_loop_complete cps fuel s i :
  Forall scalar cps -> bytes_ok s -> (i <= length s)%nat -> drop i s = utf8_encode_all cps ->
  (length s <= i + fuel)%nat -> utf8_loop fuel s i = true.
Proof.
  intros Hcps Hs. revert i fuel. induction Hcps as [|cp cps Hcp Hcps IH]; intros i fuel Hi Hd Hf.
  - apply (f_equal length) in Hd. rewrite length_drop in Hd. cbn in Hd.
    destruct fuel; cbn [utf8_loop]; destruct (Nat.ltb_spec i (length s)); done || lia.
  - change (utf8_encode_all (cp :: cps)) with (utf8_encode cp ++ utf8_encode_all cps) in Hd.
    pose proof (length_utf8_encode cp) as H1.
    pose proof (f_equal length Hd) as Hlen. rewrite length_drop, length_app in Hlen.
    destruct fuel as [|fuel]; [lia|]. cbn [utf8_loop].
    destruct (Nat.ltb_spec i (length s)); [|lia].
    rewrite utf8_next_drop, utf8_next_first, Hd, utf8_first_complete by (auto with archivum; lia).
    apply IH; [lia| |lia]. by rewrite <- drop_drop, Hd, drop_app_length.
Qed.

(** * Properties *)

(** [C40] [valid_utf8] accepts exactly the UTF-8 encodings of sequences of
    Unicode scalar values: overlong forms, surrogates, values beyond
    U+10FFFF, stray and missing continuation bytes are all refused, and
    nothing else is. *)
Theorem valid_utf8_iff s :
  bytes_ok s ->
  valid_utf8 s = true <-> exists cps, Forall scalar cps /\ s = utf8_encode_all cps.
Proof.
  intros Hs. unfold valid_utf8. split.
  - intros H. apply utf8_loop_sound in H; [|done]. by rewrite drop_0 in H.
  - intros (cps & Hcps & E). apply (utf8_loop_complete cps); auto; lia.
Qed.

Lemma valid_utf8_iff_witness :
  exists cps, Forall scalar cps /\ [0x41; 0xC3; 0xA9; 0xE2; 0x82; 0xAC] = utf8_encode_all cps.
Proof. apply (valid_utf8_iff [0x41; 0xC3; 0xA9; 0xE2; 0x82; 0xAC]); [decide_now | reflexivity]. Defined.

(** [Value::compare] is a total order on the values the members can
    hold: it answers zero only on equal values, swapping the arguments swaps
    the answer, and it is transitive, across kinds and with NULL first. *)
Theorem compare_value_total_order a b c :
  value_ok a -> value_ok b -> value_ok c ->
  (compare_value a b = Eq <-> a = b)
  /\ compare_value b a = CompOpp (compare_value a b)
  /\ (compare_value a b = Lt -> compare_value b c = Lt -> compare_value a c = Lt)
  /\ (a <> Null -> compare_value Null a = Lt).
Proof.
  intros Ha Hb Hc. rewrite !compare_value_eq by done.
  rewrite (Z.compare_antisym (kind a) (kind b)).
  split; [|split; [|split]].
  - destruct (Z.compare_spec (kind a) (kind b)) as [Hk|Hk|Hk].
    + split; [by apply payload_compare_eq | intros ->; apply payload_compare_refl].
    + split; [done | intros ->; lia].
    + split; [done | intros ->; lia].
  - destruct (Z.compare_spec (kind a) (kind b)); cbn; auto using payload_compare_antisym.
  - destruct (Z.compare_spec (kind a) (kind b)), (Z.compare_spec (kind b) (kind c)),
      (Z.compare_spec (kind a) (kind c)); try done; try lia.
    by apply payload_compare_trans.
  - by destruct a.
Qed.

Lemma compare_value_total_order_witness :
  compare_value (Text [97]) (Text [97; 0]) = Lt /\ compare_value (Text [97; 0]) (Uuid (replicate 16 0)) = Lt
  /\ compare_value (Text [97]) (Uuid (replicate 16 0)) = Lt.
Proof.
  split; [reflexivity|]. split; [reflexivity|].
  apply (compare_value_total_order (Text [97]) (Text [97; 0]) (Uuid (replicate 16 0)));
    try decide_now; reflexivity.
Defined.
