(* ===== verification/Record.v ===== *)
(** Encodings of typed values (engine/include/archivum/engine/record.h,
    engine/src/engine/record.cpp).

    The encoders append to an output buffer, as in the code.  The decoders
    walk a buffer with a position; the position is represented by the bytes
    from it on, so [pos >= in.size()] is an empty remainder and
    [pos + n > in.size()] a remainder shorter than [n].  The file shows that
    keys sort as the values they encode, that keys and rows decode to what
    was encoded, and that a row cut short or extended is refused. *)

From S2P Require Import Prelude Bytes Types.
From stdpp Require Import base numbers list strings.
Open Scope Z_scope.

Definition sign_bit : Z := 0x8000000000000000.

Definition put_be64_flipped (v : Z) (out : Bytes) : Bytes :=
  let u := Z.lxor (u64_of_i64 v) sign_bit in
  fold_left (fun out i => out ++ [Z.land (Z.shiftr u (8 * i)) 0xFF]) [7; 6; 5; 4; 3; 2; 1; 0] out.

Definition get_be64_flipped (p : Bytes) : Z :=
  let u := fold_left (fun u i => Z.lor (Z.shiftl u 8) (byte_at p i)) (seq 0 8) 0 in
  i64_of_u64 (Z.lxor u sign_bit).

Definition put_escaped (bytes out : Bytes) : Bytes :=
  fold_left (fun out b => let out := out ++ [b] in if b =? 0 then out ++ [0xFF] else out) bytes out
  ++ [0; 0].

(** The loop of [get_escaped], on the bytes from [pos] on: what it appended
    to [out] and the bytes left. *)
Fixpoint get_escaped (inp : Bytes) (out : Bytes) : Result (Bytes * Bytes) :=
  match inp with
  | [] => corrupt "unterminated key string"
  | b :: inp =>
      if negb (b =? 0) then get_escaped inp (out ++ [b])
      else match inp with
           | [] => corrupt "unterminated key string"
           | n :: inp =>
               if n =? 0 then Ret (out, inp)
               else if n =? 0xFF then get_escaped inp (out ++ [0])
               else corrupt "bad key string escape"
           end
  end.

Definition encode_key_value (v : Value) (out : Bytes) : Bytes :=
  if is_null v then out ++ [0]
  else
    let out := out ++ [1] in
    match v with
    | Integer i | Decimal i | Timestamp i => put_be64_flipped i out
    | Boolean b => out ++ [if b then 1 else 0]
    | Uuid u => out ++ u
    | Text s => put_escaped s out
    | Blob b => put_escaped b out
    | Null => out
    end.

Definition encode_key (values : Row) : Bytes :=
  fold_left (fun out v => encode_key_value v out) values [].

(** One component of [decode_key]: the value and the bytes left. *)
Definition decode_key_component (t : ColumnType) (inp : Bytes) : Result (Value * Bytes) :=
  match inp with
  | [] => corrupt "key too short"
  | tag :: inp =>
      if tag =? 0 then Ret (Null, inp)
      else if negb (tag =? 1) then corrupt "bad key tag"
      else match t with
           | TInteger | TDecimal | TTimestamp =>
               if (length inp <? 8)%nat then corrupt "key integer too short"
               else
                 let i := get_be64_flipped inp in
                 let v := match t with
                          | TInteger => Integer i
                          | TDecimal => Decimal i
                          | _ => Timestamp i
                          end in
                 Ret (v, drop 8 inp)
           | TBoolean =>
               match inp with
               | [] => corrupt "key boolean too short"
               | b :: inp => Ret (Boolean (negb (b =? 0)), inp)
               end
           | TUuid =>
               if (length inp <? 16)%nat then corrupt "key uuid too short"
               else Ret (Uuid (take 16 inp), drop 16 inp)
           | TText | TBlob =>
               let? (raw, rest) := get_escaped inp [] in
               Ret (match t with TText => Text raw | _ => Blob raw end, rest)
           end
  end.

Fixpoint decode_key (inp : Bytes) (types : list ColumnType) (out : Row) : Result (Row * Bytes) :=
  match types with
  | [] => Ret (out, inp)
  | t :: types =>
      let? (v, rest) := decode_key_component t inp in
      decode_key rest types (out ++ [v])
  end.

(** One iteration of the loop of [encode_row]. *)
Definition encode_row_value (v : Value) (out : Bytes) : Bytes :=
  let out := out ++ [kind v] in
  match v with
  | Null => out
  | Integer i | Decimal i | Timestamp i => out ++ put_u64 (replicate 8 0) 0 (u64_of_i64 i)
  | Boolean b => out ++ [if b then 1 else 0]
  | Uuid u => out ++ u
  | Text s | Blob s =>
      let out := out ++ put_u32 (replicate 4 0) 0 (wrap32 (Z.of_nat (length s))) in
      out ++ s
  end.

Definition encode_row (row : Row) : Bytes :=
  let n := Z.of_nat (length row) in
  fold_left (fun out v => encode_row_value v out) row
    [Z.land n 0xFF; Z.land (Z.shiftr n 8) 0xFF].

(** One iteration of the loop of [decode_row]. *)
Definition decode_row_value (inp : Bytes) : Result (Value * Bytes) :=
  match inp with
  | [] => corrupt "row truncated"
  | kind :: inp =>
      if kind =? 0 then Ret (Null, inp)
      else if (kind =? 1) || (kind =? 2) || (kind =? 5) then
        if (length inp <? 8)%nat then corrupt "row integer truncated"
        else
          let i := i64_of_u64 (get_u64 inp 0) in
          Ret (if kind =? 1 then Integer i else if kind =? 2 then Decimal i else Timestamp i,
               drop 8 inp)
      else if kind =? 6 then
        match inp with
        | [] => corrupt "row boolean truncated"
        | b :: inp => Ret (Boolean (negb (b =? 0)), inp)
        end
      else if kind =? 7 then
        if (length inp <? 16)%nat then corrupt "row uuid truncated"
        else Ret (Uuid (take 16 inp), drop 16 inp)
      else if (kind =? 3) || (kind =? 4) then
        if (length inp <? 4)%nat then corrupt "row length truncated"
        else
          let len := get_u32 inp 0 in
          let inp := drop 4 inp in
          if Z.of_nat (length inp) <? len then corrupt "row payload truncated"
          else
            let raw := take (Z.to_nat len) inp in
            Ret (if kind =? 3 then Text raw else Blob raw, drop (Z.to_nat len) inp)
      else corrupt "row has unknown value kind"
  end.

Fixpoint decode_row_values (n : nat) (inp : Bytes) (row : Row) : Result (Row * Bytes) :=
  match n with
  | O => Ret (row, inp)
  | S n =>
      let? (v, rest) := decode_row_value inp in
      decode_row_values n rest (row ++ [v])
  end.

Definition decode_row (inp : Bytes) : Result Row :=
  if (length inp <? 2)%nat then corrupt "row too short"
  else
    let n := Z.lor (byte_at inp 0) (Z.shiftl (byte_at inp 1) 8) in
    let? (row, rest) := decode_row_values (Z.to_nat n) (drop 2 inp) [] in
    if negb (length rest =? 0)%nat then corrupt "row has trailing bytes" else Ret row.

(** * What one value appends *)

Definition be64_bytes (v : Z) : Bytes := rev (le_bytes 8 (v + 2 ^ 63)).

Fixpoint escaped (l : Bytes) : Bytes :=
  match l with
  | [] => [0; 0]
  | b :: l => if b =? 0 then 0 :: 255 :: escaped l else b :: escaped l
  end.

Definition key_bytes (v : Value) : Bytes :=
  match v with
  | Null => [0]
  | Integer i | Decimal i | Timestamp i => 1 :: be64_bytes i
  | Boolean b => [1; if b then 1 else 0]
  | Uuid u => 1 :: u
  | Text s | Blob s => 1 :: escaped s
  end.

Lemma lxor_sign_bit w : 0 <= w < 2 ^ 63 ->
  Z.lxor w sign_bit = w + 2 ^ 63 /\ Z.lxor (w + 2 ^ 63) sign_bit = w.
Proof.
  intros Hw.
  assert (E : Z.lxor w sign_bit = w + 2 ^ 63).
  { symmetry. apply Z.add_nocarry_lxor.
    apply Z.bits_inj'. intros n Hn. rewrite Z.land_spec, Z.bits_0.
    change sign_bit with (2 ^ 63). rewrite Z.pow2_bits_eqb by lia.
    destruct (Z.eqb_spec 63 n) as [<-|]; [|apply andb_false_r].
    destruct (decide (w = 0)) as [->|]; [by rewrite Z.bits_0|].
    rewrite (Z.bits_above_log2 w) by (try apply Z.log2_lt_pow2; lia). done. }
  split; [done|]. rewrite <- E, Z.lxor_assoc, Z.lxor_nilpotent. apply Z.lxor_0_r.
Qed.

Lemma flip_value v : i64_ok v -> Z.lxor (u64_of_i64 v) sign_bit = v + 2 ^ 63.
Proof.
  unfold i64_ok, u64_of_i64. intros Hv. destruct (decide (0 <= v)).
  - rewrite Z.mod_small by lia. apply lxor_sign_bit. lia.
  - rewrite <- (Z.mod_add v 1), Z.mul_1_l, Z.mod_small by lia.
    replace (v + 2 ^ 64) with ((v + 2 ^ 63) + 2 ^ 63) by lia. apply lxor_sign_bit. lia.
Qed.

Lemma unflip_value v : i64_ok v -> i64_of_u64 (Z.lxor (v + 2 ^ 63) sign_bit) = v.
Proof.
  intros Hv. rewrite <- flip_value by done.
  rewrite Z.lxor_assoc, Z.lxor_nilpotent, Z.lxor_0_r. by apply i64_u64.
Qed.

Lemma put_be64_bytes v out : i64_ok v -> put_be64_flipped v out = out ++ be64_bytes v.
Proof.
  intros Hv. unfold put_be64_flipped. rewrite flip_value by done. cbv zeta.
  cbn [fold_left]. by rewrite <- !app_assoc.
Qed.

Lemma put_escaped_bytes l out : put_escaped l out = out ++ escaped l.
Proof.
  unfold put_escaped. revert out. induction l as [|b l IH]; intros out; [done|].
  cbn [fold_left escaped]. destruct (Z.eqb_spec b 0) as [->|]; rewrite IH, <- !app_assoc; done.
Qed.

Lemma encode_key_value_bytes v out : value_ok v -> encode_key_value v out = out ++ key_bytes v.
Proof.
  intros Hv. unfold encode_key_value. destruct v; cbn [is_null key_bytes]; try done;
    rewrite ?put_be64_bytes, ?put_escaped_bytes by done; by rewrite <- !app_assoc.
Qed.

Lemma encode_key_bytes values :
  Forall value_ok values -> encode_key values = concat (map key_bytes values).
Proof.
  intros H. unfold encode_key.
  enough (forall out, fold_left (fun out v => encode_key_value v out) values out
                      = out ++ concat (map key_bytes values)) as E by apply (E []).
  induction H as [|v l Hv Hl IH]; intros out; cbn [fold_left map concat]; [by rewrite app_nil_r|].
  rewrite encode_key_value_bytes, IH by done. by rewrite <- app_assoc.
Qed.

(** * Order of encodings *)

Lemma length_be64_bytes v : length (be64_bytes v) = 8%nat.
Proof. unfold be64_bytes. by rewrite length_rev, length_le_bytes. Qed.

Lemma lex_be n a b :
  0 <= a < 256 ^ Z.of_nat n -> 0 <= b < 256 ^ Z.of_nat n ->
  lex (rev (le_bytes n a)) (rev (le_bytes n b)) = (a ?= b).
Proof.
  revert a b. induction n as [|n IH]; intros a b Ha Hb.
  - change (256 ^ Z.of_nat 0) with 1 in *. replace b with a by lia. by rewrite Z.compare_refl.
  - rewrite !le_bytes_S. cbn [rev]. rewrite Nat2Z.inj_succ, Z.pow_succ_r in Ha, Hb by lia.
    rewrite lex_same_length by (rewrite !length_rev, !length_le_bytes; done).
    rewrite IH by (split; [apply Z.div_pos | apply Z.div_lt_upper_bound]; lia).
    pose proof (Z.div_mod a 256). pose proof (Z.div_mod b 256).
    pose proof (Z.mod_pos_bound a 256). pose proof (Z.mod_pos_bound b 256).
    destruct (Z.compare_spec (a / 256) (b / 256)).
    + cbn [lex]. destruct (Z.compare_spec (a mod 256) (b mod 256)), (Z.compare_spec a b); try done; lia.
    + symmetry. apply Z.compare_lt_iff. lia.
    + symmetry. apply Z.compare_gt_iff. lia.
Qed.

Lemma lex_be64 v w x y :
  i64_ok v -> i64_ok w ->
  lex (be64_bytes v ++ x) (be64_bytes w ++ y) = match v ?= w with Eq => lex x y | c => c end.
Proof.
  unfold i64_ok. intros Hv Hw. rewrite lex_same_length by (by rewrite !length_be64_bytes).
  unfold be64_bytes. rewrite (lex_be 8) by (change (256 ^ Z.of_nat 8) with (2 ^ 64); lia).
  destruct (Z.compare_spec (v + 2 ^ 63) (w + 2 ^ 63)), (Z.compare_spec v w); try done; lia.
Qed.

Lemma lex_escaped a b x y :
  bytes_ok a -> bytes_ok b ->
  lex (escaped a ++ x) (escaped b ++ y) = match lex a b with Eq => lex x y | c => c end.
Proof.
  intros Ha. revert b. induction Ha as [|c a Hc Ha IH]; intros b Hb;
    destruct Hb as [|d b Hd Hb]; unfold is_byte in *; cbn [escaped lex].
  - done.
  - destruct (Z.eqb_spec d 0) as [->|]; [done|]. cbn [app lex].
    by destruct (Z.compare_spec 0 d); [lia| |lia].
  - destruct (Z.eqb_spec c 0) as [->|]; [done|]. cbn [app lex].
    by destruct (Z.compare_spec c 0); [lia|lia|].
  - destruct (Z.eqb_spec c 0) as [->|], (Z.eqb_spec d 0) as [->|]; cbn [app lex].
    + by apply IH.
    + by destruct (Z.compare_spec 0 d); [lia| |lia].
    + by destruct (Z.compare_spec c 0); [lia|lia|].
    + destruct (Z.compare_spec c d); [by apply IH|done|done].
Qed.

(** A value of the type of a column: not an arbitrary pair of kinds. *)
Definition same_type (a b : Value) : Prop :=
  exists t, matches a t = true /\ matches b t = true.

Lemma lex_key_bytes a b x y :
  value_ok a -> value_ok b -> same_type a b ->
  lex (key_bytes a ++ x) (key_bytes b ++ y)
  = match compare_value a b with Eq => lex x y | c => c end.
Proof.
  intros Ha Hb (t & Hta & Htb).
  destruct a as [|i|i|s|s|i|c|u], b as [|j|j|r|r|j|d|w]; cbn [matches] in *; breflect; subst;
    try discriminate; try reflexivity;
    cbn [key_bytes app lex compare_value]; rewrite ?Z.compare_refl.
  - by apply lex_be64.
  - by apply lex_be64.
  - rewrite compare_bytes_lex. by apply lex_escaped.
  - rewrite compare_bytes_lex. by apply lex_escaped.
  - by apply lex_be64.
  - destruct Ha as [Ha1 Ha2], Hb as [Hb1 Hb2]. rewrite (memcmp_lex 16) by done.
    apply lex_same_length. congruence.
Qed.

(** The component-wise order on rows: the first component that differs
    decides, a row that is a proper prefix comes first. *)
Fixpoint compare_rows (a b : Row) : comparison :=
  match a, b with
  | [], [] => Eq
  | [], _ :: _ => Lt
  | _ :: _, [] => Gt
  | x :: a, y :: b => match compare_value x y with Eq => compare_rows a b | c => c end
  end.

Lemma key_bytes_nonempty v : exists b l, key_bytes v = b :: l.
Proof. destruct v; cbn; eauto. Qed.

Lemma lex_keys ts a b :
  Forall2 (fun v t => value_ok v /\ matches v t = true) a (take (length a) ts) ->
  Forall2 (fun v t => value_ok v /\ matches v t = true) b (take (length b) ts) ->
  lex (concat (map key_bytes a)) (concat (map key_bytes b)) = compare_rows a b.
Proof.
  revert ts b. induction a as [|v a IH]; intros ts b Ha Hb.
  - destruct b as [|w b]; [done|]. cbn [map concat compare_rows].
    by destruct (key_bytes_nonempty w) as (? & ? & ->).
  - destruct b as [|w b].
    { cbn [map concat compare_rows]. by destruct (key_bytes_nonempty v) as (? & ? & ->). }
    destruct ts as [|t ts]; [inversion Ha|]. cbn [length take] in *.
    inversion Ha as [|???? [Hv Hvt] Ha']. inversion Hb as [|???? [Hw Hwt] Hb']. subst.
    cbn [map concat compare_rows]. rewrite lex_key_bytes by (try done; by exists t).
    destruct (compare_value v w); [by apply (IH ts)|done|done].
Qed.

(** * Decoding what was encoded *)

Lemma get_be64_value p :
  bytes_ok p -> (8 <= length p)%nat ->
  get_be64_flipped p = i64_of_u64 (Z.lxor (le_value (rev (take 8 p))) sign_bit).
Proof.
  intros Hp Hl. unfold get_be64_flipped. do 2 f_equal.
  assert (H : forall n, (n <= length p)%nat ->
    fold_left (fun u i => Z.lor (Z.shiftl u 8) (byte_at p i)) (seq 0 n) 0 = le_value (rev (take n p))).
  { induction n as [|n IH]; intros Hn; [done|].
    rewrite seq_S, fold_left_app, IH by lia. cbn [fold_left Nat.add].
    assert (Htake : take (S n) p = take n p ++ [byte_at p n]).
    { rewrite <- (sub_0 (S n)), <- Nat.add_1_r, sub_split, sub_0. f_equal.
      unfold sub. rewrite Nat.add_0_l, (drop_byte_at p n) by lia. done. }
    rewrite Htake, rev_app_distr. cbn [rev app le_value].
    pose proof (byte_at_ok p n Hp) as Hb. unfold is_byte in Hb.
    assert (0 <= le_value (rev (take n p))).
    { apply le_value_bound. apply Forall_rev, Forall_take, Hp. }
    rewrite Z.lor_comm, lor_disjoint by lia. change (2 ^ 8) with 256. lia. }
  by apply H.
Qed.

Lemma get_be64_bytes v rest :
  i64_ok v -> bytes_ok rest -> get_be64_flipped (be64_bytes v ++ rest) = v.
Proof.
  intros Hv Hr. rewrite get_be64_value.
  - rewrite take_app_length' by (symmetry; apply length_be64_bytes). unfold be64_bytes. rewrite rev_involutive.
    unfold i64_ok in Hv.
    rewrite le_value_le_bytes by (change (256 ^ Z.of_nat 8) with (2 ^ 64); lia).
    by apply unflip_value.
  - rewrite bytes_ok_app. split; [|done]. unfold be64_bytes, bytes_ok.
    apply Forall_rev, bytes_ok_le_bytes.
  - rewrite length_app, length_be64_bytes. lia.
Qed.

Lemma get_escaped_bytes l out rest :
  bytes_ok l -> get_escaped (escaped l ++ rest) out = Ret (out ++ l, rest).
Proof.
  intros Hl. revert out. induction Hl as [|b l Hb Hl IH]; intros out.
  - cbn. by rewrite app_nil_r.
  - cbn [escaped]. destruct (Z.eqb_spec b 0) as [->|Hne]; cbn [app get_escaped].
    + cbn [Z.eqb negb Pos.eqb]. by rewrite IH, <- app_assoc.
    + apply Z.eqb_neq in Hne as ->. cbn [negb]. by rewrite IH, <- app_assoc.
Qed.

Lemma decode_key_component_bytes t v rest :
  value_ok v -> matches v t = true -> bytes_ok rest ->
  decode_key_component t (key_bytes v ++ rest) = Ret (v, rest).
Proof.
  intros Hv Ht Hr. unfold decode_key_component.
  assert (Hint : forall i, (length (be64_bytes i ++ rest) <? 8)%nat = false
                           /\ drop 8 (be64_bytes i ++ rest) = rest).
  { intros i. split; [apply Nat.ltb_ge; rewrite length_app, length_be64_bytes; lia|].
    by apply drop_app_length'. }
  destruct v as [|i|i|s|s|i|c|u]; cbn [matches] in Ht; breflect; subst;
    cbn [key_bytes app Z.eqb Pos.eqb negb]; try done;
    try (destruct (Hint i) as [-> ->]; by rewrite get_be64_bytes by done);
    try (by rewrite get_escaped_bytes by done).
  - by destruct c.
  - destruct Hv as [Hlen Hu]. rewrite length_app, Hlen.
    rewrite take_app_length', drop_app_length' by done. done.
Qed.

Lemma bytes_ok_escaped l : bytes_ok l -> bytes_ok (escaped l).
Proof.
  induction 1 as [|b l Hb Hl IH]; cbn; [decide_now|].
  destruct (b =? 0); repeat (constructor; [done|]); done.
Qed.

Lemma bytes_ok_key_bytes v : value_ok v -> bytes_ok (key_bytes v).
Proof.
  intros Hv. assert (Hbe : forall i, bytes_ok (be64_bytes i)).
  { intros i. unfold be64_bytes, bytes_ok. apply Forall_rev, bytes_ok_le_bytes. }
  destruct v as [|i|i|s|s|i|c|u]; cbn [key_bytes value_ok] in *;
    (apply bytes_ok_cons; [done|]); auto using bytes_ok_escaped.
  - constructor.
  - destruct c; decide_now.
  - apply Hv.
Qed.

Lemma bytes_ok_keys values : Forall value_ok values -> bytes_ok (concat (map key_bytes values)).
Proof.
  induction 1; cbn [map concat]; [constructor|]. rewrite bytes_ok_app. auto using bytes_ok_key_bytes.
Qed.

Lemma decode_key_bytes values types out rest :
  Forall2 (fun v t => value_ok v /\ matches v t = true) values types -> bytes_ok rest ->
  decode_key (concat (map key_bytes values) ++ rest) types out = Ret (out ++ values, rest).
Proof.
  intros H Hr. revert out. induction H as [|v t vs ts [Hv Ht] Hvs IH]; intros out.
  { cbn. by rewrite app_nil_r. }
  cbn [map concat decode_key]. rewrite <- app_assoc.
  rewrite decode_key_component_bytes; [|done|done|].
  - cbn [rbind]. by rewrite IH, <- app_assoc.
  - rewrite bytes_ok_app. split; [|done]. apply bytes_ok_keys.
    clear -Hvs. induction Hvs as [|???? []]; constructor; auto.
Qed.

(** * Rows *)

Definition row_value_bytes (v : Value) : Bytes :=
  kind v ::
  match v with
  | Null => []
  | Integer i | Decimal i | Timestamp i => le_bytes 8 (u64_of_i64 i)
  | Boolean b => [if b then 1 else 0]
  | Uuid u => u
  | Text s | Blob s => le_bytes 4 (wrap32 (Z.of_nat (length s))) ++ s
  end.

Definition row_bytes (row : Row) : Bytes :=
  le_bytes 2 (Z.of_nat (length row)) ++ concat (map row_value_bytes row).

Lemma encode_row_value_bytes v out : encode_row_value v out = out ++ row_value_bytes v.
Proof. destruct v; unfold encode_row_value, row_value_bytes; cbn [kind]; rewrite <- ?app_assoc; done. Qed.

Lemma encode_row_bytes row : encode_row row = row_bytes row.
Proof.
  unfold encode_row, row_bytes.
  enough (forall out, fold_left (fun out v => encode_row_value v out) row out
                      = out ++ concat (map row_value_bytes row)) as E by apply E.
  induction row as [|v row IH]; intros out; cbn [fold_left map concat]; [by rewrite app_nil_r|].
  by rewrite IH, encode_row_value_bytes, <- app_assoc.
Qed.

(** The rows the format can hold: counts in 16 bits, strings in 32 bits. *)
Definition row_value_fits (v : Value) : Prop :=
  value_ok v /\
  match v with
  | Text s | Blob s => Z.of_nat (length s) < 2 ^ 32
  | _ => True
  end.
Definition row_fits (row : Row) : Prop :=
  Forall row_value_fits row /\ Z.of_nat (length row) < 2 ^ 16.
#[export] Instance row_value_fits_dec v : Decision (row_value_fits v).
Proof. unfold row_value_fits. destruct v; apply _. Defined.
#[export] Instance row_fits_dec row : Decision (row_fits row).
Proof. unfold row_fits. apply _. Defined.

Lemma decode_row_value_bytes v rest :
  row_value_fits v -> bytes_ok rest -> decode_row_value (row_value_bytes v ++ rest) = Ret (v, rest).
Proof.
  intros [Hv Hfit] Hr. unfold decode_row_value, row_value_bytes. cbn [app].
  assert (Hget8 : forall i, i64_ok i ->
    i64_of_u64 (get_u64 (le_bytes 8 (u64_of_i64 i) ++ rest) 0) = i).
  { intros i Hi. unfold get_u64. rewrite get_le_region, sub_app_l, sub_all, get_le_value
      by (rewrite ?length_le_bytes; auto with archivum; lia).
    rewrite sub_all, le_value_le_bytes by (rewrite ?length_le_bytes; lia || apply u64_of_i64_ok).
    by apply i64_u64. }
  assert (Hl8 : forall x, (length (le_bytes 8 x ++ rest) <? 8)%nat = false) by done.
  assert (Hd8 : forall x, drop 8 (le_bytes 8 x ++ rest) = rest) by done.
  assert (Hpay : forall s : Bytes, Z.of_nat (length s) < 2 ^ 32 ->
    get_u32 ((le_bytes 4 (wrap32 (Z.of_nat (length s))) ++ s) ++ rest) 0 = Z.of_nat (length s)).
  { intros s Hs. unfold get_u32, wrap32. rewrite Z.mod_small by lia.
    rewrite <- app_assoc, get_le_region, sub_app_l, sub_all, get_le_value
      by (rewrite ?length_le_bytes; auto with archivum; lia).
    rewrite sub_all, le_value_le_bytes by (rewrite ?length_le_bytes; lia). done. }
  assert (Hstr : forall s : Bytes, Z.of_nat (length s) < 2 ^ 32 ->
    (Z.of_nat (length (s ++ rest)) <? Z.of_nat (length s)) = false
    /\ take (Z.to_nat (Z.of_nat (length s))) (s ++ rest) = s
    /\ drop (Z.to_nat (Z.of_nat (length s))) (s ++ rest) = rest).
  { intros s Hs. rewrite Nat2Z.id, take_app_length, drop_app_length.
    split; [apply Z.ltb_ge; rewrite length_app; lia | done]. }
  destruct v as [|i|i|s|s|i|c|u]; cbn [kind Z.eqb Pos.eqb orb];
    try (by rewrite Hl8, Hd8, Hget8 by done); try done.
  - rewrite Hpay by done. destruct (Hstr s Hfit) as (E1 & E2 & E3).
    change (drop 4 ((?a ++ s) ++ rest)) with (s ++ rest). by rewrite E1, E2, E3.
  - rewrite Hpay by done. destruct (Hstr s Hfit) as (E1 & E2 & E3).
    change (drop 4 ((?a ++ s) ++ rest)) with (s ++ rest). by rewrite E1, E2, E3.
  - by destruct c.
  - destruct Hv as [Hlen Hu]. rewrite length_app, Hlen.
    rewrite take_app_length', drop_app_length' by done. done.
Qed.

Lemma bytes_ok_row_value v : value_ok v -> bytes_ok (row_value_bytes v).
Proof.
  intros Hv. unfold row_value_bytes. apply bytes_ok_cons; [destruct v; unfold is_byte; cbn; lia|].
  destruct v; cbn [value_ok] in *; rewrite ?bytes_ok_app; auto with archivum.
  - constructor.
  - destruct b; decide_now.
  - apply Hv.
Qed.

Lemma bytes_ok_row_values row :
  Forall row_value_fits row -> bytes_ok (concat (map row_value_bytes row)).
Proof.
  induction 1 as [|v row [Hv _] Hrow IH]; cbn [map concat]; [constructor|].
  rewrite bytes_ok_app. auto using bytes_ok_row_value.
Qed.

Lemma decode_row_values_bytes row out rest :
  Forall row_value_fits row -> bytes_ok rest ->
  decode_row_values (length row) (concat (map row_value_bytes row) ++ rest) out
  = Ret (out ++ row, rest).
Proof.
  intros H Hr. revert out. induction H as [|v row Hv Hrow IH]; intros out.
  { cbn. by rewrite app_nil_r. }
  cbn [length map concat decode_row_values]. rewrite <- app_assoc.
  rewrite decode_row_value_bytes; [|done|].
  - cbn [rbind]. by rewrite IH, <- app_assoc.
  - rewrite bytes_ok_app. auto using bytes_ok_row_values.
Qed.

(** More input after a value changes nothing but what is left over. *)
Lemma decode_row_value_app inp v rest q :
  decode_row_value inp = Ret (v, rest) -> decode_row_value (inp ++ q) = Ret (v, rest ++ q).
Proof.
  unfold decode_row_value. destruct inp as [|k inp]; [done|]. cbn [app].
  assert (Hget : forall n, (n <= length inp)%nat -> get_le n (inp ++ q) 0 = get_le n inp 0).
  { intros n Hn. rewrite get_le_region, (get_le_region n inp), sub_app_l by lia. done. }
  destruct (k =? 0); [naive_solver|].
  destruct ((k =? 1) || (k =? 2) || (k =? 5)).
  { destruct (Nat.ltb_spec (length inp) 8); [done|]. intros [= <- <-].
    rewrite length_app. destruct (Nat.ltb_spec (length inp + length q) 8); [lia|].
    unfold get_u64. by rewrite Hget, drop_app_le by lia. }
  destruct (k =? 6); [destruct inp; [done|naive_solver]|].
  destruct (k =? 7).
  { destruct (Nat.ltb_spec (length inp) 16); [done|]. intros [= <- <-].
    rewrite length_app. destruct (Nat.ltb_spec (length inp + length q) 16); [lia|].
    by rewrite take_app_le, drop_app_le by lia. }
  destruct ((k =? 3) || (k =? 4)); [|done].
  destruct (Nat.ltb_spec (length inp) 4); [done|].
  rewrite length_app. destruct (Nat.ltb_spec (length inp + length q) 4); [lia|].
  unfold get_u32. rewrite Hget, drop_app_le, length_app by lia.
  destruct (Z.ltb_spec (Z.of_nat (length (drop 4 inp))) (get_le 4 inp 0)); [done|].
  intros [= <- <-].
  destruct (Z.ltb_spec (Z.of_nat (length (drop 4 inp) + length q)) (get_le 4 inp 0)); [lia|].
  by rewrite take_app_le, drop_app_le by lia.
Qed.

Lemma decode_row_values_app n inp out row rest q :
  decode_row_values n inp out = Ret (row, rest) ->
  decode_row_values n (inp ++ q) out = Ret (row, rest ++ q).
Proof.
  revert inp out. induction n as [|n IH]; intros inp out H; cbn [decode_row_values] in *.
  - by simplify_eq.
  - apply rbind_value in H as ([v r] & E & H). apply (decode_row_value_app _ _ _ q) in E as ->.
    cbn [rbind]. by apply IH.
Qed.

Lemma decode_row_value_corrupt inp e : decode_row_value inp = Err e -> code e = Corrupt.
Proof. unfold decode_row_value, corrupt. intros H. split_matches_in H; done. Qed.

Lemma decode_row_values_corrupt n inp out e :
  decode_row_values n inp out = Err e -> code e = Corrupt.
Proof.
  revert inp out. induction n as [|n IH]; intros inp out H; cbn [decode_row_values] in H; [done|].
  destruct (decode_row_value inp) as [[v r]|e'] eqn:E; cbn [rbind] in H; [by eapply IH|].
  simplify_eq. by eapply decode_row_value_corrupt.
Qed.

Lemma row_count_bytes row rest :
  Z.of_nat (length row) < 2 ^ 16 ->
  Z.lor (byte_at (row_bytes row ++ rest) 0) (Z.shiftl (byte_at (row_bytes row ++ rest) 1) 8)
  = Z.of_nat (length row).
Proof.
  intros Hn. unfold row_bytes. set (n := Z.of_nat (length row)) in *.
  change (byte_at ((le_bytes 2 n ++ ?x) ++ ?y) 0) with (Z.land (Z.shiftr n 0) 255).
  change (byte_at ((le_bytes 2 n ++ ?x) ++ ?y) 1) with (Z.land (Z.shiftr n 8) 255).
  rewrite Z.shiftr_0_r. change 255 with (Z.ones 8). rewrite !Z.land_ones by lia.
  rewrite Z.shiftr_div_pow2 by lia. change (2 ^ 8) with 256.
  pose proof (Z.mod_pos_bound n 256).
  rewrite (Z.mod_small (n / 256)) by (split; [apply Z.div_pos | apply Z.div_lt_upper_bound]; lia).
  rewrite lor_disjoint by (try apply Z.div_pos; lia). change (2 ^ 8) with 256.
  pose proof (Z.div_mod n 256). lia.
Qed.

Lemma decode_row_extended row q :
  row_fits row -> bytes_ok q ->
  decode_row (row_bytes row ++ q)
  = match q with [] => Ret row | _ => corrupt "row has trailing bytes" end.
Proof.
  intros [Hrow Hn] Hq. unfold decode_row.
  rewrite row_count_bytes, Nat2Z.id by done.
  change (drop 2 (row_bytes row ++ q)) with (concat (map row_value_bytes row) ++ q).
  change (length (row_bytes row ++ q) <? 2)%nat with false. cbv zeta.
  rewrite decode_row_values_bytes by done. cbn [rbind]. by destruct q.
Qed.

(** A proper prefix of an encoded row. *)
Lemma decode_row_truncated row n :
  row_fits row -> (n < length (row_bytes row))%nat ->
  code_of (decode_row (take n (row_bytes row))) = Corrupt.
Proof.
  intros [Hrow Hcount] Hn. unfold decode_row.
  destruct (Nat.ltb_spec (length (take n (row_bytes row))) 2) as [|H2]; [done|].
  rewrite length_take in H2.
  assert (Hsplit : row_bytes row = take n (row_bytes row) ++ drop n (row_bytes row))
    by (by rewrite take_drop).
  pose proof (row_count_bytes row [] Hcount) as Hc. rewrite app_nil_r in Hc.
  assert (Hb : forall i, (i < 2)%nat -> byte_at (take n (row_bytes row)) i = byte_at (row_bytes row) i).
  { intros i Hi. unfold byte_at. rewrite !nth_lookup, lookup_take_lt by lia. done. }
  rewrite !Hb, Hc, Nat2Z.id by lia. cbv zeta.
  destruct (decode_row_values _ _ _) as [[row' rest]|e] eqn:E; cbn [rbind];
    [|by apply decode_row_values_corrupt in E].
  destruct (Nat.eqb_spec (length rest) 0) as [Hz|]; [|done]. exfalso.
  apply nil_length_inv in Hz as ->.
  apply (decode_row_values_app _ _ _ _ _ (drop n (row_bytes row))) in E.
  rewrite <- drop_app_le, <- Hsplit in E by (rewrite length_take; lia).
  change (drop 2 (row_bytes row)) with (concat (map row_value_bytes row)) in E.
  pose proof (decode_row_values_bytes row [] [] Hrow ltac:(constructor)) as E2.
  rewrite app_nil_r in E2. rewrite E2 in E. injection E as _ E.
  apply (f_equal length) in E. cbn [app] in E. rewrite length_drop in E. cbn [length] in E. lia.
Qed.

(** * Properties *)

(** [C11] Keys are order-preserving: for two rows of values of the key's
    column types (one may stop earlier, as a prefix bound does), the unsigned
    byte comparison of their encodings is the component-wise comparison of
    the values, so the b-tree's byte order is the typed order. *)
Theorem encode_key_order types a b :
  Forall2 (fun v t => value_ok v /\ matches v t = true) a (take (length a) types) ->
  Forall2 (fun v t => value_ok v /\ matches v t = true) b (take (length b) types) ->
  compare_bytes (encode_key a) (encode_key b) = compare_rows a b.
Proof.
  intros Ha Hb.
  assert (Hok : forall r ts, Forall2 (fun v t => value_ok v /\ matches v t = true) r ts ->
                             Forall value_ok r).
  { induction 1 as [|???? []]; constructor; auto. }
  rewrite compare_bytes_lex, !encode_key_bytes by eauto. by apply (lex_keys types).
Qed.

Lemma encode_key_order_witness :
  compare_bytes (encode_key [Integer (-3); Text [97; 0]]) (encode_key [Integer (-3); Text [97; 1]])
  = compare_rows [Integer (-3); Text [97; 0]] [Integer (-3); Text [97; 1]].
Proof.
  apply (encode_key_order [TInteger; TText]);
    repeat (apply Forall2_cons; split; [split; [decide_now | reflexivity]|]); constructor.
Defined.

(** [C13] A key decodes, with its column types, to exactly the values it
    encodes and leaves exactly what followed it: this is how an index entry
    is split into its key and its row key. *)
Theorem key_roundtrip values types rest :
  Forall2 (fun v t => value_ok v /\ matches v t = true) values types -> bytes_ok rest ->
  decode_key (encode_key values ++ rest) types [] = Ret (values, rest).
Proof.
  intros H Hr. rewrite encode_key_bytes; [by apply decode_key_bytes|].
  induction H as [|???? []]; constructor; auto.
Qed.

Lemma key_roundtrip_witness :
  decode_key (encode_key [Null; Blob [0; 255; 0]; Boolean true] ++ [9; 9]) [TInteger; TBlob; TBoolean] []
  = Ret ([Null; Blob [0; 255; 0]; Boolean true], [9; 9]).
Proof.
  apply (key_roundtrip [Null; Blob [0; 255; 0]; Boolean true]); [|decide_now].
  repeat (apply Forall2_cons; split; [split; [decide_now | reflexivity]|]); constructor.
Defined.

(** [C14] Rows round trip, and the encoding is rigid: the encoded row decodes
    to itself, every proper prefix of it is refused as corrupt, and the row
    with anything appended is refused for its trailing bytes. *)
Theorem row_roundtrip row n q :
  row_fits row -> bytes_ok q ->
  decode_row (encode_row row) = Ret row
  /\ ((n < length (encode_row row))%nat -> code_of (decode_row (take n (encode_row row))) = Corrupt)
  /\ (q <> [] -> decode_row (encode_row row ++ q) = corrupt "row has trailing bytes").
Proof.
  intros Hrow Hq. rewrite encode_row_bytes. split; [|split].
  - rewrite <- (app_nil_r (row_bytes row)). by rewrite decode_row_extended by (done || constructor).
  - by apply decode_row_truncated.
  - intros Hne. rewrite decode_row_extended by done. by destruct q.
Qed.

Lemma row_roundtrip_witness :
  decode_row (encode_row [Integer (-1); Null; Text [104; 105]; Boolean false])
  = Ret [Integer (-1); Null; Text [104; 105]; Boolean false].
Proof.
  apply (row_roundtrip [Integer (-1); Null; Text [104; 105]; Boolean false] 0 []); decide_now.
Defined.
