(* ===== verification/Vfs.v ===== *)
(** The virtual filesystem boundary (engine/include/archivum/vfs.h) and its
    fault model (engine/testing/src/fault_vfs.cpp, engine/testing/src/
    mem_vfs.cpp, docs/testing/fault-model.md).

    Everything the engine does to disk goes through [File] and [Vfs].  The
    operations below are those of FaultVfs: [cache] is what the process sees,
    [durable] what survives a power loss, [pending] the operations that have
    reached the one and not the other.  Before every operation the injector
    is consulted; its decisions are a list here, one per operation, and an
    exhausted list proceeds.  A power loss applies an arbitrary selection of
    the pending operations, in an arbitrary order, each write possibly cut
    short: [crash_image] takes that selection as an argument, so a theorem
    for every selection covers every CrashPolicy.

    A handle is the path it was opened with.  Handles do not outlive a crash:
    every operation of a crashed world reports [Crashed].  Byte offsets and
    file sizes are [nat]: they are far below the 64-bit limit. *)

From S2P Require Import Prelude Bytes.
From stdpp Require Import base numbers list gmap strings.
Open Scope Z_scope.

Inductive Decision :=
  | Proceed
  | FailWrite
  | PartialWrite (partial_bytes : nat)
  | DropSync
  | FailSync
  | Crash.

#[export] Instance Decision_eq_dec : EqDecision Decision.
Proof. solve_decision. Defined.

Inductive PendingOp :=
  | PCreate (path : string)
  | PWrite (path : string) (offset : nat) (data : Bytes)
  | PTruncate (path : string) (size : nat)
  | PRemove (path : string)
  | PRename (from to : string).

Record OpenFlags := mkOpenFlags { of_write : bool; of_create : bool; of_exclusive : bool; of_truncate : bool }.

Record World := mkWorld {
  cache : gmap string Bytes;
  durable : gmap string Bytes;
  pending : list PendingOp;
  injector : list Decision;
  is_crashed : bool;
  entropy : list Z   (* what random_bytes returns next, 32 bits at a time *)
}.

Definition set_cache (w : World) c := mkWorld c (durable w) (pending w) (injector w) (is_crashed w) (entropy w).
Definition set_durable (w : World) d := mkWorld (cache w) d (pending w) (injector w) (is_crashed w) (entropy w).
Definition set_pending (w : World) p := mkWorld (cache w) (durable w) p (injector w) (is_crashed w) (entropy w).
Definition set_injector (w : World) i := mkWorld (cache w) (durable w) (pending w) i (is_crashed w) (entropy w).
Definition set_crashed (w : World) b := mkWorld (cache w) (durable w) (pending w) (injector w) b (entropy w).
Definition set_entropy (w : World) e := mkWorld (cache w) (durable w) (pending w) (injector w) (is_crashed w) e.

(** * File contents *)

(** [std::vector::resize]: cut or extended with zeros. *)
Definition file_resize (n : nat) (b : Bytes) : Bytes := take n b ++ replicate (n - length b) 0.

(** A write extends the file first when it ends beyond it. *)
Definition write_bytes (offset : nat) (data b : Bytes) : Bytes :=
  let end_ := (offset + length data)%nat in
  let b := if (length b <? end_)%nat then file_resize end_ b else b in
  blit offset data b.

(** * FaultVfs *)

Definition consult (w : World) : Decision * World :=
  match injector w with
  | [] => (Proceed, w)
  | d :: ds => (d, set_injector w ds)
  end.

Definition push (op : PendingOp) (w : World) : World := set_pending w (pending w ++ [op]).

(** [FaultFile::record_write]. *)
Definition record_write (path : string) (offset : nat) (data : Bytes) (w : World) : World :=
  let w := set_cache w (alter (write_bytes offset data) path (cache w)) in
  push (PWrite path offset data) w.

(** [FaultFile::alive]: the handle's file is the one in the cache. *)
Definition alive (path : string) (w : World) : Result Bytes :=
  if is_crashed w then crashed ("handle predates crash: " +:+ path)
  else match cache w !! path with
       | None => io ("fault file closed: " +:+ path)
       | Some b => Ret b
       end.

(** [File::read]: the bytes read, fewer than asked for only at end of file. *)
Definition file_read (path : string) (offset len : nat) : M World Bytes := fun w =>
  match alive path w with
  | Err e => (Err e, w)
  | Ret b =>
      let '(d, w) := consult w in
      match d with
      | Crash => (crashed ("read " +:+ path), set_crashed w true)
      | _ => (Ret (sub offset len b), w)
      end
  end.

Definition file_write (path : string) (offset : nat) (data : Bytes) : M World unit := fun w =>
  match alive path w with
  | Err e => (Err e, w)
  | Ret _ =>
      let '(d, w) := consult w in
      match d with
      | FailWrite => (io ("injected write failure: " +:+ path), w)
      | PartialWrite k =>
          let n := Nat.min k (length data) in
          (io ("injected partial write (" +:+ to_string (Z.of_nat n) +:+ " of "
               +:+ to_string (Z.of_nat (length data)) +:+ " bytes): " +:+ path),
           record_write path offset (take n data) w)
      | Crash => (crashed ("write " +:+ path), set_crashed (record_write path offset data w) true)
      | _ => (Ret tt, record_write path offset data w)
      end
  end.

(** [apply_to_durable]: one operation reaching the disk. *)
Definition apply_op (op : PendingOp) (d : gmap string Bytes) : gmap string Bytes :=
  match op with
  | PCreate path => match d !! path with None => <[path := []]> d | Some _ => d end
  | PWrite path offset data => alter (write_bytes offset data) path d
  | PTruncate path size => alter (file_resize size) path d
  | PRemove path => delete path d
  | PRename from to =>
      match d !! from with None => d | Some b => <[to := b]> (delete from d) end
  end.

Definition is_file_op (path : string) (op : PendingOp) : bool :=
  match op with
  | PCreate p | PWrite p _ _ | PTruncate p _ => bool_decide (p = path)
  | _ => false
  end.
Definition is_dir_op (op : PendingOp) : bool :=
  match op with PCreate _ | PRemove _ | PRename _ _ => true | _ => false end.

(** [persist_file] and [persist_directory]: the selected operations become
    durable in order, the others stay pending. *)
Definition persist (sel : PendingOp -> bool) (w : World) : World :=
  set_pending
    (set_durable w (fold_left (fun d op => if sel op then apply_op op d else d) (pending w) (durable w)))
    (List.filter (fun op => negb (sel op)) (pending w)).
Definition persist_file (path : string) : World -> World := persist (is_file_op path).
Definition persist_directory : World -> World := persist is_dir_op.

Definition file_sync (path : string) : M World unit := fun w =>
  match alive path w with
  | Err e => (Err e, w)
  | Ret _ =>
      let '(d, w) := consult w in
      match d with
      | DropSync => (Ret tt, w)
      | FailSync => (io ("injected sync failure: " +:+ path), w)
      | Crash => (crashed ("sync " +:+ path), set_crashed w true)
      | _ => (Ret tt, persist_file path w)
      end
  end.

Definition file_truncate (path : string) (size : nat) : M World unit := fun w =>
  match alive path w with
  | Err e => (Err e, w)
  | Ret _ =>
      let '(d, w) := consult w in
      match d with
      | Crash => (crashed ("truncate " +:+ path), set_crashed w true)
      | _ => (Ret tt, push (PTruncate path size) (set_cache w (alter (file_resize size) path (cache w))))
      end
  end.

Definition file_size (path : string) : M World nat := fun w =>
  match alive path w with
  | Err e => (Err e, w)
  | Ret b => (Ret (length b), w)
  end.

Definition vfs_open (path : string) (flags : OpenFlags) : M World unit := fun w =>
  if is_crashed w then (crashed ("open " +:+ path), w)
  else
    let '(d, w) := consult w in
    match d with
    | Crash => (crashed ("open " +:+ path), set_crashed w true)
    | _ =>
        if of_create flags && negb (of_write flags) then
          (invalid_argument ("create requires write: " +:+ path), w)
        else if of_truncate flags && negb (of_write flags) then
          (invalid_argument ("truncate requires write: " +:+ path), w)
        else match cache w !! path with
             | None =>
                 if negb (of_create flags) then (not_found ("mem open: " +:+ path), w)
                 else (Ret tt, push (PCreate path) (set_cache w (<[path := []]> (cache w))))
             | Some _ =>
                 if of_create flags && of_exclusive flags then
                   (already_exists ("mem open exclusive: " +:+ path), w)
                 else if of_truncate flags then
                   (Ret tt, push (PTruncate path 0) (set_cache w (<[path := []]> (cache w))))
                 else (Ret tt, w)
             end
    end.

Definition vfs_exists (path : string) : M World bool := fun w =>
  if is_crashed w then (crashed ("exists " +:+ path), w)
  else (Ret (bool_decide (is_Some (cache w !! path))), w).

Definition vfs_remove (path : string) : M World unit := fun w =>
  if is_crashed w then (crashed ("remove " +:+ path), w)
  else
    let '(d, w) := consult w in
    match d with
    | Crash => (crashed ("remove " +:+ path), set_crashed w true)
    | _ => match cache w !! path with
           | None => (not_found ("mem remove: " +:+ path), w)
           | Some _ => (Ret tt, push (PRemove path) (set_cache w (delete path (cache w))))
           end
    end.

Definition vfs_rename (from to : string) : M World unit := fun w =>
  if is_crashed w then (crashed ("rename " +:+ from), w)
  else
    let '(d, w) := consult w in
    match d with
    | Crash => (crashed ("rename " +:+ from), set_crashed w true)
    | _ => match cache w !! from with
           | None => (not_found ("mem rename: " +:+ from), w)
           | Some b => (Ret tt, push (PRename from to)
                                     (set_cache w (<[to := b]> (delete from (cache w)))))
           end
    end.

Definition vfs_sync_directory (dir : string) : M World unit := fun w =>
  if is_crashed w then (crashed ("sync_directory " +:+ dir), w)
  else
    let '(d, w) := consult w in
    match d with
    | DropSync => (Ret tt, w)
    | FailSync => (io ("injected directory sync failure: " +:+ dir), w)
    | Crash => (crashed ("sync_directory " +:+ dir), set_crashed w true)
    | _ => (Ret tt, persist_directory w)
    end.

(** 32 bits of [random_bytes]. *)
Definition random_salt : M World Z := fun w =>
  match entropy w with
  | [] => (Ret 0, w)
  | v :: e => (Ret (wrap32 v), set_entropy w e)
  end.

(** * Power loss

    The selection of one pending operation: its index and, for a torn write,
    how many of its bytes landed. *)
Definition torn (cut : option nat) (op : PendingOp) : PendingOp :=
  match cut, op with
  | Some n, PWrite path offset data => PWrite path offset (take n data)
  | _, _ => op
  end.
Definition crash_image (choice : list (nat * option nat)) (w : World) : gmap string Bytes :=
  fold_left (fun d c => match pending w !! fst c with
                        | None => d
                        | Some op => apply_op (torn (snd c) op) d
                        end) choice (durable w).

(** [FaultVfs::recover] after a crash: the process sees the disk. *)
Definition reboot (disk : gmap string Bytes) (inj : list Decision) (ent : list Z) : World :=
  mkWorld disk disk [] inj false ent.

(** [directory_of] of journal.cpp, wal.cpp and db.cpp: the path before its
    last slash or backslash. *)
Definition is_slash (a : Ascii.ascii) : bool :=
  Ascii.eqb a (Ascii.ascii_of_nat 47) || Ascii.eqb a (Ascii.ascii_of_nat 92).
Fixpoint find_last_slash (s : string) (i : nat) : option nat :=
  match s with
  | EmptyString => None
  | String a s =>
      match find_last_slash s (S i) with
      | Some j => Some j
      | None => if is_slash a then Some i else None
      end
  end.
Definition directory_of (path : string) : string :=
  match find_last_slash path 0 with
  | None => "."
  | Some O => String.substring 0 1 path
  | Some slash => String.substring 0 slash path
  end.

(** * Content lemmas *)

Lemma length_file_resize n b : length (file_resize n b) = n.
Proof. unfold file_resize. rewrite length_app, length_take, length_replicate. lia. Qed.

Lemma file_resize_app_l n a b : n = length a -> file_resize n (a ++ b) = a.
Proof.
  intros ->. unfold file_resize. rewrite take_app_length, length_app.
  replace (length a - (length a + length b))%nat with 0%nat by lia. apply app_nil_r.
Qed.

Lemma file_resize_id b : file_resize (length b) b = b.
Proof. unfold file_resize. rewrite take_ge, Nat.sub_diag by lia. apply app_nil_r. Qed.

Lemma blit_at_end a b d : (length d <= length b)%nat ->
  blit (length a) d (a ++ b) = a ++ d ++ drop (length d) b.
Proof.
  intros H. unfold blit. rewrite take_app_length, length_app, take_ge by lia.
  by rewrite drop_app_ge, Nat.add_sub_swap, Nat.sub_diag by lia.
Qed.

(** Writing at the end of the first part of a file. *)
Lemma write_bytes_app a b d :
  write_bytes (length a) d (a ++ b) = a ++ d ++ drop (length d) b.
Proof.
  unfold write_bytes. rewrite length_app.
  destruct (Nat.ltb_spec (length a + length b) (length a + length d)).
  - assert (file_resize (length a + length d) (a ++ b) = a ++ b ++ replicate (length d - length b) 0) as ->.
    { unfold file_resize. rewrite take_ge, length_app by (rewrite length_app; lia).
      rewrite <- app_assoc. do 3 f_equal. lia. }
    rewrite blit_at_end by (rewrite length_app, length_replicate; lia).
    rewrite !drop_ge by (rewrite ?length_app, ?length_replicate; lia). done.
  - apply blit_at_end. lia.
Qed.

Lemma write_bytes_0 d b : write_bytes 0 d b = d ++ drop (length d) b.
Proof. apply (write_bytes_app [] b d). Qed.

Lemma write_bytes_end a d : write_bytes (length a) d a = a ++ d.
Proof.
  rewrite <- (app_nil_r a) at 2. rewrite write_bytes_app.
  by rewrite drop_nil, app_nil_r.
Qed.

Lemma bytes_ok_file_resize n b : bytes_ok b -> bytes_ok (file_resize n b).
Proof.
  intros. unfold file_resize. apply bytes_ok_app. split; [by apply bytes_ok_take|]. by apply bytes_ok_replicate.
Qed.

Lemma bytes_ok_write_bytes off d b : bytes_ok d -> bytes_ok b -> bytes_ok (write_bytes off d b).
Proof.
  intros. unfold write_bytes. apply bytes_ok_blit; [done|]. case_match; [by apply bytes_ok_file_resize|done].
Qed.

Lemma length_write_bytes off d b :
  length (write_bytes off d b) = Nat.max (length b) (off + length d).
Proof.
  unfold write_bytes. rewrite length_blit.
  destruct (Nat.ltb_spec (length b) (off + length d)); rewrite ?length_file_resize; lia.
Qed.

(** A prefix written over a shorter or longer prefix. *)
Lemma take_max_write (f : Bytes) n m :
  take m f ++ drop (length (take m f)) (take n f) = take (Nat.max m n) f.
Proof.
  rewrite length_take. destruct (decide (m <= length f)%nat).
  - rewrite Nat.min_l by lia. destruct (decide (n <= m)%nat).
    + rewrite drop_ge by (rewrite length_take; lia). rewrite app_nil_r. f_equal. lia.
    + replace (Nat.max m n) with (m + (n - m))%nat by lia.
      rewrite skipn_firstn_comm. apply take_take_drop.
  - rewrite (take_ge f m), drop_ge by (rewrite ?length_take; lia).
    rewrite app_nil_r. symmetry. apply take_ge. lia.
Qed.

Lemma write_bytes_prefix b f n m :
  write_bytes (length b) (take m f) (b ++ take n f) = b ++ take (Nat.max m n) f.
Proof. by rewrite write_bytes_app, take_max_write. Qed.

(** * Crash images

    A property of one file's content that the disk has and that every pending
    operation, torn or not, preserves, holds of every crash image. *)
Definition stable (Q : option Bytes -> Prop) (path : string) (ops : list PendingOp) : Prop :=
  forall op cut d, op ∈ ops -> Q (d !! path) -> Q (apply_op (torn cut op) d !! path).

Lemma crash_image_stable Q path w choice :
  Q (durable w !! path) -> stable Q path (pending w) -> Q (crash_image choice w !! path).
Proof.
  intros H0 Hs. unfold crash_image. revert H0. generalize (durable w).
  induction choice as [|[i cut] choice IH]; intros d Hd; [done|].
  cbn [fold_left fst snd]. apply IH. destruct (pending w !! i) as [op|] eqn:E; [|done].
  apply Hs; [|done]. by eapply list_elem_of_lookup_2.
Qed.

(** Operations that do not name the path leave it alone. *)
Definition touches (path : string) (op : PendingOp) : bool :=
  match op with
  | PCreate p | PWrite p _ _ | PTruncate p _ | PRemove p => bool_decide (p = path)
  | PRename p q => bool_decide (p = path) || bool_decide (q = path)
  end.

Lemma touches_torn path cut op : touches path (torn cut op) = touches path op.
Proof. by destruct cut, op. Qed.

Lemma apply_op_other path op d : touches path op = false -> apply_op op d !! path = d !! path.
Proof.
  destruct op; cbn; intros H; breflect.
  - destruct (d !! path0); [done|]. by rewrite lookup_insert_ne.
  - by rewrite lookup_alter_ne.
  - by rewrite lookup_alter_ne.
  - by rewrite lookup_delete_ne.
  - destruct (d !! from); [|done]. by rewrite lookup_insert_ne, lookup_delete_ne.
Qed.

Lemma stable_app Q path a b : stable Q path (a ++ b) <-> stable Q path a /\ stable Q path b.
Proof.
  unfold stable. setoid_rewrite elem_of_app. split; [intros H; split; eauto|].
  intros [? ?] op cut d [?|?]; eauto.
Qed.

Lemma stable_nil Q path : stable Q path [].
Proof. intros op cut d H. by apply not_elem_of_nil in H. Qed.

Lemma stable_one Q path op :
  (forall cut d, Q (d !! path) -> Q (apply_op (torn cut op) d !! path)) -> stable Q path [op].
Proof. intros H op' cut d Hin. apply list_elem_of_singleton in Hin as ->. apply H. Qed.

Lemma stable_untouched Q path ops :
  Forall (fun op => touches path op = false) ops -> stable Q path ops.
Proof.
  intros H op cut d Hin HQ. rewrite Forall_forall in H.
  rewrite apply_op_other; [done|]. rewrite touches_torn. auto.
Qed.

#[export] Hint Resolve stable_nil : archivum.

(** * One file's view of the world

    The operations pending on a file, replayed over what is durable, give
    what the process sees.  The lemmas below describe every outcome of every
    operation, for every decision of the injector, in terms of this view. *)

Definition ops_on (path : string) (w : World) : list PendingOp :=
  List.filter (touches path) (pending w).

Definition replay1 (c : option Bytes) (op : PendingOp) : option Bytes :=
  match op with
  | PCreate _ => Some (default [] c)
  | PWrite _ offset data => write_bytes offset data <$> c
  | PTruncate _ size => file_resize size <$> c
  | PRemove _ => None
  | PRename _ _ => c
  end.

(** The injector never makes a sync lie. *)
Definition honest (w : World) : Prop := DropSync ∉ injector w.
(** The injector lets everything proceed. *)
Definition quiet (w : World) : Prop := injector w = [].
Definition calm (w w' : World) : Prop := (honest w -> honest w') /\ (quiet w -> quiet w').

Definition coherent (path : string) (w : World) : Prop :=
  Forall (fun op => is_file_op path op = true) (ops_on path w)
  /\ cache w !! path = fold_left replay1 (ops_on path w) (durable w !! path).

(** Everything the process wrote to the file is on the disk. *)
Definition synced (path : string) (b : Bytes) (w : World) : Prop :=
  is_crashed w = false /\ cache w !! path = Some b /\ durable w !! path = Some b
  /\ ops_on path w = [].

(** Every crash image has the property. *)
Definition disk_safe (Q : option Bytes -> Prop) (path : string) (w : World) : Prop :=
  Q (durable w !! path) /\ stable Q path (pending w).

(** The world apart from the injector, the entropy and the crash flag. *)
Definition same_files (w w' : World) : Prop :=
  cache w' = cache w /\ durable w' = durable w /\ pending w' = pending w
  /\ calm w w'.

Lemma disk_safe_crash Q path w choice : disk_safe Q path w -> Q (crash_image choice w !! path).
Proof. intros [? ?]. by apply crash_image_stable. Qed.

(** The same, of the images alone: this form can be weakened. *)
Definition crash_safe (Q : option Bytes -> Prop) (path : string) (w : World) : Prop :=
  forall choice, Q (crash_image choice w !! path).

Lemma disk_safe_crash_safe (Q Q' : option Bytes -> Prop) path w :
  disk_safe Q path w -> (forall c, Q c -> Q' c) -> crash_safe Q' path w.
Proof. intros H HQ choice. by apply HQ, disk_safe_crash. Qed.

Lemma disk_safe_same Q path w w' : same_files w w' -> disk_safe Q path w -> disk_safe Q path w'.
Proof. intros (_ & Hd & Hp & _). unfold disk_safe. by rewrite Hd, Hp. Qed.

Lemma disk_safe_weaken (Q R : option Bytes -> Prop) path w :
  Forall (fun op => touches path op = false) (pending w) ->
  R (durable w !! path) -> disk_safe R path w.
Proof. intros H ?. split; [done|]. by apply stable_untouched. Qed.

Lemma ops_on_nil path w :
  ops_on path w = [] <-> Forall (fun op => touches path op = false) (pending w).
Proof.
  unfold ops_on. induction (pending w) as [|op l IH]; cbn; [done|].
  destruct (touches path op) eqn:E; [|rewrite Forall_cons, IH; tauto].
  split; [done|]. intros H. inversion H. congruence.
Qed.

Lemma calm_refl w : calm w w.
Proof. done. Qed.
Lemma calm_trans w1 w2 w3 : calm w1 w2 -> calm w2 w3 -> calm w1 w3.
Proof. intros [] []. split; auto. Qed.
#[export] Hint Resolve calm_refl : archivum.

Lemma consult_same w d w' : consult w = (d, w') ->
  same_files w w' /\ is_crashed w' = is_crashed w /\ (honest w -> d <> DropSync)
  /\ (d <> Proceed -> ~ quiet w).
Proof.
  unfold consult, same_files, calm, honest, quiet. intros H.
  destruct (injector w) as [|d0 ds] eqn:E; simplify_eq.
  - rewrite E. by split_and!.
  - cbn. split_and!; try done; set_solver.
Qed.

Lemma same_files_refl w : same_files w w.
Proof. by split_and!. Qed.
Lemma same_files_trans w1 w2 w3 : same_files w1 w2 -> same_files w2 w3 -> same_files w1 w3.
Proof. intros (?&?&?&?) (?&?&?&?). split_and!; try congruence. by eapply calm_trans. Qed.
Lemma same_files_crash w w' b : same_files w w' -> same_files w (set_crashed w' b).
Proof. done. Qed.
#[export] Hint Resolve same_files_refl same_files_crash : archivum.

Lemma synced_same path b w w' :
  same_files w w' -> is_crashed w' = false -> synced path b w -> synced path b w'.
Proof.
  intros (Hc & Hd & Hp & _) Hcr (_ & H1 & H2 & H3). unfold synced, ops_on in *.
  by rewrite Hc, Hd, Hp.
Qed.

Lemma synced_coherent path b w : synced path b w -> coherent path w.
Proof. intros (_ & Hc & Hd & Ho). unfold coherent. rewrite Ho, Hc, Hd. by split. Qed.

Lemma stable_incl Q path a b : (forall op, op ∈ b -> op ∈ a) -> stable Q path a -> stable Q path b.
Proof. unfold stable. eauto. Qed.

Lemma disk_safe_persist Q path sel w : disk_safe Q path w -> disk_safe Q path (persist sel w).
Proof.
  intros [HQ Hs]. unfold disk_safe, persist. cbn. split.
  - assert (forall l d, (forall op, op ∈ l -> op ∈ pending w) -> Q (d !! path) ->
      Q (fold_left (fun d op => if sel op then apply_op op d else d) l d !! path)) as H; [|by apply H].
    induction l as [|op l IH]; intros d Hin Hd; [done|]. cbn [fold_left].
    apply IH; [set_solver|]. destruct (sel op); [|done].
    apply (Hs op None d); [set_solver|done].
  - eapply stable_incl; [|exact Hs]. intros op. rewrite list_elem_of_In, filter_In, <- list_elem_of_In. tauto.
Qed.

Lemma apply_file_op path op d :
  is_file_op path op = true -> apply_op op d !! path = replay1 (d !! path) op.
Proof.
  destruct op; cbn; intros H; breflect; subst; try done.
  - destruct (d !! path) eqn:E; cbn; [done | by rewrite lookup_insert_eq].
  - by rewrite lookup_alter_eq.
  - by rewrite lookup_alter_eq.
Qed.

Lemma file_op_touches path op : is_file_op path op = true -> touches path op = true.
Proof. by destruct op. Qed.

(** An honest sync makes the file durable exactly as the process sees it. *)
Lemma persist_file_synced path w b :
  coherent path w -> is_crashed w = false -> cache w !! path = Some b ->
  synced path b (persist_file path w).
Proof.
  intros [Hf Hc] Hcr Hb. unfold synced, ops_on, persist_file, persist. cbn [is_crashed cache durable
    pending set_pending set_durable]. split_and!; try done.
  - rewrite <- Hb, Hc. unfold ops_on in *. revert Hf. generalize (durable w). clear Hc Hb.
    induction (pending w) as [|op l IH]; intros d Hf; [done|]. cbn [fold_left List.filter] in *.
    destruct (touches path op) eqn:E.
    + inversion Hf as [|?? Hop Hf']; subst. rewrite Hop. cbn [fold_left].
      rewrite IH by done. by rewrite apply_file_op.
    + destruct (is_file_op path op) eqn:E2; [apply file_op_touches in E2; congruence|]. by apply IH.
  - unfold ops_on in Hf. clear Hc. induction (pending w) as [|op l IH]; [done|].
    cbn [List.filter] in *. destruct (touches path op) eqn:E.
    + inversion Hf as [|?? Hop Hf']; subst. rewrite Hop. cbn. by apply IH.
    + destruct (is_file_op path op); cbn; [by apply IH|]. rewrite E. by apply IH.
Qed.

Lemma coherent_push path op w c' :
  is_file_op path op = true -> c' !! path = replay1 (cache w !! path) op -> coherent path w ->
  coherent path (push op (set_cache w c')).
Proof.
  intros Hop Hc [Hf Heq]. unfold coherent, ops_on, push in *. cbn [pending set_pending set_cache cache durable].
  rewrite List.filter_app. cbn [List.filter]. rewrite (file_op_touches _ _ Hop).
  split; [apply Forall_app; by repeat constructor|].
  rewrite fold_left_app. cbn [fold_left]. by rewrite <- Heq.
Qed.

(** ** Outcomes of the operations *)

Section outcomes.
Context (path : string) (Q : option Bytes -> Prop).

Lemma file_read_spec off len w b r w' :
  is_crashed w = false -> cache w !! path = Some b -> file_read path off len w = (r, w') ->
  same_files w w'
  /\ (r = Ret (sub off len b) /\ is_crashed w' = false \/ (exists e, r = Err e) /\ ~ quiet w).
Proof.
  unfold file_read, alive. intros Hcr ->. rewrite Hcr.
  destruct (consult w) as [d w1] eqn:E. apply consult_same in E as (Hs & Hcr1 & _ & Hq).
  rewrite Hcr in Hcr1. intros H. destruct d; simplify_eq; (split; [by auto with archivum|]);
    [by left..|right; split; [by eauto|by apply Hq]].
Qed.

Lemma disk_safe_push op w :
  disk_safe Q path w -> (forall cut d, Q (d !! path) -> Q (apply_op (torn cut op) d !! path)) ->
  disk_safe Q path (push op w).
Proof.
  intros [? ?] Hop. split; [done|]. cbn. apply stable_app. split; [done|]. by apply stable_one.
Qed.

Definition closed_write (off : nat) (data : Bytes) : Prop :=
  forall n c, Q c -> Q (write_bytes off (take n data) <$> c).

Lemma closed_write_torn off data n cut d :
  closed_write off data -> Q (d !! path) ->
  Q (apply_op (torn cut (PWrite path off (take n data))) d !! path).
Proof.
  intros Hcl HQ. destruct cut as [m|]; cbn; rewrite lookup_alter_eq, ?take_take; by apply Hcl.
Qed.

Lemma file_write_spec off data w b r w' :
  is_crashed w = false -> cache w !! path = Some b -> file_write path off data w = (r, w') ->
  calm w w'
  /\ (disk_safe Q path w -> closed_write off data -> disk_safe Q path w')
  /\ (r = Ret tt /\ is_crashed w' = false /\ cache w' !! path = Some (write_bytes off data b)
      /\ (coherent path w -> coherent path w')
      \/ (exists e, r = Err e) /\ ~ quiet w).
Proof.
  unfold file_write, alive. intros Hcr Hb. rewrite Hcr, Hb.
  destruct (consult w) as [d w1] eqn:E. apply consult_same in E as (Hsame & Hcr1 & _ & Hq).
  rewrite Hcr in Hcr1. pose proof Hsame as (Hc & Hd & Hp & Hh).
  assert (Hds : disk_safe Q path w -> disk_safe Q path w1) by (by apply disk_safe_same).
  assert (Hpush : forall n, disk_safe Q path w -> closed_write off data ->
            disk_safe Q path (record_write path off (take n data) w1)).
  { intros n ? ?. apply disk_safe_push; [by apply Hds|]. intros. by apply closed_write_torn. }
  assert (Hfull : disk_safe Q path w -> closed_write off data ->
            disk_safe Q path (record_write path off data w1)).
  { intros Hs Hcl. pose proof (Hpush (length data) Hs Hcl) as Hl. by rewrite take_ge in Hl by lia. }
  assert (Hok : is_crashed (record_write path off data w1) = false
      /\ cache (record_write path off data w1) !! path = Some (write_bytes off data b)
      /\ (coherent path w -> coherent path (record_write path off data w1))).
  { split; [done|]. split; [cbn; by rewrite lookup_alter_eq, Hc, Hb|]. intros Hco.
    unfold record_write. apply coherent_push.
    - cbn. by apply bool_decide_eq_true.
    - by rewrite lookup_alter_eq.
    - unfold coherent, ops_on in *. by rewrite Hc, Hd, Hp. }
  intros H. destruct d; simplify_eq;
    (split; [exact Hh|]; split; [|first [by left | right; split; [by eauto|by apply Hq]]]); intros Hs Hcl;
    first [exact (Hds Hs) | exact (Hpush _ Hs Hcl) | exact (Hfull Hs Hcl)].
Qed.

Definition closed_truncate (size : nat) : Prop := forall c, Q c -> Q (file_resize size <$> c).

Lemma file_truncate_spec size w b r w' :
  is_crashed w = false -> cache w !! path = Some b -> file_truncate path size w = (r, w') ->
  calm w w'
  /\ (disk_safe Q path w -> closed_truncate size -> disk_safe Q path w')
  /\ (r = Ret tt /\ is_crashed w' = false /\ cache w' !! path = Some (file_resize size b)
      /\ (coherent path w -> coherent path w')
      \/ (exists e, r = Err e) /\ ~ quiet w).
Proof.
  unfold file_truncate, alive. intros Hcr Hb. rewrite Hcr, Hb.
  destruct (consult w) as [d w1] eqn:E. apply consult_same in E as (Hsame & Hcr1 & _ & Hq).
  rewrite Hcr in Hcr1. pose proof Hsame as (Hc & Hd & Hp & Hh).
  assert (Hds : disk_safe Q path w -> disk_safe Q path w1) by (by apply disk_safe_same).
  set (w2 := push (PTruncate path size) (set_cache w1 (alter (file_resize size) path (cache w1)))).
  assert (Hsafe : disk_safe Q path w -> closed_truncate size -> disk_safe Q path w2).
  { intros Hsafe Hcl. apply disk_safe_push; [by apply Hds|].
    intros cut m Hm. destruct cut; cbn; rewrite lookup_alter_eq; by apply Hcl. }
  assert (Hok : is_crashed w2 = false /\ cache w2 !! path = Some (file_resize size b)
      /\ (coherent path w -> coherent path w2)).
  { split; [done|]. split; [cbn; by rewrite lookup_alter_eq, Hc, Hb|]. intros Hco.
    apply coherent_push.
    - cbn. by apply bool_decide_eq_true.
    - by rewrite lookup_alter_eq.
    - unfold coherent, ops_on in *. by rewrite Hc, Hd, Hp. }
  intros H. destruct d; simplify_eq; (split; [exact Hh|]; split;
    [|first [by left | right; split; [by eauto|by apply Hq]]]); auto.
Qed.

Lemma file_sync_spec w b r w' :
  is_crashed w = false -> cache w !! path = Some b -> honest w -> file_sync path w = (r, w') ->
  calm w w' /\ (disk_safe Q path w -> disk_safe Q path w')
  /\ (r = Ret tt /\ (coherent path w -> synced path b w') \/ (exists e, r = Err e) /\ ~ quiet w).
Proof.
  unfold file_sync, alive. intros Hcr Hb Hh. rewrite Hcr, Hb.
  destruct (consult w) as [d w1] eqn:E. apply consult_same in E as (Hsame & Hcr1 & Hnd & Hq).
  rewrite Hcr in Hcr1. pose proof Hsame as (Hc & Hd & Hp & Hh1).
  assert (Hds : disk_safe Q path w -> disk_safe Q path w1) by (by apply disk_safe_same).
  assert (Hok : coherent path w -> synced path b (persist_file path w1)).
  { intros Hco. apply persist_file_synced; [|done|by rewrite Hc].
    unfold coherent, ops_on in *. by rewrite Hc, Hd, Hp. }
  assert (Hsp : disk_safe Q path w -> disk_safe Q path (persist_file path w1))
    by (intros; by apply disk_safe_persist, Hds).
  intros H. destruct d; simplify_eq; (split; [done|]); (split; [by auto|]);
    try (by left); try (right; split; [by eauto|by apply Hq]). by destruct (Hnd Hh).
Qed.

(** Whatever state the world is in, crashed or not. *)
Lemma file_truncate_safe size w r w' :
  file_truncate path size w = (r, w') -> disk_safe Q path w -> closed_truncate size ->
  calm w w' /\ disk_safe Q path w'.
Proof.
  intros H Hd Hcl. destruct (is_crashed w) eqn:Hcr.
  { unfold file_truncate, alive, crashed in H. rewrite Hcr in H. simplify_eq. split; [apply calm_refl|done]. }
  destruct (cache w !! path) as [b|] eqn:Hc.
  - destruct (file_truncate_spec _ _ _ _ _ Hcr Hc H) as (Hcalm & Hs & _). auto.
  - unfold file_truncate, alive, io in H. rewrite Hcr, Hc in H. simplify_eq. split; [apply calm_refl|done].
Qed.

Lemma file_sync_safe w r w' :
  honest w -> file_sync path w = (r, w') -> disk_safe Q path w -> calm w w' /\ disk_safe Q path w'.
Proof.
  intros Hh H Hd. destruct (is_crashed w) eqn:Hcr.
  { unfold file_sync, alive, crashed in H. rewrite Hcr in H. simplify_eq. split; [apply calm_refl|done]. }
  destruct (cache w !! path) as [b|] eqn:Hc.
  - destruct (file_sync_spec _ _ _ _ Hcr Hc Hh H) as (Hcalm & Hs & _). auto.
  - unfold file_sync, alive, io in H. rewrite Hcr, Hc in H. simplify_eq. split; [apply calm_refl|done].
Qed.

Lemma file_size_spec w b :
  is_crashed w = false -> cache w !! path = Some b -> file_size path w = (Ret (length b), w).
Proof. unfold file_size, alive. by intros -> ->. Qed.

Lemma persist_untouched sel b w :
  synced path b w -> is_crashed w = false -> synced path b (persist sel w).
Proof.
  intros (_ & Hc & Hd & Ho) Hcr. unfold synced, ops_on, persist in *.
  cbn [is_crashed cache durable pending set_pending set_durable].
  split_and!; try done.
  - rewrite <- Hd. generalize (durable w). clear Hd Hc.
    apply ops_on_nil in Ho. induction (pending w) as [|op l IH]; intros d; [done|].
    inversion Ho; subst. cbn [fold_left]. rewrite IH by done.
    destruct (sel op); [by apply apply_op_other | done].
  - apply ops_on_nil in Ho. induction (pending w) as [|op l IH]; [done|].
    inversion Ho as [|?? Hop Hl]; subst. cbn [List.filter].
    destruct (sel op); cbn; [by apply IH|]. rewrite Hop. by apply IH.
Qed.

Lemma vfs_sync_directory_spec dir w r w' :
  is_crashed w = false -> honest w -> vfs_sync_directory dir w = (r, w') ->
  calm w w' /\ (disk_safe Q path w -> disk_safe Q path w')
  /\ (r = Ret tt /\ (forall b, synced path b w -> synced path b w') \/ (exists e, r = Err e) /\ ~ quiet w).
Proof.
  unfold vfs_sync_directory. intros Hcr Hh. rewrite Hcr.
  destruct (consult w) as [d w1] eqn:E. apply consult_same in E as (Hsame & Hcr1 & Hnd & Hq).
  rewrite Hcr in Hcr1. pose proof Hsame as (Hc & Hd & Hp & Hh1).
  assert (Hds : disk_safe Q path w -> disk_safe Q path w1) by (by apply disk_safe_same).
  assert (Hok : forall b, synced path b w -> synced path b (persist_directory w1)).
  { intros b Hb. apply persist_untouched; [|done]. by apply (synced_same _ _ w). }
  assert (Hsp : disk_safe Q path w -> disk_safe Q path (persist_directory w1))
    by (intros; by apply disk_safe_persist, Hds).
  intros H. destruct d; simplify_eq; (split; [done|]); (split; [by auto|]);
    try (by left); try (right; split; [by eauto|by apply Hq]). by destruct (Hnd Hh).
Qed.

Lemma vfs_exists_spec w :
  is_crashed w = false -> vfs_exists path w = (Ret (bool_decide (is_Some (cache w !! path))), w).
Proof. unfold vfs_exists. by intros ->. Qed.

(** Opening for writing with [create]. *)
Lemma vfs_open_spec w r w' :
  is_crashed w = false -> vfs_open path (mkOpenFlags true true false false) w = (r, w') ->
  calm w w'
  /\ (disk_safe Q path w -> (forall c, Q c -> Q (Some (default [] c))) -> disk_safe Q path w')
  /\ (r = Ret tt /\ is_crashed w' = false
      /\ cache w' !! path = Some (default [] (cache w !! path))
      /\ (coherent path w -> coherent path w')
      /\ (forall b, synced path b w -> synced path b w' /\ (disk_safe Q path w -> disk_safe Q path w'))
      \/ (exists e, r = Err e) /\ ~ quiet w /\ same_files w w').
Proof.
  unfold vfs_open. intros Hcr. rewrite Hcr. cbn [of_create of_write of_exclusive of_truncate negb andb].
  destruct (consult w) as [d w1] eqn:E. apply consult_same in E as (Hsame & Hcr1 & _ & Hq).
  rewrite Hcr in Hcr1. pose proof Hsame as (Hc & Hd & Hp & Hh). rewrite Hc.
  assert (Hds : disk_safe Q path w -> disk_safe Q path w1) by (by apply disk_safe_same).
  assert (Hco : coherent path w -> coherent path w1).
  { unfold coherent, ops_on in *. by rewrite Hc, Hd, Hp. }
  assert (Hsy : forall b, synced path b w -> synced path b w1)
    by (intros; by apply (synced_same _ _ w)).
  destruct (cache w !! path) as [b|] eqn:Eb.
  - intros H. destruct d; simplify_eq; (split; [done|]); (split; [by auto|]);
      try (left; rewrite Hc, Eb; by eauto 10); (right; split_and!; [by eauto | by apply Hq | by auto with archivum]).
  - set (w2 := push (PCreate path) (set_cache w1 (<[path := []]> (cache w1)))).
    assert (Hpush : disk_safe Q path w -> (forall c, Q c -> Q (Some (default [] c))) ->
              disk_safe Q path w2).
    { intros Hsafe Hcl. apply disk_safe_push; [by apply Hds|]. intros cut m Hm.
      assert (torn cut (PCreate path) = PCreate path) as -> by (by destruct cut).
      rewrite (apply_file_op path) by (cbn; by apply bool_decide_eq_true). by apply Hcl. }
    assert (Hok : cache w2 !! path = Some (default [] (@None Bytes)) /\ (coherent path w -> coherent path w2)).
    { split; [cbn; by rewrite lookup_insert_eq|]. intros Hcoh. apply coherent_push.
      - cbn. by apply bool_decide_eq_true.
      - by rewrite lookup_insert_eq, Hc, Eb.
      - by apply Hco. }
    assert (Hns : forall b, ~ synced path b w) by (intros b (_ & Hb & _); congruence).
    intros H. rewrite <- Hc in H. fold w2 in H. destruct d; simplify_eq; (split; [done|]); (split; [by auto|]);
      try (left; destruct Hok; split_and!; by auto || (intros b Hb; by destruct (Hns b Hb)));
      (right; split_and!; [by eauto | by apply Hq | by auto with archivum]).
Qed.

End outcomes.

(** * Hoare triples for methods

    [triple P m Q E]: started in [P] under an honest injector, [m] ends in
    [Q] when it returns a value and in [E] when it returns an error, and it
    returns an error only if the injector made some operation fail.  Errors
    that the code itself raises are not failures of this kind: they are
    stated separately, as values. *)
Section triples.
Context {S : Type}.
Implicit Types (P E : S -> World -> Prop).

Definition triple {A} P (m : M (S * World) A) (Q : A -> S -> World -> Prop) E : Prop :=
  forall s w r s' w', honest w -> P s w -> m (s, w) = (r, (s', w')) ->
    calm w w' /\
    match r with
    | Ret a => Q a s' w'
    | Err _ => E s' w' /\ ~ quiet w
    end.

Lemma triple_ret {A} P (a : A) Q E : (forall s w, P s w -> Q a s w) -> triple P (ret a) Q E.
Proof. intros H s w r s' w' _ HP [= <- <- <-]. split; [done|auto]. Qed.

Lemma triple_bind {A B} P (m : M (S * World) A) R (k : A -> M (S * World) B) Q E :
  triple P m R E -> (forall a, triple (R a) (k a) Q E) -> triple P (bind m k) Q E.
Proof.
  intros Hm Hk s w r s' w' Hh HP H. unfold bind in H.
  destruct (m (s, w)) as [[a|e] [s1 w1]] eqn:E1.
  - destruct (Hm _ _ _ _ _ Hh HP E1) as [Hc1 HR].
    destruct (Hk _ _ _ _ _ _ (proj1 Hc1 Hh) HR H) as [Hc2 HQ].
    split; [by eapply calm_trans|]. destruct r; [done|]. destruct HQ as [? Hq].
    split; [done|]. intros ?. by apply Hq, Hc1.
  - simplify_eq. by apply (Hm _ _ _ _ _ Hh HP E1).
Qed.

Lemma triple_conseq {A} P P' (m : M (S * World) A) (Q Q' : A -> S -> World -> Prop) E E' :
  triple P' m Q' E' -> (forall s w, P s w -> P' s w) -> (forall a s w, Q' a s w -> Q a s w) ->
  (forall s w, E' s w -> E s w) -> triple P m Q E.
Proof.
  intros Hm HP HQ HE s w r s' w' Hh H0 H. destruct (Hm _ _ _ _ _ Hh (HP _ _ H0) H) as [Hc Hr].
  split; [done|]. destruct r; [auto|]. destruct Hr. auto.
Qed.

Lemma triple_pre {A} P P' (m : M (S * World) A) Q E :
  triple P' m Q E -> (forall s w, P s w -> P' s w) -> triple P m Q E.
Proof. intros. eapply triple_conseq; eauto. Qed.

Lemma triple_err {A} P (m : M (S * World) A) Q E E' :
  triple P m Q E' -> (forall s w, E' s w -> E s w) -> triple P m Q E.
Proof. intros. eapply triple_conseq; eauto. Qed.

(** A fact about the starting state moves into the context. *)
Lemma triple_assume {A} P (m : M (S * World) A) Q E :
  (forall s0 w0, P s0 w0 -> triple (fun s w => s = s0 /\ w = w0 /\ P s0 w0) m Q E) -> triple P m Q E.
Proof. intros H s w r s' w' Hh HP Hm. by apply (H s w HP s w r s' w'). Qed.

Lemma triple_exists {A X} (P : X -> S -> World -> Prop) (m : M (S * World) A) Q E :
  (forall x, triple (P x) m Q E) -> triple (fun s w => exists x, P x s w) m Q E.
Proof. intros H s w r s' w' Hh [x HP] Hm. by apply (H x s w). Qed.

Lemma triple_pure {A} (F : Prop) P (m : M (S * World) A) Q E :
  (F -> triple P m Q E) -> triple (fun s w => F /\ P s w) m Q E.
Proof. intros H s w r s' w' Hh [HF HP] Hm. by apply (H HF s w). Qed.

Lemma triple_getO {P} Q E : (forall s w, P s w -> Q s s w) -> triple P getO Q E.
Proof. intros H s w r s' w' _ HP [= <- <- <-]. split; [done|]. cbn. auto. Qed.

(** The object is known: reading it substitutes it. *)
Lemma triple_get_bind {A} s0 (R : World -> Prop) (k : S -> M (S * World) A) Q E :
  triple (fun s w => s = s0 /\ R w) (k s0) Q E ->
  triple (fun s w => s = s0 /\ R w) (bind getO k) Q E.
Proof. intros H s w r s' w' Hh [-> HR] Hk. by apply (H s0 w r s' w'). Qed.

(** The value an operation returned is known. *)
Lemma triple_bind_eq {A B} P (m : M (S * World) A) a0 (R : S -> World -> Prop) (k : A -> M (S * World) B) Q E :
  triple P m (fun a s w => a = a0 /\ R s w) E -> triple R (k a0) Q E -> triple P (bind m k) Q E.
Proof.
  intros Hm Hk. eapply triple_bind; [exact Hm|].
  intros a s w r s' w' Hh [-> HR] H. by apply (Hk s w).
Qed.

Lemma triple_modO P f (Q : unit -> S -> World -> Prop) E :
  (forall s w, P s w -> Q tt (f s) w) -> triple P (modO f) Q E.
Proof. intros H s w r s' w' _ HP [= <- <- <-]. split; [done|]. cbn. auto. Qed.

(** The file as the process sees it, on the way to the disk and on it. *)
Definition dirty (D : option Bytes -> Prop) (path : string) (b : Bytes) (w : World) : Prop :=
  is_crashed w = false /\ cache w !! path = Some b /\ coherent path w /\ disk_safe D path w.
Definition clean (D : option Bytes -> Prop) (path : string) (b : Bytes) (w : World) : Prop :=
  synced path b w /\ disk_safe D path w.

Lemma clean_dirty D path b w : clean D path b w -> dirty D path b w.
Proof.
  intros [Hs Hd]. pose proof (synced_coherent _ _ _ Hs). destruct Hs as (? & ? & _). by split_and!.
Qed.

Definition framed (R : World -> Prop) : Prop :=
  forall w w', same_files w w' -> is_crashed w' = false -> R w -> R w'.

Lemma framed_dirty D path b : framed (dirty D path b).
Proof.
  intros w w' Hs Hcr (_ & Hc & Hco & Hd). pose proof Hs as (Hc1 & Hd1 & Hp1 & _).
  assert (Hd' := disk_safe_same _ _ _ _ Hs Hd).
  unfold dirty, coherent, ops_on in *. rewrite Hc1, Hd1, Hp1. by destruct Hco; split_and!.
Qed.

Lemma framed_clean D path b : framed (clean D path b).
Proof.
  intros w w' Hs Hcr [Hsy Hd]. split; [by eapply synced_same | by eapply disk_safe_same].
Qed.

Lemma dirty_reads D path b w :
  dirty D path b w -> is_crashed w = false /\ cache w !! path = Some b /\ disk_safe D path w.
Proof. intros (? & ? & _ & ?). done. Qed.
Lemma clean_reads D path b w :
  clean D path b w -> is_crashed w = false /\ cache w !! path = Some b /\ disk_safe D path w.
Proof. intros [(? & ? & _) ?]. done. Qed.

Lemma synced_clean (D : option Bytes -> Prop) path b w :
  synced path b w -> D (Some b) -> clean D path b w.
Proof.
  intros Hs HD. pose proof Hs as (_ & _ & Hd & Ho). split; [done|]. split; [by rewrite Hd|].
  apply stable_untouched. by apply ops_on_nil.
Qed.

Context (D : option Bytes -> Prop) (path : string) (I : S -> Prop) (E : S -> World -> Prop)
  (HE : forall s w, I s -> disk_safe D path w -> E s w).

(** Reading leaves alone whatever a frame property says of the files. *)
Lemma triple_read R off len b :
  framed R -> (forall w, R w -> is_crashed w = false /\ cache w !! path = Some b /\ disk_safe D path w) ->
  triple (fun s w => I s /\ R w) (onw (file_read path off len))
         (fun x s w => x = sub off len b /\ I s /\ R w)
         E.
Proof.
  intros Hfr HR s w r s' w' _ (HI & HRw) H. unfold onw in H.
  destruct (HR w HRw) as (Hcr & Hc & Hd).
  destruct (file_read path off len w) as [r1 w1] eqn:E1. simplify_eq.
  destruct (file_read_spec _ _ _ _ _ _ _ Hcr Hc E1) as (Hs & Ho).
  split; [by apply Hs|]. assert (Hd' := disk_safe_same _ _ _ _ Hs Hd).
  destruct Ho as [[-> Hcr1]|[[e ->] Hq]]; [|by auto]. eauto.
Qed.

Lemma triple_size R b :
  framed R -> (forall w, R w -> is_crashed w = false /\ cache w !! path = Some b /\ disk_safe D path w) ->
  triple (fun s w => I s /\ R w) (onw (file_size path))
         (fun x s w => x = length b /\ I s /\ R w)
         E.
Proof.
  intros Hfr HR s w r s' w' _ (HI & HRw) H. unfold onw in H.
  destruct (HR w HRw) as (Hcr & Hc & Hd).
  rewrite (file_size_spec _ _ _ Hcr Hc) in H. by simplify_eq.
Qed.

Lemma triple_salt R :
  framed R -> (forall w, R w -> is_crashed w = false) ->
  triple (fun s w => I s /\ R w) (onw random_salt) (fun v s w => u32_ok v /\ I s /\ R w) E.
Proof.
  intros Hfr HR s w r s' w' _ (HI & HRw) H. unfold onw, random_salt in H.
  destruct (entropy w) as [|v e] eqn:Ee; simplify_eq.
  - split; [done|]. split; [unfold u32_ok; lia|done].
  - split; [done|]. split; [apply Z.mod_pos_bound; lia|]. split; [done|].
    apply (Hfr w); [done|exact (HR w HRw)|done].
Qed.

Lemma triple_write off data b :
  closed_write D off data ->
  triple (fun s w => I s /\ dirty D path b w) (onw (file_write path off data))
         (fun _ s w => I s /\ dirty D path (write_bytes off data b) w)
         E.
Proof.
  intros Hcl s w r s' w' _ (HI & Hcr & Hc & Hco & Hd) H. unfold onw in H.
  destruct (file_write path off data w) as [r1 w1] eqn:E1. simplify_eq.
  destruct (file_write_spec _ D _ _ _ _ _ _ Hcr Hc E1) as (Hcalm & Hs & Ho).
  specialize (Hs Hd Hcl). split; [done|].
  destruct Ho as [(-> & Hcr1 & Hc1 & Hco1)|[[e ->] Hq]]; [|by auto]. unfold dirty. split_and!; auto.
Qed.

Lemma triple_truncate size b :
  closed_truncate D size ->
  triple (fun s w => I s /\ dirty D path b w) (onw (file_truncate path size))
         (fun _ s w => I s /\ dirty D path (file_resize size b) w)
         E.
Proof.
  intros Hcl s w r s' w' _ (HI & Hcr & Hc & Hco & Hd) H. unfold onw in H.
  destruct (file_truncate path size w) as [r1 w1] eqn:E1. simplify_eq.
  destruct (file_truncate_spec _ D _ _ _ _ _ Hcr Hc E1) as (Hcalm & Hs & Ho).
  specialize (Hs Hd Hcl). split; [done|].
  destruct Ho as [(-> & Hcr1 & Hc1 & Hco1)|[[e ->] Hq]]; [|by auto]. unfold dirty. split_and!; auto.
Qed.

Lemma triple_sync b :
  triple (fun s w => I s /\ dirty D path b w) (onw (file_sync path))
         (fun _ s w => I s /\ clean D path b w)
         E.
Proof.
  intros s w r s' w' Hh (HI & Hcr & Hc & Hco & Hd) H. unfold onw in H.
  destruct (file_sync path w) as [r1 w1] eqn:E1. simplify_eq.
  destruct (file_sync_spec _ D _ _ _ _ Hcr Hc Hh E1) as (Hcalm & Hs & Ho).
  specialize (Hs Hd). split; [done|].
  destruct Ho as [(-> & Hsy)|[[e ->] Hq]]; [|by auto]. split; [done|]. split; auto.
Qed.

Lemma triple_sync_directory dir b :
  triple (fun s w => I s /\ clean D path b w) (onw (vfs_sync_directory dir))
         (fun _ s w => I s /\ clean D path b w)
         E.
Proof.
  intros s w r s' w' Hh (HI & Hsy & Hd) H. unfold onw in H.
  destruct (vfs_sync_directory dir w) as [r1 w1] eqn:E1. simplify_eq.
  destruct (vfs_sync_directory_spec path D _ _ _ _ (proj1 Hsy) Hh E1) as (Hcalm & Hs & Ho).
  specialize (Hs Hd). split; [done|].
  destruct Ho as [(-> & Hs')|[[e ->] Hq]]; [|by auto]. split; [done|]. split; auto.
Qed.

Lemma triple_open b :
  triple (fun s w => I s /\ clean D path b w) (onw (vfs_open path (mkOpenFlags true true false false)))
         (fun _ s w => I s /\ clean D path b w)
         E.
Proof.
  intros s w r s' w' Hh (HI & Hsy & Hd) H. unfold onw in H.
  destruct (vfs_open path _ w) as [r1 w1] eqn:E1. simplify_eq.
  destruct (vfs_open_spec path D _ _ _ (proj1 Hsy) E1) as (Hcalm & _ & Ho). split; [done|].
  destruct Ho as [(-> & Hcr & Hc & Hco & Hs')|([e ->] & Hq & Hsame)].
  - destruct (Hs' b Hsy) as [Hsy' Hd']. split; [done|]. split; auto.
  - split; [|by auto]. apply HE; [done|]. by eapply disk_safe_same.
Qed.

(** Creating the file: the empty content is not yet on the disk. *)
Lemma triple_create :
  (forall c, D c -> D (Some (default [] c))) ->
  triple (fun s w => I s /\ is_crashed w = false /\ cache w !! path = None /\ coherent path w
                     /\ disk_safe D path w)
         (onw (vfs_open path (mkOpenFlags true true false false)))
         (fun _ s w => I s /\ dirty D path [] w)
         E.
Proof.
  intros Hcl s w r s' w' Hh (HI & Hcr & Hc & Hco & Hd) H. unfold onw in H.
  destruct (vfs_open path _ w) as [r1 w1] eqn:E1. simplify_eq.
  destruct (vfs_open_spec path D _ _ _ Hcr E1) as (Hcalm & Hs & Ho). split; [done|].
  specialize (Hs Hd Hcl). rewrite Hc in Ho.
  destruct Ho as [(-> & Hcr1 & Hc1 & Hco1 & _)|([e ->] & Hq & Hsame)]; unfold dirty; split_and!; auto.
Qed.

End triples.
