(* ===== verification/Journal.v ===== *)
(** The append-only journal (engine/include/archivum/journal.h,
    engine/src/journal.cpp).

    The object's members are the fields of [Journal]; a method runs on the
    object together with the world it writes to.  [open] creates or recovers
    the file, [append] writes one record and syncs it, [read] returns the
    payload of a record.  The file proves what the header of journal.h
    promises: an acknowledged record survives any power loss, an
    unacknowledged one is there completely or not at all, and recovery finds
    exactly the records before the torn tail. *)

From S2P Require Import Prelude Bytes Crc32c Vfs.
From stdpp Require Import base numbers list gmap strings.
Open Scope Z_scope.

Definition kMagic : Bytes := [65; 82; 67; 72; 74; 78; 76; 49].
Definition kVersion : Z := 1.
Definition kHeaderBytes : nat := 16.
Definition kRecordHeaderBytes : nat := 8.

(** [put_u32_le]/[get_u32_le], byte by byte as the file writes them. *)
Definition put_u32_le (p : Bytes) (off : nat) (v : Z) : Bytes :=
  blit off [Z.land v 0xFF; Z.land (Z.shiftr v 8) 0xFF; Z.land (Z.shiftr v 16) 0xFF;
            Z.land (Z.shiftr v 24) 0xFF] p.
Definition get_u32_le (p : Bytes) (off : nat) : Z :=
  Z.lor (Z.lor (Z.lor (byte_at p off) (Z.shiftl (byte_at p (off + 1)) 8))
               (Z.shiftl (byte_at p (off + 2)) 16))
        (Z.shiftl (byte_at p (off + 3)) 24).

Definition make_header : Bytes :=
  let h := blit 0 kMagic (replicate kHeaderBytes 0) in
  let h := put_u32_le h 8 kVersion in
  put_u32_le h 12 (crc32c (take 12 h)).

Record Options := mkOptions { max_record_bytes : Z; unsafe_skip_sync : bool }.

(** [RecordRef]: the offset of the record header and the payload length. *)
Record RecordRef := mkRecordRef { offset : nat; rlength : nat }.

Record Journal := mkJournal {
  j_path : string;
  j_options : Options;
  j_open : bool;               (* file_ is not null *)
  records : list RecordRef;
  end_ : nat;
  dropped_tail_bytes : nat;
  header_rewritten : bool;
  failed : bool
}.

Definition set_file (j : Journal) (o : bool) : Journal :=
  mkJournal (j_path j) (j_options j) o (records j) (end_ j) (dropped_tail_bytes j) (header_rewritten j) (failed j).
Definition set_records (j : Journal) rs : Journal :=
  mkJournal (j_path j) (j_options j) (j_open j) rs (end_ j) (dropped_tail_bytes j) (header_rewritten j) (failed j).
Definition set_end (j : Journal) e : Journal :=
  mkJournal (j_path j) (j_options j) (j_open j) (records j) e (dropped_tail_bytes j) (header_rewritten j) (failed j).
Definition set_dropped (j : Journal) n : Journal :=
  mkJournal (j_path j) (j_options j) (j_open j) (records j) (end_ j) n (header_rewritten j) (failed j).
Definition set_rewritten (j : Journal) b : Journal :=
  mkJournal (j_path j) (j_options j) (j_open j) (records j) (end_ j) (dropped_tail_bytes j) b (failed j).
Definition set_failed (j : Journal) b : Journal :=
  mkJournal (j_path j) (j_options j) (j_open j) (records j) (end_ j) (dropped_tail_bytes j) (header_rewritten j) b.

Definition JM (A : Type) : Type := M (Journal * World) A.

Definition create_new (dir : string) : JM unit :=
  let! j := getO in
  let header := make_header in
  do! onw (file_write (j_path j) 0 header) in
  do! onw (file_sync (j_path j)) in
  do! onw (vfs_sync_directory dir) in
  modO (fun j => set_end j kHeaderBytes).

(** The scan of [recover] for the longest valid prefix, from [off]; the
    result is the offset it stops at.  Every record takes at least eight
    bytes, so [size] bounds the iterations. *)
Fixpoint scan (fuel : nat) (size off : nat) : JM nat :=
  match fuel with
  | O => lift (corrupt "scan out of fuel")
  | S fuel =>
      let! j := getO in
      if (size <? off + kRecordHeaderBytes)%nat then ret off
      else
        let! rh := onw (file_read (j_path j) off kRecordHeaderBytes) in
        if negb (length rh =? kRecordHeaderBytes)%nat then ret off
        else
          let len := get_u32_le rh 0 in
          let expected_crc := get_u32_le rh 4 in
          if (len =? 0) || (max_record_bytes (j_options j) <? len) then ret off
          else if (size <? off + kRecordHeaderBytes + Z.to_nat len)%nat then ret off
          else
            let! payload := onw (file_read (j_path j) (off + kRecordHeaderBytes) (Z.to_nat len)) in
            if negb (length payload =? Z.to_nat len)%nat then ret off
            else
              let crc := crc32c (take 4 rh) in
              let crc := crc32c_seeded crc payload in
              if negb (crc =? expected_crc) then ret off
              else
                do! modO (fun j => set_records j (records j ++ [mkRecordRef off (Z.to_nat len)])) in
                scan fuel size (off + (kRecordHeaderBytes + Z.to_nat len))
  end.

Definition recover : JM unit :=
  let! j := getO in
  let path := j_path j in
  let! size := onw (file_size path) in
  let! header := onw (file_read path 0 kHeaderBytes) in
  let header_ok := (length header =? kHeaderBytes)%nat && bool_decide (header = make_header) in
  let! size :=
    (if header_ok then ret size
     else
       do! modO (fun j => set_rewritten j true) in
       let! size :=
         (if (size <? kHeaderBytes)%nat then
            do! onw (file_truncate path kHeaderBytes) in ret kHeaderBytes
          else ret size) in
       do! onw (file_write path 0 make_header) in
       do! onw (file_sync path) in
       do! onw (vfs_sync_directory (directory_of path)) in
       ret size) in
  do! modO (fun j => set_records j []) in
  let! off := scan (S size) size kHeaderBytes in
  do! modO (fun j => set_dropped (set_end j off) (size - off)) in
  if negb (size - off =? 0)%nat then
    do! onw (file_truncate path off) in
    onw (file_sync path)
  else ret tt.

(** [Journal::open]: a fresh object, then [create_new] or [recover]. *)
Definition fresh (path : string) (options : Options) : Journal :=
  mkJournal path options false [] 0 0 false false.
Definition open_body : JM unit :=
  let! j := getO in
  let! exists_ := onw (vfs_exists (j_path j)) in
  do! onw (vfs_open (j_path j) (mkOpenFlags true true false false)) in
  do! modO (fun j => set_file j true) in
  if negb exists_ then create_new (directory_of (j_path j)) else recover.
Definition open (path : string) (options : Options) : M World Journal := fun w =>
  match open_body (fresh path options, w) with
  | (Ret _, (j, w')) => (Ret j, w')
  | (Err e, (_, w')) => (Err e, w')
  end.

(** The bytes of one record. *)
Definition record_frame (payload : Bytes) : Bytes :=
  let frame := replicate (kRecordHeaderBytes + length payload) 0 in
  let frame := put_u32_le frame 0 (wrap32 (Z.of_nat (length payload))) in
  let crc := crc32c (take 4 frame) in
  let crc := crc32c_seeded crc payload in
  let frame := put_u32_le frame 4 crc in
  blit kRecordHeaderBytes payload frame.

Definition append (payload : Bytes) : JM unit :=
  let! j := getO in
  if negb (j_open j) then lift (io ("journal closed: " +:+ j_path j))
  else if failed j then lift (io ("journal failed; reopen to recover: " +:+ j_path j))
  else if (length payload =? 0)%nat then lift (invalid_argument "empty journal record")
  else if max_record_bytes (j_options j) <? Z.of_nat (length payload) then
    lift (invalid_argument "journal record exceeds max_record_bytes")
  else
    let frame := record_frame payload in
    let! s := attempt (onw (file_write (j_path j) (end_ j) frame)) in
    match s with
    | Err e => do! modO (fun j => set_failed j true) in lift (Err e)
    | Ret _ =>
        let! s := (if unsafe_skip_sync (j_options j) then ret (Ret tt)
                   else attempt (onw (file_sync (j_path j)))) in
        match s with
        | Err e => do! modO (fun j => set_failed j true) in lift (Err e)
        | Ret _ =>
            modO (fun j => set_end (set_records j (records j ++ [mkRecordRef (end_ j) (length payload)]))
                                   (end_ j + length frame))
        end
    end.

Definition read (index : nat) : JM Bytes :=
  let! j := getO in
  if negb (j_open j) then lift (io ("journal closed: " +:+ j_path j))
  else match records j !! index with
       | None => lift (not_found "journal record index out of range")
       | Some ref =>
           let! out := onw (file_read (j_path j) (offset ref + kRecordHeaderBytes) (rlength ref)) in
           if negb (length out =? rlength ref)%nat then
             lift (corrupt ("journal record short read: " +:+ j_path j))
           else ret out
       end.

Definition close : JM unit := modO (fun j => set_file j false).

(** * The format *)

Lemma put_u32_le_eq p off v : put_u32_le p off v = put_u32 p off v.
Proof. done. Qed.

Lemma get_u32_le_eq p off : get_u32_le p off = get_u32 p off.
Proof. unfold get_u32_le, get_u32, get_le. cbn [seq fold_left]. by rewrite Nat.add_0_r. Qed.

Definition payload_crc (payload : Bytes) : Z :=
  crc32c_seeded (crc32c (le_bytes 4 (Z.of_nat (length payload)))) payload.

Lemma payload_crc_u32 p : bytes_ok p -> u32_ok (payload_crc p).
Proof. intros. apply crc32c_u32; [|done]. apply (crc32c_u32 0); auto with archivum. Qed.

Lemma record_frame_bytes p :
  Z.of_nat (length p) < 2 ^ 32 ->
  record_frame p = le_bytes 4 (Z.of_nat (length p)) ++ le_bytes 4 (payload_crc p) ++ p.
Proof.
  intros Hp. unfold record_frame, wrap32, kRecordHeaderBytes. rewrite Z.mod_small by lia. cbv zeta.
  change put_u32_le with put_u32. set (n := Z.of_nat (length p)).
  assert (Hfront : put_u32 (replicate (8 + length p) 0) 0 n = le_bytes 4 n ++ replicate (4 + length p) 0) by done.
  rewrite Hfront. rewrite (take_app_length' (le_bytes 4 n)) by (by rewrite length_le_bytes).
  change (crc32c_seeded (crc32c (le_bytes 4 n)) p) with (payload_crc p).
  pose proof (blit_at_end (le_bytes 4 n) (replicate (4 + length p) 0) (le_bytes 4 (payload_crc p))) as E.
  rewrite length_replicate, !length_le_bytes in E. unfold put_u32. rewrite E by lia.
  change (drop 4 (replicate (4 + length p) 0)) with (replicate (length p) 0).
  rewrite app_assoc. set (h := le_bytes 4 n ++ le_bytes 4 (payload_crc p)).
  change 8%nat with (length h).
  rewrite blit_at_end by (rewrite length_replicate; lia).
  rewrite drop_ge by (rewrite length_replicate; lia).
  unfold h. by rewrite app_nil_r, <- !app_assoc.
Qed.

Definition frames (recs : list Bytes) : Bytes := concat (map record_frame recs).

(** Where the records of a file lie. *)
Fixpoint refs (off : nat) (recs : list Bytes) : list RecordRef :=
  match recs with
  | [] => []
  | p :: recs => mkRecordRef off (length p) :: refs (off + (8 + length p)) recs
  end.

Lemma refs_app off a b :
  refs off (a ++ b) = refs off a ++ refs (off + list_sum (map (fun p => 8 + length p)%nat a)) b.
Proof.
  revert off. induction a as [|p a IH]; intros off; [by rewrite Nat.add_0_r|].
  cbn [app refs map]. change (list_sum (?x :: ?l)) with (x + list_sum l)%nat.
  rewrite IH. cbn [app]. f_equal. f_equal. f_equal. lia.
Qed.

Section format.
Context (opts : Options) (Hmax : u32_ok (max_record_bytes opts)).

Definition payload_ok (p : Bytes) : Prop :=
  bytes_ok p /\ p <> [] /\ Z.of_nat (length p) <= max_record_bytes opts.

Lemma payload_ok_length p : payload_ok p -> Z.of_nat (length p) < 2 ^ 32.
Proof. unfold u32_ok in Hmax. intros (_ & _ & H). lia. Qed.

Lemma length_record_frame p : payload_ok p -> length (record_frame p) = (8 + length p)%nat.
Proof.
  intros Hp. rewrite record_frame_bytes by (by apply payload_ok_length).
  rewrite !length_app, !length_le_bytes. lia.
Qed.

Lemma length_frames recs :
  Forall payload_ok recs -> length (frames recs) = list_sum (map (fun p => 8 + length p)%nat recs).
Proof.
  induction 1 as [|p recs Hp Hr IH]; [done|]. unfold frames in *.
  cbn [map concat list_sum]. change (list_sum (?a :: ?l)) with (a + list_sum l)%nat.
  by rewrite length_app, length_record_frame, IH.
Qed.

(** A tail that recovery drops: a proper prefix of some record. *)
Definition torn_tail (tail : Bytes) : Prop :=
  tail = [] \/ exists p n, payload_ok p /\ (n < length (record_frame p))%nat /\ tail = take n (record_frame p).

Lemma frame_len p rest :
  payload_ok p -> get_u32_le (take 8 (record_frame p) ++ rest) 0 = Z.of_nat (length p)
  /\ get_u32_le (take 8 (record_frame p) ++ rest) 4 = payload_crc p
  /\ take 4 (take 8 (record_frame p) ++ rest) = le_bytes 4 (Z.of_nat (length p)).
Proof.
  intros Hp. pose proof (payload_ok_length p Hp) as Hl.
  rewrite record_frame_bytes by done. rewrite !get_u32_le_eq.
  set (n := Z.of_nat (length p)) in *. set (c := payload_crc p).
  assert (Hc : u32_ok c) by (apply payload_crc_u32, Hp).
  change (take 8 (le_bytes 4 n ++ le_bytes 4 c ++ p)) with (le_bytes 4 n ++ le_bytes 4 c).
  unfold get_u32. rewrite (get_le_region 4 _ 0), (get_le_region 4 _ 4).
  change (sub 0 4 ((le_bytes 4 n ++ le_bytes 4 c) ++ rest)) with (le_bytes 4 n).
  change (sub 4 4 ((le_bytes 4 n ++ le_bytes 4 c) ++ rest)) with (le_bytes 4 c).
  assert (Hv : forall v, u32_ok v -> get_le 4 (le_bytes 4 v) 0 = v).
  { intros v Hv. rewrite get_le_value by (rewrite ?length_le_bytes; auto with archivum).
    rewrite sub_all by (rewrite length_le_bytes; lia). by apply le_value_le_bytes. }
  split_and!; [apply Hv; unfold u32_ok; lia | by apply Hv | done].
Qed.

(** ** The scan *)

Lemma set_records_id j : j = set_records j (records j).
Proof. by destruct j. Qed.

Lemma scan_stops fuel content j w off tail :
  is_crashed w = false -> cache w !! j_path j = Some content -> j_options j = opts ->
  torn_tail tail -> drop off content = tail -> (off <= length content)%nat -> (0 < fuel)%nat ->
  exists r w', scan fuel (length content) off (j, w) = (r, (j, w'))
    /\ same_files w w'
    /\ (r = Ret off /\ is_crashed w' = false \/ (exists e, r = Err e) /\ ~ quiet w).
Proof.
  intros Hcr Hc Hopt Ht Hd Hoff Hf. destruct Ht as [->|(p & n & Hp & Hn & Htail)].
  { apply (f_equal length) in Hd. rewrite length_drop in Hd. cbn in Hd.
    destruct fuel as [|fuel]; [lia|]. cbn [scan]. unfold bind, getO; cbn [fst snd].
    unfold kRecordHeaderBytes.
    destruct (Nat.ltb_spec (length content) (off + 8)); [eauto 10 with archivum|lia]. }
  rewrite length_record_frame in Hn by done.
  assert (Hlen : (length content = off + n)%nat).
  { apply (f_equal length) in Hd. rewrite Htail, length_drop, length_take, length_record_frame in Hd by done.
    lia. }
  destruct fuel as [|fuel]; [lia|]. cbn [scan]. unfold bind, getO, onw; cbn [fst snd].
  rewrite Hlen. unfold kRecordHeaderBytes.
  destruct (Nat.ltb_spec (off + n) (off + 8)); [eauto 10 with archivum|].
  destruct (file_read (j_path j) off 8 w) as [r1 w1] eqn:E1.
  destruct (file_read_spec _ _ _ _ _ _ _ Hcr Hc E1) as (Hs1 & [[-> Hcr1]|[[e ->] Hq]]); [|eauto 10].
  assert (Hrh : sub off 8 content = take 8 (record_frame p) ++ []).
  { unfold sub. rewrite Hd, Htail, take_take, app_nil_r. f_equal. lia. }
  destruct (frame_len p [] Hp) as (El & _ & _).
  rewrite Hrh, El, app_nil_r, length_take, length_record_frame by done.
  replace (8 `min` (8 + length p))%nat with 8%nat by lia. cbn [Nat.eqb negb].
  destruct (_ || _); [eauto 10|]. rewrite Nat2Z.id.
  destruct (Nat.ltb_spec (off + n) (off + 8 + length p)); [eauto 10|lia].
Qed.

Lemma scan_spec rest fuel pre tail j w r j' w' :
  Forall payload_ok rest -> torn_tail tail -> is_crashed w = false -> j_options j = opts ->
  cache w !! j_path j = Some (pre ++ frames rest ++ tail) -> (length rest < fuel)%nat ->
  scan fuel (length (pre ++ frames rest ++ tail)) (length pre) (j, w) = (r, (j', w')) ->
  same_files w w' /\ j' = set_records j (records j')
  /\ (r = Ret (length pre + length (frames rest))%nat /\ is_crashed w' = false
      /\ records j' = records j ++ refs (length pre) rest
      \/ (exists e, r = Err e) /\ ~ quiet w).
Proof.
  intros Hrest Htail. revert fuel pre j w.
  induction Hrest as [|p rest Hp Hrest IH]; intros fuel pre j w Hcr Hopt Hc Hf H.
  - destruct (scan_stops fuel (pre ++ tail) j w (length pre) tail) as (r1 & w1 & E & Hs & Hr);
      auto; [by apply drop_app_length | rewrite length_app; lia|].
    change (frames []) with (@nil Z) in *. cbn [app] in *. rewrite H in E. simplify_eq.
    split; [done|]. split; [apply set_records_id|]. cbn [length refs]. rewrite Nat.add_0_r, app_nil_r.
    destruct Hr as [[-> ?]|?]; [left|right]; done.
  - destruct fuel as [|fuel]; [cbn in Hf; lia|].
    change (frames (p :: rest)) with (record_frame p ++ frames rest) in *.
    set (content := pre ++ (record_frame p ++ frames rest) ++ tail) in *.
    pose proof (length_record_frame p Hp) as Hfl.
    assert (Hlc : length content = (length pre + (8 + length p + length (frames rest ++ tail)))%nat).
    { unfold content. rewrite <- app_assoc, !length_app, Hfl. lia. }
    assert (Hdrop : drop (length pre) content = record_frame p ++ frames rest ++ tail).
    { unfold content. rewrite drop_app_length. by rewrite <- app_assoc. }
    cbn [scan] in H. unfold bind, getO, onw in H; cbn [fst snd] in H. unfold kRecordHeaderBytes in H.
    destruct (Nat.ltb_spec (length content) (length pre + 8)); [lia|].
    destruct (file_read (j_path j) (length pre) 8 w) as [r1 w1] eqn:E1.
    destruct (file_read_spec _ _ _ _ _ _ _ Hcr Hc E1) as (Hs1 & [[-> Hcr1]|[[e ->] Hq]]).
    2: { simplify_eq. split; [done|]. split; [apply set_records_id|]. right. eauto. }
    assert (Hrh : sub (length pre) 8 content = take 8 (record_frame p) ++ []).
    { unfold sub. rewrite Hdrop, take_app_le, app_nil_r by lia. done. }
    destruct (frame_len p [] Hp) as (El & Ec & Et).
    rewrite Hrh, El, Ec, Et, app_nil_r, length_take, Hfl in H.
    replace (8 `min` (8 + length p))%nat with 8%nat in H by lia. cbn [Nat.eqb negb] in H.
    destruct Hp as (Hpb & Hpne & Hpmax) eqn:Ehp. clear Ehp.
    assert (length p <> 0)%nat by (by destruct p).
    destruct (Z.eqb_spec (Z.of_nat (length p)) 0); [lia|].
    rewrite Hopt in H. destruct (Z.ltb_spec (max_record_bytes opts) (Z.of_nat (length p))); [lia|].
    cbn [orb] in H. rewrite Nat2Z.id in H.
    destruct (Nat.ltb_spec (length content) (length pre + 8 + length p)); [lia|].
    destruct (file_read (j_path j) (length pre + 8) (length p) w1) as [r2 w2] eqn:E2.
    pose proof Hs1 as (Hc1 & _ & _ & _). assert (Hc1' := Hc). rewrite <- Hc1 in Hc1'.
    destruct (file_read_spec _ _ _ _ _ _ _ Hcr1 Hc1' E2) as (Hs2 & [[-> Hcr2]|[[e ->] Hq]]).
    2: { simplify_eq. split; [by eapply same_files_trans|]. split; [apply set_records_id|].
         right. split; [by eauto|]. intros Hqw. apply Hq. by apply Hs1. }
    assert (Hpay : sub (length pre + 8) (length p) content = p).
    { unfold sub. rewrite <- drop_drop, Hdrop.
      rewrite record_frame_bytes by (by apply payload_ok_length; split_and!).
      change (drop 8 ((?a ++ ?b ++ p) ++ ?c)) with (p ++ c). apply take_app_length. }
    rewrite Hpay, Nat.eqb_refl in H. cbn [negb] in H.
    change (crc32c_seeded (crc32c (le_bytes 4 (Z.of_nat (length p)))) p) with (payload_crc p) in H.
    rewrite Z.eqb_refl in H. cbn [negb] in H. unfold modO in H. cbn [fst snd] in H.
    destruct (IH fuel (pre ++ record_frame p) (set_records j (records j ++ [mkRecordRef (length pre) (length p)])) w2)
      as (Hs3 & Hj & Hr); auto.
    + cbn. destruct Hs2 as (Hc2 & _). rewrite Hc2, Hc1, Hc. f_equal.
      unfold content. by rewrite <- !app_assoc.
    + cbn in Hf. lia.
    + rewrite (length_app pre (record_frame p)), Hfl.
      assert ((pre ++ record_frame p) ++ frames rest ++ tail = content) as ->
        by (unfold content; by rewrite <- !app_assoc). exact H.
    + split; [by eapply same_files_trans; [|eapply same_files_trans]|].
      split; [by rewrite Hj|].
      destruct Hr as [(-> & Hcr3 & ->)|[? Hq]].
      * left. cbn [records set_records refs]. rewrite <- app_assoc, !length_app, Hfl. cbn [app].
        split_and!; [f_equal; lia | done | done].
      * right. split; [done|]. intros Hqw. apply Hq, Hs2, Hs1, Hqw.
Qed.

(** ** What the disk may hold

    [image recs c]: recovering the content [c] must give the records [recs].
    Before the header has been synced the file is missing or holds at most
    its sixteen bytes, whatever they are. *)
Definition file_of (recs : list Bytes) : Bytes := make_header ++ frames recs.

Definition image (recs : list Bytes) (c : option Bytes) : Prop :=
  Forall payload_ok recs /\
  (recs = [] /\ (c = None \/ exists b, c = Some b /\ (length b <= 16)%nat)
   \/ exists tail, c = Some (file_of recs ++ tail) /\ torn_tail tail).

Lemma length_header : length make_header = 16%nat.
Proof. done. Qed.
#[local] Opaque make_header.

Lemma image_closed_header : closed_write (image []) 0 make_header.
Proof.
  intros n c [Hok H]. split; [done|]. destruct H as [[_ [->|(b & -> & Hb)]]|(tail & -> & Ht)].
  - left. eauto.
  - left. split; [done|]. right. eexists. split; [done|].
    rewrite length_write_bytes, length_take, length_header. lia.
  - right. exists tail. split; [|done]. cbn [fmap option_fmap option_map]. f_equal.
    rewrite write_bytes_0, length_take, length_header. unfold file_of. rewrite app_nil_r.
    rewrite drop_app_le by (rewrite length_header; lia). rewrite app_assoc. f_equal.
    rewrite <- (take_drop (n `min` 16) make_header) at 3. f_equal.
    destruct (decide (n <= 16)%nat); [by rewrite Nat.min_l|].
    rewrite Nat.min_r, !take_ge by (rewrite ?length_header; lia). done.
Qed.

Lemma image_closed_create c : image [] c -> image [] (Some (default [] c)).
Proof.
  intros [Hok H]. split; [done|]. destruct H as [[_ [->|(b & -> & Hb)]]|(tail & -> & Ht)].
  - left. split; [done|]. right. eexists. split; [done|]. cbn. lia.
  - left. eauto.
  - right. eauto.
Qed.

Lemma image_closed_truncate recs : closed_truncate (image recs) (length (file_of recs)).
Proof.
  intros c [Hok H]. split; [done|]. destruct H as [[-> [->|(b & -> & Hb)]]|(tail & -> & Ht)].
  - left. eauto.
  - left. split; [done|]. right. eexists. split; [done|]. rewrite length_file_resize. done.
  - right. exists []. split; [|by left]. cbn [fmap option_fmap option_map]. f_equal. rewrite app_nil_r. by apply file_resize_app_l.
Qed.

(** While one record is being appended: a prefix of it is on the disk. *)
Definition appending (b f : Bytes) (c : option Bytes) : Prop := exists n, c = Some (b ++ take n f).

Lemma appending_closed b f : closed_write (appending b f) (length b) f.
Proof.
  intros m c [n ->]. exists (Nat.max m n). cbn [fmap option_fmap option_map]. f_equal.
  apply write_bytes_prefix.
Qed.

Lemma appending_image recs p c :
  Forall payload_ok recs -> payload_ok p -> appending (file_of recs) (record_frame p) c ->
  image recs c \/ image (recs ++ [p]) c.
Proof.
  intros Hrecs Hp [n ->]. destruct (decide (n < length (record_frame p))%nat) as [Hn|Hn].
  - left. split; [done|]. right. eexists. split; [done|]. right. eauto 10.
  - right. split; [apply Forall_app_2; [done|by apply Forall_singleton]|]. right. exists [].
    split; [|by left]. rewrite take_ge by lia. unfold file_of, frames.
    rewrite map_app, concat_app. cbn [map concat]. by rewrite !app_nil_r, <- app_assoc.
Qed.

(** ** The object between calls *)
Definition jinv (path : string) (recs : list Bytes) (j : Journal) (w : World) : Prop :=
  j_path j = path /\ j_options j = opts /\ j_open j = true /\ failed j = false
  /\ records j = refs 16 recs /\ end_ j = length (file_of recs)
  /\ Forall payload_ok recs /\ synced path (file_of recs) w.

Lemma jinv_disk path recs j w : jinv path recs j w -> disk_safe (image recs) path w.
Proof.
  intros (_ & _ & _ & _ & _ & _ & Hok & _ & _ & Hd & Ho). split.
  - rewrite Hd. split; [done|]. right. exists []. rewrite app_nil_r. split; [done|by left].
  - apply stable_untouched. by apply ops_on_nil.
Qed.

(** ** The methods under every injector *)

Lemma create_new_triple path dir j0 :
  j_path j0 = path ->
  triple (fun j w => j = j0 /\ dirty (image []) path [] w) (create_new dir)
         (fun _ j w => j = set_end j0 16 /\ clean (image []) path make_header w)
         (fun _ w => disk_safe (image []) path w).
Proof.
  intros <-. unfold create_new.
  apply triple_get_bind. cbv zeta.
  eapply triple_bind; [apply (triple_write (image []) (j_path j0) (fun j => j = j0));
                       [done | apply image_closed_header]|].
  intros []. eapply triple_bind; [by apply (triple_sync (image []) (j_path j0) (fun j => j = j0))|].
  intros []. eapply triple_bind; [by apply (triple_sync_directory (image []) (j_path j0) (fun j => j = j0))|].
  intros []. apply triple_modO. intros j w (-> & Hcl). split; [done|].
  by rewrite write_bytes_0, drop_nil, app_nil_r in Hcl.
Qed.

Lemma scan_triple D path j0 R rest fuel pre tail :
  j_path j0 = path -> j_options j0 = opts -> Forall payload_ok rest -> torn_tail tail ->
  framed R -> (forall w, R w -> is_crashed w = false
                /\ cache w !! path = Some (pre ++ frames rest ++ tail) /\ disk_safe D path w) ->
  (length rest < fuel)%nat ->
  triple (fun j w => j = j0 /\ R w)
         (scan fuel (length (pre ++ frames rest ++ tail)) (length pre))
         (fun off j w => off = (length pre + length (frames rest))%nat
                         /\ j = set_records j0 (records j0 ++ refs (length pre) rest) /\ R w)
         (fun _ w => disk_safe D path w).
Proof.
  intros <- Hopt Hrest Htail Hfr HR Hf s w r s' w' _ [-> HRw] H.
  destruct (HR w HRw) as (Hcr & Hc & Hd).
  destruct (scan_spec rest fuel pre tail j0 w r s' w' Hrest Htail Hcr Hopt Hc Hf H) as (Hs & Hj & Hr).
  split; [by apply Hs|]. destruct Hr as [(-> & Hcr' & Hrec)|[[e ->] Hq]].
  - split; [done|]. split; [by rewrite Hj, Hrec | by eapply Hfr].
  - split; [by eapply disk_safe_same | done].
Qed.

(** What [recover] leaves in the object. *)
Definition recovered (j0 : Journal) (recs : list Bytes) (j : Journal) : Prop :=
  j_path j = j_path j0 /\ j_options j = j_options j0 /\ j_open j = j_open j0
  /\ failed j = failed j0 /\ records j = refs 16 recs /\ end_ j = length (file_of recs).

Lemma length_recs_bound recs : Forall payload_ok recs -> (length recs <= length (frames recs))%nat.
Proof.
  intros H. rewrite length_frames by done. induction H as [|p recs Hp Hr IH]; [done|].
  cbn [length map]. change (list_sum (?a :: ?l)) with (a + list_sum l)%nat. lia.
Qed.

Definition recover_records (path : string) (size : nat) : JM unit :=
  do! modO (fun j => set_records j []) in
  let! off := scan (S size) size kHeaderBytes in
  do! modO (fun j => set_dropped (set_end j off) (size - off)) in
  if negb (size - off =? 0)%nat then
    do! onw (file_truncate path off) in
    onw (file_sync path)
  else ret tt.

Lemma recover_records_triple path recs tail j0 :
  j_path j0 = path -> j_options j0 = opts -> Forall payload_ok recs -> torn_tail tail ->
  triple (fun j w => j = j0 /\ clean (image recs) path (file_of recs ++ tail) w)
         (recover_records path (length (file_of recs ++ tail)))
         (fun _ j w => recovered j0 recs j /\ clean (image recs) path (file_of recs) w)
         (fun _ w => disk_safe (image recs) path w).
Proof.
  intros Hpath Hopt Hok Htail. unfold recover_records.
  set (R := clean (image recs) path (file_of recs ++ tail)).
  assert (Hlen : length (file_of recs) = (16 + length (frames recs))%nat)
    by (unfold file_of; by rewrite length_app).
  eapply triple_bind; [apply (triple_modO _ _ (fun _ j w => j = set_records j0 [] /\ R w)); by intros ?? [-> ?]|].
  intros [].
  pose proof (scan_triple (image recs) path (set_records j0 []) R recs
    (S (length (file_of recs ++ tail))) make_header tail) as Hscan.
  rewrite app_assoc, length_header, <- Hlen in Hscan. fold (file_of recs) in Hscan.
  unfold kHeaderBytes.
  eapply triple_bind_eq.
  { apply Hscan; [done..|apply framed_clean| |].
    - intros w Hw. by apply clean_reads.
    - rewrite length_app, Hlen. pose proof (length_recs_bound recs Hok). lia. }
  cbn beta. rewrite length_app.
  replace (length (file_of recs) + length tail - length (file_of recs))%nat with (length tail) by lia.
  eapply triple_bind.
  { apply (triple_modO _ _ (fun _ j w => recovered j0 recs j /\ R w)). by intros ?? [-> ?]. }
  intros []. destruct (Nat.eqb_spec (length tail) 0) as [Hz|Hz]; cbn [negb].
  - apply nil_length_inv in Hz. apply triple_ret. intros j w [? HR]. split; [done|].
    subst R. by rewrite Hz, app_nil_r in HR.
  - eapply triple_bind.
    { eapply triple_pre; [apply (triple_truncate (image recs) path (recovered j0 recs)
                                  (fun _ w => disk_safe (image recs) path w));
                          [done | apply image_closed_truncate]|].
      intros j w [? HR]. split; [done | by apply clean_dirty]. }
    intros []. rewrite file_resize_app_l by done.
    by apply (triple_sync (image recs) path (recovered j0 recs)).
Qed.

Lemma journal_recover_unfold :
  recover =
  (let! j := getO in
   let! size := onw (file_size (j_path j)) in
   let! header := onw (file_read (j_path j) 0 kHeaderBytes) in
   let! size :=
     (if (length header =? kHeaderBytes)%nat && bool_decide (header = make_header) then ret size
      else
        do! modO (fun j => set_rewritten j true) in
        let! size :=
          (if (size <? kHeaderBytes)%nat then
             do! onw (file_truncate (j_path j) kHeaderBytes) in ret kHeaderBytes
           else ret size) in
        do! onw (file_write (j_path j) 0 make_header) in
        do! onw (file_sync (j_path j)) in
        do! onw (vfs_sync_directory (directory_of (j_path j))) in
        ret size) in
   recover_records (j_path j) size).
Proof. reflexivity. Qed.

(** A short or damaged header is rewritten; nothing can be behind it. *)
Lemma rewrite_header_triple path c j0 :
  (length c <= 16)%nat ->
  triple (fun j w => j = j0 /\ clean (image []) path c w)
    (do! modO (fun j => set_rewritten j true) in
     let! size :=
       (if (length c <? kHeaderBytes)%nat then
          do! onw (file_truncate path kHeaderBytes) in ret kHeaderBytes
        else ret (length c)) in
     do! onw (file_write path 0 make_header) in
     do! onw (file_sync path) in
     do! onw (vfs_sync_directory (directory_of path)) in
     ret size)
    (fun size j w => size = 16%nat /\ j = set_rewritten j0 true /\ clean (image []) path make_header w)
    (fun _ w => disk_safe (image []) path w).
Proof.
  intros Hc. set (j1 := set_rewritten j0 true). set (E := fun (_ : Journal) w => disk_safe (image []) path w).
  eapply triple_bind.
  { apply (triple_modO _ _ (fun _ j w => j = j1 /\ dirty (image []) path c w)).
    intros ?? [-> ?]. split; [done | by apply clean_dirty]. }
  intros []. eapply (triple_bind_eq _ _ 16%nat (fun j w => exists b, length b = 16%nat /\ j = j1 /\ dirty (image []) path b w)).
  { unfold kHeaderBytes. destruct (Nat.ltb_spec (length c) 16).
    - eapply triple_bind; [apply (triple_truncate (image []) path (fun j => j = j1) E);
                           [done | apply (image_closed_truncate [])]|].
      intros []. apply triple_ret. intros j w Hjw. split; [done|].
      exists (file_resize 16 c). by rewrite length_file_resize.
    - apply triple_ret. intros j w Hjw. split; [lia|]. exists c. split; [lia|done]. }
  apply triple_exists. intros b. apply triple_pure. intros Hb.
  eapply triple_bind; [apply (triple_write (image []) path (fun j => j = j1) E);
                       [done | apply image_closed_header]|].
  intros []. rewrite write_bytes_0, length_header, drop_ge, app_nil_r by lia.
  eapply triple_bind; [by apply (triple_sync (image []) path (fun j => j = j1) E)|].
  intros []. eapply triple_bind; [by apply (triple_sync_directory (image []) path (fun j => j = j1) E)|].
  intros []. by apply triple_ret.
Qed.

Lemma recover_triple path recs c j0 :
  j_path j0 = path -> j_options j0 = opts -> image recs (Some c) ->
  triple (fun j w => j = j0 /\ clean (image recs) path c w)
         recover
         (fun _ j w => recovered j0 recs j /\ clean (image recs) path (file_of recs) w)
         (fun _ w => disk_safe (image recs) path w).
Proof.
  intros Hpath Hopt [Hok Himg]. rewrite journal_recover_unfold. apply triple_get_bind. rewrite Hpath.
  eapply triple_bind_eq.
  { apply (triple_size (image recs) path (fun j => j = j0)
             (fun _ w => disk_safe (image recs) path w)); [apply framed_clean|].
    intros w Hw. by apply clean_reads. }
  eapply triple_bind_eq.
  { apply (triple_read (image recs) path (fun j => j = j0)
             (fun _ w => disk_safe (image recs) path w)); [done|apply framed_clean|].
    intros w Hw. by apply clean_reads. }
  cbv beta. unfold kHeaderBytes.
  destruct (decide (sub 0 16 c = make_header)) as [Eh|Eh].
  - (* the header is intact *)
    rewrite Eh, length_header, bool_decide_true by done. cbn [Nat.eqb andb].
    assert (exists tail, c = file_of recs ++ tail /\ torn_tail tail) as (tail & -> & Ht).
    { destruct Himg as [[-> [|(b & [= <-] & Hb)]]|(tail & [= ->] & Ht)]; [done| |by eauto].
      exists []. split; [|by left]. rewrite app_nil_r. unfold file_of. cbn [frames map concat].
      rewrite app_nil_r, <- Eh. symmetry. by apply sub_all. }
    eapply (triple_bind_eq _ _ (length (file_of recs ++ tail))
              (fun j w => j = j0 /\ clean (image recs) path (file_of recs ++ tail) w)).
    { apply triple_ret. intros j w Hjw. by split. }
    by apply recover_records_triple.
  - assert ((length (sub 0 16 c) =? 16)%nat && bool_decide (sub 0 16 c = make_header) = false) as ->.
    { rewrite bool_decide_false by done. apply andb_false_r. }
    destruct Himg as [[-> [|(b & [= <-] & Hb)]]|(tail & [= ->] & Ht)]; [done| |].
    + eapply triple_bind_eq; [by apply rewrite_header_triple|].
      replace 16%nat with (length (file_of [] ++ [])) by done.
      eapply triple_conseq; [apply (recover_records_triple path [] [] (set_rewritten j0 true))|..]; auto.
      by left.
    + destruct Eh. unfold file_of. rewrite <- app_assoc, sub_0. by apply take_app_length'.
Qed.

(** ** Opening *)

Lemma open_spec path recs disk inj ent r w' :
  image recs (disk !! path) -> DropSync ∉ inj ->
  open path opts (reboot disk inj ent) = (r, w') ->
  calm (reboot disk inj ent) w'
  /\ match r with
     | Ret j => jinv path recs j w'
     | Err _ => disk_safe (image recs) path w' /\ inj <> []
     end.
Proof.
  intros Himg Hinj Hopen. unfold open in Hopen.
  destruct (open_body (fresh path opts, reboot disk inj ent)) as [r0 [j1 w1]] eqn:E0.
  set (w0 := reboot disk inj ent) in *. set (j0 := fresh path opts) in *.
  enough (triple (fun j w => j = j0 /\ w = w0) open_body (fun _ j w => jinv path recs j w)
            (fun _ w => disk_safe (image recs) path w)) as Ht.
  { assert (Hh0 : honest w0) by done.
    destruct (Ht _ _ _ _ _ Hh0 (conj eq_refl eq_refl) E0) as [Hc Hr].
    destruct r0 as [[]|e]; simplify_eq; [by split|]. split; [done|]. destruct Hr as [? Hq].
    split; [done|]. intros ->. by apply Hq. }
  assert (Hsync : forall c, disk !! path = Some c -> synced path c w0) by (intros c Hc; by split_and!).
  unfold open_body. apply (triple_get_bind j0 (fun w => w = w0)).
  eapply (triple_bind_eq _ _ (bool_decide (is_Some (disk !! path))) (fun j w => j = j0 /\ w = w0)).
  { intros s w r1 s' w1' Hh [-> ->] H. unfold onw in H.
    rewrite vfs_exists_spec in H by done. simplify_eq. by split. }
  set (j1' := set_file j0 true). cbn [j_path j0 fresh].
  destruct (disk !! path) as [c|] eqn:Ec.
  - rewrite bool_decide_true by eauto. cbn [negb].
    eapply triple_bind.
    { eapply triple_pre; [by apply (triple_open (image recs) path (fun j => j = j0) (fun _ w => disk_safe (image recs) path w))|].
      intros ?? [-> ->]. split; [done|]. by apply synced_clean; [apply Hsync|]. }
    intros []. eapply triple_bind.
    { apply (triple_modO _ _ (fun _ j w => j = j1' /\ clean (image recs) path c w)). by intros ?? [-> ?]. }
    intros []. eapply triple_conseq; [by apply (recover_triple path recs c j1')|done| |done].
    intros _ j w ((? & ? & ? & ? & ? & ?) & Hsy & _). by split_and!; try apply Himg.
  - rewrite bool_decide_false by (by intros [? ?]). cbn [negb].
    destruct Himg as [Hok [[-> _]|(tail & ? & _)]]; [|done].
    eapply triple_bind.
    { eapply triple_pre; [apply (triple_create (image []) path (fun j => j = j0) (fun _ w => disk_safe (image []) path w));
        [done | apply image_closed_create]|].
      intros ?? [-> ->]. split; [done|]. split; [done|]. split; [done|].
      split; [by split; [constructor|]|]. split; [|apply stable_nil].
      unfold w0, reboot. cbn [durable]. rewrite Ec. split; [done|]. left. auto. }
    intros []. eapply triple_bind.
    { apply (triple_modO _ _ (fun _ j w => j = j1' /\ dirty (image []) path [] w)). by intros ?? [-> ?]. }
    intros []. eapply triple_conseq; [by apply (create_new_triple path (directory_of path) j1')|done| |done].
    intros _ j w (-> & Hsy & _). by split_and!.
Qed.

(** ** Appending *)

Lemma journal_append_spec path recs j w p r j' w' :
  jinv path recs j w -> honest w -> unsafe_skip_sync opts = false -> bytes_ok p ->
  append p (j, w) = (r, (j', w')) ->
  calm w w'
  /\ match r with
     | Ret _ => payload_ok p /\ jinv path (recs ++ [p]) j' w'
     | Err _ => (~ payload_ok p /\ j' = j /\ w' = w)
                \/ (payload_ok p /\ ~ quiet w /\ j' = set_failed j true
                    /\ disk_safe (appending (file_of recs) (record_frame p)) path w')
     end.
Proof.
  intros (Hpath & Hopt & Hopen & Hfail & Hrec & Hend & Hok & Hsy) Hh Hskip Hpb H.
  unfold append, bind, getO, lift in H. cbn [fst snd] in H. rewrite Hopen, Hfail, Hopt, Hskip in H. cbn [negb] in H.
  destruct (Nat.eqb_spec (length p) 0) as [Hz|Hz].
  { simplify_eq. split; [done|]. left. split_and!; try done. intros (_ & Hne & _). by destruct p. }
  destruct (Z.ltb_spec (max_record_bytes opts) (Z.of_nat (length p))) as [Hbig|Hbig].
  { simplify_eq. split; [done|]. left. split_and!; try done. intros (_ & _ & ?). lia. }
  assert (Hp : payload_ok p) by (split_and!; [done | by intros -> | lia]).
  set (A := appending (file_of recs) (record_frame p)).
  assert (HA : A (Some (file_of recs))) by (exists 0%nat; by rewrite take_0, app_nil_r).
  pose proof (synced_clean A _ _ _ Hsy HA) as Hcl.
  unfold attempt, onw, modO in H. rewrite Hpath, Hend in H.
  destruct (file_write path (length (file_of recs)) (record_frame p) w) as [r1 w1] eqn:E1.
  destruct Hcl as [_ Hds]. pose proof Hsy as (Hcr & Hc & _).
  destruct (file_write_spec path A _ _ _ _ _ _ Hcr Hc E1) as (Hcalm1 & Hs1 & Ho1).
  specialize (Hs1 Hds (appending_closed _ _)).
  destruct Ho1 as [(-> & Hcr1 & Hc1 & Hco1)|[[e ->] Hq]].
  2: { simplify_eq. split; [done|]. right. by split_and!. }
  rewrite write_bytes_end in Hc1. specialize (Hco1 (synced_coherent _ _ _ Hsy)).
  destruct (file_sync path w1) as [r2 w2] eqn:E2.
  destruct (file_sync_spec path A _ _ _ _ Hcr1 Hc1 (proj1 Hcalm1 Hh) E2) as (Hcalm2 & Hs2 & Ho2).
  pose proof (calm_trans _ _ _ Hcalm1 Hcalm2) as Hcalm.
  destruct Ho2 as [(-> & Hsy2)|[[e ->] Hq]]; simplify_eq; (split; [done|]).
  - split; [done|]. specialize (Hsy2 Hco1).
    assert (Hfile : file_of (recs ++ [p]) = file_of recs ++ record_frame p).
    { unfold file_of, frames. rewrite map_app, concat_app. cbn [map concat].
      by rewrite app_nil_r, <- app_assoc. }
    unfold jinv. cbn [fst snd j_path j_options j_open failed records end_ set_end set_records].
    do 4 (split; [first [reflexivity | assumption]|]).
    split; [|split; [by rewrite Hfile, length_app, Hend|split]].
    + rewrite Hrec, refs_app, Hend. cbn [refs]. unfold file_of.
      by rewrite length_app, length_header, length_frames by done.
    + apply Forall_app_2; [done|by apply Forall_singleton].
    + by rewrite Hfile.
  - right. split_and!; auto. intros ?. by apply Hq, Hcalm1.
Qed.

Lemma journal_append_failed j w p :
  j_open j = true -> failed j = true ->
  append p (j, w) = (io ("journal failed; reopen to recover: " +:+ j_path j), (j, w)).
Proof. intros H1 H2. unfold append, bind, getO. cbn [fst]. by rewrite H1, H2. Qed.

(** ** Reading back *)

Lemma refs_lookup recs i p off :
  Forall payload_ok recs -> recs !! i = Some p ->
  exists pre post, frames recs = pre ++ record_frame p ++ post
    /\ refs off recs !! i = Some (mkRecordRef (off + length pre) (length p)).
Proof.
  intros H. revert i off. induction H as [|q recs Hq Hrecs IH]; intros [|i] off Hi; try discriminate Hi.
  - injection Hi as ->. exists [], (frames recs). by rewrite Nat.add_0_r.
  - destruct (IH i (off + (8 + length q))%nat Hi) as (pre & post & E & El).
    exists (record_frame q ++ pre), post. change (frames (q :: recs)) with (record_frame q ++ frames recs).
    rewrite E. split; [by rewrite <- !app_assoc|].
    change (refs off (q :: recs) !! S i) with (refs (off + (8 + length q)) recs !! i).
    rewrite El. do 2 f_equal.
    rewrite length_app, length_record_frame by done. lia.
Qed.

Lemma length_refs off recs : length (refs off recs) = length recs.
Proof. revert off. induction recs as [|p recs IH]; intros off; cbn; [done|]. by rewrite IH. Qed.

Lemma read_spec path recs j w i :
  jinv path recs j w -> quiet w ->
  read i (j, w) = (match recs !! i with
                   | Some p => Ret p
                   | None => not_found "journal record index out of range"
                   end, (j, w)).
Proof.
  intros (Hpath & Hopt & Hopen & _ & Hrec & _ & Hok & (Hcr & Hc & _)) Hq.
  unfold read, bind, getO, lift, ret, onw. cbn [fst snd]. rewrite Hopen, Hrec. cbn [negb].
  destruct (recs !! i) as [p|] eqn:Ei.
  - destruct (refs_lookup recs i p 16 Hok Ei) as (pre & post & E & El). rewrite El, Hpath.
    cbn [offset rlength]. unfold file_read, alive, consult. rewrite Hcr, Hc, Hq.
    assert (Hp : payload_ok p) by (rewrite Forall_forall in Hok; by eapply Hok, list_elem_of_lookup_2).
    assert (Hsub : sub (16 + length pre + kRecordHeaderBytes) (length p) (file_of recs) = p).
    { unfold file_of, kRecordHeaderBytes. rewrite E, record_frame_bytes by (by apply payload_ok_length).
      unfold sub. rewrite <- drop_drop, app_assoc, drop_app_length'
        by (rewrite length_app, length_header; lia).
      change (drop 8 ((?a ++ ?b ++ p) ++ ?c)) with (p ++ c). apply take_app_length. }
    by rewrite Hsub, Nat.eqb_refl.
  - assert (refs 16 recs !! i = None) as ->; [|done].
    apply lookup_ge_None. rewrite length_refs. by apply lookup_ge_None.
Qed.

(** Every record of an open journal, in order. *)
Definition contents (j : Journal) (w : World) : list (Result Bytes) :=
  map (fun i => fst (read i (j, w))) (seq 0 (length (records j))).

Lemma contents_spec path recs j w : jinv path recs j w -> quiet w -> contents j w = map Ret recs.
Proof.
  intros Hj Hq. unfold contents.
  assert (Hl : length (records j) = length recs).
  { destruct Hj as (_ & _ & _ & _ & -> & _). apply length_refs. }
  rewrite Hl. apply list_eq. intros i. change (@map ?A ?B) with (@fmap list _ A B).
  rewrite !list_lookup_fmap. destruct (decide (i < length recs)%nat) as [Hi|Hi].
  - rewrite lookup_seq_lt by done. cbn [fmap option_fmap option_map Nat.add].
    rewrite (read_spec _ _ _ _ _ Hj Hq).
    destruct (lookup_lt_is_Some_2 recs i Hi) as [p ->]. done.
  - rewrite lookup_seq_ge by lia. rewrite (lookup_ge_None_2 recs) by lia. done.
Qed.

(** ** Sessions

    A client that calls [append] for each payload, whatever happens. *)
Fixpoint appends (ps : list Bytes) (s : Journal * World) : list Bytes * (Journal * World) :=
  match ps with
  | [] => ([], s)
  | p :: ps =>
      let '(r, s) := append p s in
      let '(acked, s) := appends ps s in
      (match r with Ret _ => p :: acked | Err _ => acked end, s)
  end.

Lemma appends_failed ps j w :
  j_open j = true -> failed j = true -> appends ps (j, w) = ([], (j, w)).
Proof.
  intros H1 H2. induction ps as [|p ps IH]; [done|]. cbn [appends]. rewrite journal_append_failed by done.
  unfold io. by rewrite IH.
Qed.

Lemma appends_spec path ps recs j w acked j' w' choice :
  jinv path recs j w -> honest w -> unsafe_skip_sync opts = false -> Forall bytes_ok ps ->
  appends ps (j, w) = (acked, (j', w')) ->
  exists doubt, (doubt = [] \/ exists p, p ∈ ps /\ doubt = [p])
    /\ image (recs ++ acked ++ doubt) (crash_image choice w' !! path).
Proof.
  intros Hj Hh Hskip Hps. revert recs j w acked Hj Hh.
  induction Hps as [|p ps Hp Hps IH]; intros recs j w acked Hj Hh H.
  - cbn in H. simplify_eq. exists []. split; [by left|]. cbn. rewrite !app_nil_r.
    by apply disk_safe_crash, (jinv_disk _ _ _ _ Hj).
  - cbn [appends] in H. destruct (append p (j, w)) as [r [j1 w1]] eqn:E1.
    destruct (journal_append_spec _ _ _ _ _ _ _ _ Hj Hh Hskip Hp E1) as [Hcalm Hr].
    destruct (appends ps (j1, w1)) as [acked1 [j2 w2]] eqn:E2.
    assert (Hin : forall d, d = [] \/ (exists q, q ∈ ps /\ d = [q]) ->
              d = [] \/ exists q, q ∈ p :: ps /\ d = [q]).
    { intros d [->|(q & Hq & ->)]; [by left|]. right. exists q. split; [by right|done]. }
    destruct r as [[]|e]; [|destruct Hr as [(_ & -> & ->)|(Hpok & _ & -> & Hd)]]; simplify_eq.
    + destruct Hr as [_ Hj1]. destruct (IH _ _ _ _ Hj1 (proj1 Hcalm Hh) E2) as (d & Hd & Hi).
      exists d. split; [by apply Hin|]. by rewrite <- !app_assoc in Hi.
    + destruct (IH _ _ _ _ Hj Hh E2) as (d & Hd & Hi). exists d. split; [by apply Hin | done].
    + rewrite appends_failed in E2 by (apply Hj || done). simplify_eq.
      assert (Hok : Forall payload_ok recs) by apply Hj.
      destruct (appending_image recs p _ Hok Hpok (disk_safe_crash _ _ _ choice Hd)) as [Hi|Hi].
      * exists []. split; [by left|]. by rewrite app_nil_r.
      * exists [p]. split; [|done]. right. exists p. split; [by left|done].
Qed.

End format.

(** * Properties *)

(** One life of a journal: the file is opened on the disk that the last power
    loss left, payloads are appended under an injector that may fail, cut
    short or crash any operation, and the power is lost again.  The result is
    what was acknowledged and the world at that moment. *)
Definition session (opts : Options) (path : string) (disk : gmap string Bytes)
    (inj : list Vfs.Decision) (ps : list Bytes) : list Bytes * World :=
  match open path opts (reboot disk inj []) with
  | (Ret j, w) => let '(acked, (_, w)) := appends ps (j, w) in (acked, w)
  | (Err _, w) => ([], w)
  end.

(** [C4] Crash safety of the journal.  From a disk that holds the records
    [recs], possibly with a torn tail, run a session under any injector whose
    syncs do not lie, and lose power with any selection, order and tearing of
    the unsynced operations.  The disk then holds [recs], every acknowledged
    record in order, and at most one record more, which is one the client
    tried to append; and opening it again without faults succeeds and reads
    back exactly those records. *)
Theorem journal_crash_safe opts path recs disk inj ps choice :
  u32_ok (max_record_bytes opts) -> unsafe_skip_sync opts = false ->
  image opts recs (disk !! path) -> DropSync ∉ inj -> Forall bytes_ok ps ->
  let '(acked, w) := session opts path disk inj ps in
  exists doubt, (doubt = [] \/ exists p, p ∈ ps /\ doubt = [p])
    /\ image opts (recs ++ acked ++ doubt) (crash_image choice w !! path)
    /\ exists j w', open path opts (reboot (crash_image choice w) [] []) = (Ret j, w')
         /\ contents j w' = map Ret (recs ++ acked ++ doubt).
Proof.
  intros Hmax Hskip Himg Hinj Hps. unfold session.
  assert (Hreopen : forall rs d, image opts rs (d !! path) ->
    exists j w', open path opts (reboot d [] []) = (Ret j, w') /\ contents j w' = map Ret rs).
  { intros rs d Hd. destruct (open path opts (reboot d [] [])) as [r w'] eqn:E.
    destruct (open_spec opts Hmax path rs d [] [] r w' Hd (not_elem_of_nil _) E) as [Hcalm Hr].
    destruct r as [j|e]; [|by destruct Hr]. exists j, w'. split; [done|].
    eapply contents_spec; eauto. by apply Hcalm. }
  destruct (open path opts (reboot disk inj [])) as [r w1] eqn:E1.
  destruct (open_spec opts Hmax path recs disk inj [] r w1 Himg Hinj E1) as [Hcalm Hr].
  destruct r as [j|e].
  - destruct (appends ps (j, w1)) as [acked [j2 w2]] eqn:E2.
    destruct (appends_spec opts Hmax path ps recs j w1 acked j2 w2 choice Hr) as (d & Hd & Hi); auto.
    { apply Hcalm. done. }
    exists d. split; [done|]. split; [done|]. by apply Hreopen.
  - exists []. split; [by left|]. cbn [app]. rewrite app_nil_r. destruct Hr as [Hsafe _].
    pose proof (disk_safe_crash _ _ _ choice Hsafe). split; [done|]. by apply Hreopen.
Qed.

Definition sample_options : Options := mkOptions 1024 false.

Lemma journal_crash_safe_witness :
  let '(acked, w) := session sample_options "j" ∅ [Proceed; Proceed; Proceed; Proceed;
                       Proceed; Proceed; Proceed; FailSync] [[1; 2]; [3]; [4]] in
  acked = [[1; 2]] /\
  exists doubt, (doubt = [] \/ exists p, p ∈ [[1; 2]; [3]; [4]] /\ doubt = [p])
    /\ image sample_options ([] ++ acked ++ doubt) (crash_image [(0%nat, Some 9%nat)] w !! "j")
    /\ exists j w', open "j" sample_options (reboot (crash_image [(0%nat, Some 9%nat)] w) [] []) = (Ret j, w')
         /\ contents j w' = map Ret ([] ++ acked ++ doubt).
Proof.
  assert (H := journal_crash_safe sample_options "j" [] ∅
    [Proceed; Proceed; Proceed; Proceed; Proceed; Proceed; Proceed; FailSync]
    [[1; 2]; [3]; [4]] [(0%nat, Some 9%nat)] ltac:(decide_now) eq_refl
    ltac:(split; [constructor | left; split; [reflexivity | left; reflexivity]])
    ltac:(decide_now) ltac:(decide_now)).
  destruct (session _ _ _ _ _) as [acked w] eqn:E. split; [|exact H].
  apply (f_equal fst) in E. vm_compute in E. symmetry. exact E.
Defined.
