(* ===== verification/Wal.v ===== *)
(** The write-ahead log (engine/src/engine/wal.h, engine/src/engine/wal.cpp).

    A log file is a header followed by frames; a transaction is a run of
    frames of which only the last, the page-0 image, carries the page count
    after the commit.  [Wal] has the members of the C++ object: the header
    with its salts, the frame and commit bookkeeping, and the index from a
    page to its frames in ascending order.  Frame numbers count from one.

    The file proves that the object and the file agree after every
    operation, that recovery of what a power loss leaves gives the committed
    transactions and at most the one in flight, whole, and that a lookup
    finds the newest frame of a page at or before a snapshot. *)

From S2P Require Import Prelude Bytes Crc32c PageFormat Vfs.
From stdpp Require Import base numbers list gmap strings.
Open Scope Z_scope.

Abbreviation FrameNo := nat.

Record WalRecoveryInfo := mkInfo {
  committed_frames : FrameNo;
  dropped_bytes : nat;
  info_header_rewritten : bool
}.

Record WalCommit := mkCommit {
  c_frame : FrameNo;
  c_db_size : Z;
  c_change_counter : Z;
  c_commit_time_us : Z
}.

Record WalOpenOptions := mkWalOptions {
  o_db_id : Bytes;
  new_base_change_counter : Z;
  o_read_only : bool
}.

Record Wal := mkWal {
  wal_path : string;
  page_size : nat;
  wal_open : bool;                       (* file_ is not null *)
  header : WalHeader.t;
  next_frame : FrameNo;
  last_commit : FrameNo;
  chain : Z;
  wal_failed : bool;
  read_only : bool;
  index : gmap PageNo (list FrameNo);    (* ascending frames per page *)
  commits : gmap FrameNo Z;              (* commit frame -> db size *)
  commit_list : list WalCommit;
  frame_pages : list PageNo              (* frame - 1 -> page, committed frames *)
}.

Definition set_header (x : Wal) h := mkWal (wal_path x) (page_size x) (wal_open x) h (next_frame x)
  (last_commit x) (chain x) (wal_failed x) (read_only x) (index x) (commits x) (commit_list x) (frame_pages x).
Definition set_next (x : Wal) n := mkWal (wal_path x) (page_size x) (wal_open x) (header x) n
  (last_commit x) (chain x) (wal_failed x) (read_only x) (index x) (commits x) (commit_list x) (frame_pages x).
Definition set_chain (x : Wal) c := mkWal (wal_path x) (page_size x) (wal_open x) (header x) (next_frame x)
  (last_commit x) c (wal_failed x) (read_only x) (index x) (commits x) (commit_list x) (frame_pages x).
Definition set_wal_failed (x : Wal) b := mkWal (wal_path x) (page_size x) (wal_open x) (header x) (next_frame x)
  (last_commit x) (chain x) b (read_only x) (index x) (commits x) (commit_list x) (frame_pages x).
Definition set_wal_open (x : Wal) b := mkWal (wal_path x) (page_size x) b (header x) (next_frame x)
  (last_commit x) (chain x) (wal_failed x) (read_only x) (index x) (commits x) (commit_list x) (frame_pages x).

Definition WM (A : Type) : Type := M (Wal * World) A.

Definition frame_bytes (x : Wal) : nat := WalFrameHeader.kEncodedBytes + page_size x.
Definition frame_offset (x : Wal) (frame : FrameNo) : nat :=
  WalHeader.kEncodedBytes + (frame - 1) * frame_bytes x.

Definition publish (frames : list (PageNo * FrameNo)) (commit : WalCommit) (x : Wal) : Wal :=
  mkWal (wal_path x) (page_size x) (wal_open x) (header x) (next_frame x) (c_frame commit) (chain x)
    (wal_failed x) (read_only x)
    (fold_left (fun ix '(page, fr) => <[page := default [] (ix !! page) ++ [fr]]> ix) frames (index x))
    (<[c_frame commit := c_db_size commit]> (commits x))
    (commit_list x ++ [commit])
    (frame_pages x ++ map fst frames).

Definition write_header : WM unit :=
  let! x := getO in
  let buf := WalHeader.encode (header x) (replicate WalHeader.kEncodedBytes 0) in
  do! onw (file_write (wal_path x) 0 buf) in
  onw (file_sync (wal_path x)).

Definition with_salts (s1 s2 : Z) (h : WalHeader.t) : WalHeader.t :=
  WalHeader.mk (WalHeader.page_size h) s1 s2 (WalHeader.db_id h) (WalHeader.base_change_counter h).
Definition with_base (b : Z) (h : WalHeader.t) : WalHeader.t :=
  WalHeader.mk (WalHeader.page_size h) (WalHeader.salt1 h) (WalHeader.salt2 h) (WalHeader.db_id h) b.

Definition fresh_salts : WM unit :=
  let! s1 := onw random_salt in
  let! s2 := onw random_salt in
  modO (fun x => set_header x (with_salts s1 s2 (header x))).

(** The frame loop of [recover]: [frame], [running], the frames of the
    transaction being read and the end of the last complete one.  A frame
    takes at least 32 bytes, so the file size bounds the iterations. *)
Fixpoint recover_frames (fuel size : nat) (frame : FrameNo) (running : Z)
    (pending : list (PageNo * FrameNo)) (valid_end : nat) : WM nat :=
  match fuel with
  | O => lift (corrupt "recover out of fuel")
  | S fuel =>
      let! x := getO in
      if (size <? frame_offset x frame + frame_bytes x)%nat then ret valid_end
      else
        let! buf := onw (file_read (wal_path x) (frame_offset x frame) (frame_bytes x)) in
        if negb (length buf =? frame_bytes x)%nat then ret valid_end
        else
          let page := sub WalFrameHeader.kEncodedBytes (page_size x) buf in
          match WalFrameHeader.decode (take WalFrameHeader.kEncodedBytes buf) page running with
          | Err _ => ret valid_end
          | Ret fh =>
              if negb (WalFrameHeader.salt1 fh =? WalHeader.salt1 (header x))
                 || negb (WalFrameHeader.salt2 fh =? WalHeader.salt2 (header x)) then ret valid_end
              else if negb (page_checksum_ok page) then ret valid_end
              else
                let running := WalFrameHeader.checksum fh in
                let pending := pending ++ [(WalFrameHeader.page_no fh, frame)] in
                if negb (WalFrameHeader.db_size_after_commit fh =? 0) then
                  if negb (WalFrameHeader.page_no fh =? 0) then ret valid_end
                  else match DbHeader.decode page with
                       | Err _ => ret valid_end
                       | Ret hdr =>
                           let c := mkCommit frame (WalFrameHeader.db_size_after_commit fh)
                                      (DbHeader.change_counter hdr) (DbHeader.commit_time_us hdr) in
                           do! modO (fun x => set_chain (publish pending c x) running) in
                           recover_frames fuel size (S frame) running [] (frame_offset x frame + frame_bytes x)
                       end
                else recover_frames fuel size (S frame) running pending valid_end
          end
  end.

Definition recover (options : WalOpenOptions) : WM WalRecoveryInfo :=
  let! x := getO in
  let path := wal_path x in
  let! size := onw (file_size path) in
  let! hbuf := onw (file_read path 0 WalHeader.kEncodedBytes) in
  let header_ok :=
    if (length hbuf =? WalHeader.kEncodedBytes)%nat then
      match WalHeader.decode hbuf with
      | Ret h => if (WalHeader.page_size h =? Z.of_nat (page_size x))
                    && bool_decide (WalHeader.db_id h = o_db_id options)
                 then Some h else None
      | Err _ => None
      end
    else None in
  match header_ok with
  | None =>
      if read_only x then
        lift (corrupt ("log header invalid or for another database: " +:+ path))
      else
        do! fresh_salts in
        do! onw (file_truncate path 0) in
        do! write_header in
        do! modO (fun x => set_chain (set_next x 1) (WalHeader.chain_seed (header x))) in
        ret (mkInfo 0 size true)
  | Some h =>
      do! modO (fun x => set_chain (set_header x h) (WalHeader.chain_seed h)) in
      let! valid_end := recover_frames (S size) size 1 (WalHeader.chain_seed h) [] WalHeader.kEncodedBytes in
      do! modO (fun x => set_next x (S (last_commit x))) in
      let! x := getO in
      if read_only x then
        ret (mkInfo (last_commit x) (size - valid_end) false)
      else
        let! dropped :=
          (if (valid_end <? size)%nat then
             do! onw (file_truncate path valid_end) in
             do! onw (file_sync path) in
             ret (size - valid_end)%nat
           else ret 0%nat) in
        do! (if (dropped =? 0)%nat then onw (file_sync path) else ret tt) in
        do! onw (vfs_sync_directory (directory_of path)) in
        ret (mkInfo (last_commit x) dropped false)
  end.

Definition fresh_wal (path : string) (psize : nat) (options : WalOpenOptions) : Wal :=
  mkWal path psize false (WalHeader.mk (Z.of_nat psize) 0 0 (o_db_id options) (new_base_change_counter options))
    1 0 0 false (o_read_only options) ∅ ∅ [] [].

Definition open_wal_body (options : WalOpenOptions) : WM WalRecoveryInfo :=
  let! x := getO in
  let! exists_ := onw (vfs_exists (wal_path x)) in
  if o_read_only options && negb exists_ then lift (not_found (wal_path x))
  else
    do! onw (vfs_open (wal_path x) (mkOpenFlags (negb (o_read_only options)) (negb (o_read_only options)) false false)) in
    do! modO (fun x => set_wal_open x true) in
    if negb exists_ then
      do! fresh_salts in
      do! write_header in
      do! onw (vfs_sync_directory (directory_of (wal_path x))) in
      do! modO (fun x => set_chain x (WalHeader.chain_seed (header x))) in
      ret (mkInfo 0 0 false)
    else recover options.
Definition open_wal (path : string) (psize : nat) (options : WalOpenOptions) : M World (Wal * WalRecoveryInfo) :=
  fun w => match open_wal_body options (fresh_wal path psize options, w) with
           | (Ret info, (x, w')) => (Ret (x, info), w')
           | (Err e, (_, w')) => (Err e, w')
           end.

Definition committed_bytes (x : Wal) : nat := frame_offset x (S (last_commit x)).

(** The copy loop of [copy_committed_to], 64 KiB at a time. *)
Definition kCopyChunk : nat := Z.to_nat 65536.
Fixpoint copy_chunks (fuel : nat) (path : string) (total off : nat) : WM unit :=
  match fuel with
  | O => lift (corrupt "copy out of fuel")
  | S fuel =>
      let! x := getO in
      if (off <? total)%nat then
        let want := Nat.min kCopyChunk (total - off) in
        let! buf := onw (file_read (wal_path x) off want) in
        if negb (length buf =? want)%nat then
          lift (corrupt ("short read while archiving the log: " +:+ wal_path x))
        else
          do! onw (file_write path off buf) in
          copy_chunks fuel path total (off + length buf)
      else ret tt
  end.
Definition copy_committed_to (path : string) : WM unit :=
  let! x := getO in
  if negb (wal_open x) then lift (io "WAL closed")
  else
    do! onw (vfs_open path (mkOpenFlags true true false true)) in
    let total := committed_bytes x in
    do! copy_chunks (S total) path total 0 in
    do! onw (file_sync path) in
    onw (vfs_sync_directory (directory_of path)).

Definition db_size_at (x : Wal) (commit_frame : FrameNo) : Z := default 0 (commits x !! commit_frame).

(** [std::upper_bound] on an ascending range: the position of the first
    element greater than the value. *)
Fixpoint upper_bound (frames : list FrameNo) (v : FrameNo) : nat :=
  match frames with
  | [] => 0
  | f :: frames => if (v <? f)%nat then 0 else S (upper_bound frames v)
  end.
Definition find (x : Wal) (page : PageNo) (snapshot : FrameNo) : FrameNo :=
  match index x !! page with
  | None => 0%nat
  | Some frames =>
      match upper_bound frames snapshot with
      | O => 0%nat
      | S p => nth p frames 0%nat
      end
  end.

Definition read_frame_page (frame : FrameNo) : WM Bytes :=
  let! x := getO in
  if (frame =? 0)%nat || (next_frame x <=? frame)%nat then lift (invalid_argument "bad WAL frame read")
  else
    let off := (frame_offset x frame + WalFrameHeader.kEncodedBytes)%nat in
    let! out := onw (file_read (wal_path x) off (page_size x)) in
    if negb (length out =? page_size x)%nat then lift (corrupt "short WAL frame read")
    else if negb (page_checksum_ok out) then lift (corrupt "WAL frame page checksum mismatch")
    else ret out.

Definition discard_uncommitted : WM unit :=
  let! x := getO in
  if negb (wal_open x) then lift (io "WAL closed")
  else
    do! onw (file_truncate (wal_path x) (frame_offset x (next_frame x))) in
    onw (file_sync (wal_path x)).

(** The frame-building loop of [append_transaction]: the buffer, the frames
    and the running checksum, or the error of a wrongly sized image. *)
Record PageImage := mkImage { im_page : PageNo; im_data : Bytes }.
Fixpoint build_frames (x : Wal) (images : list PageImage) (frame : FrameNo) (running : Z)
    (db_size_after : Z) : Result (Bytes * list (PageNo * FrameNo) * Z) :=
  match images with
  | [] => Ret ([], [], running)
  | im :: rest =>
      if negb (length (im_data im) =? page_size x)%nat then invalid_argument "page image size"
      else
        let fh := WalFrameHeader.mk (im_page im)
                    (match rest with [] => db_size_after | _ => 0 end)
                    (WalHeader.salt1 (header x)) (WalHeader.salt2 (header x)) 0 in
        let '(hb, fh) := WalFrameHeader.encode fh (replicate WalFrameHeader.kEncodedBytes 0) (im_data im) running in
        let? (buf, frames, running') := build_frames x rest (S frame) (WalFrameHeader.checksum fh) db_size_after in
        Ret (hb ++ im_data im ++ buf, (im_page im, frame) :: frames, running')
  end.

Definition append_transaction (images : list PageImage) (db_size_after : Z) : WM unit :=
  let! x := getO in
  if (length images =? 0)%nat then lift (invalid_argument "empty transaction")
  else if read_only x then lift (invalid_argument ("log opened read-only: " +:+ wal_path x))
  else if wal_failed x then
    lift (io ("WAL failed after an earlier I/O error; reopen the database: " +:+ wal_path x))
  else
    let! (buf, frames, running) := lift (build_frames x images (next_frame x) (chain x) db_size_after) in
    let! s := attempt (onw (file_write (wal_path x) (frame_offset x (next_frame x)) buf)) in
    let! s := (match s with Ret _ => attempt (onw (file_sync (wal_path x))) | Err e => ret (Err e) end) in
    match s with
    | Err e =>
        let! d := attempt discard_uncommitted in
        do! modO (fun x => set_wal_failed x true) in
        lift (match d with
              | Err de => if decide (code de = Crashed) then Err de else Err e
              | Ret _ => Err e
              end)
    | Ret _ =>
        let commit_frame := (next_frame x + length images - 1)%nat in
        let '(cc, ct) := match DbHeader.decode (default [] (im_data <$> last images)) with
                         | Ret hdr => (DbHeader.change_counter hdr, DbHeader.commit_time_us hdr)
                         | Err _ => (0, 0)
                         end in
        let c := mkCommit commit_frame db_size_after cc ct in
        modO (fun x => set_chain (set_next (publish frames c x) (S commit_frame)) running)
    end.

(** The map is built page by page; [std::map] keeps it in page order. *)
Definition latest_frames (x : Wal) (up_to : FrameNo) : gmap PageNo FrameNo :=
  omap (fun f => if (f =? 0)%nat then None else Some f)
       (map_imap (fun page _ => Some (find x page up_to)) (index x)).

Definition reset (base_change_counter : Z) : WM unit :=
  let! x := getO in
  if read_only x then lift (invalid_argument ("log opened read-only: " +:+ wal_path x))
  else if wal_failed x then
    lift (io ("WAL failed after an earlier I/O error; reopen the database: " +:+ wal_path x))
  else
    do! fresh_salts in
    do! modO (fun x => set_header x (with_base base_change_counter (header x))) in
    let! s := attempt (onw (file_truncate (wal_path x) 0)) in
    match s with
    | Err e => do! modO (fun x => set_wal_failed x true) in lift (Err e)
    | Ret _ =>
        do! modO (fun x => mkWal (wal_path x) (page_size x) (wal_open x) (header x) 1 0
                             (WalHeader.chain_seed (header x)) (wal_failed x) (read_only x) ∅ ∅ [] []) in
        let! s := attempt write_header in
        match s with
        | Err e => do! modO (fun x => set_wal_failed x true) in lift (Err e)
        | Ret _ => ret tt
        end
    end.

Definition close_wal : WM unit := modO (fun x => set_wal_open x false).

(** * The log as a value

    A transaction is its page images and the page count after it.  A log is
    a list of transactions; its bytes are determined by the header. *)

Record Tx := mkTx { tx_images : list PageImage; tx_size : Z }.

Definition frame_of (h : WalHeader.t) (im : PageImage) (dbs : Z) : WalFrameHeader.t :=
  WalFrameHeader.mk (im_page im) dbs (WalHeader.salt1 h) (WalHeader.salt2 h) 0.

Fixpoint tx_encode (h : WalHeader.t) (images : list PageImage) (dbs running : Z) : Bytes * Z :=
  match images with
  | [] => ([], running)
  | im :: rest =>
      let fh := frame_of h im (match rest with [] => dbs | _ => 0 end) in
      let '(b, r) := tx_encode h rest dbs (frame_checksum fh (im_data im) running) in
      ((frame_header_bytes fh (im_data im) running ++ im_data im) ++ b, r)
  end.

Fixpoint log_encode (h : WalHeader.t) (txs : list Tx) (running : Z) : Bytes * Z :=
  match txs with
  | [] => ([], running)
  | tx :: txs =>
      let '(b, r) := tx_encode h (tx_images tx) (tx_size tx) running in
      let '(b', r') := log_encode h txs r in (b ++ b', r')
  end.

(** The frame numbers of a transaction's images. *)
Fixpoint number (images : list PageImage) (frame : FrameNo) : list (PageNo * FrameNo) :=
  match images with
  | [] => []
  | im :: rest => (im_page im, frame) :: number rest (S frame)
  end.

(** What the page-0 image of a transaction says of its commit. *)
Definition commit_of (tx : Tx) (frame : FrameNo) : WalCommit :=
  match DbHeader.decode (default [] (im_data <$> last (tx_images tx))) with
  | Ret hdr => mkCommit frame (tx_size tx) (DbHeader.change_counter hdr) (DbHeader.commit_time_us hdr)
  | Err _ => mkCommit frame (tx_size tx) 0 0
  end.

(** The effect of a committed transaction on the object. *)
Definition apply_tx (x : Wal) (tx : Tx) : Wal :=
  let commit_frame := (next_frame x + length (tx_images tx) - 1)%nat in
  set_chain (set_next (publish (number (tx_images tx) (next_frame x)) (commit_of tx commit_frame) x)
                      (S commit_frame))
            (snd (tx_encode (header x) (tx_images tx) (tx_size tx) (chain x))).

Section log.
Context (psz : nat) (dbid : Bytes).

(** The images a write transaction produces: sealed pages of the database's
    size, the header page last. *)
Definition image_ok (im : PageImage) : Prop :=
  u64_ok (im_page im) /\ length (im_data im) = psz /\ bytes_ok (im_data im)
  /\ page_checksum_ok (im_data im) = true.

Definition tx_ok (tx : Tx) : Prop :=
  Forall image_ok (tx_images tx) /\ u64_ok (tx_size tx) /\ tx_size tx <> 0
  /\ exists im hdr, last (tx_images tx) = Some im /\ im_page im = 0
     /\ DbHeader.decode (im_data im) = Ret hdr.

Definition header_ok (h : WalHeader.t) : Prop :=
  WalHeader.wf h /\ WalHeader.page_size h = Z.of_nat psz /\ WalHeader.db_id h = dbid.

Definition header_bytes (h : WalHeader.t) : Bytes := WalHeader.encode h (replicate 48 0).

Lemma length_header_bytes h : length (header_bytes h) = 48%nat.
Proof. unfold header_bytes. by rewrite length_WalHeader_encode. Qed.

Lemma length_tx_encode h images dbs running :
  Forall image_ok images ->
  length (fst (tx_encode h images dbs running)) = (length images * (32 + psz))%nat.
Proof.
  intros H. revert running. induction H as [|im rest (_ & Hl & _) Hrest IH]; intros running; [done|].
  cbn [tx_encode]. specialize (IH (frame_checksum (frame_of h im match rest with [] => dbs | _ => 0 end)
    (im_data im) running)).
  destruct (tx_encode h rest dbs _) as [b r]. cbn [fst] in *.
  rewrite !length_app, length_frame_header_bytes, Hl, IH. cbn [length]. lia.
Qed.

Lemma log_encode_app h a b running :
  log_encode h (a ++ b) running
  = (fst (log_encode h a running) ++ fst (log_encode h b (snd (log_encode h a running))),
     snd (log_encode h b (snd (log_encode h a running)))).
Proof.
  revert running. induction a as [|tx a IH]; intros running.
  { cbn. by destruct (log_encode h b running). }
  cbn [app log_encode]. destruct (tx_encode h _ _ running) as [b1 r1]. rewrite IH.
  destruct (log_encode h a r1) as [b2 r2]. cbn [fst snd].
  destruct (log_encode h b r2) as [b3 r3]. cbn [fst snd]. by rewrite app_assoc.
Qed.

Lemma log_encode_snoc h txs tx running :
  let r := snd (log_encode h txs running) in
  log_encode h (txs ++ [tx]) running
  = (fst (log_encode h txs running) ++ fst (tx_encode h (tx_images tx) (tx_size tx) r),
     snd (tx_encode h (tx_images tx) (tx_size tx) r)).
Proof.
  cbv zeta. rewrite log_encode_app. cbn [log_encode].
  destruct (tx_encode h (tx_images tx) (tx_size tx) _) as [b r]. cbn [fst snd]. by rewrite app_nil_r.
Qed.

Definition total_images (txs : list Tx) : list PageImage := concat (map tx_images txs).

Lemma length_log_encode h txs running :
  Forall tx_ok txs ->
  length (fst (log_encode h txs running)) = (length (total_images txs) * (32 + psz))%nat.
Proof.
  intros H. revert running. induction H as [|tx txs [Him _] Htxs IH]; intros running; [done|].
  cbn [log_encode]. pose proof (length_tx_encode h (tx_images tx) (tx_size tx) running Him) as Hl.
  destruct (tx_encode _ _ _ running) as [b r]. specialize (IH r). destruct (log_encode h txs r) as [b' r'].
  cbn [fst] in *. unfold total_images in *. cbn [map concat]. rewrite !length_app, Hl, IH. lia.
Qed.

(** ** Building frames *)

Lemma build_frames_spec x images frame running dbs :
  page_size x = psz -> Forall image_ok images ->
  build_frames x images frame running dbs
  = Ret (fst (tx_encode (header x) images dbs running), number images frame,
         snd (tx_encode (header x) images dbs running)).
Proof.
  intros Hps H. revert frame running.
  induction H as [|im rest (_ & Hl & _) Hrest IH]; intros frame running; [done|].
  cbn [build_frames tx_encode number]. rewrite Hps, Hl, Nat.eqb_refl. cbn [negb].
  rewrite frame_encode_bytes by done.
  cbn [WalFrameHeader.checksum WalFrameHeader.page_no WalFrameHeader.db_size_after_commit
       WalFrameHeader.salt1 WalFrameHeader.salt2].
  rewrite IH. change (drop 32 (replicate WalFrameHeader.kEncodedBytes 0)) with (@nil Z).
  rewrite app_nil_r. unfold frame_of. destruct (tx_encode (header x) rest dbs _) as [b r].
  cbn [fst snd rbind]. by rewrite app_assoc.
Qed.

(** ** The frame loop *)

Definition off (f : FrameNo) : nat := 48 + (f - 1) * (32 + psz).

Section loop.
Context (D : option Bytes -> Prop) (path : string) (R : World -> Prop) (content : Bytes) (h : WalHeader.t).
Context (Hfr : framed R).
Context (HR : forall w, R w -> is_crashed w = false /\ cache w !! path = Some content /\ disk_safe D path w).
Let E : Wal -> World -> Prop := fun _ w => disk_safe D path w.

Definition this_log (x : Wal) : Prop := wal_path x = path /\ page_size x = psz /\ header x = h.

Lemma rf_frame x0 fuel f running pend ve im dbs rest Q :
  this_log x0 -> WalHeader.wf h -> image_ok im -> u64_ok dbs ->
  drop (off f) content
  = (frame_header_bytes (frame_of h im dbs) (im_data im) running ++ im_data im) ++ rest ->
  triple (fun x w => x = x0 /\ R w)
    (let running' := frame_checksum (frame_of h im dbs) (im_data im) running in
     let pend' := pend ++ [(im_page im, f)] in
     if negb (dbs =? 0) then
       if negb (im_page im =? 0) then ret ve
       else match DbHeader.decode (im_data im) with
            | Err _ => ret ve
            | Ret hdr =>
                do! modO (fun x => set_chain (publish pend' (mkCommit f dbs
                       (DbHeader.change_counter hdr) (DbHeader.commit_time_us hdr)) x) running') in
                recover_frames fuel (length content) (S f) running' [] (off f + (32 + psz))
            end
     else recover_frames fuel (length content) (S f) running' pend' ve) Q E ->
  triple (fun x w => x = x0 /\ R w) (recover_frames (S fuel) (length content) f running pend ve) Q E.
Proof.
  intros (Hp & Hps & Hh) Hwf (Hno & Hl & Hb & Hck) Hdbs Hd Hk. cbn [recover_frames]. apply triple_get_bind.
  unfold frame_offset, frame_bytes, WalFrameHeader.kEncodedBytes, WalHeader.kEncodedBytes.
  rewrite Hp, Hps, Hh. fold (off f).
  assert (Hlen : (off f + (32 + psz) <= length content)%nat).
  { apply (f_equal length) in Hd. rewrite length_drop, !length_app, length_frame_header_bytes, Hl in Hd. lia. }
  destruct (Nat.ltb_spec (length content) (off f + (32 + psz))); [lia|].
  eapply triple_bind_eq.
  { apply (triple_read D path (fun x => x = x0) E); [done | exact Hfr | exact HR]. }
  set (fh := frame_of h im dbs) in *. set (hb := frame_header_bytes fh (im_data im) running) in *.
  assert (Hbuf : sub (off f) (32 + psz) content = hb ++ im_data im).
  { unfold sub. rewrite Hd. apply take_app_length'. rewrite length_app, Hl.
    unfold hb. by rewrite length_frame_header_bytes. }
  assert (Hhb : length hb = 32%nat) by apply length_frame_header_bytes.
  rewrite Hbuf, length_app, Hhb, Hl, Nat.eqb_refl. cbn [negb]. cbv zeta.
  assert (Hpage : sub 32 psz (hb ++ im_data im) = im_data im).
  { rewrite sub_app_r, Hhb, Nat.sub_diag, sub_all by lia. done. }
  rewrite Hpage, take_app_length' by done.
  assert (Hfh : WalFrameHeader.wf fh) by (destruct Hwf as (_ & ? & ? & _); by split_and!).
  pose proof (frame_decode_bytes fh (im_data im) running [] Hfh Hb) as Hdec.
  rewrite app_nil_r in Hdec. fold hb in Hdec. rewrite Hdec.
  cbn [WalFrameHeader.salt1 WalFrameHeader.salt2 WalFrameHeader.checksum WalFrameHeader.page_no
       WalFrameHeader.db_size_after_commit fh frame_of].
  rewrite !Z.eqb_refl, Hck. cbn [negb orb]. exact Hk.
Qed.

Lemma rf_short x0 fuel f running pend ve :
  this_log x0 -> (0 < fuel)%nat -> (length content < off f + (32 + psz))%nat ->
  triple (fun x w => x = x0 /\ R w) (recover_frames fuel (length content) f running pend ve)
         (fun ve' x w => ve' = ve /\ x = x0 /\ R w) E.
Proof.
  intros (Hp & Hps & Hh) Hf Hl. destruct fuel as [|fuel]; [lia|]. cbn [recover_frames].
  apply triple_get_bind. unfold frame_offset, frame_bytes, WalFrameHeader.kEncodedBytes, WalHeader.kEncodedBytes.
  rewrite Hps. fold (off f).
  destruct (Nat.ltb_spec (length content) (off f + (32 + psz))); [|lia]. apply triple_ret. auto.
Qed.

(** A torn transaction leaves the object and the end of the log alone. *)
Lemma rf_torn images x0 fuel f running pend ve dbs n :
  this_log x0 -> WalHeader.wf h -> Forall image_ok images -> u64_ok dbs -> dbs <> 0 ->
  (length content < off f + fuel * (32 + psz))%nat -> (0 < f)%nat -> (off f <= length content)%nat ->
  (n < length (fst (tx_encode h images dbs running)) \/ images = [] /\ n = 0)%nat ->
  drop (off f) content = take n (fst (tx_encode h images dbs running)) ->
  triple (fun x w => x = x0 /\ R w) (recover_frames fuel (length content) f running pend ve)
         (fun ve' x w => ve' = ve /\ x = x0 /\ R w) E.
Proof.
  intros Hx Hwf Him Hdbs Hnz. revert fuel f running pend n.
  induction Him as [|im rest Hi Hrest IH]; intros fuel f running pend n Hf Hf0 Hoff Hn Hd.
  - apply rf_short; [done|lia|]. cbn [tx_encode fst] in Hd. rewrite take_nil in Hd.
    apply (f_equal length) in Hd. rewrite length_drop in Hd. cbn [length] in Hd. lia.
  - cbn [tx_encode] in Hd, Hn. set (fh := frame_of h im _) in *.
    pose proof (length_tx_encode h rest dbs (frame_checksum fh (im_data im) running) Hrest) as Hlr.
    destruct (tx_encode h rest dbs (frame_checksum fh (im_data im) running)) as [b r] eqn:Eb.
    cbn [fst] in *. pose proof Hi as (_ & Hl & _).
    assert (Hlf : length (frame_header_bytes fh (im_data im) running ++ im_data im) = (32 + psz)%nat)
      by (rewrite length_app, length_frame_header_bytes; lia).
    destruct Hn as [Hn|[? _]]; [|done]. rewrite length_app, Hlf in Hn.
    destruct (decide (n < 32 + psz)%nat) as [Hlt|Hge].
    + apply rf_short; [done|lia|]. apply (f_equal length) in Hd.
      rewrite length_drop, length_take, length_app, Hlf in Hd. lia.
    + rewrite take_app, Hlf in Hd. rewrite take_ge in Hd by lia.
      destruct fuel as [|fuel]; [lia|]. destruct rest as [|im2 rest]; [cbn in Eb; simplify_eq; cbn in Hn; lia|].
      eapply rf_frame; [done|done|done| |exact Hd|]; [unfold u64_ok; lia|]. cbn [Z.eqb negb].
      apply (IH fuel (S f) (frame_checksum fh (im_data im) running) _ (n - (32 + psz))%nat).
      * unfold off in *. nia.
      * lia.
      * apply (f_equal length) in Hd. rewrite length_drop, length_app, Hlf in Hd. unfold off in *. nia.
      * left. rewrite Eb. cbn [fst]. lia.
      * rewrite Eb. cbn [fst]. replace (off (S f)) with (off f + (32 + psz))%nat by (unfold off; nia).
        rewrite <- drop_drop, Hd. by rewrite drop_app_length'.
Qed.

(** A complete transaction is published as one. *)
Lemma rf_tx images x0 fuel f running pend ve dbs im hdr rest Q :
  this_log x0 -> WalHeader.wf h -> Forall image_ok images -> u64_ok dbs -> dbs <> 0 -> (0 < f)%nat ->
  last images = Some im -> im_page im = 0 -> DbHeader.decode (im_data im) = Ret hdr ->
  drop (off f) content = fst (tx_encode h images dbs running) ++ rest ->
  triple (fun x w => x = set_chain (publish (pend ++ number images f)
                       (mkCommit (f + length images - 1) dbs (DbHeader.change_counter hdr)
                          (DbHeader.commit_time_us hdr)) x0) (snd (tx_encode h images dbs running)) /\ R w)
         (recover_frames fuel (length content) (f + length images) (snd (tx_encode h images dbs running)) []
            (off (f + length images))) Q E ->
  triple (fun x w => x = x0 /\ R w)
         (recover_frames (length images + fuel) (length content) f running pend ve) Q E.
Proof.
  intros Hx Hwf Him Hdbs Hnz Hf0 Hlast Hp0 Hdec. revert f running pend Hf0.
  induction Him as [|i0 images Hi0 Him IH]; intros f running pend Hf0 Hd Hk; [done|].
  cbn [tx_encode] in Hd, Hk. set (fh := frame_of h i0 _) in *.
  destruct (tx_encode h images dbs (frame_checksum fh (im_data i0) running)) as [b r] eqn:Eb.
  cbn [fst snd] in Hd, Hk. rewrite <- app_assoc in Hd.
  assert (Hoff : off (S f) = (off f + (32 + psz))%nat) by (unfold off; nia).
  assert (Hlf : length (frame_header_bytes fh (im_data i0) running ++ im_data i0) = (32 + psz)%nat).
  { rewrite length_app, length_frame_header_bytes. by destruct Hi0 as (_ & -> & _). }
  cbn [length Nat.add].
  destruct images as [|i1 images].
  - cbn in Eb. simplify_eq. cbn [last] in Hlast. simplify_eq. cbn [number length] in Hk.
    eapply (rf_frame x0 _ f running pend ve im dbs rest); [done..| |].
    { by rewrite app_nil_l in Hd. }
    cbv zeta. destruct (Z.eqb_spec dbs 0); [done|]. rewrite Hp0, Hdec. cbn [Z.eqb negb].
    replace (f + 1)%nat with (S f) in Hk by lia. replace (S f - 1)%nat with f in Hk by lia.
    rewrite <- Hoff.
    rewrite Hp0 in Hk.
    match type of Hk with triple ?P _ _ _ =>
      eapply (triple_bind _ _ (fun _ => P)); [|intros []; exact Hk] end.
    apply triple_modO. by intros x w [-> HRw].
  - eapply (rf_frame x0 _ f running pend ve i0 0); [done|done|done|unfold u64_ok; lia|exact Hd|].
    cbn [Z.eqb negb]. apply IH; [done|lia| |].
    + rewrite Hoff, <- drop_drop, Hd, drop_app_length' by done.
      change (frame_checksum (frame_of h i0 0)) with (frame_checksum fh). by rewrite Eb.
    + change (frame_checksum (frame_of h i0 0)) with (frame_checksum fh). rewrite Eb. cbn [snd].
      cbn [number] in Hk |- *. rewrite <- app_assoc. cbn [app].
      replace (S f + length (i1 :: images))%nat with (f + length (i0 :: i1 :: images))%nat by (cbn; lia).
      exact Hk.
Qed.

Lemma commit_of_eq tx frame im hdr :
  last (tx_images tx) = Some im -> DbHeader.decode (im_data im) = Ret hdr ->
  commit_of tx frame
  = mkCommit frame (tx_size tx) (DbHeader.change_counter hdr) (DbHeader.commit_time_us hdr).
Proof.
  intros Hl Hd. unfold commit_of. rewrite Hl.
  change (default [] (im_data <$> Some im)) with (im_data im). by rewrite Hd.
Qed.

Lemma apply_tx_loop x tx im hdr :
  last (tx_images tx) = Some im -> DbHeader.decode (im_data im) = Ret hdr ->
  set_chain (publish ([] ++ number (tx_images tx) (next_frame x))
               (mkCommit (next_frame x + length (tx_images tx) - 1) (tx_size tx)
                  (DbHeader.change_counter hdr) (DbHeader.commit_time_us hdr)) (set_next x 1))
            (snd (tx_encode (header x) (tx_images tx) (tx_size tx) (chain x)))
  = set_next (apply_tx x tx) 1.
Proof.
  intros Hl Hd. unfold apply_tx. by rewrite (commit_of_eq _ _ im hdr).
Qed.

Lemma apply_tx_facts x tx :
  tx_ok tx -> this_log x -> (0 < next_frame x)%nat ->
  this_log (apply_tx x tx) /\ next_frame (apply_tx x tx) = (next_frame x + length (tx_images tx))%nat
  /\ next_frame (apply_tx x tx) = S (last_commit (apply_tx x tx))
  /\ chain (apply_tx x tx) = snd (tx_encode h (tx_images tx) (tx_size tx) (chain x)).
Proof.
  intros (_ & _ & _ & im & hdr & Hl & _ & Hd) (? & ? & Hh) Hn.
  assert (length (tx_images tx) <> 0)%nat by (by destruct (tx_images tx)).
  unfold apply_tx. rewrite (commit_of_eq _ _ im hdr), Hh by done.
  unfold this_log. cbn. split_and!; try done. lia.
Qed.

Lemma rf_log txs x fuel rest Q :
  Forall tx_ok txs -> this_log x -> WalHeader.wf h -> (0 < next_frame x)%nat ->
  drop (off (next_frame x)) content = fst (log_encode h txs (chain x)) ++ rest ->
  triple (fun y w => y = set_next (fold_left apply_tx txs x) 1 /\ R w)
         (recover_frames fuel (length content) (next_frame (fold_left apply_tx txs x))
            (chain (fold_left apply_tx txs x)) [] (off (next_frame (fold_left apply_tx txs x)))) Q E ->
  triple (fun y w => y = set_next x 1 /\ R w)
         (recover_frames (length (total_images txs) + fuel) (length content) (next_frame x) (chain x) []
            (off (next_frame x))) Q E.
Proof.
  intros Htxs. revert x. induction Htxs as [|tx txs Htx Htxs IH]; intros x Hx Hwf Hn Hd Hk; [done|].
  cbn [log_encode] in Hd. cbn [fold_left] in Hk.
  destruct (apply_tx_facts x tx Htx Hx Hn) as (Hx' & Hn' & _ & Hc').
  pose proof Htx as (Him & Hs & Hs0 & im & hdr & Hl & Hp0 & Hdec).
  pose proof (length_tx_encode h (tx_images tx) (tx_size tx) (chain x) Him) as Hlen.
  destruct (tx_encode h (tx_images tx) (tx_size tx) (chain x)) as [b r] eqn:Eb.
  destruct (log_encode h txs r) as [b' r'] eqn:Eb'. cbn [fst snd] in *. rewrite <- app_assoc in Hd.
  unfold total_images. cbn [map concat]. rewrite length_app, <- Nat.add_assoc.
  eapply (rf_tx (tx_images tx) (set_next x 1)); eauto.
  { by rewrite Eb. }
  pose proof (apply_tx_loop x tx im hdr Hl Hdec) as Hal. rewrite (proj2 (proj2 Hx)) in Hal.
  rewrite Hal, Eb. cbn [snd]. rewrite <- Hn', <- Hc'. apply IH; [done|done|lia| |exact Hk].
  rewrite Hn', Hc', Eb'. cbn [fst].
  replace (off (next_frame x + length (tx_images tx)))
    with (off (next_frame x) + length b)%nat by (rewrite Hlen; unfold off; nia).
  by rewrite <- drop_drop, Hd, drop_app_length.
Qed.

End loop.

(** ** What the disk may hold *)

Definition log_chain (h : WalHeader.t) (txs : list Tx) : Z := snd (log_encode h txs (WalHeader.chain_seed h)).
Definition log_file (h : WalHeader.t) (txs : list Tx) : Bytes :=
  header_bytes h ++ fst (log_encode h txs (WalHeader.chain_seed h)).

(** The tail that a torn append leaves: a proper prefix of the frames of one
    transaction, chained to the log. *)
Definition torn_tx (h : WalHeader.t) (txs : list Tx) (tail : Bytes) : Prop :=
  tail = [] \/ exists tx n, tx_ok tx
    /\ (n < length (fst (tx_encode h (tx_images tx) (tx_size tx) (log_chain h txs))))%nat
    /\ tail = take n (fst (tx_encode h (tx_images tx) (tx_size tx) (log_chain h txs))).

(** Before its header has been synced a log is missing or at most a header
    long, whatever the bytes. *)
Definition unborn (c : option Bytes) : Prop :=
  c = None \/ exists b, c = Some b /\ (length b <= 48)%nat /\ bytes_ok b.
Definition log_image (txs : list Tx) (c : option Bytes) : Prop :=
  Forall tx_ok txs /\
  (txs = [] /\ unborn c
   \/ exists h tail, header_ok h /\ c = Some (log_file h txs ++ tail) /\ torn_tx h txs tail).

(** One log: the header is on the disk. *)
Definition this_image (h : WalHeader.t) (txs : list Tx) (c : option Bytes) : Prop :=
  exists tail, c = Some (log_file h txs ++ tail) /\ torn_tx h txs tail.

Lemma this_image_log h txs c : Forall tx_ok txs -> header_ok h -> this_image h txs c -> log_image txs c.
Proof. intros ?? (tail & ? & ?). split; [done|]. right. eauto. Qed.

Lemma unborn_log c : unborn c -> log_image [] c.
Proof. intros H. split; [constructor|]. by left. Qed.

Lemma length_log_file h txs :
  Forall tx_ok txs -> length (log_file h txs) = off (S (length (total_images txs))).
Proof.
  intros H. unfold log_file. rewrite length_app, length_header_bytes, length_log_encode by done.
  unfold off. cbn [Nat.sub]. by rewrite Nat.sub_0_r.
Qed.

Lemma this_image_truncate h txs : closed_truncate (this_image h txs) (length (log_file h txs)).
Proof.
  intros c (tail & -> & Ht). exists []. split; [|by left]. cbn [fmap option_fmap option_map].
  by rewrite file_resize_app_l, app_nil_r.
Qed.

Lemma unborn_truncate : closed_truncate unborn 0.
Proof.
  intros c [->|(b & -> & Hb & Hok)]; [by left|]. right. eexists. split; [done|].
  rewrite length_file_resize. split; [lia | by apply bytes_ok_file_resize].
Qed.

Lemma bytes_ok_header_bytes h : WalHeader.wf h -> bytes_ok (header_bytes h).
Proof. intros. apply bytes_ok_WalHeader_encode; [done|]. by apply bytes_ok_replicate. Qed.

Lemma unborn_write h : WalHeader.wf h -> closed_write unborn 0 (header_bytes h).
Proof.
  intros Hwf n c [->|(b & -> & Hb & Hok)]; [by left|]. right. eexists. split; [done|].
  rewrite length_write_bytes, length_take, length_header_bytes. split; [lia|].
  apply bytes_ok_write_bytes; [by apply bytes_ok_take, bytes_ok_header_bytes | done].
Qed.

Lemma unborn_create c : unborn c -> unborn (Some (default [] c)).
Proof.
  intros [->|(b & -> & Hb & Hok)]; right; eexists; (split; [done|]); cbn; [|done].
  split; [lia|constructor].
Qed.

(** ** The object *)

Definition wal0 (path : string) (h : WalHeader.t) : Wal :=
  mkWal path psz true h 1 0 (WalHeader.chain_seed h) false false ∅ ∅ [] [].
Definition wal_of (path : string) (h : WalHeader.t) (txs : list Tx) : Wal :=
  fold_left apply_tx txs (wal0 path h).

Lemma wal_of_facts path h txs :
  Forall tx_ok txs ->
  let x := wal_of path h txs in
  this_log path h x /\ next_frame x = S (length (total_images txs))
  /\ next_frame x = S (last_commit x) /\ chain x = log_chain h txs
  /\ wal_open x = true /\ wal_failed x = false /\ read_only x = false.
Proof.
  cbv zeta. unfold wal_of. induction txs as [|tx txs IH] using rev_ind; [done|].
  intros [Htxs Htx]%Forall_app. apply Forall_cons in Htx as [Htx _]. rewrite fold_left_app. cbn [fold_left].
  destruct (IH Htxs) as (Hx & Hn & Hl & Hc & Ho & Hf & Hr).
  destruct (apply_tx_facts path h _ tx Htx Hx ltac:(lia)) as (Hx' & Hn' & Hl' & Hc').
  split_and!; try done.
  - rewrite Hn', Hn. unfold total_images. rewrite map_app, concat_app, length_app. cbn [map concat].
    rewrite app_nil_r. lia.
  - rewrite Hc', Hc. unfold log_chain. by rewrite log_encode_snoc.
Qed.

Definition wal_inv (path : string) (h : WalHeader.t) (txs : list Tx) (x : Wal) (w : World) : Prop :=
  x = wal_of path h txs /\ header_ok h /\ Forall tx_ok txs /\ synced path (log_file h txs) w.

Lemma wal_inv_crash path h txs x w : wal_inv path h txs x w -> crash_safe (log_image txs) path w.
Proof.
  intros (_ & Hh & Htxs & Hs) choice. apply disk_safe_crash. split.
  - destruct Hs as (_ & _ & -> & _). split; [done|]. right. exists h, []. rewrite app_nil_r.
    split_and!; [done..|by left].
  - apply stable_untouched, ops_on_nil, Hs.
Qed.

(** ** Recovery *)

Definition tail_of_recover (path : string) (size valid_end : nat) : WM WalRecoveryInfo :=
  do! modO (fun x => set_next x (S (last_commit x))) in
  let! x := getO in
  if read_only x then
    ret (mkInfo (last_commit x) (size - valid_end) false)
  else
    let! dropped :=
      (if (valid_end <? size)%nat then
         do! onw (file_truncate path valid_end) in
         do! onw (file_sync path) in
         ret (size - valid_end)%nat
       else ret 0%nat) in
    do! (if (dropped =? 0)%nat then onw (file_sync path) else ret tt) in
    do! onw (vfs_sync_directory (directory_of path)) in
    ret (mkInfo (last_commit x) dropped false).

Lemma recover_tail_triple path h txs tail :
  Forall tx_ok txs -> header_ok h -> torn_tx h txs tail ->
  triple (fun x w => x = set_next (wal_of path h txs) 1
                     /\ clean (this_image h txs) path (log_file h txs ++ tail) w)
         (tail_of_recover path (length (log_file h txs ++ tail)) (length (log_file h txs)))
         (fun _ x w => x = wal_of path h txs /\ clean (this_image h txs) path (log_file h txs) w)
         (fun _ w => disk_safe (this_image h txs) path w).
Proof.
  intros Htxs Hh Ht. unfold tail_of_recover.
  destruct (wal_of_facts path h txs Htxs) as (_ & Hn & Hl & _ & _ & _ & Hro).
  set (x1 := wal_of path h txs) in *. set (T := this_image h txs). set (E := fun (_ : Wal) w => disk_safe T path w).
  eapply triple_bind.
  { apply (triple_modO _ _ (fun _ x w => x = x1 /\ clean T path (log_file h txs ++ tail) w)).
    intros x w [-> Hcl]. split; [|done]. cbn [last_commit set_next]. rewrite <- Hl. by destruct x1. }
  intros []. apply triple_get_bind. rewrite Hro, length_app.
  set (n := length (log_file h txs)).
  eapply triple_bind.
  { apply (triple_pre _ (fun x w => x = x1 /\ dirty T path (log_file h txs ++ tail) w)).
    2: { intros x w [-> Hcl]. split; [done|by apply clean_dirty]. }
    instantiate (1 := fun d x w => x = x1 /\ (if (d =? 0)%nat then dirty T path (log_file h txs) w
                                             else clean T path (log_file h txs) w)).
    destruct (Nat.ltb_spec n (n + length tail)).
    - eapply triple_bind; [apply (triple_truncate T path (fun x => x = x1) E); [done|apply this_image_truncate]|].
      intros []. rewrite file_resize_app_l by done.
      eapply triple_bind; [by apply (triple_sync T path (fun x => x = x1) E)|].
      intros []. apply triple_ret. intros x w [-> Hcl]. split; [done|].
      by destruct (Nat.eqb_spec (n + length tail - n) 0); [lia|].
    - apply triple_ret. intros x w [-> Hd]. split; [done|]. cbn [Nat.eqb].
      assert (tail = []) as -> by (apply nil_length_inv; lia). by rewrite app_nil_r in Hd. }
  intros d. eapply (triple_bind _ _ (fun _ x w => x = x1 /\ clean T path (log_file h txs) w)).
  { destruct (d =? 0)%nat; [by apply (triple_sync T path (fun x => x = x1) E)|]. by apply triple_ret. }
  intros []. eapply triple_bind; [by apply (triple_sync_directory T path (fun x => x = x1) E)|].
  intros []. by apply triple_ret.
Qed.

Definition raw_wal (path : string) (h0 : WalHeader.t) : Wal :=
  mkWal path psz true h0 1 0 0 false false ∅ ∅ [] [].

Lemma recover_unfold options :
  recover options =
  (let! x := getO in
   let! size := onw (file_size (wal_path x)) in
   let! hbuf := onw (file_read (wal_path x) 0 WalHeader.kEncodedBytes) in
   match (if (length hbuf =? WalHeader.kEncodedBytes)%nat then
            match WalHeader.decode hbuf with
            | Ret h => if (WalHeader.page_size h =? Z.of_nat (page_size x))
                          && bool_decide (WalHeader.db_id h = o_db_id options)
                       then Some h else None
            | Err _ => None
            end
          else None) with
   | None =>
       if read_only x then
         lift (corrupt ("log header invalid or for another database: " +:+ wal_path x))
       else
         do! fresh_salts in
         do! onw (file_truncate (wal_path x) 0) in
         do! write_header in
         do! modO (fun x => set_chain (set_next x 1) (WalHeader.chain_seed (header x))) in
         ret (mkInfo 0 size true)
   | Some h =>
       do! modO (fun x => set_chain (set_header x h) (WalHeader.chain_seed h)) in
       let! valid_end := recover_frames (S size) size 1 (WalHeader.chain_seed h) [] WalHeader.kEncodedBytes in
       tail_of_recover (wal_path x) size valid_end
   end).
Proof. reflexivity. Qed.

Lemma recover_intact_triple path h txs tail h0 options :
  Forall tx_ok txs -> header_ok h -> torn_tx h txs tail -> o_db_id options = dbid ->
  triple (fun x w => x = raw_wal path h0 /\ clean (this_image h txs) path (log_file h txs ++ tail) w)
         (recover options)
         (fun _ x w => x = wal_of path h txs /\ clean (this_image h txs) path (log_file h txs) w)
         (fun _ w => disk_safe (this_image h txs) path w).
Proof.
  intros Htxs Hh Ht Hopt. pose proof Hh as (Hwf & Hps & Hid).
  set (T := this_image h txs). set (content := log_file h txs ++ tail). set (R := clean T path content).
  assert (HR : forall w, R w -> is_crashed w = false /\ cache w !! path = Some content /\ disk_safe T path w)
    by (intros w Hw; by apply clean_reads).
  rewrite recover_unfold. apply triple_get_bind. cbn [wal_path raw_wal page_size].
  eapply triple_bind_eq.
  { apply (triple_size T path (fun x => x = raw_wal path h0)
             (fun _ w => disk_safe T path w) R content); [apply framed_clean|exact HR]. }
  eapply triple_bind_eq.
  { apply (triple_read T path (fun x => x = raw_wal path h0)
             (fun _ w => disk_safe T path w)); [done|apply framed_clean|exact HR]. }
  cbv beta. unfold WalHeader.kEncodedBytes.
  assert (Hbuf : sub 0 48 content = header_bytes h).
  { unfold content, log_file. rewrite sub_0, <- app_assoc. apply take_app_length'. by rewrite length_header_bytes. }
  rewrite Hbuf, length_header_bytes. cbn [Nat.eqb].
  unfold header_bytes. rewrite WalHeader_decode_encode by (done || by apply bytes_ok_replicate).
  rewrite Hps, Z.eqb_refl, Hid, Hopt, bool_decide_true by done. cbn [andb].
  eapply (triple_bind _ _ (fun _ x w => x = set_next (wal0 path h) 1 /\ R w)).
  { apply triple_modO. by intros x w [-> ?]. }
  intros [].
  destruct (wal_of_facts path h txs Htxs) as (Hx & Hn & Hl & Hc & _).
  pose proof (length_log_file h txs Htxs) as Hlf. rewrite <- Hn in Hlf.
  assert (Hlog0 : this_log path h (wal0 path h)) by done.
  eapply triple_bind_eq; [|by apply (recover_tail_triple path h txs tail)].
  assert (Hfuel : exists fuel, S (length content) = (length (total_images txs) + fuel)%nat
                               /\ (length tail < fuel)%nat).
  { exists (S (length content) - length (total_images txs))%nat. unfold content. rewrite length_app, Hlf, Hn.
    unfold off. nia. }
  destruct Hfuel as (fuel & -> & Hfuel).
  apply (rf_log T path R content h (framed_clean T path content) HR txs (wal0 path h) fuel tail); try done.
  { cbn. lia. }
  { unfold content, log_file. change (off (next_frame (wal0 path h))) with 48%nat. rewrite <- app_assoc.
    by rewrite drop_app_length' by (by rewrite length_header_bytes). }
  fold (wal_of path h txs). rewrite <- Hlf.
  assert (Hcl : length content = (length (log_file h txs) + length tail)%nat) by (unfold content; by rewrite length_app).
  destruct Ht as [->|(tx & n & Htx & Hnlt & Htail)].
  - apply (rf_short T path R content h); [done|lia|].
    rewrite Hcl, <- Hlf. cbn [length]. lia.
  - destruct Htx as (Him & Hsz & Hnz & _).
    rewrite Hlf in Hcl.
    apply (rf_torn T path R content h (framed_clean T path content) HR (tx_images tx) _ _ _ _ _ _ (tx_size tx) n).
    + apply Hx.
    + done.
    + done.
    + done.
    + done.
    + rewrite Hcl. nia.
    + lia.
    + lia.
    + left. by rewrite Hc.
    + rewrite Hc, <- Hlf. unfold content. rewrite drop_app_length. exact Htail.
Qed.

(** Starting a log: fresh salts, an empty file, the header, a sync. *)

Definition salted (path : string) (h0 : WalHeader.t) (x : Wal) : Prop :=
  exists s1 s2, u32_ok s1 /\ u32_ok s2 /\ x = raw_wal path (with_salts s1 s2 h0).

Lemma fresh_salts_triple R path h0 E :
  framed R -> (forall w, R w -> is_crashed w = false) ->
  triple (fun x w => x = raw_wal path h0 /\ R w) fresh_salts
         (fun _ x w => salted path h0 x /\ R w) E.
Proof.
  intros Hfr HR. unfold fresh_salts.
  eapply triple_bind; [by apply (triple_salt (fun x => x = raw_wal path h0) E R)|].
  intros s1. apply triple_pure. intros H1.
  eapply triple_bind; [by apply (triple_salt (fun x => x = raw_wal path h0) E R)|].
  intros s2. apply triple_pure. intros H2.
  apply triple_modO. intros x w [-> HRw]. split; [|done]. exists s1, s2. by split_and!.
Qed.

Lemma write_header_triple D path x1 b :
  closed_write D 0 (header_bytes (header x1)) -> wal_path x1 = path ->
  triple (fun x w => x = x1 /\ dirty D path b w) write_header
         (fun _ x w => x = x1 /\ clean D path (write_bytes 0 (header_bytes (header x1)) b) w)
         (fun _ w => disk_safe D path w).
Proof.
  intros Hcl <-. unfold write_header. apply triple_get_bind.
  eapply triple_bind; [by apply (triple_write D (wal_path x1) (fun x => x = x1))|].
  intros []. by apply (triple_sync D (wal_path x1) (fun x => x = x1)).
Qed.

Section fresh.
Context (Hpsz : u32_ok (Z.of_nat psz)) (Hid : length dbid = 16%nat /\ bytes_ok dbid).

Definition fresh_header (base : Z) : WalHeader.t := WalHeader.mk (Z.of_nat psz) 0 0 dbid base.

Lemma fresh_header_ok base s1 s2 :
  u64_ok base -> u32_ok s1 -> u32_ok s2 -> header_ok (with_salts s1 s2 (fresh_header base)).
Proof. intros. destruct Hid. unfold header_ok, WalHeader.wf, with_salts. cbn. by split_and!. Qed.

Lemma log_file_nil h : log_file h [] = header_bytes h.
Proof. unfold log_file. cbn [log_encode fst]. apply app_nil_r. Qed.

Lemma unborn_file path h w b :
  header_ok h -> b = header_bytes h -> clean unborn path b w -> wal_inv path h [] (wal0 path h) w.
Proof. intros Hh -> [Hs _]. split_and!; try done. by rewrite log_file_nil. Qed.

Lemma recover_unborn_triple path b base options :
  (length b <= 48)%nat -> bytes_ok b -> u64_ok base -> o_db_id options = dbid ->
  triple (fun x w => x = raw_wal path (fresh_header base) /\ clean unborn path b w)
         (recover options)
         (fun _ x w => exists h, wal_inv path h [] x w)
         (fun _ w => crash_safe (log_image []) path w).
Proof.
  intros Hl Hb Hbase Hopt. set (x0 := raw_wal path (fresh_header base)).
  set (E := fun (_ : Wal) w => crash_safe (log_image []) path w).
  assert (HE : forall (x : Wal) w, disk_safe unborn path w -> E x w).
  { intros x w Hd. eapply disk_safe_crash_safe; [exact Hd|]. apply unborn_log. }
  assert (Hsub : sub 0 48 b = b) by (by apply sub_all).
  destruct (if (length b =? 48)%nat then
              match WalHeader.decode b with
              | Ret h => if (WalHeader.page_size h =? Z.of_nat psz)
                            && bool_decide (WalHeader.db_id h = o_db_id options)
                         then Some h else None
              | Err _ => None
              end
            else None) as [h|] eqn:Em.
  - (* a complete header of this database *)
    destruct (Nat.eqb_spec (length b) 48) as [H48|]; [|done].
    destruct (WalHeader.decode b) as [h'|] eqn:Ed; [|done].
    destruct (_ && _) eqn:Ec; [|done]. simplify_eq. breflect.
    apply WalHeader_decode_wf in Ed as [Hwf Henc]; [|done].
    assert (Hh : header_ok h) by (by rewrite Hopt in *).
    assert (Hbh : b = log_file h [] ++ []).
    { rewrite app_nil_r, log_file_nil. unfold header_bytes. rewrite <- Henc at 1.
      rewrite WalHeader_encode_front by (done || lia). rewrite drop_ge by lia. by rewrite app_nil_r. }
    eapply triple_conseq; [apply (recover_intact_triple path h [] [] (fresh_header base) options)|..];
      auto; [by left| | |].
    + intros x w [-> [Hs _]]. split; [done|]. rewrite <- Hbh. apply synced_clean; [done|].
      exists []. split; [by f_equal|by left].
    + intros _ x w [-> [Hs _]]. exists h. by split_and!.
    + intros x w Hd. eapply disk_safe_crash_safe; [exact Hd|]. intros c. by apply this_image_log.
  - rewrite recover_unfold. apply triple_get_bind. cbn [wal_path x0 raw_wal page_size read_only].
    set (R := clean unborn path b).
    assert (HR : forall w, R w -> is_crashed w = false /\ cache w !! path = Some b /\ disk_safe unborn path w)
      by (intros w Hw; by apply clean_reads).
    eapply triple_bind_eq.
    { apply (triple_size unborn path (fun x => x = x0) E R b); [apply framed_clean|exact HR]. }
    eapply triple_bind_eq.
    { apply (triple_read unborn path (fun x => x = x0) E); [by auto|apply framed_clean|exact HR]. }
    cbv beta. unfold WalHeader.kEncodedBytes. rewrite Hsub, Em.
    eapply triple_bind; [apply (fresh_salts_triple R path (fresh_header base)); [apply framed_clean|]|].
    { intros w Hw. by apply HR. }
    intros []. apply triple_assume. intros x1 w1 [(s1 & s2 & H1 & H2 & ->) _].
    set (h := with_salts s1 s2 (fresh_header base)).
    assert (Hh : header_ok h) by (by apply fresh_header_ok).
    eapply triple_bind.
    { eapply triple_pre; [apply (triple_truncate unborn path (fun x => x = raw_wal path h) E);
        [by auto|apply unborn_truncate]|].
      intros x w (-> & -> & _ & HRw). split; [done|by apply clean_dirty]. }
    intros []. eapply triple_bind.
    { eapply triple_err; [apply (write_header_triple unborn path (raw_wal path h)); [|done]|by auto].
      apply unborn_write, Hh. }
    intros []. eapply (triple_bind _ _ (fun _ x w => exists h, wal_inv path h [] x w)).
    { apply triple_modO. intros x w [-> Hcl]. exists h.
      eapply unborn_file; [done| |exact Hcl]. rewrite write_bytes_0. cbn [header raw_wal].
      rewrite drop_ge by (rewrite length_file_resize; lia). apply app_nil_r. }
    intros []. by apply triple_ret.
Qed.

(** ** Opening *)

Lemma open_wal_spec path txs disk inj ent options r w' :
  log_image txs (disk !! path) -> DropSync ∉ inj ->
  o_db_id options = dbid -> o_read_only options = false -> u64_ok (new_base_change_counter options) ->
  open_wal path psz options (reboot disk inj ent) = (r, w') ->
  calm (reboot disk inj ent) w'
  /\ match r with
     | Ret (x, _) => exists h, wal_inv path h txs x w'
     | Err _ => crash_safe (log_image txs) path w' /\ inj <> []
     end.
Proof.
  intros Himg Hinj Hopt Hro Hbase Hopen. unfold open_wal in Hopen.
  destruct (open_wal_body options (fresh_wal path psz options, reboot disk inj ent)) as [r0 [x1 w1]] eqn:E0.
  set (w0 := reboot disk inj ent) in *. set (x0 := fresh_wal path psz options) in *.
  set (base := new_base_change_counter options) in *.
  enough (triple (fun x w => x = x0 /\ w = w0) (open_wal_body options)
            (fun _ x w => exists h, wal_inv path h txs x w)
            (fun _ w => crash_safe (log_image txs) path w)) as Ht.
  { assert (Hh0 : honest w0) by done.
    destruct (Ht _ _ _ _ _ Hh0 (conj eq_refl eq_refl) E0) as [Hc Hr].
    destruct r0 as [info|e]; simplify_eq; [by split|]. split; [done|]. destruct Hr as [? Hq].
    split; [done|]. intros ->. by apply Hq. }
  assert (Hx1 : set_wal_open x0 true = raw_wal path (fresh_header base)).
  { unfold x0, fresh_wal, set_wal_open, raw_wal, fresh_header. cbn. by rewrite Hopt, Hro. }
  unfold open_wal_body. apply (triple_get_bind x0 (fun w => w = w0)).
  eapply (triple_bind_eq _ _ (bool_decide (is_Some (disk !! path))) (fun x w => x = x0 /\ w = w0)).
  { intros s w r1 s' w1' Hh [-> ->] H. unfold onw in H.
    rewrite vfs_exists_spec in H by done. simplify_eq. by split. }
  rewrite Hro. cbn [wal_path x0 fresh_wal andb negb].
  destruct (disk !! path) as [c|] eqn:Ec.
  - rewrite bool_decide_true by eauto. cbn [negb].
    assert (Hopened : forall D, D (Some c) -> (forall c, D c -> log_image txs c) ->
      triple (fun x w => x = raw_wal path (fresh_header base) /\ clean D path c w) (recover options)
        (fun _ x w => exists h, wal_inv path h txs x w) (fun _ w => crash_safe (log_image txs) path w) ->
      triple (fun x w => x = x0 /\ w = w0)
        (do! onw (vfs_open path (mkOpenFlags true true false false)) in
         do! modO (fun x => set_wal_open x true) in recover options)
        (fun _ x w => exists h, wal_inv path h txs x w) (fun _ w => crash_safe (log_image txs) path w)).
    { intros D HD Himp Hrec. eapply triple_bind.
      { eapply triple_pre; [apply (triple_open D path (fun x => x = x0) (fun _ w => crash_safe (log_image txs) path w) )|].
        - intros x w _ Hd. by eapply disk_safe_crash_safe.
        - intros ?? [-> ->]. split; [done|]. apply synced_clean; [by split_and!|done]. }
      intros []. eapply (triple_bind _ _ (fun _ x w => x = raw_wal path (fresh_header base) /\ clean D path c w));
        [|intros []; exact Hrec].
      apply triple_modO. intros x w [-> Hcl]. by rewrite Hx1. }
    destruct Himg as [Htxs [[-> [|(b & [= <-] & Hl & Hb)]]|(h & tail & Hh & [= ->] & Ht)]]; [done| |].
    + apply (Hopened unborn); [right; eauto|apply unborn_log|]. by apply recover_unborn_triple.
    + apply (Hopened (this_image h txs)); [by exists tail|intros c'; by apply this_image_log|].
      eapply triple_conseq; [apply (recover_intact_triple path h txs tail (fresh_header base) options)|..]; auto.
      * intros _ x w [-> [Hs _]]. exists h. by split_and!.
      * intros x w Hd. eapply disk_safe_crash_safe; [exact Hd|]. intros c'. by apply this_image_log.
  - rewrite bool_decide_false by (by intros [? ?]). cbn [negb].
    destruct Himg as [_ [[-> _]|(h & tail & _ & ? & _)]]; [|done].
    set (E := fun (_ : Wal) w => crash_safe (log_image []) path w).
    assert (HE : forall (x : Wal) w, disk_safe unborn path w -> E x w).
    { intros x w Hd. eapply disk_safe_crash_safe; [exact Hd|]. apply unborn_log. }
    eapply triple_bind.
    { eapply triple_pre; [apply (triple_create unborn path (fun x => x = x0) E); [by auto|apply unborn_create]|].
      intros ?? [-> ->]. split; [done|]. split; [done|]. split; [done|].
      split; [by split; [constructor|]|]. split; [|apply stable_nil].
      unfold w0, reboot. cbn [durable]. rewrite Ec. by left. }
    intros []. eapply (triple_bind _ _ (fun _ x w => x = raw_wal path (fresh_header base) /\ dirty unborn path [] w)).
    { apply triple_modO. intros x w [-> Hd]. by rewrite Hx1. }
    intros []. eapply triple_bind; [apply (fresh_salts_triple (dirty unborn path []) path (fresh_header base));
                                    [apply framed_dirty|by intros w (? & _)]|].
    intros []. apply triple_assume. intros x2 w2 [(s1 & s2 & H1 & H2 & ->) _].
    set (h := with_salts s1 s2 (fresh_header base)).
    assert (Hh : header_ok h) by (by apply fresh_header_ok).
    eapply triple_bind.
    { eapply triple_err; [eapply triple_pre; [apply (write_header_triple unborn path (raw_wal path h) []); [|done]|]|].
      - apply unborn_write, Hh.
      - by intros x w (-> & -> & _ & Hd).
      - by auto. }
    intros []. eapply triple_bind; [apply (triple_sync_directory unborn path (fun x => x = raw_wal path h) E); by auto|].
    intros []. eapply (triple_bind _ _ (fun _ x w => exists h, wal_inv path h [] x w)).
    { apply triple_modO. intros x w [-> Hcl]. exists h. eapply unborn_file; [done| |exact Hcl].
      rewrite write_bytes_0, drop_nil. apply app_nil_r. }
    intros []. by apply triple_ret.
Qed.

End fresh.

(** ** Appending *)

Definition in_flight (b f : Bytes) (c : option Bytes) : Prop := exists n, c = Some (b ++ take n f).

Lemma in_flight_write b f : closed_write (in_flight b f) (length b) f.
Proof.
  intros m c [n ->]. exists (Nat.max m n). cbn [fmap option_fmap option_map]. f_equal.
  apply write_bytes_prefix.
Qed.
Lemma in_flight_truncate b f : closed_truncate (in_flight b f) (length b).
Proof.
  intros c [n ->]. exists 0%nat. cbn [fmap option_fmap option_map].
  by rewrite file_resize_app_l, take_0, app_nil_r.
Qed.

Definition tx_bytes (h : WalHeader.t) (txs : list Tx) (tx : Tx) : Bytes :=
  fst (tx_encode h (tx_images tx) (tx_size tx) (log_chain h txs)).

Lemma log_file_snoc h txs tx : log_file h (txs ++ [tx]) = log_file h txs ++ tx_bytes h txs tx.
Proof. unfold log_file, tx_bytes, log_chain. rewrite log_encode_snoc. cbn [fst]. by rewrite app_assoc. Qed.

Lemma in_flight_image h txs tx c :
  Forall tx_ok txs -> tx_ok tx -> header_ok h -> in_flight (log_file h txs) (tx_bytes h txs tx) c ->
  log_image txs c \/ log_image (txs ++ [tx]) c.
Proof.
  intros Htxs Htx Hh [n ->]. destruct (decide (n < length (tx_bytes h txs tx))%nat) as [Hn|Hn].
  - left. split; [done|]. right. exists h. eexists. split; [done|]. split; [done|]. right. eauto 10.
  - right. split; [apply Forall_app_2; [done|by apply Forall_singleton]|]. right. exists h, [].
    split; [done|]. rewrite log_file_snoc, take_ge, app_nil_r by lia. split; [done|by left].
Qed.

Lemma wal_of_snoc path h txs tx : wal_of path h (txs ++ [tx]) = apply_tx (wal_of path h txs) tx.
Proof. unfold wal_of. by rewrite fold_left_app. Qed.

Lemma discard_safe D path x w r x' w' :
  wal_path x = path -> honest w -> disk_safe D path w ->
  closed_truncate D (frame_offset x (next_frame x)) ->
  discard_uncommitted (x, w) = (r, (x', w')) -> x' = x /\ calm w w' /\ disk_safe D path w'.
Proof.
  intros Hp Hh Hd Hcl H. unfold discard_uncommitted, bind, getO, onw, lift in H. cbn [fst snd] in H.
  destruct (negb (wal_open x)); [by simplify_eq|]. rewrite Hp in H.
  destruct (file_truncate path _ w) as [r1 w1] eqn:E1.
  destruct (file_truncate_safe path D _ _ _ _ E1 Hd Hcl) as [Hc1 Hd1].
  destruct r1; [|by simplify_eq].
  destruct (file_sync path w1) as [r2 w2] eqn:E2.
  destruct (file_sync_safe path D _ _ _ (proj1 Hc1 Hh) E2 Hd1) as [Hc2 Hd2]. simplify_eq.
  split_and!; try done. by eapply calm_trans.
Qed.

Lemma append_spec path h txs x w tx r x' w' :
  wal_inv path h txs x w -> honest w -> tx_ok tx ->
  append_transaction (tx_images tx) (tx_size tx) (x, w) = (r, (x', w')) ->
  calm w w'
  /\ match r with
     | Ret _ => wal_inv path h (txs ++ [tx]) x' w'
     | Err _ => ~ quiet w /\ x' = set_wal_failed x true
                /\ disk_safe (in_flight (log_file h txs) (tx_bytes h txs tx)) path w'
     end.
Proof.
  intros (-> & Hh & Htxs & Hsy) Hon Htx H.
  destruct (wal_of_facts path h txs Htxs) as ((Hp & Hps & Hhd) & Hn & Hl & Hc & Ho & Hf & Hr).
  set (x := wal_of path h txs) in *. pose proof Htx as (Him & _ & _ & im & hdr & Hlast & _ & Hdec).
  assert (Hne : (length (tx_images tx) =? 0)%nat = false) by (by destruct (tx_images tx)).
  assert (Hoff : frame_offset x (next_frame x) = length (log_file h txs)).
  { unfold frame_offset, frame_bytes, WalFrameHeader.kEncodedBytes, WalHeader.kEncodedBytes.
    rewrite Hps, length_log_file, Hn by done. done. }
  unfold append_transaction, bind, getO, lift, attempt, onw, modO in H. cbn [fst snd] in H.
  rewrite Hne, Hr, Hf, build_frames_spec, Hp, Hoff, Hhd, Hc in H by done. cbn [fst snd] in H.
  fold (tx_bytes h txs tx) in H. set (F := in_flight (log_file h txs) (tx_bytes h txs tx)).
  assert (HF : F (Some (log_file h txs))) by (exists 0%nat; by rewrite take_0, app_nil_r).
  destruct (synced_clean F _ _ _ Hsy HF) as [_ Hds]. pose proof Hsy as (Hcr & Hcache & _).
  assert (Hcl : closed_truncate F (frame_offset x (next_frame x))) by (rewrite Hoff; apply in_flight_truncate).
  destruct (file_write path (length (log_file h txs)) (tx_bytes h txs tx) w) as [r1 w1] eqn:E1.
  destruct (file_write_spec path F _ _ _ _ _ _ Hcr Hcache E1) as (Hcalm1 & Hs1 & Ho1).
  specialize (Hs1 Hds (in_flight_write _ _)).
  destruct Ho1 as [(-> & Hcr1 & Hc1 & Hco1)|[[e ->] Hq]].
  2: { cbn [ret] in H. unfold ret in H. cbn [fst snd] in H.
       destruct (discard_uncommitted (x, w1)) as [r3 [x3 w3]] eqn:E3.
       destruct (discard_safe F path x w1 r3 x3 w3 Hp (proj1 Hcalm1 Hon) Hs1 Hcl E3) as (-> & Hcalm3 & Hs3).
       pose proof (calm_trans _ _ _ Hcalm1 Hcalm3).
       destruct r3; [|destruct (decide (code s = Crashed))]; simplify_eq; by split_and!. }
  rewrite write_bytes_end in Hc1. specialize (Hco1 (synced_coherent _ _ _ Hsy)).
  destruct (file_sync path w1) as [r2 w2] eqn:E2.
  destruct (file_sync_spec path F _ _ _ _ Hcr1 Hc1 (proj1 Hcalm1 Hon) E2) as (Hcalm2 & Hs2 & Ho2).
  pose proof (calm_trans _ _ _ Hcalm1 Hcalm2) as Hcalm12. specialize (Hs2 Hs1).
  destruct Ho2 as [(-> & Hsy2)|[[e ->] Hq]].
  - cbn [fst snd] in H. rewrite Hlast in H.
    change (default [] (im_data <$> Some im)) with (im_data im) in H. rewrite Hdec in H.
    simplify_eq. split; [done|]. split_and!; try done.
    + rewrite wal_of_snoc. fold x. unfold apply_tx. rewrite (commit_of_eq _ _ im hdr), Hhd, Hc by done. done.
    + apply Forall_app_2; [done|by apply Forall_singleton].
    + rewrite log_file_snoc. by apply Hsy2.
  - cbn [fst snd] in H. destruct (discard_uncommitted (x, w2)) as [r3 [x3 w3]] eqn:E3.
    destruct (discard_safe F path x w2 r3 x3 w3 Hp (proj1 Hcalm12 Hon) Hs2 Hcl E3) as (-> & Hcalm3 & Hs3).
    pose proof (calm_trans _ _ _ Hcalm12 Hcalm3).
    assert (~ quiet w) by (intros ?; by apply Hq, Hcalm1).
    destruct r3; [|destruct (decide (code s = Crashed))]; simplify_eq; by split_and!.
Qed.

(** ** Looking up a page

    [newest p l] is what a reader of page [p] must see when the images [l]
    have been committed, in order. *)

Definition newest (p : PageNo) (l : list PageImage) : option Bytes :=
  fold_left (fun acc im => if im_page im =? p then Some (im_data im) else acc) l None.

Fixpoint frames_of (p : PageNo) (l : list PageImage) (f : FrameNo) : list FrameNo :=
  match l with
  | [] => []
  | im :: l => if im_page im =? p then f :: frames_of p l (S f) else frames_of p l (S f)
  end.

Lemma frames_of_app p a b f :
  frames_of p (a ++ b) f = frames_of p a f ++ frames_of p b (f + length a).
Proof.
  revert f. induction a as [|im a IH]; intros f; cbn [app frames_of length]; [by rewrite Nat.add_0_r|].
  rewrite IH. replace (S f + length a)%nat with (f + S (length a))%nat by lia. by destruct (im_page im =? p).
Qed.

Lemma frames_of_ge p l f : Forall (fun g => (f <= g)%nat) (frames_of p l f).
Proof.
  revert f. induction l as [|im l IH]; intros f; cbn [frames_of]; [constructor|].
  assert (H := IH (S f)). destruct (im_page im =? p); [constructor; [lia|]|];
    (eapply Forall_impl; [exact H|]; cbn; lia).
Qed.

Lemma upper_bound_zero l v : Forall (fun g => (v < g)%nat) l -> upper_bound l v = 0%nat.
Proof. intros [|g l' Hg _]; [done|]. cbn [upper_bound]. by destruct (Nat.ltb_spec v g); [|lia]. Qed.

(** The index is ascending, so the search stops where the snapshot does. *)
Lemma upper_bound_frames p l f v :
  upper_bound (frames_of p l f) v = length (frames_of p (take (S v - f) l) f).
Proof.
  revert f. induction l as [|im l IH]; intros f; [by rewrite take_nil|].
  destruct (decide (v < f)%nat) as [Hlt|Hge].
  - replace (S v - f)%nat with 0%nat by lia. rewrite take_0. apply upper_bound_zero.
    eapply Forall_impl; [apply frames_of_ge|]. cbn. lia.
  - replace (S v - f)%nat with (S (S v - S f)) by lia. cbn [take frames_of].
    destruct (im_page im =? p); cbn [upper_bound length]; [|apply IH].
    destruct (Nat.ltb_spec v f); [lia|]. by rewrite IH.
Qed.

Lemma number_frames p images f (ix : gmap PageNo (list FrameNo)) :
  default [] (fold_left (fun ix '(page, fr) => <[page := default [] (ix !! page) ++ [fr]]> ix)
                (number images f) ix !! p)
  = default [] (ix !! p) ++ frames_of p images f.
Proof.
  revert f ix. induction images as [|im images IH]; intros f ix; cbn [number fold_left frames_of];
    [by rewrite app_nil_r|].
  rewrite IH. destruct (Z.eqb_spec (im_page im) p) as [->|Hne].
  - rewrite lookup_insert_eq. cbn [default from_option id]. by rewrite <- app_assoc.
  - by rewrite lookup_insert_ne.
Qed.

Lemma length_number images f : length (number images f) = length images.
Proof. revert f. induction images as [|im l IH]; intros f; cbn; [done|]. by rewrite IH. Qed.

Lemma total_images_snoc txs tx : total_images (txs ++ [tx]) = total_images txs ++ tx_images tx.
Proof. unfold total_images. rewrite map_app, concat_app. cbn [map concat]. by rewrite app_nil_r. Qed.

Lemma wal_of_index path h txs p :
  Forall tx_ok txs ->
  default [] (index (wal_of path h txs) !! p) = frames_of p (total_images txs) 1.
Proof.
  induction txs as [|tx txs IH] using rev_ind; [done|].
  intros [Htxs Htx]%Forall_app. rewrite wal_of_snoc, total_images_snoc, frames_of_app, <- IH by done.
  destruct (wal_of_facts path h txs Htxs) as (_ & Hn & _).
  unfold apply_tx. cbn [index publish set_chain set_next]. rewrite number_frames, Hn. done.
Qed.

Lemma find_frames path h txs p snap :
  Forall tx_ok txs ->
  find (wal_of path h txs) p snap
  = default 0%nat (last (frames_of p (take snap (total_images txs)) 1)).
Proof.
  intros Htxs. pose proof (wal_of_index path h txs p Htxs) as Hix. unfold find.
  assert (forall l : list FrameNo, match upper_bound l snap with O => 0%nat | S q => nth q l 0%nat end
            = default 0%nat (last (take (upper_bound l snap) l))) as Hgen.
  { intros l. assert (Hle : (upper_bound l snap <= length l)%nat).
    { induction l as [|g l IHl]; cbn [upper_bound length]; [done|]. destruct (snap <? g)%nat; lia. }
    destruct (upper_bound l snap) as [|q] eqn:Eq; [by rewrite take_0|].
    rewrite last_lookup, length_take, Nat.min_l by lia. cbn [Nat.pred].
    rewrite lookup_take_lt by lia. by rewrite nth_lookup. }
  assert (Htake : take (upper_bound (frames_of p (total_images txs) 1) snap) (frames_of p (total_images txs) 1)
            = frames_of p (take snap (total_images txs)) 1).
  { rewrite upper_bound_frames. replace (S snap - 1)%nat with snap by lia.
    rewrite <- (take_drop snap (total_images txs)) at 2. rewrite frames_of_app. by rewrite take_app_length. }
  destruct (index (wal_of path h txs) !! p) as [l|]; cbn [default from_option id] in Hix.
  - rewrite Hgen, Hix, Htake. done.
  - rewrite <- Htake, <- Hix. by rewrite take_nil.
Qed.

Lemma newest_frames p l :
  match last (frames_of p l 1) with
  | None => newest p l = None
  | Some g => exists im, l !! (g - 1)%nat = Some im /\ im_page im = p /\ (1 <= g <= length l)%nat
                         /\ newest p l = Some (im_data im)
  end.
Proof.
  induction l as [|im l IH] using rev_ind; [done|].
  rewrite frames_of_app. unfold newest in *. rewrite fold_left_app. cbn [frames_of fold_left].
  destruct (Z.eqb_spec (im_page im) p) as [Hp|Hp].
  - rewrite last_snoc. exists im. rewrite length_app. cbn [length].
    replace (1 + length l - 1)%nat with (length l) by lia.
    rewrite lookup_app_r, Nat.sub_diag by lia. split_and!; try done; lia.
  - rewrite app_nil_r. destruct (last (frames_of p l 1)) as [g|]; [|done].
    destruct IH as (im' & Hl & ? & ? & ?). exists im'. rewrite length_app. cbn [length].
    rewrite lookup_app_l by (by eapply lookup_lt_Some). split_and!; try done; lia.
Qed.

(** Where the image of a frame lies in the file. *)
Lemma tx_encode_image h images dbs running i im :
  Forall image_ok images -> images !! i = Some im ->
  sub (i * (32 + psz) + 32) psz (fst (tx_encode h images dbs running)) = im_data im.
Proof.
  intros Him. revert i running. induction Him as [|im0 images Hi0 Him IH]; intros i running Hi; [done|].
  cbn [tx_encode]. set (fh := frame_of h im0 _).
  specialize (IH (i - 1)%nat (frame_checksum fh (im_data im0) running)).
  destruct (tx_encode h images dbs (frame_checksum fh (im_data im0) running)) as [b r]. cbn [fst] in *.
  destruct Hi0 as (_ & Hl & _).
  assert (Hlf : length (frame_header_bytes fh (im_data im0) running ++ im_data im0) = (32 + psz)%nat)
    by (rewrite length_app, length_frame_header_bytes; lia).
  destruct i as [|i].
  - injection Hi as ->. rewrite sub_app_l by (rewrite Hlf; lia).
    rewrite sub_app_r by (rewrite length_frame_header_bytes; lia).
    rewrite length_frame_header_bytes. change (0 * (32 + psz) + 32 - 32)%nat with 0%nat.
    apply sub_all. lia.
  - rewrite sub_app_r by (rewrite Hlf; nia). rewrite Hlf.
    replace (S i * (32 + psz) + 32 - (32 + psz))%nat with (i * (32 + psz) + 32)%nat by nia.
    replace (S i - 1)%nat with i in IH by lia. by apply IH.
Qed.

Lemma log_encode_image h txs running i im :
  Forall tx_ok txs -> total_images txs !! i = Some im ->
  sub (i * (32 + psz) + 32) psz (fst (log_encode h txs running)) = im_data im.
Proof.
  intros Htxs. revert i running. induction Htxs as [|tx txs Htx Htxs IH]; intros i running Hi; [done|].
  destruct Htx as [Him _]. cbn [log_encode].
  pose proof (length_tx_encode h (tx_images tx) (tx_size tx) running Him) as Hlen.
  pose proof (tx_encode_image h (tx_images tx) (tx_size tx) running i im Him) as Hin.
  destruct (tx_encode h (tx_images tx) (tx_size tx) running) as [b r].
  specialize (IH (i - length (tx_images tx))%nat r). destruct (log_encode h txs r) as [b' r'].
  cbn [fst] in *. change (total_images (tx :: txs)) with (tx_images tx ++ total_images txs) in Hi.
  apply lookup_app_Some in Hi as [Hi|[Hge Hi]].
  - pose proof (lookup_lt_Some _ _ _ Hi). rewrite sub_app_l by nia. by apply Hin.
  - rewrite sub_app_r by nia. rewrite <- IH by done. f_equal. nia.
Qed.

Lemma image_at_ok txs i im : Forall tx_ok txs -> total_images txs !! i = Some im -> image_ok im.
Proof.
  intros Htxs Hi. unfold total_images in Hi. apply list_elem_of_lookup_2 in Hi.
  apply list_elem_of_In, in_concat in Hi as (l & Hl & Hin).
  apply in_map_iff in Hl as (tx & <- & Htx%list_elem_of_In). apply list_elem_of_In in Hin.
  rewrite Forall_forall in Htxs. destruct (Htxs tx Htx) as [Him _]. rewrite Forall_forall in Him. auto.
Qed.

Lemma read_frame_spec path h txs x w i im :
  wal_inv path h txs x w -> quiet w -> total_images txs !! i = Some im ->
  read_frame_page (S i) (x, w) = (Ret (im_data im), (x, w)).
Proof.
  intros (-> & Hh & Htxs & Hcr & Hc & _) Hq Hi.
  destruct (wal_of_facts path h txs Htxs) as ((Hp & Hps & _) & Hn & _).
  destruct (image_at_ok txs i im Htxs Hi) as (_ & Hl & _ & Hck).
  pose proof (lookup_lt_Some _ _ _ Hi) as Hlt.
  unfold read_frame_page, bind, getO, onw, lift, ret. cbn [fst snd]. rewrite Hn.
  destruct (Nat.leb_spec (S (length (total_images txs))) (S i)); [lia|]. cbn [Nat.eqb orb].
  unfold frame_offset, frame_bytes, WalFrameHeader.kEncodedBytes, WalHeader.kEncodedBytes.
  rewrite Hp, Hps. unfold file_read, alive, consult. rewrite Hcr, Hc, Hq.
  assert (Hsub : sub (48 + (S i - 1) * (32 + psz) + 32) psz (log_file h txs) = im_data im).
  { unfold log_file. rewrite sub_app_r by (rewrite length_header_bytes; lia).
    rewrite length_header_bytes. rewrite <- (log_encode_image h txs (WalHeader.chain_seed h) i im) by done.
    f_equal. nia. }
  by rewrite Hsub, Hl, Nat.eqb_refl, Hck.
Qed.

(** What a reader at a snapshot gets: [find] and then [read_frame_page]. *)
Definition read_at (p : PageNo) (snap : FrameNo) (s : Wal * World) : option (Result Bytes) :=
  match find (fst s) p snap with
  | O => None
  | f => Some (fst (read_frame_page f s))
  end.

Lemma read_at_spec path h txs x w p snap :
  wal_inv path h txs x w -> quiet w ->
  read_at p snap (x, w) = Ret <$> newest p (take snap (total_images txs)).
Proof.
  intros Hinv Hq. pose proof Hinv as (-> & _ & Htxs & _). unfold read_at. cbn [fst].
  rewrite find_frames by done. pose proof (newest_frames p (take snap (total_images txs))) as Hnew.
  destruct (last (frames_of p (take snap (total_images txs)) 1)) as [g|]; cbn [default from_option id].
  - destruct Hnew as (im & Hg & _ & Hrange & ->). destruct g as [|g]; [lia|].
    replace (S g - 1)%nat with g in Hg by lia.
    apply lookup_take_Some in Hg as [Hg _].
    by rewrite (read_frame_spec path h txs _ w g im Hinv Hq Hg).
  - by rewrite Hnew.
Qed.

(** ** Sessions *)

Fixpoint commit_all (txs : list Tx) (s : Wal * World) : list Tx * (Wal * World) :=
  match txs with
  | [] => ([], s)
  | tx :: txs =>
      let '(r, s) := append_transaction (tx_images tx) (tx_size tx) s in
      let '(acked, s) := commit_all txs s in
      (match r with Ret _ => tx :: acked | Err _ => acked end, s)
  end.

Lemma append_failed x w images dbs :
  images <> [] -> read_only x = false -> wal_failed x = true ->
  append_transaction images dbs (x, w)
  = (io ("WAL failed after an earlier I/O error; reopen the database: " +:+ wal_path x), (x, w)).
Proof.
  intros Hne H1 H2. unfold append_transaction, bind, getO, lift. cbn [fst].
  rewrite H1, H2. by destruct images.
Qed.

Lemma commit_all_failed txs x w :
  Forall tx_ok txs -> read_only x = false -> wal_failed x = true ->
  commit_all txs (x, w) = ([], (x, w)).
Proof.
  intros Htxs H1 H2. induction Htxs as [|tx txs (_ & _ & _ & im & hdr & Hl & _) Htxs IH]; [done|].
  cbn [commit_all]. rewrite append_failed by (done || by intros E; rewrite E in Hl).
  unfold io. by rewrite IH.
Qed.

Lemma commit_all_spec path h new txs x w acked x' w' choice :
  wal_inv path h txs x w -> honest w -> Forall tx_ok new ->
  commit_all new (x, w) = (acked, (x', w')) ->
  exists doubt, (doubt = [] \/ exists tx, tx ∈ new /\ doubt = [tx])
    /\ log_image (txs ++ acked ++ doubt) (crash_image choice w' !! path).
Proof.
  intros Hinv Hh Hnew. revert txs x w acked Hinv Hh.
  induction Hnew as [|tx new Htx Hnew IH]; intros txs x w acked Hinv Hh H.
  - cbn in H. simplify_eq. exists []. split; [by left|]. cbn [app]. rewrite app_nil_r.
    by apply (wal_inv_crash _ _ _ _ _ Hinv).
  - cbn [commit_all] in H. destruct (append_transaction _ _ (x, w)) as [r [x1 w1]] eqn:E1.
    destruct (append_spec _ _ _ _ _ _ _ _ _ Hinv Hh Htx E1) as [Hcalm Hr].
    destruct (commit_all new (x1, w1)) as [acked1 [x2 w2]] eqn:E2.
    destruct r as [[]|e]; simplify_eq.
    + destruct (IH _ _ _ _ Hr (proj1 Hcalm Hh) E2) as (d & Hd & Hi). exists d.
      split; [|by rewrite <- !app_assoc in Hi].
      destruct Hd as [->|(q & Hq & ->)]; [by left|]. right. exists q. split; [by right|done].
    + destruct Hr as (_ & -> & Hd). pose proof Hinv as (Ex & Hok & Htxs & _).
      destruct (wal_of_facts path h txs Htxs) as (_ & _ & _ & _ & _ & _ & Hro).
      rewrite commit_all_failed in E2 by (done || by rewrite Ex). simplify_eq.
      destruct (in_flight_image h txs tx _ Htxs Htx Hok (disk_safe_crash _ _ _ choice Hd)) as [Hi|Hi].
      * exists []. split; [by left|]. by rewrite app_nil_r.
      * exists [tx]. split; [|done]. right. exists tx. split; [by left|done].
Qed.

End log.

(** * Properties *)

(** A log opened on what the last power loss left, transactions committed
    under an injector, and the power lost again. *)
Definition wal_session (psz : nat) (options : WalOpenOptions) (path : string)
    (disk : gmap string Bytes) (inj : list Vfs.Decision) (ent : list Z) (new : list Tx) : list Tx * World :=
  match open_wal path psz options (reboot disk inj ent) with
  | (Ret (x, _), w) => let '(acked, (_, w)) := commit_all new (x, w) in (acked, w)
  | (Err _, w) => ([], w)
  end.

(** [C1] Commits are atomic and durable.  From a disk whose log holds the
    transactions [txs], possibly behind a torn tail, run a session under any
    injector whose syncs do not lie and lose power with any selection, order
    and tearing of the unsynced operations.  The disk then holds [txs], every
    acknowledged transaction in order, and at most one more, whole, which is
    one the client tried to commit; opening the log again without faults
    succeeds, and every page read at every snapshot is the newest image of
    those transactions. *)
Theorem wal_crash_safe psz dbid options path txs disk inj ent new choice :
  u32_ok (Z.of_nat psz) -> length dbid = 16%nat /\ bytes_ok dbid ->
  o_db_id options = dbid -> o_read_only options = false -> u64_ok (new_base_change_counter options) ->
  log_image psz dbid txs (disk !! path) -> DropSync ∉ inj -> Forall (tx_ok psz) new ->
  let '(acked, w) := wal_session psz options path disk inj ent new in
  exists doubt, (doubt = [] \/ exists tx, tx ∈ new /\ doubt = [tx])
    /\ log_image psz dbid (txs ++ acked ++ doubt) (crash_image choice w !! path)
    /\ exists x info w', open_wal path psz options (reboot (crash_image choice w) [] ent) = (Ret (x, info), w')
         /\ forall p snap, read_at p snap (x, w')
                           = Ret <$> newest p (take snap (total_images (txs ++ acked ++ doubt))).
Proof.
  intros Hpsz Hid Hopt Hro Hbase Himg Hinj Hnew. unfold wal_session.
  assert (Hreopen : forall l d, log_image psz dbid l (d !! path) ->
    exists x info w', open_wal path psz options (reboot d [] ent) = (Ret (x, info), w')
      /\ forall p snap, read_at p snap (x, w') = Ret <$> newest p (take snap (total_images l))).
  { intros l d Hd. destruct (open_wal path psz options (reboot d [] ent)) as [r w'] eqn:E.
    destruct (open_wal_spec psz dbid Hpsz Hid path l d [] ent options r w' Hd (not_elem_of_nil _)
                Hopt Hro Hbase E) as [Hcalm Hr].
    destruct r as [[x info]|e]; [|by destruct Hr]. destruct Hr as [h Hinv]. exists x, info, w'.
    split; [done|]. intros p snap. eapply read_at_spec; eauto. by apply Hcalm. }
  destruct (open_wal path psz options (reboot disk inj ent)) as [r w1] eqn:E1.
  destruct (open_wal_spec psz dbid Hpsz Hid path txs disk inj ent options r w1 Himg Hinj
              Hopt Hro Hbase E1) as [Hcalm Hr].
  destruct r as [[x info]|e].
  - destruct Hr as [h Hinv]. destruct (commit_all new (x, w1)) as [acked [x2 w2]] eqn:E2.
    destruct (commit_all_spec psz dbid path h new txs x w1 acked x2 w2 choice Hinv) as (d & Hd & Hi); auto.
    { apply Hcalm. done. }
    exists d. split; [done|]. split; [done|]. by apply Hreopen.
  - exists []. split; [by left|]. cbn [app]. rewrite app_nil_r. destruct Hr as [Hsafe _].
    split; [by apply Hsafe|]. by apply Hreopen, Hsafe.
Qed.

Definition sample_page : Bytes := seal_page (DbHeader.encode sample_header (replicate 512 0)).
Definition sample_tx : Tx :=
  mkTx [mkImage 3 (seal_page (replicate 512 7)); mkImage 0 sample_page] 9.
Definition sample_wal_options : WalOpenOptions := mkWalOptions (replicate 16 171) 0 false.

Lemma sample_tx_ok : tx_ok 512 sample_tx.
Proof.
  split; [|split; [|split]].
  - assert (Hok : forall im, u64_ok (im_page im) -> length (im_data im) = 512%nat ->
      bytes_ok (im_data im) -> page_checksum_ok (im_data im) = true -> image_ok 512 im) by (unfold image_ok; auto).
    repeat (apply Forall_cons; split; [apply Hok; first [decide_now | vm_compute; reflexivity]|]).
    constructor.
  - decide_now.
  - done.
  - exists (mkImage 0 sample_page), sample_header. split_and!; try done.
Qed.

Lemma wal_crash_safe_witness :
  let '(acked, w) := wal_session 512 sample_wal_options "w" ∅ [] [5; 6] [sample_tx] in
  exists doubt, (doubt = [] \/ exists tx, tx ∈ [sample_tx] /\ doubt = [tx])
    /\ log_image 512 (replicate 16 171) ([] ++ acked ++ doubt) (crash_image [] w !! "w")
    /\ exists x info w', open_wal "w" 512 sample_wal_options (reboot (crash_image [] w) [] [5; 6]) = (Ret (x, info), w')
         /\ forall p snap, read_at p snap (x, w')
                           = Ret <$> newest p (take snap (total_images ([] ++ acked ++ doubt))).
Proof.
  apply (wal_crash_safe 512 (replicate 16 171) sample_wal_options "w" [] ∅ [] [5; 6] [sample_tx] []).
  - decide_now.
  - split; [reflexivity | decide_now].
  - reflexivity.
  - reflexivity.
  - decide_now.
  - split; [constructor|]. left. split; [reflexivity|]. left. reflexivity.
  - apply not_elem_of_nil.
  - constructor; [exact sample_tx_ok | constructor].
Defined.

(** [C10] Snapshot reads.  When the log and its file agree on the committed
    transactions [txs], reading page [p] at snapshot [snap] through the index
    gives exactly the newest image of [p] among the first [snap] frames, and
    committing another transaction changes no read at a snapshot taken
    before it. *)
Theorem wal_snapshot_read psz dbid path h txs x w p snap tx x' w' :
  wal_inv psz dbid path h txs x w -> quiet w ->
  read_at p snap (x, w) = Ret <$> newest p (take snap (total_images txs))
  /\ (tx_ok psz tx -> append_transaction (tx_images tx) (tx_size tx) (x, w) = (Ret tt, (x', w')) ->
      (snap <= last_commit x)%nat -> read_at p snap (x', w') = read_at p snap (x, w)).
Proof.
  intros Hinv Hq. split; [by eapply read_at_spec|]. intros Htx Happ Hsnap.
  assert (Hh : honest w) by (unfold honest; rewrite Hq; apply not_elem_of_nil).
  destruct (append_spec _ _ _ _ _ _ _ _ _ _ _ Hinv Hh Htx Happ) as [Hcalm Hinv'].
  pose proof (proj2 Hcalm Hq) as Hq'.
  rewrite (read_at_spec _ _ _ _ _ _ _ _ _ Hinv' Hq'), (read_at_spec _ _ _ _ _ _ _ _ _ Hinv Hq).
  rewrite total_images_snoc, take_app_le; [done|].
  destruct Hinv as (-> & _ & Htxs & _). destruct (wal_of_facts psz path h txs Htxs) as (_ & Hn & Hl & _). lia.
Qed.

Definition sample_log : Bytes := log_file sample_wal_header [sample_tx].
Lemma sample_wal_inv :
  wal_inv 512 (replicate 16 171) "w" sample_wal_header [sample_tx]
    (wal_of 512 "w" sample_wal_header [sample_tx]) (reboot {["w" := sample_log]} [] []).
Proof.
  split; [reflexivity|]. split; [|split; [constructor; [exact sample_tx_ok|constructor]|by split_and!]].
  unfold header_ok, WalHeader.wf. split_and!; try decide_now; reflexivity.
Qed.

Lemma wal_snapshot_read_witness :
  read_at 3 2 (wal_of 512 "w" sample_wal_header [sample_tx], reboot {["w" := sample_log]} [] [])
  = Some (Ret (seal_page (replicate 512 7))).
Proof.
  transitivity (Ret (A := Bytes) <$> newest 3 (take 2 (total_images [sample_tx]))); [|reflexivity].
  apply (wal_snapshot_read 512 (replicate 16 171) "w" sample_wal_header [sample_tx]
    (wal_of 512 "w" sample_wal_header [sample_tx]) (reboot {["w" := sample_log]} [] []) 3 2 sample_tx
    (wal_of 512 "w" sample_wal_header [sample_tx]) (reboot ∅ [] [])); [exact sample_wal_inv | reflexivity].
Defined.
