(* ===== verification/LocalTime.v ===== *)
(** Local wall-clock arithmetic (modules/punchline/src/localtime.cpp).

    Every punch carries the wall clock the device showed; pay periods and
    schedules are defined on the local days computed here.  Integer division
    is C++'s, [Z.quot] and [Z.rem].  The file shows that [days_from_civil]
    counts calendar days, that [parse_local_time] accepts exactly the wire
    form of a valid wall-clock time, and that a printed day parses back. *)

From S2P Require Import Prelude Bytes.
From stdpp Require Import base numbers list strings.
Open Scope Z_scope.

(** * The code *)

Record LocalTime := mkLocalTime {
  year : Z; month : Z; day : Z; hour : Z; minute : Z; second : Z;
  local_day : Z;
  weekday : Z;
  minute_of_day : Z
}.

Definition days_from_civil (y m d : Z) : Z :=
  let y := y - Z.b2z (m <=? 2) in
  let era := (if 0 <=? y then y else y - 399) `quot` 400 in
  let yoe := y - era * 400 in
  let doy := (153 * (m + (if 2 <? m then -3 else 9)) + 2) `quot` 5 + d - 1 in
  let doe := yoe * 365 + yoe `quot` 4 - yoe `quot` 100 + doy in
  era * 146097 + doe - 719468.

Definition weekday_of_day (local_day : Z) : Z :=
  let w := (local_day + 4) `rem` 7 in
  if w <? 0 then w + 7 else w.

(** [static_cast<int>] of an [int64_t]. *)
Definition to_int (z : Z) : Z := (z + 2 ^ 31) mod 2 ^ 32 - 2 ^ 31.

(** [snprintf] with [%0<width>d] or [%0<width>lld]: the decimal digits, a minus
    sign first, padded with zeros to the width.  A 64-bit number has at most
    19 digits. *)
Fixpoint decimal (fuel : nat) (z : Z) (acc : Bytes) : Bytes :=
  match fuel with
  | O => acc
  | S fuel =>
      let acc := (48 + z mod 10) :: acc in
      if z <? 10 then acc else decimal fuel (z / 10) acc
  end.
Definition printf_0d (width : nat) (z : Z) : Bytes :=
  let sign := if z <? 0 then [45] else [] in
  let digits := decimal 19 (Z.abs z) [] in
  sign ++ replicate (width - length sign - length digits) 48 ++ digits.

(** The civil date [format_local_day] computes. *)
Definition civil_from_days (z : Z) : Z * Z * Z :=
  let z := z + 719468 in
  let era := (if 0 <=? z then z else z - 146096) `quot` 146097 in
  let doe := z - era * 146097 in
  let yoe := (doe - doe `quot` 1460 + doe `quot` 36524 - doe `quot` 146096) `quot` 365 in
  let y := yoe + era * 400 in
  let doy := doe - (365 * yoe + yoe `quot` 4 - yoe `quot` 100) in
  let mp := (5 * doy + 2) `quot` 153 in
  let d := doy - (153 * mp + 2) `quot` 5 + 1 in
  let m := mp + (if mp <? 10 then 3 else -9) in
  (y + Z.b2z (m <=? 2), m, d).

Definition format_local_day (z : Z) : Bytes :=
  let '(y, m, d) := civil_from_days z in
  printf_0d 4 (to_int y) ++ [45] ++ printf_0d 2 (to_int m) ++ [45] ++ printf_0d 2 (to_int d).

(** The lambda [num]: the decimal number in [s] at [at, at + len). *)
Fixpoint num_loop (s : Bytes) (at_ len : nat) (out : Z) : option Z :=
  match len with
  | O => Some out
  | S len =>
      let c := byte_at s at_ in
      if (c <? 48) || (57 <? c) then None else num_loop s (S at_) len (out * 10 + (c - 48))
  end.
Definition num (s : Bytes) (at_ len : nat) : option Z := num_loop s at_ len 0.

Definition days_in_month : list Z := [31; 29; 31; 30; 31; 30; 31; 31; 30; 31; 30; 31].
Definition leap (y : Z) : bool :=
  ((y `rem` 4 =? 0) && negb (y `rem` 100 =? 0)) || (y `rem` 400 =? 0).

Definition wire_error {A} : Result A := invalid_argument "local_time must be YYYY-MM-DDTHH:MM:SS".

Definition parse_local_time (s : Bytes) : Result LocalTime :=
  if negb (length s =? 19)%nat || negb (byte_at s 4 =? 45) || negb (byte_at s 7 =? 45)
     || negb (byte_at s 10 =? 84) || negb (byte_at s 13 =? 58) || negb (byte_at s 16 =? 58)
  then wire_error
  else
  match num s 0 4, num s 5 2, num s 8 2, num s 11 2, num s 14 2, num s 17 2 with
  | Some y, Some mo, Some d, Some h, Some mi, Some sec =>
      if (y <? 1970) || (9999 <? y) || (mo <? 1) || (12 <? mo) || (d <? 1)
         || (nth (Z.to_nat (mo - 1)) days_in_month 0 - (if (mo =? 2) && negb (leap y) then 1 else 0) <? d)
         || (23 <? h) || (59 <? mi) || (60 <? sec)
      then invalid_argument "local_time is not a valid wall-clock time"
      else
        let ld := days_from_civil y mo d in
        Ret (mkLocalTime y mo d h mi sec ld (weekday_of_day ld) (h * 60 + mi))
  | _, _, _, _, _, _ => wire_error
  end.

(** * The calendar *)

Definition month_length (y m : Z) : Z :=
  match m with
  | 4 | 6 | 9 | 11 => 30
  | 2 => if leap y then 29 else 28
  | _ => 31
  end.

Definition valid_date (y m d : Z) : Prop := 1 <= m <= 12 /\ 1 <= d <= month_length y m.

(** The day after a date: the Gregorian calendar. *)
Definition next_day (y m d : Z) : Z * Z * Z :=
  if d <? month_length y m then (y, m, d + 1)
  else if m <? 12 then (y, m + 1, 1) else (y + 1, 1, 1).

(** The decimal digits of a number below [10 ^ n]. *)
Fixpoint digits (n : nat) (z : Z) : Bytes :=
  match n with O => [] | S n => digits n (z / 10) ++ [48 + z mod 10] end.

(** The wire form YYYY-MM-DDTHH:MM:SS of the six fields. *)
Definition wire_form (t : LocalTime) : Bytes :=
  digits 4 (year t) ++ [45] ++ digits 2 (month t) ++ [45] ++ digits 2 (day t) ++ [84]
  ++ digits 2 (hour t) ++ [58] ++ digits 2 (minute t) ++ [58] ++ digits 2 (second t).

(** The suffix T00:00:00 the request handlers add to a day. *)
Definition midnight : Bytes := [84; 48; 48; 58; 48; 48; 58; 48; 48].

Definition valid_time (t : LocalTime) : Prop :=
  1970 <= year t <= 9999 /\ valid_date (year t) (month t) (day t) /\
  0 <= hour t <= 23 /\ 0 <= minute t <= 59 /\ 0 <= second t <= 60 /\
  local_day t = days_from_civil (year t) (month t) (day t) /\
  weekday t = weekday_of_day (local_day t) /\
  minute_of_day t = hour t * 60 + minute t.
#[export] Instance valid_time_dec t : Decision (valid_time t).
Proof. unfold valid_time, valid_date. apply _. Defined.

Lemma month_cases m (P : Z -> Prop) :
  1 <= m <= 12 -> Forall P [1; 2; 3; 4; 5; 6; 7; 8; 9; 10; 11; 12] -> P m.
Proof.
  intros Hm HP. rewrite List.Forall_forall in HP. apply HP. simpl. lia.
Qed.

Lemma leap_true y : leap y = true -> (y mod 4 = 0 /\ y mod 100 <> 0) \/ y mod 400 = 0.
Proof. unfold leap. intros H. Z.to_euclidean_division_equations. lia. Qed.
Lemma leap_false y : leap y = false -> (y mod 4 <> 0 \/ y mod 100 = 0) /\ y mod 400 <> 0.
Proof. unfold leap. intros H. Z.to_euclidean_division_equations. lia. Qed.

(** The count of days before March of year [y], eras written out. *)
Lemma days_from_civil_eq y m d :
  1 <= m <= 12 ->
  let y' := if m <=? 2 then y - 1 else y in
  days_from_civil y m d =
  365 * y' + y' / 4 - y' / 100 + y' / 400
  + (153 * (m + (if 2 <? m then -3 else 9)) + 2) / 5 + d - 1 - 719468.
Proof.
  intros Hm. cbn zeta. unfold days_from_civil.
  assert (E : forall z, (if 0 <=? z then z else z - 399) `quot` 400 = z / 400).
  { intros z. destruct (0 <=? z) eqn:Hz; breflect; Z.to_euclidean_division_equations; lia. }
  rewrite E. replace (y - Z.b2z (m <=? 2)) with (if m <=? 2 then y - 1 else y)
    by (destruct (m <=? 2); simpl; lia).
  set (z := if m <=? 2 then y - 1 else y). clearbody z.
  assert (Hr : 0 <= z - z / 400 * 400 < 400) by (Z.to_euclidean_division_equations; lia).
  rewrite !Z.quot_div_nonneg by (destruct (2 <? m) eqn:?; breflect; lia).
  assert ((z - z / 400 * 400) / 4 = z / 4 - 100 * (z / 400)) as -> by (Z.to_euclidean_division_equations; lia).
  assert ((z - z / 400 * 400) / 100 = z / 100 - 4 * (z / 400)) as -> by (Z.to_euclidean_division_equations; lia).
  lia.
Qed.

Lemma month_length_bounds y m : 28 <= month_length y m <= 31.
Proof. unfold month_length. repeat case_match; lia. Qed.

Lemma days_from_civil_month_end y m :
  1 <= m <= 12 ->
  (if m <? 12 then days_from_civil y (m + 1) 1 else days_from_civil (y + 1) 1 1)
  = days_from_civil y m (month_length y m) + 1.
Proof.
  intros Hm. apply (month_cases m (fun m =>
    (if m <? 12 then days_from_civil y (m + 1) 1 else days_from_civil (y + 1) 1 1)
    = days_from_civil y m (month_length y m) + 1)); [done|].
  repeat apply Forall_cons_2; try apply Forall_nil_2; cbn -[days_from_civil month_length Z.add];
    rewrite !days_from_civil_eq by lia; simpl; try lia.
  all: destruct (leap y) eqn:Hl; [apply leap_true in Hl|apply leap_false in Hl];
    Z.to_euclidean_division_equations; lia.
Qed.

Lemma days_from_civil_next y m d :
  valid_date y m d ->
  let '(y', m', d') := next_day y m d in
  valid_date y' m' d' /\ days_from_civil y' m' d' = days_from_civil y m d + 1.
Proof.
  intros [Hm Hd]. unfold next_day, valid_date.
  destruct (d <? month_length y m) eqn:E; breflect.
  { split; [lia|]. rewrite !days_from_civil_eq by lia. cbn zeta. lia. }
  assert (d = month_length y m) as -> by lia.
  rewrite <- days_from_civil_month_end by lia.
  pose proof (month_length_bounds y (m + 1)). pose proof (month_length_bounds (y + 1) 1).
  destruct (m <? 12) eqn:?; breflect; split; lia.
Qed.

(** ** From a day to its date *)

Lemma civil_year doe :
  0 <= doe < 146097 ->
  let yoe := (doe - doe / 1460 + doe / 36524 - doe / 146096) / 365 in
  let doy := doe - (365 * yoe + yoe / 4 - yoe / 100) in
  0 <= yoe < 400 /\ 0 <= doy <= 365 /\
  (doy = 365 -> (yoe mod 4 = 3 /\ yoe mod 100 <> 99) \/ yoe = 399).
Proof.
  intros H. cbn zeta.
  set (yoe := (doe - doe / 1460 + doe / 36524 - doe / 146096) / 365).
  assert (0 <= yoe < 400) by (unfold yoe; Z.to_euclidean_division_equations; lia).
  split; [done|]. unfold yoe in *. clear yoe.
  Z.to_euclidean_division_equations. lia.
Qed.

Lemma civil_month doy :
  0 <= doy <= 365 ->
  let mp := (5 * doy + 2) / 153 in
  let d := doy - (153 * mp + 2) / 5 + 1 in
  0 <= mp <= 11 /\ 1 <= d /\ doy = (153 * mp + 2) / 5 + d - 1 /\
  d <= (match mp with 1 | 3 | 6 | 8 => 30 | 11 => 29 | _ => 31 end) /\
  (mp = 11 -> d = 29 -> doy = 365).
Proof.
  intros H. cbn zeta. set (mp := (5 * doy + 2) / 153).
  assert (Hb : 153 * mp <= 5 * doy + 2 < 153 * mp + 153) by (unfold mp; Z.to_euclidean_division_equations; lia).
  assert (Hmp : 0 <= mp <= 11) by lia. clearbody mp.
  assert (Hc : 1 <= mp + 1 <= 12) by lia. replace mp with (mp + 1 - 1) in * by lia.
  revert Hc Hb. clear Hmp. generalize (mp + 1). clear mp. intros k Hc. apply (month_cases k (fun k => 153 * (k - 1) <= 5 * doy + 2 < 153 * (k - 1) + 153 ->
    0 <= k - 1 <= 11 /\ 1 <= doy - (153 * (k - 1) + 2) / 5 + 1 /\
    doy = (153 * (k - 1) + 2) / 5 + (doy - (153 * (k - 1) + 2) / 5 + 1) - 1 /\
    doy - (153 * (k - 1) + 2) / 5 + 1 <= (match k - 1 with 1 | 3 | 6 | 8 => 30 | 11 => 29 | _ => 31 end) /\
    (k - 1 = 11 -> doy - (153 * (k - 1) + 2) / 5 + 1 = 29 -> doy = 365))); [lia|].
  repeat apply Forall_cons_2; try apply Forall_nil_2; simpl; intros; repeat split; try lia;
    Z.to_euclidean_division_equations; lia.
Qed.

Lemma leap_of_march_year y :
  (y mod 4 = 3 /\ y mod 100 <> 99) \/ y mod 400 = 399 -> leap (y + 1) = true.
Proof.
  intros H. destruct (leap (y + 1)) eqn:E; [done|]. apply leap_false in E. exfalso.
  Z.to_euclidean_division_equations. lia.
Qed.

(** A year counted from March, a month index from March and a day make a date. *)
Lemma civil_assemble era yoe mp d :
  0 <= yoe < 400 -> 0 <= mp <= 11 -> 1 <= d ->
  d <= (match mp with 1 | 3 | 6 | 8 => 30 | 11 => 29 | _ => 31 end) ->
  (mp = 11 -> d = 29 -> (yoe mod 4 = 3 /\ yoe mod 100 <> 99) \/ yoe = 399) ->
  let m := mp + (if mp <? 10 then 3 else -9) in
  let y := yoe + era * 400 + Z.b2z (m <=? 2) in
  valid_date y m d /\
  days_from_civil y m d =
  era * 146097 + 365 * yoe + yoe / 4 - yoe / 100 + ((153 * mp + 2) / 5 + d - 1) - 719468.
Proof.
  intros Hyoe Hmp Hd Hdm Hleap. cbn zeta.
  set (m := mp + (if mp <? 10 then 3 else -9)).
  assert (Hm : 1 <= m <= 12) by (unfold m; destruct (mp <? 10) eqn:?; breflect; lia).
  assert (Emp : mp = m + (if 2 <? m then -3 else 9)).
  { unfold m. destruct (mp <? 10) eqn:?; breflect; destruct (2 <? _) eqn:?; breflect; lia. }
  split.
  - split; [done|]. clearbody m. subst mp. clear Hmp. revert Hdm Hleap.
    apply (month_cases m (fun m => d <= match m + (if 2 <? m then -3 else 9) with
      1 | 3 | 6 | 8 => 30 | 11 => 29 | _ => 31 end -> (m + (if 2 <? m then -3 else 9) = 11 -> d = 29 ->
      (yoe mod 4 = 3 /\ yoe mod 100 <> 99) \/ yoe = 399) ->
      1 <= d <= month_length (yoe + era * 400 + Z.b2z (m <=? 2)) m)); [done|].
    repeat apply Forall_cons_2; try apply Forall_nil_2; simpl; intros; try lia.
    destruct (leap _) eqn:E; [lia|]. destruct (decide (d = 29)) as [->|]; [|lia].
    rewrite leap_of_march_year in E; [done|]. Z.to_euclidean_division_equations. lia.
  - rewrite days_from_civil_eq by done. cbn zeta. rewrite <- Emp.
    replace (if m <=? 2 then yoe + era * 400 + Z.b2z (m <=? 2) - 1 else yoe + era * 400 + Z.b2z (m <=? 2))
      with (yoe + era * 400) by (destruct (m <=? 2); simpl; lia).
    replace ((yoe + era * 400) / 4) with (yoe / 4 + era * 100) by (Z.to_euclidean_division_equations; lia).
    replace ((yoe + era * 400) / 100) with (yoe / 100 + era * 4) by (Z.to_euclidean_division_equations; lia).
    replace ((yoe + era * 400) / 400) with era by (Z.to_euclidean_division_equations; lia).
    lia.
Qed.

Lemma civil_from_days_correct z :
  let '(y, m, d) := civil_from_days z in valid_date y m d /\ days_from_civil y m d = z.
Proof.
  unfold civil_from_days.
  assert (E : (if 0 <=? z + 719468 then z + 719468 else z + 719468 - 146096) `quot` 146097
              = (z + 719468) / 146097).
  { destruct (0 <=? z + 719468) eqn:?; breflect; Z.to_euclidean_division_equations; lia. }
  rewrite E. set (era := (z + 719468) / 146097).
  assert (Hdoe : 0 <= z + 719468 - era * 146097 < 146097) by (unfold era; Z.to_euclidean_division_equations; lia).
  set (doe := z + 719468 - era * 146097) in *.
  rewrite (Z.quot_div_nonneg doe 1460), (Z.quot_div_nonneg doe 36524), (Z.quot_div_nonneg doe 146096) by lia.
  pose proof (civil_year doe Hdoe) as (Hyoe & Hdoy & Hleap). cbn zeta in *.
  rewrite (Z.quot_div_nonneg (doe - _ + _ - _)) by (Z.to_euclidean_division_equations; lia).
  set (yoe := (doe - doe / 1460 + doe / 36524 - doe / 146096) / 365) in *.
  rewrite (Z.quot_div_nonneg yoe 4), (Z.quot_div_nonneg yoe 100) by lia.
  set (doy := doe - (365 * yoe + yoe / 4 - yoe / 100)) in *.
  rewrite (Z.quot_div_nonneg (5 * doy + 2)) by lia.
  pose proof (civil_month doy Hdoy) as (Hmp & Hd & Edoy & Hdm & Hfeb). cbn zeta in *.
  set (mp := (5 * doy + 2) / 153) in *.
  rewrite (Z.quot_div_nonneg (153 * mp + 2)) by lia.
  set (d := doy - (153 * mp + 2) / 5 + 1) in *.
  assert (Ez : z = era * 146097 + 365 * yoe + yoe / 4 - yoe / 100 + doy - 719468) by (unfold doy, doe; lia).
  destruct (civil_assemble era yoe mp d Hyoe Hmp Hd Hdm) as [Hv E']; [intros; apply Hleap; auto|].
  split; [exact Hv|]. rewrite E'. lia.
Qed.

(** ** Digits *)

Lemma digits_length n z : length (digits n z) = n.
Proof. revert z. induction n; intros; simpl; rewrite ?length_app, ?IHn; simpl; lia. Qed.

Lemma num_loop_ext s at_ len out s' at' :
  (forall i, (i < len)%nat -> byte_at s (at_ + i) = byte_at s' (at' + i)) ->
  num_loop s at_ len out = num_loop s' at' len out.
Proof.
  revert at_ at' out. induction len as [|len IH]; intros at_ at' out H; simpl; [done|].
  pose proof (H 0%nat ltac:(lia)) as H0. rewrite !Nat.add_0_r in H0. rewrite H0.
  destruct (_ || _); [done|]. apply IH. intros i Hi.
  replace (S at_ + i)%nat with (at_ + S i)%nat by lia. replace (S at' + i)%nat with (at' + S i)%nat by lia.
  apply H. lia.
Qed.

Lemma num_loop_cons a t k out :
  num_loop (a :: t) 0 (S k) out =
  if (a <? 48) || (57 <? a) then None else num_loop t 0 k (out * 10 + (a - 48)).
Proof.
  cbn [num_loop]. unfold byte_at at 1 2 3. cbn [nth]. destruct (_ || _); [done|].
  apply num_loop_ext. intros. unfold byte_at. replace (1 + i)%nat with (S i) by lia. done.
Qed.

Lemma num_loop_snoc l c out :
  num_loop (l ++ [c]) 0 (S (length l)) out =
  match num_loop l 0 (length l) out with
  | Some v => if (c <? 48) || (57 <? c) then None else Some (v * 10 + (c - 48))
  | None => None
  end.
Proof.
  revert out. induction l as [|a l IH]; intros out; [done|].
  change ((a :: l) ++ [c]) with (a :: (l ++ [c])). cbn [length].
  rewrite !num_loop_cons. destruct ((a <? 48) || (57 <? a)); [done|]. apply IH.
Qed.

(** [num] reads the digits of a number and rejects everything else. *)
Lemma num_digits l v :
  num_loop l 0 (length l) 0 = Some v <-> 0 <= v < 10 ^ Z.of_nat (length l) /\ l = digits (length l) v.
Proof.
  revert v. induction l as [|c l IH] using rev_ind; intros v.
  { simpl. split; [intros [= <-]; split; [lia|done]|intros [? _]; f_equal; lia]. }
  rewrite length_app. cbn [length]. rewrite Nat.add_1_r, num_loop_snoc, Nat2Z.inj_succ, Z.pow_succ_r by lia.
  cbn [digits]. split.
  - destruct (num_loop l _ _ _) as [u|]; [|done]. destruct (_ || _) eqn:Hc; [done|]. breflect.
    intros [= <-]. destruct (proj1 (IH u) eq_refl) as [Hu El].
    replace ((u * 10 + (c - 48)) / 10) with u by (Z.to_euclidean_division_equations; lia).
    replace ((u * 10 + (c - 48)) mod 10) with (c - 48) by (Z.to_euclidean_division_equations; lia).
    split; [lia|]. rewrite <- El. do 2 f_equal. lia.
  - intros [Hv E]. apply app_inj_tail in E as [El ->].
    rewrite (proj2 (IH (v / 10))); [|split; [Z.to_euclidean_division_equations; lia|done]].
    destruct (_ || _) eqn:Hc.
    { apply orb_true_iff in Hc. breflect. exfalso. pose proof (Z.mod_pos_bound v 10). lia. }
    f_equal. Z.to_euclidean_division_equations; lia.
Qed.

Lemma num_sub s at_ len :
  (at_ + len <= length s)%nat -> num s at_ len = num_loop (sub at_ len s) 0 (length (sub at_ len s)) 0.
Proof.
  intros H. unfold num. rewrite length_sub, Nat.min_l by lia. apply num_loop_ext.
  intros i Hi. rewrite byte_at_sub by lia. done.
Qed.

Lemma num_spec s at_ len v :
  (at_ + len <= length s)%nat ->
  num s at_ len = Some v <-> 0 <= v < 10 ^ Z.of_nat len /\ sub at_ len s = digits len v.
Proof. intros H. rewrite num_sub, num_digits, length_sub, Nat.min_l by lia. done. Qed.

(** Cutting the wire form into its fields. *)
Definition field_layout (s : Bytes) : Bytes :=
  sub 0 4 s ++ [byte_at s 4] ++ sub 5 2 s ++ [byte_at s 7] ++ sub 8 2 s ++ [byte_at s 10]
  ++ sub 11 2 s ++ [byte_at s 13] ++ sub 14 2 s ++ [byte_at s 16] ++ sub 17 2 s.
Lemma field_layout_eq s : length s = 19%nat -> field_layout s = s.
Proof. intros H. do 19 (destruct s as [|? s]; [done|]). destruct s; [done|done]. Qed.

Lemma field_layout_inj a1 c1 a2 c2 a3 c3 a4 c4 a5 c5 a6 :
  length a1 = 4%nat -> length a2 = 2%nat -> length a3 = 2%nat -> length a4 = 2%nat ->
  length a5 = 2%nat -> length a6 = 2%nat ->
  let s := a1 ++ [c1] ++ a2 ++ [c2] ++ a3 ++ [c3] ++ a4 ++ [c4] ++ a5 ++ [c5] ++ a6 in
  length s = 19%nat /\
  (sub 0 4 s = a1 /\ sub 5 2 s = a2 /\ sub 8 2 s = a3 /\ sub 11 2 s = a4 /\ sub 14 2 s = a5 /\ sub 17 2 s = a6) /\
  (byte_at s 4 = c1 /\ byte_at s 7 = c2 /\ byte_at s 10 = c3 /\ byte_at s 13 = c4 /\ byte_at s 16 = c5).
Proof.
  intros. cbn zeta.
  repeat match goal with H : length ?l = _ |- _ =>
    is_var l; destruct l as [|? l]; simplify_eq/=; try done end.
Qed.

Lemma month_limit y m :
  1 <= m <= 12 ->
  nth (Z.to_nat (m - 1)) days_in_month 0 - (if (m =? 2) && negb (leap y) then 1 else 0) = month_length y m.
Proof.
  intros Hm. apply (month_cases m (fun m =>
    nth (Z.to_nat (m - 1)) days_in_month 0 - (if (m =? 2) && negb (leap y) then 1 else 0) = month_length y m)); [done|].
  repeat apply Forall_cons_2; try apply Forall_nil_2; simpl; try done. by destruct (leap y).
Qed.

(** The guard of the second rejection. *)
Lemma wall_clock_guard y mo d h mi sec :
  (y <? 1970) || (9999 <? y) || (mo <? 1) || (12 <? mo) || (d <? 1)
  || (nth (Z.to_nat (mo - 1)) days_in_month 0 - (if (mo =? 2) && negb (leap y) then 1 else 0) <? d)
  || (23 <? h) || (59 <? mi) || (60 <? sec) = false <->
  1970 <= y <= 9999 /\ valid_date y mo d /\ h <= 23 /\ mi <= 59 /\ sec <= 60.
Proof.
  unfold valid_date. rewrite !orb_false_iff, !Z.ltb_ge. split.
  - intros [[[[[[[[? ?] ?] ?] ?] Hd] ?] ?] ?]. rewrite month_limit in Hd by lia. lia.
  - intros (? & [? ?] & ?). rewrite month_limit by lia. lia.
Qed.

Lemma decimal_acc f z acc : decimal f z acc = decimal f z [] ++ acc.
Proof.
  revert z acc. induction f as [|f IH]; intros z acc; simpl; [done|].
  destruct (z <? 10); [done|]. rewrite IH, (IH _ [_]). by rewrite <- app_assoc.
Qed.

Lemma decimal_fuel n f z acc :
  (1 <= n <= f)%nat -> 0 <= z < 10 ^ Z.of_nat n -> decimal f z acc = decimal n z acc.
Proof.
  revert f z acc. induction n as [|n IH]; intros f z acc Hn Hz; [lia|].
  destruct f as [|f]; [lia|]. cbn [decimal]. destruct (z <? 10) eqn:E; breflect; [done|].
  rewrite Nat2Z.inj_succ, Z.pow_succ_r in Hz by lia.
  destruct n as [|n]; [simpl in Hz; lia|].
  apply IH; [lia|]. Z.to_euclidean_division_equations. lia.
Qed.

Lemma digits_zero n : digits n 0 = replicate n 48.
Proof.
  induction n as [|n IH]; [done|]. cbn [digits]. rewrite Z.div_0_l, IH by lia.
  change (48 + 0 mod 10) with 48. by rewrite <- replicate_cons_app.
Qed.

Lemma digits_decimal n z :
  (1 <= n)%nat -> 0 <= z < 10 ^ Z.of_nat n ->
  replicate (n - length (decimal n z [])) 48 ++ decimal n z [] = digits n z.
Proof.
  revert z. induction n as [|n IH]; intros z Hn Hz; [lia|].
  rewrite Nat2Z.inj_succ, Z.pow_succ_r in Hz by lia.
  cbn [decimal digits]. destruct (z <? 10) eqn:E; breflect.
  - replace (z / 10) with 0 by (Z.to_euclidean_division_equations; lia).
    rewrite digits_zero. do 2 f_equal. simpl. lia.
  - destruct n as [|n]; [simpl in Hz; lia|].
    rewrite decimal_acc, length_app, app_assoc. f_equal. cbn [length].
    rewrite <- (IH (z / 10)) by (Z.to_euclidean_division_equations; lia).
    do 2 f_equal. lia.
Qed.

Lemma printf_digits n z :
  (1 <= n <= 10)%nat -> 0 <= z < 10 ^ Z.of_nat n -> printf_0d n z = digits n z.
Proof.
  intros Hn Hz. unfold printf_0d. destruct (z <? 0) eqn:E; breflect; [lia|].
  rewrite Z.abs_eq, (decimal_fuel n) by lia. cbn [app length]. rewrite Nat.sub_0_r.
  apply digits_decimal; lia.
Qed.

Lemma to_int_id z : - 2 ^ 31 <= z < 2 ^ 31 -> to_int z = z.
Proof. intros. unfold to_int. rewrite Z.mod_small; lia. Qed.

Lemma days_from_civil_year y m d :
  valid_date y m d -> days_from_civil y 1 1 <= days_from_civil y m d < days_from_civil (y + 1) 1 1.
Proof.
  intros [Hm Hd]. pose proof (month_length_bounds y m).
  assert (Hd' : 1 <= d <= 31) by lia.
  apply (month_cases m (fun m =>
    days_from_civil y 1 1 <= days_from_civil y m d < days_from_civil (y + 1) 1 1)); [done|].
  repeat apply Forall_cons_2; try apply Forall_nil_2; rewrite !days_from_civil_eq by lia; simpl;
    clear Hd; Z.to_euclidean_division_equations; lia.
Qed.

Lemma days_from_civil_mono y y' : y <= y' -> days_from_civil y 1 1 <= days_from_civil y' 1 1.
Proof. intros H. rewrite !days_from_civil_eq by lia. simpl. Z.to_euclidean_division_equations. lia. Qed.

Lemma weekday_next z : weekday_of_day (z + 1) = (weekday_of_day z + 1) mod 7.
Proof.
  assert (E : forall z, weekday_of_day z = (z + 4) mod 7).
  { intros x. unfold weekday_of_day. destruct (_ <? 0) eqn:?; breflect; Z.to_euclidean_division_equations; lia. }
  rewrite !E. Z.to_euclidean_division_equations. lia.
Qed.

(** * Properties *)

(** [days_from_civil] counts calendar days: the epoch is day 0, a
    Thursday, and the Gregorian successor of every valid date of every year
    has the next day number and the next weekday. *)
Theorem days_from_civil_counts y m d :
  valid_date y m d ->
  days_from_civil 1970 1 1 = 0 /\ weekday_of_day 0 = 4 /\
  let '(y', m', d') := next_day y m d in
  valid_date y' m' d' /\
  days_from_civil y' m' d' = days_from_civil y m d + 1 /\
  weekday_of_day (days_from_civil y' m' d') = (weekday_of_day (days_from_civil y m d) + 1) mod 7.
Proof.
  intros H. split; [done|]. split; [done|].
  pose proof (days_from_civil_next y m d H) as Hn. destruct (next_day y m d) as [[y' m'] d'].
  destruct Hn as [? E]. rewrite E. auto using weekday_next.
Qed.

Lemma days_from_civil_counts_witness :
  valid_date 2024 2 29 /\ next_day 2024 2 29 = (2024, 3, 1) /\
  days_from_civil 2024 3 1 = days_from_civil 2024 2 29 + 1.
Proof.
  assert (H : valid_date 2024 2 29) by (vm_compute; split; split; discriminate).
  split; [exact H|]. split; [reflexivity|].
  exact (proj1 (proj2 (proj2 (proj2 (days_from_civil_counts 2024 2 29 H))))).
Defined.

Lemma parse_accepts s t : parse_local_time s = Ret t -> valid_time t /\ s = wire_form t.
Proof.
  unfold parse_local_time, valid_time, wire_form.
  intros H. destruct (_ || _) eqn:G in H; [done|]. apply orb_false_iff in G as [G G16].
  repeat (apply orb_false_iff in G as [G ?]). breflect.
  do 6 (match type of H with match ?n with _ => _ end = _ => destruct n eqn:? in H end; [|done]).
  match type of H with (if ?b then _ else _) = _ => destruct b eqn:W in H end; [done|].
  apply wall_clock_guard in W. injection H as <-. simpl.
  repeat match goal with H : num _ _ _ = Some _ |- _ => apply num_spec in H as [? ?]; [|lia] end.
  destruct W as (? & Hv & ? & ? & ?). split; [repeat (split; [done || lia|]); done|].
  rewrite <- (field_layout_eq s) by done. unfold field_layout.
  repeat match goal with H : sub _ _ s = _ |- _ => rewrite H; clear H
    | H : byte_at s _ = _ |- _ => rewrite H; clear H end. done.
Qed.
Lemma parse_wire_form t : valid_time t -> parse_local_time (wire_form t) = Ret t.
Proof.
  unfold parse_local_time, valid_time, wire_form.
  intros (Hy & Hd & Hh & Hmi & Hs & El & Ew & Em). destruct t as [y mo d h mi sec ld wd md].
  cbn [year month day hour minute second local_day weekday minute_of_day] in *. subst ld wd md.
  pose proof (month_length_bounds y mo).
  edestruct (field_layout_inj (digits 4 y) 45 (digits 2 mo) 45 (digits 2 d) 84 (digits 2 h) 58 (digits 2 mi) 58 (digits 2 sec))
    as (Hl & (F1 & F2 & F3 & F4 & F5 & F6) & B1 & B2 & B3 & B4 & B5); try apply digits_length.
  set (s := digits 4 y ++ _) in *. rewrite Hl, B1, B2, B3, B4, B5. simpl negb. cbn [orb].
  unfold valid_date in *.
  rewrite (proj2 (num_spec s 0 4 y ltac:(lia))) by (split; [lia|done]).
  rewrite (proj2 (num_spec s 5 2 mo ltac:(lia))) by (split; [lia|done]).
  rewrite (proj2 (num_spec s 8 2 d ltac:(lia))) by (split; [lia|done]).
  rewrite (proj2 (num_spec s 11 2 h ltac:(lia))) by (split; [lia|done]).
  rewrite (proj2 (num_spec s 14 2 mi ltac:(lia))) by (split; [lia|done]).
  rewrite (proj2 (num_spec s 17 2 sec ltac:(lia))) by (split; [lia|done]).
  rewrite (proj2 (wall_clock_guard y mo d h mi sec)); [done|]. unfold valid_date. lia.
Qed.

(** [parse_local_time] accepts exactly the nineteen-byte wire forms of
    valid wall-clock times from 1970 to 9999, leap second 60 included, and
    returns the fields with the day number, the weekday and the minute of the
    day they determine; everything else is an error. *)
Theorem parse_local_time_iff s t :
  parse_local_time s = Ret t <-> valid_time t /\ s = wire_form t.
Proof. split; [apply parse_accepts|]. intros [Hv ->]. by apply parse_wire_form. Qed.

(** A local day printed by [format_local_day] and given a time of day is
    the wire form of that day: parsing it returns the same day number, for
    every day of the supported years 1970 to 9999. *)
Theorem format_parse_roundtrip z :
  0 <= z < days_from_civil 10000 1 1 ->
  exists t, parse_local_time (format_local_day z ++ midnight) = Ret t /\ local_day t = z.
Proof.
  intros Hz. unfold format_local_day. pose proof (civil_from_days_correct z) as Hc.
  destruct (civil_from_days z) as [[y m] d]. destruct Hc as [Hv E].
  pose proof (days_from_civil_year y m d Hv) as Hy. pose proof (month_length_bounds y m).
  assert (Hr : 1970 <= y <= 9999).
  { split; apply Znot_gt_le; intros Hg.
    - pose proof (days_from_civil_mono (y + 1) 1970 ltac:(lia)) as Hm.
      change (days_from_civil 1970 1 1) with 0 in Hm. lia.
    - pose proof (days_from_civil_mono 10000 y ltac:(lia)). lia. }
  exists (mkLocalTime y m d 0 0 0 z (weekday_of_day z) 0). split; [|done].
  destruct Hv as [Hm Hd]. rewrite <- (parse_wire_form (mkLocalTime y m d 0 0 0 z (weekday_of_day z) 0))
    by (unfold valid_time, valid_date; simpl; lia).
  f_equal. unfold wire_form. simpl year. simpl month. simpl day.
  rewrite !to_int_id, !printf_digits by (simpl; lia). by rewrite <- !app_assoc.
Qed.

Lemma format_parse_roundtrip_witness :
  exists t, parse_local_time (format_local_day 19782 ++ midnight) = Ret t /\ local_day t = 19782.
Proof. apply (format_parse_roundtrip 19782). vm_compute. split; [discriminate|reflexivity]. Defined.
