(* ===== verification/VfsFrame.v ===== *)
(** Several files in one filesystem: an operation on one file leaves the
    others alone.

    [untouched path w w'] says that nothing the process sees of a file, nothing
    the disk holds of it and nothing pending on it has changed; [leaves] and
    [keeps] say so of a whole computation, [keeps] for a file with nothing
    pending (a directory sync may persist the creation of one that has).
    [triple_frame] adds such a file to a Hoare triple. *)

From S2P Require Import Prelude Bytes Vfs.
From stdpp Require Import base numbers list gmap strings.
Open Scope Z_scope.

Definition untouched (path : string) (w w' : World) : Prop :=
  calm w w' /\ cache w' !! path = cache w !! path /\ durable w' !! path = durable w !! path
  /\ ops_on path w' = ops_on path w.

Lemma untouched_refl path w : untouched path w w.
Proof. by split_and!. Qed.
Lemma untouched_trans path w1 w2 w3 : untouched path w1 w2 -> untouched path w2 w3 -> untouched path w1 w3.
Proof. intros (?&?&?&?) (?&?&?&?). split_and!; try congruence. by eapply calm_trans. Qed.
Lemma untouched_same path w w' : same_files w w' -> untouched path w w'.
Proof. intros (H1 & H2 & H3 & H4). unfold untouched, ops_on. rewrite H1, H2, H3. by split_and!. Qed.
Lemma untouched_crash path w w' b : untouched path w w' -> untouched path w (set_crashed w' b).
Proof. done. Qed.
#[export] Hint Resolve untouched_refl untouched_same untouched_crash : archivum.

Lemma elem_of_ops_on op path w : op ∈ ops_on path w <-> op ∈ pending w /\ touches path op = true.
Proof. unfold ops_on. rewrite !list_elem_of_In, filter_In. done. Qed.

Lemma disk_safe_untouched D path w w' : untouched path w w' -> disk_safe D path w -> disk_safe D path w'.
Proof.
  intros (_ & _ & Hd & Ho) [HD Hs]. split; [by rewrite Hd|].
  intros op cut d Hop Hq. destruct (touches path op) eqn:Ht.
  - apply (Hs op cut d); [|done].
    assert (op ∈ ops_on path w') as Hin by (by apply elem_of_ops_on). rewrite Ho in Hin.
    apply elem_of_ops_on in Hin. apply Hin.
  - by rewrite apply_op_other by (by rewrite touches_torn).
Qed.

Lemma synced_untouched path b w w' :
  untouched path w w' -> is_crashed w' = false -> synced path b w -> synced path b w'.
Proof. intros (_ & Hc & Hd & Ho) Hcr (_ & ? & ? & ?). unfold synced. by rewrite Hc, Hd, Ho. Qed.

Lemma dirty_untouched D path b w w' :
  untouched path w w' -> is_crashed w' = false -> dirty D path b w -> dirty D path b w'.
Proof.
  intros Hu Hcr (_ & Hc & Hco & Hd). pose proof (disk_safe_untouched _ _ _ _ Hu Hd).
  destruct Hu as (_ & H1 & H2 & H3). unfold dirty, coherent in *. rewrite H1, H2, H3. by destruct Hco; split_and!.
Qed.

Lemma clean_untouched D path b w w' :
  untouched path w w' -> is_crashed w' = false -> clean D path b w -> clean D path b w'.
Proof. intros Hu Hcr [? ?]. split; [by eapply synced_untouched | by eapply disk_safe_untouched]. Qed.

(** ** Primitive changes *)

Lemma untouched_push path op w c :
  touches path op = false -> c !! path = cache w !! path -> untouched path w (push op (set_cache w c)).
Proof.
  intros Ht Hc. unfold untouched, ops_on, push. cbn [cache durable pending set_pending set_cache].
  rewrite List.filter_app. cbn [List.filter]. rewrite Ht, app_nil_r. by split_and!.
Qed.

Lemma persist_other path sel w :
  (forall op, sel op = true -> op ∈ pending w -> touches path op = false) ->
  untouched path w (persist sel w).
Proof.
  intros Hsel. unfold untouched, ops_on, persist. cbn [cache durable pending set_pending set_durable].
  split_and!; try done.
  - assert (forall l d, (forall op, op ∈ l -> op ∈ pending w) ->
      fold_left (fun d op => if sel op then apply_op op d else d) l d !! path = d !! path) as H; [|by apply H].
    induction l as [|op l IH]; intros d Hin; [done|]. cbn [fold_left]. rewrite IH by set_solver.
    destruct (sel op) eqn:E; [|done]. apply apply_op_other. apply Hsel; [done|]. set_solver.
  - assert (forall l, (forall op, op ∈ l -> op ∈ pending w) ->
      List.filter (touches path) (List.filter (fun op => negb (sel op)) l) = List.filter (touches path) l)
      as H; [|by apply H].
    induction l as [|op l IH]; intros Hin; [done|]. cbn [List.filter].
    destruct (sel op) eqn:E; cbn [negb List.filter].
    + rewrite (Hsel op E ltac:(set_solver)). apply IH. set_solver.
    + rewrite IH by set_solver. done.
Qed.

Lemma is_file_op_other path q op : q <> path -> is_file_op q op = true -> touches path op = false.
Proof. intros Hne. destruct op; cbn; intros H; breflect; subst; by rewrite ?bool_decide_eq_false. Qed.

(** * Computations *)

Definition leaves {A} (path : string) (m : M World A) : Prop :=
  forall w r w', m w = (r, w') -> untouched path w w'.
Definition keeps {A} (path : string) (m : M World A) : Prop :=
  forall w r w', m w = (r, w') -> ops_on path w = [] -> untouched path w w'.
(** A value is returned only by a process that is still running. *)
Definition running {A} (m : M World A) : Prop :=
  forall w a w', is_crashed w = false -> m w = (Ret a, w') -> is_crashed w' = false.

Lemma leaves_keeps {A} path (m : M World A) : leaves path m -> keeps path m.
Proof. intros H w r w' E _. by eapply H. Qed.
#[export] Hint Resolve leaves_keeps : archivum.

Ltac consult_step :=
  match goal with
  | |- context [consult ?w] =>
      let d := fresh "d" in let w1 := fresh "w" in let E := fresh "E" in
      destruct (consult w) as [d w1] eqn:E; let Hs := fresh "Hsame" in apply consult_same in E as (Hs & _ & _ & _)
  end.

Lemma leaves_read path q off len : leaves path (file_read q off len).
Proof.
  intros w r w'. unfold file_read. destruct (alive q w); [|intros [= _ <-]; auto with archivum].
  consult_step. intros Hw. destruct d; simplify_eq; auto with archivum.
Qed.

Lemma leaves_size path q : leaves path (file_size q).
Proof. intros w r w'. unfold file_size. destruct (alive q w); intros [= _ <-]; auto with archivum. Qed.

Lemma untouched_record path q off data w w1 :
  q <> path -> same_files w w1 -> untouched path w (record_write q off data w1).
Proof.
  intros Hne Hs. eapply untouched_trans; [by apply untouched_same|]. apply untouched_push.
  - cbn. by apply bool_decide_eq_false.
  - by rewrite lookup_alter_ne.
Qed.

Lemma leaves_write path q off data : q <> path -> leaves path (file_write q off data).
Proof.
  intros Hne w r w'. unfold file_write. destruct (alive q w); [|intros [= _ <-]; auto with archivum].
  consult_step. intros Hw. destruct d; simplify_eq;
    auto with archivum; try apply untouched_crash; by apply untouched_record.
Qed.

Lemma leaves_truncate path q size : q <> path -> leaves path (file_truncate q size).
Proof.
  intros Hne w r w'. unfold file_truncate. destruct (alive q w); [|intros [= _ <-]; auto with archivum].
  consult_step. intros Hw.
  assert (untouched path w (push (PTruncate q size) (set_cache w0 (alter (file_resize size) q (cache w0))))).
  { eapply untouched_trans; [by apply untouched_same|]. apply untouched_push.
    - cbn. by apply bool_decide_eq_false.
    - by rewrite lookup_alter_ne. }
  destruct d; simplify_eq; auto with archivum.
Qed.

Lemma leaves_sync path q : q <> path -> leaves path (file_sync q).
Proof.
  intros Hne w r w'. unfold file_sync. destruct (alive q w); [|intros [= _ <-]; auto with archivum].
  consult_step. intros Hw.
  assert (untouched path w (persist_file q w0)).
  { eapply untouched_trans; [by apply untouched_same|]. apply persist_other.
    intros op Hop _. by eapply is_file_op_other. }
  destruct d; simplify_eq; auto with archivum.
Qed.

Lemma leaves_open path q flags : q <> path -> leaves path (vfs_open q flags).
Proof.
  intros Hne w r w'. unfold vfs_open. destruct (is_crashed w); [intros [= _ <-]; auto with archivum|].
  consult_step. intros Hw.
  assert (Hins : forall op c, op = PCreate q \/ op = PTruncate q 0 -> c = <[q := []]> (cache w0) ->
    untouched path w (push op (set_cache w0 c))).
  { intros op c Hop ->. eapply untouched_trans; [by apply untouched_same|]. apply untouched_push.
    - destruct Hop as [->| ->]; cbn; by apply bool_decide_eq_false.
    - by rewrite lookup_insert_ne. }
  repeat split_match_in Hw; simplify_eq; auto with archivum.
Qed.

Lemma leaves_exists path q : leaves path (vfs_exists q).
Proof. intros w r w'. unfold vfs_exists. destruct (is_crashed w); intros [= _ <-]; auto with archivum. Qed.

Lemma leaves_rename path a b : a <> path -> b <> path -> leaves path (vfs_rename a b).
Proof.
  intros Ha Hb w r w'. unfold vfs_rename. destruct (is_crashed w); [intros [= _ <-]; auto with archivum|].
  consult_step. intros Hw.
  assert (Hins : forall x, untouched path w (push (PRename a b) (set_cache w0 (<[b := x]> (delete a (cache w0)))))).
  { intros x. eapply untouched_trans; [by apply untouched_same|]. apply untouched_push.
    - cbn. by rewrite !bool_decide_eq_false_2 by done.
    - by rewrite lookup_insert_ne, lookup_delete_ne. }
  repeat split_match_in Hw; simplify_eq; auto with archivum.
Qed.

Lemma keeps_sync_directory path dir : keeps path (vfs_sync_directory dir).
Proof.
  intros w r w'. unfold vfs_sync_directory. destruct (is_crashed w); [intros [= _ <-]; auto with archivum|].
  consult_step. intros Hw Ho.
  assert (untouched path w (persist_directory w0)).
  { eapply untouched_trans; [by apply untouched_same|]. apply persist_other.
    intros op _ Hin. destruct Hsame as (_ & _ & Hp & _). rewrite Hp in Hin.
    rewrite ops_on_nil, Forall_forall in Ho. auto. }
  destruct d; simplify_eq; auto with archivum.
Qed.

Lemma leaves_salt path : leaves path random_salt.
Proof.
  intros w r w'. unfold random_salt. destruct (entropy w); intros [= _ <-]; auto with archivum.
  apply untouched_same. by split_and!.
Qed.

#[export] Hint Resolve leaves_read leaves_size leaves_write leaves_truncate leaves_sync leaves_open
  leaves_exists leaves_rename keeps_sync_directory leaves_salt : archivum.

(** ** Methods

    [method_keeps I path m]: from an object in [I] the method ends in one in
    [I], and leaves the file alone. *)

Definition method_keeps {S A} (I : S -> Prop) (path : string) (m : M (S * World) A) : Prop :=
  forall s w r s' w', I s -> m (s, w) = (r, (s', w')) ->
    I s' /\ (ops_on path w = [] -> untouched path w w').

Section methods.
Context {S : Type} (I : S -> Prop) (path : string).

Lemma method_onw {A} (m : M World A) : keeps path m -> method_keeps I path (onw m).
Proof.
  intros H s w r s' w' HI Hm. unfold onw in Hm. destruct (m w) as [r1 w1] eqn:E. simplify_eq.
  split; [done|]. by eapply H.
Qed.
Lemma method_ret {A} (a : A) : method_keeps I path (ret a).
Proof. intros s w r s' w' HI [= _ <- <-]. split; [done|]. intros _. apply untouched_refl. Qed.
Lemma method_lift {A} (a : Result A) : method_keeps I path (lift a).
Proof. intros s w r s' w' HI [= _ <- <-]. split; [done|]. intros _. apply untouched_refl. Qed.
Lemma method_modO (f : S -> S) : (forall s, I s -> I (f s)) -> method_keeps I path (modO f).
Proof. intros Hf s w r s' w' HI [= _ <- <-]. split; [by apply Hf|]. intros _. apply untouched_refl. Qed.
Lemma method_bind {A B} (m : M (S * World) A) (k : A -> M (S * World) B) :
  method_keeps I path m -> (forall a, method_keeps I path (k a)) -> method_keeps I path (bind m k).
Proof.
  intros Hm Hk s w r s' w' HI H. unfold bind in H. destruct (m (s, w)) as [[a|e] [s1 w1]] eqn:E.
  - destruct (Hm _ _ _ _ _ HI E) as [HI1 Hu]. destruct (Hk _ _ _ _ _ _ HI1 H) as [HI2 Hu2].
    split; [done|]. intros Ho. specialize (Hu Ho). eapply untouched_trans; [exact Hu|].
    apply Hu2. destruct Hu as (_ & _ & _ & ->). done.
  - simplify_eq. by apply (Hm _ _ _ _ _ HI E).
Qed.
Lemma method_get_bind {A} (k : S -> M (S * World) A) :
  (forall s, I s -> method_keeps I path (k s)) -> method_keeps I path (bind getO k).
Proof. intros Hk s w r s' w' HI H. by apply (Hk s HI s w r). Qed.
Lemma method_attempt {A} (m : M (S * World) A) : method_keeps I path m -> method_keeps I path (attempt m).
Proof.
  intros Hm s w r s' w' HI H. unfold attempt in H. destruct (m (s, w)) as [r1 [s1 w1]] eqn:E.
  simplify_eq. by apply (Hm _ _ _ _ _ HI E).
Qed.
End methods.
#[export] Hint Resolve method_onw method_ret method_lift : archivum.

(** Walks down a method: binds, reads of the object, tests and primitive
    operations. *)
Ltac walk_method :=
  repeat match goal with
  | |- method_keeps _ _ (bind getO _) => apply method_get_bind; intros ? ?
  | |- method_keeps _ _ (bind _ _) => apply method_bind; [|intros ?]
  | |- method_keeps _ _ (attempt _) => apply method_attempt
  | |- method_keeps _ _ (onw _) => apply method_onw
  | |- method_keeps _ _ (ret _) => apply method_ret
  | |- method_keeps _ _ (lift _) => apply method_lift
  | |- method_keeps _ _ (modO _) => apply method_modO; intros ? ?
  | |- method_keeps _ _ (match ?x with _ => _ end) => destruct x eqn:?
  | |- method_keeps _ _ (let '(_, _) := ?x in _) => destruct x eqn:?
  end.

(** A file with nothing pending on it rides along. *)
Lemma triple_frame {S A} (I : S -> Prop) (P E : S -> World -> Prop) (m : M (S * World) A) Q D path b :
  method_keeps I path m -> (forall s w, P s w -> I s) ->
  (forall a s w, Q a s w -> is_crashed w = false) -> triple P m Q E ->
  triple (fun s w => P s w /\ clean D path b w) m
         (fun a s w => Q a s w /\ clean D path b w)
         (fun s w => E s w /\ disk_safe D path w).
Proof.
  intros Hk HI Hcr Hm s w r s' w' Hh [HP Hcl] H.
  pose proof (Hm _ _ _ _ _ Hh HP H) as [Hc Hr]. split; [done|].
  assert (Hu : untouched path w w') by (eapply (Hk s w); [by eapply HI|exact H|apply Hcl]).
  destruct r as [a|e].
  - split; [done|]. eapply clean_untouched; eauto.
  - destruct Hr as [He Hq]. split; [|done]. split; [done|].
    eapply disk_safe_untouched; [exact Hu|apply Hcl].
Qed.
