(* ===== verification/Db.v ===== *)
(** The pager (engine/include/archivum/engine/db.h, engine/src/engine/db.cpp):
    one database file and its log.

    [Db] has the members of [Db] and [Db::Impl]: the log, the reader count,
    the counters and the clean-page cache keyed by (page, frame) with its LRU
    list.  [ReadTxn] and [WriteTxn] are the transaction objects.  A method
    runs in [DM]: the object and the filesystem are threaded through it and
    an early return keeps what was done before it.  The two mutexes make every
    definition below a critical section or a sequence of them; [begin_read]
    is the one method made of two sections, and is split accordingly.

    The wall clock is an argument of [commit]; libsodium's generator is the
    [entropy] of the filesystem world and is taken to be initialised. *)

From stdpp Require Import base numbers list gmap strings sorting.
From S2P Require Import Prelude Bytes Crc32c PageFormat Types Vfs Wal.
Open Scope Z_scope.

(** * The page cache *)

Abbreviation Key := (PageNo * FrameNo)%type.

Record Cache := mkCache {
  entries : gmap Key Bytes;
  lru : list Key;            (* most recently used first *)
  capacity : nat
}.

(** [lru.splice(lru.begin(), lru, it->second.lru)]. *)
Definition to_front (key : Key) (l : list Key) : list Key :=
  key :: filter (fun k => k <> key) l.

Definition cache_get (key : Key) (c : Cache) : option Bytes * Cache :=
  match entries c !! key with
  | None => (None, c)
  | Some data => (Some data, mkCache (entries c) (to_front key (lru c)) (capacity c))
  end.

(** The eviction loop; it runs at most once per list element. *)
Fixpoint evict (fuel : nat) (c : Cache) : Cache :=
  match fuel with
  | O => c
  | S fuel =>
      if (capacity c <? size (entries c))%nat then
        match last (lru c) with
        | None => c
        | Some key => evict fuel (mkCache (delete key (entries c)) (removelast (lru c)) (capacity c))
        end
      else c
  end.

Definition cache_put (key : Key) (data : Bytes) (c : Cache) : Cache :=
  match entries c !! key with
  | Some _ => mkCache (<[key := data]> (entries c)) (to_front key (lru c)) (capacity c)
  | None =>
      let l := key :: lru c in
      evict (length l) (mkCache (<[key := data]> (entries c)) l (capacity c))
  end.

Definition cache_clear (c : Cache) : Cache := mkCache ∅ [] (capacity c).

(** * The objects *)

Record DbOptions := mkDbOptions {
  opt_page_size : Z;
  cache_pages : nat;
  checkpoint_threshold_frames : nat;
  create_if_missing : bool;
  archive_dir : string
}.

Record Db := mkDb {
  db_path : string;
  db_wal_path : string;
  db_options : DbOptions;
  db_page_size : nat;
  db_wal : Wal;
  active_readers : Z;
  checkpoints : Z;
  archived_segments : Z;
  db_recovery : WalRecoveryInfo;
  db_ident : Bytes;
  closed : bool;
  db_cache : Cache
}.

Definition set_wal (d : Db) x := mkDb (db_path d) (db_wal_path d) (db_options d) (db_page_size d) x
  (active_readers d) (checkpoints d) (archived_segments d) (db_recovery d) (db_ident d) (closed d) (db_cache d).
Definition set_readers (d : Db) n := mkDb (db_path d) (db_wal_path d) (db_options d) (db_page_size d) (db_wal d)
  n (checkpoints d) (archived_segments d) (db_recovery d) (db_ident d) (closed d) (db_cache d).
Definition set_checkpoints (d : Db) n := mkDb (db_path d) (db_wal_path d) (db_options d) (db_page_size d) (db_wal d)
  (active_readers d) n (archived_segments d) (db_recovery d) (db_ident d) (closed d) (db_cache d).
Definition set_archived (d : Db) n := mkDb (db_path d) (db_wal_path d) (db_options d) (db_page_size d) (db_wal d)
  (active_readers d) (checkpoints d) n (db_recovery d) (db_ident d) (closed d) (db_cache d).
Definition set_closed (d : Db) b := mkDb (db_path d) (db_wal_path d) (db_options d) (db_page_size d) (db_wal d)
  (active_readers d) (checkpoints d) (archived_segments d) (db_recovery d) (db_ident d) b (db_cache d).
Definition set_db_cache (d : Db) c := mkDb (db_path d) (db_wal_path d) (db_options d) (db_page_size d) (db_wal d)
  (active_readers d) (checkpoints d) (archived_segments d) (db_recovery d) (db_ident d) (closed d) c.

Definition DM (A : Type) : Type := M (Db * World) A.

(** A call of the log: the log object changes whatever the call returns. *)
Definition onwal {A} (m : WM A) : DM A := fun '(d, w) =>
  let '(r, (x, w')) := m (db_wal d, w) in (r, (set_wal d x, w')).

Record ReadTxn := mkReadTxn {
  r_snapshot : FrameNo;
  r_page_count : Z;
  r_change_counter : Z
}.

Record WriteTxn := mkWriteTxn {
  t_snapshot : FrameNo;
  t_header : DbHeader.t;
  t_snapshot_header : DbHeader.t;
  t_dirty : gmap PageNo Bytes;
  t_freed : gset PageNo;
  t_finished : bool
}.

(** * Reading *)

(** [page * page_size_] at 64 bits. *)
Definition page_offset (psz : nat) (page : PageNo) : nat := Z.to_nat (wrap64 (page * Z.of_nat psz)).

(** The part of [read_committed] after a cache miss: from the log or, for
    frame 0, from the data file. *)
Definition fetch_page (page : PageNo) (frame : FrameNo) : DM Bytes :=
  let! d := getO in
  if negb (frame =? 0)%nat then onwal (read_frame_page frame)
  else
    let! out := onw (file_read (db_path d) (page_offset (db_page_size d) page) (db_page_size d)) in
    if negb (length out =? db_page_size d)%nat then
      lift (corrupt ("page " +:+ to_string page +:+ " beyond end of file: " +:+ db_path d))
    else if negb (page_checksum_ok out) then
      lift (corrupt ("page " +:+ to_string page +:+ " checksum mismatch: " +:+ db_path d))
    else ret out.

Definition read_committed (page : PageNo) (snapshot : FrameNo) (out_size : nat) : DM Bytes :=
  let! d := getO in
  if negb (out_size =? db_page_size d)%nat then lift (invalid_argument "page buffer size")
  else if closed d then lift (io "database closed")
  else
    let frame := find (db_wal d) page snapshot in
    let key := (page, frame) in
    match cache_get key (db_cache d) with
    | (Some cached, c) => do! modO (fun d => set_db_cache d c) in ret cached
    | (None, _) =>
        let! out := fetch_page page frame in
        do! modO (fun d => set_db_cache d (cache_put key out (db_cache d))) in
        ret out
    end.

Definition committed_header (snapshot : FrameNo) : DM DbHeader.t :=
  let! d := getO in
  let! page0 := read_committed 0 snapshot (db_page_size d) in
  lift (DbHeader.decode page0).

(** The critical section of [begin_read] that takes the snapshot and
    registers the reader, and the section that reads the header. *)
Definition register_reader : DM FrameNo :=
  let! d := getO in
  if closed d then lift (io "database closed")
  else
    do! modO (fun d => set_readers d (wrap64 (active_readers d + 1))) in
    ret (last_commit (db_wal d)).
Definition reader_ended : DM unit := modO (fun d => set_readers d (wrap64 (active_readers d - 1))).
Definition finish_begin_read (snapshot : FrameNo) : DM ReadTxn :=
  let! h := attempt (committed_header snapshot) in
  match h with
  | Err e => do! reader_ended in lift (Err e)
  | Ret h => ret (mkReadTxn snapshot (DbHeader.page_count h) (DbHeader.change_counter h))
  end.
Definition begin_read : DM ReadTxn :=
  let! snapshot := register_reader in finish_begin_read snapshot.

Definition read_txn_page (t : ReadTxn) (page : PageNo) (out_size : nat) : DM Bytes :=
  if r_page_count t <=? page then lift (invalid_argument ("page " +:+ to_string page +:+ " out of range"))
  else read_committed page (r_snapshot t) out_size.

(** A method that holds a read transaction: the destructor runs on every
    return. *)
Definition with_reader {A} (k : ReadTxn -> DM A) : DM A :=
  let! t := begin_read in
  let! r := attempt (k t) in
  do! reader_ended in
  lift r.

(** * Writing *)

Definition begin_write : DM WriteTxn :=
  let! d := getO in
  if closed d then lift (io "database closed")
  else if wal_failed (db_wal d) then
    lift (io ("database refuses writes after a log I/O error; reopen it: " +:+ db_path d))
  else
    let snapshot := last_commit (db_wal d) in
    let! h := committed_header snapshot in
    ret (mkWriteTxn snapshot h h ∅ ∅ false).

(** Methods of [WriteTxn] also change the transaction object. *)
Definition TM (A : Type) : Type := M (WriteTxn * (Db * World)) A.

Definition set_txn_header (t : WriteTxn) h :=
  mkWriteTxn (t_snapshot t) h (t_snapshot_header t) (t_dirty t) (t_freed t) (t_finished t).
Definition set_dirty (t : WriteTxn) m :=
  mkWriteTxn (t_snapshot t) (t_header t) (t_snapshot_header t) m (t_freed t) (t_finished t).
Definition set_freed (t : WriteTxn) f :=
  mkWriteTxn (t_snapshot t) (t_header t) (t_snapshot_header t) (t_dirty t) f (t_finished t).

Definition with_freelist (head count : Z) (h : DbHeader.t) : DbHeader.t :=
  DbHeader.mk (DbHeader.page_size h) (DbHeader.format_version h) (DbHeader.page_count h) head count
    (DbHeader.change_counter h) (DbHeader.db_id h) (DbHeader.commit_time_us h).
Definition with_page_count (n : Z) (h : DbHeader.t) : DbHeader.t :=
  DbHeader.mk (DbHeader.page_size h) (DbHeader.format_version h) n (DbHeader.freelist_head h)
    (DbHeader.freelist_count h) (DbHeader.change_counter h) (DbHeader.db_id h) (DbHeader.commit_time_us h).
Definition with_commit (cc time : Z) (h : DbHeader.t) : DbHeader.t :=
  DbHeader.mk (DbHeader.page_size h) (DbHeader.format_version h) (DbHeader.page_count h) (DbHeader.freelist_head h)
    (DbHeader.freelist_count h) cc (DbHeader.db_id h) time.

(** [WriteTxn::finish]. *)
Definition finish_txn (t : WriteTxn) : WriteTxn :=
  mkWriteTxn (t_snapshot t) (t_header t) (t_snapshot_header t) ∅ ∅ true.

Definition write_txn_read (page : PageNo) (out_size : nat) : TM Bytes :=
  let! t := getO in
  let! d := onw getO in
  if t_finished t then lift (invalid_argument "transaction finished")
  else if negb (out_size =? db_page_size d)%nat then lift (invalid_argument "page buffer size")
  else if DbHeader.page_count (t_header t) <=? page then lift (invalid_argument "page out of range")
  else match t_dirty t !! page with
       | Some data => ret data
       | None =>
           if DbHeader.page_count (t_snapshot_header t) <=? page then
             lift (invalid_argument "page allocated but never written in this transaction")
           else onw (read_committed page (t_snapshot t) out_size)
       end.

Definition write_page (page : PageNo) (data : Bytes) : TM unit :=
  let! t := getO in
  let! d := onw getO in
  if t_finished t then lift (invalid_argument "transaction finished")
  else if page =? 0 then lift (invalid_argument "page 0 is the header and not writable")
  else if DbHeader.page_count (t_header t) <=? page then lift (invalid_argument "page out of range")
  else if negb (length data =? db_page_size d)%nat then lift (invalid_argument "page data size")
  else if bool_decide (page ∈ t_freed t) then lift (invalid_argument "page was freed in this transaction")
  else modO (fun t => set_dirty t (<[page := data]> (t_dirty t))).

Definition allocate_page : TM PageNo :=
  let! t := getO in
  let! d := onw getO in
  if t_finished t then lift (invalid_argument "transaction finished")
  else
    let! page :=
      (if negb (DbHeader.freelist_head (t_header t) =? 0) then
         let page := DbHeader.freelist_head (t_header t) in
         let! buf := write_txn_read page (db_page_size d) in
         match FreePage.decode buf with
         | Err _ => lift (corrupt ("free list head page " +:+ to_string page +:+ " invalid"))
         | Ret fp =>
             do! modO (fun t => set_freed
                   (set_txn_header t (with_freelist (FreePage.next fp)
                      (wrap64 (DbHeader.freelist_count (t_header t) - 1)) (t_header t)))
                   (t_freed t ∖ {[page]})) in
             ret page
         end
       else
         let page := DbHeader.page_count (t_header t) in
         do! modO (fun t => set_txn_header t (with_page_count (wrap64 (page + 1)) (t_header t))) in
         ret page) in
    do! modO (fun t => set_dirty t (<[page := replicate (db_page_size d) 0]> (t_dirty t))) in
    ret page.

Definition free_page (page : PageNo) : TM unit :=
  let! t := getO in
  let! d := onw getO in
  if t_finished t then lift (invalid_argument "transaction finished")
  else if (page =? 0) || (DbHeader.page_count (t_header t) <=? page) then
    lift (invalid_argument "page out of range")
  else if bool_decide (page ∈ t_freed t) then lift (invalid_argument "page freed twice")
  else
    let buf := FreePage.encode (FreePage.mk (DbHeader.freelist_head (t_header t))) (replicate (db_page_size d) 0) in
    modO (fun t => set_txn_header
      (set_freed (set_dirty t (<[page := buf]> (t_dirty t))) (t_freed t ∪ {[page]}))
      (with_freelist page (wrap64 (DbHeader.freelist_count (t_header t) + 1)) (t_header t))).

(** * Checkpoint and commit *)

(** [std::map] order. *)
Definition page_le (a b : PageNo * FrameNo) : Prop := fst a <= fst b.
#[export] Instance page_le_dec a b : stdpp.base.Decision (page_le a b).
Proof. unfold page_le. apply _. Defined.
Definition latest_list (x : Wal) (up_to : FrameNo) : list (PageNo * FrameNo) :=
  merge_sort page_le (map_to_list (latest_frames x up_to)).

Fixpoint copy_pages (frames : list (PageNo * FrameNo)) : DM unit :=
  match frames with
  | [] => ret tt
  | (page, frame) :: rest =>
      let! d := getO in
      let! buf := onwal (read_frame_page frame) in
      do! onw (file_write (db_path d) (page_offset (db_page_size d) page) buf) in
      copy_pages rest
  end.

Definition archive_segment_name (db_id : Bytes) (base_change_counter : Z) : string :=
  let hex := fold_left (fun s b => s +:+ String (hex_digit (Z.shiftr b 4)) (String (hex_digit (Z.land b 15)) EmptyString))
               db_id EmptyString in
  let n := to_string base_change_counter in
  hex +:+ "-" +:+ string_of_bytes (replicate (20 - Nat.min 20 (String.length n)) 48) +:+ n +:+ ".wal".

Definition archive_log : DM unit :=
  let! d := getO in
  if String.eqb (archive_dir (db_options d)) "" then ret tt
  else
    let seg := archive_dir (db_options d) +:+ "/"
               +:+ archive_segment_name (db_ident d) (WalHeader.base_change_counter (header (db_wal d))) in
    do! onwal (copy_committed_to (seg +:+ ".part")) in
    do! onw (vfs_rename (seg +:+ ".part") seg) in
    do! onw (vfs_sync_directory (archive_dir (db_options d))) in
    modO (fun d => set_archived d (wrap64 (archived_segments d + 1))).

Definition checkpoint_locked : DM unit :=
  let! d := getO in
  if closed d then lift (io "database closed")
  else if negb (active_readers d =? 0) then lift (busy "checkpoint deferred: active readers")
  else
    let last_ := last_commit (db_wal d) in
    if (last_ =? 0)%nat then ret tt
    else
      do! copy_pages (latest_list (db_wal d) last_) in
      let db_size := db_size_at (db_wal d) last_ in
      let! size := onw (file_size (db_path d)) in
      do! (if (page_offset (db_page_size d) db_size <? size)%nat
           then onw (file_truncate (db_path d) (page_offset (db_page_size d) db_size)) else ret tt) in
      do! onw (file_sync (db_path d)) in
      let committed_cc := default 0 (c_change_counter <$> last (commit_list (db_wal d))) in
      do! archive_log in
      do! modO (fun d => set_db_cache d (cache_clear (db_cache d))) in
      do! onwal (reset committed_cc) in
      modO (fun d => set_checkpoints d (wrap64 (checkpoints d + 1))).

(** [checkpoint] takes the writer mutex and does the same. *)
Definition checkpoint : DM unit := checkpoint_locked.

Fixpoint cache_images (images : list (PageNo * Bytes)) (frame : FrameNo) (c : Cache) : Cache :=
  match images with
  | [] => c
  | (page, data) :: rest => cache_images rest (S frame) (cache_put (page, frame) data c)
  end.

(** [commit_frames], first critical section: the append, and whether a
    checkpoint is wanted. *)
Definition append_frames (images : list (PageNo * Bytes)) (db_size : Z) : DM bool :=
  let! d := getO in
  if closed d then lift (io "database closed")
  else
    let first := next_frame (db_wal d) in     (* frame_count() + 1 *)
    do! onwal (append_transaction (map (fun '(p, b) => mkImage p b) images) db_size) in
    do! modO (fun d => set_db_cache d (cache_images images first (db_cache d))) in
    let! d := getO in
    ret ((checkpoint_threshold_frames (db_options d) <=? next_frame (db_wal d) - 1)%nat
         && (active_readers d =? 0)).

(** The second section: best effort, the commit is already durable. *)
Definition auto_checkpoint (want_checkpoint : bool) : DM unit :=
  if want_checkpoint then let! _ := attempt checkpoint_locked in ret tt else ret tt.

Definition commit_frames (images : list (PageNo * Bytes)) (db_size : Z) : DM unit :=
  let! want := append_frames images db_size in auto_checkpoint want.

Definition header_changed (t : WriteTxn) : bool :=
  negb (DbHeader.page_count (t_header t) =? DbHeader.page_count (t_snapshot_header t))
  || negb (DbHeader.freelist_head (t_header t) =? DbHeader.freelist_head (t_snapshot_header t))
  || negb (DbHeader.freelist_count (t_header t) =? DbHeader.freelist_count (t_snapshot_header t)).

(** The pages of [dirty_], in page order and sealed, and page 0 last. *)
Definition dirty_le (a b : PageNo * Bytes) : Prop := fst a <= fst b.
#[export] Instance dirty_le_dec a b : stdpp.base.Decision (dirty_le a b).
Proof. unfold dirty_le. apply _. Defined.
Definition commit_images (psz : nat) (dirty : gmap PageNo Bytes) (h : DbHeader.t) : list (PageNo * Bytes) :=
  map (fun '(p, b) => (p, seal_page b)) (merge_sort dirty_le (map_to_list dirty))
  ++ [(0, seal_page (DbHeader.encode h (replicate psz 0)))].

(** [WriteTxn::commit] up to the end of the append. *)
Definition commit_append (now : Z) : TM bool :=
  let! t := getO in
  let! d := onw getO in
  if bool_decide (t_dirty t = ∅) && negb (header_changed t) then ret false
  else
    do! modO (fun t => set_txn_header t
          (with_commit (wrap64 (DbHeader.change_counter (t_snapshot_header t) + 1)) now (t_header t))) in
    let! t := getO in
    onw (append_frames (commit_images (db_page_size d) (t_dirty t) (t_header t))
           (DbHeader.page_count (t_header t))).

Definition commit (now : Z) : TM unit :=
  let! t := getO in
  if t_finished t then lift (invalid_argument "transaction finished")
  else
    let! s := attempt (let! want := commit_append now in onw (auto_checkpoint want)) in
    do! modO finish_txn in
    lift s.

Definition rollback : TM unit :=
  let! t := getO in
  if t_finished t then ret tt else modO finish_txn.

(** * Opening, closing, checking and copying *)

(** [random_db_id]: sixteen bytes of entropy. *)
Definition random_db_id : M World Bytes :=
  let! a := random_salt in let! b := random_salt in
  let! c := random_salt in let! d := random_salt in
  ret (le_bytes 4 a ++ le_bytes 4 b ++ le_bytes 4 c ++ le_bytes 4 d).

(** The lambda [init] of [open]. *)
Definition init_file (path wal_path : string) (psz : Z) : M World unit :=
  let! id := random_db_id in
  let h := DbHeader.mk psz DbHeader.kFormatVersion 1 0 0 0 id 0 in
  let page := seal_page (DbHeader.encode h (replicate (Z.to_nat psz) 0)) in
  do! file_truncate path 0 in
  do! file_write path 0 page in
  do! file_sync path in
  do! vfs_sync_directory (directory_of path) in
  let! wal_exists := attempt (vfs_exists wal_path) in
  match wal_exists with
  | Ret true =>
      do! vfs_remove wal_path in
      vfs_sync_directory (directory_of path)
  | _ => ret tt
  end.

(** [recover_page0_from_wal]: the page and the log that supplied it.  The
    buffer keeps its content when the log cannot supply the page. *)
Definition recover_page0_from_wal (wal_path : string) (psz : nat)
    : M World (option (Bytes * Wal * WalRecoveryInfo)) :=
  let! exists_ := vfs_exists wal_path in
  if negb exists_ then ret None
  else
    do! vfs_open wal_path (mkOpenFlags false false false false) in
    let! hbuf := file_read wal_path 0 WalHeader.kEncodedBytes in
    if negb (length hbuf =? WalHeader.kEncodedBytes)%nat then ret None
    else match WalHeader.decode hbuf with
         | Err _ => ret None
         | Ret wh =>
             if negb (WalHeader.page_size wh =? Z.of_nat psz) then ret None
             else
               let wo := mkWalOptions (WalHeader.db_id wh) (WalHeader.base_change_counter wh) false in
               let! (x, info) := open_wal wal_path psz wo in
               let frame := find x 0 (last_commit x) in
               if (frame =? 0)%nat then ret None
               else fun w =>
                 match read_frame_page frame (x, w) with
                 | (Ret page0, (x, w)) => (Ret (Some (page0, x, info)), w)
                 | (Err e, (_, w)) => (Err e, w)
                 end
         end.

(** What [open] has learned of page 0: the header and, when the file's copy
    was unusable, the log it was recovered from. *)
Definition read_header (path wal_path : string) (opt_psz : Z)
    : M World (DbHeader.t * option (Wal * WalRecoveryInfo)) :=
  let! probe := file_read path 0 (Z.to_nat kMinPageSize) in
  let hdr := if (DbHeader.kEncodedBytes <=? length probe)%nat
             then DbHeader.decode (probe ++ replicate (Z.to_nat kMinPageSize - length probe) 0)
             else corrupt "database file too short" in
  let psz := Z.to_nat (match hdr with Ret h => DbHeader.page_size h | Err _ => opt_psz end) in
  let! page0 := file_read path 0 psz in
  let! size := file_size path in
  let usable := match hdr with
                | Ret _ => (length page0 =? psz)%nat && page_checksum_ok page0
                | Err _ => false
                end in
  match hdr, usable with
  | Ret h, true => ret (h, None)
  | _, _ =>
      let! from_wal := recover_page0_from_wal wal_path psz in
      match from_wal with
      | Some (page0, x, info) =>
          let! h := lift (DbHeader.decode page0) in
          ret (h, Some (x, info))
      | None =>
          if (size <=? psz)%nat then
            do! init_file path wal_path opt_psz in
            let! page := file_read path 0 psz in
            let! h := lift (DbHeader.decode (page ++ drop (length page) (page0 ++ replicate (psz - length page0) 0))) in
            ret (h, None)
          else
            lift (corrupt ("database header invalid and not recoverable from the log: " +:+ path))
      end
  end.

(** The log must continue from the file. *)
Definition log_continues (x : Wal) (file_cc : Z) : bool :=
  let base := WalHeader.base_change_counter (header x) in
  (base =? file_cc)
  || match last (commit_list x) with
     | None => false
     | Some c => (base <? file_cc) && (file_cc <=? c_change_counter c)
     end.

Definition open_db (path : string) (options : DbOptions) : M World Db :=
  let psz := opt_page_size options in
  if (psz <? kMinPageSize) || (kMaxPageSize <? psz) || negb (Z.land psz (psz - 1) =? 0) then
    lift (invalid_argument "page_size must be a power of two in [512, 65536]")
  else
    let wal_path := path +:+ ".wal" in
    let! exists_ := vfs_exists path in
    if negb exists_ && negb (create_if_missing options) then lift (not_found path)
    else
      do! vfs_open path (mkOpenFlags true true false false) in
      let! size := file_size path in
      do! (if negb exists_ || (size =? 0)%nat then init_file path wal_path psz else ret tt) in
      let! (hdr, from_wal) := read_header path wal_path psz in
      do! file_sync path in
      do! vfs_sync_directory (directory_of path) in
      let psize := Z.to_nat (DbHeader.page_size hdr) in
      let! (x, info) :=
        (match from_wal with
         | Some xi => ret xi
         | None => open_wal wal_path psize
                     (mkWalOptions (DbHeader.db_id hdr) (DbHeader.change_counter hdr) false)
         end) in
      if log_continues x (DbHeader.change_counter hdr) then
        ret (mkDb path wal_path options psize x 0 0 0 info (DbHeader.db_id hdr) false
               (mkCache ∅ [] (Nat.max 8 (cache_pages options))))
      else
        lift (corrupt ("log " +:+ wal_path +:+ " (base change counter "
          +:+ to_string (WalHeader.base_change_counter (header x)) +:+ ") does not continue database " +:+ path
          +:+ " (change counter " +:+ to_string (DbHeader.change_counter hdr)
          +:+ "); restore the matching log or remove it deliberately")).

Definition close_db : DM unit :=
  let! d := getO in
  if closed d then ret tt
  else
    do! modO (fun d => set_closed d true) in
    onwal close_wal.

Record DbStats := mkStats {
  s_wal_frames : nat;
  s_checkpoints : Z;
  s_archived_segments : Z;
  s_active_readers : Z;
  s_recovered_frames : FrameNo;
  s_dropped_tail_bytes : nat
}.
Definition stats (d : Db) : DbStats :=
  mkStats (next_frame (db_wal d) - 1) (checkpoints d) (archived_segments d) (active_readers d)
    (committed_frames (db_recovery d)) (dropped_bytes (db_recovery d)).

Record CheckReport := mkReport {
  rp_problems : list string;
  pages_checked : Z;
  free_pages_walked : Z;
  free_pages : list PageNo
}.
Definition report_ok (r : CheckReport) : bool := bool_decide (rp_problems r = []).
Definition problem (s : string) (r : CheckReport) : CheckReport :=
  mkReport (rp_problems r ++ [s]) (pages_checked r) (free_pages_walked r) (free_pages r).

Fixpoint check_pages (t : ReadTxn) (psz : nat) (n : nat) (p : PageNo) (r : CheckReport) : DM CheckReport :=
  match n with
  | O => ret r
  | S n =>
      let! s := attempt (read_txn_page t p psz) in
      let r := match s with
               | Ret _ => r
               | Err e => problem ("page " +:+ to_string p +:+ ": " +:+ status_to_string e) r
               end in
      check_pages t psz n (p + 1)
        (mkReport (rp_problems r) (pages_checked r + 1) (free_pages_walked r) (free_pages r))
  end.

(** The walk of the free list stops at a repeated page, so it takes at most
    one step more than there are pages. *)
Fixpoint walk_free (fuel : nat) (t : ReadTxn) (psz : nat) (count : Z) (seen : gset PageNo) (cur : PageNo)
    (r : CheckReport) : DM CheckReport :=
  match fuel with
  | O => lift (corrupt "free list walk out of fuel")
  | S fuel =>
      if cur =? 0 then ret r
      else if count <=? cur then
        ret (problem ("free list references page " +:+ to_string cur +:+ " beyond page count") r)
      else if bool_decide (cur ∈ seen) then
        ret (problem ("free list cycle at page " +:+ to_string cur) r)
      else
        let! s := attempt (read_txn_page t cur psz) in
        match s with
        | Err e => ret (problem ("free page " +:+ to_string cur +:+ ": " +:+ status_to_string e) r)
        | Ret page =>
            match FreePage.decode page with
            | Err e => ret (problem ("free page " +:+ to_string cur +:+ ": " +:+ status_to_string e) r)
            | Ret fp =>
                walk_free fuel t psz count ({[cur]} ∪ seen) (FreePage.next fp)
                  (mkReport (rp_problems r) (pages_checked r) (free_pages_walked r + 1) (free_pages r ++ [cur]))
            end
        end
  end.

Definition check_body (t : ReadTxn) : DM CheckReport :=
  let! d := getO in
  let psz := db_page_size d in
  let! r := check_pages t psz (Z.to_nat (r_page_count t)) 0 (mkReport [] 0 0 []) in
  let! s := attempt (read_txn_page t 0 psz) in
  match s with
  | Err _ => ret r
  | Ret page =>
      match DbHeader.decode page with
      | Err e => ret (problem ("header: " +:+ status_to_string e) r)
      | Ret hdr =>
          let! r := walk_free (S (S (Z.to_nat (DbHeader.page_count hdr)))) t psz (DbHeader.page_count hdr) ∅
                      (DbHeader.freelist_head hdr) r in
          ret (if free_pages_walked r =? DbHeader.freelist_count hdr then r
               else problem ("free list count " +:+ to_string (free_pages_walked r)
                             +:+ " differs from header " +:+ to_string (DbHeader.freelist_count hdr)) r)
      end
  end.
Definition check : DM CheckReport := with_reader check_body.

(** [backup] into a file of the same filesystem. *)
Fixpoint backup_pages (t : ReadTxn) (dst : string) (psz : nat) (n : nat) (p : PageNo) : DM unit :=
  match n with
  | O => ret tt
  | S n =>
      let! page := read_txn_page t p psz in
      do! onw (file_write dst (page_offset psz p) page) in
      backup_pages t dst psz n (p + 1)
  end.
Definition backup (dst : string) : DM Z :=
  with_reader (fun t =>
    let! d := getO in
    do! onw (vfs_open dst (mkOpenFlags true true false true)) in
    do! backup_pages t dst (db_page_size d) (Z.to_nat (r_page_count t)) 0 in
    do! onw (file_sync dst) in
    do! onw (vfs_sync_directory (directory_of dst)) in
    ret (r_change_counter t)).

(** * The cache keeps what it is given

    The list holds each cached key once, and the map holds exactly the keys
    of the list. *)

Definition cache_wf (c : Cache) : Prop :=
  NoDup (lru c) /\ (forall k, k ∈ lru c <-> is_Some (entries c !! k)) /\ (1 <= capacity c)%nat.

Lemma cache_wf_size c : cache_wf c -> size (entries c) = length (lru c).
Proof.
  intros (Hnd & Hk & _). rewrite <- size_dom.
  assert (dom (entries c) = list_to_set (lru c)) as ->.
  { apply set_eq. intros k. rewrite elem_of_dom, elem_of_list_to_set. symmetry. apply Hk. }
  by apply size_list_to_set.
Qed.

Lemma elem_of_to_front k key l : k ∈ to_front key l <-> k = key \/ k ∈ l.
Proof.
  unfold to_front. rewrite elem_of_cons, list_elem_of_filter.
  destruct (decide (k = key)); naive_solver.
Qed.
Lemma NoDup_to_front key l : NoDup l -> NoDup (to_front key l).
Proof.
  intros H. unfold to_front. constructor; [|by apply NoDup_filter].
  rewrite list_elem_of_filter. naive_solver.
Qed.

Lemma cache_get_wf key c : cache_wf c -> cache_wf (snd (cache_get key c)).
Proof.
  intros Hc. unfold cache_get. destruct (entries c !! key) eqn:E; [|done].
  destruct Hc as (Hnd & Hk & Hcap). unfold cache_wf. cbn [snd lru entries capacity].
  split_and!; [by apply NoDup_to_front| |done].
  intros k. rewrite elem_of_to_front, Hk. naive_solver.
Qed.

(** One eviction removes the least recently used key. *)
Lemma evict_step c k l :
  cache_wf c -> lru c = l ++ [k] ->
  cache_wf (mkCache (delete k (entries c)) l (capacity c)).
Proof.
  intros (Hnd & Hk & Hcap) E. rewrite E in Hnd, Hk. apply NoDup_app in Hnd as (Hnd & Hdis & _).
  unfold cache_wf. cbn [lru entries capacity]. split_and!; [done| |done].
  intros j. rewrite lookup_delete_is_Some, <- Hk, elem_of_app, list_elem_of_singleton.
  specialize (Hdis j). destruct (decide (j = k)); [subst|naive_solver].
  split; [|naive_solver]. intros Hj. destruct (Hdis Hj). by apply list_elem_of_singleton.
Qed.

Lemma removelast_snoc {A} (l : list A) x : removelast (l ++ [x]) = l.
Proof. rewrite removelast_app by done. cbn. apply app_nil_r. Qed.

Lemma evict_spec fuel c :
  cache_wf c -> (length (lru c) <= fuel)%nat ->
  let c' := evict fuel c in
  cache_wf c' /\ capacity c' = capacity c /\ (size (entries c') <= capacity c)%nat
  /\ (exists gone, lru c = lru c' ++ gone)
  /\ (forall k, k ∈ lru c' -> entries c' !! k = entries c !! k).
Proof.
  revert c. induction fuel as [|fuel IH]; intros c Hwf Hl.
  { assert (E : lru c = []) by (apply nil_length_inv; lia). cbn [evict].
    rewrite (cache_wf_size c Hwf), E. cbn. split_and!; [done|done|lia|by exists []|done]. }
  cbn [evict]. destruct (Nat.ltb_spec (capacity c) (size (entries c))) as [Hlt|Hge].
  2: { split_and!; [done|done|lia|exists []; by rewrite app_nil_r|done]. }
  destruct (last (lru c)) as [k|] eqn:El.
  2: { apply last_None in El. rewrite (cache_wf_size c Hwf), El in Hlt. cbn in Hlt. lia. }
  apply last_Some in El as [l El]. rewrite El, removelast_snoc in *.
  pose proof (evict_step c k l Hwf El) as Hwf'.
  rewrite length_app in Hl. cbn in Hl.
  destruct (IH _ Hwf' ltac:(cbn; lia)) as (H1 & H2 & H3 & (gone & H4) & H5).
  cbn [entries lru capacity] in *. split_and!; [done|done|done| |].
  - exists (gone ++ [k]). by rewrite app_assoc, <- H4.
  - intros j Hj. rewrite H5 by done. apply lookup_delete_ne. intros ->.
    destruct Hwf as (Hnd & _). rewrite El in Hnd. apply NoDup_app in Hnd as (_ & Hdis & _).
    apply (Hdis j); [rewrite H4, elem_of_app; by left|by apply list_elem_of_singleton].
Qed.

Lemma cache_put_wf key data c :
  cache_wf c -> cache_wf (cache_put key data c) /\ capacity (cache_put key data c) = capacity c.
Proof.
  intros Hc. pose proof Hc as (Hnd & Hk & Hcap). unfold cache_put. destruct (entries c !! key) eqn:E.
  - split; [|done]. unfold cache_wf. cbn [lru entries capacity].
    split_and!; [by apply NoDup_to_front| |done].
    intros k. rewrite elem_of_to_front, lookup_insert_is_Some', Hk. naive_solver.
  - destruct (evict_spec (length (key :: lru c)) (mkCache (<[key:=data]> (entries c)) (key :: lru c) (capacity c)))
      as (H1 & H2 & _); [|done|by split].
    unfold cache_wf. cbn [lru entries capacity]. split_and!; [|intros k|done].
    + constructor; [|done]. rewrite Hk, E. by intros [? ?].
    + rewrite elem_of_cons, lookup_insert_is_Some', Hk. naive_solver.
Qed.

(** What a cached key holds after a put: the new data for its key, and for
    every other key what it held before, if it is still there. *)
Lemma cache_put_lookup key data c k b :
  cache_wf c -> entries (cache_put key data c) !! k = Some b ->
  k = key /\ b = data \/ k <> key /\ entries c !! k = Some b.
Proof.
  intros Hc Hb. unfold cache_put in Hb. destruct (entries c !! key) eqn:E; cbn [entries] in Hb.
  - destruct (decide (k = key)) as [->|Hne]; [rewrite lookup_insert_eq in Hb|rewrite lookup_insert_ne in Hb by done];
      naive_solver.
  - set (c1 := mkCache (<[key:=data]> (entries c)) (key :: lru c) (capacity c)) in *.
    pose proof Hc as (Hnd & Hk & Hcap).
    assert (Hwf : cache_wf c1).
    { unfold cache_wf. cbn [lru entries capacity c1]. split_and!; [|intros j|done].
      - constructor; [|done]. rewrite Hk, E. by intros [? ?].
      - rewrite elem_of_cons, lookup_insert_is_Some', Hk. naive_solver. }
    destruct (evict_spec (length (key :: lru c)) c1 Hwf ltac:(done)) as ((_ & Hk' & _) & _ & _ & _ & Hsame).
    rewrite Hsame in Hb by (apply Hk'; eauto). cbn [entries c1] in Hb.
    destruct (decide (k = key)) as [->|Hne]; [rewrite lookup_insert_eq in Hb|rewrite lookup_insert_ne in Hb by done];
      naive_solver.
Qed.
