(* ===== verification/DbView.v ===== *)
(** What a database is: the sequence of its committed pages.

    [state_at fb l] is the database a file with content [fb] and the committed
    images [l] of the log stand for: page by page the newest image or, for a
    page the log does not have, the file's copy.  [db_inv] relates the object
    and the filesystem to it.  The file proves that every read a transaction
    makes returns the page of its snapshot, through the cache, the log or the
    file, and that the pages of a write transaction become the next state. *)

From stdpp Require Import base numbers list gmap strings sorting.
From S2P Require Import Prelude Bytes Crc32c PageFormat Vfs VfsFrame Wal Db.
Open Scope Z_scope.

Section view.
Context (psz : nat) (dbid : Bytes) (path wpath : string).

Definition page_ok (b : Bytes) : Prop := length b = psz /\ bytes_ok b /\ page_checksum_ok b = true.

Definition file_page (fb : Bytes) (p : PageNo) : Bytes := sub (page_offset psz p) psz fb.
Definition page_at (fb : Bytes) (l : list PageImage) (p : PageNo) : Bytes :=
  default (file_page fb p) (newest p l).
Definition count_at (fb : Bytes) (l : list PageImage) : Z :=
  match DbHeader.decode (page_at fb l 0) with Ret h => DbHeader.page_count h | Err _ => 0 end.
Definition state_at (fb : Bytes) (l : list PageImage) : list Bytes :=
  map (fun i => page_at fb l (Z.of_nat i)) (seq 0 (Z.to_nat (count_at fb l))).

(** A database: sealed pages, the first of which is a header that counts
    them, small enough that no file offset leaves 64 bits. *)
Definition state_header (S : list Bytes) (hdr : DbHeader.t) : Prop :=
  exists p0, S !! 0%nat = Some p0 /\ DbHeader.decode p0 = Ret hdr
    /\ DbHeader.page_count hdr = Z.of_nat (length S)
    /\ DbHeader.page_size hdr = Z.of_nat psz /\ DbHeader.db_id hdr = dbid.
Definition state_ok (S : list Bytes) : Prop :=
  Forall page_ok S /\ Z.of_nat (length S) * Z.of_nat psz < 2 ^ 64 /\ exists hdr, state_header S hdr.

Lemma length_state_at fb l : length (state_at fb l) = Z.to_nat (count_at fb l).
Proof. unfold state_at. by rewrite length_map, length_seq. Qed.

Lemma state_at_lookup fb l (i : nat) :
  (i < length (state_at fb l))%nat -> state_at fb l !! i = Some (page_at fb l (Z.of_nat i)).
Proof.
  rewrite length_state_at. intros Hi. unfold state_at. rewrite list_lookup_fmap.
  rewrite lookup_seq_lt by done. done.
Qed.

Lemma state_at_page fb l p :
  0 <= p < Z.of_nat (length (state_at fb l)) -> state_at fb l !! Z.to_nat p = Some (page_at fb l p).
Proof. intros Hp. rewrite state_at_lookup by lia. by rewrite Z2Nat.id by lia. Qed.

Lemma state_ok_page fb l p :
  state_ok (state_at fb l) -> 0 <= p < Z.of_nat (length (state_at fb l)) -> page_ok (page_at fb l p).
Proof.
  intros [H _] Hp. rewrite Forall_lookup in H. eapply H. by apply state_at_page.
Qed.

(** ** The invariant *)

(** Every cached copy is the page the key names. *)
Definition cache_ok (fb : Bytes) (l : list PageImage) (c : Cache) : Prop :=
  cache_wf c /\ forall p f b, entries c !! (p, f) = Some b ->
    match f with
    | O => b = file_page fb p
    | S i => exists im, l !! i = Some im /\ im_page im = p /\ im_data im = b
    end.

(** Every commit is a database, the log has pages of the last one only, and
    its commit frame counts them. *)
Definition history_ok (fb : Bytes) (txs : list Tx) : Prop :=
  (forall k, state_ok (state_at fb (total_images (take k txs))))
  /\ Forall (fun im => 0 <= im_page im < Z.of_nat (length (state_at fb (total_images txs)))) (total_images txs)
  /\ forall txs' tx, txs = txs' ++ [tx] -> tx_size tx = Z.of_nat (length (state_at fb (total_images txs))).

Definition db_inv (fb : Bytes) (h : WalHeader.t) (txs : list Tx) (d : Db) (w : World) : Prop :=
  db_path d = path /\ db_page_size d = psz /\ closed d = false
  /\ wal_inv psz dbid wpath h txs (db_wal d) w
  /\ synced path fb w
  /\ cache_ok fb (total_images txs) (db_cache d)
  /\ history_ok fb txs.

(** The frames a reader may hold: the end of a commit. *)
Definition snapshot_of (txs : list Tx) (snap : FrameNo) : Prop :=
  exists k, snap = length (total_images (take k txs)).

Lemma total_images_take k txs :
  take (length (total_images (take k txs))) (total_images txs) = total_images (take k txs).
Proof.
  rewrite <- (take_drop k txs) at 2. unfold total_images. rewrite map_app, concat_app.
  by rewrite take_app_length.
Qed.

Lemma last_commit_images fb h txs d w :
  db_inv fb h txs d w -> last_commit (db_wal d) = length (total_images txs).
Proof.
  intros (_ & _ & _ & (-> & _ & Htxs & _) & _).
  destruct (wal_of_facts psz wpath h txs Htxs) as (_ & Hn & Hl & _). lia.
Qed.

Lemma snapshot_last fb h txs d w :
  db_inv fb h txs d w -> snapshot_of txs (last_commit (db_wal d)).
Proof.
  intros Hinv. exists (length txs). rewrite (last_commit_images _ _ _ _ _ Hinv).
  by rewrite take_ge by lia.
Qed.

Lemma db_inv_running fb h txs d w : db_inv fb h txs d w -> is_crashed w = false.
Proof. intros (_ & _ & _ & (_ & _ & _ & Hs) & _). apply Hs. Qed.

(** Changing the cache to another coherent one, or a counter, keeps it. *)
Lemma db_inv_cache fb h txs d w c :
  db_inv fb h txs d w -> cache_ok fb (total_images txs) c -> db_inv fb h txs (set_db_cache d c) w.
Proof. intros (?&?&?&?&?&_&?) Hc. by split_and!. Qed.
Lemma db_inv_readers fb h txs d w n : db_inv fb h txs d w -> db_inv fb h txs (set_readers d n) w.
Proof. intros (?&?&?&?&?&?&?). by split_and!. Qed.

(** ** Reading *)

Lemma find_spec h txs p snap :
  Forall (tx_ok psz) txs ->
  match find (wal_of psz wpath h txs) p snap with
  | O => newest p (take snap (total_images txs)) = None
  | S i => exists im, total_images txs !! i = Some im /\ im_page im = p
             /\ newest p (take snap (total_images txs)) = Some (im_data im)
  end.
Proof.
  intros Htxs. rewrite find_frames by done.
  pose proof (newest_frames p (take snap (total_images txs))) as Hn.
  destruct (last _) as [g|]; cbn [default from_option id]; [|done].
  destruct Hn as (im & Hg & Hp & Hr & ->). destruct g as [|i]; [lia|].
  replace (S i - 1)%nat with i in Hg by lia. apply lookup_take_Some in Hg as [Hg _]. eauto.
Qed.

Lemma cache_ok_get fb l c k : cache_ok fb l c -> cache_ok fb l (snd (cache_get k c)).
Proof.
  intros [Hwf H]. split; [by apply cache_get_wf|]. unfold cache_get.
  by destruct (entries c !! k).
Qed.

Lemma cache_ok_put fb l c p f b :
  cache_ok fb l c ->
  match f with
  | O => b = file_page fb p
  | S i => exists im, l !! i = Some im /\ im_page im = p /\ im_data im = b
  end -> cache_ok fb l (cache_put (p, f) b c).
Proof.
  intros [Hwf H] Hb. split; [by apply cache_put_wf|]. intros q g x Hx.
  apply (cache_put_lookup _ _ _ _ _ Hwf) in Hx as [[E ->]|[_ Hx]]; [|by apply H].
  by simplify_eq.
Qed.

Lemma file_read_quiet q off len w b :
  is_crashed w = false -> quiet w -> cache w !! q = Some b -> file_read q off len w = (Ret (sub off len b), w).
Proof. intros Hcr Hq Hc. unfold file_read, alive, consult. by rewrite Hcr, Hc, Hq. Qed.

Lemma read_committed_spec fb h txs d w p snap :
  db_inv fb h txs d w -> quiet w -> snapshot_of txs snap ->
  let S := state_at fb (take snap (total_images txs)) in
  0 <= p < Z.of_nat (length S) ->
  exists c, read_committed p snap psz (d, w)
            = (Ret (page_at fb (take snap (total_images txs)) p), (set_db_cache d c, w))
            /\ db_inv fb h txs (set_db_cache d c) w.
Proof.
  intros Hinv Hq [k ->]. rewrite total_images_take. cbv zeta. intros Hp.
  pose proof Hinv as (Hpath & Hps & Hcl & Hwal & Hfile & Hcache & Hhist).
  pose proof (db_inv_running _ _ _ _ _ Hinv) as Hcr.
  pose proof Hwal as (Hx & _ & Htxs & _).
  pose proof (find_spec h txs p (length (total_images (take k txs))) Htxs) as Hfind.
  rewrite total_images_take in Hfind. rewrite <- Hx in Hfind.
  assert (Hok : page_ok (page_at fb (total_images (take k txs)) p)).
  { apply state_ok_page; [apply Hhist|done]. }
  destruct Hok as (Hlen & _ & Hck).
  set (f := find (db_wal d) p _) in *. set (L := total_images (take k txs)) in *.
  assert (Hkey : match f with
                 | O => page_at fb L p = file_page fb p
                 | S i => exists im, total_images txs !! i = Some im /\ im_page im = p
                                     /\ im_data im = page_at fb L p
                 end).
  { unfold page_at. destruct f; [by rewrite Hfind|]. destruct Hfind as (im & ? & ? & ->). eauto. }
  unfold read_committed, bind, getO, lift, ret, modO. cbn [fst snd].
  rewrite Hps, Nat.eqb_refl, Hcl. cbn [negb]. fold f.
  destruct (cache_get (p, f) (db_cache d)) as [[b|] c] eqn:Eg.
  - pose proof (cache_ok_get fb (total_images txs) _ (p, f) Hcache) as Hget. rewrite Eg in Hget. cbn [snd] in Hget.
    exists c. split; [|by apply db_inv_cache]. do 2 f_equal.
    unfold cache_get in Eg. destruct (entries (db_cache d) !! (p, f)) as [b'|] eqn:Ee; [|done].
    simplify_eq. pose proof (proj2 Hcache p f b Ee) as Hb. destruct f as [|i]; [congruence|].
    destruct Hb as (im & ? & ? & ?), Hkey as (im' & ? & ? & ?). congruence.
  - assert (Hread : fetch_page p f (d, w) = (Ret (page_at fb L p), (d, w))).
    { unfold fetch_page, bind, getO. cbn [fst snd]. destruct f as [|i]; cbn [Nat.eqb negb].
      - unfold onw. rewrite Hpath, Hps, (file_read_quiet _ _ _ _ _ Hcr Hq (proj1 (proj2 Hfile))).
        fold (file_page fb p). rewrite <- Hkey, Hlen, Nat.eqb_refl, Hck. done.
      - destruct Hkey as (im & Him & _ & <-). unfold onwal.
        rewrite (read_frame_spec _ _ _ _ _ _ _ _ _ Hwal Hq Him). by destruct d. }
    rewrite Hread. cbn [fst snd].
    eexists. split; [reflexivity|]. apply db_inv_cache; [done|]. apply cache_ok_put; [done|].
    by destruct f.
Qed.

Lemma state_header_inj S h1 h2 : state_header S h1 -> state_header S h2 -> h1 = h2.
Proof. intros (p & ? & ? & _) (q & ? & ? & _). congruence. Qed.

Lemma committed_header_spec fb h txs d w snap :
  db_inv fb h txs d w -> quiet w -> snapshot_of txs snap ->
  let S := state_at fb (take snap (total_images txs)) in
  exists c hdr, committed_header snap (d, w) = (Ret hdr, (set_db_cache d c, w))
    /\ state_header S hdr /\ db_inv fb h txs (set_db_cache d c) w.
Proof.
  intros Hinv Hq Hsnap. cbv zeta. pose proof Hinv as (_ & Hps & _ & _ & _ & _ & Hhist).
  destruct Hsnap as [k Hk].
  pose proof (proj1 Hhist k) as (_ & _ & hdr & p0 & Hp0 & Hdec & Hcount & Hrest).
  pose proof (lookup_lt_Some _ _ _ Hp0) as Hlt.
  rewrite <- (total_images_take k txs), <- Hk in Hp0, Hcount, Hlt.
  destruct (read_committed_spec fb h txs d w 0 snap Hinv Hq) as (c & Hr & Hi); [by exists k|lia|].
  exists c, hdr. rewrite state_at_lookup in Hp0 by done. injection Hp0 as <-.
  unfold committed_header, bind, getO, lift. cbn [fst snd]. rewrite Hps, Hr.
  change (Z.of_nat 0) with 0 in Hdec. rewrite Hdec. split; [done|]. split; [|done].
  exists (page_at fb (take snap (total_images txs)) 0). rewrite state_at_lookup by done. done.
Qed.

(** ** Transactions as page sequences

    A write transaction stands for the pages it would read, [A], over the
    committed state [S] it started from, and for the list of its free
    pages. *)

Fixpoint free_chain (A : list Bytes) (head : PageNo) (l : list PageNo) : Prop :=
  match l with
  | [] => head = 0
  | p :: l => head = p /\ 1 <= p /\ exists b fp, A !! Z.to_nat p = Some b
                /\ FreePage.decode b = Ret fp /\ free_chain A (FreePage.next fp) l
  end.
Definition free_ok (A : list Bytes) (hdr : DbHeader.t) (l : list PageNo) : Prop :=
  free_chain A (DbHeader.freelist_head hdr) l /\ NoDup l
  /\ DbHeader.freelist_count hdr = Z.of_nat (length l)
  /\ Forall (fun p => 1 <= p < Z.of_nat (length A)) l.

Record txn_rel (S A : list Bytes) (free : list PageNo) (t : WriteTxn) : Prop := {
  tr_open : t_finished t = false;
  tr_base : state_header S (t_snapshot_header t);
  tr_count : DbHeader.page_count (t_header t) = Z.of_nat (length A);
  tr_grows : (length S <= length A)%nat;
  tr_bound : Z.of_nat (length A) * Z.of_nat psz < 2 ^ 64;
  tr_pages : forall i, A !! i = match t_dirty t !! Z.of_nat i with Some b => Some b | None => S !! i end;
  tr_dirty : map_Forall (fun p b => 1 <= p < Z.of_nat (length A) /\ length b = psz /\ bytes_ok b) (t_dirty t);
  tr_new : forall p, Z.of_nat (length S) <= p < Z.of_nat (length A) -> is_Some (t_dirty t !! p);
  tr_ident : DbHeader.page_size (t_header t) = DbHeader.page_size (t_snapshot_header t)
    /\ DbHeader.format_version (t_header t) = DbHeader.format_version (t_snapshot_header t)
    /\ DbHeader.db_id (t_header t) = DbHeader.db_id (t_snapshot_header t);
  tr_free : free_ok A (t_header t) free;
  tr_freed : forall p, p ∈ t_freed t -> p ∈ free
}.

Lemma txn_rel_length_pos S A free t : txn_rel S A free t -> (0 < length S)%nat.
Proof. intros H. destruct (tr_base _ _ _ _ H) as (p0 & Hp0 & _). by apply lookup_lt_Some in Hp0. Qed.

(** The pages a transaction works on, and the log it reads them from. *)
Definition txn_inv (fb : Bytes) (h : WalHeader.t) (txs : list Tx) (A : list Bytes) (free : list PageNo)
    (s : WriteTxn * (Db * World)) : Prop :=
  let '(t, (d, w)) := s in
  db_inv fb h txs d w /\ quiet w /\ t_snapshot t = length (total_images txs)
  /\ txn_rel (state_at fb (total_images txs)) A free t.

Lemma free_chain_insert A head l p b :
  p ∉ map Z.to_nat l -> free_chain A head l -> free_chain (<[p := b]> A) head l.
Proof.
  revert head. induction l as [|q l IH]; intros head Hp; [done|]. cbn [map] in Hp.
  apply not_elem_of_cons in Hp as [Hne Hp].
  intros (-> & H1 & c & fp & Hc & Hd & Hl). split; [done|]. split; [done|]. exists c, fp.
  rewrite list_lookup_insert_ne by done. auto.
Qed.

Lemma free_chain_app A B head l : free_chain A head l -> free_chain (A ++ B) head l.
Proof.
  revert head. induction l as [|q l IH]; intros head; [done|].
  intros (-> & H1 & c & fp & Hc & Hd & Hl). split; [done|]. split; [done|]. exists c, fp.
  rewrite lookup_app_l by (by eapply lookup_lt_Some). auto.
Qed.

(** Distinct pages of a range are no more than the range. *)
Lemma free_length (n : nat) (l : list PageNo) :
  NoDup l -> Forall (fun p => 1 <= p < Z.of_nat n) l -> (length l <= n)%nat.
Proof.
  intros Hnd Hall. rewrite Forall_forall in Hall.
  rewrite <- (length_map Z.to_nat), <- (length_seq n 0). apply NoDup_incl_length.
  - apply NoDup_ListNoDup, (NoDup_fmap_2_strong Z.to_nat); [|done].
    intros x y Hx Hy E. apply Hall in Hx, Hy. lia.
  - intros i Hi. apply in_map_iff in Hi as (x & <- & Hx). apply in_seq.
    apply list_elem_of_In, Hall in Hx. lia.
Qed.

Lemma to_nat_free p l :
  1 <= p -> Forall (fun q => 1 <= q) l -> p ∉ l -> Z.to_nat p ∉ map Z.to_nat l.
Proof.
  intros Hp Hl Hn Hin. apply list_elem_of_fmap in Hin as (q & E & Hq).
  rewrite Forall_forall in Hl. specialize (Hl q Hq). assert (p = q) as -> by lia. done.
Qed.

Lemma txn_inv_cache fb h txs A free t d w c :
  txn_inv fb h txs A free (t, (d, w)) -> db_inv fb h txs (set_db_cache d c) w ->
  txn_inv fb h txs A free (t, (set_db_cache d c, w)).
Proof. intros (_ & ?) ?. done. Qed.

Lemma set_db_cache_same d : set_db_cache d (db_cache d) = d.
Proof. by destruct d. Qed.

Lemma write_txn_read_spec fb h txs A free t d w p :
  txn_inv fb h txs A free (t, (d, w)) -> 0 <= p < Z.of_nat (length A) ->
  exists b c, A !! Z.to_nat p = Some b
    /\ write_txn_read p psz (t, (d, w)) = (Ret b, (t, (set_db_cache d c, w)))
    /\ txn_inv fb h txs A free (t, (set_db_cache d c, w)).
Proof.
  intros Hinv Hp. pose proof Hinv as (Hdb & Hq & Hsnap & Ht).
  pose proof Hdb as (_ & Hps & _). pose proof (tr_pages _ _ _ _ Ht (Z.to_nat p)) as Hpage.
  rewrite Z2Nat.id in Hpage by lia.
  unfold write_txn_read, bind, getO, onw, lift, ret. cbn [fst snd].
  rewrite (tr_open _ _ _ _ Ht), Hps, Nat.eqb_refl, (tr_count _ _ _ _ Ht). cbn [negb].
  destruct (Z.leb_spec (Z.of_nat (length A)) p); [lia|].
  destruct (t_dirty t !! p) as [b|] eqn:Ed.
  { exists b, (db_cache d). rewrite set_db_cache_same. done. }
  destruct (tr_base _ _ _ _ Ht) as (p0 & _ & _ & Hc & _). rewrite Hc.
  destruct (Z.leb_spec (Z.of_nat (length (state_at fb (total_images txs)))) p) as [Hle|Hlt].
  { destruct (tr_new _ _ _ _ Ht p) as [b Hb]; [lia|congruence]. }
  assert (Hso : snapshot_of txs (t_snapshot t)).
  { exists (length txs). by rewrite take_ge by lia. }
  assert (Et : take (t_snapshot t) (total_images txs) = total_images txs) by (rewrite take_ge; [done|lia]).
  destruct (read_committed_spec fb h txs d w p (t_snapshot t) Hdb Hq Hso) as (c & Hr & Hi); [rewrite Et; lia|].
  rewrite Et in Hr. exists (page_at fb (total_images txs) p), c.
  rewrite Hpage, state_at_page by lia. rewrite Hr. split; [done|]. split; [done|]. by split.
Qed.

(** Replacing one page by another of the right size. *)
Lemma txn_rel_write S A free t p b :
  txn_rel S A free t -> 1 <= p < Z.of_nat (length A) -> length b = psz -> bytes_ok b -> p ∉ free ->
  txn_rel S (<[Z.to_nat p := b]> A) free (set_dirty t (<[p := b]> (t_dirty t))).
Proof.
  intros [] Hp Hl Hb Hn. pose proof tr_free0 as (Hch & Hnd & Hcnt & Hall).
  constructor; cbn [t_finished t_header t_snapshot_header t_dirty t_freed set_dirty];
    rewrite ?length_insert; try done.
  - intros i. destruct (decide (i = Z.to_nat p)) as [->|Hne].
    + rewrite list_lookup_insert_eq by lia. rewrite Z2Nat.id, lookup_insert_eq by lia. done.
    + rewrite list_lookup_insert_ne by done. rewrite lookup_insert_ne by lia. apply tr_pages0.
  - apply map_Forall_insert_2; [done|done].
  - intros q Hq. destruct (decide (q = p)) as [->|]; [rewrite lookup_insert_eq; by eauto|].
    rewrite lookup_insert_ne by done. by apply tr_new0.
  - split_and!; try done; [|by rewrite length_insert].
    apply free_chain_insert; [|done]. apply to_nat_free; [lia| |done].
    eapply Forall_impl; [exact Hall|]. cbn. lia.
Qed.

Lemma write_page_spec fb h txs A free t d w p b :
  txn_inv fb h txs A free (t, (d, w)) -> 1 <= p < Z.of_nat (length A) ->
  length b = psz -> bytes_ok b -> p ∉ free ->
  let t' := set_dirty t (<[p := b]> (t_dirty t)) in
  write_page p b (t, (d, w)) = (Ret tt, (t', (d, w)))
  /\ txn_inv fb h txs (<[Z.to_nat p := b]> A) free (t', (d, w)).
Proof.
  intros Hinv Hp Hl Hb Hn. pose proof Hinv as (Hdb & Hq & Hsnap & Ht). pose proof Hdb as (_ & Hps & _).
  split; [|split_and!; try done; by apply txn_rel_write].
  unfold write_page, bind, getO, onw, lift, modO. cbn [fst snd].
  rewrite (tr_open _ _ _ _ Ht), Hps, Hl, Nat.eqb_refl, (tr_count _ _ _ _ Ht). cbn [negb].
  destruct (Z.eqb_spec p 0); [lia|]. destruct (Z.leb_spec (Z.of_nat (length A)) p); [lia|].
  rewrite bool_decide_eq_false_2; [done|]. intros Hf. by apply Hn, (tr_freed _ _ _ _ Ht).
Qed.

Definition free_page_image (head : PageNo) : Bytes :=
  FreePage.encode (FreePage.mk head) (replicate psz 0).

Lemma FreePage_decode_encode n page :
  u64_ok n -> (16 <= length page)%nat -> FreePage.decode (FreePage.encode (FreePage.mk n) page) = Ret (FreePage.mk n).
Proof.
  intros Hn Hl. unfold FreePage.decode, FreePage.encode, FreePage.kEncodedBytes. cbn [FreePage.next].
  rewrite length_put_u64, length_blit. destruct (Nat.ltb_spec (length page) 16); [lia|]. cbn [orb].
  assert (magic_differs (put_u64 (blit 0 FreePage.kMagic page) 8 n) FreePage.kMagic = false) as ->.
  { apply magic_differs_false; [rewrite length_put_u64, length_blit; lia|done|].
    unfold put_u64. rewrite sub_blit_before by lia. apply sub_blit_same; [done|cbn; lia]. }
  do 2 f_equal. apply get_put_le; [rewrite length_blit; lia|done].
Qed.

Lemma length_free_page_image n : length (free_page_image n) = psz.
Proof. unfold free_page_image, FreePage.encode. by rewrite length_put_u64, length_blit, length_replicate. Qed.
Lemma bytes_ok_free_page_image n : bytes_ok (free_page_image n).
Proof.
  unfold free_page_image, FreePage.encode. apply bytes_ok_put_u64, bytes_ok_blit; [decide_now|].
  by apply bytes_ok_replicate.
Qed.

Lemma free_page_spec fb h txs A free t d w p :
  (16 <= psz)%nat ->
  txn_inv fb h txs A free (t, (d, w)) -> 1 <= p < Z.of_nat (length A) -> p ∉ free ->
  exists t', free_page p (t, (d, w)) = (Ret tt, (t', (d, w)))
    /\ txn_inv fb h txs (<[Z.to_nat p := free_page_image (DbHeader.freelist_head (t_header t))]> A) (p :: free) (t', (d, w)).
Proof.
  intros Hpsz Hinv Hp Hn. pose proof Hinv as (Hdb & Hq & Hsnap & Ht). pose proof Hdb as (_ & Hps & _).
  set (b := free_page_image _).
  pose proof (txn_rel_write _ _ _ _ p b Ht Hp (length_free_page_image _) (bytes_ok_free_page_image _) Hn) as Hw.
  pose proof (tr_free _ _ _ _ Hw) as (Hch & Hnd & Hcnt & Hall). rewrite length_insert in Hall.
  cbn [t_header set_dirty] in Hch, Hcnt.
  eexists. split.
  { unfold free_page, bind, getO, onw, lift, modO. cbn [fst snd].
    rewrite (tr_open _ _ _ _ Ht), Hps, (tr_count _ _ _ _ Ht).
    destruct (Z.eqb_spec p 0); [lia|]. destruct (Z.leb_spec (Z.of_nat (length A)) p); [lia|]. cbn [orb].
    rewrite bool_decide_eq_false_2; [reflexivity|]. intros Hf. by apply Hn, (tr_freed _ _ _ _ Ht). }
  split_and!; try done.
  assert (Hhead : u64_ok (DbHeader.freelist_head (t_header t))).
  { pose proof (tr_bound _ _ _ _ Ht). unfold u64_ok. destruct free as [|q free]; cbn [free_chain] in Hch; [lia|].
    destruct Hch as (-> & _). apply Forall_cons in Hall as [Hq1 _]. nia. }
  assert (Hlt : Z.of_nat (length (p :: free)) < 2 ^ 64).
  { pose proof (tr_bound _ _ _ _ Ht).
    pose proof (free_length (length A) (p :: free)) as Hfl.
    assert (length (p :: free) <= length A)%nat; [|nia].
    apply Hfl; [by constructor|]. by constructor. }
  destruct Hw as [H1 H2 H3 H4 H5 H6 H7 H8 H9 H10 H11]. cbn [t_finished t_header t_snapshot_header t_dirty t_freed set_dirty] in *.
  constructor; cbn [t_finished t_header t_snapshot_header t_dirty t_freed set_txn_header set_freed set_dirty with_freelist
    DbHeader.page_count DbHeader.page_size DbHeader.format_version DbHeader.db_id DbHeader.freelist_head DbHeader.freelist_count]; try done.
  - unfold free_ok. rewrite length_insert. cbn [free_chain DbHeader.freelist_head DbHeader.freelist_count length].
    split_and!; [done|lia|..].
    + exists b, (FreePage.mk (DbHeader.freelist_head (t_header t))).
      rewrite list_lookup_insert_eq by lia. split; [done|]. split; [|done].
      apply FreePage_decode_encode; [done|]. rewrite length_replicate. lia.
    + by constructor.
    + cbn [fst with_freelist DbHeader.freelist_count]. rewrite Hcnt. cbn [length] in Hlt. unfold wrap64. rewrite Z.mod_small; lia.
    + constructor; [lia|done].
  - intros q. rewrite elem_of_union, elem_of_singleton, elem_of_cons. intros [Hf| ->]; [right; auto|by left].
Qed.

Definition zero_page : Bytes := replicate psz 0.

Lemma zero_page_ok : length zero_page = psz /\ bytes_ok zero_page.
Proof. unfold zero_page. rewrite length_replicate. split; [done|]. by apply bytes_ok_replicate. Qed.

(** Taking the head off the free list. *)
Lemma txn_rel_pop S A q free t fp b :
  (0 < psz)%nat -> txn_rel S A (q :: free) t -> A !! Z.to_nat q = Some b -> FreePage.decode b = Ret fp ->
  txn_rel S (<[Z.to_nat q := zero_page]> A) free
    (set_dirty (set_freed (set_txn_header t (with_freelist (FreePage.next fp)
        (wrap64 (DbHeader.freelist_count (t_header t) - 1)) (t_header t))) (t_freed t ∖ {[q]}))
      (<[q := zero_page]> (t_dirty t))).
Proof.
  intros Hpos Ht Hb Hfp. pose proof (tr_free _ _ _ _ Ht) as (Hch & Hnd & Hcnt & Hall).
  destruct Hch as (_ & Hq & b' & fp' & Hb' & Hfp' & Hch).
  assert (b' = b) as -> by congruence. assert (fp' = fp) as -> by congruence.
  apply NoDup_cons in Hnd as [Hnq Hnd]. apply Forall_cons in Hall as [Hqr Hall].
  destruct zero_page_ok as [Hz1 Hz2].
  pose proof (tr_bound _ _ _ _ Ht) as Hbound.
  assert (Hlt : Z.of_nat (length free) < 2 ^ 64).
  { pose proof (free_length _ _ Hnd Hall). nia. }
  pose proof (txn_rel_write S A [] (mkWriteTxn (t_snapshot t) (with_freelist 0 0 (t_header t))
    (t_snapshot_header t) (t_dirty t) ∅ false) q zero_page) as Hw.
  destruct Hw as [H1 H2 H3 H4 H5 H6 H7 H8 H9 _ _]; try done.
  { destruct Ht. constructor; cbn [t_finished t_header t_snapshot_header t_dirty t_freed with_freelist
      DbHeader.page_count DbHeader.page_size DbHeader.format_version DbHeader.db_id]; try done.
    - split_and!; try done. constructor.
  }
  { apply not_elem_of_nil. }
  cbn [t_finished t_header t_snapshot_header t_dirty t_freed set_dirty with_freelist
      DbHeader.page_count DbHeader.page_size DbHeader.format_version DbHeader.db_id] in *.
  constructor; cbn [t_finished t_header t_snapshot_header t_dirty t_freed set_txn_header set_freed set_dirty with_freelist
    DbHeader.page_count DbHeader.page_size DbHeader.format_version DbHeader.db_id]; try done.
  - apply Ht.
  - unfold free_ok. cbn [with_freelist DbHeader.freelist_head DbHeader.freelist_count]. rewrite length_insert.
    split_and!; [|done| |done].
    + apply free_chain_insert; [|done]. apply to_nat_free; [done| |done].
      eapply Forall_impl; [exact Hall|]. cbn. lia.
    + rewrite Hcnt. cbn [length]. unfold wrap64. rewrite Z.mod_small; lia.
  - intros x Hx. apply elem_of_difference in Hx as [Hx Hne]. apply (tr_freed _ _ _ _ Ht) in Hx.
    set_solver.
Qed.

Lemma txn_rel_grow S A t :
  txn_rel S A [] t -> (Z.of_nat (length A) + 1) * Z.of_nat psz < 2 ^ 64 -> (0 < psz)%nat ->
  txn_rel S (A ++ [zero_page]) []
    (set_dirty (set_txn_header t (with_page_count (wrap64 (Z.of_nat (length A) + 1)) (t_header t)))
      (<[Z.of_nat (length A) := zero_page]> (t_dirty t))).
Proof.
  intros Ht Hb Hpsz. destruct zero_page_ok as [Hz1 Hz2]. pose proof (txn_rel_length_pos _ _ _ _ Ht).
  destruct Ht as [H1 H2 H3 H4 H5 H6 H7 H8 H9 H10 H11].
  assert (Hwrap : wrap64 (Z.of_nat (length A) + 1) = Z.of_nat (length A) + 1).
  { unfold wrap64. apply Z.mod_small. nia. }
  constructor; cbn [t_finished t_header t_snapshot_header t_dirty t_freed set_txn_header set_dirty with_page_count
    DbHeader.page_count DbHeader.page_size DbHeader.format_version DbHeader.db_id]; try done.
  - rewrite length_app, Hwrap. cbn. lia.
  - rewrite length_app. lia.
  - rewrite length_app. cbn. lia.
  - intros i. destruct (decide (i = length A)) as [->|Hne].
    + rewrite lookup_insert_eq. rewrite lookup_app_r, Nat.sub_diag by lia. done.
    + rewrite lookup_insert_ne by lia. destruct (decide (i < length A)%nat).
      * by rewrite lookup_app_l by lia.
      * rewrite lookup_ge_None_2 by (rewrite length_app; cbn; lia). rewrite <- H6. symmetry.
        apply lookup_ge_None_2. lia.
  - rewrite length_app. cbn [length]. apply map_Forall_insert_2.
    + split_and!; [lia..|done|done].
    + intros p b Hp. apply H7 in Hp. intuition lia.
  - rewrite length_app. cbn [length]. intros p Hp. destruct (decide (p = Z.of_nat (length A))) as [->|].
    + rewrite lookup_insert_eq. eauto.
    + rewrite lookup_insert_ne by done. apply H8. lia.
  - destruct H10 as (Hch & Hnd & Hcnt & Hall). unfold free_ok.
    cbn [with_page_count DbHeader.freelist_head DbHeader.freelist_count].
    split_and!; [by apply free_chain_app|done|done|constructor].
Qed.

(** What allocation means for the pages and the free list. *)
Definition allocated (A : list Bytes) (free : list PageNo) : PageNo * list Bytes * list PageNo :=
  match free with
  | [] => (Z.of_nat (length A), A ++ [zero_page], [])
  | q :: free => (q, <[Z.to_nat q := zero_page]> A, free)
  end.

Lemma allocate_page_spec fb h txs A free t d w :
  (16 <= psz)%nat -> (Z.of_nat (length A) + 1) * Z.of_nat psz < 2 ^ 64 ->
  txn_inv fb h txs A free (t, (d, w)) ->
  let '(p, A', free') := allocated A free in
  exists t' c, allocate_page (t, (d, w)) = (Ret p, (t', (set_db_cache d c, w)))
    /\ txn_inv fb h txs A' free' (t', (set_db_cache d c, w)).
Proof.
  intros Hpsz Hb Hinv. pose proof Hinv as (Hdb & Hq & Hsnap & Ht). pose proof Hdb as (_ & Hps & _).
  pose proof (tr_free _ _ _ _ Ht) as (Hch & Hnd & Hcnt & Hall).
  unfold allocate_page, allocated, bind, getO, onw, lift, modO, ret. cbn [fst snd].
  rewrite (tr_open _ _ _ _ Ht), Hps. destruct free as [|q free].
  - cbn [free_chain] in Hch. rewrite Hch. cbn [negb Z.eqb]. eexists. exists (db_cache d).
    rewrite set_db_cache_same. cbn [fst snd]. rewrite (tr_count _ _ _ _ Ht). split; [reflexivity|].
    split_and!; try done. exact (txn_rel_grow _ _ _ Ht Hb ltac:(lia)).
  - destruct Hch as (Hhead & Hq1 & b & fp & Hbq & Hfp & Hch). rewrite Hhead.
    destruct (Z.eqb_spec q 0); [lia|]. cbn [negb].
    apply Forall_cons in Hall as [Hqr _].
    destruct (write_txn_read_spec fb h txs A (q :: free) t d w q Hinv ltac:(lia)) as (b' & c & Hb' & Hr & Hi).
    rewrite Hr. assert (b' = b) as -> by congruence. rewrite Hfp. cbn [fst snd].
    do 2 eexists. split; [reflexivity|]. destruct Hi as (Hdb' & _).
    split_and!; try done. exact (txn_rel_pop _ _ _ _ _ _ b ltac:(lia) Ht Hbq Hfp).
Qed.

(** ** The log leaves the data file alone *)

Section log_keeps.
Variable other : string.
Definition log_elsewhere (x : Wal) : Prop := wal_path x <> other.

Lemma read_frame_keeps f : method_keeps log_elsewhere other (read_frame_page f).
Proof. unfold read_frame_page. walk_method; auto with archivum. Qed.

Lemma discard_keeps : method_keeps log_elsewhere other discard_uncommitted.
Proof. unfold discard_uncommitted. walk_method; auto with archivum. Qed.

Lemma append_keeps images n : method_keeps log_elsewhere other (append_transaction images n).
Proof.
  unfold append_transaction. walk_method; auto using discard_keeps with archivum.
Qed.

Lemma write_header_keeps : method_keeps log_elsewhere other write_header.
Proof. unfold write_header. walk_method; auto with archivum. Qed.

Lemma fresh_salts_keeps : method_keeps log_elsewhere other fresh_salts.
Proof. unfold fresh_salts. walk_method; auto with archivum. Qed.

Lemma reset_keeps cc : method_keeps log_elsewhere other (reset cc).
Proof. unfold reset. walk_method; auto using write_header_keeps, fresh_salts_keeps with archivum. Qed.

Lemma copy_chunks_keeps fuel dst total off :
  dst <> other -> method_keeps log_elsewhere other (copy_chunks fuel dst total off).
Proof.
  intros Hd. revert off. induction fuel as [|fuel IH]; intros off; cbn [copy_chunks]; walk_method; auto with archivum.
Qed.

Lemma copy_committed_keeps dst : dst <> other -> method_keeps log_elsewhere other (copy_committed_to dst).
Proof.
  intros Hd. unfold copy_committed_to. walk_method; auto using copy_chunks_keeps with archivum.
Qed.
End log_keeps.

(** ** Committing *)

Lemma newest_app p a b : newest p (a ++ b) = match newest p b with Some x => Some x | None => newest p a end.
Proof.
  unfold newest. rewrite fold_left_app. generalize (fold_left
    (fun acc im => if im_page im =? p then Some (im_data im) else acc) a None).
  induction b as [|im b IH] using rev_ind; intros acc; [done|].
  rewrite !fold_left_app. cbn [fold_left]. destruct (im_page im =? p); [done|apply IH].
Qed.

Definition to_image (pb : PageNo * Bytes) : PageImage := mkImage (fst pb) (snd pb).

Lemma newest_to_image p l :
  NoDup (l.*1) -> newest p (map to_image l) = (list_to_map l : gmap PageNo Bytes) !! p.
Proof.
  induction l as [|[q b] l IH]; intros Hnd; [done|].
  cbn [fmap list_fmap] in Hnd. apply NoDup_cons in Hnd as [Hq Hnd].
  change (map to_image ((q, b) :: l)) with ([mkImage q b] ++ map to_image l).
  rewrite newest_app, IH by done. cbn [list_to_map foldr fst snd curry uncurry].
  destruct (decide (q = p)) as [->|Hne].
  - rewrite lookup_insert_eq. rewrite not_elem_of_list_to_map_1 by done.
    unfold newest. cbn. by rewrite Z.eqb_refl.
  - rewrite lookup_insert_ne by done. destruct (list_to_map l !! p); [done|].
    unfold newest. cbn. destruct (Z.eqb_spec q p); [congruence|done].
Qed.

Definition sealed_dirty (m : gmap PageNo Bytes) : list (PageNo * Bytes) :=
  map (fun '(p, b) => (p, seal_page b)) (merge_sort dirty_le (map_to_list m)).

Lemma sealed_dirty_keys m : NoDup ((sealed_dirty m).*1).
Proof.
  unfold sealed_dirty. rewrite <- list_fmap_compose.
  assert (E : (fst ∘ (fun '(p, b) => (p, seal_page b))) <$> merge_sort dirty_le (map_to_list m)
              = (merge_sort dirty_le (map_to_list m)).*1).
  { apply list_fmap_ext. by intros i [p b]. }
  rewrite E. rewrite (merge_sort_Permutation dirty_le (map_to_list m)). apply NoDup_fst_map_to_list.
Qed.

Lemma sealed_dirty_newest m p : newest p (map to_image (sealed_dirty m)) = seal_page <$> m !! p.
Proof.
  rewrite newest_to_image by apply sealed_dirty_keys.
  assert (E : list_to_map (sealed_dirty m) = seal_page <$> (m : gmap PageNo Bytes)); [|by rewrite E, lookup_fmap].
  unfold sealed_dirty.
  assert (E : map (fun '(p, b) => (p, seal_page b)) (merge_sort dirty_le (map_to_list m))
              = prod_map id seal_page <$> merge_sort dirty_le (map_to_list m)).
  { apply list_fmap_ext. by intros i [q b]. }
  rewrite E, list_to_map_fmap. f_equal.
  rewrite <- (list_to_map_to_list m) at 2. apply list_to_map_proper.
  - rewrite (merge_sort_Permutation dirty_le (map_to_list m)). apply NoDup_fst_map_to_list.
  - apply merge_sort_Permutation.
Qed.

(** A page that passes its checksum is its own sealed form. *)
Lemma seal_page_id b : bytes_ok b -> page_checksum_ok b = true -> seal_page b = b.
Proof.
  intros Hb Hc. unfold page_checksum_ok in Hc. destruct (_ <? _)%nat eqn:E; [done|]. breflect.
  unfold seal_page. apply put_get_u32; [done| |done].
  unfold kPageTrailerBytes in *. lia.
Qed.

Definition header_image (hdr : DbHeader.t) : Bytes := seal_page (DbHeader.encode hdr (replicate psz 0)).

Lemma header_image_ok hdr :
  DbHeader.wf hdr -> DbHeader.page_size hdr = Z.of_nat psz ->
  page_ok (header_image hdr) /\ DbHeader.decode (header_image hdr) = Ret hdr.
Proof.
  intros Hwf Hps. unfold header_image, page_ok.
  assert (Hb : 512 <= Z.of_nat psz <= 65536) by (rewrite <- Hps; apply valid_page_size_bounds, Hwf).
  assert (Hz : bytes_ok (replicate psz 0)) by (by apply bytes_ok_replicate).
  pose proof (length_DbHeader_encode hdr (replicate psz 0)) as Hle. rewrite length_replicate in Hle.
  pose proof (bytes_ok_DbHeader_encode hdr (replicate psz 0)) as Hbe.
  split; [split_and!|].
  - by rewrite length_seal_page.
  - apply bytes_ok_seal_page. by apply Hbe.
  - apply seal_page_checksum; [by apply Hbe|lia].
  - rewrite DbHeader_decode_front, take_seal_page, <- DbHeader_decode_front
      by (rewrite ?length_seal_page; lia).
    apply DbHeader_decode_encode; [done|rewrite length_replicate; lia].
Qed.

Lemma commit_images_eq m hdr : commit_images psz m hdr = sealed_dirty m ++ [(0, header_image hdr)].
Proof. reflexivity. Qed.
#[local] Opaque seal_page DbHeader.encode DbHeader.decode page_checksum_ok header_image commit_images.

(** The state a commit makes: the header page and the sealed pages. *)
Definition next_state (A : list Bytes) (hdr : DbHeader.t) : list Bytes :=
  header_image hdr :: map seal_page (drop 1 A).

Definition commit_header (now : Z) (t : WriteTxn) : DbHeader.t :=
  with_commit (wrap64 (DbHeader.change_counter (t_snapshot_header t) + 1)) now (t_header t).
Definition commit_tx (now : Z) (t : WriteTxn) : Tx :=
  mkTx (map to_image (commit_images psz (t_dirty t) (commit_header now t)))
       (DbHeader.page_count (t_header t)).

Lemma commit_images_newest m hdr p :
  m !! 0 = None ->
  newest p (map to_image (commit_images psz m hdr))
  = if p =? 0 then Some (header_image hdr) else seal_page <$> m !! p.
Proof.
  intros H0. rewrite commit_images_eq, map_app, newest_app, sealed_dirty_newest. cbn [map]. unfold newest, to_image. cbn [fold_left im_page im_data fst snd].
  destruct (Z.eqb_spec 0 p) as [<-|]; [done|]. rewrite (proj2 (Z.eqb_neq p 0)) by lia. by destruct (m !! p).
Qed.

Lemma txn_rel_dirty0 S A free t : txn_rel S A free t -> t_dirty t !! 0 = None.
Proof.
  intros H. destruct (t_dirty t !! 0) as [b|] eqn:E; [|done]. apply (tr_dirty _ _ _ _ H) in E. lia.
Qed.

Lemma commit_header_wf S A free t now :
  state_ok S -> txn_rel S A free t -> i64_ok now -> (0 < psz)%nat ->
  DbHeader.wf (commit_header now t) /\ DbHeader.page_size (commit_header now t) = Z.of_nat psz.
Proof.
  intros [HS _] Ht Hnow Hpsz. pose proof (txn_rel_length_pos _ _ _ _ Ht).
  destruct (tr_base _ _ _ _ Ht) as (p0 & Hp0 & Hdec & Hc & Hp & Hid).
  rewrite Forall_lookup in HS. destruct (HS 0%nat p0 Hp0) as (_ & Hb & _).
  destruct (DbHeader_decode_wf p0 _ Hb Hdec) as [(W1 & W2 & W3 & W4 & W5 & W6 & W7 & W8 & W9 & W10 & W11) _].
  destruct (tr_ident _ _ _ _ Ht) as (I1 & I2 & I3). pose proof (tr_bound _ _ _ _ Ht) as Hbd.
  pose proof (tr_count _ _ _ _ Ht) as Hcnt. pose proof (tr_grows _ _ _ _ Ht).
  destruct (tr_free _ _ _ _ Ht) as (Hch & Hnd & Hfc & Hall).
  pose proof (free_length _ _ Hnd Hall) as Hfl.
  unfold commit_header, with_commit, DbHeader.wf.
  cbn [DbHeader.page_size DbHeader.format_version DbHeader.page_count DbHeader.freelist_head DbHeader.freelist_count
       DbHeader.change_counter DbHeader.db_id DbHeader.commit_time_us].
  rewrite I1, I2, I3, Hcnt, Hfc. split; [|done]. split_and!; try done; unfold u64_ok; try nia.
  - destruct free as [|q free]; cbn [free_chain] in Hch; [lia|]. destruct Hch as (-> & _).
    apply Forall_cons in Hall as [Hq _]. nia.
  - unfold wrap64. apply Z.mod_pos_bound. lia.
Qed.

Lemma length_next_state A hdr : (0 < length A)%nat -> length (next_state A hdr) = length A.
Proof. intros. unfold next_state. cbn [length]. rewrite length_map, length_drop. lia. Qed.

Lemma next_state_lookup A hdr i : next_state A hdr !! S i = seal_page <$> A !! S i.
Proof.
  unfold next_state. cbn [lookup list_lookup]. change (map seal_page (drop 1 A) !! i = seal_page <$> A !! S i).
  rewrite list_lookup_fmap, lookup_drop. done.
Qed.

Lemma commit_state fb l A free t now :
  let S := state_at fb l in
  state_ok S -> txn_rel S A free t -> i64_ok now -> (0 < psz)%nat ->
  state_at fb (l ++ tx_images (commit_tx now t)) = next_state A (commit_header now t)
  /\ state_ok (next_state A (commit_header now t)).
Proof.
  cbv zeta. intros HS Ht Hnow Hpsz.
  destruct (commit_header_wf _ _ _ _ _ HS Ht Hnow Hpsz) as [Hwf Hps].
  destruct (header_image_ok _ Hwf Hps) as [Hhok Hhdec].
  pose proof (txn_rel_dirty0 _ _ _ _ Ht) as Hd0. pose proof (txn_rel_length_pos _ _ _ _ Ht) as Hpos.
  pose proof (tr_grows _ _ _ _ Ht) as Hgrow. pose proof (tr_count _ _ _ _ Ht) as Hcnt.
  set (hdr := commit_header now t) in *.
  assert (Hcc : DbHeader.page_count hdr = Z.of_nat (length A)) by done.
  assert (Hpage : forall p, page_at fb (l ++ tx_images (commit_tx now t)) p
            = if p =? 0 then header_image hdr
              else match t_dirty t !! p with Some b => seal_page b | None => page_at fb l p end).
  { intros p. unfold page_at. rewrite newest_app. cbn [tx_images commit_tx]. fold hdr.
    rewrite commit_images_newest by done. destruct (p =? 0); [done|]. by destruct (t_dirty t !! p). }
  assert (Hlen : length (state_at fb (l ++ tx_images (commit_tx now t))) = length A).
  { rewrite length_state_at. unfold count_at. rewrite Hpage. cbn [Z.eqb]. rewrite Hhdec. lia. }
  assert (Hsealed : forall i b, A !! i = Some b -> page_ok (seal_page b)).
  { intros i b Hb. rewrite (tr_pages _ _ _ _ Ht) in Hb. destruct (t_dirty t !! Z.of_nat i) as [b'|] eqn:Ed.
    - injection Hb as ->. apply (tr_dirty _ _ _ _ Ht) in Ed as (_ & Hl & Hbo). unfold page_ok.
      rewrite length_seal_page. split_and!; [done|by apply bytes_ok_seal_page|].
      apply seal_page_checksum; [done|]. rewrite Hl.
      assert (512 <= Z.of_nat psz <= 65536) by (rewrite <- Hps; apply valid_page_size_bounds, Hwf). lia.
    - destruct HS as [HS _]. rewrite Forall_lookup in HS. destruct (HS i b Hb) as (? & ? & ?).
      rewrite seal_page_id by done. done. }
  assert (Heq : state_at fb (l ++ tx_images (commit_tx now t)) = next_state A hdr).
  { apply list_eq_same_length with (n := length A); [rewrite length_next_state; lia|done|].
    - intros i x y Hi Hx Hy. rewrite state_at_lookup in Hx by lia. injection Hx as <-. rewrite Hpage.
      destruct i as [|i]; [by injection Hy as <-|].
      rewrite next_state_lookup, (tr_pages _ _ _ _ Ht) in Hy.
      destruct (Z.eqb_spec (Z.of_nat (S i)) 0); [lia|].
      destruct (t_dirty t !! Z.of_nat (S i)) as [b|] eqn:Ed; [by injection Hy as <-|].
      destruct (state_at fb l !! S i) as [b|] eqn:Es; [|done]. injection Hy as <-.
      pose proof (lookup_lt_Some _ _ _ Es). rewrite state_at_lookup in Es by done. injection Es as <-.
      destruct (state_ok_page fb l (Z.of_nat (S i)) HS ltac:(lia)) as (_ & ? & ?).
      by rewrite seal_page_id. }
  split; [done|]. split_and!.
  - apply Forall_cons. split; [done|]. apply Forall_lookup. intros i b Hb.
    rewrite list_lookup_fmap, lookup_drop in Hb. destruct (A !! (1 + i)%nat) as [x|] eqn:E; [|done].
    injection Hb as <-. by eapply Hsealed.
  - rewrite length_next_state by lia. apply (tr_bound _ _ _ _ Ht).
  - exists hdr, (header_image hdr). rewrite length_next_state by lia. split_and!; try done.
    destruct (tr_ident _ _ _ _ Ht) as (_ & _ & I3). cbn [hdr commit_header with_commit DbHeader.db_id].
    rewrite I3. by destruct (tr_base _ _ _ _ Ht) as (? & _ & _ & _ & _ & ?).
Qed.

Lemma commit_tx_ok fb l A free t now :
  let S := state_at fb l in
  state_ok S -> txn_rel S A free t -> i64_ok now -> (0 < psz)%nat -> tx_ok psz (commit_tx now t).
Proof.
  cbv zeta. intros HS Ht Hnow Hpsz.
  destruct (commit_header_wf _ _ _ _ _ HS Ht Hnow Hpsz) as [Hwf Hps].
  destruct (header_image_ok _ Hwf Hps) as [Hhok Hhdec].
  assert (Hb : 512 <= Z.of_nat psz <= 65536) by (rewrite <- Hps; apply valid_page_size_bounds, Hwf).
  pose proof (tr_bound _ _ _ _ Ht). pose proof (txn_rel_length_pos _ _ _ _ Ht). pose proof (tr_grows _ _ _ _ Ht).
  pose proof (tr_count _ _ _ _ Ht) as Hcnt.
  unfold tx_ok, commit_tx. cbn [tx_images tx_size]. split_and!.
  - rewrite commit_images_eq, map_app. apply Forall_app. split; [|constructor; [|constructor]].
    + apply Forall_forall. intros im Him. apply list_elem_of_fmap in Him as ([p b] & -> & Hin).
      apply list_elem_of_fmap in Hin as ([p' b'] & E & Hin). injection E as -> ->.
      rewrite (merge_sort_Permutation dirty_le) in Hin. apply elem_of_map_to_list in Hin.
      apply (tr_dirty _ _ _ _ Ht) in Hin as (Hr & Hl & Hbo).
      unfold image_ok, to_image. cbn [im_page im_data fst snd]. rewrite length_seal_page.
      split_and!; [unfold u64_ok; nia|done|by apply bytes_ok_seal_page|apply seal_page_checksum; [done|lia]].
    + destruct Hhok as (? & ? & ?). split_and!; done.
  - unfold u64_ok. nia.
  - lia.
  - exists (mkImage 0 (header_image (commit_header now t))), (commit_header now t).
    rewrite commit_images_eq, map_app. cbn [map]. split; [by rewrite last_snoc|]. done.
Qed.

Lemma commit_tx_within S A free t now :
  txn_rel S A free t ->
  Forall (fun im => 0 <= im_page im < Z.of_nat (length A)) (tx_images (commit_tx now t)).
Proof.
  intros Ht. pose proof (txn_rel_length_pos _ _ _ _ Ht). pose proof (tr_grows _ _ _ _ Ht).
  cbn [tx_images commit_tx]. rewrite commit_images_eq, map_app. apply Forall_app.
  split; [|constructor; [cbn; lia|constructor]].
  apply Forall_forall. intros im Him. apply list_elem_of_fmap in Him as ([p b] & -> & Hin).
  apply list_elem_of_fmap in Hin as ([p' b'] & E & Hin). injection E as -> ->.
  rewrite (merge_sort_Permutation dirty_le) in Hin. apply elem_of_map_to_list in Hin.
  apply (tr_dirty _ _ _ _ Ht) in Hin as (Hr & _). cbn. lia.
Qed.

Lemma cache_ok_mono fb l l' c : cache_ok fb l c -> cache_ok fb (l ++ l') c.
Proof.
  intros [Hwf H]. split; [done|]. intros p [|i] b Hb; [by apply (H p 0%nat)|].
  destruct (H p (S i) b Hb) as (im & Hi & ?). exists im. split; [|done]. by apply lookup_app_l_Some.
Qed.

Lemma cache_images_ok fb (imgs : list (PageNo * Bytes)) l frame c :
  cache_ok fb l c -> drop (frame - 1) l = map to_image imgs -> (1 <= frame)%nat ->
  cache_ok fb l (cache_images imgs frame c).
Proof.
  revert frame c. induction imgs as [|[p b] imgs IH]; intros frame c Hc Hd Hf; [done|].
  cbn [cache_images]. apply IH; [|replace (S frame - 1)%nat with (S (frame - 1)) by lia|lia].
  - apply cache_ok_put; [done|]. destruct frame as [|f]; [lia|]. exists (mkImage p b).
    split; [|done]. replace (S f - 1)%nat with f in Hd by lia.
    rewrite <- (Nat.add_0_r f), <- lookup_drop, Hd. done.
  - assert (E : drop (S (frame - 1)) l = drop 1 (drop (frame - 1) l)) by (rewrite drop_drop; f_equal; lia).
    rewrite E, Hd. done.
Qed.

(** Appending a commit: the log grows by the transaction, everything else
    stays. *)
Lemma append_commit_spec fb h txs A free t d w now :
  path <> wpath -> (0 < psz)%nat -> i64_ok now ->
  txn_inv fb h txs A free (t, (d, w)) ->
  let tx := commit_tx now t in
  let imgs := commit_images psz (t_dirty t) (commit_header now t) in
  exists x w', append_transaction (map (fun '(p, b) => mkImage p b) imgs) (tx_size tx) (db_wal d, w)
               = (Ret tt, (x, w'))
    /\ quiet w'
    /\ db_inv fb h (txs ++ [tx]) (set_db_cache (set_wal d x) (cache_images imgs (next_frame (db_wal d)) (db_cache d))) w'
    /\ state_at fb (total_images (txs ++ [tx])) = next_state A (commit_header now t).
Proof.
  intros Hne Hpsz Hnow (Hdb & Hq & Hsnap & Ht). cbv zeta.
  pose proof Hdb as (Hpath & Hps & Hcl & Hwal & Hfile & Hcache & Hhist).
  pose proof (proj1 Hhist (length txs)) as HS. rewrite take_ge in HS by lia.
  pose proof (commit_tx_ok _ _ _ _ _ _ HS Ht Hnow Hpsz) as Htx.
  pose proof (commit_state _ _ _ _ _ _ HS Ht Hnow Hpsz) as [Hst Hok].
  assert (Him : map (fun '(p, b) => mkImage p b) (commit_images psz (t_dirty t) (commit_header now t))
                = tx_images (commit_tx now t)).
  { cbn [tx_images commit_tx]. apply map_ext. by intros [p b]. }
  rewrite Him. assert (Hh : honest w) by (unfold honest; rewrite Hq; apply not_elem_of_nil).
  destruct (append_transaction (tx_images (commit_tx now t)) (tx_size (commit_tx now t)) (db_wal d, w))
    as [r [x w']] eqn:E.
  destruct (append_spec _ _ _ _ _ _ _ _ _ _ _ Hwal Hh Htx E) as [Hcalm Hr].
  destruct r as [[]|e]; [|by destruct Hr].
  assert (Hun : untouched path w w').
  { assert (Hel : log_elsewhere path (db_wal d)).
    { unfold log_elsewhere. destruct Hwal as (-> & _ & Htxs & _).
      destruct (wal_of_facts psz wpath h txs Htxs) as ((-> & _) & _). done. }
    destruct (append_keeps path _ _ _ _ _ _ _ Hel E) as [_ Hu]. apply Hu, Hfile. }
  assert (Htot : total_images (txs ++ [commit_tx now t])
                 = total_images txs ++ tx_images (commit_tx now t)) by apply total_images_snoc.
  exists x, w'. split; [done|]. split; [by apply Hcalm|]. split; [|by rewrite Htot].
  pose proof Hr as (_ & _ & _ & Hcr' & _).
  split_and!; try done.
  - eapply synced_untouched; eauto.
  - cbn [db_cache set_db_cache]. rewrite Htot. apply cache_images_ok.
    + by apply cache_ok_mono.
    + destruct Hwal as (-> & _ & Htxs & _).
      destruct (wal_of_facts psz wpath h txs Htxs) as (_ & -> & _).
      replace (S (length (total_images txs)) - 1)%nat with (length (total_images txs)) by lia.
      rewrite drop_app_length. done.
    + destruct Hwal as (-> & _ & Htxs & _).
      destruct (wal_of_facts psz wpath h txs Htxs) as (_ & -> & _). lia.
  - split_and!.
    + intros k. destruct (decide (k <= length txs)%nat).
      * rewrite take_app_le by done. apply Hhist.
      * rewrite take_ge by (rewrite length_app; cbn; lia). rewrite Htot, Hst. done.
    + rewrite Htot, Hst. pose proof (txn_rel_length_pos _ _ _ _ Ht). pose proof (tr_grows _ _ _ _ Ht).
      rewrite length_next_state by lia. apply Forall_app. split.
      * eapply Forall_impl; [apply Hhist|]. cbn. lia.
      * apply (commit_tx_within _ _ _ _ now Ht).
    + intros txs' tx Etx. apply app_inj_tail in Etx as [_ <-]. rewrite Htot, Hst.
      pose proof (txn_rel_length_pos _ _ _ _ Ht). pose proof (tr_grows _ _ _ _ Ht).
      rewrite length_next_state by lia. apply (tr_count _ _ _ _ Ht).
Qed.
End view.
