(* ===== verification/DbCheckpoint.v ===== *)
(** The checkpoint: the newest pages of the log are written to the data file,
    the file is synced, and the log is emptied.

    [serves l S c] is what the data file may hold while the log still has the
    images [l]: every page of the database [S] that the log does not have.  A
    torn page write keeps it, whatever the cut, so a power loss in the middle
    of the copy loses nothing.  The triple of [checkpoint_locked] gives the
    state after it and, for every failure, what the disk may hold. *)

From stdpp Require Import base numbers list gmap strings sorting.
From S2P Require Import Prelude Bytes Crc32c PageFormat Vfs VfsFrame Wal Db DbView.
Open Scope Z_scope.

(** * Writes to a file, page by page *)

Lemma sub_file_resize n off len b :
  (off + len <= n)%nat -> (off + len <= length b)%nat -> sub off len (file_resize n b) = sub off len b.
Proof.
  intros H1 H2. unfold file_resize. rewrite sub_app_l by (rewrite length_take; lia).
  unfold sub. rewrite skipn_firstn_comm, take_take. f_equal. lia.
Qed.

(** A region the write does not reach keeps its content. *)
Lemma sub_write_other off data o n b :
  (o + n <= length b)%nat -> (o + n <= off)%nat \/ (off + length data <= o)%nat ->
  sub o n (write_bytes off data b) = sub o n b.
Proof.
  intros Hb Hd. unfold write_bytes.
  set (b' := if (length b <? off + length data)%nat then file_resize (off + length data) b else b).
  assert (Hb' : sub o n b' = sub o n b).
  { unfold b'. destruct (Nat.ltb_spec (length b) (off + length data)); [|done].
    apply sub_file_resize; lia. }
  rewrite <- Hb'. destruct Hd; [by apply sub_blit_before|by apply sub_blit_after].
Qed.

Lemma sub_write_same off data b : sub off (length data) (write_bytes off data b) = data.
Proof.
  unfold write_bytes. apply sub_blit_same; [done|].
  destruct (Nat.ltb_spec (length b) (off + length data)); [rewrite length_file_resize|]; lia.
Qed.

Section checkpoint.
Context (psz : nat) (dbid : Bytes) (path wpath : string).
Context (Hne : path <> wpath) (Hpsz : (0 < psz)%nat).

Definition in_file (p : PageNo) : Prop := 0 <= p /\ (p + 1) * Z.of_nat psz < 2 ^ 64 + Z.of_nat psz.

Lemma page_offset_in p : in_file p -> page_offset psz p = (Z.to_nat p * psz)%nat.
Proof.
  intros [H1 H2]. unfold page_offset, wrap64. rewrite Z.mod_small by nia.
  rewrite Z2Nat.inj_mul by lia. by rewrite Nat2Z.id.
Qed.

Lemma file_page_write p q data b :
  in_file p -> in_file q -> p <> q -> (length data <= psz)%nat ->
  length (file_page psz b p) = psz ->
  file_page psz (write_bytes (page_offset psz q) data b) p = file_page psz b p.
Proof.
  intros Hp Hq Hn Hd Hl. unfold file_page in *. rewrite !page_offset_in in * by done.
  rewrite length_sub in Hl. destruct Hp, Hq. apply sub_write_other; [lia|].
  destruct (decide (p < q)); [left|right]; nia.
Qed.

Lemma file_page_write_same q data b :
  length data = psz -> file_page psz (write_bytes (page_offset psz q) data b) q = data.
Proof. intros <-. apply sub_write_same. Qed.

(** ** What the data file may hold while the log has the images *)

Definition serves (l : list PageImage) (S : list Bytes) (c : option Bytes) : Prop :=
  exists b, c = Some b /\ forall i x, S !! i = Some x ->
    newest (Z.of_nat i) l = Some x
    \/ newest (Z.of_nat i) l = None /\ file_page psz b (Z.of_nat i) = x.

Definition paged (S : list Bytes) : Prop :=
  Forall (fun x => length x = psz) S /\ Z.of_nat (length S) * Z.of_nat psz < 2 ^ 64.

Lemma paged_in_file S i x : paged S -> S !! i = Some x -> in_file (Z.of_nat i) /\ length x = psz.
Proof.
  intros [Hl Hb] Hi. split; [|rewrite Forall_lookup in Hl; eauto].
  apply lookup_lt_Some in Hi. split; [lia|]. nia.
Qed.

Lemma state_paged S : state_ok psz dbid S -> paged S.
Proof. intros (H & Hb & _). split; [|done]. eapply Forall_impl; [exact H|]. by intros x (? & _). Qed.

Lemma serves_write l S q data :
  paged S -> 0 <= q < Z.of_nat (length S) -> is_Some (newest q l) -> (length data <= psz)%nat ->
  closed_write (serves l S) (page_offset psz q) data.
Proof.
  intros HS Hq [y Hy] Hd n c (b & -> & Hb). eexists. split; [done|]. intros i x Hx.
  destruct (Hb i x Hx) as [?|[Hn Hx']]; [by left|]. right. split; [done|].
  destruct (paged_in_file S i x HS Hx) as [Hi Hlx].
  assert (Hqf : in_file q) by (destruct HS; split; [lia|nia]).
  rewrite file_page_write; [done|done|done| | |by rewrite Hx'].
  - intros <-. congruence.
  - rewrite length_take. lia.
Qed.

Lemma serves_truncate l S n :
  paged S -> (length S * psz <= n)%nat -> closed_truncate (serves l S) n.
Proof.
  intros HS Hn c (b & -> & Hb). eexists. split; [done|]. intros i x Hx.
  destruct (Hb i x Hx) as [?|[Hnn Hx']]; [by left|]. right. split; [done|].
  destruct (paged_in_file S i x HS Hx) as [Hi Hlx]. pose proof (lookup_lt_Some _ _ _ Hx).
  unfold file_page in *. rewrite page_offset_in in * by done. rewrite Nat2Z.id in *.
  rewrite <- Hx' in Hlx. rewrite length_sub in Hlx.
  rewrite sub_file_resize; [done|nia|lia].
Qed.

(** The log and the file of an open database. *)
Lemma db_inv_serves fb h txs d w :
  db_inv psz dbid path wpath fb h txs d w ->
  serves (total_images txs) (state_at psz fb (total_images txs)) (Some fb).
Proof.
  intros _. exists fb. split; [done|]. intros i x Hx.
  pose proof (lookup_lt_Some _ _ _ Hx) as Hi. rewrite state_at_lookup in Hx by done. injection Hx as <-.
  unfold page_at. destruct (newest _ _); [by left|by right].
Qed.

(** ** Reading a frame, faults included *)

Lemma read_frame_outcome h txs x w i im r x' w' :
  wal_inv psz dbid wpath h txs x w -> total_images txs !! i = Some im ->
  read_frame_page (S i) (x, w) = (r, (x', w')) ->
  x' = x /\ same_files w w'
  /\ (r = Ret (im_data im) /\ is_crashed w' = false \/ (exists e, r = Err e) /\ ~ quiet w).
Proof.
  intros Hinv Hi H. pose proof Hinv as (-> & Hh & Htxs & Hcr & Hc & Hrest).
  destruct (wal_of_facts psz wpath h txs Htxs) as ((Hp & Hps & _) & Hn & _).
  destruct (image_at_ok psz txs i im Htxs Hi) as (_ & Hl & _ & Hck).
  pose proof (lookup_lt_Some _ _ _ Hi) as Hlt.
  unfold read_frame_page, bind, getO, onw, lift, ret in H. cbn [fst snd] in H. rewrite Hn in H.
  destruct (Nat.leb_spec (S (length (total_images txs))) (S i)); [lia|]. cbn [Nat.eqb orb] in H.
  rewrite Hp, Hps in H. destruct (file_read wpath _ psz w) as [r1 w1] eqn:E1.
  destruct (file_read_spec _ _ _ _ _ _ _ Hcr Hc E1) as [Hs Ho].
  assert (Hsub : sub (frame_offset (wal_of psz wpath h txs) (S i) + WalFrameHeader.kEncodedBytes) psz (log_file h txs)
                 = im_data im).
  { unfold frame_offset, frame_bytes, WalFrameHeader.kEncodedBytes, WalHeader.kEncodedBytes. rewrite Hps.
    unfold log_file. rewrite sub_app_r by (rewrite length_header_bytes; lia). rewrite length_header_bytes.
    rewrite <- (log_encode_image psz h txs (WalHeader.chain_seed h) i im) by done. f_equal. nia. }
  destruct Ho as [[-> Hcr1]|[[e ->] Hnq]].
  - rewrite Hsub, Hl, Nat.eqb_refl, Hck in H. cbn [negb] in H. simplify_eq. split_and!; try done. by left.
  - simplify_eq. split_and!; try done. right. eauto.
Qed.

(** ** Copying *)

Definition copied (l : list PageImage) (frames : list (PageNo * FrameNo)) (b : Bytes) : Bytes :=
  fold_left (fun b pf => write_bytes (page_offset psz (fst pf)) (default [] (newest (fst pf) l)) b) frames b.

(** The frames of a copy: each the newest of its page. *)
Definition newest_frame (l : list PageImage) (pf : PageNo * FrameNo) : Prop :=
  exists i im, snd pf = S i /\ l !! i = Some im /\ im_page im = fst pf
               /\ newest (fst pf) l = Some (im_data im).

Lemma latest_list_newest h txs :
  Forall (tx_ok psz) txs ->
  let L := total_images txs in
  let fr := latest_list (wal_of psz wpath h txs) (length L) in
  Forall (newest_frame L) fr /\ (forall p, is_Some (newest p L) -> p ∈ fr.*1).
Proof.
  intros Htxs. cbv zeta. set (L := total_images txs). set (x := wal_of psz wpath h txs).
  assert (Hlat : forall p f, latest_frames x (length L) !! p = Some f <->
            find x p (length L) = f /\ f <> 0%nat).
  { intros p f. unfold latest_frames. rewrite lookup_omap, map_lookup_imap.
    destruct (index x !! p) as [l|] eqn:E; cbn.
    - destruct (Nat.eqb_spec (find x p (length L)) 0); split; try done; intros ?; destruct_and?; simplify_eq; done.
    - split; [done|]. intros [Hf Hn]. unfold find in Hf. rewrite E in Hf. congruence. }
  assert (Hin : forall p f, (p, f) ∈ latest_list x (length L) <-> find x p (length L) = f /\ f <> 0%nat).
  { intros p f. unfold latest_list. rewrite (merge_sort_Permutation page_le), elem_of_map_to_list. apply Hlat. }
  assert (Hfind : forall p, match find x p (length L) with
                            | O => newest p L = None
                            | S i => exists im, L !! i = Some im /\ im_page im = p /\ newest p L = Some (im_data im)
                            end).
  { intros p. pose proof (find_spec psz wpath h txs p (length L) Htxs) as H. fold L x in H.
    by rewrite take_ge in H by lia. }
  split.
  - apply Forall_forall. intros [p f] Hpf. apply Hin in Hpf as [Hf Hn]. specialize (Hfind p). rewrite Hf in Hfind.
    destruct f as [|i]; [done|]. destruct Hfind as (im & ? & ? & ?). exists i, im. done.
  - intros p [y Hy]. specialize (Hfind p). apply list_elem_of_fmap.
    destruct (find x p (length L)) as [|i] eqn:E; [congruence|]. exists (p, S i). split; [done|]. by apply Hin.
Qed.

Section steps.
Context (h : WalHeader.t) (txs : list Tx) (S : list Bytes) (d0 : Db).
Context (Hh : header_ok psz dbid h) (Htxs : Forall (tx_ok psz) txs) (HS : paged S).
Context (Hpath : db_path d0 = path) (Hps : db_page_size d0 = psz) (Hwal : db_wal d0 = wal_of psz wpath h txs).

Let L := total_images txs.
Definition log_there (c : option Bytes) : Prop := c = Some (log_file h txs).
Definition copying (b : Bytes) (w : World) : Prop :=
  dirty (serves L S) path b w /\ clean log_there wpath (log_file h txs) w.
Definition safe_copy (_ : Db) (w : World) : Prop :=
  disk_safe (serves L S) path w /\ disk_safe log_there wpath w.

Lemma copying_safe b d w : copying b w -> safe_copy d w.
Proof. intros [(_ & _ & _ & ?) [_ ?]]. by split. Qed.

Lemma framed_copying b : framed (copying b).
Proof. intros w w' Hs Hcr [H1 H2]. split; [by eapply framed_dirty|by eapply framed_clean]. Qed.

Lemma copying_wal b w : copying b w -> wal_inv psz dbid wpath h txs (db_wal d0) w.
Proof. intros [_ [Hsy _]]. by split_and!. Qed.

Lemma set_wal_same d : set_wal d (db_wal d) = d.
Proof. by destruct d. Qed.

Lemma triple_read_frame b i im :
  L !! i = Some im ->
  triple (fun d w => d = d0 /\ copying b w) (onwal (read_frame_page (Datatypes.S i)))
         (fun out d w => out = im_data im /\ d = d0 /\ copying b w) safe_copy.
Proof.
  intros Hi s w r s' w' _ [-> HR] H. unfold onwal in H.
  destruct (read_frame_page (Datatypes.S i) (db_wal d0, w)) as [r1 [x1 w1]] eqn:E1. simplify_eq.
  destruct (read_frame_outcome _ _ _ _ _ _ _ _ _ (copying_wal _ _ HR) Hi E1) as (-> & Hs & Ho).
  rewrite set_wal_same. split; [by apply Hs|].
  destruct Ho as [[-> Hcr]|[[e ->] Hq]]; [split_and!; try done; by eapply framed_copying|].
  split; [|done]. destruct HR as [(_ & _ & _ & H1) [_ H2]].
  split; by eapply disk_safe_same.
Qed.

Lemma at_object_keeps {A} (m : M World A) : keeps wpath m -> method_keeps (fun d => d = d0) wpath (onw m).
Proof. apply method_onw. Qed.

Lemma triple_copy_write b q data :
  0 <= q < Z.of_nat (length S) -> is_Some (newest q L) -> (length data <= psz)%nat ->
  triple (fun d w => d = d0 /\ copying b w) (onw (file_write path (page_offset psz q) data))
         (fun _ d w => d = d0 /\ copying (write_bytes (page_offset psz q) data b) w) safe_copy.
Proof.
  intros Hq Hn Hd.
  eapply triple_conseq; [eapply (triple_frame (fun d => d = d0) _ _ _ _ log_there wpath (log_file h txs))|..].
  - apply at_object_keeps. auto with archivum.
  - instantiate (1 := fun d w => d = d0 /\ dirty (serves L S) path b w). by intros s w [-> _].
  - instantiate (1 := fun _ d w => d = d0 /\ dirty (serves L S) path (write_bytes (page_offset psz q) data b) w).
    by intros a s w [_ (? & _)].
  - apply (triple_write _ _ (fun d => d = d0) (fun _ w => disk_safe (serves L S) path w)); [done|].
    by apply serves_write.
  - intros s w [-> [? ?]]. done.
  - intros a s w [[-> ?] ?]. done.
  - done.
Qed.

Lemma copy_pages_triple frames b :
  Forall (newest_frame L) frames -> Forall (fun pf => 0 <= fst pf < Z.of_nat (length S)) frames ->
  triple (fun d w => d = d0 /\ copying b w) (copy_pages frames)
         (fun _ d w => d = d0 /\ copying (copied L frames b) w) safe_copy.
Proof.
  intros Hf. revert b. induction Hf as [|[p f] frames (i & im & Ef & Hi & Hp & Hnew) Hf IH]; intros b Hr.
  { by apply triple_ret. }
  apply Forall_cons in Hr as [Hr Hrs]. cbn [fst snd] in *. subst f. cbn [copy_pages copied fold_left fst].
  apply triple_get_bind. rewrite Hpath, Hps.
  eapply triple_bind_eq; [by apply triple_read_frame|].
  eapply triple_bind; [apply triple_copy_write; [done|by eauto|]|].
  - apply image_at_ok with (psz := psz) in Hi as (_ & Hl & _); [lia|done].
  - intros []. rewrite Hnew. by apply IH.
Qed.
End steps.

(** ** After the copy *)

Lemma copied_page l frames p x b :
  Forall (newest_frame l) frames -> Forall (fun im => length (im_data im) = psz) l ->
  Forall (fun pf => in_file (fst pf)) frames -> in_file p -> length x = psz ->
  newest p l = Some x /\ p ∈ frames.*1 \/ file_page psz b p = x /\ (newest p l = Some x \/ newest p l = None) ->
  file_page psz (copied l frames b) p = x.
Proof.
  intros Hf Hl Hin Hp Hx. revert b. induction Hf as [|[q f] frames Hqf Hf IH]; intros b H.
  { destruct H as [[_ H]|[H _]]; [by apply not_elem_of_nil in H|done]. }
  apply Forall_cons in Hin as [Hq Hin]. cbn [fst] in Hq.
  destruct Hqf as (i & im & _ & Hi & _ & Hnew). cbn [fst] in Hnew.
  assert (Hlim : length (im_data im) = psz) by (rewrite Forall_lookup in Hl; by eapply Hl).
  cbn [copied fold_left fst]. rewrite Hnew. cbn [default from_option id]. apply IH; [done|].
  destruct (decide (q = p)) as [->|Hqp].
  - right. rewrite file_page_write_same by done. destruct H as [[H _]|[_ [H|H]]]; [|..]; try congruence.
    + split; [congruence|by left].
    + split; [congruence|by left].
  - destruct H as [[H1 H2]|[H1 H2]].
    + left. split; [done|]. cbn [fmap list_fmap fst] in H2. apply elem_of_cons in H2 as [->|H2]; [done|done].
    + right. split; [|done]. rewrite file_page_write; auto; [lia|by rewrite H1].
Qed.

(** Everything of the database is in the file. *)
Definition whole (S : list Bytes) (b : Bytes) : Prop :=
  forall i x, S !! i = Some x -> file_page psz b (Z.of_nat i) = x.

Lemma whole_state S b :
  state_ok psz dbid S -> whole S b -> state_at psz b [] = S.
Proof.
  intros (Hall & _ & hdr & p0 & Hp0 & Hdec & Hcnt & _) Hw.
  assert (Hc : count_at psz b [] = Z.of_nat (length S)).
  { unfold count_at. change (page_at psz b [] 0) with (file_page psz b (Z.of_nat 0)). by rewrite (Hw 0%nat p0 Hp0), Hdec. }
  apply list_eq_same_length with (n := length S); [done|rewrite length_state_at, Hc; lia|].
  intros i x y Hi Hx Hy. rewrite state_at_lookup in Hx by (rewrite length_state_at, Hc; lia).
  injection Hx as <-. change (page_at psz b [] (Z.of_nat i)) with (file_page psz b (Z.of_nat i)). by apply Hw.
Qed.

Lemma whole_resize S b n :
  paged S -> whole S b -> (length S * psz <= n)%nat -> whole S (file_resize n b).
Proof.
  intros HS Hw Hn i x Hx. destruct (paged_in_file S i x HS Hx) as [Hi Hlx].
  pose proof (lookup_lt_Some _ _ _ Hx). specialize (Hw i x Hx).
  unfold file_page in *. rewrite page_offset_in in * by done. rewrite Nat2Z.id in *.
  rewrite <- Hw in Hlx. rewrite length_sub in Hlx. rewrite sub_file_resize; [done|nia|lia].
Qed.

Lemma copied_whole h txs S b :
  Forall (tx_ok psz) txs -> paged S ->
  Forall (fun im => 0 <= im_page im < Z.of_nat (length S)) (total_images txs) ->
  serves (total_images txs) S (Some b) ->
  let fr := latest_list (wal_of psz wpath h txs) (length (total_images txs)) in
  whole S (copied (total_images txs) fr b).
Proof.
  intros Htxs HS Hwithin (b' & [= <-] & Hserve). cbv zeta. intros i x Hx.
  destruct (latest_list_newest h txs Htxs) as [Hfr Hcover].
  destruct (paged_in_file S i x HS Hx) as [Hi Hlx].
  apply copied_page; try done.
  - apply Forall_lookup. intros j im Hj. by destruct (image_at_ok psz txs j im Htxs Hj) as (_ & ? & _).
  - eapply Forall_impl; [exact Hfr|]. intros [p f] (j & im & _ & Hj & Hp & _).
    rewrite Forall_lookup in Hwithin. specialize (Hwithin j im Hj). cbn [fst] in *. subst p.
    destruct HS. split; [lia|nia].
  - destruct (Hserve i x Hx) as [H|[H1 H2]]; [left|right; by auto]. split; [done|]. apply Hcover. by eauto.
Qed.

Lemma wal_of_size h txs tx :
  Forall (tx_ok psz) (txs ++ [tx]) ->
  let x := wal_of psz wpath h (txs ++ [tx]) in
  db_size_at x (last_commit x) = tx_size tx
  /\ (c_change_counter <$> last (commit_list x)) = Some (c_change_counter (commit_of tx (last_commit x))).
Proof.
  intros Htxs. cbv zeta. rewrite wal_of_snoc. unfold apply_tx.
  cbn [db_size_at commits last_commit commit_list publish set_chain set_next].
  unfold db_size_at. cbn [commits publish set_chain set_next].
  assert (Hc : forall f, c_db_size (commit_of tx f) = tx_size tx /\ c_frame (commit_of tx f) = f).
  { intros f. unfold commit_of. by destruct (DbHeader.decode _). }
  rewrite !(proj2 (Hc _)). rewrite lookup_insert_eq, (proj1 (Hc _)), last_snoc. done.
Qed.

(** ** Emptying the log *)

Definition resetting (old new : Bytes) (c : option Bytes) : Prop :=
  exists m b, (b = old \/ b = []) /\ c = Some (write_bytes 0 (take m new) b).

Lemma resetting_truncate old new : closed_truncate (resetting old new) 0.
Proof.
  intros c (m & b & _ & ->). exists 0%nat, []. split; [by right|]. cbn [fmap option_fmap option_map].
  unfold file_resize. by rewrite !take_0.
Qed.

Lemma resetting_write old new : closed_write (resetting old new) 0 new.
Proof.
  intros n c (m & b & Hb & ->). exists (Nat.max n m), b. split; [done|].
  cbn [fmap option_fmap option_map]. f_equal. rewrite !write_bytes_0, drop_app, drop_drop, app_assoc.
  assert (E : take n new ++ drop (length (take n new)) (take m new) = take (Nat.max n m) new).
  { apply (take_max_write new m n). }
  rewrite E. f_equal. f_equal. rewrite !length_take. lia.
Qed.

Lemma resetting_old old new : resetting old new (Some old).
Proof. exists 0%nat, old. split; [by left|]. by rewrite take_0, write_bytes_0. Qed.

Definition reset_header (cc s1 s2 : Z) (h : WalHeader.t) : WalHeader.t := with_base cc (with_salts s1 s2 h).

(** A failure that is recorded in the object before it is returned. *)
Lemma triple_try {S A B} (P E E1 : S -> World -> Prop) (m : M (S * World) A) R f (k : A -> M (S * World) B) Q :
  triple P m R E1 -> (forall a, triple (R a) (k a) Q E) -> (forall s w, E1 s w -> E (f s) w) ->
  triple P (bind (attempt m) (fun s => match s with
                                       | Err e => bind (modO f) (fun _ => lift (Err e))
                                       | Ret a => k a
                                       end)) Q E.
Proof.
  intros Hm Hk HE s w r s' w' Hh HP H. unfold bind, attempt in H.
  destruct (m (s, w)) as [[a|e] [s1 w1]] eqn:E1'.
  - destruct (Hm _ _ _ _ _ Hh HP E1') as [Hc HR].
    destruct (Hk a _ _ _ _ _ (proj1 Hc Hh) HR H) as [Hc2 HQ]. split; [by eapply calm_trans|].
    destruct r; [done|]. destruct HQ as [? Hq]. split; [done|]. intros ?. by apply Hq, Hc.
  - destruct (Hm _ _ _ _ _ Hh HP E1') as [Hc [HE1 Hq]]. unfold modO, lift in H. cbn [fst snd] in H.
    simplify_eq. auto.
Qed.

Lemma fresh_salts_any R x1 (E : Wal -> World -> Prop) :
  framed R -> (forall w, R w -> is_crashed w = false) ->
  triple (fun x w => x = x1 /\ R w) fresh_salts
         (fun _ x w => exists s1 s2, (u32_ok s1 /\ u32_ok s2
                         /\ x = set_header x1 (with_salts s1 s2 (header x1))) /\ R w) E.
Proof.
  intros Hfr HR. unfold fresh_salts.
  eapply triple_bind; [by apply (triple_salt (fun x => x = x1) E R)|].
  intros s1. apply triple_pure. intros H1.
  eapply triple_bind; [by apply (triple_salt (fun x => x = x1) E R)|].
  intros s2. apply triple_pure. intros H2.
  apply triple_modO. intros x w [-> HRw]. exists s1, s2. by split_and!.
Qed.

Lemma reset_triple h txs cc :
  Forall (tx_ok psz) txs ->
  let old := log_file h txs in
  triple (fun x w => x = wal_of psz wpath h txs /\ clean (log_there h txs) wpath old w) (reset cc)
    (fun _ x w => exists s1 s2, u32_ok s1 /\ u32_ok s2 /\ x = wal0 psz wpath (reset_header cc s1 s2 h)
                    /\ synced wpath (header_bytes (reset_header cc s1 s2 h)) w)
    (fun x w => exists s1 s2, u32_ok s1 /\ u32_ok s2
                    /\ disk_safe (resetting old (header_bytes (reset_header cc s1 s2 h))) wpath w).
Proof.
  intros Htxs. cbv zeta. set (old := log_file h txs).
  destruct (wal_of_facts psz wpath h txs Htxs) as ((Hp & Hps' & Hh) & _ & _ & _ & Ho & Hf & Hro).
  unfold reset. apply triple_get_bind. rewrite Hro, Hf.
  eapply triple_bind; [apply fresh_salts_any; [apply framed_clean|by intros w [(? & _) _]]|].
  intros []. apply triple_exists. intros s1. apply triple_exists. intros s2.
  set (x1 := set_header (wal_of psz wpath h txs) (with_salts s1 s2 (header (wal_of psz wpath h txs)))).
  set (nh := reset_header cc s1 s2 h). set (new := header_bytes nh). set (D := resetting old new).
  set (x2 := set_header x1 nh).
  eapply (triple_pre _ (fun x w => (u32_ok s1 /\ u32_ok s2) /\ (x = x1 /\ clean (log_there h txs) wpath old w))).
  2: { intros x w [(? & ? & ->) ?]. done. }
  apply triple_pure. intros [Hs1 Hs2].
  assert (HE : forall (w : World), disk_safe D wpath w ->
    exists s1 s2, u32_ok s1 /\ u32_ok s2 /\ disk_safe (resetting old (header_bytes (reset_header cc s1 s2 h))) wpath w)
    by (intros w Hw; by exists s1, s2).
  eapply triple_bind.
  { apply (triple_modO _ _ (fun _ x w => x = x2 /\ dirty D wpath old w)). intros x w [-> [Hsy Hd]]. split.
    - unfold x2, nh, reset_header. f_equal. cbn [header x1 set_header]. by rewrite Hh.
    - apply clean_dirty, synced_clean; [done|]. apply resetting_old. }
  intros []. apply (triple_try _ _ (fun _ w => disk_safe D wpath w) _
    (fun _ x w => x = x2 /\ dirty D wpath (file_resize 0 old) w)).
  - rewrite Hp. apply (triple_truncate D wpath (fun x => x = x2)); [done|apply resetting_truncate].
  - intros []. eapply triple_bind.
    { apply (triple_modO _ _ (fun _ x w => x = wal0 psz wpath nh /\ dirty D wpath [] w)). intros x w [-> Hd].
      split; [|done]. unfold wal0, x2, x1.
      cbn [wal_path page_size wal_open header wal_failed read_only set_header]. by rewrite Hp, Hps', Ho, Hf, Hro. }
    intros []. apply (triple_try _ _ (fun _ w => disk_safe D wpath w) _
      (fun _ x w => x = wal0 psz wpath nh /\ clean D wpath (write_bytes 0 new []) w)).
    + apply write_header_triple; [apply resetting_write|done].
    + intros []. apply triple_ret. intros x w [-> [Hsy _]]. exists s1, s2. split_and!; try done.
      rewrite write_bytes_0, drop_nil, app_nil_r in Hsy. done.
    + intros x w Hd. by apply HE.
  - intros x w Hd. by apply HE.
Qed.

(** ** The whole checkpoint *)

Lemma triple_onwal {A} d1 (P : World -> Prop) (m : WM A) Q (E : Wal -> World -> Prop) :
  triple (fun x w => x = db_wal d1 /\ P w) m Q E ->
  triple (fun d w => d = d1 /\ P w) (onwal m)
         (fun a d w => exists x, d = set_wal d1 x /\ Q a x w) (fun _ w => exists x, E x w).
Proof.
  intros Hm d w r d' w' Hh [-> HP] H. unfold onwal in H.
  destruct (m (db_wal d1, w)) as [r1 [x1 w1]] eqn:E1. simplify_eq.
  destruct (Hm _ _ _ _ _ Hh (conj eq_refl HP) E1) as [Hc Hr]. split; [done|].
  destruct r; [by eauto|]. destruct Hr. eauto.
Qed.

Lemma onwal_keeps {A} other (m : WM A) :
  method_keeps (log_elsewhere other) other m ->
  method_keeps (fun d => log_elsewhere other (db_wal d)) other (onwal m).
Proof.
  intros Hm d w r d' w' Hd H. unfold onwal in H.
  destruct (m (db_wal d, w)) as [r1 [x1 w1]] eqn:E1. simplify_eq.
  exact (Hm _ _ _ _ _ Hd E1).
Qed.

(** The change counter of a database. *)
Definition state_cc (S : list Bytes) : Z :=
  match DbHeader.decode (default [] (S !! 0%nat)) with Ret hdr => DbHeader.change_counter hdr | Err _ => 0 end.

(** What a checkpoint that fails may leave on the disk. *)
Definition checkpoint_safe (h : WalHeader.t) (txs : list Tx) (S : list Bytes) (_ : Db) (w : World) : Prop :=
  disk_safe (serves (total_images txs) S) path w /\ disk_safe (log_there h txs) wpath w
  \/ exists b s1 s2, whole S b /\ disk_safe (fun c => c = Some b) path w /\ u32_ok s1 /\ u32_ok s2
       /\ disk_safe (resetting (log_file h txs) (header_bytes (reset_header (state_cc S) s1 s2 h))) wpath w.

(** The object after a checkpoint. *)
Definition checkpointed (d : Db) (h : WalHeader.t) : Db :=
  set_checkpoints (set_wal (set_db_cache d (cache_clear (db_cache d))) (wal0 psz wpath h))
    (wrap64 (checkpoints d + 1)).

Lemma last_image_header fb txs tx hdr :
  state_header psz dbid (state_at psz fb (total_images (txs ++ [tx]))) hdr -> tx_ok psz tx ->
  forall f, c_change_counter (commit_of tx f) = DbHeader.change_counter hdr.
Proof.
  intros (p0 & Hp0 & Hdec & _) (_ & _ & _ & im & hdr' & Hlast & Hpg & Hdec') f.
  unfold commit_of. rewrite Hlast. change (default [] (im_data <$> Some im)) with (im_data im). rewrite Hdec'.
  cbn [c_change_counter]. pose proof (lookup_lt_Some _ _ _ Hp0) as Hl.
  rewrite state_at_lookup in Hp0 by done. injection Hp0 as <-.
  unfold page_at in Hdec. rewrite total_images_snoc in Hdec.
  apply last_Some in Hlast as [l Hl']. rewrite Hl', app_assoc, newest_app in Hdec.
  assert (newest (Z.of_nat 0) [im] = Some (im_data im)) as Hn by (unfold newest; cbn; by rewrite Hpg).
  rewrite Hn in Hdec. cbn [default from_option id] in Hdec.
  rewrite Hdec' in Hdec. injection Hdec as ->. done.
Qed.

Lemma state_cc_header S hdr : state_header psz dbid S hdr -> state_cc S = DbHeader.change_counter hdr.
Proof. intros (p0 & Hp0 & Hdec & _). unfold state_cc. rewrite Hp0. cbn. by rewrite Hdec. Qed.

Lemma state_cc_u64 S : state_ok psz dbid S -> u64_ok (state_cc S).
Proof.
  intros (Hall & _ & hdr & Hhdr). rewrite (state_cc_header S hdr Hhdr).
  destruct Hhdr as (p0 & Hp0 & Hdec & _). rewrite Forall_lookup in Hall.
  destruct (Hall 0%nat p0 Hp0) as (_ & Hb & _).
  by destruct (DbHeader_decode_wf p0 hdr Hb Hdec) as [(_ & _ & _ & _ & _ & ? & _) _].
Qed.

Lemma reset_header_ok h cc s1 s2 :
  header_ok psz dbid h -> u64_ok cc -> u32_ok s1 -> u32_ok s2 -> header_ok psz dbid (reset_header cc s1 s2 h).
Proof. intros ((?&?&?&?&?&?) & ? & ?) ???. by split_and!. Qed.

(** The copy, the truncation and the sync: the database is in the file. *)
Lemma copy_file_triple fb h txs tx d0 :
  header_ok psz dbid h -> Forall (tx_ok psz) (txs ++ [tx]) -> history_ok psz dbid fb (txs ++ [tx]) ->
  db_path d0 = path -> db_page_size d0 = psz -> db_wal d0 = wal_of psz wpath h (txs ++ [tx]) ->
  let S := state_at psz fb (total_images (txs ++ [tx])) in
  let n := page_offset psz (db_size_at (db_wal d0) (last_commit (db_wal d0))) in
  triple (fun d w => d = d0 /\ copying h (txs ++ [tx]) S fb w)
    (bind (copy_pages (latest_list (db_wal d0) (last_commit (db_wal d0)))) (fun _ =>
     bind (onw (file_size path)) (fun size =>
     bind (if (n <? size)%nat then onw (file_truncate path n) else ret tt) (fun _ =>
     onw (file_sync path)))))
    (fun _ d w => d = d0 /\ exists b, whole S b /\ synced path b w /\ clean (log_there h (txs ++ [tx])) wpath (log_file h (txs ++ [tx])) w)
    (safe_copy h (txs ++ [tx]) S).
Proof.
  intros Hh Htxs (Hst & Hwithin & Hsize) Hpath Hps Hwal. cbv zeta.
  set (l := txs ++ [tx]) in *. set (S := state_at psz fb (total_images l)) in *.
  assert (HS : state_ok psz dbid S) by (specialize (Hst (length l)); by rewrite take_ge in Hst by lia).
  pose proof (state_paged S HS) as HP.
  assert (Hlc : last_commit (db_wal d0) = length (total_images l)).
  { rewrite Hwal. destruct (wal_of_facts psz wpath h l Htxs) as (_ & Hn & Hl & _). lia. }
  assert (Hn : page_offset psz (db_size_at (db_wal d0) (last_commit (db_wal d0))) = (length S * psz)%nat).
  { rewrite Hwal. pose proof (wal_of_size h txs tx Htxs) as [Hsz _]. fold l in Hsz. rewrite Hsz, (Hsize txs tx eq_refl). fold S.
    destruct HP as [_ Hb]. unfold page_offset, wrap64. rewrite Z.mod_small by lia.
    rewrite <- Nat2Z.inj_mul. by rewrite Nat2Z.id. }
  rewrite Hn, Hlc, Hwal.
  destruct (latest_list_newest h l Htxs) as [Hfr Hcover].
  eapply triple_bind; [apply (copy_pages_triple h l S d0 Hh Htxs HP Hpath Hps Hwal); [done|]|].
  { eapply Forall_impl; [exact Hfr|]. intros [p f] (j & im & _ & Hj & Hp & _). cbn [fst] in *. subst p.
    rewrite Forall_lookup in Hwithin. by apply (Hwithin j im). }
  intros []. set (b1 := copied _ _ fb).
  assert (Hw1 : whole S b1).
  { apply copied_whole; try done. exists fb. split; [done|]. intros i x Hx.
    pose proof (lookup_lt_Some _ _ _ Hx). unfold S in Hx. rewrite state_at_lookup in Hx by done. injection Hx as <-.
    unfold page_at. destruct (newest _ _); [by left|by right]. }
  eapply triple_bind_eq.
  { instantiate (1 := fun d w => d = d0 /\ copying h l S b1 w). instantiate (1 := length b1).
    intros d w r d' w' _ [-> HR] H. pose proof HR as [(Hcr & Hc & _) _].
    unfold onw in H. rewrite (file_size_spec _ _ _ Hcr Hc) in H. by simplify_eq. }
  eapply (triple_bind _ _ (fun _ d w => exists b, whole S b /\ (d = d0 /\ copying h l S b w))).
  { destruct (Nat.ltb_spec (length S * psz) (length b1)).
    - eapply triple_conseq; [eapply (triple_frame (fun d => d = d0) (fun d w => d = d0 /\ dirty (serves (total_images l) S) path b1 w)
        (fun _ w => disk_safe (serves (total_images l) S) path w) _
        (fun _ d w => d = d0 /\ dirty (serves (total_images l) S) path (file_resize (length S * psz) b1) w)
        (log_there h l) wpath (log_file h l))|..].
      + apply at_object_keeps. auto with archivum.
      + by intros s w [-> _].
      + by intros a s w [_ (? & _)].
      + apply (triple_truncate _ _ (fun d => d = d0)); [done|]. by apply serves_truncate.
      + intros s w [-> [? ?]]. done.
      + intros a s w [[-> ?] ?]. eexists. split; [by apply whole_resize|]. done.
      + done.
    - apply triple_ret. intros d w [-> ?]. by exists b1. }
  intros []. apply triple_exists. intros b. apply triple_pure. intros Hw.
  eapply triple_conseq; [eapply (triple_frame (fun d => d = d0) (fun d w => d = d0 /\ dirty (serves (total_images l) S) path b w)
    (fun _ w => disk_safe (serves (total_images l) S) path w) _
    (fun _ d w => d = d0 /\ clean (serves (total_images l) S) path b w)
    (log_there h l) wpath (log_file h l))|..].
  - apply at_object_keeps. auto with archivum.
  - by intros s w [-> _].
  - by intros a s w [_ [(? & _) _]].
  - by apply (triple_sync _ _ (fun d => d = d0)).
  - intros s w [-> [? ?]]. done.
  - intros a s w [[-> [? ?]] ?]. split; [done|]. by exists b.
  - done.
Qed.

Lemma triple_ext {S A} (P E : S -> World -> Prop) (m m' : M (S * World) A) Q :
  (forall s, m s = m' s) -> triple P m Q E -> triple P m' Q E.
Proof. intros Hm H s w r s' w' Hh HP Hr. rewrite <- Hm in Hr. by apply (H s w r s' w'). Qed.

Lemma checkpoint_triple fb h txs tx d0 :
  header_ok psz dbid h -> Forall (tx_ok psz) (txs ++ [tx]) -> history_ok psz dbid fb (txs ++ [tx]) ->
  db_path d0 = path -> db_page_size d0 = psz -> db_wal d0 = wal_of psz wpath h (txs ++ [tx]) ->
  closed d0 = false -> active_readers d0 = 0 -> archive_dir (db_options d0) = "" ->
  let S := state_at psz fb (total_images (txs ++ [tx])) in
  triple (fun d w => d = d0 /\ copying h (txs ++ [tx]) S fb w) checkpoint_locked
    (fun _ d w => exists b s1 s2, whole S b /\ u32_ok s1 /\ u32_ok s2
       /\ d = checkpointed d0 (reset_header (state_cc S) s1 s2 h)
       /\ synced path b w /\ synced wpath (header_bytes (reset_header (state_cc S) s1 s2 h)) w)
    (checkpoint_safe h (txs ++ [tx]) S).
Proof.
  intros Hh Htxs Hhist Hpath Hps Hwal Hcl Hrd Har. cbv zeta.
  pose proof (copy_file_triple fb h txs tx d0 Hh Htxs Hhist Hpath Hps Hwal) as Hcopy. cbv zeta in Hcopy.
  set (l := txs ++ [tx]) in *. set (S := state_at psz fb (total_images l)) in *.
  assert (HS : state_ok psz dbid S) by (pose proof (proj1 Hhist (length l)) as H; by rewrite take_ge in H by lia).
  assert (Hlast : (last_commit (db_wal d0) =? 0)%nat = false).
  { apply Nat.eqb_neq. rewrite Hwal. destruct (wal_of_facts psz wpath h l Htxs) as (_ & Hn & Hl & _).
    unfold l in Hn. rewrite total_images_snoc, length_app in Hn. apply Forall_app in Htxs as [_ Ht].
    apply Forall_cons in Ht as [(_ & _ & _ & im & hdr & Him & _) _].
    destruct (tx_images tx); [done|]. cbn [length] in Hn. fold l in Hn. lia. }
  assert (Hcc : default 0 (c_change_counter <$> last (commit_list (db_wal d0))) = state_cc S).
  { rewrite Hwal. pose proof (wal_of_size h txs tx Htxs) as [_ Hc]. fold l in Hc. rewrite Hc. cbn [default from_option id].
    destruct HS as (_ & _ & hdr & Hhdr). rewrite (state_cc_header S hdr Hhdr).
    apply Forall_app in Htxs as [_ Ht]. apply Forall_cons in Ht as [Ht _]. by eapply last_image_header. }
  unfold checkpoint_locked. apply triple_get_bind. rewrite Hcl, Hrd, Hlast, Hcc. cbn [Z.eqb negb].
  rewrite Hpath, Hps. set (nn := page_offset psz _) in *.
  set (rest := bind archive_log _).
  apply (triple_ext _ _ (bind (bind (copy_pages (latest_list (db_wal d0) (last_commit (db_wal d0)))) (fun _ =>
     bind (onw (file_size path)) (fun size =>
     bind (if (nn <? size)%nat then onw (file_truncate path nn) else ret tt) (fun _ =>
     onw (file_sync path))))) (fun _ => rest))).
  { intros s. unfold bind. destruct (copy_pages _ s) as [[[]|] s1]; [|done].
    destruct (onw (file_size path) s1) as [[n|] s2]; [|done].
    destruct (nn <? n)%nat.
    - destruct (onw (file_truncate path nn) s2) as [[[]|] s3]; [|done].
      by destruct (onw (file_sync path) s3) as [[[]|] s4].
    - unfold ret. by destruct (onw (file_sync path) s2) as [[[]|] s4]. }
  eapply triple_bind; [eapply triple_err; [exact Hcopy|]|].
  { intros d w [? ?]. by left. }
  intros []. unfold rest. clear Hcopy.
  eapply (triple_pre _ (fun d w => exists b, whole S b /\ (d = d0 /\ synced path b w
    /\ clean (log_there h l) wpath (log_file h l) w))); [|intros d w (-> & b & ? & ? & ?); by eauto].
  apply triple_exists. intros b. apply triple_pure. intros Hw.
  set (E := checkpoint_safe h l S).
  eapply (triple_bind _ _ (fun _ d w => d = d0 /\ synced path b w /\ clean (log_there h l) wpath (log_file h l) w)).
  { unfold archive_log. apply triple_get_bind. rewrite Har. by apply triple_ret. }
  intros []. set (d1 := set_db_cache d0 (cache_clear (db_cache d0))).
  eapply (triple_bind _ _ (fun _ d w => d = d1 /\ (clean (log_there h l) wpath (log_file h l) w /\ synced path b w))).
  { apply triple_modO. by intros d w (-> & ? & ?). }
  intros []. set (F := fun c => c = Some b).
  eapply (triple_bind _ _ (fun _ d w => exists s1 s2, u32_ok s1 /\ u32_ok s2
    /\ d = set_wal d1 (wal0 psz wpath (reset_header (state_cc S) s1 s2 h))
    /\ synced wpath (header_bytes (reset_header (state_cc S) s1 s2 h)) w /\ synced path b w)).
  { eapply triple_conseq; [eapply (triple_frame (fun d => log_elsewhere path (db_wal d)) _ _ _ _ F path b)|..].
    - apply onwal_keeps, reset_keeps.
    - intros d w Hd. instantiate (1 := fun d w => d = d1 /\ clean (log_there h l) wpath (log_file h l) w) in Hd.
      destruct Hd as [-> _]. unfold log_elsewhere, d1. cbn [db_wal set_db_cache]. rewrite Hwal.
      by destruct (wal_of_facts psz wpath h l Htxs) as ((-> & _) & _).
    - intros a d w Hd. instantiate (1 := fun _ d w => exists x, d = set_wal d1 x /\ exists s1 s2, u32_ok s1 /\ u32_ok s2
        /\ x = wal0 psz wpath (reset_header (state_cc S) s1 s2 h)
        /\ synced wpath (header_bytes (reset_header (state_cc S) s1 s2 h)) w) in Hd.
      by destruct Hd as (x & _ & s1 & s2 & _ & _ & _ & (? & _)).
    - apply (triple_onwal d1 (fun w => clean (log_there h l) wpath (log_file h l) w)).
      eapply triple_pre; [by apply (reset_triple h l (state_cc S) Htxs)|].
      intros x w [-> ?]. split; [|done]. unfold d1. cbn [db_wal set_db_cache]. exact Hwal.
    - intros d w [-> [? ?]]. split; [done|]. by apply synced_clean.
    - intros a d w [(x & -> & s1 & s2 & ? & ? & -> & ?) [? _]]. exists s1, s2. by split_and!.
    - intros d w [(x & s1 & s2 & ? & ? & ?) ?]. right. exists b, s1, s2. by split_and!. }
  intros []. apply triple_modO. intros d w (s1 & s2 & ? & ? & -> & ? & ?).
  exists b, s1, s2. by split_and!.
Qed.

(** ** Without faults *)

Lemma db_inv_copying fb h txs d w :
  db_inv psz dbid path wpath fb h txs d w ->
  copying h txs (state_at psz fb (total_images txs)) fb w.
Proof.
  intros Hinv. pose proof Hinv as (_ & _ & _ & (_ & _ & _ & Hlog) & Hfile & _).
  split; [|by apply synced_clean].
  apply clean_dirty, synced_clean; [done|]. by eapply db_inv_serves.
Qed.

Lemma checkpointed_inv fb h txs d w b s1 s2 :
  let S := state_at psz fb (total_images txs) in
  db_inv psz dbid path wpath fb h txs d w -> whole S b -> u32_ok s1 -> u32_ok s2 ->
  forall w', synced path b w' -> synced wpath (header_bytes (reset_header (state_cc S) s1 s2 h)) w' ->
  db_inv psz dbid path wpath b (reset_header (state_cc S) s1 s2 h) [] (checkpointed d (reset_header (state_cc S) s1 s2 h)) w'
  /\ state_at psz b [] = S.
Proof.
  cbv zeta. intros Hinv Hw Hs1 Hs2 w' Hf Hl.
  pose proof Hinv as (Hpath & Hps & Hcl & (_ & Hh & _ & _) & _ & ((_ & _ & Hcap) & _) & Hhist).
  set (S := state_at psz fb (total_images txs)) in *.
  assert (HS : state_ok psz dbid S) by (pose proof (proj1 Hhist (length txs)) as H; by rewrite take_ge in H by lia).
  pose proof (whole_state S b HS Hw) as Hst. split; [|done].
  split_and!; try done.
  - split_and!; [done| |constructor|by rewrite log_file_nil].
    apply reset_header_ok; try done. by apply state_cc_u64.
  - split; [split_and!; [constructor| |done]|done]. intros k.
    cbn [lru entries cache_clear db_cache checkpointed set_checkpoints set_wal set_db_cache].
    rewrite lookup_empty. split; [by intros ?%not_elem_of_nil|by intros []].
  - split_and!; [|constructor|].
    + intros k. rewrite take_nil. cbn [total_images map concat]. by rewrite Hst.
    + intros txs' tx E. by destruct txs'.
Qed.

Lemma checkpoint_spec fb h txs d w :
  db_inv psz dbid path wpath fb h txs d w -> quiet w -> active_readers d = 0 -> archive_dir (db_options d) = "" ->
  exists b h' txs' d' w', checkpoint_locked (d, w) = (Ret tt, (d', w')) /\ quiet w'
    /\ db_inv psz dbid path wpath b h' txs' d' w' /\ active_readers d' = 0
    /\ db_options d' = db_options d /\ txs' = []
    /\ state_at psz b (total_images txs') = state_at psz fb (total_images txs).
Proof.
  intros Hinv Hq Hrd Har. pose proof Hinv as (Hpath & Hps & Hcl & (Hwal & Hh & Htxs & _) & _ & _ & Hhist).
  destruct txs as [|tx txs _] using rev_ind.
  - exists fb, h, [], d, w. split_and!; try done.
    unfold checkpoint_locked, bind, getO, lift, ret. cbn [fst snd]. rewrite Hcl, Hrd, Hwal. done.
  - assert (Hon : honest w) by (unfold honest; rewrite Hq; apply not_elem_of_nil).
    destruct (checkpoint_locked (d, w)) as [r [d' w']] eqn:E.
    destruct (checkpoint_triple fb h txs tx d Hh Htxs Hhist Hpath Hps Hwal Hcl Hrd Har d w r d' w' Hon)
      as [Hcalm Hr]; [|done|].
    { split; [done|]. by apply db_inv_copying with (d := d). }
    destruct r as [[]|e]; [|by destruct Hr]. destruct Hr as (b & s1 & s2 & Hw & Hs1 & Hs2 & -> & Hf & Hl).
    destruct (checkpointed_inv _ _ _ _ _ b s1 s2 Hinv Hw Hs1 Hs2 w' Hf Hl) as [Hinv' Hst].
    exists b. do 4 eexists. split_and!; try done. by apply Hcalm.
Qed.

(** ** Committing *)

Lemma commit_append_spec fb h txs A free t d w now :
  i64_ok now -> txn_inv psz dbid path wpath fb h txs A free (t, (d, w)) ->
  bool_decide (t_dirty t = ∅) && negb (header_changed t) = false ->
  exists want d' w', commit_append now (t, (d, w))
      = (Ret want, (set_txn_header t (commit_header now t), (d', w'))) /\ quiet w'
    /\ db_inv psz dbid path wpath fb h (txs ++ [commit_tx psz now t]) d' w'
    /\ active_readers d' = active_readers d /\ db_options d' = db_options d
    /\ state_at psz fb (total_images (txs ++ [commit_tx psz now t])) = next_state psz A (commit_header now t).
Proof.
  intros Hnow Hinv Hch. pose proof Hinv as (Hdb & Hq & Hsnap & Ht). pose proof Hdb as (_ & Hps & Hcl & _).
  destruct (append_commit_spec psz dbid path wpath fb h txs A free t d w now Hne Hpsz Hnow Hinv)
    as (x & w1 & Happ & Hq1 & Hdb1 & Hst1). cbv zeta in *. cbn [tx_size commit_tx] in Happ.
  do 3 eexists. split; [|split; [exact Hq1|split; [exact Hdb1|by split_and!]]].
  unfold commit_append, bind, getO, modO, onw, ret. cbn [fst snd]. rewrite Hch, Hps.
  cbn [fst snd t_dirty t_header set_txn_header].
  change (with_commit _ now (t_header t)) with (commit_header now t).
  change (DbHeader.page_count (commit_header now t)) with (DbHeader.page_count (t_header t)).
  unfold append_frames, bind, getO, modO, ret. cbn [fst snd]. rewrite Hcl.
  unfold onwal at 1. rewrite Happ. reflexivity.
Qed.
End checkpoint.
