(* ===== verification/DbSpec.v ===== *)
(** What the pager promises, and that it keeps the promise.

    [exec] runs one request of a client against the database; a schedule, the
    interleaving of any number of readers, one writer and checkpoints, is a
    list of requests, one per critical section.  [spec_exec] answers the same
    requests from an abstract machine that has no log, no file and no cache:
    the committed pages, the pages each reader saw when it began, and the
    pages of the writer.  The refinement theorem says that under every
    schedule the two give the same answers: snapshot isolation for readers,
    read-your-writes and atomic commit for the writer, and checkpoints that
    nobody can observe.

    The fault-free filesystem is the setting here; faults are the subject of
    DbCrash. *)

From stdpp Require Import base numbers list gmap strings sorting.
From S2P Require Import Prelude Bytes Crc32c PageFormat Vfs VfsFrame Wal Db DbView DbCheckpoint.
Open Scope Z_scope.

(** * Requests and answers *)

Inductive Req :=
  | BeginRead (i : nat)                (* take the snapshot and register *)
  | ReadyRead (i : nat)                (* read the header *)
  | ReadPage (i : nat) (p : PageNo)
  | EndRead (i : nat)
  | BeginWrite
  | WriteRead (p : PageNo)
  | WritePage (p : PageNo) (data : Bytes)
  | Allocate
  | Free (p : PageNo)
  | CommitAppend (now : Z)             (* the commit, up to its durability *)
  | CommitFinish                       (* the checkpoint it may trigger *)
  | Rollback
  | Checkpoint.

Inductive Resp :=
  | Done
  | Page (b : Bytes)
  | Number (p : PageNo)
  | Failed (c : ErrorCode)
  | Blocked.

Definition answer {A} (f : A -> Resp) (r : Result A) : Resp :=
  match r with Ret a => f a | Err e => Failed (code e) end.

(** The writer: none, one with a transaction, or one between the two
    sections of its commit. *)
Inductive Writer :=
  | NoWriter
  | Writing (t : WriteTxn)
  | Committed (t : WriteTxn) (want_checkpoint : bool).

Record Sys := mkSys {
  s_db : Db;
  s_world : World;
  s_writer : Writer;
  s_readers : gmap nat (FrameNo * option ReadTxn)
}.

(** A method of the database, and one of the writer's transaction. *)
Definition on_db {A} (m : DM A) (s : Sys) : Result A * Sys :=
  let '(r, (d, w)) := m (s_db s, s_world s) in (r, mkSys d w (s_writer s) (s_readers s)).
Definition on_txn {A} (m : TM A) (t : WriteTxn) (s : Sys) : Result A * WriteTxn * Sys :=
  let '(r, (t', (d, w))) := m (t, (s_db s, s_world s)) in (r, t', mkSys d w (Writing t') (s_readers s)).

Definition set_readers_map (s : Sys) m := mkSys (s_db s) (s_world s) (s_writer s) m.
Definition set_writer (s : Sys) x := mkSys (s_db s) (s_world s) x (s_readers s).

Definition exec (q : Req) (s : Sys) : Resp * Sys :=
  match q with
  | BeginRead i =>
      match s_readers s !! i with
      | Some _ => (Blocked, s)
      | None =>
          let '(r, s) := on_db register_reader s in
          (answer (fun _ => Done) r,
           match r with Ret snap => set_readers_map s (<[i := (snap, None)]> (s_readers s)) | Err _ => s end)
      end
  | ReadyRead i =>
      match s_readers s !! i with
      | Some (snap, None) =>
          let '(r, s) := on_db (finish_begin_read snap) s in
          (answer (fun t => Number (r_page_count t)) r,
           set_readers_map s (match r with
                              | Ret t => <[i := (snap, Some t)]> (s_readers s)
                              | Err _ => delete i (s_readers s)
                              end))
      | _ => (Blocked, s)
      end
  | ReadPage i p =>
      match s_readers s !! i with
      | Some (_, Some t) =>
          let '(r, s) := on_db (read_txn_page t p (db_page_size (s_db s))) s in (answer Page r, s)
      | _ => (Blocked, s)
      end
  | EndRead i =>
      match s_readers s !! i with
      | Some (_, Some _) =>
          let '(_, s) := on_db reader_ended s in (Done, set_readers_map s (delete i (s_readers s)))
      | _ => (Blocked, s)
      end
  | BeginWrite =>
      match s_writer s with
      | NoWriter =>
          let '(r, s) := on_db begin_write s in
          (answer (fun _ => Done) r, match r with Ret t => set_writer s (Writing t) | Err _ => s end)
      | _ => (Blocked, s)
      end
  | WriteRead p =>
      match s_writer s with
      | Writing t => let '(r, _, s) := on_txn (write_txn_read p (db_page_size (s_db s))) t s in (answer Page r, s)
      | _ => (Blocked, s)
      end
  | WritePage p data =>
      match s_writer s with
      | Writing t => let '(r, _, s) := on_txn (write_page p data) t s in (answer (fun _ => Done) r, s)
      | _ => (Blocked, s)
      end
  | Allocate =>
      match s_writer s with
      | Writing t => let '(r, _, s) := on_txn allocate_page t s in (answer Number r, s)
      | _ => (Blocked, s)
      end
  | Free p =>
      match s_writer s with
      | Writing t => let '(r, _, s) := on_txn (free_page p) t s in (answer (fun _ => Done) r, s)
      | _ => (Blocked, s)
      end
  | CommitAppend now =>
      match s_writer s with
      | Writing t =>
          let '(r, t', s) := on_txn (commit_append now) t s in
          (answer (fun _ => Done) r,
           set_writer s (match r with Ret want => Committed t' want | Err _ => NoWriter end))
      | _ => (Blocked, s)
      end
  | CommitFinish =>
      match s_writer s with
      | Committed _ want =>
          let '(_, s) := on_db (auto_checkpoint want) s in (Done, set_writer s NoWriter)
      | _ => (Blocked, s)
      end
  | Rollback =>
      match s_writer s with
      | Writing t => let '(_, _, s) := on_txn rollback t s in (Done, set_writer s NoWriter)
      | _ => (Blocked, s)
      end
  | Checkpoint =>
      match s_writer s with
      | NoWriter => let '(r, s) := on_db checkpoint s in (answer (fun _ => Done) r, s)
      | _ => (Blocked, s)
      end
  end.

Fixpoint exec_all (qs : list Req) (s : Sys) : list Resp * Sys :=
  match qs with
  | [] => ([], s)
  | q :: qs =>
      let '(r, s) := exec q s in
      let '(rs, s) := exec_all qs s in (r :: rs, s)
  end.

(** * The abstract machine *)

Inductive SpecWriter :=
  | SNoWriter
  | SWriting (pages : list Bytes) (free : list PageNo) (touched : bool)
  | SCommitted.

Record Spec := mkSpec {
  a_pages : list Bytes;                     (* the committed database *)
  a_free : list PageNo;                     (* its free pages *)
  a_writer : SpecWriter;
  a_readers : gmap nat (bool * list Bytes)  (* ready, and the database it sees *)
}.

(** The header a commit writes. *)
Definition spec_header (S A : list Bytes) (free : list PageNo) (now : Z) : DbHeader.t :=
  match DbHeader.decode (default [] (S !! 0%nat)) with
  | Ret h => DbHeader.mk (DbHeader.page_size h) (DbHeader.format_version h) (Z.of_nat (length A))
               (hd 0 free) (Z.of_nat (length free)) (wrap64 (DbHeader.change_counter h + 1)) (DbHeader.db_id h) now
  | Err _ => DbHeader.mk 0 0 0 0 0 0 [] 0
  end.

Definition in_range (p : PageNo) (A : list Bytes) : bool := p <? Z.of_nat (length A).
Definition spec_page (p : PageNo) (A : list Bytes) : Resp :=
  if in_range p A then Page (default [] (A !! Z.to_nat p)) else Failed InvalidArgument.

Section spec.
Context (psz : nat).

Definition spec_exec (q : Req) (a : Spec) : Resp * Spec :=
  let set_w x := mkSpec (a_pages a) (a_free a) x (a_readers a) in
  let set_r m := mkSpec (a_pages a) (a_free a) (a_writer a) m in
  match q with
  | BeginRead i =>
      match a_readers a !! i with
      | Some _ => (Blocked, a)
      | None => (Done, set_r (<[i := (false, a_pages a)]> (a_readers a)))
      end
  | ReadyRead i =>
      match a_readers a !! i with
      | Some (false, view) => (Number (Z.of_nat (length view)), set_r (<[i := (true, view)]> (a_readers a)))
      | _ => (Blocked, a)
      end
  | ReadPage i p =>
      match a_readers a !! i with
      | Some (true, view) => (spec_page p view, a)
      | _ => (Blocked, a)
      end
  | EndRead i =>
      match a_readers a !! i with
      | Some (true, _) => (Done, set_r (delete i (a_readers a)))
      | _ => (Blocked, a)
      end
  | BeginWrite =>
      match a_writer a with
      | SNoWriter => (Done, set_w (SWriting (a_pages a) (a_free a) false))
      | _ => (Blocked, a)
      end
  | WriteRead p =>
      match a_writer a with
      | SWriting A _ _ => (spec_page p A, a)
      | _ => (Blocked, a)
      end
  | WritePage p data =>
      match a_writer a with
      | SWriting A free _ =>
          if (p =? 0) || negb (in_range p A) || negb (length data =? psz)%nat then (Failed InvalidArgument, a)
          else (Done, set_w (SWriting (<[Z.to_nat p := data]> A) free true))
      | _ => (Blocked, a)
      end
  | Allocate =>
      match a_writer a with
      | SWriting A free _ =>
          let '(p, A, free) := allocated psz A free in (Number p, set_w (SWriting A free true))
      | _ => (Blocked, a)
      end
  | Free p =>
      match a_writer a with
      | SWriting A free _ =>
          if (p =? 0) || negb (in_range p A) then (Failed InvalidArgument, a)
          else (Done, set_w (SWriting (<[Z.to_nat p := free_page_image psz (hd 0 free)]> A) (p :: free) true))
      | _ => (Blocked, a)
      end
  | CommitAppend now =>
      match a_writer a with
      | SWriting A free touched =>
          (Done, if touched
                 then mkSpec (next_state psz A (spec_header (a_pages a) A free now)) free SCommitted (a_readers a)
                 else set_w SCommitted)
      | _ => (Blocked, a)
      end
  | CommitFinish =>
      match a_writer a with SCommitted => (Done, set_w SNoWriter) | _ => (Blocked, a) end
  | Rollback =>
      match a_writer a with SWriting _ _ _ => (Done, set_w SNoWriter) | _ => (Blocked, a) end
  | Checkpoint =>
      match a_writer a with
      | SNoWriter => (if decide (a_readers a = ∅) then Done else Failed Busy, a)
      | _ => (Blocked, a)
      end
  end.

Fixpoint spec_all (qs : list Req) (a : Spec) : list Resp * Spec :=
  match qs with
  | [] => ([], a)
  | q :: qs =>
      let '(r, a) := spec_exec q a in
      let '(rs, a) := spec_all qs a in (r :: rs, a)
  end.

(** What the pager asks of its client: page numbers and bytes of their
    types, no write to and no second free of a free page, and a database that
    stays below the 64-bit offsets. *)
Definition allowed (q : Req) (a : Spec) : Prop :=
  match q, a_writer a with
  | BeginRead _, _ => Z.of_nat (size (a_readers a)) < 2 ^ 64 - 1
  | ReadPage _ p, _ => 0 <= p
  | WriteRead p, SWriting _ _ _ => 0 <= p
  | WritePage p data, SWriting _ free _ => 0 <= p /\ bytes_ok data /\ p ∉ free
  | Free p, SWriting _ free _ => 0 <= p /\ p ∉ free
  | Allocate, SWriting A _ _ => (Z.of_nat (length A) + 1) * Z.of_nat psz < 2 ^ 64
  | CommitAppend now, SWriting _ _ _ => i64_ok now
  | _, _ => True
  end.
Fixpoint allowed_all (qs : list Req) (a : Spec) : Prop :=
  match qs with
  | [] => True
  | q :: qs => allowed q a /\ allowed_all qs (snd (spec_exec q a))
  end.

#[export] Instance allowed_dec q a : stdpp.base.Decision (allowed q a).
Proof. unfold allowed. destruct q, (a_writer a); apply _. Defined.
#[export] Instance allowed_all_dec qs a : stdpp.base.Decision (allowed_all qs a).
Proof. revert a. induction qs as [|q qs IH]; intros a; cbn [allowed_all]; apply _. Defined.
End spec.

(** * Refinement *)

Section refinement.
Context (psz : nat) (dbid : Bytes) (path wpath : string).
Context (Hne : path <> wpath) (Hpsz : (512 <= psz)%nat).

Definition reader_rel (fb : Bytes) (txs : list Tx) (c : FrameNo * option ReadTxn) (x : bool * list Bytes) : Prop :=
  snapshot_of txs (fst c)
  /\ snd x = state_at psz fb (take (fst c) (total_images txs))
  /\ match snd c, fst x with
     | None, false => True
     | Some t, true => r_snapshot t = fst c /\ r_page_count t = Z.of_nat (length (snd x))
     | _, _ => False
     end.

Definition readers_rel (fb : Bytes) (txs : list Tx) (m : gmap nat (FrameNo * option ReadTxn))
    (m' : gmap nat (bool * list Bytes)) : Prop :=
  forall i, match m !! i, m' !! i with
            | Some c, Some x => reader_rel fb txs c x
            | None, None => True
            | _, _ => False
            end.

Definition writer_rel (txs : list Tx) (S : list Bytes) (x : Writer) (y : SpecWriter) : Prop :=
  match x, y with
  | NoWriter, SNoWriter => True
  | Writing t, SWriting A free touched =>
      t_snapshot t = length (total_images txs) /\ txn_rel psz dbid S A free t
      /\ touched = negb (bool_decide (t_dirty t = ∅) && negb (header_changed t))
  | Committed _ _, SCommitted => True
  | _, _ => False
  end.

Record sys_rel_at (fb : Bytes) (h : WalHeader.t) (txs : list Tx) (s : Sys) (a : Spec) : Prop := {
  sr_db : db_inv psz dbid path wpath fb h txs (s_db s) (s_world s);
  sr_quiet : quiet (s_world s);
  sr_archive : archive_dir (db_options (s_db s)) = "";
  sr_pages : a_pages a = state_at psz fb (total_images txs);
  sr_free : exists hdr, state_header psz dbid (a_pages a) hdr /\ free_ok (a_pages a) hdr (a_free a);
  sr_count : active_readers (s_db s) = Z.of_nat (size (a_readers a));
  sr_bound : Z.of_nat (size (a_readers a)) < 2 ^ 64;
  sr_readers : readers_rel fb txs (s_readers s) (a_readers a);
  sr_writer : writer_rel txs (a_pages a) (s_writer s) (a_writer a)
}.
Definition sys_rel (s : Sys) (a : Spec) : Prop := exists fb h txs, sys_rel_at fb h txs s a.

(** One request, answered alike. *)
Definition simulated (q : Req) (s : Sys) (a : Spec) : Prop :=
  fst (exec q s) = fst (spec_exec psz q a) /\ sys_rel (snd (exec q s)) (snd (spec_exec psz q a)).

Lemma readers_both fb txs m m' i :
  readers_rel fb txs m m' ->
  (m !! i = None /\ m' !! i = None)
  \/ (exists c x, m !! i = Some c /\ m' !! i = Some x /\ reader_rel fb txs c x).
Proof. intros H. specialize (H i). destruct (m !! i), (m' !! i); naive_solver. Qed.

Lemma readers_insert fb txs m m' i c x :
  readers_rel fb txs m m' -> reader_rel fb txs c x -> readers_rel fb txs (<[i := c]> m) (<[i := x]> m').
Proof.
  intros H Hc j. destruct (decide (i = j)) as [->|]; [by rewrite !lookup_insert_eq|].
  rewrite !lookup_insert_ne by done. apply H.
Qed.
Lemma readers_delete fb txs m m' i :
  readers_rel fb txs m m' -> readers_rel fb txs (delete i m) (delete i m').
Proof.
  intros H j. destruct (decide (i = j)) as [->|]; [by rewrite !lookup_delete_eq|].
  rewrite !lookup_delete_ne by done. apply H.
Qed.

(** A step that changes nothing but the cache. *)
Lemma sys_rel_cache fb h txs s a c :
  sys_rel_at fb h txs s a -> db_inv psz dbid path wpath fb h txs (set_db_cache (s_db s) c) (s_world s) ->
  sys_rel_at fb h txs (mkSys (set_db_cache (s_db s) c) (s_world s) (s_writer s) (s_readers s)) a.
Proof. intros [] Hc. by constructor. Qed.

Lemma simulated_same q s a :
  sys_rel s a -> exec q s = (Blocked, s) -> spec_exec psz q a = (Blocked, a) -> simulated q s a.
Proof. intros H E1 E2. unfold simulated. by rewrite E1, E2. Qed.

(** ** Readers *)

Lemma begin_read_simulated i s a :
  sys_rel s a -> allowed psz (BeginRead i) a -> simulated (BeginRead i) s a.
Proof.
  intros (fb & h & txs & H) Hb. cbn in Hb. pose proof H as [].
  destruct (readers_both _ _ _ _ i sr_readers0) as [[E1 E2]|(c & x & E1 & E2 & _)].
  2: { apply simulated_same; [by exists fb, h, txs|cbn; by rewrite E1|cbn; by rewrite E2]. }
  unfold simulated. cbn [exec spec_exec]. rewrite E1, E2.
  unfold on_db, register_reader, bind, getO, lift, modO, ret. cbn [fst snd].
  pose proof sr_db0 as (_ & _ & Hcl & _). rewrite Hcl. cbn [fst snd answer]. split; [done|].
  exists fb, h, txs. constructor; cbn [s_db s_world s_writer s_readers set_readers_map a_pages a_free a_writer a_readers];
    try done.
  - cbn [active_readers set_readers]. rewrite sr_count0, map_size_insert_None by done.
    unfold wrap64. rewrite Z.mod_small; lia.
  - rewrite map_size_insert_None by done. lia.
  - apply readers_insert; [done|]. split_and!; cbn [fst snd]; [|rewrite sr_pages0|done].
    + by eapply snapshot_last.
    + rewrite (last_commit_images _ _ _ _ _ _ _ _ _ sr_db0). by rewrite take_ge by lia.
Qed.

Lemma ready_read_simulated i s a : sys_rel s a -> simulated (ReadyRead i) s a.
Proof.
  intros (fb & h & txs & H). pose proof H as [].
  destruct (readers_both _ _ _ _ i sr_readers0) as [[E1 E2]|([snap ot] & [rdy S] & E1 & E2 & Hsnap & HS & Hot)].
  { apply simulated_same; [by exists fb, h, txs|cbn; by rewrite E1|cbn; by rewrite E2]. }
  cbn [fst snd] in *. destruct ot as [t|], rdy; try done.
  { apply simulated_same; [by exists fb, h, txs|cbn; by rewrite E1|cbn; by rewrite E2]. }
  destruct (committed_header_spec _ _ _ _ _ _ _ _ _ snap sr_db0 sr_quiet0 Hsnap) as (c & hdr & Hh & Hhdr & Hi).
  cbv zeta in *. rewrite <- HS in Hhdr.
  assert (Hc : DbHeader.page_count hdr = Z.of_nat (length S)) by (by destruct Hhdr as (? & _ & _ & ? & _)).
  unfold simulated. cbn [exec spec_exec]. rewrite E1, E2.
  unfold on_db, finish_begin_read, bind, attempt, ret. rewrite Hh. cbn [fst snd answer r_page_count].
  rewrite Hc. split; [done|]. exists fb, h, txs.
  constructor; cbn [s_db s_world s_writer s_readers set_readers_map a_pages a_free a_writer a_readers]; try done.
  - rewrite map_size_insert_Some by eauto. done.
  - rewrite map_size_insert_Some by eauto. done.
  - apply readers_insert; [done|]. split_and!; done.
Qed.

Lemma page_default (A : list Bytes) p b : A !! Z.to_nat p = Some b -> default [] (A !! Z.to_nat p) = b.
Proof. by intros ->. Qed.

Lemma read_page_simulated i p s a :
  sys_rel s a -> allowed psz (ReadPage i p) a -> simulated (ReadPage i p) s a.
Proof.
  intros (fb & h & txs & H) Hp. assert (Hp0 : 0 <= p) by (cbn in Hp; by destruct (a_writer a)). pose proof H as [].
  destruct (readers_both _ _ _ _ i sr_readers0) as [[E1 E2]|([snap ot] & [rdy S] & E1 & E2 & Hsnap & HS & Hot)].
  { apply simulated_same; [by exists fb, h, txs|cbn; by rewrite E1|cbn; by rewrite E2]. }
  cbn [fst snd] in *. destruct ot as [t|], rdy; try done.
  2: { apply simulated_same; [by exists fb, h, txs|cbn; by rewrite E1|cbn; by rewrite E2]. }
  destruct Hot as [Ht1 Ht2]. pose proof sr_db0 as (_ & Hps & _).
  unfold simulated. cbn [exec spec_exec]. rewrite E1, E2. unfold spec_page, in_range, on_db, read_txn_page.
  rewrite Ht2, Hps. destruct (Z.leb_spec (Z.of_nat (length S)) p) as [Hge|Hlt].
  - destruct (Z.ltb_spec p (Z.of_nat (length S))); [lia|]. cbn. split; [done|].
    exists fb, h, txs. by constructor.
  - destruct (Z.ltb_spec p (Z.of_nat (length S))); [|lia]. rewrite Ht1.
    destruct (read_committed_spec _ _ _ _ _ _ _ _ _ p snap sr_db0 sr_quiet0 Hsnap) as (c & Hr & Hi); [rewrite <- HS; lia|].
    rewrite Hr. cbn [fst snd answer]. split.
    + f_equal. symmetry. apply page_default. rewrite HS. apply state_at_page. rewrite <- HS. lia.
    + exists fb, h, txs. by apply sys_rel_cache.
Qed.

Lemma end_read_simulated i s a : sys_rel s a -> simulated (EndRead i) s a.
Proof.
  intros (fb & h & txs & H). pose proof H as [].
  destruct (readers_both _ _ _ _ i sr_readers0) as [[E1 E2]|([snap ot] & [rdy S] & E1 & E2 & Hsnap & HS & Hot)].
  { apply simulated_same; [by exists fb, h, txs|cbn; by rewrite E1|cbn; by rewrite E2]. }
  cbn [fst snd] in *. destruct ot as [t|], rdy; try done.
  2: { apply simulated_same; [by exists fb, h, txs|cbn; by rewrite E1|cbn; by rewrite E2]. }
  unfold simulated. cbn [exec spec_exec]. rewrite E1, E2. unfold on_db, reader_ended, modO. cbn [fst snd].
  split; [done|]. exists fb, h, txs.
  assert (Hsz : size (delete i (a_readers a)) = Nat.pred (size (a_readers a))) by (apply map_size_delete_Some; eauto).
  assert (Hpos : size (a_readers a) <> 0%nat) by (intros E; apply map_size_empty_inv in E; rewrite E in E2; done).
  constructor; cbn [s_db s_world s_writer s_readers set_readers_map a_pages a_free a_writer a_readers]; try done.
  - cbn [active_readers set_readers]. rewrite sr_count0, Hsz. unfold wrap64. rewrite Z.mod_small; lia.
  - lia.
  - by apply readers_delete.
Qed.

(** ** The writer *)

Lemma sys_rel_txn fb h txs s a t A free touched :
  sys_rel_at fb h txs s a -> s_writer s = Writing t -> a_writer a = SWriting A free touched ->
  txn_inv psz dbid path wpath fb h txs A free (t, (s_db s, s_world s)).
Proof.
  intros [] E1 E2. rewrite E1, E2 in sr_writer0. destruct sr_writer0 as (? & Ht & _).
  rewrite sr_pages0 in Ht. done.
Qed.

(** The writer's transaction steps to another one, and the cache with it. *)
Lemma sys_rel_step fb h txs s a t A free touched c t' A' free' :
  sys_rel_at fb h txs s a -> s_writer s = Writing t -> a_writer a = SWriting A free touched ->
  txn_inv psz dbid path wpath fb h txs A' free' (t', (set_db_cache (s_db s) c, s_world s)) ->
  (t_dirty t' <> ∅ \/ t' = t) ->
  sys_rel_at fb h txs (mkSys (set_db_cache (s_db s) c) (s_world s) (Writing t') (s_readers s))
    (mkSpec (a_pages a) (a_free a) (SWriting A' free' (if decide (t_dirty t' = ∅) then touched else true)) (a_readers a)).
Proof.
  intros H E1 E2 (Hdb & _ & Hsnap & Ht) Hd. pose proof H as [].
  constructor; cbn [s_db s_world s_writer s_readers a_pages a_free a_writer a_readers]; try done.
  rewrite sr_pages0. split_and!; [done|done|]. case_decide as Hde.
  - destruct Hd as [? | ->]; [done|]. rewrite E1, E2 in sr_writer0. apply sr_writer0.
  - by rewrite bool_decide_eq_false_2.
Qed.

Ltac writer_cases s a H :=
  let Hw := fresh "Hw" in
  pose proof (sr_writer _ _ _ _ _ H) as Hw;
  destruct (s_writer s) as [|t|t want] eqn:Ews, (a_writer a) as [|A free touched|] eqn:Ewa; try done;
  try (apply simulated_same; [by do 3 eexists|cbn; by rewrite Ews|cbn; by rewrite Ewa]).

Lemma begin_write_simulated s a : sys_rel s a -> simulated BeginWrite s a.
Proof.
  intros (fb & h & txs & H). writer_cases s a H. pose proof H as [].
  pose proof sr_db0 as (_ & _ & Hcl & (Hwal & _ & Htxs & _) & _).
  pose proof (snapshot_last _ _ _ _ _ _ _ _ _ sr_db0) as Hso.
  pose proof (last_commit_images _ _ _ _ _ _ _ _ _ sr_db0) as Hlast.
  destruct (committed_header_spec _ _ _ _ _ _ _ _ _ _ sr_db0 sr_quiet0 Hso) as (c & hdr & Hh & Hhdr & Hi).
  cbv zeta in *. rewrite Hlast, take_ge, <- sr_pages0 in Hhdr by lia.
  destruct sr_free0 as (hdr' & Hhdr' & Hfree). assert (hdr' = hdr) as -> by (by eapply state_header_inj).
  assert (Hst : state_ok psz dbid (a_pages a)).
  { rewrite sr_pages0. pose proof sr_db0 as (_ & _ & _ & _ & _ & _ & Hhist & _).
    specialize (Hhist (length txs)). by rewrite take_ge in Hhist by lia. }
  unfold simulated. cbn [exec spec_exec]. rewrite Ews, Ewa.
  assert (Hf : wal_failed (db_wal (s_db s)) = false) by (rewrite Hwal; by apply wal_of_facts).
  unfold on_db, begin_write, bind, getO, lift, ret. cbn [fst snd]. rewrite Hcl, Hf, Hh. cbn [fst snd answer].
  split; [done|]. exists fb, h, txs.
  constructor; cbn [s_db s_world s_writer s_readers set_writer a_pages a_free a_writer a_readers]; try done; [by eauto|].
  split_and!; [done| |].
  - destruct Hst as (Hpages & Hb & _). destruct Hhdr as (p0 & ? & ? & Hcount & ? & ?).
    constructor; cbn [t_finished t_header t_snapshot_header t_dirty t_freed]; try done.
    intros p Hp. lia.
  - unfold header_changed. cbn [t_header t_snapshot_header t_dirty]. rewrite !Z.eqb_refl.
    by rewrite bool_decide_eq_true_2.
Qed.

Lemma write_read_simulated p s a :
  sys_rel s a -> allowed psz (WriteRead p) a -> simulated (WriteRead p) s a.
Proof.
  intros (fb & h & txs & H) Hp. writer_cases s a H. cbn in Hp. rewrite Ewa in Hp.
  pose proof (sys_rel_txn _ _ _ _ _ _ _ _ _ H Ews Ewa) as Hinv. pose proof Hinv as ((_ & Hps & _) & _ & _ & Ht).
  unfold simulated. cbn [exec spec_exec]. rewrite Ews, Ewa. unfold spec_page, in_range, on_txn. rewrite Hps.
  destruct (Z.ltb_spec p (Z.of_nat (length A))) as [Hlt|Hge].
  - destruct (write_txn_read_spec _ _ _ _ _ _ _ _ _ _ _ _ p Hinv) as (b & c & Hb & Hr & Hi); [done|].
    rewrite Hr. cbn [answer fst snd]. rewrite Hb. split; [done|]. exists fb, h, txs.
    destruct a as [Ap Af Aw Ar]. cbn [a_writer] in Ewa. subst Aw.
    pose proof (sys_rel_step _ _ _ _ _ _ _ _ _ c _ _ _ H Ews eq_refl Hi (or_intror eq_refl)) as Hs.
    cbn [a_pages a_free a_readers] in Hs. case_decide as Hd; [done|].
    destruct Hw as (_ & _ & ->). by rewrite bool_decide_eq_false_2.
  - unfold write_txn_read, bind, getO, lift, onw. cbn [fst snd].
    rewrite (tr_open _ _ _ _ _ _ Ht), (tr_count _ _ _ _ _ _ Ht), Hps, Nat.eqb_refl. cbn [negb].
    destruct (Z.leb_spec (Z.of_nat (length A)) p); [|lia]. split; [done|]. exists fb, h, txs.
    rewrite <- Ews. by destruct s, H.
Qed.

Lemma write_page_simulated p data s a :
  sys_rel s a -> allowed psz (WritePage p data) a -> simulated (WritePage p data) s a.
Proof.
  intros (fb & h & txs & H) Hp. writer_cases s a H. cbn in Hp. rewrite Ewa in Hp. destruct Hp as (Hp & Hb & Hn).
  pose proof (sys_rel_txn _ _ _ _ _ _ _ _ _ H Ews Ewa) as Hinv. pose proof Hinv as ((_ & Hps & _) & _ & _ & Ht).
  unfold simulated. cbn [exec spec_exec]. rewrite Ews, Ewa. unfold in_range, on_txn.
  destruct ((p =? 0) || negb (p <? Z.of_nat (length A)) || negb (length data =? psz)%nat) eqn:Eg.
  - assert (Hr : exists e, write_page p data (t, (s_db s, s_world s)) = (Err e, (t, (s_db s, s_world s))) /\ code e = InvalidArgument).
    { unfold write_page, bind, getO, lift, onw, invalid_argument. cbn [fst snd].
      rewrite (tr_open _ _ _ _ _ _ Ht), (tr_count _ _ _ _ _ _ Ht), Hps.
      destruct (Z.eqb_spec p 0); [by eexists|].
      destruct (Z.ltb_spec p (Z.of_nat (length A))), (Z.leb_spec (Z.of_nat (length A)) p); try lia; [|by eexists].
      cbn [orb negb] in Eg. rewrite Eg. by eexists. }
    destruct Hr as (e & -> & He). cbn [answer fst snd]. rewrite He. split; [done|]. exists fb, h, txs.
    rewrite <- Ews. by destruct s, H.
  - apply orb_false_elim in Eg as [Eg E3]. apply orb_false_elim in Eg as [E1 E2].
    apply negb_false_iff in E2, E3. apply Z.eqb_neq in E1. apply Z.ltb_lt in E2. apply Nat.eqb_eq in E3.
    destruct (write_page_spec _ _ _ _ _ _ _ _ _ _ _ _ p data Hinv) as [Hr Hi]; [lia|done..|]. cbv zeta in *.
    rewrite Hr. cbn [answer fst snd]. split; [done|]. exists fb, h, txs.
    rewrite <- (set_db_cache_same (s_db s)) in Hi.
    pose proof (sys_rel_step _ _ _ _ _ _ _ _ _ _ _ _ _ H Ews Ewa Hi) as Hs. rewrite set_db_cache_same in Hs.
    rewrite decide_False in Hs by apply insert_non_empty. apply Hs. left. apply insert_non_empty.
Qed.

Lemma allocate_dirty t x p t' x' : allocate_page (t, x) = (Ret p, (t', x')) -> t_dirty t' <> ∅.
Proof.
  unfold allocate_page, bind at 1 2 3 4, getO, onw, modO, ret, lift. cbn [fst snd].
  destruct x as [d w]. cbn [fst snd]. destruct (t_finished t); [done|].
  match goal with |- context [match ?m with (_, _) => _ end] => destruct m as [[q|e] [t1 [d1 w1]]] end; [|done].
  cbn [fst snd]. intros E. injection E as <- <- <-. apply insert_non_empty.
Qed.

Lemma allocate_simulated s a :
  sys_rel s a -> allowed psz Allocate a -> simulated Allocate s a.
Proof.
  intros (fb & h & txs & H) Hp. writer_cases s a H. cbn in Hp. rewrite Ewa in Hp.
  pose proof (sys_rel_txn _ _ _ _ _ _ _ _ _ H Ews Ewa) as Hinv.
  pose proof (allocate_page_spec psz _ _ _ _ _ _ _ _ _ _ _ ltac:(lia) Hp Hinv) as Ha.
  unfold simulated. cbn [exec spec_exec]. rewrite Ews, Ewa. unfold on_txn.
  destruct (allocated psz A free) as [[q A'] free']. destruct Ha as (t' & c & Hr & Hi).
  pose proof (allocate_dirty _ _ _ _ _ Hr) as Hd. rewrite Hr. cbn [answer fst snd]. split; [done|].
  exists fb, h, txs. pose proof (sys_rel_step _ _ _ _ _ _ _ _ _ _ _ _ _ H Ews Ewa Hi (or_introl Hd)) as Hs.
  by rewrite decide_False in Hs.
Qed.

Lemma free_dirty t x p t' x' : free_page p (t, x) = (Ret tt, (t', x')) -> t_dirty t' <> ∅.
Proof.
  unfold free_page, bind, getO, onw, modO, ret, lift. cbn [fst snd].
  destruct x as [d w]. cbn [fst snd]. repeat (case_match; try done).
  intros E. injection E as <- <-. apply insert_non_empty.
Qed.

Lemma free_head t S A free : txn_rel psz dbid S A free t -> DbHeader.freelist_head (t_header t) = hd 0 free.
Proof.
  intros Ht. destruct (tr_free _ _ _ _ _ _ Ht) as [Hch _]. destruct free; [done|]. by destruct Hch.
Qed.

Lemma free_simulated p s a :
  sys_rel s a -> allowed psz (Free p) a -> simulated (Free p) s a.
Proof.
  intros (fb & h & txs & H) Hp. writer_cases s a H. cbn in Hp. rewrite Ewa in Hp. destruct Hp as (Hp & Hn).
  pose proof (sys_rel_txn _ _ _ _ _ _ _ _ _ H Ews Ewa) as Hinv. pose proof Hinv as ((_ & Hps & _) & _ & _ & Ht).
  unfold simulated. cbn [exec spec_exec]. rewrite Ews, Ewa. unfold in_range, on_txn.
  destruct ((p =? 0) || negb (p <? Z.of_nat (length A))) eqn:Eg.
  - assert (Hr : exists e, free_page p (t, (s_db s, s_world s)) = (Err e, (t, (s_db s, s_world s))) /\ code e = InvalidArgument).
    { unfold free_page, bind, getO, lift, onw, invalid_argument. cbn [fst snd].
      rewrite (tr_open _ _ _ _ _ _ Ht), (tr_count _ _ _ _ _ _ Ht), Z.leb_antisym, Eg. by eexists. }
    destruct Hr as (e & -> & He). cbn [answer fst snd]. rewrite He. split; [done|]. exists fb, h, txs.
    rewrite <- Ews. by destruct s, H.
  - apply orb_false_elim in Eg as [E1 E2]. apply negb_false_iff in E2. apply Z.eqb_neq in E1. apply Z.ltb_lt in E2.
    destruct (free_page_spec psz _ _ _ _ _ _ _ _ _ _ _ p ltac:(lia) Hinv) as (t' & Hr & Hi); [lia|done|].
    pose proof (free_dirty _ _ _ _ _ Hr) as Hd. rewrite Hr. cbn [answer fst snd]. split; [done|].
    exists fb, h, txs. rewrite <- (set_db_cache_same (s_db s)) in Hi. rewrite (free_head _ _ _ _ Ht) in Hi.
    pose proof (sys_rel_step _ _ _ _ _ _ _ _ _ _ _ _ _ H Ews Ewa Hi (or_introl Hd)) as Hs.
    rewrite set_db_cache_same in Hs. by rewrite decide_False in Hs.
Qed.

(** ** Commit, rollback and checkpoint *)

Lemma readers_rel_append fb txs tx m m' :
  readers_rel fb txs m m' -> readers_rel fb (txs ++ [tx]) m m'.
Proof.
  intros H i. specialize (H i). destruct (m !! i) as [c|], (m' !! i) as [x|]; try done.
  destruct H as ([k Hk] & HS & Hr). unfold reader_rel.
  assert (Hle : (fst c <= length (total_images txs))%nat).
  { rewrite Hk, <- (total_images_take k txs), length_take. lia. }
  assert (E : total_images (txs ++ [tx]) = total_images txs ++ tx_images tx).
  { unfold total_images. rewrite map_app, concat_app. cbn. by rewrite app_nil_r. }
  split_and!; [|by rewrite E, take_app_le by done|done].
  exists (Nat.min k (length txs)). rewrite take_app_le by lia. destruct (decide (k <= length txs)%nat).
  - by rewrite Nat.min_l.
  - rewrite Nat.min_r, take_ge by lia. rewrite take_ge in Hk by lia. done.
Qed.

Lemma FreePage_decode_seal b :
  (20 <= length b)%nat -> FreePage.decode (seal_page b) = FreePage.decode b.
Proof.
  intros Hl. unfold FreePage.decode. rewrite length_seal_page.
  assert (magic_differs (seal_page b) FreePage.kMagic = magic_differs b FreePage.kMagic) as ->.
  { pose proof (magic_differs_false (seal_page b) FreePage.kMagic) as H1.
    pose proof (magic_differs_false b FreePage.kMagic) as H2. rewrite length_seal_page in H1.
    rewrite sub_seal_page in H1 by lia. specialize (H1 ltac:(lia) eq_refl). specialize (H2 ltac:(lia) eq_refl).
    destruct (magic_differs (seal_page b) _), (magic_differs b _); naive_solver. }
  unfold get_u64. by rewrite get_le_seal_page by lia.
Qed.

Lemma free_chain_sealed A H head l :
  Forall (fun b => length b = psz) A -> free_chain A head l -> free_chain (next_state psz A H) head l.
Proof.
  intros HA. revert head. induction l as [|q l IH]; intros head; [done|].
  intros (-> & H1 & b & fp & Hb & Hd & Hl). split_and!; [done|done|]. exists (seal_page b), fp.
  destruct (Z.to_nat q) as [|i] eqn:E; [lia|]. rewrite next_state_lookup, Hb. split; [done|].
  rewrite Forall_lookup in HA. rewrite FreePage_decode_seal by (rewrite (HA _ _ Hb); lia). auto.
Qed.

Lemma txn_rel_lengths S A free t :
  state_ok psz dbid S -> txn_rel psz dbid S A free t -> Forall (fun b => length b = psz) A.
Proof.
  intros [HS _] Ht. apply Forall_lookup. intros i b Hb. rewrite (tr_pages _ _ _ _ _ _ Ht) in Hb.
  destruct (t_dirty t !! Z.of_nat i) eqn:E.
  - injection Hb as ->. by apply (tr_dirty _ _ _ _ _ _ Ht) in E as (_ & ? & _).
  - rewrite Forall_lookup in HS. by destruct (HS _ _ Hb).
Qed.

Lemma commit_header_spec S A free t now :
  txn_rel psz dbid S A free t -> commit_header now t = spec_header S A free now.
Proof.
  intros Ht. pose proof (free_head _ _ _ _ Ht) as Hh. pose proof (tr_count _ _ _ _ _ _ Ht) as Hc.
  destruct (tr_ident _ _ _ _ _ _ Ht) as (I1 & I2 & I3).
  destruct (tr_free _ _ _ _ _ _ Ht) as (_ & _ & Hn & _).
  destruct (tr_base _ _ _ _ _ _ Ht) as (p0 & Hp0 & Hd & _).
  unfold spec_header, commit_header, with_commit. rewrite Hp0. cbn [default from_option id]. rewrite Hd.
  by rewrite I1, I2, I3, Hh, Hc, Hn.
Qed.

Lemma committed_state fb h txs d w :
  db_inv psz dbid path wpath fb h txs d w -> state_ok psz dbid (state_at psz fb (total_images txs)).
Proof.
  intros (_ & _ & _ & _ & _ & _ & Hh & _). specialize (Hh (length txs)). by rewrite take_ge in Hh by lia.
Qed.

Lemma free_ok_committed S A free t now :
  state_ok psz dbid S -> txn_rel psz dbid S A free t ->
  free_ok (next_state psz A (commit_header now t)) (commit_header now t) free.
Proof.
  intros HS Ht. pose proof (tr_free _ _ _ _ _ _ Ht) as (Hch & Hnd & Hn & Hall).
  pose proof (txn_rel_length_pos _ _ _ _ _ _ Ht). pose proof (tr_grows _ _ _ _ _ _ Ht).
  split_and!; [|done|done|by rewrite length_next_state by lia].
  apply free_chain_sealed; [by eapply txn_rel_lengths|done].
Qed.

Lemma commit_append_simulated now s a :
  sys_rel s a -> allowed psz (CommitAppend now) a -> simulated (CommitAppend now) s a.
Proof.
  intros (fb & h & txs & H) Hp. writer_cases s a H. cbn in Hp. rewrite Ewa in Hp.
  pose proof (sys_rel_txn _ _ _ _ _ _ _ _ _ H Ews Ewa) as Hinv. pose proof Hinv as (_ & _ & _ & Ht).
  pose proof (committed_state _ _ _ _ _ (sr_db _ _ _ _ _ H)) as HS.
  pose proof H as []. destruct Hw as (_ & _ & Hto).
  unfold simulated. cbn [exec spec_exec]. rewrite Ews, Ewa. unfold on_txn.
  destruct (bool_decide (t_dirty t = ∅) && negb (header_changed t)) eqn:Ech; subst touched.
  - unfold commit_append, bind, getO, onw, ret. cbn [fst snd]. rewrite Ech. split; [done|].
    exists fb, h, txs. by constructor.
  - destruct (commit_append_spec psz dbid path wpath Hne ltac:(lia) fb h txs A free t (s_db s) (s_world s) now Hp Hinv Ech)
      as (want & d' & w' & Hr & Hq' & Hdb' & Hrd & Hop & Hst).
    rewrite Hr. cbn [answer fst snd negb]. split; [done|]. exists fb, h, (txs ++ [commit_tx psz now t]).
    rewrite sr_pages0. rewrite <- (commit_header_spec _ _ _ _ now Ht).
    constructor; cbn [set_writer s_db s_world s_writer s_readers a_pages a_free a_writer a_readers];
      try done; try congruence.
    + exists (commit_header now t). split; [|by eapply free_ok_committed].
      destruct (commit_state psz dbid fb (total_images txs) A free t now HS Ht Hp ltac:(lia)) as [_ (_ & _ & hdr & Hhdr)].
      pose proof Hhdr as (p0 & Hp0 & Hd & _).
      destruct (commit_header_wf _ _ _ _ _ _ _ HS Ht Hp ltac:(lia)) as [Hwf Hpz].
      injection Hp0 as <-. destruct (header_image_ok psz _ Hwf Hpz) as [_ Hdec]. congruence.
    + by apply readers_rel_append.
Qed.

Lemma checkpoint_sys s a :
  sys_rel s a -> s_writer s = NoWriter \/ a_writer a = SCommitted ->
  let '(r, s') := on_db checkpoint_locked s in
  answer (fun _ => Done) r = (if decide (a_readers a = ∅) then Done else Failed Busy) /\ sys_rel s' a.
Proof.
  intros (fb & h & txs & H) Hwr. pose proof H as []. unfold on_db. case_decide as Hd.
  - rewrite Hd, map_size_empty in sr_count0. cbn in sr_count0.
    destruct (checkpoint_spec psz dbid path wpath Hne ltac:(lia) fb h txs (s_db s) (s_world s) sr_db0 sr_quiet0 sr_count0 sr_archive0)
      as (b & h' & txs' & d' & w' & Hr & Hq' & Hdb' & Hrd & Hop & -> & Hst).
    rewrite Hr. split; [done|]. exists b, h', [].
    constructor; cbn [s_db s_world s_writer s_readers]; try done; try congruence.
    + rewrite Hrd, Hd. done.
    + rewrite Hd in *. intros i. specialize (sr_readers0 i). rewrite lookup_empty in *.
      by destruct (s_readers s !! i).
    + destruct (s_writer s), (a_writer a); try done. by destruct Hwr.
  - unfold checkpoint_locked, bind, getO, lift, busy. cbn [fst snd].
    pose proof sr_db0 as (_ & _ & Hcl & _). rewrite Hcl, sr_count0.
    destruct (Z.eqb_spec (Z.of_nat (size (a_readers a))) 0) as [E|_].
    { destruct Hd. apply map_size_empty_inv. lia. }
    cbn [negb answer]. split; [done|]. exists fb, h, txs. by destruct s.
Qed.

Lemma sys_rel_writer s a x y :
  sys_rel s a -> (x = NoWriter /\ y = SNoWriter) ->
  sys_rel (set_writer s x) (mkSpec (a_pages a) (a_free a) y (a_readers a)).
Proof. intros (fb & h & txs & []) [-> ->]. exists fb, h, txs. by constructor. Qed.

Lemma checkpoint_simulated s a : sys_rel s a -> simulated Checkpoint s a.
Proof.
  intros Hs. pose proof Hs as (fb & h & txs & H). writer_cases s a H.
  pose proof (checkpoint_sys s a Hs (or_introl Ews)) as Hc.
  unfold simulated. cbn [exec spec_exec]. rewrite Ews, Ewa. unfold checkpoint.
  destruct (on_db checkpoint_locked s). done.
Qed.

Lemma commit_finish_simulated s a : sys_rel s a -> simulated CommitFinish s a.
Proof.
  intros Hs. pose proof Hs as (fb & h & txs & H). writer_cases s a H.
  pose proof (checkpoint_sys s a Hs (or_intror Ewa)) as Hc.
  unfold simulated. cbn [exec spec_exec]. rewrite Ews, Ewa.
  unfold auto_checkpoint. destruct want.
  - unfold on_db, bind, attempt, ret in *. destruct (checkpoint_locked (s_db s, s_world s)) as [r [d w]].
    cbn [fst snd]. split; [done|]. apply (sys_rel_writer _ _ _ _ (proj2 Hc)). done.
  - split; [done|]. apply sys_rel_writer; [|done]. by destruct s.
Qed.

Lemma rollback_simulated s a : sys_rel s a -> simulated Rollback s a.
Proof.
  intros Hs. pose proof Hs as (fb & h & txs & H). writer_cases s a H.
  destruct (sys_rel_txn _ _ _ _ _ _ _ _ _ H Ews Ewa) as (_ & _ & _ & Ht).
  unfold simulated. cbn [exec spec_exec]. rewrite Ews, Ewa.
  unfold on_txn, rollback, bind, getO, modO, ret. cbn [fst snd]. rewrite (tr_open _ _ _ _ _ _ Ht).
  split; [done|]. exists fb, h, txs. destruct H. by constructor.
Qed.

Lemma exec_simulated q s a : sys_rel s a -> allowed psz q a -> simulated q s a.
Proof.
  destruct q; eauto using begin_read_simulated, ready_read_simulated, read_page_simulated, end_read_simulated,
    begin_write_simulated, write_read_simulated, write_page_simulated, allocate_simulated, free_simulated,
    commit_append_simulated, commit_finish_simulated, rollback_simulated, checkpoint_simulated.
Qed.
End refinement.

(** [C2] The pager refines the abstract machine: for every interleaving of
    readers, a writer and checkpoints that keeps the client's contract, each
    request gets from the database exactly the answer the machine gives.  So
    a reader sees the pages committed when it began and nothing later, a
    writer reads its own writes, a commit appears at once and whole, a
    rollback leaves no trace, and checkpoints are invisible.  The relation
    holds again at the end. *)
Theorem db_refines_spec psz dbid path wpath qs s a :
  path <> wpath -> (512 <= psz)%nat -> sys_rel psz dbid path wpath s a -> allowed_all psz qs a ->
  fst (exec_all qs s) = fst (spec_all psz qs a)
  /\ sys_rel psz dbid path wpath (snd (exec_all qs s)) (snd (spec_all psz qs a)).
Proof.
  intros Hne Hpsz. revert s a. induction qs as [|q qs IH]; intros s a Hs Hall; [done|].
  destruct Hall as [Hq Hall]. cbn [exec_all spec_all].
  destruct (exec_simulated psz dbid path wpath Hne Hpsz q s a Hs Hq) as [Hr Hs'].
  destruct (exec q s) as [r s'], (spec_exec psz q a) as [r' a']. cbn [fst snd] in *. subst r'.
  specialize (IH s' a' Hs' Hall). destruct (exec_all qs s'), (spec_all psz qs a'). cbn [fst snd] in *.
  by destruct IH as [-> ?].
Qed.

(** A database of one page, just opened. *)
Definition small_header : DbHeader.t := DbHeader.mk 512 3 1 0 0 0 (replicate 16 171) 0.
Definition small_wal_header : WalHeader.t := WalHeader.mk 512 5 6 (replicate 16 171) 0.
Definition small_file : Bytes := header_image 512 small_header.
Definition small_world : World :=
  reboot {["d" := small_file; "d.wal" := log_file small_wal_header []]} [] [7; 8; 9].
Definition small_sys : Sys :=
  mkSys (mkDb "d" "d.wal" (mkDbOptions 512 8 1000 true "") 512 (wal_of 512 "d.wal" small_wal_header [])
           0 0 0 (mkInfo 0 0 false) (replicate 16 171) false (mkCache ∅ [] 8))
    small_world NoWriter ∅.
Definition small_spec : Spec := mkSpec [small_file] [] SNoWriter ∅.

Lemma small_header_ok : DbHeader.wf small_header /\ DbHeader.page_size small_header = Z.of_nat 512.
Proof. split; [|done]. unfold DbHeader.wf. split_and!; try decide_now; vm_compute; congruence. Qed.

#[local] Opaque header_image seal_page DbHeader.decode page_checksum_ok log_file.
Lemma small_state_ok : state_at 512 small_file [] = [small_file] /\ state_ok 512 (replicate 16 171) [small_file].
Proof.
  destruct small_header_ok as [Hwf Hp]. destruct (header_image_ok 512 small_header Hwf Hp) as [Hok Hdec].
  split; [vm_compute; reflexivity|]. split; [by constructor|]. split; [decide_now|].
  exists small_header, small_file. split_and!; done.
Qed.
#[local] Opaque small_file.

Lemma small_db_inv :
  db_inv 512 (replicate 16 171) "d" "d.wal" small_file small_wal_header [] (s_db small_sys) small_world.
Proof.
  destruct small_state_ok as [Hst Hok]. split; [done|]. split; [done|]. split; [done|].
  split; [|split; [|split; [|split_and!]]].
  - split; [done|]. split; [|split; [constructor|by split_and!]].
    unfold header_ok, WalHeader.wf. split_and!; try decide_now; reflexivity.
  - by split_and!.
  - split; [|intros p f b Hb; cbn in Hb; rewrite lookup_empty in Hb; discriminate Hb]. split_and!; [constructor|..|cbn; lia].
    intros k. cbn. rewrite elem_of_nil, lookup_empty. split; [intros []|intros [? E]; discriminate E].
  - intros k. rewrite take_nil. change (total_images []) with (@nil PageImage). rewrite Hst. exact Hok.
  - constructor.
  - intros [|] ? E; discriminate E.
Qed.

Lemma small_sys_rel : sys_rel 512 (replicate 16 171) "d" "d.wal" small_sys small_spec.
Proof.
  destruct small_state_ok as [Hst Hok]. destruct small_header_ok as [Hwf Hp].
  destruct (header_image_ok 512 small_header Hwf Hp) as [_ Hdec].
  exists small_file, small_wal_header, [].
  constructor; [exact small_db_inv|reflexivity|reflexivity|symmetry; exact Hst| |reflexivity|reflexivity| |exact I].
  - exists small_header. split; [|split_and!; [reflexivity|constructor|reflexivity|constructor]].
    exists small_file. split; [reflexivity|]. split; [exact Hdec|]. split_and!; reflexivity.
  - intros i. cbn. rewrite !lookup_empty. exact I.
Qed.

(** A reader that begins before a commit and reads after it, next to one that
    begins later; a second checkpoint that the open readers defer. *)
Definition small_schedule : list Req :=
  [BeginWrite; Allocate; WritePage 1 (replicate 512 7); BeginRead 0; ReadyRead 0; CommitAppend 42; CommitFinish;
   ReadPage 0 1; BeginRead 1; ReadyRead 1; ReadPage 1 1; Checkpoint; EndRead 0; EndRead 1; Checkpoint].

Lemma db_refines_spec_witness :
  fst (exec_all small_schedule small_sys)
  = [Done; Number 1; Done; Done; Number 1; Done; Done; Failed InvalidArgument; Done; Number 2;
     Page (seal_page (replicate 512 7)); Failed Busy; Done; Done; Done].
Proof.
  transitivity (fst (spec_all 512 small_schedule small_spec)); [|vm_compute; reflexivity].
  apply (db_refines_spec 512 (replicate 16 171) "d" "d.wal" small_schedule small_sys small_spec);
    [done|decide_now|exact small_sys_rel|decide_now].
Defined.
