(* ===== verification/Recovery.v ===== *)
(** Point-in-time recovery (engine/src/engine/recovery.cpp).

    A backup is copied and archived segments of the log are replayed on the
    copy, then the live log, up to a change counter or a time.  Offsets and
    sizes are [nat], far below the 64-bit limit; the loops over a file take
    its size as fuel, and the loop over the segments one round for each segment
    and one for the live log. *)

From stdpp Require Import base numbers list gmap strings sorting.
From S2P Require Import Prelude Bytes Crc32c PageFormat Types Vfs Wal Db.
From stdpp Require Import list.
Open Scope Z_scope.

Record RecoveryTarget := mkTarget { rt_change_counter : option Z; rt_time_us : option Z }.
Record RecoveryReport := mkReport {
  start_change_counter : Z; rep_change_counter : Z; rep_commit_time_us : Z; transactions_applied : Z; segments_applied : Z; target_reached : bool }.
Record FileDigest := mkDigest { dig_size : nat; dig_crc32c : Z }.

(** * The filesystem *)

(** [FaultVfs::list] and [MemVfs::list]: the names under the directory, in
    order. *)
Definition string_le (a b : string) : Prop := String.compare a b <> Gt.
#[export] Instance string_le_dec : RelDecision string_le.
Proof. intros a b. unfold string_le. destruct (String.compare a b); solve [left; done | right; intros H; by apply H]. Defined.
Definition has_slash (s : string) : bool := existsb (fun c => Ascii.eqb c (Ascii.ascii_of_nat 47)) (String.list_ascii_of_string s).
Definition strip_prefix (prefix s : string) : option string :=
  if String.prefix prefix s then Some (String.substring (String.length prefix) (String.length s - String.length prefix) s) else None.
Definition listed (dir : string) (files : gmap string Bytes) : list string :=
  List.filter (fun rest => negb (has_slash rest)) (omap (strip_prefix (dir +:+ "/")) (merge_sort string_le (map fst (map_to_list files)))).
Definition vfs_list (dir : string) : M World (list string) := fun w =>
  if is_crashed w then (crashed ("list " +:+ dir), w) else (Ret (listed dir (cache w)), w).

Definition dir_of (path : string) : string :=
  match find_last_slash path 0 with
  | None => "."
  | Some pos => String.substring 0 pos path
  end.
Definition no_flags : OpenFlags := mkOpenFlags false false false false.

(** * Copies and digests *)

Definition kBuf : nat := Z.to_nat 65536.
Fixpoint copy_loop (fuel : nat) (from to : string) (size off : nat) : M World unit :=
  if (off <? size)%nat then
    match fuel with
    | O => lift (corrupt "copy out of fuel")
    | S fuel =>
        let! buf := file_read from off kBuf in
        if (length buf =? 0)%nat then ret tt
        else do! file_write to off buf in copy_loop fuel from to size (off + length buf)
    end
  else ret tt.
Definition copy_file (from to : string) : M World unit :=
  do! vfs_open from no_flags in
  do! vfs_open to (mkOpenFlags true true false true) in
  let! size := file_size from in
  do! copy_loop size from to size 0 in
  do! file_sync to in
  vfs_sync_directory (dir_of to).

Fixpoint digest_loop (fuel : nat) (path : string) (size off : nat) (crc : Z) : M World Z :=
  if (off <? size)%nat then
    match fuel with
    | O => lift (corrupt "digest out of fuel")
    | S fuel =>
        let! buf := file_read path off kBuf in
        if (length buf =? 0)%nat then lift (io ("short read at " +:+ to_string (Z.of_nat off) +:+ ": " +:+ path))
        else digest_loop fuel path size (off + length buf) (crc32c_seeded crc buf)
    end
  else ret crc.
Definition file_digest (path : string) : M World FileDigest :=
  do! vfs_open path no_flags in
  let! size := file_size path in
  let! crc := digest_loop size path size 0 0 in
  ret (mkDigest size crc).

(** A buffer of [n] bytes into which fewer may have been read. *)
Definition filled_up (n : nat) (got : Bytes) : Bytes := got ++ replicate (n - length got) 0.
Fixpoint verify_pages (path : string) (psz : nat) (n : nat) (p : Z) : M World unit :=
  match n with
  | O => ret tt
  | S n =>
      let! page := file_read path (page_offset psz p) psz in
      if negb (length page =? psz)%nat || negb (page_checksum_ok page) then
        lift (corrupt ("backup " +:+ path +:+ ": page " +:+ to_string p +:+ " checksum mismatch"))
      else verify_pages path psz n (p + 1)
  end.
Definition verify_backup_file (path : string) : M World unit :=
  do! vfs_open path no_flags in
  let! probe := file_read path 0 (Z.to_nat kMinPageSize) in
  if (length probe <? DbHeader.kEncodedBytes)%nat then lift (corrupt ("backup too short: " +:+ path))
  else
    let! hdr := lift (DbHeader.decode (filled_up (Z.to_nat kMinPageSize) probe)) in
    let! size := file_size path in
    if negb (Z.of_nat size =? wrap64 (DbHeader.page_count hdr * DbHeader.page_size hdr)) then
      lift (corrupt ("backup " +:+ path +:+ " is " +:+ to_string (Z.of_nat size) +:+ " bytes, header says "
        +:+ to_string (DbHeader.page_count hdr) +:+ " pages of " +:+ to_string (DbHeader.page_size hdr)))
    else verify_pages path (Z.to_nat (DbHeader.page_size hdr)) (Z.to_nat (DbHeader.page_count hdr)) 0.

(** * Segments *)

(** [strtoull] of decimal digits. *)
Fixpoint decimal_value (s : string) (acc : Z) : option Z :=
  match s with
  | EmptyString => Some acc
  | String c s =>
      let x := Z.of_nat (Ascii.nat_of_ascii c) in
      if (48 <=? x) && (x <=? 57) then decimal_value s (acc * 10 + (x - 48)) else None
  end.
Definition id_hex (db_id : Bytes) : string :=
  fold_left (fun s b => s +:+ String (hex_digit (Z.shiftr b 4)) (String (hex_digit (Z.land b 15)) EmptyString)) db_id EmptyString.
Definition segment_base (db_id : Bytes) (n : string) : option Z :=
  let id := id_hex db_id in
  if negb (String.length n =? String.length id + 1 + 20 + 4)%nat || negb (String.prefix (id +:+ "-") n)
     || negb (String.eqb (String.substring (String.length n - 4) 4 n) ".wal") then None
  else match decimal_value (String.substring (String.length id + 1) 20 n) 0 with
       | None => None
       | Some v => Some (Z.min v (2 ^ 64 - 1))
       end.
(** [std::map<uint64_t, std::string>]: ascending in the base. *)
Fixpoint set_segment (base : Z) (path : string) (l : list (Z * string)) : list (Z * string) :=
  match l with
  | [] => [(base, path)]
  | (b, p) :: l' =>
      if base <? b then (base, path) :: l
      else if base =? b then (base, path) :: l'
      else (b, p) :: set_segment base path l'
  end.
Definition segments_named (db_id : Bytes) (archive_dir : string) (names : list string) : list (Z * string) :=
  fold_left (fun segs n => match segment_base db_id n with
                           | Some base => set_segment base (archive_dir +:+ "/" +:+ n) segs
                           | None => segs
                           end) names [].
Definition find_segments (db_id : Bytes) (archive_dir : string) : M World (list (Z * string)) :=
  if String.eqb archive_dir "" then ret []
  else
    let! names := attempt (vfs_list archive_dir) in
    match names with
    | Ret names => ret (segments_named db_id archive_dir names)
    | Err e => if decide (code e = NotFound) then ret [] else lift (Err e)
    end.
(** The segment with the largest base at or below the counter, and the
    others: [upper_bound] and the one before it, erased. *)
Fixpoint take_segment (counter : Z) (segs : list (Z * string)) : option (string * list (Z * string)) :=
  match segs with
  | [] => None
  | (b, p) :: segs =>
      if b <=? counter then
        match take_segment counter segs with
        | Some (p', segs') => Some (p', (b, p) :: segs')
        | None => Some (p, segs)
        end
      else None
  end.

(** * Recovery *)

Section recover.
Context (target : RecoveryTarget) (out_path : string) (psz : nat).

Definition within_target (c : WalCommit) : bool :=
  negb (match rt_change_counter target with Some t => t <? c_change_counter c | None => false end)
  && negb (match rt_time_us target with Some t => t <? c_commit_time_us c | None => false end).
Definition target_done (rep : RecoveryReport) : bool :=
  match rt_change_counter target with Some t => t <=? rep_change_counter rep | None => false end.

(** A const method of the log. *)
Definition on_wal {A} (x : Wal) (m : WM A) : M World A := fun w => let '(r, (_, w)) := m (x, w) in (r, w).

(** The frames [f .. c.frame] of one commit. *)
Fixpoint apply_frames (n : nat) (x : Wal) (f : FrameNo) : M World unit :=
  match n with
  | O => ret tt
  | S n =>
      let! page := on_wal x (read_frame_page f) in
      do! file_write out_path (page_offset psz (nth (f - 1) (frame_pages x) 0)) page in
      apply_frames n x (S f)
  end.
Definition after_commit (rep : RecoveryReport) (c : WalCommit) : RecoveryReport :=
  mkReport (start_change_counter rep) (c_change_counter c) (c_commit_time_us c) (wrap64 (transactions_applied rep + 1)) (segments_applied rep) (target_reached rep).
(** The loop over the commits of a segment: whether to stop, the report and
    whether any was applied. *)
Fixpoint apply_commits (seg : string) (x : Wal) (commits : list WalCommit) (prev : FrameNo) (rep : RecoveryReport) (any : bool) : M World (bool * RecoveryReport * bool) :=
  match commits with
  | [] => ret (false, rep, any)
  | c :: commits =>
      if c_change_counter c <=? rep_change_counter rep then apply_commits seg x commits (c_frame c) rep any
      else if negb (within_target c) then ret (true, rep, any)
      else if negb (c_change_counter c =? wrap64 (rep_change_counter rep + 1)) then
        lift (corrupt ("segment " +:+ seg +:+ " commit " +:+ to_string (c_change_counter c) +:+ " does not follow " +:+ to_string (rep_change_counter rep)))
      else
        do! apply_frames (c_frame c - prev) x (S prev) in
        let! size := file_size out_path in
        let want := page_offset psz (c_db_size c) in
        do! (if (want <? size)%nat then file_truncate out_path want else ret tt) in
        let rep := after_commit rep c in
        if target_done rep then ret (true, rep, true)
        else apply_commits seg x commits (c_frame c) rep true
  end.
Definition count_segment (any : bool) (rep : RecoveryReport) : RecoveryReport :=
  if any then mkReport (start_change_counter rep) (rep_change_counter rep) (rep_commit_time_us rep) (transactions_applied rep)
                (wrap64 (segments_applied rep + 1)) (target_reached rep) else rep.

(** One segment: whether the loop ends, and the report. *)
Definition apply_segment (db_id : Bytes) (live_wal_path seg : string) (rep : RecoveryReport) : M World (bool * RecoveryReport) :=
  let is_live := String.eqb seg live_wal_path in
  let! wal := attempt (open_wal seg psz (mkWalOptions db_id 0 true)) in
  match wal with
  | Err e => if is_live then ret (true, rep) else lift (Err e)
  | Ret (x, _) =>
      let base := WalHeader.base_change_counter (header x) in
      if rep_change_counter rep <? base then
        if is_live then ret (true, rep)
        else lift (corrupt ("segment " +:+ seg +:+ " continues from change counter " +:+ to_string base +:+ ", beyond " +:+ to_string (rep_change_counter rep)))
      else
        let! (stop, rep, any) := apply_commits seg x (commit_list x) 0%nat rep false in
        ret (stop || is_live, count_segment any rep)
  end.

Fixpoint replay (fuel : nat) (db_id : Bytes) (live_wal_path : string) (segs : list (Z * string)) (live_tried : bool) (rep : RecoveryReport) : M World RecoveryReport :=
  if target_done rep then ret rep
  else match fuel with
       | O => lift (corrupt "replay out of fuel")
       | S fuel =>
           match take_segment (rep_change_counter rep) segs with
           | Some (seg, segs) =>
               let! (stop, rep) := apply_segment db_id live_wal_path seg rep in
               if stop then ret rep else replay fuel db_id live_wal_path segs live_tried rep
           | None =>
               if negb (String.eqb live_wal_path "") && negb live_tried then
                 let! e := vfs_exists live_wal_path in
                 if negb e then ret rep
                 else
                   let! (stop, rep) := apply_segment db_id live_wal_path live_wal_path rep in
                   if stop then ret rep else replay fuel db_id live_wal_path segs true rep
               else ret rep
           end
       end.
End recover.

Definition refuse_existing (path : string) : M World unit :=
  let! e := vfs_exists path in
  if (e : bool) then lift (already_exists ("recovery output exists: " +:+ path)) else ret tt.
Definition recover_to_point (backup_path archive_dir live_wal_path : string) (target : RecoveryTarget) (out_path : string) : M World RecoveryReport :=
  do! refuse_existing out_path in
  do! refuse_existing (out_path +:+ ".wal") in
  do! copy_file backup_path out_path in
  do! vfs_open out_path (mkOpenFlags true false false false) in
  let! probe := file_read out_path 0 (Z.to_nat kMinPageSize) in
  if (length probe <? DbHeader.kEncodedBytes)%nat then lift (corrupt ("backup too short: " +:+ backup_path))
  else
    let! hdr := lift (DbHeader.decode (filled_up (Z.to_nat kMinPageSize) probe)) in
    let psz := Z.to_nat (DbHeader.page_size hdr) in
    let! page0 := file_read out_path 0 psz in
    if negb (length page0 =? psz)%nat || negb (page_checksum_ok page0) then lift (corrupt "backup page 0 checksum mismatch")
    else
      let rep := mkReport (DbHeader.change_counter hdr) (DbHeader.change_counter hdr) (DbHeader.commit_time_us hdr) 0 0 false in
      let! segs := find_segments (DbHeader.db_id hdr) archive_dir in
      let! rep := replay target out_path psz (S (S (length segs))) (DbHeader.db_id hdr) live_wal_path segs false rep in
      do! file_sync out_path in
      do! vfs_sync_directory (dir_of out_path) in
      ret (mkReport (start_change_counter rep) (rep_change_counter rep) (rep_commit_time_us rep) (transactions_applied rep) (segments_applied rep)
             (match rt_change_counter target with Some t => rep_change_counter rep =? t | None => true end)).
