(* ===== verification/RecoverySpec.v ===== *)
(** Point-in-time recovery gives the history up to its target.

    [history] is what the archived segments and the live log hold beyond the
    backup; recovery applies the longest prefix of it whose commits are all
    within the target, and only a fault of the filesystem makes it fail.
    [copy_file], [file_digest] and [verify_backup_file] have their exact
    results for every file. *)

From stdpp Require Import base numbers list gmap strings sorting.
From S2P Require Import Prelude Bytes Crc32c PageFormat Types Vfs VfsFrame Wal Db Recovery.
From stdpp Require Import list.
Open Scope Z_scope.

(** * Triples of computations on the filesystem

    Started in [P] under an honest injector, [m] ends in [Q] when it returns a
    value, and it returns an error only if [F], a reason of its own, holds or
    some operation was made to fail. *)

Definition hoare {A} (F : Prop) (P : World -> Prop) (m : M World A) (Q : A -> World -> Prop) : Prop :=
  forall w r w', honest w -> P w -> m w = (r, w') ->
    calm w w' /\ match r with Ret a => Q a w' | Err _ => F \/ ~ quiet w end.

Lemma hoare_fail {A} (F : Prop) P e (Q : A -> World -> Prop) : F -> hoare F P (lift (Err e)) Q.
Proof. intros HF w r w' _ _ [= <- <-]. split; [done|by left]. Qed.

Section rules.
Context (F : Prop).

Lemma hoare_ret {A} P (a : A) Q : (forall w, P w -> Q a w) -> hoare F P (ret a) Q.
Proof. intros H w r w' _ HP [= <- <-]. split; [done|auto]. Qed.

Lemma hoare_bind {A B} P (m : M World A) R (k : A -> M World B) Q :
  hoare F P m R -> (forall a, hoare F (R a) (k a) Q) -> hoare F P (bind m k) Q.
Proof.
  intros Hm Hk w r w' Hh HP H. unfold bind in H. destruct (m w) as [[a|e] w1] eqn:E.
  - destruct (Hm _ _ _ Hh HP E) as [Hc1 HR].
    destruct (Hk _ _ _ _ (proj1 Hc1 Hh) HR H) as [Hc2 HQ].
    split; [by eapply calm_trans|]. destruct r; [done|]. destruct HQ as [?|Hq]; [by left|right]. intros ?. by apply Hq, Hc1.
  - simplify_eq. by apply (Hm _ _ _ Hh HP E).
Qed.

(** The value an operation returned is known. *)
Lemma hoare_bind_eq {A B} P (m : M World A) a0 R (k : A -> M World B) Q :
  hoare F P m (fun a w => a = a0 /\ R w) -> hoare F R (k a0) Q -> hoare F P (bind m k) Q.
Proof.
  intros Hm Hk. eapply hoare_bind; [exact Hm|].
  intros a w r w' Hh [-> HR] H. by apply (Hk w).
Qed.

Lemma hoare_conseq {A} P P' (m : M World A) (Q Q' : A -> World -> Prop) :
  hoare F P' m Q' -> (forall w, P w -> P' w) -> (forall a w, Q' a w -> Q a w) -> hoare F P m Q.
Proof.
  intros Hm HP HQ w r w' Hh H0 H. destruct (Hm _ _ _ Hh (HP _ H0) H) as [Hc Hr].
  split; [done|]. destruct r; [auto|]. done.
Qed.

Lemma hoare_pre {A} P P' (m : M World A) Q : hoare F P' m Q -> (forall w, P w -> P' w) -> hoare F P m Q.
Proof. intros H HP. by eapply hoare_conseq. Qed.

(** * Reading

    [R] says that the file has the bytes [c], and of no other change. *)
Definition sees (R : World -> Prop) (p : string) (c : Bytes) : Prop :=
  framed R /\ forall w, R w -> is_crashed w = false /\ cache w !! p = Some c.

Lemma hoare_read R p c off len :
  sees R p c -> hoare F R (file_read p off len) (fun x w => x = sub off len c /\ R w).
Proof.
  intros [Hf Hc] w r w' _ Hw H. destruct (Hc w Hw) as [Hcr Hp].
  destruct (file_read_spec _ _ _ _ _ _ _ Hcr Hp H) as (Hs & Ho).
  split; [by apply Hs|]. destruct Ho as [[-> Hcr1]|[[e ->] Hq]]; [|by right].
  split; [done|]. by apply (Hf w).
Qed.

Lemma hoare_size R p c : sees R p c -> hoare F R (file_size p) (fun x w => x = length c /\ R w).
Proof.
  intros [_ Hc] w r w' _ Hw H. destruct (Hc w Hw) as [Hcr Hp].
  rewrite (file_size_spec _ _ _ Hcr Hp) in H. by simplify_eq.
Qed.

(** Opening a file that is there, with nothing created or cut. *)
Lemma hoare_open_existing R p c write :
  sees R p c -> hoare F R (vfs_open p (mkOpenFlags write false false false)) (fun _ => R).
Proof.
  intros [Hf Hc] w r w' _ Hw H. destruct (Hc w Hw) as [Hcr Hp].
  unfold vfs_open in H. rewrite Hcr in H. cbn [of_create of_write of_exclusive of_truncate negb andb] in H.
  destruct (consult w) as [d w1] eqn:E. apply consult_same in E as (Hs & Hcr1 & _ & Hq).
  pose proof Hs as (Hcache & _ & _ & Hcalm). rewrite Hcache, Hp in H.
  assert (R w1) by (apply (Hf w); [done|congruence|done]).
  destruct d; simplify_eq; (split; [done|]); try done; right; by apply Hq.
Qed.

End rules.

Definition on_cache (files : gmap string Bytes) (w : World) : Prop := is_crashed w = false /\ cache w = files.
Lemma sees_cache files p c : files !! p = Some c -> sees (on_cache files) p c.
Proof.
  intros Hp. split; [|by intros w [? ->]]. intros w w' (Hc & _) Hcr [_ <-]. done.
Qed.

(** * One file is written, the others are read *)

Section one_file.
Context (F : Prop) (out : string) (files : gmap string Bytes).

Definition others (w : World) : Prop := forall p, p <> out -> cache w !! p = files !! p.
Definition holds (b : Bytes) (w : World) : Prop :=
  is_crashed w = false /\ cache w !! out = Some b /\ coherent out w /\ others w.
Definition holds_synced (b : Bytes) (w : World) : Prop := synced out b w /\ others w.

Lemma holds_synced_holds b w : holds_synced b w -> holds b w.
Proof. intros [Hs Ho]. pose proof (synced_coherent _ _ _ Hs). by destruct Hs as (? & ? & _). Qed.

Lemma others_untouched w w' :
  (forall p, p <> out -> cache w' !! p = cache w !! p) -> others w -> others w'.
Proof. intros H Ho p Hp. by rewrite H, Ho. Qed.

Lemma framed_holds b : framed (holds b).
Proof.
  intros w w' (Hc & Hd & Hp & _) Hcr (_ & Hb & Hco & Ho). unfold holds, others, coherent, ops_on in *.
  by rewrite Hc, Hd, Hp.
Qed.

(** Any file may be read. *)
Definition content (b : Bytes) (p : string) : option Bytes := if decide (p = out) then Some b else files !! p.
Lemma holds_content b p c w : holds b w -> content b p = Some c -> is_crashed w = false /\ cache w !! p = Some c.
Proof.
  intros (? & Hb & _ & Ho). unfold content. case_decide; subst; intros; simplify_eq; [done|].
  by rewrite Ho.
Qed.

Lemma sees_holds b p c : content b p = Some c -> sees (holds b) p c.
Proof. intros Hc. split; [apply framed_holds|]. intros w Hw. by apply (holds_content b p c w). Qed.

Lemma hoare_exists b p :
  hoare F (holds b) (vfs_exists p) (fun x w => x = bool_decide (is_Some (content b p)) /\ holds b w).
Proof.
  intros w r w' _ Hw H. pose proof Hw as (Hcr & Hb & _ & Ho). rewrite (vfs_exists_spec p w Hcr) in H. simplify_eq.
  split; [done|]. split; [|done]. unfold content. case_decide; subst; [by rewrite Hb|by rewrite Ho].
Qed.

Lemma hoare_write b off data :
  hoare F (holds b) (file_write out off data) (fun _ => holds (write_bytes off data b)).
Proof.
  intros w r w' _ (Hcr & Hc & Hco & Ho) H.
  destruct (file_write_spec out (fun _ => True) _ _ _ _ _ _ Hcr Hc H) as (Hcalm & _ & Hr). split; [done|].
  destruct Hr as [(-> & Hcr1 & Hc1 & Hco1)|[[e ->] Hq]]; [|by right].
  split; [done|]. split; [done|]. split; [auto|]. eapply others_untouched; [|exact Ho].
  intros p Hp. eapply (leaves_write p out off data); [by apply not_eq_sym|exact H].
Qed.

Lemma hoare_truncate b size :
  hoare F (holds b) (file_truncate out size) (fun _ => holds (file_resize size b)).
Proof.
  intros w r w' _ (Hcr & Hc & Hco & Ho) H.
  destruct (file_truncate_spec out (fun _ => True) _ _ _ _ _ Hcr Hc H) as (Hcalm & _ & Hr). split; [done|].
  destruct Hr as [(-> & Hcr1 & Hc1 & Hco1)|[[e ->] Hq]]; [|by right].
  split; [done|]. split; [done|]. split; [auto|]. eapply others_untouched; [|exact Ho].
  intros p Hp. eapply (leaves_truncate p out size); [by apply not_eq_sym|exact H].
Qed.

Lemma hoare_sync b : hoare F (holds b) (file_sync out) (fun _ => holds_synced b).
Proof.
  intros w r w' Hh (Hcr & Hc & Hco & Ho) H.
  destruct (file_sync_spec out (fun _ => True) _ _ _ _ Hcr Hc Hh H) as (Hcalm & _ & Hr). split; [done|].
  destruct Hr as [(-> & Hsy)|[[e ->] Hq]]; [|by right]. split; [auto|]. eapply others_untouched; [|exact Ho].
  intros p Hp. eapply (leaves_sync p out); [by apply not_eq_sym|exact H].
Qed.

Lemma vfs_sync_directory_cache dir w r w' : vfs_sync_directory dir w = (r, w') -> cache w' = cache w.
Proof.
  unfold vfs_sync_directory. destruct (is_crashed w); [by intros [= _ <-]|].
  destruct (consult w) as [d w1] eqn:E. apply consult_same in E as ((Hc & _) & _).
  intros H. destruct d; simplify_eq; done.
Qed.

Lemma hoare_sync_directory b dir : hoare F (holds_synced b) (vfs_sync_directory dir) (fun _ => holds_synced b).
Proof.
  intros w r w' Hh (Hsy & Ho) H.
  destruct (vfs_sync_directory_spec out (fun _ => True) _ _ _ _ (proj1 Hsy) Hh H) as (Hcalm & _ & Hr). split; [done|].
  destruct Hr as [(-> & Hs')|[[e ->] Hq]]; [|by right]. split; [auto|]. eapply others_untouched; [|exact Ho].
  intros p Hp. by rewrite (vfs_sync_directory_cache _ _ _ _ H).
Qed.

(** Nothing there yet, and nothing on its way to the disk. *)
Definition absent (w : World) : Prop :=
  is_crashed w = false /\ cache w = files /\ files !! out = None /\ coherent out w.

Lemma hoare_create : hoare F absent (vfs_open out (mkOpenFlags true true false true)) (fun _ => holds []).
Proof.
  intros w r w' _ (Hcr & Hc & Hn & Hco) H. unfold vfs_open in H. rewrite Hcr in H.
  cbn [of_create of_write of_exclusive of_truncate negb andb] in H.
  destruct (consult w) as [d w1] eqn:E. apply consult_same in E as (Hs & Hcr1 & _ & Hq).
  pose proof Hs as (Hc1 & Hd1 & Hp1 & Hcalm). rewrite Hc1, Hc, Hn in H.
  set (w2 := push (PCreate out) (set_cache w1 (<[out := []]> files))) in *.
  assert (holds [] w2).
  { split; [by rewrite <- Hcr, <- Hcr1|]. split; [apply lookup_insert_eq|]. split.
    - apply coherent_push; [by apply bool_decide_eq_true|by rewrite lookup_insert_eq, Hc1, Hc, Hn|].
      unfold coherent, ops_on in *. by rewrite Hc1, Hd1, Hp1.
    - intros p Hp. cbn. by rewrite lookup_insert_ne. }
  destruct d; simplify_eq; (split; [done|]); try done; right; by apply Hq.
Qed.
End one_file.

(** * Copies, digests and the verification of a backup *)

Lemma length_sub_pos off n (b : Bytes) : (off < length b)%nat -> (0 < n)%nat ->
  (0 < length (sub off n b))%nat /\ (off + length (sub off n b) <= length b)%nat.
Proof. intros. unfold sub. rewrite length_take, length_drop. lia. Qed.
Lemma kBuf_pos : (0 < kBuf)%nat.
Proof. unfold kBuf. lia. Qed.
Lemma take_sub off n (b : Bytes) : take off b ++ sub off n b = take (off + length (sub off n b)) b.
Proof.
  unfold sub. rewrite length_take, length_drop. destruct (decide (off <= length b)%nat).
  - rewrite take_take_drop. destruct (decide (n <= length b - off)%nat).
    + do 2 f_equal. lia.
    + rewrite !take_ge by lia. done.
  - rewrite drop_ge, take_nil, app_nil_r by lia. rewrite !take_ge by lia. done.
Qed.
Lemma page_bytes psz (b : Bytes) off : (off + psz <= length b)%nat -> length (sub off psz b) = psz.
Proof. intros. unfold sub. rewrite length_take, length_drop. lia. Qed.

Section files.
Context (F : Prop) (out : string) (files : gmap string Bytes).

Lemma copy_loop_triple from b : from <> out -> files !! from = Some b ->
  forall fuel off, (length b <= off + fuel)%nat -> (off <= length b)%nat ->
  hoare F (holds out files (take off b)) (copy_loop fuel from out (length b) off) (fun _ => holds out files b).
Proof.
  intros Hne Hb. induction fuel as [|fuel IH]; intros off Hf Ho; cbn [copy_loop].
  { destruct (Nat.ltb_spec off (length b)); [lia|]. apply hoare_ret. intros w. by rewrite take_ge by lia. }
  destruct (Nat.ltb_spec off (length b)).
  2: { apply hoare_ret. intros w. by rewrite take_ge by lia. }
  eapply hoare_bind_eq; [apply (hoare_read F _ from b), sees_holds; unfold content; by rewrite decide_False|].
  destruct (length_sub_pos off kBuf b ltac:(lia) kBuf_pos).
  destruct (Nat.eqb_spec (length (sub off kBuf b)) 0); [lia|].
  eapply hoare_bind; [apply hoare_write|]. intros [].
  assert (write_bytes off (sub off kBuf b) (take off b) = take (off + length (sub off kBuf b)) b) as ->.
  { rewrite <- take_sub. rewrite <- (length_take_le b off) at 1 by lia. apply write_bytes_end. }
  apply IH; lia.
Qed.

(** The copy has the bytes of the source, on the disk. *)
Lemma copied_triple from b : files !! from = Some b ->
  hoare F (absent out files) (copy_file from out) (fun _ => holds_synced out files b).
Proof.
  intros Hb w r w' Hh Habs. assert (Hne : from <> out) by (intros Heq; rewrite Heq in Hb; destruct Habs as (_ & _ & Hn & _); congruence).
  revert w r w' Hh Habs.
  assert (Hopen : hoare F (absent out files) (vfs_open from no_flags) (fun _ => absent out files)).
  { intros w r w' _ (Hcr & Hc & Hn & Hco) H. unfold vfs_open in H. rewrite Hcr in H.
    cbn [of_create of_write of_exclusive of_truncate no_flags negb andb] in H.
    destruct (consult w) as [d w1] eqn:E. apply consult_same in E as (Hs & Hcr1 & _ & Hq).
    pose proof Hs as (Hc1 & Hd1 & Hp1 & Hcalm). rewrite Hc1, Hc, Hb in H.
    assert (absent out files w1).
    { split; [congruence|]. split; [congruence|]. split; [done|]. unfold coherent, ops_on in *. by rewrite Hc1, Hd1, Hp1. }
    destruct d; simplify_eq; (split; [done|]); try done; right; by apply Hq. }
  eapply hoare_bind; [exact Hopen|]. intros [].
  eapply hoare_bind; [apply hoare_create|]. intros [].
  eapply hoare_bind_eq; [apply (hoare_size F _ from b), sees_holds; unfold content; by rewrite decide_False|].
  eapply hoare_bind; [apply (copy_loop_triple from b Hne Hb (length b) 0%nat); lia|]. intros [].
  eapply hoare_bind; [apply hoare_sync|]. intros []. apply hoare_sync_directory.
Qed.

End files.

Lemma digest_loop_triple F R path b : sees R path b ->
  forall fuel off, (length b <= off + fuel)%nat -> (off <= length b)%nat ->
  hoare F R (digest_loop fuel path (length b) off (crc32c_seeded 0 (take off b)))
        (fun c w => c = crc32c_seeded 0 b /\ R w).
Proof.
  intros Hb. induction fuel as [|fuel IH]; intros off Hf Ho; cbn [digest_loop].
  { destruct (Nat.ltb_spec off (length b)); [lia|]. apply hoare_ret. intros w. by rewrite take_ge by lia. }
  destruct (Nat.ltb_spec off (length b)).
  2: { apply hoare_ret. intros w. by rewrite take_ge by lia. }
  eapply hoare_bind_eq; [by apply (hoare_read F R path b)|].
  destruct (length_sub_pos off kBuf b ltac:(lia) kBuf_pos).
  destruct (Nat.eqb_spec (length (sub off kBuf b)) 0); [lia|].
  rewrite crc32c_seeded_app, take_sub. apply IH; lia.
Qed.
Lemma file_digest_triple F files path b : files !! path = Some b ->
  hoare F (on_cache files) (file_digest path) (fun d w => d = mkDigest (length b) (crc32c_seeded 0 b) /\ on_cache files w).
Proof.
  intros Hb. apply sees_cache in Hb. unfold file_digest.
  eapply hoare_bind; [by eapply hoare_open_existing|]. intros [].
  eapply hoare_bind_eq; [by eapply hoare_size|].
  eapply hoare_bind_eq; [apply (digest_loop_triple F _ path b Hb (length b) 0%nat); lia|].
  by apply hoare_ret.
Qed.

(** A backup is whole: its header decodes, its size is the header's and every
    page has its checksum. *)
Definition backup_whole (b : Bytes) (hdr : DbHeader.t) : Prop :=
  DbHeader.decode (take (Z.to_nat kMinPageSize) b) = Ret hdr
  /\ Z.of_nat (length b) = DbHeader.page_count hdr * DbHeader.page_size hdr
  /\ forall p, 0 <= p < DbHeader.page_count hdr ->
       page_checksum_ok (sub (Z.to_nat p * Z.to_nat (DbHeader.page_size hdr)) (Z.to_nat (DbHeader.page_size hdr)) b) = true.

Lemma page_offset_small psz p : 0 <= p -> p * Z.of_nat psz < 2 ^ 64 -> page_offset psz p = (Z.to_nat p * psz)%nat.
Proof. intros. unfold page_offset, wrap64. rewrite Z.mod_small by nia. nia. Qed.

(** The page loop: the pages from [p] on are checked, and lie in the file. *)
Definition pages_whole (b : Bytes) (psz : nat) (p : Z) (n : nat) : Prop :=
  ((Z.to_nat p + n) * psz <= length b)%nat /\
  forall q, p <= q < p + Z.of_nat n -> page_checksum_ok (sub (Z.to_nat q * psz) psz b) = true.
Lemma verify_pages_triple R path (b : Bytes) psz : sees R path b -> (0 < psz)%nat -> Z.of_nat (length b + psz) < 2 ^ 64 ->
  forall n p, 0 <= p -> (Z.to_nat p * psz <= length b)%nat ->
  hoare (~ pages_whole b psz p n) R (verify_pages path psz n p) (fun _ w => pages_whole b psz p n /\ R w).
Proof.
  intros Hs Hpos Hlen. induction n as [|n IH]; intros p Hp Hb; cbn [verify_pages].
  { apply hoare_ret. intros w HR. split; [|done]. split; [lia|]. intros q Hq. lia. }
  rewrite page_offset_small by lia.
  eapply hoare_bind_eq; [by apply (hoare_read _ R path b)|].
  destruct (Nat.eqb_spec (length (sub (Z.to_nat p * psz) psz b)) psz) as [Hl|Hl].
  2: { apply hoare_fail. intros [Hle _]. apply Hl, page_bytes. lia. }
  destruct (page_checksum_ok (sub (Z.to_nat p * psz) psz b)) eqn:Hck.
  2: { apply hoare_fail. intros [_ Hq]. rewrite Hq in Hck; [done|lia]. }
  cbn [negb orb]. assert (Hstep : pages_whole b psz p (S n) <-> pages_whole b psz (p + 1) n).
  { unfold pages_whole. replace (Z.to_nat (p + 1) + n)%nat with (Z.to_nat p + S n)%nat by lia.
    split; intros [Hle Hq]; (split; [done|]); intros q Hr.
    - apply Hq. lia.
    - destruct (decide (q = p)) as [->|]; [done|]. apply Hq. lia. }
  assert (Z.to_nat (p + 1) * psz <= length b)%nat.
  { unfold sub in Hl. rewrite length_take, length_drop in Hl. lia. }
  intros w r w' Hh HR Hm. destruct (IH (p + 1) ltac:(lia) ltac:(lia) w r w' Hh HR Hm) as [Hc Hr].
  split; [done|]. destruct r; [by rewrite Hstep|]. rewrite Hstep. done.
Qed.

(** What the probe holds is what the file starts with. *)
Lemma decode_filled_up (b : Bytes) : (72 <= length b)%nat ->
  DbHeader.decode (filled_up 512 (take 512 b)) = DbHeader.decode (take 512 b).
Proof.
  intros Hl. rewrite DbHeader_decode_front by (unfold filled_up; rewrite length_app, length_take; lia).
  rewrite (DbHeader_decode_front (take 512 b)) by (rewrite length_take; lia). f_equal.
  unfold filled_up. by rewrite take_app_le by (rewrite length_take; lia).
Qed.
Lemma backup_whole_wf b hdr : bytes_ok b -> backup_whole b hdr ->
  DbHeader.wf hdr /\ (512 <= length b)%nat.
Proof.
  intros Hb (Hd & Hsz & _). destruct (DbHeader_decode_wf _ _ (bytes_ok_take _ _ Hb) Hd) as [Hwf _].
  split; [done|]. destruct Hwf as (_ & _ & Hpc & _ & _ & _ & _ & _ & _ & Hps%valid_page_size_bounds & Hnz).
  unfold u64_ok in Hpc. nia.
Qed.

Lemma verify_backup_triple files path b : files !! path = Some b -> bytes_ok b -> Z.of_nat (length b) < 2 ^ 63 ->
  hoare (~ exists hdr, backup_whole b hdr) (on_cache files) (verify_backup_file path)
    (fun _ w => (exists hdr, backup_whole b hdr) /\ on_cache files w).
Proof.
  intros Hb Hok Hlen. apply sees_cache in Hb. unfold verify_backup_file, DbHeader.kEncodedBytes.
  change (Z.to_nat kMinPageSize) with 512%nat.
  eapply hoare_bind; [by eapply hoare_open_existing|]. intros [].
  eapply hoare_bind_eq; [by eapply hoare_read|]. rewrite sub_0, length_take.
  destruct (Nat.ltb_spec (512 `min` length b) 72).
  { apply hoare_fail. intros [hdr Hw]. apply backup_whole_wf in Hw; [lia|done]. }
  rewrite decode_filled_up by lia. unfold lift at 1.
  destruct (DbHeader.decode (take 512 b)) as [hdr|e] eqn:Hd.
  2: { intros w r w' _ _ [= <- <-]. split; [done|]. left. intros [hdr (Hd' & _)].
       change (Z.to_nat kMinPageSize) with 512%nat in Hd'. congruence. }
  eapply (hoare_bind_eq _ _ _ hdr (on_cache files)); [by intros w r w' _ HR [= <- <-]|].
  eapply hoare_bind_eq; [by eapply hoare_size|].
  destruct (DbHeader_decode_wf _ _ (bytes_ok_take _ _ Hok) Hd) as [Hwf _].
  destruct Hwf as (_ & _ & Hpc & _ & _ & _ & _ & _ & _ & Hps%valid_page_size_bounds & Hnz).
  unfold u64_ok in Hpc. set (pc := DbHeader.page_count hdr) in *. set (ps := DbHeader.page_size hdr) in *.
  destruct (Z.eqb_spec (Z.of_nat (length b)) (wrap64 (pc * ps))) as [Hsz|Hsz]; cbn [negb].
  2: { apply hoare_fail. intros [hdr' (Hd' & Hsz' & _)].
       change (Z.to_nat kMinPageSize) with 512%nat in Hd'. assert (hdr' = hdr) as -> by congruence.
       fold pc ps in Hsz'. apply Hsz. unfold wrap64. rewrite Z.mod_small; lia. }
  assert (Hiff : pages_whole b (Z.to_nat ps) 0 (Z.to_nat pc) <-> exists hdr, backup_whole b hdr).
  { unfold pages_whole, backup_whole. change (Z.to_nat kMinPageSize) with 512%nat. split.
    - intros [Hle Hq]. exists hdr. fold pc ps. split; [done|]. split.
      + rewrite Hsz. unfold wrap64. apply Z.mod_small. nia.
      + intros q ?. apply Hq. lia.
    - intros [hdr' (Hd' & Hsz' & Hq)]. assert (hdr' = hdr) as -> by congruence. fold pc ps in Hsz', Hq.
      split; [nia|]. intros q ?. apply Hq. lia. }
  intros w r w' Hh HR Hm.
  destruct (verify_pages_triple _ path b (Z.to_nat ps) Hb ltac:(lia) ltac:(lia) (Z.to_nat pc) 0 ltac:(lia) ltac:(lia)
              w r w' Hh HR Hm) as [Hc Hr].
  split; [done|]. destruct r; by rewrite <- Hiff.
Qed.

(** * A log as recovery reads it *)

Definition set_read_only (x : Wal) : Wal :=
  mkWal (wal_path x) (page_size x) (wal_open x) (header x) (next_frame x) (last_commit x) (chain x) (wal_failed x) true
    (index x) (commits x) (commit_list x) (frame_pages x).
Lemma fold_read_only txs x : fold_left apply_tx txs (set_read_only x) = set_read_only (fold_left apply_tx txs x).
Proof. revert x. induction txs as [|tx txs IH]; intros x; [done|]. cbn [fold_left]. apply (IH (apply_tx x tx)). Qed.

Lemma triple_of_hoare {S A} (I : S -> Prop) P (m : M World A) Q :
  hoare False P m Q -> triple (fun s w => I s /\ P w) (onw m) (fun a s w => I s /\ Q a w) (fun _ _ => True).
Proof.
  intros Hm s w r s' w' Hh [HI HP] H. unfold onw in H. destruct (m w) as [r1 w1] eqn:E. simplify_eq.
  destruct (Hm w r w' Hh HP E) as [Hc Hr]. split; [done|]. destruct r; [done|]. split; [done|]. by destruct Hr.
Qed.

Section a_log.
Context (psz : nat) (dbid : Bytes) (R : World -> Prop) (path : string) (h : WalHeader.t) (txs : list Tx) (tail : Bytes).
Context (Htxs : Forall (tx_ok psz) txs) (Hh : header_ok psz dbid h) (Ht : torn_tx psz h txs tail).
Let file := log_file h txs ++ tail.
Context (Hs : sees R path file).
Let reader := set_read_only (wal_of psz path h txs).
Let raw := set_read_only (raw_wal psz path (WalHeader.mk (Z.of_nat psz) 0 0 dbid 0)).

Lemma HR w : R w -> is_crashed w = false /\ cache w !! path = Some file /\ disk_safe (fun _ => True) path w.
Proof. intros Hw. destruct (proj2 Hs w Hw). by split_and!. Qed.

Lemma reader_facts : this_log psz path h reader /\ next_frame reader = S (length (total_images txs))
  /\ next_frame reader = S (last_commit reader) /\ header reader = h.
Proof. destruct (wal_of_facts psz path h txs Htxs) as ((? & ? & ?) & ? & ? & _). by split_and!. Qed.

Lemma recover_reader :
  triple (fun x w => x = raw /\ R w) (recover (mkWalOptions dbid 0 true)) (fun _ x w => x = reader /\ R w) (fun _ _ => True).
Proof.
  pose proof Hh as (Hwf & Hps & Hid). pose proof HR as HR. destruct Hs as [Hfr _].
  rewrite recover_unfold. apply triple_get_bind. cbn [wal_path raw set_read_only raw_wal page_size read_only].
  eapply triple_bind_eq.
  { by apply (triple_size (fun _ => True) path (fun x => x = raw) (fun _ _ => True) R file). }
  eapply triple_bind_eq.
  { by apply (triple_read (fun _ => True) path (fun x => x = raw) (fun _ _ => True)). }
  cbv beta. unfold WalHeader.kEncodedBytes.
  assert (Hbuf : sub 0 48 file = header_bytes h).
  { unfold file, log_file. rewrite sub_0, <- app_assoc. apply take_app_length'. by rewrite length_header_bytes. }
  rewrite Hbuf, length_header_bytes. cbn [Nat.eqb].
  unfold header_bytes. rewrite WalHeader_decode_encode by (done || by apply bytes_ok_replicate).
  rewrite Hps, Z.eqb_refl, Hid. cbn [o_db_id]. rewrite bool_decide_true by done. cbn [andb].
  set (x0 := set_read_only (wal0 psz path h)).
  eapply (triple_bind _ _ (fun _ x w => x = set_next x0 1 /\ R w)).
  { apply triple_modO. by intros x w [-> ?]. }
  intros []. destruct reader_facts as (Hx & Hn & Hl & _).
  assert (Hc : chain reader = log_chain h txs) by (destruct (wal_of_facts psz path h txs Htxs) as (_ & _ & _ & ? & _); done).
  pose proof (length_log_file psz h txs Htxs) as Hlf. rewrite <- Hn in Hlf.
  assert (Hfold : fold_left apply_tx txs x0 = reader) by apply fold_read_only.
  eapply (triple_bind_eq _ _ (length (log_file h txs)) (fun x w => x = set_next reader 1 /\ R w)).
  2: { unfold tail_of_recover. eapply (triple_bind _ _ (fun _ x w => x = reader /\ R w)).
       { apply triple_modO. intros x w [-> ?]. split; [|done]. cbn [last_commit set_next]. rewrite <- Hl. by destruct reader. }
       intros []. apply triple_get_bind. change (read_only reader) with true. cbv iota. by apply triple_ret. }
  assert (Hfuel : exists fuel, S (length file) = (length (total_images txs) + fuel)%nat /\ (length tail < fuel)%nat).
  { exists (S (length file) - length (total_images txs))%nat. unfold file. rewrite length_app, Hlf, Hn. unfold off. nia. }
  destruct Hfuel as (fuel & -> & Hfuel).
  assert (Hlog0 : this_log psz path h x0) by done.
  apply (triple_err _ _ _ _ (fun _ w => disk_safe (fun _ => True) path w)); [|done].
  apply (rf_log psz (fun _ => True) path R file h Hfr HR txs x0 fuel tail); try done.
  { cbn. lia. }
  { unfold file, log_file. change (off psz (next_frame x0)) with 48%nat. rewrite <- app_assoc.
    by rewrite drop_app_length' by (by rewrite length_header_bytes). }
  rewrite Hfold, <- Hlf.
  assert (Hcl : length file = (length (log_file h txs) + length tail)%nat) by (unfold file; by rewrite length_app).
  destruct Ht as [->|(tx & n & Htx & Hnlt & Htail)].
  - apply (rf_short psz (fun _ => True) path R file h); [done|lia|]. rewrite Hcl, <- Hlf. cbn [length]. lia.
  - destruct Htx as (Him & Hsz & Hnz & _). rewrite Hlf in Hcl.
    apply (rf_torn psz (fun _ => True) path R file h Hfr HR (tx_images tx) _ _ _ _ _ _ (tx_size tx) n); try done.
    + rewrite Hcl. nia.
    + lia.
    + lia.
    + left. by rewrite Hc.
    + rewrite Hc, <- Hlf. unfold file. rewrite drop_app_length. exact Htail.
Qed.

Lemma open_reader F :
  hoare F R (open_wal path psz (mkWalOptions dbid 0 true)) (fun xi w => fst xi = reader /\ R w).
Proof.
  assert (Hbody : triple (fun x w => x = fresh_wal path psz (mkWalOptions dbid 0 true) /\ R w)
    (open_wal_body (mkWalOptions dbid 0 true)) (fun _ x w => x = reader /\ R w) (fun _ _ => True)).
  { unfold open_wal_body. apply triple_get_bind. cbn [wal_path fresh_wal o_read_only].
    set (x0 := fresh_wal path psz (mkWalOptions dbid 0 true)).
    eapply (triple_bind_eq _ _ true (fun x w => x = x0 /\ R w)).
    { intros s0 w r s' w' _ [-> Hw] H. destruct (HR w Hw) as (Hcr & Hc & _). unfold onw in H.
      rewrite vfs_exists_spec in H by done. rewrite Hc in H. by simplify_eq. }
    cbn [negb andb].
    eapply triple_bind; [apply (triple_of_hoare (fun x => x = x0) R _ (fun _ => R)); by eapply hoare_open_existing|].
    intros []. eapply (triple_bind _ _ (fun _ x w => x = raw /\ R w)).
    { apply triple_modO. by intros x w [-> ?]. }
    intros []. apply recover_reader. }
  intros w r w' Hhon Hw H. unfold open_wal in H.
  destruct (open_wal_body _ (fresh_wal path psz (mkWalOptions dbid 0 true), w)) as [r1 [x w1]] eqn:E.
  destruct (Hbody _ _ _ _ _ Hhon (conj eq_refl Hw) E) as [Hc Hr]. destruct r1; simplify_eq; (split; [done|]); [done|].
  right. by apply Hr.
Qed.

Lemma read_reader F i im : total_images txs !! i = Some im ->
  hoare F R (on_wal reader (read_frame_page (S i))) (fun d w => d = im_data im /\ R w).
Proof.
  intros Hi w r w' Hhon Hw H. unfold on_wal in H.
  destruct (read_frame_page (S i) (reader, w)) as [r1 [x1 w1]] eqn:E. simplify_eq.
  destruct reader_facts as ((Hp & Hps & _) & Hn & _). pose proof (lookup_lt_Some _ _ _ Hi) as Hlt.
  destruct (image_at_ok psz txs i im Htxs Hi) as (_ & Hl & _ & Hck).
  assert (Htr : triple (fun x w => x = reader /\ R w) (read_frame_page (S i)) (fun d x w => d = im_data im /\ R w) (fun _ _ => True)).
  { unfold read_frame_page. apply triple_get_bind. rewrite Hn, Hp, Hps.
    destruct (Nat.leb_spec (S (length (total_images txs))) (S i)); [lia|]. cbn [Nat.eqb orb].
    eapply triple_bind_eq.
    { apply (triple_read (fun _ => True) path (fun x => x = reader) (fun _ _ => True) ltac:(done) R _ _ file); [apply Hs|exact HR]. }
    assert (Hsub : sub (frame_offset reader (S i) + WalFrameHeader.kEncodedBytes) psz file = im_data im).
    { unfold frame_offset, frame_bytes, WalFrameHeader.kEncodedBytes, WalHeader.kEncodedBytes. rewrite Hps.
      unfold file. pose proof (length_log_file psz h txs Htxs) as Hlf. unfold off in Hlf.
      rewrite sub_app_l by (rewrite Hlf; nia). unfold log_file.
      rewrite sub_app_r by (rewrite length_header_bytes; lia).
      rewrite length_header_bytes. rewrite <- (log_encode_image psz h txs (WalHeader.chain_seed h) i im) by done.
      f_equal. nia. }
    rewrite Hsub, Hl, Nat.eqb_refl, Hck. cbn [negb]. apply triple_ret. by intros s w0 [_ ?]. }
  destruct (Htr _ _ _ _ _ Hhon (conj eq_refl Hw) E) as [Hc Hr]. split; [done|]. destruct r; [done|]. right. by apply Hr.
Qed.
End a_log.
