(* ===== verification/RecoveryReplay.v ===== *)
(** What recovery replays: the history up to its target, nothing else.

    [history cc logs] is what each log adds beyond the change counter reached
    before it, [wanted] its longest prefix within the target and [apply_log]
    the effect of one transaction on the file. *)

From stdpp Require Import base numbers list gmap strings sorting.
From S2P Require Import Prelude Bytes Crc32c PageFormat Types Vfs VfsFrame Wal Db Recovery RecoverySpec.
From stdpp Require Import list.
Open Scope Z_scope.

Definition tx_counter (tx : Tx) : Z := c_change_counter (commit_of tx 0).
Definition tx_time (tx : Tx) : Z := c_commit_time_us (commit_of tx 0).

(** One transaction written into the database file. *)
Definition apply_log (psz : nat) (b : Bytes) (tx : Tx) : Bytes :=
  let b := fold_left (fun b im => write_bytes (page_offset psz (im_page im)) (im_data im) b) (tx_images tx) b in
  let want := page_offset psz (tx_size tx) in
  if (want <? length b)%nat then file_resize want b else b.

(** Counters one after the other, from [cc] on. *)
Fixpoint contiguous (cc : Z) (txs : list Tx) : Prop :=
  match txs with
  | [] => True
  | tx :: txs => tx_counter tx = cc + 1 /\ contiguous (cc + 1) txs
  end.
Definition beyond (cc : Z) (txs : list Tx) : list Tx := List.filter (fun tx => cc <? tx_counter tx) txs.

Fixpoint wanted (target : RecoveryTarget) (txs : list Tx) : list Tx :=
  match txs with
  | [] => []
  | tx :: txs => if within_target target (commit_of tx 0) then tx :: wanted target txs else []
  end.

(** What the report says after the transactions [new]. *)
Definition advance (rep : RecoveryReport) (new : list Tx) (segments : Z) : RecoveryReport :=
  mkReport (start_change_counter rep) (rep_change_counter rep + Z.of_nat (length new))
    (default (rep_commit_time_us rep) (tx_time <$> last new)) (transactions_applied rep + Z.of_nat (length new)) segments (target_reached rep).

Lemma advance_nil rep : advance rep [] (segments_applied rep) = rep.
Proof. destruct rep. unfold advance. cbn. by rewrite !Z.add_0_r. Qed.
Lemma advance_app rep a b k k' : advance (advance rep a k) b k' = advance rep (a ++ b) k'.
Proof.
  unfold advance. cbn [start_change_counter rep_change_counter rep_commit_time_us transactions_applied target_reached].
  rewrite length_app, last_app. f_equal; try lia. by destruct (last b).
Qed.

Lemma commit_of_frame tx f g :
  c_change_counter (commit_of tx f) = c_change_counter (commit_of tx g) /\ c_commit_time_us (commit_of tx f) = c_commit_time_us (commit_of tx g)
  /\ c_db_size (commit_of tx f) = tx_size tx /\ c_frame (commit_of tx f) = f.
Proof. unfold commit_of. by destruct (DbHeader.decode _). Qed.

Lemma contiguous_beyond cc base txs : contiguous base txs -> base <= cc ->
  contiguous cc (beyond cc txs) /\ cc + Z.of_nat (length (beyond cc txs)) = Z.max cc (base + Z.of_nat (length txs)).
Proof.
  revert base cc. induction txs as [|tx txs IH]; intros base cc Hc Hb; [cbn; split; [done|lia]|].
  destruct Hc as [Ht Hc]. unfold beyond in *. cbn [List.filter length]. destruct (Z.ltb_spec cc (tx_counter tx)).
  - assert (cc = base) as -> by lia. destruct (IH (base + 1) (base + 1) Hc ltac:(lia)) as [H1 H2].
    assert (List.filter (fun tx => base <? tx_counter tx) txs = txs) as ->.
    { clear -Hc. assert (forall b, base <= b -> contiguous b txs -> List.filter (fun tx => base <? tx_counter tx) txs = txs) as H.
      { clear. induction txs as [|tx txs IH]; intros b Hb H; [done|]. destruct H as [H1 H2]. cbn.
        destruct (Z.ltb_spec base (tx_counter tx)); [|lia]. f_equal. apply (IH (b + 1)); [lia|done]. }
      apply (H (base + 1)); [lia|done]. }
    cbn [length contiguous]. split; [done|]. lia.
  - destruct (IH (base + 1) cc Hc ltac:(lia)). split; [done|]. lia.
Qed.
Lemma contiguous_above cc base txs : contiguous base txs -> cc <= base -> Forall (fun tx => cc < tx_counter tx) txs.
Proof.
  revert base. induction txs as [|tx txs IH]; intros base H Hb; [done|]. destruct H as [Ht H].
  apply Forall_cons. split; [lia|]. apply (IH (base + 1)); [done|lia].
Qed.

Section target.
Context (target : RecoveryTarget).

Lemma within_commit tx f : within_target target (commit_of tx f) = within_target target (commit_of tx 0).
Proof. destruct (commit_of_frame tx f 0) as (H1 & H2 & _). unfold within_target. by rewrite H1, H2. Qed.

(** The target counter is reached: nothing beyond it is wanted. *)
Lemma wanted_done rep txs : target_done target rep = true -> Forall (fun tx => rep_change_counter rep < tx_counter tx) txs -> wanted target txs = [].
Proof.
  unfold target_done. intros Hd. destruct txs as [|tx txs]; [done|]. intros [Ht _]%Forall_cons. cbn [wanted].
  unfold within_target. fold (tx_counter tx). destruct (rt_change_counter target) as [t|]; [|done]. breflect.
  destruct (Z.ltb_spec t (tx_counter tx)); [done|lia].
Qed.
End target.

(** * The commits of a log *)

Fixpoint commits_from (f : FrameNo) (txs : list Tx) : list WalCommit :=
  match txs with
  | [] => []
  | tx :: txs => commit_of tx (f + length (tx_images tx)) :: commits_from (f + length (tx_images tx)) txs
  end.
Lemma commits_from_snoc f txs tx :
  commits_from f (txs ++ [tx]) = commits_from f txs ++ [commit_of tx (f + length (total_images txs) + length (tx_images tx))].
Proof.
  revert f. induction txs as [|t txs IH]; intros f; [cbn; by rewrite Nat.add_0_r|]. cbn [app commits_from].
  rewrite IH. unfold total_images. cbn [map concat]. rewrite length_app. do 4 f_equal. lia.
Qed.
Lemma wal_of_lists psz path h txs : Forall (tx_ok psz) txs ->
  commit_list (wal_of psz path h txs) = commits_from 0 txs /\ frame_pages (wal_of psz path h txs) = map im_page (total_images txs).
Proof.
  induction txs as [|tx txs IH] using rev_ind; [done|]. intros [Htxs Htx]%Forall_app. destruct (IH Htxs) as [H1 H2].
  destruct (wal_of_facts psz path h txs Htxs) as (_ & Hn & _).
  rewrite wal_of_snoc, commits_from_snoc, total_images_snoc, map_app. unfold apply_tx.
  cbn [commit_list frame_pages publish set_chain set_next]. rewrite H1, H2, Hn. split.
  - do 3 f_equal. lia.
  - f_equal. generalize (S (length (total_images txs))). induction (tx_images tx); intros f; [done|]. cbn. f_equal. auto.
Qed.
Lemma tx_counter_u64 psz tx : tx_ok psz tx -> u64_ok (tx_counter tx).
Proof.
  intros (Him & _ & _ & im & hdr & Hl & _ & Hd). unfold tx_counter. rewrite (commit_of_eq tx 0 im hdr Hl Hd).
  assert (image_ok psz im) as (_ & _ & Hb & _).
  { rewrite Forall_forall in Him. apply Him. by apply last_Some_elem_of. }
  by destruct (DbHeader_decode_wf _ _ Hb Hd) as [(_ & _ & _ & _ & _ & ? & _) _].
Qed.

Section segment.
Context (F : Prop) (target : RecoveryTarget) (out : string) (files : gmap string Bytes).
Context (psz : nat) (path : string) (h : WalHeader.t) (txs : list Tx) (tail : Bytes).
Context (dbid : Bytes) (Htxs : Forall (tx_ok psz) txs) (Hh : header_ok psz dbid h) (Ht : torn_tx psz h txs tail).
Context (Hne : path <> out) (Hfile : files !! path = Some (log_file h txs ++ tail)).
Let reader := set_read_only (wal_of psz path h txs).

Lemma sees_log b : sees (holds out files b) path (log_file h txs ++ tail).
Proof. apply sees_holds. unfold content. by rewrite decide_False. Qed.

Lemma apply_frames_triple ims i rest b : drop i (total_images txs) = ims ++ rest ->
  hoare F (holds out files b) (apply_frames out psz (length ims) reader (S i))
    (fun _ => holds out files (fold_left (fun b im => write_bytes (page_offset psz (im_page im)) (im_data im) b) ims b)).
Proof.
  revert i b. induction ims as [|im ims IH]; intros i b Hd; cbn [length apply_frames fold_left]; [by apply hoare_ret|].
  assert (Hi : total_images txs !! i = Some im).
  { rewrite <- (Nat.add_0_r i), <- lookup_drop, Hd. done. }
  eapply hoare_bind_eq; [by apply (read_reader psz _ path h txs tail Htxs (sees_log b) F i im)|].
  assert (nth (S i - 1) (frame_pages reader) 0 = im_page im) as ->.
  { unfold reader, set_read_only. cbn [frame_pages]. rewrite (proj2 (wal_of_lists psz path h txs Htxs)).
    apply nth_lookup_Some. rewrite Nat.sub_succ, Nat.sub_0_r, list_lookup_fmap, Hi. done. }
  eapply hoare_bind; [apply hoare_write|]. intros []. apply IH.
  replace (S i) with (i + 1)%nat by lia. rewrite <- drop_drop, Hd. done.
Qed.

(** Truncation to the page count of the commit. *)
Lemma cut_triple b size :
  hoare F (holds out files b) (if (size <? length b)%nat then file_truncate out size else ret tt)
    (fun _ => holds out files (if (size <? length b)%nat then file_resize size b else b)).
Proof. destruct (size <? length b)%nat; [apply hoare_truncate|by apply hoare_ret]. Qed.

Lemma apply_commits_triple seg txs2 : forall txs1 base rep any b,
  txs = txs1 ++ txs2 -> contiguous base txs2 -> base <= rep_change_counter rep ->
  0 <= transactions_applied rep <= rep_change_counter rep ->
  let new := wanted target (beyond (rep_change_counter rep) txs2) in
  hoare F (holds out files b)
    (apply_commits target out psz seg reader (commits_from (length (total_images txs1)) txs2) (length (total_images txs1)) rep any)
    (fun '(stop, rep', any') w =>
       rep' = advance rep new (segments_applied rep) /\ holds out files (fold_left (apply_log psz) new b) w
       /\ (if (stop : bool) then forall more, Forall (fun tx => rep_change_counter rep' < tx_counter tx) more ->
                                     wanted target (beyond (rep_change_counter rep) txs2 ++ more) = new
           else new = beyond (rep_change_counter rep) txs2)).
Proof.
  induction txs2 as [|tx txs2 IH]; intros txs1 base rep any b Htx Hcont Hbase Htr; cbv zeta.
  { cbn [commits_from apply_commits beyond List.filter wanted fold_left]. apply hoare_ret. intros w Hw. by rewrite advance_nil. }
  destruct Hcont as [Hc Hcont]. cbn [commits_from apply_commits]. set (f := length (total_images txs1)).
  set (c := commit_of tx (f + length (tx_images tx))).
  destruct (commit_of_frame tx (f + length (tx_images tx)) 0) as (H1 & H2 & H3 & H4). fold c in H1, H2, H3, H4.
  fold (tx_counter tx) in H1. fold (tx_time tx) in H2.
  assert (Hnext : (f + length (tx_images tx))%nat = length (total_images (txs1 ++ [tx]))).
  { by rewrite total_images_snoc, length_app. }
  assert (Htx' : txs = (txs1 ++ [tx]) ++ txs2) by (by rewrite <- app_assoc).
  unfold beyond. cbn [List.filter]. fold (beyond (rep_change_counter rep) txs2). rewrite H1.
  destruct (Z.leb_spec (tx_counter tx) (rep_change_counter rep)) as [Hle|Hgt].
  { destruct (Z.ltb_spec (rep_change_counter rep) (tx_counter tx)); [lia|].
    rewrite H4, Hnext. apply (IH (txs1 ++ [tx]) (base + 1)); [done|done|lia|done]. }
  destruct (Z.ltb_spec (rep_change_counter rep) (tx_counter tx)); [|lia].
  assert (rep_change_counter rep = base) as Hb by lia. cbn [wanted].
  pose proof (within_commit target tx (f + length (tx_images tx))) as Hw. fold c in Hw. rewrite Hw.
  destruct (within_target target (commit_of tx 0)) eqn:Ew; cbn [negb].
  2: { apply hoare_ret. intros w HR. cbn [fold_left]. rewrite advance_nil. split; [done|]. split; [done|].
       intros more _. cbn [app wanted]. by rewrite Ew. }
  assert (Hu : u64_ok (tx_counter tx)).
  { apply (tx_counter_u64 psz). rewrite Forall_forall in Htxs. apply Htxs. rewrite Htx. apply elem_of_app. right. left. }
  unfold u64_ok in Hu. unfold wrap64. rewrite Z.mod_small by lia.
  destruct (Z.eqb_spec (tx_counter tx) (rep_change_counter rep + 1)); [cbn [negb]|lia].
  rewrite H4. replace (f + length (tx_images tx) - f)%nat with (length (tx_images tx)) by lia.
  eapply hoare_bind.
  { apply (apply_frames_triple (tx_images tx) f (total_images txs2)). rewrite Htx. unfold total_images.
    rewrite map_app, concat_app. cbn [map concat]. apply drop_app_length. }
  intros []. eapply hoare_bind_eq; [apply hoare_size, sees_holds; unfold content; by rewrite decide_True|].
  rewrite H3. eapply hoare_bind; [apply cut_triple|]. intros [].
  match goal with |- hoare _ (holds _ _ ?b1) _ _ => change b1 with (apply_log psz b tx) end.
  set (rep1 := after_commit rep c).
  assert (Hrep1 : rep1 = advance rep [tx] (segments_applied rep)).
  { unfold rep1, after_commit, advance. rewrite H1, H2. cbn [length last option_fmap option_map fmap default]. unfold wrap64.
    rewrite Z.mod_small by lia. f_equal; lia. }
  assert (Hcc1 : rep_change_counter rep1 = base + 1) by (cbn; lia).
  assert (Hby : beyond (rep_change_counter rep) txs2 = beyond (rep_change_counter rep1) txs2).
  { unfold beyond. apply List.filter_ext_in. intros t Hin%list_elem_of_In.
    pose proof (contiguous_above (base + 1) (base + 1) txs2 Hcont ltac:(lia)) as Hab. rewrite Forall_forall in Hab.
    specialize (Hab t Hin). destruct (Z.ltb_spec (rep_change_counter rep) (tx_counter t)), (Z.ltb_spec (rep_change_counter rep1) (tx_counter t)); lia. }
  destruct (target_done target rep1) eqn:Ed.
  { apply hoare_ret. intros w HR. rewrite Hby. pose proof (contiguous_beyond (rep_change_counter rep1) _ _ Hcont ltac:(lia)) as [Hcb _].
    apply (contiguous_above (rep_change_counter rep1)) in Hcb; [|lia].
    rewrite (wanted_done target rep1) by done. cbn [fold_left]. split; [done|]. split; [done|].
    intros more Hmore. cbn [app wanted]. rewrite Ew. f_equal. apply (wanted_done target rep1); [done|].
    by apply Forall_app. }
  rewrite Hnext. eapply hoare_conseq.
  - apply (IH (txs1 ++ [tx]) (base + 1) rep1 true (apply_log psz b tx)); [done|done|lia|].
    rewrite Hcc1. cbn. unfold wrap64. rewrite Z.mod_small by lia. lia.
  - done.
  - intros [[stop rep'] any'] w (-> & HR & Hstop). cbn [fold_left]. rewrite Hby.
    set (new := wanted target (beyond (rep_change_counter rep1) txs2)) in *.
    assert (Hadv : advance rep1 new (segments_applied rep1) = advance rep (tx :: new) (segments_applied rep)).
    { rewrite Hrep1 at 1. rewrite advance_app. done. }
    rewrite Hadv in *. split; [done|]. split; [done|]. destruct stop.
    + intros more Hmore. cbn [app wanted]. rewrite Ew. f_equal. by apply Hstop.
    + by f_equal.
Qed.
End segment.

(** * The archive and the live log *)

Record Segment := mkSegment { sg_base : Z; sg_path : string; sg_header : WalHeader.t; sg_txs : list Tx; sg_tail : Bytes }.
Definition end_of (s : Segment) : Z := sg_base s + Z.of_nat (length (sg_txs s)).
Definition seg_key (s : Segment) : Z * string := (sg_base s, sg_path s).

(** The file of a segment is the log of its transactions, with at most a torn
    one behind them, and its counters follow its base. *)
Definition stored (psz : nat) (dbid : Bytes) (files : gmap string Bytes) (s : Segment) : Prop :=
  Forall (tx_ok psz) (sg_txs s) /\ header_ok psz dbid (sg_header s) /\ torn_tx psz (sg_header s) (sg_txs s) (sg_tail s)
  /\ files !! sg_path s = Some (log_file (sg_header s) (sg_txs s) ++ sg_tail s)
  /\ WalHeader.base_change_counter (sg_header s) = sg_base s /\ contiguous (sg_base s) (sg_txs s).

(** Each segment continues the one before it. *)
Fixpoint linked (segs : list Segment) : Prop :=
  match segs with
  | [] => True
  | s :: rest => match rest with s' :: _ => sg_base s < sg_base s' /\ sg_base s' = end_of s | [] => True end /\ linked rest
  end.

Fixpoint history (cc : Z) (logs : list Segment) : list Tx :=
  match logs with
  | [] => []
  | s :: logs => let new := beyond cc (sg_txs s) in new ++ history (cc + Z.of_nat (length new)) logs
  end.
Definition reached (cc : Z) (segs : list Segment) : Z := match last segs with Some s => Z.max cc (end_of s) | None => cc end.

Lemma beyond_above cc txs : Forall (fun tx => cc < tx_counter tx) (beyond cc txs).
Proof.
  apply Forall_forall. intros tx Hin. unfold beyond in Hin. apply list_elem_of_In, filter_In in Hin as [_ H]. breflect. lia.
Qed.
Lemma history_above cc cc' logs : cc <= cc' -> Forall (fun tx => cc < tx_counter tx) (history cc' logs).
Proof.
  revert cc'. induction logs as [|s logs IH]; intros cc' H; [constructor|]. cbn [history]. apply Forall_app. split.
  - eapply Forall_impl; [apply (beyond_above cc')|]. cbn. lia.
  - apply IH. lia.
Qed.
Lemma beyond_none base cc txs : contiguous base txs -> base + Z.of_nat (length txs) <= cc -> beyond cc txs = [].
Proof.
  intros Hc Hle. destruct (contiguous_beyond cc base txs Hc ltac:(lia)) as [_ Hl]. apply nil_length_inv. lia.
Qed.

Lemma take_segment_last cc old s fut :
  Forall (fun s => sg_base s <= cc) old -> sg_base s <= cc -> Forall (fun s => cc < sg_base s) fut ->
  take_segment cc (map seg_key (old ++ s :: fut)) = Some (sg_path s, map seg_key (old ++ fut)).
Proof.
  intros Hold Hs Hfut. induction Hold as [|o old Ho Hold IH]; cbn [app map take_segment seg_key].
  - destruct (Z.leb_spec (sg_base s) cc); [|lia]. destruct Hfut as [|g fut Hg]; [done|]. cbn [map take_segment seg_key].
    destruct (Z.leb_spec (sg_base g) cc); [lia|done].
  - destruct (Z.leb_spec (sg_base o) cc); [|lia]. by rewrite IH.
Qed.
Lemma take_segment_none cc : take_segment cc (map seg_key []) = None.
Proof. done. Qed.

(** The segments already in the file, and those to apply. *)
Lemma linked_above s rest : linked (s :: rest) -> Forall (fun g => sg_base s < sg_base g) rest.
Proof.
  revert s. induction rest as [|g rest IH]; intros s H; [constructor|]. destruct H as [[H1 _] H2].
  apply Forall_cons. split; [done|]. eapply Forall_impl; [by apply IH|]. cbn. lia.
Qed.
Lemma split_segments cc segs : linked segs -> (forall s rest, segs = s :: rest -> sg_base s <= cc) ->
  exists old fut, segs = old ++ fut /\ Forall (fun s => end_of s <= cc) old /\ linked fut /\
    match fut with [] => segs = [] | s :: rest => sg_base s <= cc /\ Forall (fun g => cc < sg_base g) rest end.
Proof.
  induction segs as [|s segs IH]; intros Hl Hb; [by exists [], []|]. specialize (Hb s segs eq_refl).
  destruct segs as [|g segs].
  { exists [], [s]. by split_and!. }
  destruct (decide (sg_base g <= cc)) as [Hg|Hg].
  - destruct Hl as [[H1 H2] Hl]. destruct IH as (old & fut & E & Hold & Hfl & Hf).
    + exact Hl.
    + by intros s' rest' [= <- <-].
    + exists (s :: old), fut. split; [by rewrite E|]. split; [apply Forall_cons; split; [lia|done]|]. split; [done|].
      destruct fut; [done|done].
  - exists [], (s :: g :: segs). split_and!; try done. pose proof (linked_above s _ Hl) as Hab.
    destruct Hl as [_ Hl]. apply linked_above in Hl. apply Forall_cons. split; [lia|].
    eapply Forall_impl; [exact Hl|]. cbn. lia.
Qed.

Section replay.
Context (target : RecoveryTarget) (out : string) (files : gmap string Bytes) (psz : nat) (dbid : Bytes).
Context (live_path : string) (live : option Segment).
Context (Hout : files !! out = None) (Hlive_out : live_path <> out).
Context (Hlive : match live with
                 | None => live_path = "" \/ files !! live_path = None
                 | Some s => live_path <> "" /\ sg_path s = live_path /\ stored psz dbid files s
                 end).

(** A log beside the database is read only in a quiet world: an error while
    it is opened is not reported. *)
Definition calmed (w : World) : Prop := live = None \/ quiet w.
Definition state (b : Bytes) (w : World) : Prop := holds out files b w /\ calmed w.
Lemma hoare_calmed {A} F P (m : M World A) Q :
  hoare F P m Q -> hoare F (fun w => P w /\ calmed w) m (fun a w => Q a w /\ calmed w).
Proof.
  intros Hm w r w' Hh [HP Hc] H. destruct (Hm w r w' Hh HP H) as [Hcalm Hr]. split; [done|]. destruct r; [|done].
  split; [done|]. destruct Hc; [by left|right]. by apply Hcalm.
Qed.

Lemma stored_path s : stored psz dbid files s -> sg_path s <> out.
Proof. intros (_ & _ & _ & Hf & _) E. rewrite E in Hf. congruence. Qed.
Lemma apply_segment_triple s rep b :
  stored psz dbid files s -> (sg_path s = live_path -> live <> None) -> sg_base s <= rep_change_counter rep ->
  0 <= transactions_applied rep <= rep_change_counter rep ->
  let add := beyond (rep_change_counter rep) (sg_txs s) in
  let new := wanted target add in
  hoare False (state b) (apply_segment target out psz dbid live_path (sg_path s) rep)
    (fun '(stop, rep') w =>
       (exists k, rep' = advance rep new k) /\ state (fold_left (apply_log psz) new b) w
       /\ if (stop : bool) then sg_path s = live_path \/
            forall more, Forall (fun tx => rep_change_counter rep' < tx_counter tx) more -> wanted target (add ++ more) = new
          else sg_path s <> live_path /\ new = add).
Proof.
  intros Hst Hl Hbase Htr. cbv zeta. pose proof (stored_path s Hst) as Hne. pose proof Hst as (Htxs & Hh & Ht & Hf & Hb & Hc).
  set (add := beyond (rep_change_counter rep) (sg_txs s)). set (new := wanted target add).
  assert (Hsees := sees_log out files (sg_path s) (sg_header s) (sg_txs s) (sg_tail s) Hne Hf b).
  intros w r w' Hhon [Hw Hcalm] H. unfold apply_segment, bind at 1, attempt in H.
  destruct (open_wal (sg_path s) psz (mkWalOptions dbid 0 true) w) as [r1 w1] eqn:E.
  destruct (open_reader psz dbid (holds out files b) (sg_path s) (sg_header s) (sg_txs s) (sg_tail s) Htxs Hh Ht Hsees False
              w r1 w1 Hhon Hw E) as [Hcw Hr].
  destruct r1 as [[x info]|e].
  2: { destruct Hr as [[]|Hq]. destruct (String.eqb_spec (sg_path s) live_path) as [El|].
       - destruct Hcalm; [by destruct (Hl El)|done].
       - unfold lift in H. simplify_eq. split; [done|by right]. }
  cbn [fst] in Hr. destruct Hr as [-> Hw1]. assert (Hst1 : state b w1).
  { split; [done|]. destruct Hcalm; [by left|right]. by apply Hcw. }
  cut (hoare False (state b)
         (let! (stop, rep', any) :=
            apply_commits target out psz (sg_path s) (set_read_only (wal_of psz (sg_path s) (sg_header s) (sg_txs s)))
              (commit_list (set_read_only (wal_of psz (sg_path s) (sg_header s) (sg_txs s)))) 0 rep false in
          ret (stop || String.eqb (sg_path s) live_path, count_segment any rep'))
         (fun '(stop, rep') w =>
           (exists k, rep' = advance rep new k) /\ state (fold_left (apply_log psz) new b) w
           /\ if (stop : bool) then sg_path s = live_path \/
                forall more, Forall (fun tx => rep_change_counter rep' < tx_counter tx) more -> wanted target (add ++ more) = new
              else sg_path s <> live_path /\ new = add)).
  { intros Hrest. destruct (reader_facts psz (sg_path s) (sg_header s) (sg_txs s) Htxs) as (_ & _ & _ & Hhd).
    rewrite Hhd, Hb in H. destruct (Z.ltb_spec (rep_change_counter rep) (sg_base s)); [lia|].
    destruct (Hrest w1 r w' (proj1 Hcw Hhon) Hst1 H) as [Hc2 Hr2]. split; [by eapply calm_trans|].
    destruct r; [done|]. right. destruct Hr2 as [[]|Hq]. intros Hqw. by apply Hq, Hcw. }
  eapply hoare_bind.
  { apply hoare_calmed. change (commit_list (set_read_only ?x)) with (commit_list x).
    rewrite (proj1 (wal_of_lists psz (sg_path s) (sg_header s) (sg_txs s) Htxs)).
    apply (apply_commits_triple False target out files psz (sg_path s) (sg_header s) (sg_txs s) (sg_tail s) Htxs Hne Hf
             (sg_path s) (sg_txs s) [] (sg_base s) rep false b); done. }
  intros [[stop rep'] any]. apply hoare_ret. intros w2 [(-> & Hw2 & Hstop) Hc2]. split; [|split; [by split|]].
  - destruct any; [|by eexists]. by eexists.
  - destruct (String.eqb_spec (sg_path s) live_path); [rewrite orb_true_r; by left|]. rewrite orb_false_r.
    destruct stop; [|done]. right. intros more Hm. apply Hstop. by destruct any.
Qed.

Definition live_logs : list Segment := match live with Some s => [s] | None => [] end.
Definition of_archive (s : Segment) : Prop := stored psz dbid files s /\ sg_path s <> live_path.
(** The file holds the wanted transactions of the logs, and the report says so. *)
Definition recovered_to (rep : RecoveryReport) (b : Bytes) (logs : list Segment) (rep' : RecoveryReport) (w : World) : Prop :=
  let new := wanted target (history (rep_change_counter rep) logs) in
  (exists k, rep' = advance rep new k) /\ state (fold_left (apply_log psz) new b) w.

Lemma recovered_done rep b logs w : target_done target rep = true -> state b w -> recovered_to rep b logs rep w.
Proof.
  intros Hd Hw. unfold recovered_to. rewrite (wanted_done target rep) by (done || by apply history_above).
  split; [|done]. exists (segments_applied rep). by rewrite advance_nil.
Qed.
Lemma wanted_app txs rest : wanted target txs = txs -> wanted target (txs ++ rest) = txs ++ wanted target rest.
Proof.
  induction txs as [|tx txs IH]; intros H; [done|]. cbn [wanted] in H. cbn [app wanted].
  destruct (within_target target (commit_of tx 0)); [|done]. injection H as H. by rewrite IH.
Qed.
(** One log is applied in full, then the others. *)
Lemma recovered_step rep b s logs k rep' w :
  let add := beyond (rep_change_counter rep) (sg_txs s) in
  wanted target add = add -> recovered_to (advance rep add k) (fold_left (apply_log psz) add b) logs rep' w ->
  recovered_to rep b (s :: logs) rep' w.
Proof.
  cbv zeta. set (add := beyond _ (sg_txs s)). intros Hall [[k' ->] Hw]. unfold recovered_to. cbv zeta. cbn [history]. cbv zeta. fold add.
  change (rep_change_counter (advance rep add k)) with (rep_change_counter rep + Z.of_nat (length add)) in *.
  set (rest := history _ logs) in *.
  rewrite (wanted_app _ _ Hall).
  rewrite fold_left_app. split; [|done]. exists k'. by rewrite advance_app.
Qed.
(** One log ends the replay. *)
Lemma recovered_stop rep b s logs k w :
  let add := beyond (rep_change_counter rep) (sg_txs s) in
  let new := wanted target add in
  (length new <= length add)%nat ->
  (forall more, Forall (fun tx => rep_change_counter (advance rep new k) < tx_counter tx) more -> wanted target (add ++ more) = new) ->
  state (fold_left (apply_log psz) new b) w -> recovered_to rep b (s :: logs) (advance rep new k) w.
Proof.
  cbv zeta. set (add := beyond _ (sg_txs s)). intros Hlen Hstop Hw. unfold recovered_to. cbv zeta. cbn [history]. cbv zeta. fold add.
  rewrite Hstop; [by eauto|]. apply history_above. cbn [rep_change_counter advance]. lia.
Qed.
Lemma length_wanted txs : (length (wanted target txs) <= length txs)%nat.
Proof. induction txs as [|tx txs IH]; cbn; [lia|]. destruct (within_target _ _); cbn; lia. Qed.

Lemma replay_unfold fuel segs live_tried rep :
  replay target out psz (S fuel) dbid live_path segs live_tried rep =
  if target_done target rep then ret rep
  else match take_segment (rep_change_counter rep) segs with
       | Some (seg, segs) =>
           let! (stop, rep) := apply_segment target out psz dbid live_path seg rep in
           if stop then ret rep else replay target out psz fuel dbid live_path segs live_tried rep
       | None =>
           if negb (String.eqb live_path "") && negb live_tried then
             let! e := vfs_exists live_path in
             if negb e then ret rep
             else
               let! (stop, rep) := apply_segment target out psz dbid live_path live_path rep in
               if stop then ret rep else replay target out psz fuel dbid live_path segs true rep
           else ret rep
       end.
Proof. done. Qed.

Lemma hoare_state_exists b p :
  hoare False (state b) (vfs_exists p) (fun x w => x = bool_decide (is_Some (content out files b p)) /\ state b w).
Proof.
  eapply hoare_conseq; [apply (hoare_calmed False (holds out files b)), hoare_exists|done|]. intros a w [[-> ?] ?]. done.
Qed.
Lemma live_cases : live = None /\ (live_path = "" \/ files !! live_path = None)
  \/ exists s, live = Some s /\ live_path <> "" /\ sg_path s = live_path /\ stored psz dbid files s.
Proof. revert Hlive. case live; [|by left]. intros s H. right. by exists s. Qed.
Lemma recovered_none rep b w : live = None -> state b w -> recovered_to rep b live_logs rep w.
Proof.
  intros Hn Hw. unfold live_logs. rewrite Hn. split; [|done]. exists (segments_applied rep). by rewrite advance_nil.
Qed.

(** The archive is exhausted: the live log is next. *)
Lemma replay_live fuel rep b :
  (forall s, live = Some s -> sg_base s <= rep_change_counter rep) -> 0 <= transactions_applied rep <= rep_change_counter rep ->
  hoare False (state b) (replay target out psz (S fuel) dbid live_path [] false rep)
    (fun rep' => recovered_to rep b live_logs rep').
Proof.
  intros Hbase Htr. rewrite replay_unfold. destruct (target_done target rep) eqn:Ed.
  { apply hoare_ret. intros w Hw. by apply recovered_done. }
  cbn [take_segment]. destruct (String.eqb_spec live_path "") as [El|El]; cbn [negb andb].
  { apply hoare_ret. intros w Hw. destruct live_cases as [[Hn _]|(s & _ & ? & _)]; [by apply recovered_none|done]. }
  eapply hoare_bind_eq; [apply hoare_state_exists|].
  assert (content out files b live_path = files !! live_path) as -> by (unfold content; by rewrite decide_False).
  destruct live_cases as [[Hn [|Hf]]|(s & Hs & _ & Hp & Hst)]; [done| |].
  { rewrite Hf. rewrite bool_decide_eq_false_2 by (intros [? ?]; done). apply hoare_ret. intros w Hw. by apply recovered_none. }
  pose proof Hst as (_ & _ & _ & Hf & _ & Hc). rewrite Hp in Hf. rewrite Hf, bool_decide_eq_true_2 by eauto. cbn [negb].
  assert (live_logs = [s]) as Hlogs by (unfold live_logs; by rewrite Hs).
  eapply hoare_bind.
  { rewrite <- Hp at 2. apply (apply_segment_triple s rep b Hst); [by rewrite Hs|by apply Hbase|done]. }
  intros [stop rep1]. rewrite Hlogs.
  assert (Hfin : forall k w, state (fold_left (apply_log psz) (wanted target (beyond (rep_change_counter rep) (sg_txs s))) b) w ->
    recovered_to rep b [s] (advance rep (wanted target (beyond (rep_change_counter rep) (sg_txs s))) k) w).
  { intros k w Hw. unfold recovered_to. cbn [history]. rewrite app_nil_r. eauto. }
  destruct stop.
  { apply hoare_ret. intros w ([k ->] & Hw & _). by apply Hfin. }
  intros w r w' _ (_ & _ & Hp' & _). done.
Qed.

(** The segments already in the file are read again and change nothing. *)
Lemma replay_old fuel old : forall rep b,
  (length old <= fuel)%nat -> Forall of_archive old -> Forall (fun s => end_of s <= rep_change_counter rep) old ->
  (forall s, live = Some s -> sg_base s <= rep_change_counter rep) -> 0 <= transactions_applied rep <= rep_change_counter rep ->
  hoare False (state b) (replay target out psz (S fuel) dbid live_path (map seg_key old) false rep)
    (fun rep' => recovered_to rep b live_logs rep').
Proof.
  revert fuel. induction old as [|s old IH] using rev_ind; intros fuel rep b Hfuel Har Hend Hbase Htr; [by apply replay_live|].
  apply Forall_app in Har as [Har [[Hst Hne] _]%Forall_cons], Hend as [Hend [Hs _]%Forall_cons].
  rewrite length_app in Hfuel. cbn [length] in Hfuel. destruct fuel as [|fuel]; [lia|].
  rewrite replay_unfold. destruct (target_done target rep) eqn:Ed.
  { apply hoare_ret. intros w Hw. by apply recovered_done. }
  assert (Hb : Forall (fun s => sg_base s <= rep_change_counter rep) old).
  { eapply Forall_impl; [exact Hend|]. unfold end_of. cbn. lia. }
  rewrite (take_segment_last _ old s []), app_nil_r; [|done|unfold end_of in Hs; lia|constructor].
  pose proof Hst as (_ & _ & _ & _ & _ & Hc).
  eapply hoare_bind; [apply (apply_segment_triple s rep b Hst); [done|unfold end_of in Hs; lia|done]|].
  rewrite (beyond_none _ _ _ Hc Hs). cbn [wanted fold_left]. intros [stop rep1].
  assert (Hsame : forall k rep' w, recovered_to (advance rep [] k) b live_logs rep' w -> recovered_to rep b live_logs rep' w).
  { intros k rep' w [[k' ->] Hw]. cbn [rep_change_counter advance length Z.of_nat] in *. rewrite Z.add_0_r in *.
    split; [|done]. exists k'. by rewrite advance_app. }
  destruct stop.
  - apply hoare_ret. intros w ([k ->] & Hw & [?|Hm]); [done|].
    assert (E : wanted target (history (rep_change_counter rep) live_logs) = []).
    { apply (Hm (history _ _)), history_above. cbn. lia. }
    unfold recovered_to. rewrite E. by split; [exists k|].
  - intros w r w' Hh ([k ->] & Hw & _) H.
    destruct (IH fuel (advance rep [] k) b ltac:(lia) Har) with (w := w) (r := r) (w' := w') as [Hcalm Hr]; try done.
    + cbn. by rewrite Z.add_0_r.
    + cbn. by rewrite Z.add_0_r.
    + cbn. lia.
    + split; [done|]. destruct r; [|done]. by apply (Hsame k).
Qed.

Lemma reached_step cc s g rest :
  linked (s :: g :: rest) -> cc < sg_base g -> reached (end_of s) (g :: rest) = reached cc (s :: g :: rest).
Proof.
  intros [[H1 H2] Hl] Hcc. unfold reached. cbn [last]. fold (@last Segment).
  assert (Hge : forall g rest, linked (g :: rest) -> exists x, last (g :: rest) = Some x /\ sg_base g <= sg_base x).
  { clear. intros g rest. revert g. induction rest as [|x rest IH]; intros g H; [by exists g|].
    destruct H as [[H1 _] H2]. destruct (IH x H2) as (y & Hy & Hle). exists y. cbn [last]. split; [exact Hy|lia]. }
  destruct (Hge g rest Hl) as (x & Hx & Hle). rewrite Hx. unfold end_of in *. lia.
Qed.

Lemma replay_archive fut : forall old rep b fuel,
  (length old + length fut <= fuel)%nat -> Forall of_archive (old ++ fut) ->
  Forall (fun s => end_of s <= rep_change_counter rep) old -> linked fut ->
  match fut with [] => True | s :: rest => sg_base s <= rep_change_counter rep /\ Forall (fun g => rep_change_counter rep < sg_base g) rest end ->
  (forall s, live = Some s -> sg_base s <= reached (rep_change_counter rep) fut) -> 0 <= transactions_applied rep <= rep_change_counter rep ->
  hoare False (state b) (replay target out psz (S fuel) dbid live_path (map seg_key (old ++ fut)) false rep)
    (fun rep' => recovered_to rep b (fut ++ live_logs) rep').
Proof.
  induction fut as [|s fut IH]; intros old rep b fuel Hfuel Har Hold Hl Hs Hbase Htr.
  { rewrite app_nil_r in *. apply replay_old; try done. cbn in Hfuel. lia. }
  cbn [length] in Hfuel. destruct fuel as [|fuel]; [lia|]. destruct Hs as [Hs Hfut].
  pose proof Har as [Har_old [[Hst Hne] Har_fut]%Forall_cons]%Forall_app. pose proof Hst as (_ & _ & _ & _ & _ & Hc).
  rewrite replay_unfold. destruct (target_done target rep) eqn:Ed.
  { apply hoare_ret. intros w Hw. by apply recovered_done. }
  rewrite take_segment_last; [|eapply Forall_impl; [exact Hold|unfold end_of; cbn; lia]|done|done].
  eapply hoare_bind; [by apply (apply_segment_triple s rep b Hst)|].
  set (add := beyond (rep_change_counter rep) (sg_txs s)). intros [stop rep1].
  destruct (contiguous_beyond _ _ _ Hc Hs) as [_ Hlen]. fold add in Hlen. fold (end_of s) in Hlen.
  destruct stop.
  { apply hoare_ret. intros w ([k ->] & Hw & [?|Hm]); [done|]. cbn [app]. apply recovered_stop; [apply length_wanted|done|done]. }
  intros w r w' Hh ([k ->] & Hw & _ & Hall) H. rewrite Hall in *.
  assert (Hcc : rep_change_counter (advance rep add k) = Z.max (rep_change_counter rep) (end_of s)) by (cbn; lia).
  destruct (IH old (advance rep add k) (fold_left (apply_log psz) add b) fuel) with (w := w) (r := r) (w' := w') as [Hcalm Hr]; try done.
  - lia.
  - by apply Forall_app.
  - eapply Forall_impl; [exact Hold|]. cbn [rep_change_counter advance]. lia.
  - by destruct Hl.
  - destruct fut as [|g fut]; [done|]. destruct Hl as [[H1 H2] Hl]. apply Forall_cons in Hfut as [Hg Hfut].
    rewrite Hcc. split; [lia|]. pose proof (linked_above _ _ Hl) as Hab. eapply Forall_impl; [exact Hab|]. cbn. lia.
  - intros g Hg. specialize (Hbase g Hg). rewrite Hcc. destruct fut as [|x fut].
    + unfold reached in *. cbn [last] in *. done.
    + apply Forall_cons in Hfut as [Hx _]. rewrite <- (reached_step _ s x fut Hl Hx) in Hbase.
      replace (Z.max _ _) with (end_of s); [done|]. destruct Hl as [[_ H2] _]. lia.
  - rewrite Hcc. cbn. lia.
  - split; [done|]. destruct r; [|done]. cbn [app]. by apply (recovered_step _ _ _ _ k).
Qed.
End replay.

(** * Recovery to a point *)

Lemma hoare_calmed_eq {A} live F P (m : M World A) a0 R :
  hoare F P m (fun a w => a = a0 /\ R w) ->
  hoare F (fun w => P w /\ calmed live w) m (fun a w => a = a0 /\ (R w /\ calmed live w)).
Proof. intros H. eapply hoare_conseq; [exact (hoare_calmed live F P m _ H)|done|]. by intros a w [[-> ?] ?]. Qed.

Lemma refuse_triple F out files p : files !! p = None -> hoare F (absent out files) (refuse_existing p) (fun _ => absent out files).
Proof.
  intros Hp. unfold refuse_existing. eapply (hoare_bind_eq _ _ _ false (absent out files)); [|by apply hoare_ret].
  intros w r w' _ Hw H. pose proof Hw as (Hcr & Hc & _). rewrite (vfs_exists_spec p w Hcr), Hc, Hp in H. simplify_eq.
  split; [done|]. split; [|done]. by rewrite bool_decide_eq_false_2 by (intros [? ?]; done).
Qed.

Definition archived (db_id : Bytes) (archive_dir : string) (files : gmap string Bytes) : list (Z * string) :=
  if String.eqb archive_dir "" then [] else segments_named db_id archive_dir (listed archive_dir files).
Lemma find_segments_triple F out files b db_id dir : files !! out = None ->
  hoare F (holds out files b) (find_segments db_id dir)
    (fun segs w => segs = archived db_id dir (<[out := b]> files) /\ holds out files b w).
Proof.
  intros Hout w r w' _ Hw H. pose proof Hw as (Hcr & Hb & _ & Ho). unfold find_segments, archived in *.
  destruct (String.eqb dir ""); [by injection H as <- <-|]. unfold bind, attempt, vfs_list in H. rewrite Hcr in H.
  assert (Hc : cache w = <[out := b]> files).
  { apply map_eq. intros p. destruct (decide (p = out)) as [->|]; [by rewrite lookup_insert_eq|]. by rewrite lookup_insert_ne, Ho. }
  rewrite Hc in H. by injection H as <- <-.
Qed.

Definition final_report (target : RecoveryTarget) (rep : RecoveryReport) : RecoveryReport :=
  mkReport (start_change_counter rep) (rep_change_counter rep) (rep_commit_time_us rep) (transactions_applied rep) (segments_applied rep)
    (match rt_change_counter target with Some t => rep_change_counter rep =? t | None => true end).

Lemma recover_to_point_triple target backup archive_dir live_path out files b0 hdr segs live :
  let psz := Z.to_nat (DbHeader.page_size hdr) in
  let cc := DbHeader.change_counter hdr in
  let new := wanted target (history cc (segs ++ live_logs live)) in
  files !! out = None -> files !! (out +:+ ".wal") = None -> live_path <> out ->
  files !! backup = Some b0 -> bytes_ok b0 -> DbHeader.decode (take 512 b0) = Ret hdr ->
  (psz <= length b0)%nat -> page_checksum_ok (take psz b0) = true ->
  archived (DbHeader.db_id hdr) archive_dir (<[out := b0]> files) = map seg_key segs ->
  Forall (of_archive files psz (DbHeader.db_id hdr) live_path) segs -> linked segs ->
  (forall s rest, segs = s :: rest -> sg_base s <= cc) ->
  match live with
  | None => live_path = "" \/ files !! live_path = None
  | Some s => live_path <> "" /\ sg_path s = live_path /\ stored psz (DbHeader.db_id hdr) files s /\ sg_base s <= reached cc segs
  end ->
  hoare False (fun w => absent out files w /\ calmed live w)
    (recover_to_point backup archive_dir live_path target out)
    (fun rep w => holds_synced out files (fold_left (apply_log psz) new b0) w
       /\ exists k, rep = final_report target (advance (mkReport cc cc (DbHeader.commit_time_us hdr) 0 0 false) new k)).
Proof.
  cbv zeta. intros Hout Howal Hlo Hbk Hok Hdec Hlen Hck Harch Har Hlink Hfirst Hlive.
  set (psz := Z.to_nat (DbHeader.page_size hdr)) in *. set (cc := DbHeader.change_counter hdr) in *.
  destruct (DbHeader_decode_wf _ _ (bytes_ok_take _ _ Hok) Hdec) as [(_ & _ & _ & _ & _ & Hcc & _ & _ & _ & Hps & _) _].
  apply valid_page_size_bounds in Hps. unfold u64_ok in Hcc. fold cc in Hcc.
  assert (Hsees : sees (holds out files b0) out b0) by (apply sees_holds; unfold content; by rewrite decide_True).
  unfold recover_to_point, DbHeader.kEncodedBytes. change (Z.to_nat kMinPageSize) with 512%nat.
  eapply hoare_bind; [by apply hoare_calmed, refuse_triple|]. intros [].
  eapply hoare_bind; [by apply hoare_calmed, refuse_triple|]. intros [].
  eapply hoare_bind; [by apply hoare_calmed, (copied_triple _ out files backup b0)|]. intros [].
  apply (hoare_pre _ _ (state out files live b0)); [|intros w [? ?]; by split; [apply holds_synced_holds|]].
  eapply hoare_bind; [by apply hoare_calmed, (hoare_open_existing _ _ out b0)|]. intros [].
  eapply hoare_bind_eq; [by apply hoare_calmed_eq, (hoare_read _ _ out b0)|]. rewrite sub_0, length_take.
  destruct (Nat.ltb_spec (512 `min` length b0) 72); [lia|]. rewrite decode_filled_up, Hdec by lia.
  eapply (hoare_bind_eq _ _ _ hdr (state out files live b0)); [by intros w r w' _ HR [= <- <-]|]. cbv zeta.
  fold psz cc.
  eapply hoare_bind_eq; [by apply hoare_calmed_eq, (hoare_read _ _ out b0)|]. rewrite sub_0, length_take, Nat.min_l, Nat.eqb_refl, Hck by done.
  cbn [negb orb].
  eapply hoare_bind_eq; [by apply hoare_calmed_eq, find_segments_triple|]. rewrite Harch, length_map.
  destruct (split_segments cc segs Hlink Hfirst) as (old & fut & -> & Hold & Hfl & Hf).
  assert (Hhist : history cc ((old ++ fut) ++ live_logs live) = history cc (fut ++ live_logs live)).
  { rewrite <- app_assoc. apply Forall_app in Har as [Har _]. clear -Hold Har. induction old as [|s old IH]; [done|].
    apply Forall_cons in Hold as [Hs Hold], Har as [[(_ & _ & _ & _ & _ & Hc) _] Har]. cbn [app history].
    rewrite (beyond_none _ _ _ Hc Hs). cbn [app length Z.of_nat]. rewrite Z.add_0_r. by apply IH. }
  rewrite Hhist. set (rep0 := mkReport cc cc (DbHeader.commit_time_us hdr) 0 0 false).
  eapply hoare_bind.
  { rewrite length_app. apply (replay_archive target out files psz (DbHeader.db_id hdr) live_path live Hout Hlo) with (old := old) (fut := fut); try done.
    - destruct live as [s|]; [|done]. by destruct Hlive as (? & ? & ? & _).
    - lia.
    - destruct fut; [done|exact Hf].
    - cbn [rep_change_counter rep0]. intros s ->. destruct Hlive as (_ & _ & _ & Hb). etransitivity; [exact Hb|].
      destruct fut as [|f fut]; [rewrite Hf; reflexivity|]. unfold reached. rewrite last_app. destruct (last (f :: fut)) eqn:E; [reflexivity|].
      by apply last_None in E.
    - cbn. lia. }
  intros rep. unfold recovered_to. cbn [rep_change_counter rep0].
  set (new := wanted target (history cc (fut ++ live_logs live))).
  eapply (hoare_bind _ _ _ (fun _ w => (exists k, rep = advance rep0 new k) /\ holds_synced out files (fold_left (apply_log psz) new b0) w)).
  { intros w r w' Hh [Hk [Hw _]] Hm. destruct (hoare_sync False out files _ w r w' Hh Hw Hm) as [Hc Hr].
    split; [done|]. destruct r; [|done]. by split. }
  intros []. eapply (hoare_bind _ _ _ (fun _ w => (exists k, rep = advance rep0 new k) /\ holds_synced out files (fold_left (apply_log psz) new b0) w)).
  { intros w r w' Hh [Hk Hw] Hm. destruct (hoare_sync_directory False out files _ _ w r w' Hh Hw Hm) as [Hc Hr].
    split; [done|]. destruct r; [|done]. by split. }
  intros []. apply hoare_ret. intros w [[k ->] Hw]. split; [done|]. by exists k.
Qed.

(** [C7] Point-in-time recovery is exact.  From a backup, archived segments
    that continue one another from at or before the backup's change counter
    and, where there is one, a live log that continues them (or repeats their
    end), [recover_to_point] writes the backup with exactly the transactions
    of the history that the target admits applied in order: the longest prefix
    whose change counters and commit times are within it.  The file is on the
    disk, no other file has changed and the report counts those transactions,
    gives the last one's time and says whether the counter was reached.  Only
    a fault of the filesystem makes it fail. *)
Theorem recover_to_point_exact target backup archive_dir live_path out files b0 hdr segs live w r w' :
  let psz := Z.to_nat (DbHeader.page_size hdr) in
  let cc := DbHeader.change_counter hdr in
  let new := wanted target (history cc (segs ++ live_logs live)) in
  is_crashed w = false -> cache w = files -> coherent out w -> honest w -> calmed live w ->
  files !! out = None -> files !! (out +:+ ".wal") = None -> live_path <> out ->
  files !! backup = Some b0 -> bytes_ok b0 -> DbHeader.decode (take 512 b0) = Ret hdr ->
  (psz <= length b0)%nat -> page_checksum_ok (take psz b0) = true ->
  archived (DbHeader.db_id hdr) archive_dir (<[out := b0]> files) = map seg_key segs ->
  Forall (fun s => stored psz (DbHeader.db_id hdr) files s /\ sg_path s <> live_path) segs -> linked segs ->
  (forall s rest, segs = s :: rest -> sg_base s <= cc) ->
  match live with
  | None => live_path = "" \/ files !! live_path = None
  | Some s => live_path <> "" /\ sg_path s = live_path /\ stored psz (DbHeader.db_id hdr) files s /\ sg_base s <= reached cc segs
  end ->
  recover_to_point backup archive_dir live_path target out w = (r, w') ->
  match r with
  | Ret rep =>
      synced out (fold_left (apply_log psz) new b0) w' /\ (forall p, p <> out -> cache w' !! p = files !! p)
      /\ rep = mkReport cc (cc + Z.of_nat (length new)) (default (DbHeader.commit_time_us hdr) (tx_time <$> last new))
                 (Z.of_nat (length new)) (segments_applied rep)
                 (match rt_change_counter target with Some t => cc + Z.of_nat (length new) =? t | None => true end)
  | Err _ => ~ quiet w
  end.
Proof.
  cbv zeta. intros Hcr Hc Hco Hh Hcalm Hout Howal Hlo Hbk Hok Hdec Hlen Hck Harch Har Hlink Hfirst Hlive H.
  destruct (recover_to_point_triple target backup archive_dir live_path out files b0 hdr segs live Hout Howal Hlo Hbk Hok Hdec Hlen Hck
              Harch Har Hlink Hfirst Hlive w r w' Hh) as [_ Hr]; [by split|done|].
  destruct r as [rep|e]; [|by destruct Hr]. destruct Hr as ([Hs Ho] & k & ->). by split.
Qed.

(** A backup of two pages at counter 76 and one archived segment. *)
Definition sample_backup_header : DbHeader.t := DbHeader.mk 512 3 2 0 0 76 (replicate 16 171) 100.
Definition sample_backup : Bytes :=
  seal_page (DbHeader.encode sample_backup_header (replicate 512 0)) ++ seal_page (replicate 512 1).
Definition sample_segment : Segment :=
  mkSegment 76 "a/abababababababababababababababab-00000000000000000076.wal" (WalHeader.mk 512 17 99 (replicate 16 171) 76) [sample_tx] [].
Definition sample_files : gmap string Bytes :=
  {["b" := sample_backup; sg_path sample_segment := log_file (sg_header sample_segment) [sample_tx]]}.

Lemma recover_to_point_exact_witness :
  let '(r, w') := recover_to_point "b" "a" "" (mkTarget (Some 77) None) "o" (reboot sample_files [] []) in
  match r with
  | Ret rep => synced "o" (apply_log 512 sample_backup sample_tx) w' /\ rep_change_counter rep = 77 /\ target_reached rep = true
  | Err _ => False
  end.
Proof.
  destruct (recover_to_point "b" "a" "" (mkTarget (Some 77) None) "o" (reboot sample_files [] [])) as [r w'] eqn:E.
  assert (Hnew : wanted (mkTarget (Some 77) None) (history 76 ([sample_segment] ++ live_logs None)) = [sample_tx])
    by (vm_compute; reflexivity).
  pose proof (recover_to_point_exact (mkTarget (Some 77) None) "b" "a" "" "o" sample_files sample_backup sample_backup_header
    [sample_segment] None (reboot sample_files [] []) r w') as H.
  cbv zeta in H. change (DbHeader.change_counter sample_backup_header) with 76 in H. rewrite Hnew in H.
  assert (Hr : match r with
    | Ret rep =>
      synced "o" (fold_left (apply_log (Z.to_nat (DbHeader.page_size sample_backup_header))) [sample_tx] sample_backup) w'
      /\ (forall p, p <> "o" -> cache w' !! p = sample_files !! p)
      /\ rep = mkReport 76 (76 + Z.of_nat (length [sample_tx])) (default (DbHeader.commit_time_us sample_backup_header) (tx_time <$> last [sample_tx]))
                 (Z.of_nat (length [sample_tx])) (segments_applied rep) true
    | Err _ => ~ quiet (reboot sample_files [] []) end).
  { apply H.
    - reflexivity.
    - reflexivity.
    - split; [constructor|reflexivity].
    - apply not_elem_of_nil.
    - left. reflexivity.
    - vm_compute. reflexivity.
    - vm_compute. reflexivity.
    - discriminate.
    - vm_compute. reflexivity.
    - decide_now.
    - vm_compute. reflexivity.
    - apply Nat.leb_le. vm_compute. reflexivity.
    - vm_compute. reflexivity.
    - vm_compute. reflexivity.
    - apply Forall_cons. split; [|constructor]. split; [|discriminate].
      split; [constructor; [exact sample_tx_ok|constructor]|]. split.
      { unfold header_ok, WalHeader.wf. split_and!; try decide_now; reflexivity. }
      split; [by left|]. split; [vm_compute; reflexivity|]. split; [reflexivity|]. split; [vm_compute; reflexivity|exact I].
    - split; exact I.
    - intros s rest [= <- <-]. vm_compute. discriminate.
    - left. reflexivity.
    - exact E. }
  destruct r as [rep|e]; [|exact (Hr eq_refl)]. destruct Hr as (Hs & _ & Hrep). split; [exact Hs|].
  rewrite Hrep. split; reflexivity.
Defined.
