(* ===== verification/BTreeNode.v ===== *)
(** B+tree nodes (engine/src/engine/btree.cpp, [struct Node] and the cell
    builders): a page body with a 24-byte header, an array of slots growing up
    and cells growing down.

    The definitions of [Module Node] work on the bytes of a page as the
    methods of the C++ view do. *)

From stdpp Require Import base numbers list.
From S2P Require Import Prelude Bytes PageFormat.
Open Scope Z_scope.

Definition kLeaf : Z := 1.
Definition kInterior : Z := 2.
Definition kHdr : nat := 24.
Definition kLeafCellHdr : nat := 7.        (* u16 key_len, u8 flags, u32 value_len *)
Definition kInteriorCellHdr : nat := 10.   (* u16 key_len, u64 child *)
Definition kFlagOverflow : Z := 1.
Definition kOverflowHdr : nat := 8.        (* u64 next *)

Definition wrap16 (v : Z) : Z := v mod 2 ^ 16.

Definition is_lt (c : comparison) : bool := match c with Lt => true | _ => false end.
Definition is_le (c : comparison) : bool := match c with Gt => false | _ => true end.
Definition is_eq (c : comparison) : bool := match c with Eq => true | _ => false end.

(** The binary search both descents are written with: the first index in
    [lo, hi) where [before] turns false.  The interval shrinks at every step,
    so [hi - lo] steps are enough. *)
Fixpoint search (fuel : nat) (before : nat -> bool) (lo hi : nat) : nat :=
  match fuel with
  | O => lo
  | S fuel =>
      if (lo <? hi)%nat then
        let mid := ((lo + hi) / 2)%nat in
        if before mid then search fuel before (S mid) hi else search fuel before lo mid
      else lo
  end.

Module Node.

Definition usable (page_size : nat) : nat := (page_size - kPageTrailerBytes)%nat.

Definition type (p : Bytes) : Z := byte_at p 0.
Definition is_leaf (p : Bytes) : bool := type p =? kLeaf.
Definition count (p : Bytes) : nat := Z.to_nat (get_u16 p 2).
Definition set_count (p : Bytes) (v : nat) : Bytes := put_u16 p 2 (Z.of_nat v).
Definition content_start (p : Bytes) : Z := get_u16 p 4.
Definition set_content_start (p : Bytes) (v : Z) : Bytes := put_u16 p 4 v.
Definition frag (p : Bytes) : Z := get_u16 p 6.
Definition set_frag (p : Bytes) (v : Z) : Bytes := put_u16 p 6 v.
Definition right (p : Bytes) : PageNo := get_u64 p 8.
Definition set_right (p : Bytes) (v : PageNo) : Bytes := put_u64 p 8 v.
Definition prev (p : Bytes) : PageNo := get_u64 p 16.
Definition set_prev (p : Bytes) (v : PageNo) : Bytes := put_u64 p 16 v.

Definition init (page_size : nat) (ty : Z) : Bytes :=
  let p := replicate page_size 0 in
  let p := blit 0 [ty] p in
  let p := set_count p 0 in
  let p := set_content_start p (Z.of_nat (usable page_size)) in
  let p := set_frag p 0 in
  let p := set_right p 0 in
  set_prev p 0.

Definition slot (p : Bytes) (i : nat) : nat := Z.to_nat (get_u16 p (kHdr + 2 * i)).
Definition set_slot (p : Bytes) (i : nat) (off : Z) : Bytes := put_u16 p (kHdr + 2 * i) off.

Definition key_len (p : Bytes) (i : nat) : nat := Z.to_nat (get_u16 p (slot p i)).
Definition key (p : Bytes) (i : nat) : Bytes :=
  sub (slot p i + (if is_leaf p then kLeafCellHdr else kInteriorCellHdr)) (key_len p i) p.
Definition flags (p : Bytes) (i : nat) : Z := byte_at p (slot p i + 2).
Definition overflowed (p : Bytes) (i : nat) : bool := negb (Z.land (flags p i) kFlagOverflow =? 0).
Definition value_len (p : Bytes) (i : nat) : Z := get_u32 p (slot p i + 3).
Definition inline_value (p : Bytes) (i : nat) : Bytes :=
  sub (slot p i + kLeafCellHdr + key_len p i) (Z.to_nat (value_len p i)) p.
Definition overflow_page (p : Bytes) (i : nat) : PageNo :=
  get_u64 p (slot p i + kLeafCellHdr + key_len p i).
Definition child (p : Bytes) (i : nat) : PageNo := get_u64 p (slot p i + 2).
Definition set_child (p : Bytes) (i : nat) (c : PageNo) : Bytes := put_u64 p (slot p i + 2) c.

Definition cell_size (p : Bytes) (i : nat) : nat :=
  if is_leaf p then
    (kLeafCellHdr + key_len p i + (if overflowed p i then 8 else Z.to_nat (value_len p i)))%nat
  else (kInteriorCellHdr + key_len p i)%nat.
Definition free_space (p : Bytes) : Z := wrap64 (content_start p - Z.of_nat (kHdr + 2 * count p)).

Definition lower_bound (p : Bytes) (k : Bytes) : nat * bool :=
  let n := count p in
  let lo := search n (fun mid => is_lt (compare_bytes (key p mid) k)) 0 n in
  (lo, (lo <? n)%nat && is_eq (compare_bytes (key p lo) k)).

Definition fits (p : Bytes) (cell_bytes : nat) : bool := Z.of_nat (cell_bytes + 2) <=? free_space p.
Definition fits_after_defrag (p : Bytes) (cell_bytes : nat) : bool :=
  Z.of_nat (cell_bytes + 2) <=? wrap64 (free_space p + frag p).

Definition insert_cell (p : Bytes) (at_ : nat) (cell : Bytes) : Bytes :=
  let n := count p in
  let off := wrap16 (content_start p - Z.of_nat (length cell)) in
  let p := blit (Z.to_nat off) cell p in
  let p := blit (kHdr + 2 * (at_ + 1)) (sub (kHdr + 2 * at_) (2 * (n - at_)) p) p in
  let p := set_slot p at_ off in
  let p := set_count p (n + 1) in
  set_content_start p off.

Definition remove_cell (p : Bytes) (at_ : nat) : Bytes :=
  let n := count p in
  let size := cell_size p at_ in
  let p := set_frag p (wrap16 (frag p + Z.of_nat size)) in
  let p := blit (kHdr + 2 * at_) (sub (kHdr + 2 * (at_ + 1)) (2 * (n - at_ - 1)) p) p in
  set_count p (n - 1).

(** The two loops of [defragment]: copying the cells to the scratch buffer,
    and storing their new offsets. *)
Fixpoint pack_cells (p scratch : Bytes) (i n off : nat) : Bytes * list nat * nat :=
  match n with
  | O => (scratch, [], off)
  | S n =>
      let size := cell_size p i in
      let off := (off - size)%nat in
      let scratch := blit off (sub (slot p i) size p) scratch in
      let '(scratch, offs, last_) := pack_cells p scratch (S i) n off in
      (scratch, off :: offs, last_)
  end.
Fixpoint store_slots (p : Bytes) (i : nat) (offs : list nat) : Bytes :=
  match offs with
  | [] => p
  | off :: offs => store_slots (set_slot p i (Z.of_nat off)) (S i) offs
  end.
Definition defragment (page_size : nat) (p : Bytes) : Bytes :=
  let u := usable page_size in
  let '(scratch, offs, off) := pack_cells p (replicate u 0) 0 (count p) u in
  let p := blit off (drop off scratch) p in
  let p := store_slots p 0 offs in
  set_frag (set_content_start p (Z.of_nat off)) 0.

End Node.

Definition build_leaf_cell (key inline_value : Bytes) (overflowed : bool) (total_len : Z)
    (overflow_first : PageNo) : Bytes :=
  let c := replicate (kLeafCellHdr + length key + (if overflowed then 8 else length inline_value)) 0 in
  let c := put_u16 c 0 (Z.of_nat (length key)) in
  let c := blit 2 [if overflowed then kFlagOverflow else 0] c in
  let c := put_u32 c 3 total_len in
  let c := blit kLeafCellHdr key c in
  if overflowed then put_u64 c (kLeafCellHdr + length key) overflow_first
  else blit (kLeafCellHdr + length key) inline_value c.

Definition build_interior_cell (key : Bytes) (child : PageNo) : Bytes :=
  let c := replicate (kInteriorCellHdr + length key) 0 in
  let c := put_u16 c 0 (Z.of_nat (length key)) in
  let c := put_u64 c 2 child in
  blit kInteriorCellHdr key c.

Definition max_cell_bytes (page_size : nat) : nat :=
  ((page_size - kPageTrailerBytes - kHdr) / 4 - 2)%nat.

(** Filling a node: the loops of the two splits. *)
Fixpoint insert_cells (p : Bytes) (i : nat) (cells : list Bytes) : Bytes :=
  match cells with
  | [] => p
  | c :: cells => insert_cells (Node.insert_cell p i c) (S i) cells
  end.
