(* ===== verification/BTreeNodeFacts.v ===== *)
(** What the methods of a B+tree node do.

    [node_at page ty right prev cells] gives the bytes of a page a meaning: a
    node of a type, with its two links and the cells of its slots in order.
    Every method of [Node] is then the list operation it stands for: inserting
    and removing at an index, compaction as the identity, a child pointer
    replaced in one cell.  The cell builders are inverse to the accessors, and
    the binary search finds the first place where its test turns false. *)

From stdpp Require Import base numbers list.
From S2P Require Import Prelude Bytes PageFormat BTreeNode.
Open Scope Z_scope.

(** * Reading what a write left *)

Lemma sub_blit_inside off src dst o n :
  (off <= o)%nat -> (o + n <= off + length src)%nat -> (off + length src <= length dst)%nat ->
  sub o n (blit off src dst) = sub (o - off) n src.
Proof.
  intros H1 H2 H3. replace o with (off + (o - off))%nat at 1 by lia.
  rewrite <- (sub_sub off (length src) (o - off) n) by lia. by rewrite sub_blit_same by lia.
Qed.
Lemma get_le_blit_inside n off src dst o :
  (off <= o)%nat -> (o + n <= off + length src)%nat -> (off + length src <= length dst)%nat ->
  get_le n (blit off src dst) o = get_le n src (o - off).
Proof. intros. rewrite get_le_region, (get_le_region n src). by rewrite sub_blit_inside. Qed.
Lemma get_le_in_sub n p off m o : (o + n <= m)%nat -> get_le n (sub off m p) o = get_le n p (off + o).
Proof. intros. rewrite get_le_region, (get_le_region n p). by rewrite sub_sub. Qed.

(** A write inside a region is a write to the region. *)
Lemma sub_blit_commute off n k src p :
  (k + length src <= n)%nat -> (off + n <= length p)%nat ->
  sub off n (blit (off + k) src p) = blit k src (sub off n p).
Proof.
  intros H1 H2. replace n with (k + (length src + (n - k - length src)))%nat at 1 by lia.
  rewrite !sub_split, sub_blit_before, sub_blit_same, sub_blit_after by lia.
  unfold blit. rewrite length_sub, Nat.min_l by lia. rewrite (take_ge src) by lia. f_equal; [|f_equal].
  - unfold sub. rewrite take_take. f_equal. lia.
  - unfold sub. rewrite skipn_firstn_comm, drop_drop. f_equal; [lia|]. f_equal. lia.
Qed.

(** A byte is a one-byte integer. *)
Lemma byte_at_region p i : byte_at p i = byte_at (sub i 1 p) 0.
Proof. by rewrite byte_at_sub, Nat.add_0_r by lia. Qed.
Lemma byte_at_blit_before off src p i : (i < off)%nat -> byte_at (blit off src p) i = byte_at p i.
Proof. intros. rewrite byte_at_region, (byte_at_region p), sub_blit_before by lia. done. Qed.
Lemma byte_at_blit_after off src p i : (off + length src <= i)%nat -> byte_at (blit off src p) i = byte_at p i.
Proof. intros. rewrite byte_at_region, (byte_at_region p), sub_blit_after by lia. done. Qed.

Ltac region_side := rewrite ?length_blit, ?length_sub, ?length_le_bytes; cbn [length]; lia.
(** Reads pass over writes to other regions. *)
Ltac regions :=
  repeat first
    [ rewrite get_le_blit_before by region_side
    | rewrite get_le_blit_after by region_side
    | rewrite sub_blit_before by region_side
    | rewrite sub_blit_after by region_side
    | rewrite byte_at_blit_before by region_side
    | rewrite byte_at_blit_after by region_side ].
Ltac node_unfold :=
  unfold Node.type, Node.is_leaf, Node.count, Node.content_start, Node.frag, Node.right, Node.prev, Node.slot,
    Node.set_count, Node.set_content_start, Node.set_frag, Node.set_right, Node.set_prev, Node.set_slot,
    get_u16, get_u32, get_u64, put_u16, put_u32, put_u64 in *.

(** * Cells *)

Definition cell_klen (c : Bytes) : nat := Z.to_nat (get_u16 c 0).
Definition cell_hdr (ty : Z) : nat := if ty =? kLeaf then kLeafCellHdr else kInteriorCellHdr.
Definition cell_key (ty : Z) (c : Bytes) : Bytes := sub (cell_hdr ty) (cell_klen c) c.
Definition cell_overflowed (c : Bytes) : bool := negb (Z.land (byte_at c 2) kFlagOverflow =? 0).
Definition cell_vlen (c : Bytes) : Z := get_u32 c 3.
Definition cell_inline (c : Bytes) : Bytes := sub (kLeafCellHdr + cell_klen c) (Z.to_nat (cell_vlen c)) c.
Definition cell_first (c : Bytes) : PageNo := get_u64 c (kLeafCellHdr + cell_klen c).
Definition cell_child (c : Bytes) : PageNo := get_u64 c 2.
Definition cell_len (ty : Z) (c : Bytes) : nat :=
  if ty =? kLeaf then
    (kLeafCellHdr + cell_klen c + (if cell_overflowed c then 8 else Z.to_nat (cell_vlen c)))%nat
  else (kInteriorCellHdr + cell_klen c)%nat.

(** A cell is as long as its own header says. *)
Definition cell_ok (ty : Z) (c : Bytes) : Prop := bytes_ok c /\ length c = cell_len ty c.

Lemma cell_ok_hdr ty c : cell_ok ty c -> (cell_hdr ty + cell_klen c <= length c)%nat /\ (7 <= length c)%nat.
Proof.
  intros [_ ->]. unfold cell_len, cell_hdr, kLeafCellHdr, kInteriorCellHdr. destruct (ty =? kLeaf); lia.
Qed.

(** * The meaning of a page *)

Definition cells_bytes (cells : list Bytes) : nat := sum_list (map length cells).

Section node.
Context (psz : nat) (Hpsz : 512 <= Z.of_nat psz <= 65536).

Record node_at (page : Bytes) (ty : Z) (right prev : PageNo) (cells : list Bytes) : Prop := {
  na_len : length page = psz;
  na_bytes : bytes_ok page;
  na_type : Node.type page = ty;
  na_right : Node.right page = right;
  na_prev : Node.prev page = prev;
  na_count : Node.count page = length cells;
  na_start : Z.of_nat (kHdr + 2 * length cells) <= Node.content_start page <= Z.of_nat (Node.usable psz);
  na_frag : Node.frag page + Z.of_nat (cells_bytes cells) = Z.of_nat (Node.usable psz) - Node.content_start page;
  na_cells : forall i c, cells !! i = Some c ->
    Node.content_start page <= Z.of_nat (Node.slot page i) /\ (Node.slot page i + length c <= Node.usable psz)%nat
    /\ sub (Node.slot page i) (length c) page = c /\ cell_ok ty c;
  na_disjoint : forall i j ci cj, i <> j -> cells !! i = Some ci -> cells !! j = Some cj ->
    (Node.slot page i + length ci <= Node.slot page j)%nat \/ (Node.slot page j + length cj <= Node.slot page i)%nat
}.

(** ** Accessors *)

Section access.
Context (page : Bytes) (ty : Z) (right prev : PageNo) (cells : list Bytes).
Context (Hn : node_at page ty right prev cells) (i : nat) (c : Bytes) (Hc : cells !! i = Some c).

Lemma node_get_le n o : (o + n <= length c)%nat -> get_le n page (Node.slot page i + o) = get_le n c o.
Proof.
  intros Ho. destruct (na_cells _ _ _ _ _ Hn i c Hc) as (_ & _ & Hs & _).
  rewrite <- Hs at 1. by rewrite get_le_in_sub.
Qed.
Lemma node_get_sub n o : (o + n <= length c)%nat -> sub (Node.slot page i + o) n page = sub o n c.
Proof.
  intros Ho. destruct (na_cells _ _ _ _ _ Hn i c Hc) as (_ & _ & Hs & _).
  rewrite <- Hs at 1. by rewrite sub_sub.
Qed.

Lemma node_cell_ok : cell_ok ty c.
Proof. by destruct (na_cells _ _ _ _ _ Hn i c Hc) as (_ & _ & _ & ?). Qed.

Lemma node_is_leaf : Node.is_leaf page = (ty =? kLeaf).
Proof. unfold Node.is_leaf. by rewrite (na_type _ _ _ _ _ Hn). Qed.

Lemma node_key_len : Node.key_len page i = cell_klen c.
Proof.
  destruct (cell_ok_hdr _ _ node_cell_ok) as [_ Hl].
  unfold Node.key_len, cell_klen, get_u16. rewrite <- (node_get_le 2 0) by lia. by rewrite Nat.add_0_r.
Qed.

Lemma node_key : Node.key page i = cell_key ty c.
Proof.
  destruct (cell_ok_hdr _ _ node_cell_ok) as [Hk _]. unfold Node.key, cell_key.
  rewrite node_key_len, node_is_leaf. unfold cell_hdr in *. by rewrite node_get_sub by lia.
Qed.

Lemma node_overflowed : ty = kLeaf -> Node.overflowed page i = cell_overflowed c.
Proof.
  intros _. destruct (cell_ok_hdr _ _ node_cell_ok) as [_ Hl]. unfold Node.overflowed, cell_overflowed, Node.flags.
  rewrite byte_at_region, (byte_at_region c). by rewrite node_get_sub by lia.
Qed.
Lemma node_value_len : Node.value_len page i = cell_vlen c.
Proof.
  destruct (cell_ok_hdr _ _ node_cell_ok) as [_ Hl]. unfold Node.value_len, cell_vlen, get_u32.
  by rewrite node_get_le by lia.
Qed.

Lemma node_cell_size : Node.cell_size page i = length c.
Proof.
  destruct (cell_ok_hdr _ _ node_cell_ok) as [_ Hl]. destruct node_cell_ok as [_ E]. rewrite E.
  unfold Node.cell_size, cell_len. rewrite node_is_leaf, node_key_len, node_value_len.
  destruct (Z.eqb_spec ty kLeaf); [by rewrite node_overflowed|done].
Qed.

Lemma node_child : ty = kInterior -> Node.child page i = cell_child c.
Proof.
  intros Hty. destruct (cell_ok_hdr _ _ node_cell_ok) as [Hk _]. unfold Node.child, cell_child, get_u64.
  rewrite node_get_le; [done|]. rewrite Hty in Hk. unfold cell_hdr, kInteriorCellHdr in Hk. cbn in Hk. lia.
Qed.

Lemma node_inline : ty = kLeaf -> cell_overflowed c = false -> Node.inline_value page i = cell_inline c.
Proof.
  intros Hty Ho. destruct node_cell_ok as [_ E]. unfold cell_len in E. rewrite Hty, Ho in E. cbn [kLeaf Z.eqb Pos.eqb] in E.
  unfold Node.inline_value, cell_inline. rewrite node_key_len, node_value_len, <- Nat.add_assoc.
  rewrite node_get_sub; [done|]. rewrite E. lia.
Qed.
Lemma node_first : ty = kLeaf -> cell_overflowed c = true -> Node.overflow_page page i = cell_first c.
Proof.
  intros Hty Ho. destruct node_cell_ok as [_ E]. unfold cell_len in E. rewrite Hty, Ho in E. cbn [kLeaf Z.eqb Pos.eqb] in E.
  unfold Node.overflow_page, cell_first, get_u64. rewrite node_key_len, <- Nat.add_assoc.
  rewrite node_get_le; [done|]. rewrite E. lia.
Qed.
End access.

(** ** The links *)

Lemma usable_bounds : 508 <= Z.of_nat (Node.usable psz) <= 65532.
Proof. unfold Node.usable, kPageTrailerBytes. lia. Qed.

Lemma bytes_ok_blit' off src dst : bytes_ok src -> bytes_ok dst -> bytes_ok (blit off src dst).
Proof. auto with archivum. Qed.
Lemma bytes_ok_put n off v p : bytes_ok p -> bytes_ok (blit off (le_bytes n v) p).
Proof. intros. apply bytes_ok_blit'; [apply bytes_ok_le_bytes|done]. Qed.

Lemma node_at_relink page page' ty right prev right' prev' cells :
  node_at page ty right prev cells -> length page' = psz -> bytes_ok page' ->
  Node.type page' = Node.type page -> (forall o n, (2 <= o)%nat -> (o + n <= 8)%nat -> get_le n page' o = get_le n page o) ->
  (forall o n, (24 <= o)%nat -> sub o n page' = sub o n page) ->
  Node.right page' = right' -> Node.prev page' = prev' -> node_at page' ty right' prev' cells.
Proof.
  intros [] Hl Hb Ht Hh Hbody Hr Hp.
  assert (Hs : forall i, Node.slot page' i = Node.slot page i).
  { intros i. unfold Node.slot, get_u16. rewrite get_le_region, (get_le_region 2 page).
    rewrite Hbody by (unfold kHdr; lia). done. }
  assert (Hc : Node.count page' = Node.count page) by (unfold Node.count, get_u16; by rewrite Hh by lia).
  assert (Hst : Node.content_start page' = Node.content_start page)
    by (unfold Node.content_start, get_u16; by rewrite Hh by lia).
  assert (Hf : Node.frag page' = Node.frag page) by (unfold Node.frag, get_u16; by rewrite Hh by lia).
  constructor; rewrite ?Hc, ?Hst, ?Hf; try done; [by rewrite Ht| |].
  - intros i c Hi. rewrite Hs. destruct (na_cells0 i c Hi) as (H1 & H2 & H3 & H4).
    split_and!; [done|done| |done]. rewrite Hbody; [done|]. unfold kHdr in na_start0. lia.
  - intros i j ci cj Hij. rewrite !Hs. by apply na_disjoint0.
Qed.

Lemma set_right_node page ty right prev cells v :
  node_at page ty right prev cells -> u64_ok v -> node_at (Node.set_right page v) ty v prev cells.
Proof.
  intros Hn Hv. pose proof (na_len _ _ _ _ _ Hn) as Hl.
  eapply node_at_relink; [exact Hn|..]; node_unfold.
  - by rewrite length_blit.
  - apply bytes_ok_put, Hn.
  - by regions.
  - intros o n H1 H2. by regions.
  - intros o n H1. by regions.
  - apply get_put_le; [lia|exact Hv].
  - regions. apply Hn.
Qed.
Lemma set_prev_node page ty right prev cells v :
  node_at page ty right prev cells -> u64_ok v -> node_at (Node.set_prev page v) ty right v cells.
Proof.
  intros Hn Hv. pose proof (na_len _ _ _ _ _ Hn) as Hl.
  eapply node_at_relink; [exact Hn|..]; node_unfold.
  - by rewrite length_blit.
  - apply bytes_ok_put, Hn.
  - by regions.
  - intros o n H1 H2. by regions.
  - intros o n H1. by regions.
  - regions. apply Hn.
  - apply get_put_le; [lia|exact Hv].
Qed.

Lemma node_links_ok page ty right prev cells :
  node_at page ty right prev cells -> u64_ok right /\ u64_ok prev.
Proof.
  intros []. subst. split; by apply get_u64_ok.
Qed.

(** The checksum trailer is outside the node. *)
Lemma seal_node page ty right prev cells :
  node_at page ty right prev cells -> node_at (seal_page page) ty right prev cells.
Proof.
  intros Hn. pose proof (na_len _ _ _ _ _ Hn) as Hl. pose proof usable_bounds as Hu. unfold Node.usable, kPageTrailerBytes in Hu.
  assert (Hsub : forall o n, (o + n <= Node.usable psz)%nat -> sub o n (seal_page page) = sub o n page).
  { intros o n Ho. apply sub_seal_page. unfold Node.usable, kPageTrailerBytes in Ho. lia. }
  assert (Hget : forall o n, (o + n <= Node.usable psz)%nat -> get_le n (seal_page page) o = get_le n page o).
  { intros o n Ho. rewrite get_le_region, (get_le_region n page), Hsub by done. done. }
  pose proof Hn as []. unfold kHdr in *.
  assert (Hslot : forall i c, cells !! i = Some c -> Node.slot (seal_page page) i = Node.slot page i).
  { intros i c Hi. apply lookup_lt_Some in Hi. unfold Node.slot, get_u16. rewrite Hget; [done|]. unfold kHdr. lia. }
  assert (Hcs : Node.content_start (seal_page page) = Node.content_start page)
    by (unfold Node.content_start, get_u16; apply Hget; lia).
  constructor; rewrite ?length_seal_page, ?Hcs; try done.
  - by apply bytes_ok_seal_page.
  - rewrite <- na_type0. unfold Node.type. rewrite byte_at_region, (byte_at_region page), Hsub by lia. done.
  - rewrite <- na_right0. unfold Node.right, get_u64. by rewrite Hget by lia.
  - rewrite <- na_prev0. unfold Node.prev, get_u64. by rewrite Hget by lia.
  - rewrite <- na_count0. unfold Node.count, get_u16. by rewrite Hget by lia.
  - rewrite <- na_frag0. unfold Node.frag, get_u16. by rewrite Hget by lia.
  - intros i c Hi. rewrite (Hslot _ _ Hi). destruct (na_cells0 i c Hi) as (? & ? & ? & ?).
    rewrite Hsub by done. done.
  - intros i j ci cj Hij Hi Hj. rewrite (Hslot _ _ Hi), (Hslot _ _ Hj). eauto.
Qed.

(** ** A fresh node *)

Lemma init_node ty : is_byte ty -> node_at (Node.init psz ty) ty 0 0 [].
Proof.
  intros Hty. pose proof usable_bounds as Hu.
  assert (Hz : bytes_ok (replicate psz 0)) by (apply bytes_ok_replicate; unfold is_byte; lia).
  assert (Hlen : length (Node.init psz ty) = psz) by (unfold Node.init; node_unfold; by rewrite !length_blit, length_replicate).
  constructor; try done; unfold Node.init; node_unfold.
  - repeat apply bytes_ok_put. apply bytes_ok_blit'; [apply Forall_cons; split; [exact Hty|constructor]|exact Hz].
  - regions. unfold byte_at, blit. cbn. rewrite length_replicate, take_0. destruct psz as [|n]; [lia|]. done.
  - regions. apply (get_put_le 8); [rewrite ?length_blit, length_replicate; lia|done].
  - apply (get_put_le 8); [rewrite ?length_blit, length_replicate; lia|done].
  - regions. rewrite get_put_le; [done|rewrite ?length_blit, length_replicate; lia|done].
  - regions. rewrite get_put_le; [|rewrite ?length_blit, length_replicate; lia|cbn; lia]. unfold kHdr. cbn. lia.
  - regions. rewrite (get_put_le 2 _ 6); [|rewrite ?length_blit, length_replicate; lia|cbn; lia].
    regions. rewrite get_put_le; [|rewrite ?length_blit, length_replicate; lia|cbn; lia].
    unfold cells_bytes. cbn. lia.
Qed.

(** ** Room *)

Lemma node_free_space page ty right prev cells :
  node_at page ty right prev cells ->
  Node.free_space page = Node.content_start page - Z.of_nat (kHdr + 2 * length cells).
Proof.
  intros []. pose proof usable_bounds. unfold Node.free_space. rewrite na_count0. unfold wrap64.
  rewrite Z.mod_small; lia.
Qed.

Lemma node_fits page ty right prev cells n :
  node_at page ty right prev cells ->
  Node.fits page n = true <-> Z.of_nat (n + 2) + Z.of_nat (kHdr + 2 * length cells) <= Node.content_start page.
Proof.
  intros Hn. unfold Node.fits. rewrite (node_free_space _ _ _ _ _ Hn), Z.leb_le. lia.
Qed.
(** In terms of what the node holds. *)
Lemma node_fits_after page ty right prev cells n :
  node_at page ty right prev cells ->
  Node.fits_after_defrag page n = true
  <-> (n + 2 + kHdr + 2 * length cells + cells_bytes cells <= Node.usable psz)%nat.
Proof.
  intros Hn. unfold Node.fits_after_defrag. rewrite (node_free_space _ _ _ _ _ Hn), Z.leb_le.
  pose proof (na_frag _ _ _ _ _ Hn). pose proof (na_start _ _ _ _ _ Hn). pose proof usable_bounds.
  assert (0 <= Node.frag page) by (apply get_u16_ok, Hn). unfold wrap64. rewrite Z.mod_small; lia.
Qed.
Lemma node_room page ty right prev cells :
  node_at page ty right prev cells ->
  (kHdr + 2 * length cells + cells_bytes cells <= Node.usable psz)%nat.
Proof.
  intros Hn. pose proof (na_frag _ _ _ _ _ Hn). pose proof (na_start _ _ _ _ _ Hn).
  assert (0 <= Node.frag page) by (apply get_u16_ok, Hn). lia.
Qed.

Lemma cells_bytes_app a b : cells_bytes (a ++ b) = (cells_bytes a + cells_bytes b)%nat.
Proof. unfold cells_bytes. rewrite map_app. induction a; cbn; lia. Qed.
Lemma cells_bytes_cons c l : cells_bytes (c :: l) = (length c + cells_bytes l)%nat.
Proof. done. Qed.
Lemma cells_bytes_take_drop n l : (cells_bytes (take n l) + cells_bytes (drop n l) = cells_bytes l)%nat.
Proof. by rewrite <- cells_bytes_app, take_drop. Qed.
Lemma cells_bytes_lookup l i c : l !! i = Some c -> (length c <= cells_bytes l)%nat.
Proof.
  revert i. induction l as [|x l IH]; intros [|i] Hi; try done; rewrite cells_bytes_cons.
  - injection Hi as ->. lia.
  - specialize (IH i Hi). lia.
Qed.

(** ** Inserting a cell *)

Lemma lookup_inserted {A} (l : list A) at_ x i :
  (at_ <= length l)%nat ->
  (take at_ l ++ x :: drop at_ l) !! i
  = if (i <? at_)%nat then l !! i else if (i =? at_)%nat then Some x else l !! (i - 1)%nat.
Proof.
  intros Ha. destruct (Nat.ltb_spec i at_).
  - rewrite lookup_app_l by (rewrite length_take; lia). by rewrite lookup_take_lt by lia.
  - rewrite lookup_app_r by (rewrite length_take; lia). rewrite length_take, Nat.min_l by lia.
    destruct (Nat.eqb_spec i at_) as [->|]; [by rewrite Nat.sub_diag|].
    destruct (i - at_)%nat as [|k] eqn:E; [lia|].
    change ((x :: drop at_ l) !! S k) with (drop at_ l !! k). rewrite lookup_drop. f_equal. lia.
Qed.

Section insert.
Context (page : Bytes) (ty : Z) (right prev : PageNo) (cells : list Bytes) (at_ : nat) (c : Bytes).
Context (Hn : node_at page ty right prev cells) (Hat : (at_ <= length cells)%nat) (Hc : cell_ok ty c).
Context (Hfit : Z.of_nat (length c + 2) + Z.of_nat (kHdr + 2 * length cells) <= Node.content_start page).

Let n := length cells.
Let off := Node.content_start page - Z.of_nat (length c).
Let P := Node.insert_cell page at_ c.

Lemma insert_off : wrap16 off = off /\ (kHdr + 2 * n + 2 <= Z.to_nat off)%nat /\ (Z.to_nat off + length c <= Node.usable psz)%nat.
Proof.
  pose proof usable_bounds. pose proof (na_start _ _ _ _ _ Hn) as Hs. unfold off, n, kHdr in *.
  split; [|split; lia]. unfold wrap16. apply Z.mod_small. lia.
Qed.

Let p1 := blit (Z.to_nat off) c page.
Let p2 := blit (kHdr + 2 * (at_ + 1)) (sub (kHdr + 2 * at_) (2 * (n - at_)) p1) p1.

Lemma insert_eq : P = Node.set_content_start (Node.set_count (Node.set_slot p2 at_ off) (n + 1)) off.
Proof.
  unfold P, Node.insert_cell. rewrite (na_count _ _ _ _ _ Hn). fold n off. by rewrite (proj1 insert_off).
Qed.

Lemma insert_lengths : length p1 = psz /\ length p2 = psz.
Proof. unfold p2, p1. by rewrite !length_blit, (na_len _ _ _ _ _ Hn). Qed.

Lemma insert_src : length (sub (kHdr + 2 * at_) (2 * (n - at_)) p1) = (2 * (n - at_))%nat.
Proof.
  destruct insert_lengths as [E _]. destruct insert_off as (_ & Ho1 & Ho2). pose proof usable_bounds as Hu.
  unfold Node.usable, kHdr in *. rewrite length_sub, E. lia.
Qed.

Lemma insert_slot i : (i <= n)%nat ->
  Node.slot P i = if (i <? at_)%nat then Node.slot page i
                  else if (i =? at_)%nat then Z.to_nat off else Node.slot page (i - 1).
Proof.
  intros Hi. destruct insert_off as (_ & Ho1 & Ho2). destruct insert_lengths as [L1 L2].
  pose proof insert_src as Hsrc. pose proof usable_bounds as Hu. unfold Node.usable in *. fold n in Hat.
  rewrite insert_eq. unfold Node.slot, Node.set_content_start, Node.set_count, Node.set_slot, get_u16, put_u16, kHdr in *.
  rewrite get_le_blit_after by region_side. rewrite get_le_blit_after by region_side.
  destruct (Nat.ltb_spec i at_).
  - unfold p2, p1, kHdr. by regions.
  - destruct (Nat.eqb_spec i at_) as [->|].
    + rewrite get_put_le; [done|lia|]. cbn. lia.
    + rewrite get_le_blit_after by region_side. unfold p2. unfold kHdr.
      rewrite get_le_blit_inside by (rewrite ?Hsrc; lia).
      rewrite get_le_in_sub by lia. unfold p1. rewrite get_le_blit_before by lia. f_equal. f_equal. lia.
Qed.

Lemma insert_body o m : (kHdr + 2 * n + 2 <= o)%nat -> sub o m P = sub o m p1.
Proof.
  intros Ho. rewrite insert_eq. pose proof insert_src as Hsrc. fold n in Hat.
  unfold Node.set_content_start, Node.set_count, Node.set_slot, put_u16, p2, kHdr in *.
  rewrite sub_blit_after by region_side. rewrite sub_blit_after by region_side. rewrite sub_blit_after by region_side.
  rewrite sub_blit_after; [done|]. rewrite Hsrc. lia.
Qed.

Lemma insert_header m o : (8 <= o)%nat -> (o + m <= 24)%nat -> get_le m P o = get_le m page o.
Proof.
  intros H1 H2. rewrite insert_eq. destruct insert_off as (_ & Ho1 & _).
  unfold Node.set_content_start, Node.set_count, Node.set_slot, put_u16, p2, p1, kHdr in *. by regions.
Qed.

Lemma insert_cell_node :
  node_at P ty right prev (take at_ cells ++ c :: drop at_ cells)
  /\ Node.content_start P = off.
Proof.
  destruct insert_off as (Hw & Ho1 & Ho2). destruct insert_lengths as [L1 L2]. pose proof usable_bounds as Hu.
  pose proof Hn as []. fold n in na_count0, na_start0, Hat, Hfit.
  assert (Hlen : length P = psz).
  { rewrite insert_eq. unfold Node.set_content_start, Node.set_count, Node.set_slot, put_u16. by rewrite !length_blit. }
  assert (Hlen' : length (take at_ cells ++ c :: drop at_ cells) = (n + 1)%nat).
  { rewrite length_app, length_take. cbn [length]. rewrite length_drop. unfold n in *. lia. }
  assert (Hoff : 0 <= off < 65536) by (unfold off, Node.usable, kHdr in *; lia).
  assert (Hcs : Node.content_start P = off).
  { rewrite insert_eq. unfold Node.content_start, Node.set_content_start, get_u16, put_u16.
    apply (get_put_le 2); [unfold Node.set_count, Node.set_slot, put_u16; rewrite !length_blit; lia|cbn; lia]. }
  split; [|done].
  assert (Hcount : Node.count P = (n + 1)%nat).
  { rewrite insert_eq. unfold Node.count, Node.set_content_start, Node.set_count, get_u16, put_u16.
    rewrite get_le_blit_before by region_side. rewrite get_put_le;
      [lia|unfold Node.set_slot, put_u16; rewrite length_blit; lia|unfold Node.usable, kHdr in *; cbn; lia]. }
  assert (Hfrag : Node.frag P = Node.frag page).
  { rewrite insert_eq. unfold Node.frag, Node.set_content_start, Node.set_count, Node.set_slot, get_u16, put_u16, p2, p1, kHdr.
    unfold kHdr in *. by regions. }
  constructor; rewrite ?Hlen', ?Hcs, ?Hfrag; try done.
  - rewrite insert_eq. unfold Node.set_content_start, Node.set_count, Node.set_slot, put_u16, p2, p1.
    repeat apply bytes_ok_put. apply bytes_ok_blit'; [apply bytes_ok_sub|]; (apply bytes_ok_blit'; [apply Hc|done]).
  - rewrite insert_eq. unfold Node.type, Node.set_content_start, Node.set_count, Node.set_slot, put_u16, p2, p1, kHdr in *.
    regions. done.
  - unfold Node.right, get_u64. by rewrite insert_header by lia.
  - unfold Node.prev, get_u64. by rewrite insert_header by lia.
  - unfold kHdr in *. lia.
  - rewrite cells_bytes_app, cells_bytes_cons. pose proof (cells_bytes_take_drop at_ cells). unfold off. lia.
  - intros i x Hi. pose proof (lookup_lt_Some _ _ _ Hi) as Hlt. rewrite Hlen' in Hlt.
    rewrite insert_slot by lia. rewrite lookup_inserted in Hi by done.
    destruct (Nat.ltb_spec i at_); [|destruct (Nat.eqb_spec i at_)].
    1,3: destruct (na_cells0 _ _ Hi) as (H1 & H2 & H3 & H4); split_and!; [unfold off; lia|done| |done];
      rewrite insert_body by (unfold off, kHdr in *; lia); unfold p1; rewrite sub_blit_after by (unfold off in *; lia); done.
    injection Hi as <-. split_and!; [lia|done| |done].
    rewrite insert_body by lia. unfold p1. apply sub_blit_same; [done|]. unfold Node.usable in *. lia.
  - intros i j ci cj Hij Hi Hj. pose proof (lookup_lt_Some _ _ _ Hi). pose proof (lookup_lt_Some _ _ _ Hj).
    rewrite !insert_slot by lia. rewrite lookup_inserted in Hi, Hj by done.
    destruct (Nat.ltb_spec i at_); [|destruct (Nat.eqb_spec i at_)];
      (destruct (Nat.ltb_spec j at_); [|destruct (Nat.eqb_spec j at_)]); try lia;
      try (eapply na_disjoint0; [|done|done]; lia); simplify_eq.
    all: match goal with
         | H : cells !! _ = Some _ |- _ => destruct (na_cells0 _ _ H) as (? & _); lia
         end.
Qed.
End insert.

(** ** Removing a cell *)

Section remove.
Context (page : Bytes) (ty : Z) (right prev : PageNo) (cells : list Bytes) (at_ : nat) (c : Bytes).
Context (Hn : node_at page ty right prev cells) (Hc : cells !! at_ = Some c).

Let n := length cells.
Let q := Node.set_frag page (Node.frag page + Z.of_nat (length c)).
Let q1 := blit (kHdr + 2 * at_) (sub (kHdr + 2 * (at_ + 1)) (2 * (n - at_ - 1)) q) q.
Let P := Node.remove_cell page at_.

Lemma remove_facts : (at_ < n)%nat /\ 0 <= Node.frag page /\ Node.frag page + Z.of_nat (length c) < 65536
  /\ (kHdr + 2 * n + cells_bytes cells <= Node.usable psz)%nat.
Proof.
  pose proof (lookup_lt_Some _ _ _ Hc). pose proof (node_room _ _ _ _ _ Hn). pose proof usable_bounds.
  pose proof (na_frag _ _ _ _ _ Hn). pose proof (na_start _ _ _ _ _ Hn). pose proof (cells_bytes_lookup _ _ _ Hc).
  assert (0 <= Node.frag page) by (apply get_u16_ok, Hn). unfold n. lia.
Qed.

Lemma remove_eq : P = Node.set_count q1 (n - 1).
Proof.
  destruct remove_facts as (_ & H1 & H2 & _).
  unfold P, Node.remove_cell. rewrite (na_count _ _ _ _ _ Hn), (node_cell_size _ _ _ _ _ Hn _ _ Hc). fold n.
  unfold wrap16. rewrite Z.mod_small by lia. done.
Qed.

Lemma remove_src : length q = psz /\ length (sub (kHdr + 2 * (at_ + 1)) (2 * (n - at_ - 1)) q) = (2 * (n - at_ - 1))%nat.
Proof.
  assert (E : length q = psz) by (unfold q, Node.set_frag, put_u16; by rewrite length_blit, (na_len _ _ _ _ _ Hn)).
  split; [done|]. destruct remove_facts as (H1 & _ & _ & H4). unfold Node.usable, kHdr in *.
  rewrite length_sub, E. lia.
Qed.

Lemma remove_slot i : (i < n - 1)%nat ->
  Node.slot P i = if (i <? at_)%nat then Node.slot page i else Node.slot page (S i).
Proof.
  intros Hi. destruct remove_src as [L1 L2]. destruct remove_facts as (H1 & _ & _ & H4).
  rewrite remove_eq. unfold Node.slot, Node.set_count, get_u16, put_u16, q1, kHdr, Node.usable in *.
  rewrite get_le_blit_after by region_side.
  destruct (Nat.ltb_spec i at_).
  - rewrite get_le_blit_before by lia. unfold q, Node.set_frag, put_u16. by regions.
  - rewrite get_le_blit_inside by (rewrite ?L2; lia). rewrite get_le_in_sub by lia.
    unfold q, Node.set_frag, put_u16. regions. do 2 f_equal. lia.
Qed.

Lemma remove_body o m : (kHdr + 2 * n <= o)%nat -> sub o m P = sub o m page.
Proof.
  intros Ho. destruct remove_src as [_ L2]. destruct remove_facts as (H1 & _).
  rewrite remove_eq. unfold Node.set_count, put_u16, q1, kHdr in *.
  rewrite sub_blit_after by region_side. rewrite sub_blit_after by lia.
  unfold q, Node.set_frag, put_u16. by regions.
Qed.

Lemma remove_cell_node :
  node_at P ty right prev (take at_ cells ++ drop (S at_) cells)
  /\ Node.content_start P = Node.content_start page.
Proof.
  destruct remove_facts as (H1 & H2 & H3 & H4). destruct remove_src as [L1 L2]. pose proof usable_bounds as Hu.
  pose proof Hn as []. fold n in na_count0, na_start0.
  assert (Hlen' : length (take at_ cells ++ drop (S at_) cells) = (n - 1)%nat).
  { rewrite length_app, length_take, length_drop. unfold n in *. lia. }
  assert (Hdel : take at_ cells ++ drop (S at_) cells = delete at_ cells) by (by rewrite delete_take_drop).
  assert (Hcs : Node.content_start P = Node.content_start page).
  { rewrite remove_eq. unfold Node.content_start, Node.set_count, q1, q, Node.set_frag, get_u16, put_u16, kHdr. by regions. }
  split; [|done].
  assert (Hcount : Node.count P = (n - 1)%nat).
  { rewrite remove_eq. unfold Node.count, Node.set_count, get_u16, put_u16.
    rewrite get_put_le; [lia|unfold q1; rewrite length_blit; lia|unfold Node.usable, kHdr in *; cbn; lia]. }
  assert (Hfrag : Node.frag P = Node.frag page + Z.of_nat (length c)).
  { rewrite remove_eq. unfold Node.frag, Node.set_count, q1, q, Node.set_frag, get_u16, put_u16, kHdr. regions.
    apply (get_put_le 2); [rewrite (na_len _ _ _ _ _ Hn); lia|].
    change (256 ^ Z.of_nat 2) with 65536. unfold Node.frag, get_u16 in *. lia. }
  assert (Hbytes : (cells_bytes (take at_ cells ++ drop (S at_) cells) + length c = cells_bytes cells)%nat).
  { rewrite cells_bytes_app. rewrite <- (cells_bytes_take_drop at_ cells), (drop_S _ _ _ Hc), cells_bytes_cons. lia. }
  assert (Hlook : forall i x, (take at_ cells ++ drop (S at_) cells) !! i = Some x ->
            cells !! (if (i <? at_)%nat then i else S i) = Some x).
  { intros i x Hi. rewrite Hdel in Hi. destruct (Nat.ltb_spec i at_).
    - by rewrite list_lookup_delete_lt in Hi.
    - by rewrite list_lookup_delete_ge in Hi. }
  constructor; rewrite ?Hlen', ?Hcs, ?Hfrag; try done.
  - rewrite remove_eq. unfold P, Node.set_count, put_u16, q1. rewrite length_blit, length_blit. done.
  - rewrite remove_eq. unfold Node.set_count, q1, q, Node.set_frag, put_u16. apply bytes_ok_put.
    apply bytes_ok_blit'; [apply bytes_ok_sub|]; by apply bytes_ok_put.
  - rewrite remove_eq. unfold Node.type, Node.set_count, q1, q, Node.set_frag, put_u16, kHdr. by regions.
  - rewrite remove_eq. unfold Node.right, Node.set_count, q1, q, Node.set_frag, get_u64, put_u16, kHdr. by regions.
  - rewrite remove_eq. unfold Node.prev, Node.set_count, q1, q, Node.set_frag, get_u64, put_u16, kHdr. by regions.
  - lia.
  - lia.
  - intros i x Hi. pose proof (lookup_lt_Some _ _ _ Hi) as Hlt. rewrite Hlen' in Hlt. apply Hlook in Hi.
    rewrite remove_slot by lia. assert (Hs : (if (i <? at_)%nat then Node.slot page i else Node.slot page (S i))
      = Node.slot page (if (i <? at_)%nat then i else S i)) by (by destruct (i <? at_)%nat).
    rewrite Hs. destruct (na_cells0 _ _ Hi) as (? & ? & ? & ?). split_and!; try done.
    rewrite remove_body; [done|]. unfold kHdr in *. lia.
  - intros i j ci cj Hij Hi Hj. pose proof (lookup_lt_Some _ _ _ Hi). pose proof (lookup_lt_Some _ _ _ Hj).
    apply Hlook in Hi, Hj. rewrite !remove_slot by lia.
    destruct (Nat.ltb_spec i at_), (Nat.ltb_spec j at_); (eapply na_disjoint0; [|done|done]; lia).
Qed.
End remove.

(** ** Compaction *)

Lemma pack_cells_spec page ty right prev cells :
  node_at page ty right prev cells ->
  forall cs i scratch off, drop i cells = cs -> (cells_bytes cs <= off <= length scratch)%nat ->
  exists scratch' offs, Node.pack_cells page scratch i (length cs) off = (scratch', offs, (off - cells_bytes cs)%nat)
    /\ length scratch' = length scratch /\ length offs = length cs
    /\ (bytes_ok scratch -> bytes_ok scratch')
    /\ (forall m, (off <= m)%nat -> drop m scratch' = drop m scratch)
    /\ forall j c, cs !! j = Some c ->
         offs !! j = Some (off - cells_bytes (take (S j) cs))%nat
         /\ sub (off - cells_bytes (take (S j) cs)) (length c) scratch' = c.
Proof.
  intros Hn. induction cs as [|c cs IH]; intros i scratch off Hd Hoff.
  { exists scratch, []. rewrite Nat.sub_0_r. split_and!; done. }
  rewrite cells_bytes_cons in Hoff.
  assert (Hc : cells !! i = Some c) by (rewrite <- (Nat.add_0_r i), <- lookup_drop, Hd; done).
  assert (Hd' : drop (S i) cells = cs) by (rewrite (drop_S _ _ _ Hc) in Hd; by injection Hd).
  cbn [length Node.pack_cells]. rewrite (node_cell_size _ _ _ _ _ Hn _ _ Hc).
  assert (Hcell : sub (Node.slot page i) (length c) page = c) by apply (na_cells _ _ _ _ _ Hn _ _ Hc).
  rewrite Hcell. set (s1 := blit (off - length c) c scratch).
  destruct (IH (S i) s1 (off - length c)%nat Hd') as (scratch' & offs & E & L1 & L2 & Hb & Hkeep & Hcells).
  { unfold s1. rewrite length_blit. lia. }
  rewrite E. exists scratch', ((off - length c)%nat :: offs). rewrite cells_bytes_cons.
  split; [f_equal; lia|]. split; [by rewrite L1; unfold s1; rewrite length_blit|].
  split; [cbn; lia|]. split; [|split].
  - intros Hs. apply Hb, bytes_ok_blit'; [|done]. apply (node_cell_ok _ _ _ _ _ Hn _ _ Hc).
  - intros m Hm. rewrite Hkeep by lia. unfold s1. rewrite drop_blit by lia. done.
  - intros [|j] x Hj.
    + injection Hj as <-. cbn [take]. rewrite cells_bytes_cons. change (cells_bytes []) with 0%nat. rewrite Nat.add_0_r.
      split; [done|]. unfold sub. rewrite Hkeep by lia. change (sub (off - length c) (length c) s1 = c).
      unfold s1. apply sub_blit_same; [done|]. lia.
    + cbn [take]. rewrite cells_bytes_cons. destruct (Hcells j x Hj) as [H1 H2].
      replace (off - (length c + cells_bytes (take (S j) cs)))%nat
        with (off - length c - cells_bytes (take (S j) cs))%nat by lia.
      done.
Qed.

Lemma store_slots_spec offs : forall p i, (kHdr + 2 * (i + length offs) <= length p)%nat ->
  Forall (fun o => Z.of_nat o < 65536) offs ->
  let p' := Node.store_slots p i offs in
  length p' = length p /\ (bytes_ok p -> bytes_ok p')
  /\ (forall o n, (o + n <= kHdr + 2 * i \/ kHdr + 2 * (i + length offs) <= o)%nat -> sub o n p' = sub o n p)
  /\ forall j o, offs !! j = Some o -> Node.slot p' (i + j) = o.
Proof.
  induction offs as [|x offs IH]; intros p i Hl Hall; cbn [Node.store_slots]; [by split_and!|].
  apply Forall_cons in Hall as [Hx Hall]. cbn [length] in Hl.
  assert (L : length (Node.set_slot p i (Z.of_nat x)) = length p) by (unfold Node.set_slot, put_u16; by rewrite length_blit).
  destruct (IH (Node.set_slot p i (Z.of_nat x)) (S i)) as (H1 & H2 & H3 & H4); [rewrite L; lia|done|].
  cbv zeta. split_and!.
  - by rewrite H1.
  - intros Hb. apply H2. by apply bytes_ok_put.
  - intros o n Ho. cbn [length] in Ho. rewrite H3 by lia. unfold Node.set_slot, put_u16.
    destruct Ho; [by rewrite sub_blit_before by lia|]. rewrite sub_blit_after by (rewrite length_le_bytes; lia). done.
  - intros [|j] o Hj.
    + injection Hj as <-. rewrite Nat.add_0_r. unfold Node.slot, get_u16.
      rewrite get_le_region, H3 by lia. rewrite <- get_le_region. unfold Node.set_slot, put_u16.
      rewrite get_put_le; [lia|lia|cbn; lia].
    + replace (i + S j)%nat with (S i + j)%nat by lia. by apply H4.
Qed.

Lemma cells_bytes_take_le n l : (cells_bytes (take n l) <= cells_bytes l)%nat.
Proof. pose proof (cells_bytes_take_drop n l). lia. Qed.
Lemma cells_bytes_take_mono i j l : (i <= j)%nat -> (cells_bytes (take i l) <= cells_bytes (take j l))%nat.
Proof. intros. rewrite <- (Nat.min_l i j), <- take_take by done. apply cells_bytes_take_le. Qed.
Lemma cells_bytes_take_S i l c : l !! i = Some c -> cells_bytes (take (S i) l) = (cells_bytes (take i l) + length c)%nat.
Proof. intros Hi. rewrite (take_S_r _ _ _ Hi), cells_bytes_app. unfold cells_bytes at 2. cbn. lia. Qed.

Lemma defragment_node page ty right prev cells :
  node_at page ty right prev cells ->
  node_at (Node.defragment psz page) ty right prev cells
  /\ Node.content_start (Node.defragment psz page) = Z.of_nat (Node.usable psz) - Z.of_nat (cells_bytes cells).
Proof.
  intros Hn. pose proof usable_bounds as Hu. pose proof (node_room _ _ _ _ _ Hn) as Hroom. pose proof Hn as [].
  set (u := Node.usable psz) in *.
  destruct (pack_cells_spec _ _ _ _ _ Hn cells 0%nat (replicate u 0) u) as (sc & offs & E & L1 & L2 & Hb & _ & Hcells);
    [done|rewrite length_replicate; unfold kHdr in *; lia|].
  rewrite length_replicate in L1. unfold Node.defragment. fold u. rewrite na_count0, E.
  set (last_ := (u - cells_bytes cells)%nat) in *.
  set (p1 := blit last_ (drop last_ sc) page).
  assert (Lp1 : length p1 = psz) by (unfold p1; by rewrite length_blit).
  assert (Hub : (u + 4 = psz)%nat) by (unfold u, Node.usable, kPageTrailerBytes; lia).
  assert (Hld : length (drop last_ sc) = (u - last_)%nat) by (by rewrite length_drop, L1).
  assert (Hoffs : Forall (fun o => Z.of_nat o < 65536) offs).
  { apply Forall_lookup. intros j o Hj. destruct (lookup_lt_is_Some_2 cells j) as [c Hc]; [rewrite <- L2; by eapply lookup_lt_Some|].
    destruct (Hcells j c Hc) as [H1 _]. rewrite Hj in H1. injection H1 as ->. lia. }
  destruct (store_slots_spec offs p1 0) as (S1 & S2 & S3 & S4); [rewrite Lp1, L2; unfold kHdr in *; lia|done|].
  rewrite L2, Nat.add_0_l in S3. cbn [Nat.add] in S4. unfold kHdr in *.
  set (p2 := Node.store_slots p1 0 offs) in *.
  set (P := Node.set_frag (Node.set_content_start p2 (Z.of_nat last_)) 0).
  assert (HP : forall o n, (8 <= o)%nat -> sub o n P = sub o n p2).
  { intros o n Ho. unfold P, Node.set_frag, Node.set_content_start, put_u16. by regions. }
  assert (HP4 : forall o n, (o + n <= 4)%nat -> sub o n P = sub o n p2).
  { intros o n Ho. unfold P, Node.set_frag, Node.set_content_start, put_u16. by regions. }
  assert (Hp1 : forall o n, (o + n <= last_)%nat -> sub o n p1 = sub o n page).
  { intros o n Ho. unfold p1. by rewrite sub_blit_before. }
  assert (Hhead : forall o n, (o + n <= 4 \/ 8 <= o /\ o + n <= 24)%nat -> sub o n P = sub o n page).
  { intros o n Ho. destruct Ho; [rewrite HP4 by lia|rewrite HP by lia]; rewrite S3 by lia; apply Hp1; lia. }
  assert (Hcs : Node.content_start P = Z.of_nat last_).
  { unfold P, Node.content_start, Node.set_frag, Node.set_content_start, get_u16, put_u16. regions.
    apply (get_put_le 2); [lia|]. change (256 ^ Z.of_nat 2) with 65536. lia. }
  assert (Hfr : Node.frag P = 0).
  { unfold P, Node.frag, Node.set_frag, get_u16, put_u16. apply (get_put_le 2); [|done].
    unfold Node.set_content_start, put_u16. rewrite length_blit. lia. }
  assert (Hslot : forall j c, cells !! j = Some c -> Node.slot P j = (u - cells_bytes (take (S j) cells))%nat).
  { intros j c Hj. destruct (Hcells j c Hj) as [Ho _]. apply S4 in Ho. rewrite <- Ho.
    unfold Node.slot, get_u16. rewrite get_le_region, HP by (unfold kHdr; lia). by rewrite <- get_le_region. }
  split; [|rewrite Hcs; lia].
  constructor; rewrite ?Hcs, ?Hfr; try done.
  - unfold P, Node.set_frag, Node.set_content_start, put_u16. rewrite !length_blit. lia.
  - unfold P, Node.set_frag, Node.set_content_start, put_u16. do 2 apply bytes_ok_put. apply S2, bytes_ok_blit'; [|done].
    apply bytes_ok_drop, Hb, bytes_ok_replicate. unfold is_byte. lia.
  - rewrite <- na_type0. unfold Node.type. rewrite byte_at_region, (byte_at_region page), Hhead by lia. done.
  - rewrite <- na_right0. unfold Node.right, get_u64. rewrite get_le_region, (get_le_region 8 page), Hhead by lia. done.
  - rewrite <- na_prev0. unfold Node.prev, get_u64. rewrite get_le_region, (get_le_region 8 page), Hhead by lia. done.
  - rewrite <- na_count0. unfold Node.count, get_u16. rewrite get_le_region, (get_le_region 2 page), Hhead by lia. done.
  - unfold kHdr. lia.
  - lia.
  - intros j c Hj. rewrite (Hslot j c Hj). pose proof (cells_bytes_take_le (S j) cells).
    pose proof (cells_bytes_take_S _ _ _ Hj). destruct (na_cells0 j c Hj) as (_ & _ & _ & Hok).
    split_and!; [lia|lia| |done]. destruct (Hcells j c Hj) as [_ Hsc]. rewrite HP by lia. rewrite S3 by lia.
    unfold p1. rewrite sub_blit_inside by (rewrite ?Hld; lia).
    unfold sub. rewrite drop_drop. replace (last_ + (u - cells_bytes (take (S j) cells) - last_))%nat
      with (u - cells_bytes (take (S j) cells))%nat by lia. exact Hsc.
  - intros i j ci cj Hij Hi Hj. rewrite (Hslot i ci Hi), (Hslot j cj Hj).
    pose proof (cells_bytes_take_S _ _ _ Hi). pose proof (cells_bytes_take_S _ _ _ Hj).
    pose proof (cells_bytes_take_le (S i) cells). pose proof (cells_bytes_take_le (S j) cells).
    destruct (decide (i < j)%nat).
    + right. pose proof (cells_bytes_take_mono (S i) j cells). lia.
    + left. pose proof (cells_bytes_take_mono (S j) i cells). lia.
Qed.

(** ** Replacing the child of a cell *)

Lemma set_child_node page right prev cells i c v :
  node_at page kInterior right prev cells -> cells !! i = Some c -> u64_ok v ->
  node_at (Node.set_child page i v) kInterior right prev (<[i := put_u64 c 2 v]> cells).
Proof.
  intros Hn Hc Hv. pose proof (node_cell_ok _ _ _ _ _ Hn _ _ Hc) as Hok.
  destruct (cell_ok_hdr _ _ Hok) as [Hh _]. unfold cell_hdr in Hh. cbn in Hh. unfold kInteriorCellHdr in Hh.
  destruct (na_cells _ _ _ _ _ Hn i c Hc) as (Hs1 & Hs2 & Hs3 & _).
  pose proof Hn as []. set (off := Node.slot page i) in *. set (P := Node.set_child page i v).
  unfold kHdr in *. pose proof (lookup_lt_Some _ _ _ Hc) as Hi.
  assert (HP : forall o n, (o + n <= off + 2 \/ off + 10 <= o)%nat -> sub o n P = sub o n page).
  { intros o n Ho. unfold P, Node.set_child, put_u64. fold off. destruct Ho; by regions. }
  assert (Hget : forall o n, (o + n <= off + 2)%nat -> get_le n P o = get_le n page o).
  { intros o n Ho. rewrite get_le_region, (get_le_region n page), HP by lia. done. }
  assert (Hslot : forall j x, cells !! j = Some x -> Node.slot P j = Node.slot page j).
  { intros j x Hj. apply lookup_lt_Some in Hj. unfold Node.slot, get_u16. rewrite Hget; [done|]. unfold kHdr. lia. }
  assert (Hcs : Node.content_start P = Node.content_start page) by (unfold Node.content_start, get_u16; apply Hget; lia).
  assert (Hlenc : length (put_u64 c 2 v) = length c) by (unfold put_u64; by rewrite length_blit).
  assert (Hcb : cells_bytes (<[i:=put_u64 c 2 v]> cells) = cells_bytes cells).
  { rewrite insert_take_drop by done. rewrite <- (take_drop_middle cells i c Hc) at 3.
    rewrite !cells_bytes_app, !cells_bytes_cons. lia. }
  assert (Hnew : cell_ok kInterior (put_u64 c 2 v)).
  { destruct Hok as [Hb E]. split; [by apply bytes_ok_put|]. rewrite Hlenc, E. unfold cell_len, cell_klen, get_u16, put_u64.
    cbn [kInterior kLeaf Z.eqb]. by regions. }
  assert (Hlk : forall j x, <[i:=put_u64 c 2 v]> cells !! j = Some x ->
            exists y, cells !! j = Some y /\ length y = length x /\ (j = i /\ x = put_u64 c 2 v \/ j <> i /\ x = y)).
  { intros j x Hj. destruct (decide (j = i)) as [->|].
    - rewrite list_lookup_insert_eq in Hj by done. injection Hj as <-. exists c. rewrite Hlenc. auto.
    - rewrite list_lookup_insert_ne in Hj by done. exists x. auto. }
  constructor; rewrite ?length_insert, ?Hcs, ?Hcb; try done.
  - unfold P, Node.set_child, put_u64. by rewrite length_blit.
  - by apply bytes_ok_put.
  - unfold Node.type. rewrite byte_at_region, HP by lia. by rewrite <- byte_at_region.
  - unfold Node.right, get_u64. rewrite Hget by lia. done.
  - unfold Node.prev, get_u64. rewrite Hget by lia. done.
  - unfold Node.count, get_u16. rewrite Hget by lia. done.
  - unfold Node.frag, get_u16. rewrite Hget by lia. done.
  - intros j x Hj. destruct (Hlk j x Hj) as (y & Hy & Hl & Hx). rewrite (Hslot _ _ Hy), <- Hl.
    destruct (na_cells0 j y Hy) as (H1 & H2 & H3 & H4). split_and!; [done|done| |by destruct Hx as [[_ ->]|[_ ->]]].
    destruct Hx as [[-> ->]|[Hne ->]].
    + fold off. assert (y = c) as -> by congruence. unfold P, Node.set_child. fold off.
      transitivity (put_u64 (sub off (length c) page) 2 v); [|by rewrite Hs3].
      unfold put_u64. apply sub_blit_commute; rewrite ?length_le_bytes; [lia|]. unfold Node.usable in *. lia.
    + rewrite HP; [done|]. destruct (na_disjoint0 j i y c Hne Hy Hc) as [H|H]; fold off in H; lia.
  - intros j k cj ck Hjk Hj Hk. destruct (Hlk j cj Hj) as (y & Hy & Hl & _), (Hlk k ck Hk) as (z & Hz & Hl' & _).
    rewrite (Hslot _ _ Hy), (Hslot _ _ Hz), <- Hl, <- Hl'. eauto.
Qed.

(** ** Filling a node *)

Definition slots_bytes (cells : list Bytes) : nat := (2 * length cells + cells_bytes cells)%nat.

Lemma slots_bytes_app a b : slots_bytes (a ++ b) = (slots_bytes a + slots_bytes b)%nat.
Proof. unfold slots_bytes. rewrite length_app, cells_bytes_app. lia. Qed.

(** What keeps the slots and the cells of a node together. *)
Definition packed (page : Bytes) (cells : list Bytes) : Prop :=
  Node.content_start page = Z.of_nat (Node.usable psz) - Z.of_nat (cells_bytes cells).

Lemma insert_cells_node cells : forall page ty right prev done_,
  node_at page ty right prev done_ -> packed page done_ -> Forall (cell_ok ty) cells ->
  (kHdr + slots_bytes (done_ ++ cells) <= Node.usable psz)%nat ->
  node_at (insert_cells page (length done_) cells) ty right prev (done_ ++ cells)
  /\ packed (insert_cells page (length done_) cells) (done_ ++ cells).
Proof.
  induction cells as [|c cells IH]; intros page ty right prev done_ Hn Hp Hok Hroom.
  { rewrite app_nil_r. done. }
  apply Forall_cons in Hok as [Hc Hok]. cbn [insert_cells].
  rewrite slots_bytes_app in Hroom. unfold slots_bytes in Hroom. rewrite cells_bytes_cons in Hroom. cbn [length] in Hroom.
  destruct (insert_cell_node page ty right prev done_ (length done_) c Hn ltac:(lia) Hc) as [Hn' Hcs].
  { rewrite Hp. lia. }
  rewrite take_ge, drop_ge in Hn' by lia.
  assert (Hp' : packed (Node.insert_cell page (length done_) c) (done_ ++ [c])).
  { unfold packed. rewrite Hcs, Hp, cells_bytes_app, cells_bytes_cons. change (cells_bytes []) with 0%nat. lia. }
  assert (E : S (length done_) = length (done_ ++ [c])) by (rewrite length_app; cbn; lia).
  rewrite E. replace (done_ ++ c :: cells) with ((done_ ++ [c]) ++ cells) by (by rewrite <- app_assoc).
  apply IH; try done. rewrite !slots_bytes_app in *. unfold slots_bytes. cbn [length].
  rewrite cells_bytes_cons. change (cells_bytes []) with 0%nat. unfold slots_bytes in Hroom. lia.
Qed.

Lemma fill_node ty cells :
  is_byte ty -> Forall (cell_ok ty) cells -> (kHdr + slots_bytes cells <= Node.usable psz)%nat ->
  node_at (insert_cells (Node.init psz ty) 0 cells) ty 0 0 cells.
Proof.
  intros Hty Hok Hroom. pose proof (init_node ty Hty) as Hn.
  apply (insert_cells_node cells _ _ _ _ [] Hn); try done. unfold packed. change (cells_bytes []) with 0%nat. pose proof usable_bounds as Hu.
  pose proof (na_frag _ _ _ _ _ Hn) as Hf. change (cells_bytes []) with 0%nat in Hf.
  assert (Node.frag (Node.init psz ty) = 0).
  { unfold Node.init, Node.frag, Node.set_prev, Node.set_right, Node.set_frag, get_u16, put_u16, put_u64. regions.
    apply (get_put_le 2); [|done]. unfold Node.set_content_start, Node.set_count, put_u16.
    rewrite ?length_blit, length_replicate. lia. }
  lia.
Qed.

End node.

(** * Building cells *)

Lemma build_leaf_inline_ok key value :
  bytes_ok key -> bytes_ok value -> Z.of_nat (length key) < 2 ^ 16 -> Z.of_nat (length value) < 2 ^ 32 ->
  let c := build_leaf_cell key value false (Z.of_nat (length value)) 0 in
  cell_ok kLeaf c /\ cell_key kLeaf c = key /\ cell_overflowed c = false /\ cell_inline c = value
  /\ length c = (kLeafCellHdr + length key + length value)%nat.
Proof.
  intros Hk Hv Lk Lv. cbv zeta. unfold build_leaf_cell, kLeafCellHdr.
  set (c0 := replicate (7 + length key + length value) 0).
  assert (L0 : length c0 = (7 + length key + length value)%nat) by (unfold c0; by rewrite length_replicate).
  assert (B0 : bytes_ok c0) by (apply bytes_ok_replicate; unfold is_byte; lia).
  clearbody c0. unfold put_u16, put_u32.
  set (c := blit (7 + length key) value _).
  assert (L : length c = (7 + length key + length value)%nat) by (unfold c; rewrite !length_blit; lia).
  assert (Hkl : get_u16 c 0 = Z.of_nat (length key)).
  { unfold c, get_u16. regions. apply (get_put_le 2); [lia|]. change (256 ^ Z.of_nat 2) with 65536. lia. }
  assert (Hfl : byte_at c 2 = 0).
  { unfold c. regions. rewrite byte_at_region, sub_blit_same; [done|done|]. rewrite length_blit. cbn [length]. lia. }
  assert (Hvl : cell_vlen c = Z.of_nat (length value)).
  { unfold c, cell_vlen, get_u32. regions. apply (get_put_le 4); [rewrite !length_blit; lia|].
    change (256 ^ Z.of_nat 4) with (2 ^ 32). lia. }
  assert (Ho : cell_overflowed c = false) by (unfold cell_overflowed; by rewrite Hfl).
  assert (Hkl' : cell_klen c = length key) by (unfold cell_klen; rewrite Hkl; lia).
  split_and!; [split|..]; try done.
  - unfold c. apply bytes_ok_blit'; [done|]. apply bytes_ok_blit'; [done|]. apply bytes_ok_put.
    apply bytes_ok_blit'; [apply Forall_cons; split; [unfold is_byte; lia|constructor]|]. by apply bytes_ok_put.
  - unfold cell_len. rewrite Ho, Hkl', Hvl, L. cbn. lia.
  - unfold cell_key. rewrite Hkl'. unfold c, cell_hdr, kLeafCellHdr. cbn [kLeaf Z.eqb Pos.eqb].
    rewrite sub_blit_before by lia. apply sub_blit_same; [done|]. rewrite !length_blit. lia.
  - unfold cell_inline. rewrite Hkl', Hvl. unfold c, kLeafCellHdr.
    apply sub_blit_same; [lia|]. rewrite !length_blit. lia.
Qed.

Lemma build_leaf_overflow_ok key total first :
  bytes_ok key -> Z.of_nat (length key) < 2 ^ 16 -> 0 <= total < 2 ^ 32 -> u64_ok first ->
  let c := build_leaf_cell key [] true total first in
  cell_ok kLeaf c /\ cell_key kLeaf c = key /\ cell_overflowed c = true /\ cell_vlen c = total
  /\ cell_first c = first /\ length c = (kLeafCellHdr + length key + 8)%nat.
Proof.
  intros Hk Lk Lv Hf. cbv zeta. unfold build_leaf_cell, kLeafCellHdr.
  set (c0 := replicate (7 + length key + 8) 0).
  assert (L0 : length c0 = (7 + length key + 8)%nat) by (unfold c0; by rewrite length_replicate).
  assert (B0 : bytes_ok c0) by (apply bytes_ok_replicate; unfold is_byte; lia).
  clearbody c0. unfold put_u16, put_u32, put_u64.
  set (c := blit (7 + length key) (le_bytes 8 first) _).
  assert (L : length c = (7 + length key + 8)%nat) by (unfold c; rewrite !length_blit; lia).
  assert (Hkl : get_u16 c 0 = Z.of_nat (length key)).
  { unfold c, get_u16. regions. apply (get_put_le 2); [lia|]. change (256 ^ Z.of_nat 2) with 65536. lia. }
  assert (Hfl : byte_at c 2 = 1).
  { unfold c. regions. rewrite byte_at_region, sub_blit_same; [done|done|]. rewrite length_blit. cbn [length]. lia. }
  assert (Hvl : cell_vlen c = total).
  { unfold c, cell_vlen, get_u32. regions. apply (get_put_le 4); [rewrite !length_blit; lia|].
    change (256 ^ Z.of_nat 4) with (2 ^ 32). lia. }
  assert (Ho : cell_overflowed c = true) by (unfold cell_overflowed; by rewrite Hfl).
  assert (Hkl' : cell_klen c = length key) by (unfold cell_klen; rewrite Hkl; lia).
  split_and!; [split|..]; try done.
  - unfold c. apply bytes_ok_put. apply bytes_ok_blit'; [done|]. apply bytes_ok_put.
    apply bytes_ok_blit'; [apply Forall_cons; split; [unfold is_byte, kFlagOverflow; lia|constructor]|]. by apply bytes_ok_put.
  - unfold cell_len. rewrite Ho, Hkl', L. cbn. lia.
  - unfold cell_key. rewrite Hkl'. unfold c, cell_hdr, kLeafCellHdr. cbn [kLeaf Z.eqb Pos.eqb].
    rewrite sub_blit_before by lia. apply sub_blit_same; [done|]. rewrite !length_blit. lia.
  - unfold cell_first. rewrite Hkl'. unfold c, get_u64, kLeafCellHdr. apply (get_put_le 8); [rewrite !length_blit; lia|exact Hf].
Qed.

Lemma build_interior_ok key child :
  bytes_ok key -> Z.of_nat (length key) < 2 ^ 16 -> u64_ok child ->
  let c := build_interior_cell key child in
  cell_ok kInterior c /\ cell_key kInterior c = key /\ cell_child c = child
  /\ length c = (kInteriorCellHdr + length key)%nat.
Proof.
  intros Hk Lk Hc. cbv zeta. unfold build_interior_cell, kInteriorCellHdr.
  set (c0 := replicate (10 + length key) 0).
  assert (L0 : length c0 = (10 + length key)%nat) by (unfold c0; by rewrite length_replicate).
  assert (B0 : bytes_ok c0) by (apply bytes_ok_replicate; unfold is_byte; lia).
  clearbody c0. unfold put_u16, put_u64. set (c := blit 10 key _).
  assert (L : length c = (10 + length key)%nat) by (unfold c; rewrite !length_blit; lia).
  assert (Hkl' : cell_klen c = length key).
  { unfold cell_klen, c, get_u16. regions. rewrite get_put_le; [lia|lia|]. change (256 ^ Z.of_nat 2) with 65536. lia. }
  split_and!; [split|..]; try done.
  - unfold c. apply bytes_ok_blit'; [done|]. by do 2 apply bytes_ok_put.
  - unfold cell_len. rewrite Hkl', L. cbn. lia.
  - unfold cell_key. rewrite Hkl'. unfold c, cell_hdr, kInteriorCellHdr. cbn [kInterior kLeaf Z.eqb Pos.eqb].
    apply sub_blit_same; [done|]. rewrite !length_blit. lia.
  - unfold cell_child, c, get_u64. regions. apply (get_put_le 8); [rewrite !length_blit; lia|exact Hc].
Qed.

Lemma blit_blit_same off a b p :
  length a = length b -> (off + length a <= length p)%nat -> blit off b (blit off a p) = blit off b p.
Proof.
  intros E H. unfold blit at 1 3. rewrite length_blit.
  assert (E1 : take off (blit off a p) = take off p) by (rewrite <- !sub_0; apply sub_blit_before; lia).
  assert (E2 : drop (off + length b) (blit off a p) = drop (off + length b) p) by (apply drop_blit; lia).
  by rewrite E1, E2.
Qed.

Lemma blit_comm o1 a o2 b p :
  (o1 + length a <= o2)%nat -> (o2 + length b <= length p)%nat ->
  blit o1 a (blit o2 b p) = blit o2 b (blit o1 a p).
Proof.
  intros H1 H2. apply list_eq. intros i.
  assert (E : forall q : Bytes, q !! i = head (sub i 1 q)).
  { intros q. unfold sub. rewrite <- (Nat.add_0_r i) at 1. rewrite <- lookup_drop. by destruct (drop i q). }
  rewrite !E. f_equal.
  destruct (decide (i < o1)%nat); [by regions|]. destruct (decide (i < o1 + length a)%nat).
  - rewrite sub_blit_inside, (sub_blit_before o2) by (rewrite ?length_blit; lia). by rewrite sub_blit_inside by lia.
  - rewrite (sub_blit_after o1) by lia. destruct (decide (i < o2)%nat).
    + rewrite !(sub_blit_before o2) by lia. by rewrite (sub_blit_after o1) by lia.
    + destruct (decide (i < o2 + length b)%nat).
      * by rewrite !sub_blit_inside by (rewrite ?length_blit; lia).
      * rewrite !(sub_blit_after o2) by lia. by rewrite (sub_blit_after o1) by lia.
Qed.

Lemma set_child_cell key child v :
  put_u64 (build_interior_cell key child) 2 v = build_interior_cell key v.
Proof.
  unfold build_interior_cell, put_u64, put_u16, kInteriorCellHdr.
  rewrite blit_comm by (rewrite ?length_blit, ?length_le_bytes, ?length_replicate; lia).
  by rewrite blit_blit_same by (rewrite ?length_blit, ?length_le_bytes, ?length_replicate; lia).
Qed.

(** * Searching *)

Lemma search_spec before fuel : forall lo hi,
  (hi - lo <= fuel)%nat -> (lo <= hi)%nat ->
  (forall i j, (i <= j < hi)%nat -> before j = true -> before i = true) ->
  let r := search fuel before lo hi in
  (lo <= r <= hi)%nat /\ (forall i, (lo <= i < r)%nat -> before i = true)
  /\ (forall i, (r <= i < hi)%nat -> before i = false).
Proof.
  induction fuel as [|fuel IH]; intros lo hi Hf Hle Hmono; cbn [search]; cbv zeta.
  { split; [lia|]. split; intros; lia. }
  destruct (Nat.ltb_spec lo hi) as [Hlt|]; [|split; [lia|]; split; intros; lia].
  assert (Hm : (lo <= (lo + hi) / 2 < hi)%nat).
  { split; [apply Nat.div_le_lower_bound; lia|apply Nat.div_lt_upper_bound; lia]. }
  set (mid := ((lo + hi) / 2)%nat) in *. destruct (before mid) eqn:E.
  - destruct (IH (S mid) hi) as (H1 & H2 & H3); [lia|lia|done|]. split; [lia|]. split; [|done].
    intros i Hi. destruct (decide (i <= mid)%nat); [|apply H2; lia]. apply (Hmono i mid); [lia|done].
  - destruct (IH lo mid) as (H1 & H2 & H3); [lia|lia| |].
    { intros i j Hij. apply Hmono. lia. }
    split; [lia|]. split; [done|]. intros i Hi. destruct (decide (i < mid)%nat); [apply H3; lia|].
    destruct (before i) eqn:Ei; [|done]. rewrite (Hmono mid i) in E by (done || lia). done.
Qed.
