(* ===== verification/BTree.v ===== *)
(** The B+tree (engine/include/archivum/engine/btree.h,
    engine/src/engine/btree.cpp): an ordered map from byte strings to byte
    strings over the pages of a transaction.

    [PageStore] is the interface the tree is written against, the abstract
    classes [PageReader] and [PageWriter]; the pager's transactions are its
    instances (BTreePager).  A path from the root is kept leaf first, so that
    [path[depth]] is the head of a list and [depth - 1] is its tail.  The
    loops the code bounds by a hop count run that many times at most; the
    loops along the leaf chain, which the code does not bound, take a fuel
    argument. *)

From stdpp Require Import base numbers list gmap strings.
From S2P Require Import Prelude Bytes PageFormat BTreeNode.
Open Scope Z_scope.

(** * Pages *)

Class PageStore (W : Type) := {
  page_size : nat;
  read_page : PageNo -> M W Bytes;
  write_page : PageNo -> Bytes -> M W unit;
  allocate_page : M W PageNo;
  free_page : PageNo -> M W unit
}.

(** At most [n] iterations of a loop body that says when it is done. *)
Fixpoint loop {W St A} (n : positive) (body : St -> M W (A + St)) (x : St) : M W (A + St) :=
  match n with
  | xH => body x
  | xO n =>
      let! r := loop n body x in
      match r with inl a => ret (inl a) | inr x => loop n body x end
  | xI n =>
      let! r := body x in
      match r with
      | inl a => ret (inl a)
      | inr x =>
          let! r := loop n body x in
          match r with inl a => ret (inl a) | inr x => loop n body x end
      end
  end.

Record PathEntry := mkEntry { pe_page : PageNo; pe_slot : nat }.

Record BTree := mkBTree { root_ : PageNo; has_writer : bool }.

Section btree.
Context {W : Type} `{PageStore W}.
Variable tree : BTree.

Definition max_key_bytes : nat := (max_cell_bytes page_size - kLeafCellHdr - 8)%nat.

Definition read (page : PageNo) : M W Bytes := read_page page.
Definition write (page : PageNo) (buf : Bytes) : M W unit :=
  if has_writer tree then write_page page buf
  else lift (invalid_argument "b-tree opened read-only").

(** * Overflow chains *)

Definition overflow_capacity : nat := (page_size - kPageTrailerBytes - kOverflowHdr)%nat.

Fixpoint allocate_pages (n : nat) : M W (list PageNo) :=
  match n with
  | O => ret []
  | S n => let! p := allocate_page in let! ps := allocate_pages n in ret (p :: ps)
  end.

Definition overflow_image (next : PageNo) (data : Bytes) : Bytes :=
  blit kOverflowHdr data (put_u64 (replicate page_size 0) 0 next).

Fixpoint write_chain (pages : list PageNo) (value : Bytes) : M W unit :=
  match pages with
  | [] => ret tt
  | p :: rest =>
      do! write_page p (overflow_image (hd 0 rest) (take overflow_capacity value)) in
      write_chain rest (drop overflow_capacity value)
  end.

Definition write_overflow (value : Bytes) : M W PageNo :=
  let cap := overflow_capacity in
  let n := ((length value + cap - 1) / cap)%nat in
  let! pages := allocate_pages n in
  do! write_chain pages value in
  ret (hd 0 pages).

(** [hops] counts down what [++hops > total / cap + 2] counts up. *)
Fixpoint read_chain (hops : nat) (page : PageNo) (remaining : nat) : M W Bytes :=
  if (remaining =? 0)%nat then ret []
  else if page =? 0 then lift (corrupt "overflow chain ends early")
  else match hops with
       | O => lift (corrupt "overflow chain too long")
       | S hops =>
           let! buf := read page in
           let len := Nat.min overflow_capacity remaining in
           let! rest := read_chain hops (get_u64 buf 0) (remaining - len) in
           ret (sub kOverflowHdr len buf ++ rest)
       end.
Definition read_overflow (first : PageNo) (total : Z) : M W Bytes :=
  let total := Z.to_nat total in
  read_chain (total / overflow_capacity + 2) first total.

Definition free_hop (page : PageNo) : M W (unit + PageNo) :=
  if page =? 0 then ret (inl tt)
  else
    let! buf := read page in
    let next := get_u64 buf 0 in
    do! free_page page in
    ret (inr next).
Definition free_overflow (first : PageNo) : M W unit :=
  let! r := loop (2 ^ 24) free_hop first in
  match r with
  | inl _ => ret tt
  | inr page => if page =? 0 then ret tt else lift (corrupt "overflow chain cycle")
  end.

Definition free_cell_overflow (leaf : Bytes) (slot : nat) : M W unit :=
  if negb (Node.overflowed leaf slot) then ret tt
  else free_overflow (Node.overflow_page leaf slot).

(** * Navigation *)

(** The first separator strictly greater than the key. *)
Definition upper_bound (p : Bytes) (k : Bytes) : nat :=
  let n := Node.count p in search n (fun mid => is_le (compare_bytes (Node.key p mid) k)) 0 n.

Fixpoint descend (fuel : nat) (key : Bytes) (page : PageNo) (path : list PathEntry)
    : M W (list PathEntry * Bytes) :=
  match fuel with
  | O => lift (corrupt "b-tree too deep")
  | S fuel =>
      let! leaf := read page in
      if Node.is_leaf leaf then ret (mkEntry page (fst (Node.lower_bound leaf key)) :: path, leaf)
      else if negb (Node.type leaf =? kInterior) then
        lift (corrupt ("b-tree page " +:+ to_string page +:+ " has bad type"))
      else
        let lo := upper_bound leaf key in
        let next := if (lo <? Node.count leaf)%nat then Node.child leaf lo else Node.right leaf in
        if next =? 0 then lift (corrupt "b-tree interior page has null child")
        else descend fuel key next (mkEntry page lo :: path)
  end.
Definition find_leaf (key : Bytes) : M W (list PathEntry * Bytes) := descend 64 key (root_ tree) [].

Definition slot_of (path : list PathEntry) : nat := match path with e :: _ => pe_slot e | [] => 0%nat end.
Definition key_at (n : Bytes) (slot : nat) (key : Bytes) : bool :=
  (slot <? Node.count n)%nat && is_eq (compare_bytes (Node.key n slot) key).

Definition slot_value (n : Bytes) (slot : nat) : M W Bytes :=
  if Node.overflowed n slot then read_overflow (Node.overflow_page n slot) (Node.value_len n slot)
  else ret (Node.inline_value n slot).

Definition get (key : Bytes) : M W (option Bytes) :=
  let! (path, leaf) := find_leaf key in
  let slot := slot_of path in
  if negb (key_at leaf slot key) then ret None
  else let! value := slot_value leaf slot in ret (Some value).

(** * Insertion *)

(** The cells of a node with a new one before index [slot]. *)
Definition gather_cells (n : Bytes) (slot : nat) (cell : Bytes) : list Bytes :=
  let cells := map (fun i => sub (Node.slot n i) (Node.cell_size n i) n) (seq 0 (Node.count n)) in
  take slot cells ++ [cell] ++ drop slot cells.

(** [while (split < cells.size() - 1 && acc + size + 2 < total / 2)]. *)
Fixpoint split_point (cells : list Bytes) (acc half : nat) : nat :=
  match cells with
  | [] => 0%nat
  | c :: rest =>
      match rest with
      | [] => 0%nat
      | _ => if (acc + length c + 2 <? half)%nat then S (split_point rest (acc + length c + 2) half) else 0%nat
      end
  end.

Definition new_root (sep : Bytes) (left right : PageNo) : Bytes :=
  Node.set_right (Node.insert_cell (Node.init page_size kInterior) 0 (build_interior_cell sep left)) right.

(** The cells of an interior node, as the local struct [C] holds them. *)
Definition gather_children (n : Bytes) (slot : nat) (sep : Bytes) (child : PageNo) : list (Bytes * PageNo) :=
  let cells := map (fun i => (Node.key n i, Node.child n i)) (seq 0 (Node.count n)) in
  take slot cells ++ [(sep, child)] ++ drop slot cells.
Definition interior_cells (cells : list (Bytes * PageNo)) : list Bytes :=
  map (fun '(k, c) => build_interior_cell k c) cells.

Fixpoint insert_separator (path : list PathEntry) (sep : Bytes) (right_page : PageNo) : M W unit :=
  match path with
  | [] => ret tt                      (* never: depth starts at path.size() - 2 >= 0 *)
  | mkEntry page slot :: parents =>
      let! buf := read page in
      let last_ := negb (slot <? Node.count buf)%nat in
      let child := if last_ then Node.right buf else Node.child buf slot in
      let n := if last_ then Node.set_right buf right_page else Node.set_child buf slot right_page in
      let cell := build_interior_cell sep child in
      if Node.fits n (length cell) then write page (Node.insert_cell n slot cell)
      else if Node.fits_after_defrag n (length cell) then
        write page (Node.insert_cell (Node.defragment page_size n) slot cell)
      else
        let cells := gather_children n slot sep child in
        let m := (length cells / 2)%nat in
        let '(promoted, middle) := nth m cells ([], 0) in
        let! new_right := allocate_page in
        let! left_page := (match parents with [] => allocate_page | _ => ret page end) in
        let left := Node.set_right
          (insert_cells (Node.init page_size kInterior) 0 (interior_cells (take m cells))) middle in
        let right := Node.set_right
          (insert_cells (Node.init page_size kInterior) 0 (interior_cells (drop (m + 1) cells))) (Node.right n) in
        do! write left_page left in
        do! write new_right right in
        match parents with
        | [] => write (root_ tree) (new_root promoted left_page new_right)
        | _ => insert_separator parents promoted new_right
        end
  end.

(** The cell of an entry, the value in an overflow chain when it is large. *)
Definition make_cell (key value : Bytes) : M W Bytes :=
  let total := wrap32 (Z.of_nat (length value)) in
  if (max_cell_bytes page_size <? kLeafCellHdr + length key + length value)%nat then
    let! first := write_overflow value in
    ret (build_leaf_cell key [] true total first)
  else ret (build_leaf_cell key value false total 0).

Definition split_leaf (leaf_page : PageNo) (parents : list PathEntry) (n : Bytes) (slot : nat) (cell : Bytes)
    : M W unit :=
  let cells := gather_cells n slot cell in
  let total := sum_list (map (fun c => length c + 2)%nat cells) in
  let split := Nat.max 1 (split_point cells 0 (total / 2)) in
  let old_next := Node.right n in
  let old_prev := Node.prev n in
  let! right_page := allocate_page in
  let! left_page := (match parents with [] => allocate_page | _ => ret leaf_page end) in
  let ln := insert_cells (Node.init page_size kLeaf) 0 (take split cells) in
  let rn := insert_cells (Node.init page_size kLeaf) 0 (drop split cells) in
  let ln := Node.set_right (Node.set_prev ln old_prev) right_page in
  let rn := Node.set_right (Node.set_prev rn left_page) old_next in
  do! write left_page ln in
  do! write right_page rn in
  do! (if old_next =? 0 then ret tt
       else let! nb := read old_next in write old_next (Node.set_prev nb right_page)) in
  let sep := Node.key rn 0 in
  match parents with
  | [] => write (root_ tree) (new_root sep left_page right_page)
  | _ => insert_separator parents sep right_page
  end.

Definition insert_into_leaf (path : list PathEntry) (leaf key value : Bytes) (slot : nat) (replace : bool)
    : M W unit :=
  let leaf_page := match path with e :: _ => pe_page e | [] => 0 end in
  let! n := (if replace then do! free_cell_overflow leaf slot in ret (Node.remove_cell leaf slot)
             else ret leaf) in
  let! cell := make_cell key value in
  if Node.fits n (length cell) then write leaf_page (Node.insert_cell n slot cell)
  else if Node.fits_after_defrag n (length cell) then
    write leaf_page (Node.insert_cell (Node.defragment page_size n) slot cell)
  else split_leaf leaf_page (tl path) n slot cell.

Definition key_length_ok (key : Bytes) : bool :=
  negb ((length key =? 0)%nat || (max_key_bytes <? length key)%nat).
Definition key_length_error {A} (key : Bytes) : Result A :=
  invalid_argument ("b-tree key length " +:+ to_string (Z.of_nat (length key)) +:+ " out of range").

Definition put (key value : Bytes) : M W unit :=
  if negb (has_writer tree) then lift (invalid_argument "b-tree opened read-only")
  else if negb (key_length_ok key) then lift (key_length_error key)
  else
    let! (path, leaf) := find_leaf key in
    let slot := slot_of path in
    insert_into_leaf path leaf key value slot (key_at leaf slot key).

(** The result is the out-parameter [inserted]. *)
Definition insert_if_absent (key value : Bytes) : M W bool :=
  if negb (has_writer tree) then lift (invalid_argument "b-tree opened read-only")
  else if negb (key_length_ok key) then lift (key_length_error key)
  else
    let! (path, leaf) := find_leaf key in
    let slot := slot_of path in
    if key_at leaf slot key then ret false
    else do! insert_into_leaf path leaf key value slot false in ret true.

(** * Erasure *)

(** The end of [remove_child]: a node left with its rightmost child only
    gives way to it. *)
Definition collapse (page : PageNo) (parents : list PathEntry) (n : Bytes) : M W unit :=
  if (0 <? Node.count n)%nat then write page n
  else
    let only := Node.right n in
    match parents with
    | [] =>
        let! child := read only in
        do! write (root_ tree) child in
        free_page only
    | mkEntry gp gslot :: _ =>
        let! gb := read gp in
        do! write gp (if (gslot <? Node.count gb)%nat then Node.set_child gb gslot only
                      else Node.set_right gb only) in
        free_page page
    end.

Fixpoint remove_child (path : list PathEntry) : M W unit :=
  match path with
  | [] => ret tt                      (* never: depth starts at path.size() - 2 >= 0 *)
  | mkEntry page slot :: parents =>
      let! buf := read page in
      if (slot <? Node.count buf)%nat then collapse page parents (Node.remove_cell buf slot)
      else if (Node.count buf =? 0)%nat then
        match parents with
        | [] => write (root_ tree) (Node.init page_size kLeaf)
        | _ => do! free_page page in remove_child parents
        end
      else
        let last_ := (Node.count buf - 1)%nat in
        collapse page parents (Node.remove_cell (Node.set_right buf (Node.child buf last_)) last_)
  end.

(** Unlinking a leaf from its neighbours. *)
Definition unlink (prev next : PageNo) : M W unit :=
  do! (if prev =? 0 then ret tt
       else let! nb := read prev in write prev (Node.set_right nb next)) in
  if next =? 0 then ret tt
  else let! nb := read next in write next (Node.set_prev nb prev).

(** The result is the out-parameter [existed]. *)
Definition erase (key : Bytes) : M W bool :=
  if negb (has_writer tree) then lift (invalid_argument "b-tree opened read-only")
  else
    let! (path, leaf) := find_leaf key in
    let slot := slot_of path in
    if negb (key_at leaf slot key) then ret false
    else
      do! free_cell_overflow leaf slot in
      let n := Node.remove_cell leaf slot in
      let leaf_page := match path with e :: _ => pe_page e | [] => 0 end in
      if (0 <? Node.count n)%nat || (length path =? 1)%nat then do! write leaf_page n in ret true
      else
        do! unlink (Node.prev n) (Node.right n) in
        do! free_page leaf_page in
        do! remove_child (tl path) in
        ret true.

(** * Cursor *)

Record Cursor := mkCursor {
  leaf_ : PageNo;
  slot_ : nat;
  page_ : Bytes;
  key_ : Bytes;
  valid_ : bool
}.
Definition cursor0 : Cursor := mkCursor 0 0 [] [] false.

Fixpoint load_slot (fuel : nat) (c : Cursor) : M W Cursor :=
  if (slot_ c <? Node.count (page_ c))%nat then
    ret (mkCursor (leaf_ c) (slot_ c) (page_ c) (Node.key (page_ c) (slot_ c)) true)
  else
    let next := Node.right (page_ c) in
    if next =? 0 then ret (mkCursor (leaf_ c) (slot_ c) (page_ c) (key_ c) false)
    else match fuel with
         | O => lift (corrupt "leaf chain longer than the fuel")
         | S fuel =>
             let! buf := read next in
             load_slot fuel (mkCursor next 0 buf (key_ c) (valid_ c))
         end.

Definition seek (fuel : nat) (key : Bytes) (c : Cursor) : M W Cursor :=
  let! (path, leaf) := find_leaf key in
  let '(page, slot) := match path with e :: _ => (pe_page e, pe_slot e) | [] => (0, 0%nat) end in
  load_slot fuel (mkCursor page slot leaf (key_ c) (valid_ c)).

Fixpoint leftmost (depth : nat) (page : PageNo) : M W (PageNo * Bytes) :=
  match depth with
  | O => lift (corrupt "b-tree too deep")
  | S depth =>
      let! buf := read page in
      if Node.is_leaf buf then ret (page, buf)
      else leftmost depth (if (0 <? Node.count buf)%nat then Node.child buf 0 else Node.right buf)
  end.
Definition seek_first (fuel : nat) (c : Cursor) : M W Cursor :=
  let! (page, buf) := leftmost 64 (root_ tree) in
  load_slot fuel (mkCursor page 0 buf (key_ c) (valid_ c)).

Fixpoint rightmost (depth : nat) (page : PageNo) : M W (PageNo * Bytes) :=
  match depth with
  | O => lift (corrupt "b-tree too deep")
  | S depth =>
      let! buf := read page in
      if Node.is_leaf buf then ret (page, buf) else rightmost depth (Node.right buf)
  end.
Definition seek_last (c : Cursor) : M W Cursor :=
  let! (page, buf) := rightmost 64 (root_ tree) in
  let n := Node.count buf in
  if (n =? 0)%nat then ret (mkCursor page (slot_ c) buf (key_ c) false)
  else ret (mkCursor page (n - 1) buf (Node.key buf (n - 1)) true).

Definition next (fuel : nat) (c : Cursor) : M W Cursor :=
  if negb (valid_ c) then ret c
  else load_slot fuel (mkCursor (leaf_ c) (slot_ c + 1) (page_ c) (key_ c) (valid_ c)).

(** The loop of [prev]: the leaf to the left that has a slot before. *)
Fixpoint step_back (fuel : nat) (c : Cursor) : M W Cursor :=
  if negb (slot_ c =? 0)%nat then
    let slot := (slot_ c - 1)%nat in
    ret (mkCursor (leaf_ c) slot (page_ c) (Node.key (page_ c) slot) (valid_ c))
  else
    let p := Node.prev (page_ c) in
    if p =? 0 then ret (mkCursor (leaf_ c) (slot_ c) (page_ c) (key_ c) false)
    else match fuel with
         | O => lift (corrupt "leaf chain longer than the fuel")
         | S fuel =>
             let! buf := read p in
             step_back fuel (mkCursor p (Node.count buf) buf (key_ c) (valid_ c))
         end.
Definition prev (fuel : nat) (c : Cursor) : M W Cursor :=
  if negb (valid_ c) then ret c else step_back fuel c.

Definition value (c : Cursor) : M W Bytes :=
  if negb (valid_ c) then lift (invalid_argument "cursor not positioned")
  else slot_value (page_ c) (slot_ c).

(** The callback's captured state is the accumulator [A]. *)
Fixpoint visit {A} (fuel chain : nat) (fn : Bytes -> Bytes -> A -> Result A) (c : Cursor) (a : A) : M W A :=
  if negb (valid_ c) then ret a
  else match fuel with
       | O => lift (corrupt "more entries than the fuel")
       | S fuel =>
           let! v := value c in
           let! a := lift (fn (key_ c) v a) in
           let! c := next chain c in
           visit fuel chain fn c a
       end.
Definition for_each {A} (fuel : nat) (fn : Bytes -> Bytes -> A -> Result A) (a : A) : M W A :=
  let! c := seek_first fuel cursor0 in visit fuel fuel fn c a.

(** * Check *)

Record BTreeCheckReport := mkTreeReport {
  problems : list string;
  entries : Z;
  leaf_pages : Z;
  interior_pages : Z;
  overflow_pages : Z;
  depth : Z;
  pages : list PageNo
}.

(** The report and the reference parameters of [check_node]. *)
Record CheckState := mkCheck {
  ck_report : BTreeCheckReport;
  leaf_depth : Z;
  expected_prev : PageNo
}.
Definition CM (A : Type) : Type := M (CheckState * W) A.

Definition set_report (f : BTreeCheckReport -> BTreeCheckReport) (x : CheckState) : CheckState :=
  mkCheck (f (ck_report x)) (leaf_depth x) (expected_prev x).
Definition problem (page : PageNo) (text : string) : CM unit := modO (set_report (fun r =>
  mkTreeReport (problems r ++ ["page " +:+ to_string page +:+ ": " +:+ text]) (entries r) (leaf_pages r)
    (interior_pages r) (overflow_pages r) (depth r) (pages r))).
Definition own_page (page : PageNo) : CM unit := modO (set_report (fun r =>
  mkTreeReport (problems r) (entries r) (leaf_pages r) (interior_pages r) (overflow_pages r) (depth r)
    (pages r ++ [page]))).
Definition count_leaf (n : Z) : CM unit := modO (set_report (fun r =>
  mkTreeReport (problems r) (wrap64 (entries r + n)) (wrap64 (leaf_pages r + 1)) (interior_pages r)
    (overflow_pages r) (depth r) (pages r))).
Definition count_interior : CM unit := modO (set_report (fun r =>
  mkTreeReport (problems r) (entries r) (leaf_pages r) (wrap64 (interior_pages r + 1)) (overflow_pages r)
    (depth r) (pages r))).
Definition count_overflow : CM unit := modO (set_report (fun r =>
  mkTreeReport (problems r) (entries r) (leaf_pages r) (interior_pages r) (wrap64 (overflow_pages r + 1))
    (depth r) (pages r))).

Definition when (b : bool) (m : CM unit) : CM unit := if b then m else ret tt.

(** The loop over the cells of a node; false stops the check of the node. *)
Fixpoint check_cells (page : PageNo) (buf : Bytes) (lower upper : option Bytes) (prev_key : Bytes) (i n : nat)
    : CM bool :=
  match n with
  | O => ret true
  | S n =>
      let off := Node.slot buf i in
      if (Z.of_nat off <? Node.content_start buf)
         || (Node.usable page_size <? off + Node.cell_size buf i)%nat
      then do! problem page ("cell " +:+ to_string (Z.of_nat i) +:+ " out of bounds") in ret false
      else
        let k := Node.key buf i in
        let at_ := to_string (Z.of_nat i) in
        do! when ((0 <? i)%nat && negb (is_lt (compare_bytes prev_key k)))
              (problem page ("keys not strictly increasing at " +:+ at_)) in
        do! when (match lower with Some l => is_lt (compare_bytes k l) | None => false end)
              (problem page ("key below lower bound at " +:+ at_)) in
        do! when (match upper with Some u => negb (is_lt (compare_bytes k u)) | None => false end)
              (problem page ("key at or above upper bound at " +:+ at_)) in
        check_cells page buf lower upper k (S i) n
  end.

(** One hop of the walk along an overflow chain; the loop ends with what
    remains and the page it stopped at. *)
Definition chain_hop (page : PageNo) (x : nat * PageNo) : CM ((nat * PageNo) + (nat * PageNo)) :=
  let '(remaining, p) := x in
  if (remaining =? 0)%nat || (p =? 0) then ret (inl x)
  else
    let! st := getO in
    if bool_decide (p ∈ pages (ck_report st)) then
      do! problem page ("overflow page " +:+ to_string p +:+ " reached twice") in ret (inl x)
    else
      do! own_page p in
      do! count_overflow in
      let! s := attempt (onw (read p)) in
      match s with
      | Err e =>
          do! problem page ("overflow page " +:+ to_string p +:+ ": " +:+ status_to_string e) in ret (inl x)
      | Ret ob => ret (inr ((remaining - Nat.min overflow_capacity remaining)%nat, get_u64 ob 0))
      end.

Fixpoint check_chains (page : PageNo) (buf : Bytes) (i n : nat) : CM unit :=
  match n with
  | O => ret tt
  | S n =>
      do! (if negb (Node.overflowed buf i) then ret tt
           else
             let! r := loop (2 ^ 20) (chain_hop page) (Z.to_nat (Node.value_len buf i), Node.overflow_page buf i) in
             let '(remaining, p) := match r with inl x => x | inr x => x end in
             let cell := "overflow chain for cell " +:+ to_string (Z.of_nat i) in
             do! when (0 <? remaining)%nat (problem page (cell +:+ " ends early")) in
             when ((remaining =? 0)%nat && negb (p =? 0)) (problem page (cell +:+ " has extra pages"))) in
      check_chains page buf (S i) n
  end.

Definition check_leaf (page : PageNo) (depth : Z) (buf : Bytes) : CM unit :=
  do! count_leaf (Z.of_nat (Node.count buf)) in
  let! st := getO in
  do! (if leaf_depth st =? 0 then modO (fun st => mkCheck (ck_report st) depth (expected_prev st))
       else when (negb (leaf_depth st =? depth))
              (problem page ("leaf at depth " +:+ to_string depth +:+ " differs from " +:+ to_string (leaf_depth st)))) in
  do! when (negb (Node.prev buf =? expected_prev st))
        (problem page ("prev link " +:+ to_string (Node.prev buf) +:+ " expected " +:+ to_string (expected_prev st))) in
  do! (if expected_prev st =? 0 then ret tt
       else
         let! pb := attempt (onw (read (expected_prev st))) in
         match pb with
         | Ret pb => when (negb (Node.right pb =? page))
                       (problem page "previous leaf's next link does not point here")
         | Err _ => ret tt
         end) in
  do! modO (fun st => mkCheck (ck_report st) (leaf_depth st) page) in
  do! when ((Node.count buf =? 0)%nat && negb (page =? root_ tree)) (problem page "empty non-root leaf") in
  check_chains page buf 0 (Node.count buf).

(** [depth > 64] stops the recursion, so 65 levels of fuel are never used up. *)
Fixpoint check_node (fuel : nat) (page : PageNo) (depth : Z) (lower upper : option Bytes) : CM unit :=
  match fuel with
  | O => ret tt
  | S fuel =>
      let! st := getO in
      if bool_decide (page ∈ pages (ck_report st)) then problem page "reached twice"
      else
        do! own_page page in
        if 64 <? depth then problem page "too deep"
        else
          let! s := attempt (onw (read page)) in
          match s with
          | Err e => problem page (status_to_string e)
          | Ret buf =>
              if negb (Node.type buf =? kLeaf) && negb (Node.type buf =? kInterior) then problem page "bad node type"
              else if (Node.content_start buf <? Z.of_nat (kHdr + 2 * Node.count buf))
                      || (Z.of_nat (Node.usable page_size) <? Node.content_start buf)
              then problem page "slot array and content overlap"
              else
                let n := Node.count buf in
                let! go := check_cells page buf lower upper [] 0 n in
                if negb go then ret tt
                else if Node.is_leaf buf then check_leaf page depth buf
                else
                  do! count_interior in
                  do! when (Node.right buf =? 0) (problem page "interior node without rightmost child") in
                  do! when ((n =? 0)%nat && negb (page =? root_ tree)) (problem page "interior node with no separators") in
                  do! (fix children (i k : nat) : CM unit :=
                         match k with
                         | O => ret tt
                         | S k =>
                             let lo := if (i =? 0)%nat then lower else Some (Node.key buf (i - 1)) in
                             do! check_node fuel (Node.child buf i) (depth + 1) lo (Some (Node.key buf i)) in
                             children (S i) k
                         end) 0%nat n in
                  let lo := if (0 <? n)%nat then Some (Node.key buf (n - 1)) else lower in
                  if Node.right buf =? 0 then ret tt
                  else check_node fuel (Node.right buf) (depth + 1) lo upper
          end
  end.

Definition check : M W BTreeCheckReport := fun w =>
  let m : CM BTreeCheckReport :=
    do! check_node 65 (root_ tree) 1 None None in
    let! st := getO in
    do! (if expected_prev st =? 0 then ret tt
         else
           let! lb := attempt (onw (read (expected_prev st))) in
           match lb with
           | Ret lb => when (negb (Node.right lb =? 0)) (modO (set_report (fun r =>
                         mkTreeReport (problems r ++ ["last leaf has a dangling next link"]) (entries r)
                           (leaf_pages r) (interior_pages r) (overflow_pages r) (depth r) (pages r))))
           | Err _ => ret tt
           end) in
    let! st := getO in
    let r := ck_report st in
    ret (mkTreeReport (problems r) (entries r) (leaf_pages r) (interior_pages r) (overflow_pages r)
           (leaf_depth st) (pages r)) in
  let '(r, (_, w)) := m (mkCheck (mkTreeReport [] 0 0 0 0 0 []) 0 0, w) in (r, w).

Fixpoint free_pages (ps : list PageNo) : M W unit :=
  match ps with
  | [] => ret tt
  | p :: ps => do! free_page p in free_pages ps
  end.

End btree.

(** Frees every page of the tree. *)
Definition destroy {W} `{PageStore W} (root : PageNo) : M W unit :=
  let! report := check (mkBTree root true) in free_pages (pages report).

Definition create {W} `{PageStore W} : M W PageNo :=
  let! page := allocate_page in
  do! write_page page (Node.init page_size kLeaf) in
  ret page.
