(* ===== verification/BTreeTree.v ===== *)
(** Trees of pages, without the pages.

    A [tree] is the shape a B+tree has on disk: leaves with their entries and
    interior nodes with children and separators, each with its page number.
    Three in-order sequences describe everything a page can show of it: the
    leaves, the interior nodes and the [skeleton] of keys and separators, whose
    sortedness is the search invariant.  A tree is taken apart at a leaf by a
    context, the list of frames from the leaf up, which is what a path from
    the root records. *)

From stdpp Require Import base numbers list sorting.
From S2P Require Import Prelude Bytes PageFormat.
Open Scope Z_scope.

(** * Key order *)

Definition klt (a b : Bytes) : Prop := lex a b = Lt.
Definition kle (a b : Bytes) : Prop := lex a b <> Gt.

Lemma lex_refl a : lex a a = Eq.
Proof. by apply lex_eq. Qed.
Lemma klt_irrefl a : ~ klt a a.
Proof. unfold klt. by rewrite lex_refl. Qed.
Lemma klt_trans a b c : klt a b -> klt b c -> klt a c.
Proof. apply lex_trans. Qed.
Lemma kle_cases a b : kle a b <-> a = b \/ klt a b.
Proof.
  unfold kle, klt. destruct (lex a b) eqn:E; [apply lex_eq in E; subst|..]; split; try done; auto.
  - intros [->|?]; [by rewrite lex_refl in E|done].
Qed.
Lemma kle_not_klt a b : kle a b <-> ~ klt b a.
Proof. unfold kle, klt. rewrite (lex_antisym a b). by destruct (lex a b). Qed.
Lemma klt_kle_trans a b c : klt a b -> kle b c -> klt a c.
Proof. intros H1 [->|H2]%kle_cases; [done|by eapply klt_trans]. Qed.
Lemma kle_klt_trans a b c : kle a b -> klt b c -> klt a c.
Proof. intros [->|H1]%kle_cases H2; [done|by eapply klt_trans]. Qed.
Lemma klt_kle a b : klt a b -> kle a b.
Proof. unfold klt, kle. by intros ->. Qed.
Lemma kle_refl a : kle a a.
Proof. apply kle_cases. by left. Qed.
Lemma key_cases a b : klt a b \/ a = b \/ klt b a.
Proof.
  unfold klt. destruct (lex a b) eqn:E; [apply lex_eq in E; auto|by left|].
  right. right. by rewrite lex_antisym, E.
Qed.

(** * The skeleton *)

Inductive item := K (k : Bytes) | Sep (k : Bytes).

Definition ilt (x y : item) : Prop :=
  match x, y with
  | K a, K b => klt a b
  | K a, Sep s => klt a s
  | Sep s, K a => kle s a
  | Sep s, Sep s' => klt s s'
  end.

#[export] Instance ilt_trans : Transitive ilt.
Proof.
  intros [a|a] [b|b] [c|c]; unfold ilt; intros H1 H2;
    eauto using klt_trans, klt_kle_trans, kle_klt_trans, klt_kle.
Qed.

Definition sorted (l : list item) : Prop := StronglySorted ilt l.

Lemma sorted_app l1 l2 :
  sorted (l1 ++ l2) <-> sorted l1 /\ sorted l2 /\ (forall x y, x ∈ l1 -> y ∈ l2 -> ilt x y).
Proof.
  unfold sorted. induction l1 as [|a l1 IH]; cbn [app].
  { split; [intros H; split_and!; [constructor|done|]|by intros (_ & ? & _)]. intros x y Hx. by apply elem_of_nil in Hx. }
  split.
  - intros H. apply StronglySorted_inv in H as [H1 H2]. apply IH in H1 as (H3 & H4 & H5).
    apply Forall_app in H2 as [H6 H7]. split_and!; [by constructor|done|].
    intros x y [->|Hx]%elem_of_cons Hy; [|by apply H5]. rewrite Forall_forall in H7. by apply H7.
  - intros (H1 & H2 & H3). apply StronglySorted_inv in H1 as [H4 H5]. constructor.
    + apply IH. split_and!; [done|done|]. intros x y Hx. apply H3. by right.
    + apply Forall_app. split; [done|]. apply Forall_forall. intros y Hy. apply H3; [by left|done].
Qed.

(** * Trees *)

Record Entry := mkEnt { e_key : Bytes; e_val : Bytes; e_chain : list PageNo }.

Inductive tree :=
  | Leaf (p : PageNo) (es : list Entry)
  | Inner (p : PageNo) (kids : list (tree * Bytes)) (last_ : tree).

Lemma tree_induction (P : tree -> Prop) :
  (forall p es, P (Leaf p es)) ->
  (forall p kids last_, Forall (fun x => P (fst x)) kids -> P last_ -> P (Inner p kids last_)) ->
  forall t, P t.
Proof.
  intros H1 H2. fix IH 1. intros [p es|p kids last_]; [apply H1|]. apply H2; [|apply IH].
  induction kids as [|[t s] kids IHk]; constructor; [apply IH|exact IHk].
Qed.

Definition root_page (t : tree) : PageNo := match t with Leaf p _ => p | Inner p _ _ => p end.

(** A sequence read off the children and the separators between them. *)
Definition in_order {X} (F : tree -> list X) (G : Bytes -> list X) (kids : list (tree * Bytes)) (last_ : tree) : list X :=
  concat (map (fun x => F (fst x) ++ G (snd x)) kids) ++ F last_.

Definition no_sep {X} (_ : Bytes) : list X := [].

Fixpoint leaves (t : tree) : list (PageNo * list Entry) :=
  match t with
  | Leaf p es => [(p, es)]
  | Inner _ kids last_ => in_order leaves no_sep kids last_
  end.

Fixpoint skeleton (t : tree) : list item :=
  match t with
  | Leaf _ es => map (fun e => K (e_key e)) es
  | Inner _ kids last_ => in_order skeleton (fun s => [Sep s]) kids last_
  end.

(** An interior node as its page shows it: the cells and the rightmost child. *)
Abbreviation inner := (PageNo * list (Bytes * PageNo) * PageNo)%type.
Definition kid_cells (kids : list (tree * Bytes)) : list (Bytes * PageNo) :=
  map (fun x => (snd x, root_page (fst x))) kids.

Fixpoint inners (t : tree) : list inner :=
  match t with
  | Leaf _ _ => []
  | Inner p kids last_ => (p, kid_cells kids, root_page last_) :: in_order inners no_sep kids last_
  end.

Fixpoint height (t : tree) : nat :=
  match t with
  | Leaf _ _ => 1%nat
  | Inner _ kids last_ => S (fold_right (fun x n => Nat.max (height (fst x)) n) (height last_) kids)
  end.

Definition all_entries (ls : list (PageNo * list Entry)) : list Entry := concat (map snd ls).
Definition entries_of (t : tree) : list Entry := all_entries (leaves t).

Definition inner_page (x : inner) : PageNo := fst (fst x).
(** Every page of the tree. *)
Definition owned (t : tree) : list PageNo :=
  map fst (leaves t) ++ map inner_page (inners t) ++ concat (map e_chain (entries_of t)).

(** * Contexts *)

Record frame := mkFrame {
  f_page : PageNo;
  f_pre : list (tree * Bytes);
  f_post : list (Bytes * tree)
}.

Fixpoint close {T} (t : T) (post : list (Bytes * T)) : list (T * Bytes) * T :=
  match post with
  | [] => ([], t)
  | (s, t') :: post => let '(l, z) := close t' post in ((t, s) :: l, z)
  end.

Definition plug (f : frame) (t : tree) : tree :=
  let '(l, z) := close t (f_post f) in Inner (f_page f) (f_pre f ++ l) z.
(** A child replaced by two with a separator between them. *)
Definition plug2 (f : frame) (t : tree) (s : Bytes) (t' : tree) : tree :=
  let '(l, z) := close t' (f_post f) in Inner (f_page f) (f_pre f ++ (t, s) :: l) z.
Fixpoint plug_all (ctx : list frame) (t : tree) : tree :=
  match ctx with
  | [] => t
  | f :: ctx => plug_all ctx (plug f t)
  end.

Section before_after.
Context {X : Type} (F : tree -> list X) (G : Bytes -> list X).
Definition frame_before (f : frame) : list X := concat (map (fun x => F (fst x) ++ G (snd x)) (f_pre f)).
Definition frame_after (f : frame) : list X := concat (map (fun x => G (fst x) ++ F (snd x)) (f_post f)).
Fixpoint before (ctx : list frame) : list X :=
  match ctx with [] => [] | f :: ctx => before ctx ++ frame_before f end.
Fixpoint after (ctx : list frame) : list X :=
  match ctx with [] => [] | f :: ctx => frame_after f ++ after ctx end.

Lemma in_order_close t post :
  in_order F G (fst (close t post)) (snd (close t post))
  = F t ++ concat (map (fun x => G (fst x) ++ F (snd x)) post).
Proof.
  revert t. induction post as [|[s t'] post IH]; intros t; cbn [close].
  { unfold in_order. cbn. by rewrite app_nil_r. }
  specialize (IH t'). destruct (close t' post) as [l z]. unfold in_order in *. cbn in *.
  rewrite <- app_assoc, IH. by rewrite <- !app_assoc.
Qed.
Lemma in_order_app kids1 kids2 last_ :
  in_order F G (kids1 ++ kids2) last_
  = concat (map (fun x => F (fst x) ++ G (snd x)) kids1) ++ in_order F G kids2 last_.
Proof. unfold in_order. by rewrite map_app, concat_app, app_assoc. Qed.
Lemma in_order_cons t s kids last_ : in_order F G ((t, s) :: kids) last_ = F t ++ G s ++ in_order F G kids last_.
Proof. unfold in_order. cbn. by rewrite <- !app_assoc. Qed.
End before_after.

(** The skeleton before and after the hole of a context. *)
Abbreviation sep_skeleton ctx := (before skeleton (fun s => [Sep s]) ctx).
Abbreviation skeleton_sep ctx := (after skeleton (fun s => [Sep s]) ctx).

Lemma leaves_plug f t : leaves (plug f t) = frame_before leaves no_sep f ++ leaves t ++ frame_after leaves no_sep f.
Proof.
  unfold plug. pose proof (in_order_close leaves no_sep t (f_post f)) as H.
  destruct (close t (f_post f)) as [l z]. cbn [leaves fst snd] in *. rewrite in_order_app. by rewrite H.
Qed.
Lemma skeleton_plug f t :
  skeleton (plug f t) = frame_before skeleton (fun s => [Sep s]) f ++ skeleton t
                        ++ frame_after skeleton (fun s => [Sep s]) f.
Proof.
  unfold plug. pose proof (in_order_close skeleton (fun s => [Sep s]) t (f_post f)) as H.
  destruct (close t (f_post f)) as [l z]. cbn [skeleton fst snd] in *. rewrite in_order_app. by rewrite H.
Qed.

Lemma leaves_plug_all ctx : forall t,
  leaves (plug_all ctx t) = before leaves no_sep ctx ++ leaves t ++ after leaves no_sep ctx.
Proof.
  induction ctx as [|f ctx IH]; intros t; cbn [plug_all before after]; [by rewrite app_nil_r|].
  rewrite IH, leaves_plug. by rewrite <- !app_assoc.
Qed.
Lemma skeleton_plug_all ctx : forall t,
  skeleton (plug_all ctx t) = before skeleton (fun s => [Sep s]) ctx ++ skeleton t
                              ++ after skeleton (fun s => [Sep s]) ctx.
Proof.
  induction ctx as [|f ctx IH]; intros t; cbn [plug_all before after]; [by rewrite app_nil_r|].
  rewrite IH, skeleton_plug. by rewrite <- !app_assoc.
Qed.

(** The interior node of a frame, given the page of its hole. *)
Definition frame_cells (f : frame) (h : PageNo) : list (Bytes * PageNo) * PageNo :=
  let '(l, z) := close h (prod_map id root_page <$> f_post f) in
  (kid_cells (f_pre f) ++ map (fun x => (snd x, fst x)) l, z).
Definition frame_inner (f : frame) (h : PageNo) : inner :=
  let '(cells, z) := frame_cells f h in (f_page f, cells, z).
(** The interior nodes below a frame, beside its hole. *)
Definition frame_inners (f : frame) : list inner :=
  frame_before inners no_sep f ++ frame_after inners no_sep f.

Lemma close_map {T U} (g : T -> U) t post :
  close (g t) (prod_map id g <$> post) = (prod_map g id <$> (close t post).1, g (close t post).2).
Proof.
  revert t. induction post as [|[s t'] post IH]; intros t; [done|]. cbn. rewrite IH.
  by destruct (close t' post).
Qed.

Lemma frame_cells_plug f t :
  frame_cells f (root_page t)
  = (kid_cells (f_pre f ++ (close t (f_post f)).1), root_page (close t (f_post f)).2).
Proof.
  unfold frame_cells. rewrite close_map. unfold kid_cells. rewrite map_app. f_equal. f_equal.
  rewrite <- list_fmap_compose. apply list_fmap_ext. by intros i [a b].
Qed.

Lemma inners_plug f t :
  inners (plug f t) ≡ₚ frame_inner f (root_page t) :: frame_inners f ++ inners t.
Proof.
  unfold plug, frame_inner, frame_inners. rewrite frame_cells_plug.
  pose proof (in_order_close inners no_sep t (f_post f)) as H.
  destruct (close t (f_post f)) as [l z]. cbn [inners fst snd] in *. constructor.
  rewrite in_order_app, H. fold (frame_before inners no_sep f). fold (frame_after inners no_sep f).
  rewrite <- app_assoc. apply Permutation_app_head, Permutation_app_comm.
Qed.

Fixpoint ctx_inners (ctx : list frame) (h : PageNo) : list inner :=
  match ctx with
  | [] => []
  | f :: ctx => frame_inner f h :: frame_inners f ++ ctx_inners ctx (f_page f)
  end.

Lemma root_plug f t : root_page (plug f t) = f_page f.
Proof. unfold plug. by destruct (close t (f_post f)). Qed.

Lemma inners_plug_all ctx : forall t, inners (plug_all ctx t) ≡ₚ ctx_inners ctx (root_page t) ++ inners t.
Proof.
  induction ctx as [|f ctx IH]; intros t; cbn [plug_all ctx_inners]; [done|].
  rewrite IH, root_plug, inners_plug. cbn [app].
  rewrite (Permutation_app_comm (ctx_inners ctx (f_page f))). cbn [app]. constructor.
  rewrite <- !app_assoc. apply Permutation_app_head, Permutation_app_comm.
Qed.

(** The root of a plugged tree. *)
Definition top_page (ctx : list frame) (h : PageNo) : PageNo :=
  match last ctx with Some f => f_page f | None => h end.
Lemma root_plug_all ctx : forall t, root_page (plug_all ctx t) = top_page ctx (root_page t).
Proof.
  unfold top_page. induction ctx as [|f ctx IH]; intros t; cbn [plug_all]; [done|].
  rewrite IH, root_plug. rewrite last_cons. by destruct (last ctx).
Qed.

(** * Heights *)

Lemma height_plug f t : (height t < height (plug f t))%nat.
Proof.
  unfold plug. destruct (close t (f_post f)) as [l z] eqn:E. cbn [height].
  assert (Hl : forall l z, close t (f_post f) = (l, z) ->
    (height t <= fold_right (fun x n => Nat.max (height (fst x)) n) (height z) l)%nat).
  { clear. intros l z E. destruct (f_post f) as [|[s t'] post]; cbn in E.
    - by injection E as <- <-.
    - destruct (close t' post). injection E as <- <-. cbn. lia. }
  specialize (Hl l z E). rewrite fold_right_app.
  induction (f_pre f) as [|x pre IH]; cbn; lia.
Qed.

Lemma height_plug2 f t s t' h : (height t <= h)%nat -> (height t' <= h)%nat ->
  (height (plug2 f t s t') <= Nat.max (height (plug f t)) (S h))%nat.
Proof.
  intros H1 H2. unfold plug2, plug.
  assert (Hc : forall u l z l' z', close u (f_post f) = (l, z) -> close t (f_post f) = (l', z') -> (height u <= h)%nat ->
    (fold_right (fun x n => Nat.max (height (fst x)) n) (height z) l
     <= Nat.max (fold_right (fun x n => Nat.max (height (fst x)) n) (height z') l') h)%nat).
  { intros u l z l' z' E1 E2 Hu. destruct (f_post f) as [|[a b] post]; cbn in E1, E2.
    - injection E1 as <- <-. injection E2 as <- <-. cbn. lia.
    - destruct (close b post). injection E1 as <- <-. injection E2 as <- <-. cbn. lia. }
  destruct (close t' (f_post f)) as [l z] eqn:E1, (close t (f_post f)) as [l' z'] eqn:E2.
  specialize (Hc t' l z l' z' E1 eq_refl H2). cbn [height]. rewrite !fold_right_app. cbn [fold_right fst].
  induction (f_pre f) as [|x pre IH]; cbn; lia.
Qed.

Lemma height_plug_le f t t0 : (height (plug f t) <= Nat.max (height (plug f t0)) (S (height t)))%nat.
Proof.
  unfold plug. destruct (close t (f_post f)) as [l z] eqn:E1, (close t0 (f_post f)) as [l' z'] eqn:E2.
  assert (Hc : (fold_right (fun x n => Nat.max (height (fst x)) n) (height z) l
     <= Nat.max (fold_right (fun x n => Nat.max (height (fst x)) n) (height z') l') (height t))%nat).
  { destruct (f_post f) as [|[a b] post]; cbn in E1, E2.
    - injection E1 as <- <-. injection E2 as <- <-. cbn. lia.
    - destruct (close b post). injection E1 as <- <-. injection E2 as <- <-. cbn. lia. }
  cbn [height]. rewrite !fold_right_app. induction (f_pre f) as [|x pre IH]; cbn; lia.
Qed.
Lemma height_plug_all_le ctx : forall t t0,
  (height (plug_all ctx t) <= Nat.max (height (plug_all ctx t0)) (length ctx + height t))%nat.
Proof.
  induction ctx as [|f ctx IH]; intros t t0; cbn [plug_all length]; [lia|].
  pose proof (IH (plug f t) (plug f t0)). pose proof (height_plug_le f t t0).
  assert (length ctx + height (plug f t0) <= height (plug_all ctx (plug f t0)))%nat; [|lia].
  clear. generalize (plug f t0) as u. induction ctx as [|g ctx IH]; intros u; cbn [plug_all length]; [lia|].
  pose proof (IH (plug g u)). pose proof (height_plug g u). lia.
Qed.
Lemma height_context ctx : forall t, (length ctx + height t <= height (plug_all ctx t))%nat.
Proof.
  induction ctx as [|g ctx IH]; intros u; cbn [plug_all length]; [lia|].
  pose proof (IH (plug g u)). pose proof (height_plug g u). lia.
Qed.

Lemma height_halves p q r kids last_ n t s : kids !! n = Some (t, s) ->
  (height (Inner p (take n kids) t) <= height (Inner r kids last_))%nat
  /\ (height (Inner q (drop (n + 1) kids) last_) <= height (Inner r kids last_))%nat.
Proof.
  intros Hn. cbn [height]. rewrite <- (take_drop_middle kids n (t, s) Hn) at 2 4. rewrite fold_right_app. cbn [fold_right fst].
  rewrite Nat.add_1_r. assert (Hm : forall (l : list (tree * Bytes)) a b, (a <= b)%nat ->
    (fold_right (fun x n => Nat.max (height (fst x)) n) a l <= fold_right (fun x n => Nat.max (height (fst x)) n) b l)%nat).
  { clear. induction l as [|y l IH]; intros a b Hab; cbn [fold_right]; [done|]. pose proof (IH a b Hab). lia. }
  assert (Hge : forall (l : list (tree * Bytes)) a, (a <= fold_right (fun x n => Nat.max (height (fst x)) n) a l)%nat).
  { clear. induction l as [|y l IH]; intros a; cbn [fold_right]; [done|]. pose proof (IH a). lia. }
  set (rest := fold_right (fun (x : tree * Bytes) n => Nat.max (height (fst x)) n) (height last_) (drop (S n) kids)). split.
  - pose proof (Hm (take n kids) (height t) (Nat.max (height t) rest)). lia.
  - pose proof (Hge (take n kids) (Nat.max (height t) rest)). lia.
Qed.
