(* ===== verification/BTreeRead.v ===== *)
(** The B+tree reads what it holds.

    [PageStoreLaws] is what the tree asks of its pages, an interface of the
    pages in use.  [tree_at m t] says that the pages [m] hold the tree [t]:
    every leaf with its links and cells, every interior node, every overflow
    chain, no page twice, and a sorted skeleton.  Against that, a descent ends
    in the leaf where the key belongs, and [get] returns what the entries
    say. *)

From stdpp Require Import base numbers list gmap strings sorting.
From S2P Require Import Prelude Bytes PageFormat BTreeNode BTreeNodeFacts BTree BTreeTree.
Open Scope Z_scope.

(** * The pages a tree works on *)

Definition pages_ok (psz : nat) (m : gmap PageNo Bytes) : Prop :=
  map_Forall (fun p b => 1 <= p < 2 ^ 64 /\ length b = psz /\ bytes_ok b) m.

(** [store_at w m k]: the pages in use have the contents [m], and [k] more
    can be allocated. *)
Class PageStoreLaws (W : Type) `{PageStore W} := {
  store_at : W -> gmap PageNo Bytes -> nat -> Prop;
  store_page_size : 512 <= Z.of_nat page_size <= 65536;
  store_pages w m k : store_at w m k -> pages_ok page_size m;
  store_read w m k p b : store_at w m k -> m !! p = Some b ->
    exists w', read_page p w = (Ret b, w') /\ store_at w' m k;
  store_write w m k p b : store_at w m k -> is_Some (m !! p) -> length b = page_size -> bytes_ok b ->
    exists w', write_page p b w = (Ret tt, w') /\ store_at w' (<[p := b]> m) k;
  store_allocate w m k : store_at w m (S k) ->
    exists p w', allocate_page w = (Ret p, w') /\ m !! p = None /\ store_at w' (<[p := replicate page_size 0]> m) k;
  store_free w m k p : store_at w m k -> is_Some (m !! p) ->
    exists w', free_page p w = (Ret tt, w') /\ store_at w' (delete p m) k
}.

Section runs.
Context {W : Type} `{PageStoreLaws W}.

(** [c] succeeds on the pages [m] and what it returns and leaves satisfies
    [Q]. *)
Definition runs {A} (c : M W A) (m : gmap PageNo Bytes) (k : nat) (Q : A -> gmap PageNo Bytes -> nat -> Prop) : Prop :=
  forall w, store_at w m k -> exists a w' m' k', c w = (Ret a, w') /\ store_at w' m' k' /\ Q a m' k'.

Lemma runs_ret {A} (a : A) m k Q : Q a m k -> runs (ret a) m k Q.
Proof. intros HQ w Hw. by exists a, w, m, k. Qed.
Lemma runs_bind {A B} (c : M W A) (f : A -> M W B) m k Q :
  runs c m k (fun a m' k' => runs (f a) m' k' Q) -> runs (bind c f) m k Q.
Proof.
  intros Hc w Hw. destruct (Hc w Hw) as (a & w' & m' & k' & E & Hw' & Hf).
  destruct (Hf w' Hw') as (b & w2 & m2 & k2 & E2 & Hw2 & HQ). exists b, w2, m2, k2.
  unfold bind. by rewrite E.
Qed.
Lemma runs_conseq {A} (c : M W A) m k (Q Q' : A -> gmap PageNo Bytes -> nat -> Prop) :
  runs c m k Q -> (forall a m' k', Q a m' k' -> Q' a m' k') -> runs c m k Q'.
Proof.
  intros Hc HQ w Hw. destruct (Hc w Hw) as (a & w' & m' & k' & E & Hw' & Hq). exists a, w', m', k'. auto.
Qed.
Lemma runs_read p b m k Q : m !! p = Some b -> Q b m k -> runs (read p) m k Q.
Proof. intros Hp HQ w Hw. destruct (store_read w m k p b Hw Hp) as (w' & E & Hw'). by exists b, w', m, k. Qed.
Lemma runs_write_page p b m k (Q : unit -> _) :
  is_Some (m !! p) -> length b = page_size -> bytes_ok b -> Q tt (<[p := b]> m) k -> runs (write_page p b) m k Q.
Proof.
  intros Hp Hl Hb HQ w Hw. destruct (store_write w m k p b Hw Hp Hl Hb) as (w' & E & Hw'). by exists tt, w', (<[p:=b]> m), k.
Qed.
Lemma runs_write tree p b m k (Q : unit -> _) :
  has_writer tree = true ->
  is_Some (m !! p) -> length b = page_size -> bytes_ok b -> Q tt (<[p := b]> m) k -> runs (write tree p b) m k Q.
Proof. intros Hw. unfold write. rewrite Hw. apply runs_write_page. Qed.
Lemma runs_allocate m k (Q : PageNo -> _) :
  (forall p, m !! p = None -> 1 <= p < 2 ^ 64 -> Q p (<[p := replicate page_size 0]> m) k) -> runs allocate_page m (S k) Q.
Proof.
  intros HQ w Hw. destruct (store_allocate w m k Hw) as (p & w' & E & Hp & Hw').
  exists p, w', (<[p := replicate page_size 0]> m), k. split_and!; [done|done|]. apply HQ; [done|].
  pose proof (store_pages _ _ _ Hw') as Hall. by destruct (Hall p _ (lookup_insert_eq _ _ _)).
Qed.
Lemma runs_free p m k (Q : unit -> _) : is_Some (m !! p) -> Q tt (delete p m) k -> runs (free_page p) m k Q.
Proof. intros Hp HQ w Hw. destruct (store_free w m k p Hw Hp) as (w' & E & Hw'). by exists tt, w', (delete p m), k. Qed.

(** Facts of the pages are available while running. *)
Lemma runs_pages {A} (c : M W A) m k Q :
  (pages_ok page_size m -> runs c m k Q) -> runs c m k Q.
Proof. intros H1 w Hw. exact (H1 (store_pages _ _ _ Hw) w Hw). Qed.
End runs.

(** * Trees in pages *)

Section tree_at.
Context (psz : nat).
(** The lengths of the keys of the tree. *)
Context (lo hi : nat).

Definition max_key : nat := (max_cell_bytes psz - kLeafCellHdr - 8)%nat.
Definition capacity : nat := (psz - kPageTrailerBytes - kOverflowHdr)%nat.

Definition key_ok (k : Bytes) : Prop := bytes_ok k /\ (lo <= length k <= hi)%nat.
Definition item_key (x : item) : Bytes := match x with K k => k | Sep k => k end.

(** The cell an entry is stored as. *)
Definition cell_of (e : Entry) : Bytes :=
  match e_chain e with
  | [] => build_leaf_cell (e_key e) (e_val e) false (Z.of_nat (length (e_val e))) 0
  | first :: _ => build_leaf_cell (e_key e) [] true (Z.of_nat (length (e_val e))) first
  end.

Fixpoint chain_at (m : gmap PageNo Bytes) (chain : list PageNo) (v : Bytes) : Prop :=
  match chain with
  | [] => v = []
  | p :: chain =>
      v <> [] /\ exists page, m !! p = Some page /\ get_u64 page 0 = hd 0 chain
        /\ sub kOverflowHdr (length (take capacity v)) page = take capacity v
        /\ chain_at m chain (drop capacity v)
  end.

Definition entry_at (m : gmap PageNo Bytes) (e : Entry) : Prop :=
  key_ok (e_key e) /\ bytes_ok (e_val e) /\ Z.of_nat (length (e_val e)) < 2 ^ 32
  /\ match e_chain e with
     | [] => (kLeafCellHdr + length (e_key e) + length (e_val e) <= max_cell_bytes psz)%nat
     | chain => chain_at m chain (e_val e)
     end.

Definition leaf_at (m : gmap PageNo Bytes) (p prev next : PageNo) (es : list Entry) : Prop :=
  exists page, m !! p = Some page /\ node_at psz page kLeaf next prev (map cell_of es).
Definition first_page (ls : list (PageNo * list Entry)) (next : PageNo) : PageNo :=
  match ls with [] => next | (p, _) :: _ => p end.
Fixpoint linked (m : gmap PageNo Bytes) (prev : PageNo) (ls : list (PageNo * list Entry)) (next : PageNo) : Prop :=
  match ls with
  | [] => True
  | (p, es) :: ls => leaf_at m p prev (first_page ls next) es /\ linked m p ls next
  end.

Definition inner_at (m : gmap PageNo Bytes) (x : inner) : Prop :=
  let '(p, cells, last_) := x in
  exists page prev, m !! p = Some page /\ node_at psz page kInterior last_ prev (interior_cells cells)
    /\ cells <> [] /\ Forall (fun x => key_ok (fst x) /\ u64_ok (snd x)) cells.

(** No leaf is empty but one that is alone. *)
Definition filled (ls : list (PageNo * list Entry)) : Prop := (length ls <= 1)%nat \/ Forall (fun l => snd l <> []) ls.

Record tree_at (m : gmap PageNo Bytes) (t : tree) : Prop := {
  ta_leaves : linked m 0 (leaves t) 0;
  ta_inners : Forall (inner_at m) (inners t);
  ta_entries : Forall (entry_at m) (entries_of t);
  ta_owned : NoDup (owned t);
  ta_sorted : sorted (skeleton t);
  ta_keys : Forall (fun x => key_ok (item_key x)) (skeleton t);
  ta_filled : filled (leaves t)
}.
End tree_at.

Lemma filled_snd ls ls' : map snd ls' = map snd ls -> filled ls -> filled ls'.
Proof.
  intros E. apply (f_equal length) in E as El. rewrite !length_map in El. unfold filled. rewrite El. intros [?|Hf]; [by left|right].
  apply (Forall_map snd (fun es => es <> [])). rewrite E. by apply Forall_map.
Qed.
Lemma filled_without B (x : PageNo * list Entry) A : filled (B ++ x :: A) -> filled (B ++ A).
Proof.
  unfold filled. rewrite !length_app, !Forall_app, Forall_cons. cbn [length]. intros [Hl|(? & _ & ?)]; [left; lia|by right].
Qed.
Lemma filled_with B (x : PageNo * list Entry) l A : filled (B ++ x :: A) -> Forall (fun x => snd x <> []) l -> filled (B ++ l ++ A).
Proof.
  unfold filled. rewrite !length_app, !Forall_app, Forall_cons. cbn [length]. intros [Hl|(? & _ & ?)] Hne; right; [|by split_and!].
  destruct B, A; cbn in Hl; try lia. by split_and!.
Qed.

(** * Reading nodes *)

Section reading.
Context {W : Type} `{PageStoreLaws W}.
#[local] Abbreviation psz := page_size.

Lemma max_key_bound : Z.of_nat (max_key psz) < 2 ^ 16 /\ Z.of_nat (max_cell_bytes psz) < 2 ^ 16.
Proof.
  pose proof store_page_size. unfold max_key, max_cell_bytes, kPageTrailerBytes, kHdr.
  pose proof (Nat.Div0.div_le_upper_bound (psz - 4 - 24) 4 psz). lia.
Qed.

Lemma pages_ok_lookup m p b : pages_ok psz m -> m !! p = Some b -> 1 <= p /\ u64_ok p /\ length b = psz /\ bytes_ok b.
Proof. intros Hm Hp. destruct (Hm p b Hp) as (? & ? & ?). unfold u64_ok. split_and!; try done; lia. Qed.

Lemma capacity_pos : (0 < capacity psz)%nat /\ (capacity psz + 12 = psz)%nat.
Proof. pose proof store_page_size. unfold capacity, kPageTrailerBytes, kOverflowHdr. lia. Qed.

(** ** Overflow chains *)

Lemma chain_length m chain : forall v, chain_at psz m chain v ->
  (length chain <= length v / capacity psz + 1)%nat.
Proof.
  destruct capacity_pos as [Hc _].
  induction chain as [|p chain IH]; intros v; cbn [chain_at length]; [lia|].
  intros (Hv & page & _ & _ & _ & Hch). specialize (IH _ Hch).
  destruct (decide (capacity psz <= length v)%nat) as [Hle|Hgt].
  - rewrite length_drop in IH. replace (length v) with (1 * capacity psz + (length v - capacity psz))%nat by lia.
    rewrite Nat.div_add_l by lia. lia.
  - rewrite drop_ge in Hch by lia. destruct chain; [cbn; lia|]. by destruct Hch.
Qed.

Lemma read_chain_runs hops : forall chain v m k (Q : Bytes -> _),
  chain_at psz m chain v -> (length chain <= hops)%nat -> Q v m k -> runs (read_chain hops (hd 0 chain) (length v)) m k Q.
Proof.
  induction hops as [|hops IH]; intros chain v m k Q Hch Hl HQ; destruct chain as [|p chain]; cbn [chain_at] in Hch;
    cbn [length] in Hl; try lia; try (subst v; by apply runs_ret).
  apply runs_pages. intros Hm. destruct Hch as (Hv & page & Hp & Hnext & Hsub & Hch). cbn [read_chain hd].
  destruct (Nat.eqb_spec (length v) 0) as [E|_]; [by apply nil_length_inv in E|].
  destruct (pages_ok_lookup _ _ _ Hm Hp) as (Hp1 & _). destruct (Z.eqb_spec p 0); [lia|].
  apply runs_bind, (runs_read _ page); [done|]. rewrite Hnext. change overflow_capacity with (capacity psz).
  apply runs_bind. replace (length v - Nat.min (capacity psz) (length v))%nat with (length (drop (capacity psz) v))
    by (rewrite length_drop; lia).
  apply (IH chain); [done|lia|]. apply runs_ret. rewrite length_take in Hsub. rewrite Hsub, take_drop. done.
Qed.

Context (lo hi : nat) (Hhi : (hi <= max_key page_size)%nat).

Lemma cell_of_ok m e : pages_ok psz m -> entry_at psz lo hi m e ->
  let c := cell_of e in
  cell_ok kLeaf c /\ cell_key kLeaf c = e_key e
  /\ match e_chain e with
     | [] => cell_overflowed c = false /\ cell_inline c = e_val e
     | first :: _ => cell_overflowed c = true /\ cell_vlen c = Z.of_nat (length (e_val e)) /\ cell_first c = first
     end.
Proof.
  intros Hm ((Hk & Hl) & Hv & Hvl & Hchain). pose proof max_key_bound. cbv zeta. unfold cell_of.
  destruct (e_chain e) as [|first chain].
  - destruct (build_leaf_inline_ok (e_key e) (e_val e) Hk Hv ltac:(lia) Hvl) as (? & ? & ? & ? & _). done.
  - destruct Hchain as (_ & page & Hp & _). destruct (pages_ok_lookup _ _ _ Hm Hp) as (_ & Hf & _).
    destruct (build_leaf_overflow_ok (e_key e) (Z.of_nat (length (e_val e))) first Hk ltac:(lia) ltac:(lia) Hf)
      as (? & ? & ? & ? & ? & _). done.
Qed.

(** ** Leaves *)

Section leaf.
Context (m : gmap PageNo Bytes) (page : Bytes) (next prev : PageNo) (es : list Entry).
Context (Hm : pages_ok psz m) (Hes : Forall (entry_at psz lo hi m) es).
Context (Hn : node_at psz page kLeaf next prev (map cell_of es)).

Lemma leaf_count : Node.count page = length es.
Proof. rewrite (na_count _ _ _ _ _ _ Hn). apply length_map. Qed.
Lemma leaf_type : Node.is_leaf page = true.
Proof. unfold Node.is_leaf. by rewrite (na_type _ _ _ _ _ _ Hn). Qed.
Lemma leaf_cell i e : es !! i = Some e -> map cell_of es !! i = Some (cell_of e).
Proof. intros Hi. change (map cell_of es) with (cell_of <$> es). by rewrite list_lookup_fmap, Hi. Qed.
Lemma leaf_entry i e : es !! i = Some e -> entry_at psz lo hi m e.
Proof. intros Hi. rewrite Forall_lookup in Hes. eauto. Qed.
Lemma leaf_key i e : es !! i = Some e -> Node.key page i = e_key e.
Proof.
  intros Hi. rewrite (node_key _ _ _ _ _ _ Hn _ _ (leaf_cell _ _ Hi)).
  by destruct (cell_of_ok m e Hm (leaf_entry _ _ Hi)) as (_ & ? & _).
Qed.
End leaf.

(** ** Interior nodes *)

Section inner.
Context (m : gmap PageNo Bytes) (page : Bytes) (last_ prev : PageNo) (cells : list (Bytes * PageNo)).
Context (Hkeys : Forall (fun x => key_ok lo hi (fst x) /\ u64_ok (snd x)) cells).
Context (Hn : node_at psz page kInterior last_ prev (interior_cells cells)).

Lemma inner_count : Node.count page = length cells.
Proof. rewrite (na_count _ _ _ _ _ _ Hn). apply length_map. Qed.
Lemma inner_type : Node.type page = kInterior /\ Node.is_leaf page = false.
Proof. unfold Node.is_leaf. by rewrite (na_type _ _ _ _ _ _ Hn). Qed.
Lemma inner_lookup i k c : cells !! i = Some (k, c) ->
  interior_cells cells !! i = Some (build_interior_cell k c) /\ key_ok lo hi k /\ u64_ok c.
Proof.
  intros Hi. unfold interior_cells. rewrite list_lookup_fmap, Hi. split; [done|].
  rewrite Forall_lookup in Hkeys. by apply (Hkeys i (k, c)).
Qed.
Lemma inner_key_child i k c : cells !! i = Some (k, c) -> Node.key page i = k /\ Node.child page i = c.
Proof.
  intros Hi. destruct (inner_lookup i k c Hi) as (Hc & [Hk Hl] & Hu). pose proof max_key_bound.
  destruct (build_interior_ok k c Hk ltac:(lia) Hu) as (_ & E1 & E2 & _).
  rewrite (node_key _ _ _ _ _ _ Hn _ _ Hc), (node_child _ _ _ _ _ _ Hn _ _ Hc) by done. done.
Qed.
End inner.

(** ** Searching *)

Lemma is_lt_spec a b : is_lt (compare_bytes a b) = true <-> klt a b.
Proof. unfold klt. rewrite compare_bytes_lex. by destruct (lex a b). Qed.
Lemma is_le_spec a b : is_le (compare_bytes a b) = true <-> kle a b.
Proof. unfold kle. rewrite compare_bytes_lex. by destruct (lex a b). Qed.
Lemma is_eq_spec a b : is_eq (compare_bytes a b) = true <-> a = b.
Proof. rewrite <- lex_eq, compare_bytes_lex. by destruct (lex a b). Qed.

(** The keys of a sorted sequence before and after a place. *)
Lemma sorted_lookup (l : list item) i j x y :
  sorted l -> l !! i = Some x -> l !! j = Some y -> (i < j)%nat -> ilt x y.
Proof.
  intros Hs Hi Hj Hij. rewrite <- (take_drop j l) in Hs. apply sorted_app in Hs as (_ & _ & Hs).
  apply Hs; apply list_elem_of_lookup.
  - exists i. by rewrite lookup_take_lt.
  - exists 0%nat. by rewrite lookup_drop, Nat.add_0_r.
Qed.

Lemma lower_bound_spec m page next prev es k :
  pages_ok psz m -> Forall (entry_at psz lo hi m) es -> node_at psz page kLeaf next prev (map cell_of es) ->
  sorted (map (fun e => K (e_key e)) es) ->
  let i := fst (Node.lower_bound page k) in
  (i <= length es)%nat /\ Forall (fun e => klt (e_key e) k) (take i es) /\ Forall (fun e => kle k (e_key e)) (drop i es).
Proof.
  intros Hm Hes Hn Hs. unfold Node.lower_bound. cbn [fst]. rewrite (leaf_count _ _ _ _ Hn).
  set (f := fun mid => is_lt (compare_bytes (Node.key page mid) k)).
  assert (Hf : forall i e, es !! i = Some e -> f i = true <-> klt (e_key e) k).
  { intros i e Hi. unfold f. rewrite is_lt_spec. by rewrite (leaf_key m page next prev es Hm Hes Hn i e Hi). }
  destruct (search_spec f (length es) 0 (length es)) as (H1 & H2 & H3); [lia|lia| |].
  { intros i j Hij Hj. destruct (lookup_lt_is_Some_2 es i ltac:(lia)) as [a Ha].
    destruct (lookup_lt_is_Some_2 es j ltac:(lia)) as [b Hb]. rewrite (Hf _ _ Ha). rewrite (Hf _ _ Hb) in Hj.
    destruct (decide (i = j)) as [->|]; [by simplify_eq|]. eapply klt_trans; [|exact Hj].
    change (ilt (K (e_key a)) (K (e_key b))). eapply (sorted_lookup _ i j); [exact Hs|..|lia];
      change (map (fun e => K (e_key e)) es) with ((fun e => K (e_key e)) <$> es); by rewrite list_lookup_fmap, ?Ha, ?Hb. }
  cbv zeta. split; [lia|]. split; apply Forall_lookup; intros i e Hi.
  - apply lookup_take_Some in Hi as [Hi Hlt]. apply (Hf i e Hi), H2. lia.
  - rewrite lookup_drop in Hi. pose proof (lookup_lt_Some _ _ _ Hi). apply kle_not_klt. rewrite <- (Hf _ _ Hi).
    rewrite H3 by lia. done.
Qed.

Lemma upper_bound_spec page last_ prev cells k :
  Forall (fun x => key_ok lo hi (fst x) /\ u64_ok (snd x)) cells ->
  node_at psz page kInterior last_ prev (interior_cells cells) ->
  sorted (map (fun x => Sep (fst x)) cells) ->
  let i := upper_bound page k in
  (i <= length cells)%nat /\ Forall (fun x => kle (fst x) k) (take i cells) /\ Forall (fun x => klt k (fst x)) (drop i cells).
Proof.
  intros Hk Hn Hs. unfold upper_bound. rewrite (inner_count _ _ _ _ Hn).
  set (f := fun mid => is_le (compare_bytes (Node.key page mid) k)).
  assert (Hf : forall i x, cells !! i = Some x -> f i = true <-> kle (fst x) k).
  { intros i [a c] Hi. unfold f. rewrite is_le_spec. by rewrite (proj1 (inner_key_child page last_ prev cells Hk Hn i a c Hi)). }
  destruct (search_spec f (length cells) 0 (length cells)) as (H1 & H2 & H3); [lia|lia| |].
  { intros i j Hij Hj. destruct (lookup_lt_is_Some_2 cells i ltac:(lia)) as [a Ha].
    destruct (lookup_lt_is_Some_2 cells j ltac:(lia)) as [b Hb]. rewrite (Hf _ _ Ha). rewrite (Hf _ _ Hb) in Hj.
    destruct (decide (i = j)) as [->|]; [by simplify_eq|]. apply klt_kle. eapply klt_kle_trans; [|exact Hj].
    change (ilt (Sep (fst a)) (Sep (fst b))). eapply (sorted_lookup _ i j); [exact Hs|..|lia];
      change (map (fun x => Sep (fst x)) cells) with ((fun x => Sep (fst x)) <$> cells); by rewrite list_lookup_fmap, ?Ha, ?Hb. }
  cbv zeta. split; [lia|]. split; apply Forall_lookup; intros i x Hi.
  - apply lookup_take_Some in Hi as [Hi Hlt]. apply (Hf i x Hi), H2. lia.
  - rewrite lookup_drop in Hi. pose proof (lookup_lt_Some _ _ _ Hi). pose proof (Hf _ _ Hi) as Hfi.
    rewrite H3 in Hfi by lia. destruct (key_cases k (fst x)) as [|[->|Hc]]; [done|..]; destruct Hfi as [_ Hfi].
    + discriminate (Hfi (kle_refl _)).
    + discriminate (Hfi (klt_kle _ _ Hc)).
Qed.

(** ** The leaf chain *)

Definition last_page (ls : list (PageNo * list Entry)) (prev : PageNo) : PageNo :=
  match last ls with Some x => fst x | None => prev end.

Lemma last_page_cons p es ls prev : last_page ((p, es) :: ls) prev = last_page ls p.
Proof. unfold last_page. rewrite last_cons. by destruct (last ls). Qed.

Lemma linked_app m l1 : forall l2 prev next,
  linked psz m prev (l1 ++ l2) next
  <-> linked psz m prev l1 (first_page l2 next) /\ linked psz m (last_page l1 prev) l2 next.
Proof.
  induction l1 as [|[p es] l1 IH]; intros l2 prev next; cbn [app linked]; [by split; [intros|intros []]|].
  rewrite IH, last_page_cons. destruct l1 as [|[q fs] l1]; cbn [app first_page]; tauto.
Qed.

Lemma linked_agree m m' ls : forall prev next,
  (forall p, p ∈ map fst ls -> m' !! p = m !! p) -> linked psz m prev ls next -> linked psz m' prev ls next.
Proof.
  induction ls as [|[p es] ls IH]; intros prev next Hag; cbn [linked]; [done|]. intros [(page & Hp & Hn) Hl].
  split.
  - exists page. split; [|done]. rewrite Hag; [done|]. cbn. left.
  - apply IH; [|done]. intros q Hq. apply Hag. cbn. by right.
Qed.

Definition somewhere m (x : PageNo * list Entry) : Prop := exists prev next, leaf_at psz m (fst x) prev next (snd x).
Lemma linked_somewhere m ls : forall prev next, linked psz m prev ls next -> Forall (somewhere m) ls.
Proof.
  induction ls as [|[p es] ls IH]; intros prev next; cbn [linked]; [constructor|]. intros [Hl Hls].
  constructor; [|by eapply IH]. by exists prev, (first_page ls next).
Qed.

(** ** Part of a tree in pages *)

Record part_at (m : gmap PageNo Bytes) (t : tree) : Prop := {
  pa_leaves : Forall (somewhere m) (leaves t);
  pa_inners : Forall (inner_at psz lo hi m) (inners t);
  pa_entries : Forall (entry_at psz lo hi m) (entries_of t);
  pa_sorted : sorted (skeleton t);
  pa_keys : Forall (fun x => key_ok lo hi (item_key x)) (skeleton t)
}.

Lemma tree_part m t : tree_at psz lo hi m t -> part_at m t.
Proof. intros []. constructor; try done. by eapply linked_somewhere. Qed.

Lemma entries_plug f t :
  entries_of (plug f t) = all_entries (frame_before leaves no_sep f) ++ entries_of t
                          ++ all_entries (frame_after leaves no_sep f).
Proof. unfold entries_of, all_entries. by rewrite leaves_plug, !map_app, !concat_app. Qed.

Lemma part_plug m f t : part_at m (plug f t) -> part_at m t.
Proof.
  intros []. rewrite leaves_plug in pa_leaves0. rewrite inners_plug in pa_inners0.
  rewrite entries_plug in pa_entries0. rewrite skeleton_plug in pa_sorted0, pa_keys0.
  apply Forall_app in pa_leaves0 as [_ [H1 _]%Forall_app]. apply Forall_cons in pa_inners0 as [_ [_ H2]%Forall_app].
  apply Forall_app in pa_entries0 as [_ [H3 _]%Forall_app]. apply Forall_app in pa_keys0 as [_ [H4 _]%Forall_app].
  apply sorted_app in pa_sorted0 as (_ & H5 & _). apply sorted_app in H5 as (H5 & _). by constructor.
Qed.

Lemma part_root m t : part_at m t -> is_Some (m !! root_page t).
Proof.
  intros []. destruct t as [p es|p kids last_]; cbn [root_page].
  - apply Forall_cons in pa_leaves0 as [(prev & next & page & Hp & _) _]. eauto.
  - apply Forall_cons in pa_inners0 as [(page & prev & Hp & _) _]. eauto.
Qed.

(** Opening a node at a child. *)
Lemma close_open {T} (kids : list (T * Bytes)) (last_ : T) : exists t post, close t post = (kids, last_).
Proof.
  induction kids as [|[t s] kids IH].
  - by exists last_, [].
  - destruct IH as (t' & post & E). exists t, ((s, t') :: post). cbn. by rewrite E.
Qed.
Lemma open_inner p kids last_ i : exists f t, plug f t = Inner p kids last_ /\ f_page f = p /\ f_pre f = take i kids
  /\ close t (f_post f) = (drop i kids, last_).
Proof.
  destruct (close_open (drop i kids) last_) as (t & post & E).
  exists (mkFrame p (take i kids) post), t. unfold plug. cbn [f_post f_pre f_page]. rewrite E, take_drop. done.
Qed.

Lemma open_child p kids last_ i f t :
  f_page f = p -> close t (f_post f) = (drop i kids, last_) -> (i <= length kids)%nat ->
  root_page t = match kid_cells kids !! i with Some (_, c) => c | None => root_page last_ end.
Proof.
  intros Hp Hc Hi. unfold kid_cells. rewrite list_lookup_fmap. rewrite <- (Nat.add_0_r i), <- lookup_drop.
  destruct (f_post f) as [|[s t'] post]; cbn [close] in Hc.
  - injection Hc as Hd <-. by rewrite <- Hd.
  - destruct (close t' post) as [l z]. injection Hc as Hd <-. by rewrite <- Hd.
Qed.

Lemma part_cells m p kids last_ :
  pages_ok psz m -> part_at m (Inner p kids last_) ->
  Forall (fun x => key_ok lo hi (fst x) /\ u64_ok (snd x)) (kid_cells kids)
  /\ sorted (map (fun x => Sep (fst x)) (kid_cells kids)) /\ u64_ok (root_page last_)
  /\ Forall (fun x => 1 <= snd x) (kid_cells kids) /\ 1 <= root_page last_.
Proof.
  intros Hm Hp.
  assert (Hroots : forall i, (i <= length kids)%nat -> exists c, u64_ok c /\ 1 <= c
            /\ c = match kid_cells kids !! i with Some (_, c) => c | None => root_page last_ end).
  { intros i Hi. destruct (open_inner p kids last_ i) as (f & t & E & Hf & _ & Hc). rewrite <- E in Hp.
    destruct (part_root m t (part_plug _ _ _ Hp)) as [b Hb]. destruct (pages_ok_lookup _ _ _ Hm Hb) as (? & ? & _).
    exists (root_page t). split_and!; [done|done|]. by apply (open_child p kids last_ i f). }
  assert (Hlen : length (kid_cells kids) = length kids) by apply length_map.
  destruct Hp as [_ _ _ Hs Hk]. cbn [skeleton] in Hs, Hk.
  assert (Hseps : Forall (fun x => key_ok lo hi (fst x)) (kid_cells kids) /\ sorted (map (fun x => Sep (fst x)) (kid_cells kids))).
  { clear Hroots Hlen. induction kids as [|[t s] kids IH]; [split; constructor|].
    rewrite in_order_cons in Hs, Hk. apply Forall_app in Hk as [_ Hk]. apply Forall_app in Hk as [Hk1 Hk2].
    apply sorted_app in Hs as (_ & Hs & _). apply sorted_app in Hs as (_ & Hs & Hlt).
    destruct (IH Hs Hk2) as [I1 I2]. cbn. split; [constructor; [|done]; by apply Forall_cons in Hk1 as [? _]|].
    constructor; [done|]. apply Forall_forall. intros x Hx. apply Hlt; [by left|].
    apply list_elem_of_fmap in Hx as ([k c] & -> & Hx). apply list_elem_of_fmap in Hx as ([t' s'] & E & Hx). injection E as -> ->.
    unfold in_order. apply elem_of_app. left. apply list_elem_of_In, in_concat.
    exists (skeleton t' ++ [Sep s']). split; [|apply list_elem_of_In; apply elem_of_app; right; by left].
    apply in_map_iff. exists (t', s'). split; [done|]. by apply list_elem_of_In. }
  destruct Hseps as [H1 H2]. split_and!; try done.
  - apply Forall_lookup. intros i [k c] Hi. split; [rewrite Forall_lookup in H1; by apply (H1 i _ Hi)|].
    pose proof (lookup_lt_Some _ _ _ Hi). destruct (Hroots i ltac:(lia)) as (c' & ? & ? & E). rewrite Hi in E. by subst c'.
  - destruct (Hroots (length kids) ltac:(lia)) as (c' & ? & ? & E).
    rewrite lookup_ge_None_2 in E by lia. by subst c'.
  - apply Forall_lookup. intros i [k c] Hi. pose proof (lookup_lt_Some _ _ _ Hi).
    destruct (Hroots i ltac:(lia)) as (c' & ? & ? & E). rewrite Hi in E. by subst c'.
  - destruct (Hroots (length kids) ltac:(lia)) as (c' & ? & ? & E).
    rewrite lookup_ge_None_2 in E by lia. by subst c'.
Qed.

(** ** The descent *)

Definition frame_entry (f : frame) : PathEntry := mkEntry (f_page f) (length (f_pre f)).

Lemma plug_all_snoc ctx f t : plug_all (ctx ++ [f]) t = plug f (plug_all ctx t).
Proof. revert t. induction ctx as [|g ctx IH]; intros t; cbn; [done|apply IH]. Qed.
Lemma before_snoc {X} (F : tree -> list X) G ctx f : before F G (ctx ++ [f]) = frame_before F G f ++ before F G ctx.
Proof. induction ctx as [|g ctx IH]; cbn; [by rewrite app_nil_r|]. by rewrite IH, app_assoc. Qed.
Lemma after_snoc {X} (F : tree -> list X) G ctx f : after F G (ctx ++ [f]) = after F G ctx ++ frame_after F G f.
Proof. induction ctx as [|g ctx IH]; cbn; [by rewrite app_nil_r|]. by rewrite IH, app_assoc. Qed.

(** A key belongs between what a context has before and after its hole. *)
Definition fits_at (ctx : list frame) (k : Bytes) : Prop :=
  (forall x, x ∈ sep_skeleton ctx -> ilt x (K k)) /\ (forall x, x ∈ skeleton_sep ctx -> ilt (K k) x).

Lemma frame_fits p kids last_ i f t k :
  sorted (skeleton (Inner p kids last_)) -> plug f t = Inner p kids last_ ->
  f_pre f = take i kids -> close t (f_post f) = (drop i kids, last_) -> (i <= length kids)%nat ->
  Forall (fun x => kle (fst x) k) (take i (kid_cells kids)) -> Forall (fun x => klt k (fst x)) (drop i (kid_cells kids)) ->
  (forall x, x ∈ frame_before skeleton (fun s => [Sep s]) f -> ilt x (K k))
  /\ (forall x, x ∈ frame_after skeleton (fun s => [Sep s]) f -> ilt (K k) x).
Proof.
  intros Hs Hpl Hpre Hclose Hi Hle Hlt. rewrite <- Hpl, skeleton_plug in Hs.
  apply sorted_app in Hs as (Hs1 & Hs2 & _). apply sorted_app in Hs2 as (_ & Hs2 & _). split.
  - intros x. unfold frame_before in *. rewrite Hpre in *. unfold kid_cells in Hle. rewrite firstn_map in Hle.
    induction (take i kids) as [|[u s] pre IH] using rev_ind; [intros Hx; by apply elem_of_nil in Hx|].
    rewrite map_app in Hle. apply Forall_app in Hle as [_ Hle]. apply Forall_cons in Hle as [Hle _]. cbn [fst snd] in Hle.
    rewrite map_app, concat_app in Hs1 |- *. cbn [map concat fst snd] in Hs1 |- *. rewrite app_nil_r, app_assoc in Hs1 |- *.
    apply sorted_app in Hs1 as (_ & _ & Hs1).
    intros [Hx|Hx]%elem_of_app.
    + apply (ilt_trans _ (Sep s)); [apply Hs1; [done|by left]|exact Hle].
    + apply list_elem_of_singleton in Hx as ->. exact Hle.
  - intros x. unfold frame_after in *. destruct (f_post f) as [|[s t'] post]; [intros Hx; by apply elem_of_nil in Hx|].
    cbn [close] in Hclose. destruct (close t' post) as [l z]. injection Hclose as Hd _.
    unfold kid_cells in Hlt. rewrite skipn_map, <- Hd in Hlt. apply Forall_cons in Hlt as [Hlt _]. cbn [fst snd] in Hlt.
    cbn [map concat fst snd app] in *. apply StronglySorted_inv in Hs2 as [_ Hs2]. rewrite Forall_forall in Hs2.
    intros [->|Hx]%elem_of_cons; [exact Hlt|]. apply (ilt_trans _ (Sep s)); [exact Hlt|by apply Hs2].
Qed.

Lemma descend_runs fuel : forall t key path m k (Q : list PathEntry * Bytes -> _),
  part_at m t -> (height t <= fuel)%nat ->
  (forall ctx p es page prev next, t = plug_all ctx (Leaf p es) -> m !! p = Some page ->
     node_at psz page kLeaf next prev (map cell_of es) -> fits_at ctx key ->
     Q (mkEntry p (fst (Node.lower_bound page key)) :: map frame_entry ctx ++ path, page) m k) ->
  runs (descend fuel key (root_page t) path) m k Q.
Proof.
  induction fuel as [|fuel IH]; intros t key path m k Q Hp Hh HQ; [destruct t; cbn in Hh; lia|].
  apply runs_pages. intros Hm. cbn [descend]. destruct t as [p es|p kids last_]; cbn [root_page].
  - pose proof (pa_leaves _ _ Hp) as Hl. apply Forall_cons in Hl as [(prev & next & page & Hpg & Hn) _]. cbn [fst snd] in *.
    apply runs_bind, (runs_read _ page); [done|]. rewrite (leaf_type _ _ _ _ Hn). apply runs_ret.
    apply (HQ [] p es page prev next); [done..|]. split; intros x Hx; by apply elem_of_nil in Hx.
  - destruct (part_cells m p kids last_ Hm Hp) as (Hk & Hseps & Hlast & Hpos & Hpos').
    pose proof (pa_inners _ _ Hp) as Hin. apply Forall_cons in Hin as [(page & prev & Hpg & Hn & _) _].
    apply runs_bind, (runs_read _ page); [done|]. destruct (inner_type _ _ _ _ Hn) as [-> ->]. cbn [negb].
    rewrite Z.eqb_refl. cbn [negb].
    destruct (upper_bound_spec page _ _ _ key Hk Hn Hseps) as (Hi & Hle & Hlt). set (i := upper_bound page key) in *.
    assert (Hlen : length (kid_cells kids) = length kids) by apply length_map.
    destruct (open_inner p kids last_ i) as (f & t & Hpl & Hf & Hpre & Hclose).
    assert (Hnext : (if (i <? Node.count page)%nat then Node.child page i else Node.right page) = root_page t).
    { rewrite (open_child p kids last_ i f t Hf Hclose) by lia. rewrite (inner_count _ _ _ _ Hn).
      destruct (Nat.ltb_spec i (length (kid_cells kids))) as [Hc|Hc].
      - destruct (lookup_lt_is_Some_2 _ _ Hc) as [[s c] Hsc]. rewrite Hsc.
        by destruct (inner_key_child page _ _ _ Hk Hn i s c Hsc).
      - rewrite lookup_ge_None_2 by done. apply (na_right _ _ _ _ _ _ Hn). }
    rewrite Hnext. rewrite <- Hpl in Hp. pose proof (part_plug _ _ _ Hp) as Hpt.
    destruct (part_root _ _ Hpt) as [b Hb]. destruct (pages_ok_lookup _ _ _ Hm Hb) as (Hr1 & _).
    destruct (Z.eqb_spec (root_page t) 0); [lia|].
    assert (Hent : mkEntry p i = frame_entry f).
    { unfold frame_entry. rewrite Hf, Hpre, length_take. f_equal. lia. }
    apply IH; [done|pose proof (height_plug f t); rewrite Hpl in *; lia|].
    intros ctx q es pg pv nx -> Hq Hnq [Hb1 Hb2].
    replace (map frame_entry ctx ++ mkEntry p i :: path) with (map frame_entry (ctx ++ [f]) ++ path)
      by (rewrite map_app, Hent, <- app_assoc; done).
    apply (HQ (ctx ++ [f]) q es pg pv nx); try done.
    { by rewrite plug_all_snoc, Hpl. }
    destruct (frame_fits p kids last_ i f (plug_all ctx (Leaf q es)) key) as [F1 F2]; try done; [|lia|].
    { rewrite <- Hpl. apply Hp. }
    unfold fits_at. rewrite before_snoc, after_snoc. split; intros x [Hx|Hx]%elem_of_app; auto.
Qed.

(** ** Keys and entries *)

Definition key_of (x : item) : option Bytes := match x with K k => Some k | Sep _ => None end.
Abbreviation keys_in := (omap key_of).

Lemma omap_concat {A B} (f : A -> option B) (l : list (list A)) : omap f (concat l) = concat (map (omap f) l).
Proof. induction l as [|x l IH]; [done|]. cbn [concat map]. by rewrite omap_app, IH. Qed.
Lemma all_entries_app a b : all_entries (a ++ b) = all_entries a ++ all_entries b.
Proof. unfold all_entries. by rewrite map_app, concat_app. Qed.
Lemma all_entries_concat l : all_entries (concat l) = concat (map all_entries l).
Proof. induction l as [|x l IH]; [done|]. cbn [concat map]. by rewrite all_entries_app, IH. Qed.

Lemma keys_skeleton t : keys_in (skeleton t) = map e_key (entries_of t).
Proof.
  induction t as [p es|p kids last_ IH1 IH2] using tree_induction.
  - cbn. unfold entries_of, all_entries. cbn. rewrite app_nil_r. induction es as [|e es IH]; [done|]. cbn. by f_equal.
  - unfold entries_of in *. cbn [skeleton leaves]. unfold in_order. rewrite omap_app, IH2, all_entries_app, map_app. f_equal.
    rewrite omap_concat, all_entries_concat, concat_map, !map_map. f_equal. apply map_ext_in.
    intros [u s] Hu. rewrite Forall_forall in IH1. apply list_elem_of_In, IH1 in Hu. cbn [fst snd] in *.
    rewrite omap_app, Hu. unfold no_sep. cbn. by rewrite !app_nil_r.
Qed.
Lemma keys_frame f :
  keys_in (frame_before skeleton (fun s => [Sep s]) f) = map e_key (all_entries (frame_before leaves no_sep f))
  /\ keys_in (frame_after skeleton (fun s => [Sep s]) f) = map e_key (all_entries (frame_after leaves no_sep f)).
Proof.
  unfold frame_before, frame_after. rewrite !omap_concat, !all_entries_concat, !concat_map, !map_map.
  split; f_equal; apply map_ext; intros [a b]; cbn [fst snd]; rewrite omap_app, keys_skeleton; unfold no_sep, entries_of; cbn;
    by rewrite ?app_nil_r.
Qed.
Lemma keys_context ctx :
  keys_in (sep_skeleton ctx) = map e_key (all_entries (before leaves no_sep ctx))
  /\ keys_in (skeleton_sep ctx) = map e_key (all_entries (after leaves no_sep ctx)).
Proof.
  induction ctx as [|f ctx [IH1 IH2]]; [done|]. cbn [before after]. destruct (keys_frame f) as [H1 H2].
  by rewrite !omap_app, !all_entries_app, !map_app, H1, H2, IH1, IH2.
Qed.

Lemma context_keys ctx k : fits_at ctx k ->
  Forall (fun e => klt (e_key e) k) (all_entries (before leaves no_sep ctx))
  /\ Forall (fun e => klt k (e_key e)) (all_entries (after leaves no_sep ctx)).
Proof.
  intros [H1 H2]. destruct (keys_context ctx) as [K1 K2]. split; apply Forall_forall; intros e He.
  - assert (Hk : e_key e ∈ keys_in (sep_skeleton ctx)) by (rewrite K1; by apply list_elem_of_fmap_2).
    apply list_elem_of_omap in Hk as ([a|a] & Ha & E); [|done]. injection E as ->. exact (H1 _ Ha).
  - assert (Hk : e_key e ∈ keys_in (skeleton_sep ctx)) by (rewrite K2; by apply list_elem_of_fmap_2).
    apply list_elem_of_omap in Hk as ([a|a] & Ha & E); [|done]. injection E as ->. exact (H2 _ Ha).
Qed.

(** The map a tree stands for. *)
Definition contents_of (es : list Entry) : gmap Bytes Bytes := list_to_map (map (fun e => (e_key e, e_val e)) es).
Definition contents (t : tree) : gmap Bytes Bytes := contents_of (entries_of t).

Lemma entries_plug_all ctx t :
  entries_of (plug_all ctx t) = all_entries (before leaves no_sep ctx) ++ entries_of t ++ all_entries (after leaves no_sep ctx).
Proof. unfold entries_of. by rewrite leaves_plug_all, !all_entries_app. Qed.

Lemma contents_app_none a b k : Forall (fun e => e_key e <> k) a -> contents_of (a ++ b) !! k = contents_of b !! k.
Proof.
  unfold contents_of. induction 1 as [|e a He Ha IH]; [done|]. cbn [app map]. cbn [list_to_map foldr fst snd].
  by rewrite lookup_insert_ne by done.
Qed.
Lemma contents_none a k : Forall (fun e => e_key e <> k) a -> contents_of a !! k = None.
Proof. intros Ha. rewrite <- (app_nil_r a), contents_app_none by done. apply lookup_empty. Qed.
Lemma klt_ne a b : klt a b -> a <> b.
Proof. intros Hab ->. by apply klt_irrefl in Hab. Qed.

(** The entry at the place of a key, in the whole tree. *)
Lemma contents_at ctx p es k i :
  fits_at ctx k -> Forall (fun e => klt (e_key e) k) (take i es) -> Forall (fun e => kle k (e_key e)) (drop i es) ->
  sorted (map (fun e => K (e_key e)) es) ->
  contents (plug_all ctx (Leaf p es)) !! k
  = match es !! i with Some e => if decide (e_key e = k) then Some (e_val e) else None | None => None end.
Proof.
  intros Hfit H1 H2 Hs. destruct (context_keys ctx k Hfit) as [Hb Ha]. unfold contents. rewrite entries_plug_all.
  rewrite contents_app_none by (eapply Forall_impl; [exact Hb|]; intros e; apply klt_ne).
  unfold entries_of at 1. cbn [leaves]. unfold all_entries at 1. cbn [map concat snd]. rewrite app_nil_r.
  rewrite <- (take_drop i es) at 1. rewrite <- app_assoc.
  rewrite contents_app_none by (eapply Forall_impl; [exact H1|]; intros e; apply klt_ne).
  assert (Hafter : Forall (fun e => e_key e <> k) (all_entries (after leaves no_sep ctx))).
  { eapply Forall_impl; [exact Ha|]. intros e He. symmetry. by apply klt_ne. }
  destruct (es !! i) as [e|] eqn:E.
  2: { rewrite drop_ge by (by apply lookup_ge_None). by apply contents_none. }
  rewrite (drop_S _ _ _ E) in *. apply Forall_cons in H2 as [H2 _]. cbn [app]. unfold contents_of at 1. cbn [map list_to_map foldr fst snd].
  destruct (decide (e_key e = k)) as [<-|Hne]; [by rewrite lookup_insert_eq|]. rewrite lookup_insert_ne by done.
  apply contents_none, Forall_app. split; [|done].
  assert (Hke : klt k (e_key e)) by (apply kle_cases in H2 as [->|?]; done).
  apply Forall_forall. intros e' He'. apply list_elem_of_lookup in He' as [j Hj]. rewrite lookup_drop in Hj.
  assert (Hlt : klt (e_key e) (e_key e')).
  { change (ilt (K (e_key e)) (K (e_key e'))). eapply (sorted_lookup _ i (S i + j)); [exact Hs|..|lia];
      change (map (fun e => K (e_key e)) es) with ((fun e => K (e_key e)) <$> es); by rewrite list_lookup_fmap, ?E, ?Hj. }
  symmetry. apply klt_ne. by eapply klt_trans.
Qed.

Lemma slot_value_runs m k page next prev es i e (Q : Bytes -> _) :
  pages_ok psz m -> Forall (entry_at psz lo hi m) es -> node_at psz page kLeaf next prev (map cell_of es) ->
  es !! i = Some e -> Q (e_val e) m k -> runs (slot_value page i) m k Q.
Proof.
  intros Hm Hes Hn Hi HQ. pose proof (leaf_cell es i e Hi) as Hc. pose proof (leaf_entry m es Hes i e Hi) as He.
  destruct (cell_of_ok m e Hm He) as (_ & _ & Hval). unfold slot_value.
  rewrite (node_overflowed _ _ _ _ _ _ Hn _ _ Hc eq_refl). destruct He as (_ & _ & _ & Hch).
  destruct (e_chain e) as [|first chain] eqn:E.
  - destruct Hval as [Ho Hin]. rewrite Ho. rewrite (node_inline _ _ _ _ _ _ Hn _ _ Hc eq_refl Ho), Hin. by apply runs_ret.
  - destruct Hval as (Ho & Hvl & Hf). rewrite Ho. rewrite (node_first _ _ _ _ _ _ Hn _ _ Hc eq_refl Ho), Hf.
    rewrite (node_value_len _ _ _ _ _ _ Hn _ _ Hc), Hvl. unfold read_overflow. rewrite Nat2Z.id.
    apply (read_chain_runs _ (first :: chain)); [done| |done]. change overflow_capacity with (capacity psz).
    pose proof (chain_length _ _ _ Hch). lia.
Qed.

(** ** Lookup *)

Lemma part_leaf m ctx p es : part_at m (plug_all ctx (Leaf p es)) ->
  Forall (entry_at psz lo hi m) es /\ sorted (map (fun e => K (e_key e)) es).
Proof.
  intros []. rewrite entries_plug_all in pa_entries0. rewrite skeleton_plug_all in pa_sorted0.
  apply Forall_app in pa_entries0 as [_ [H1 _]%Forall_app]. unfold entries_of, all_entries in H1. cbn in H1.
  rewrite app_nil_r in H1. apply sorted_app in pa_sorted0 as (_ & H2 & _). by apply sorted_app in H2 as (H2 & _).
Qed.

Lemma key_at_spec m page next prev es i key :
  pages_ok psz m -> Forall (entry_at psz lo hi m) es -> node_at psz page kLeaf next prev (map cell_of es) ->
  key_at page i key = match es !! i with Some e => bool_decide (e_key e = key) | None => false end.
Proof.
  intros Hm Hes Hn. unfold key_at. rewrite (leaf_count _ _ _ _ Hn). destruct (es !! i) as [e|] eqn:E.
  - pose proof (lookup_lt_Some _ _ _ E). destruct (Nat.ltb_spec i (length es)); [|lia]. cbn [andb].
    rewrite (leaf_key m page next prev es Hm Hes Hn i e E).
    case_bool_decide as Hk; [by apply is_eq_spec|]. apply not_true_iff_false. by intros Eq%is_eq_spec.
  - apply lookup_ge_None in E. destruct (Nat.ltb_spec i (length es)); [lia|done].
Qed.

Lemma get_runs tree t key m k :
  part_at m t -> root_page t = root_ tree -> (height t <= 64)%nat ->
  runs (get tree key) m k (fun r m' k' => r = contents t !! key /\ m' = m /\ k' = k).
Proof.
  intros Hp Hr Hh. unfold get, find_leaf. rewrite <- Hr. apply runs_pages. intros Hm.
  apply runs_bind, descend_runs; [done|done|]. intros ctx p es page prev next -> Hpg Hn Hfit.
  destruct (part_leaf _ _ _ _ Hp) as [Hes Hs]. cbn [slot_of pe_slot].
  destruct (lower_bound_spec m page next prev es key Hm Hes Hn Hs) as (Hi & H1 & H2).
  set (i := fst (Node.lower_bound page key)) in *.
  rewrite (key_at_spec m page next prev es i key Hm Hes Hn).
  pose proof (contents_at ctx p es key i Hfit H1 H2 Hs) as Hc.
  destruct (es !! i) as [e|] eqn:E; [|by apply runs_ret].
  case_bool_decide as Hk; [|rewrite decide_False in Hc by done; by apply runs_ret]. rewrite decide_True in Hc by done.
  cbn [negb]. apply runs_bind. eapply slot_value_runs; [done..|]. by apply runs_ret.
Qed.
End reading.
