(* ===== verification/BTreeSplit.v ===== *)
(** Interior nodes of the B+tree: inserting a separator after a split.

    [insert_separator] walks up the path, replacing the child that split by
    the two halves, splitting nodes that overflow and growing a new root.  The
    theorem says what the tree is afterwards.  A node is split at the middle
    cell by count, not by size, so its halves fit only when the keys have
    comparable lengths; that is the hypothesis [Hratio]. *)

From stdpp Require Import base numbers list gmap strings sorting.
From S2P Require Import Prelude Bytes PageFormat BTreeNode BTreeNodeFacts BTree BTreeTree BTreeRead.
Open Scope Z_scope.

Section split.
Context {W : Type} `{PageStoreLaws W}.
Context (lo hi : nat) (Hhi : (hi <= max_key page_size)%nat).
#[local] Abbreviation psz := page_size.

(** * Sizes *)

Definition cells_ok (cells : list (Bytes * PageNo)) : Prop :=
  Forall (fun x => key_ok lo hi (fst x) /\ u64_ok (snd x)) cells.

Lemma interior_cells_app a b : interior_cells (a ++ b) = interior_cells a ++ interior_cells b.
Proof. apply map_app. Qed.

Lemma interior_cell_facts k c : key_ok lo hi k -> u64_ok c ->
  cell_ok kInterior (build_interior_cell k c) /\ length (build_interior_cell k c) = (10 + length k)%nat.
Proof.
  intros [Hk Hl] Hc. pose proof (max_key_bound (W := W)). destruct (build_interior_ok k c Hk ltac:(lia) Hc) as (? & _ & _ & ?). done.
Qed.

Lemma interior_cells_ok cells : cells_ok cells -> Forall (cell_ok kInterior) (interior_cells cells).
Proof.
  intros Hc. apply Forall_forall. intros x Hx. apply list_elem_of_fmap in Hx as ([k c] & -> & Hx).
  unfold cells_ok in Hc. rewrite Forall_forall in Hc. destruct (Hc _ Hx). by apply interior_cell_facts.
Qed.

Lemma interior_cells_bytes cells : cells_ok cells ->
  ((12 + lo) * length cells <= slots_bytes (interior_cells cells) <= (12 + hi) * length cells)%nat.
Proof.
  unfold slots_bytes. induction 1 as [|[k c] cells [Hk Hc] _ IH]; [cbn; lia|].
  cbn [fst snd] in *. destruct (interior_cell_facts k c Hk Hc) as [_ E]. destruct Hk as [_ Hl].
  change (interior_cells ((k, c) :: cells)) with (build_interior_cell k c :: interior_cells cells).
  rewrite cells_bytes_cons, E. cbn [length]. lia.
Qed.

Lemma page_room : (4 * (12 + hi) + 20 <= Node.usable psz - kHdr)%nat.
Proof.
  pose proof (store_page_size (W := W)). unfold max_key, max_cell_bytes, Node.usable, kPageTrailerBytes, kHdr, kLeafCellHdr in *.
  pose proof (Nat.Div0.mul_div_le (psz - 4 - 24) 4). lia.
Qed.

(** The halves of an overflowing node fit. *)
Lemma halves_fit cells at_ sep child :
  (5 * (12 + hi) <= 8 * (12 + lo))%nat -> cells_ok cells -> key_ok lo hi sep -> u64_ok child ->
  (kHdr + slots_bytes (interior_cells cells) <= Node.usable psz)%nat ->
  (Node.usable psz < length (build_interior_cell sep child) + 2 + (kHdr + slots_bytes (interior_cells cells)))%nat ->
  (at_ <= length cells)%nat ->
  let all := take at_ cells ++ [(sep, child)] ++ drop at_ cells in
  let n := (length all / 2)%nat in
  cells_ok all /\ (3 <= length all)%nat
  /\ (kHdr + slots_bytes (interior_cells (take n all)) <= Node.usable psz)%nat
  /\ (kHdr + slots_bytes (interior_cells (drop (n + 1) all)) <= Node.usable psz)%nat.
Proof.
  intros Hratio Hc Hs Hu Hroom Hover Hat. cbv zeta. set (all := take at_ cells ++ _).
  assert (Hlen : length all = S (length cells)).
  { unfold all. rewrite !length_app, length_take, length_drop. cbn. lia. }
  assert (Hall : cells_ok all).
  { unfold all, cells_ok in *. rewrite <- (take_drop at_ cells) in Hc. apply Forall_app in Hc as [H1 H2].
    apply Forall_app. split; [done|]. by constructor. }
  pose proof (interior_cells_bytes cells Hc) as Hb. pose proof page_room as Hpr.
  rewrite (proj2 (interior_cell_facts sep child Hs Hu)) in Hover. destruct Hs as [_ Hsl].
  set (A := (12 + lo)%nat) in *. set (B := (12 + hi)%nat) in *. set (L := length cells) in *.
  assert (Hn : (4 <= L)%nat).
  { assert (B * 3 < B * L)%nat as Hlt by lia. apply Nat.mul_lt_mono_pos_l in Hlt; [lia|unfold B; lia]. }
  assert (Hhalf : forall k, (2 * k <= L + 1)%nat -> (B * k <= A * L)%nat).
  { intros k Hk. assert (B * (8 * k) <= B * (5 * L))%nat by (apply Nat.mul_le_mono_l; lia).
    assert (L * (5 * B) <= L * (8 * A))%nat by (apply Nat.mul_le_mono_l; lia). lia. }
  set (n := (length all / 2)%nat). assert (Hn2 : (2 * n <= length all < 2 * n + 2)%nat).
  { unfold n. pose proof (Nat.div_mod_eq (length all) 2). pose proof (Nat.mod_upper_bound (length all) 2). lia. }
  assert (Ht : cells_ok (take n all)) by (by apply Forall_take).
  assert (Hd : cells_ok (drop (n + 1) all)) by (by apply Forall_drop).
  pose proof (interior_cells_bytes _ Ht) as Hbt. pose proof (interior_cells_bytes _ Hd) as Hbd. fold A B in Hbt, Hbd.
  pose proof (Hhalf (length (take n all))). pose proof (Hhalf (length (drop (n + 1) all))).
  rewrite length_take in *. rewrite length_drop in *. split_and!; [done|lia|lia|lia].
Qed.

(** * The hole of a frame *)

Lemma frame_cells_slot f h : let '(cells, z) := frame_cells f h in
  (length (f_pre f) <= length cells)%nat
  /\ match f_post f with
     | [] => cells = kid_cells (f_pre f) /\ z = h
     | (s, t) :: post => exists rest, cells = kid_cells (f_pre f) ++ (s, h) :: rest
     end.
Proof.
  unfold frame_cells. assert (Hl : length (kid_cells (f_pre f)) = length (f_pre f)) by apply length_map.
  destruct (f_post f) as [|[s t] post]; cbn [fmap list_fmap close prod_map].
  - cbn. rewrite app_nil_r. split; [lia|done].
  - destruct (close _ _) as [l z]. cbn [map fst snd]. rewrite length_app. split; [lia|eauto].
Qed.

Lemma frame_cells_change f h h' :
  let '(cells, z) := frame_cells f h in
  let '(cells', z') := frame_cells f h' in
  length cells' = length cells
  /\ match f_post f with
     | [] => cells' = cells /\ z = h /\ z' = h'
     | (s, _) :: _ => cells !! length (f_pre f) = Some (s, h) /\ cells' = <[length (f_pre f) := (s, h')]> cells /\ z' = z
     end.
Proof.
  unfold frame_cells. assert (Hl : length (kid_cells (f_pre f)) = length (f_pre f)) by apply length_map.
  destruct (f_post f) as [|[s t] post]; cbn [fmap list_fmap close prod_map]; [done|].
  destruct (close _ _) as [l z]. cbn [map fst snd]. rewrite !length_app. split; [done|].
  rewrite lookup_app_r, <- Hl, Nat.sub_diag by lia. split_and!; [done| |done].
  rewrite insert_app_r_alt, Nat.sub_diag by lia. done.
Qed.

Lemma hole_update f h h' page prev :
  let '(cells, z) := frame_cells f h in
  let '(cells', z') := frame_cells f h' in
  let slot := length (f_pre f) in
  let last_ := negb (slot <? Node.count page)%nat in
  cells_ok cells -> u64_ok h' -> node_at psz page kInterior z prev (interior_cells cells) ->
  (if last_ then Node.right page else Node.child page slot) = h
  /\ node_at psz (if last_ then Node.set_right page h' else Node.set_child page slot h') kInterior z' prev (interior_cells cells')
  /\ cells_ok cells'.
Proof.
  pose proof (frame_cells_slot f h) as Hslot. pose proof (frame_cells_change f h h') as Hch.
  destruct (frame_cells f h) as [cells z], (frame_cells f h') as [cells' z'].
  destruct Hslot as [Hle Hcase]. destruct Hch as [Hlen Hch]. cbv zeta. intros Hok Hu Hn.
  rewrite (inner_count page z prev cells Hn). pose proof (store_page_size (W := W)) as Hpsz.
  assert (Hl : length (kid_cells (f_pre f)) = length (f_pre f)) by apply length_map.
  destruct (f_post f) as [|[s t] post].
  - destruct Hcase as [-> ->]. destruct Hch as (-> & _ & ->).
    destruct (Nat.ltb_spec (length (f_pre f)) (length (kid_cells (f_pre f)))); [lia|]. cbn [negb].
    split; [apply (na_right _ _ _ _ _ _ Hn)|]. split; [|done]. by eapply set_right_node.
  - destruct Hch as (Hlk & -> & ->). pose proof (lookup_lt_Some _ _ _ Hlk).
    destruct (Nat.ltb_spec (length (f_pre f)) (length cells)); [|lia]. cbn [negb].
    split; [by destruct (inner_key_child lo hi Hhi page z prev cells Hok Hn _ _ _ Hlk)|].
    assert (Hks : key_ok lo hi s /\ u64_ok h) by (unfold cells_ok in Hok; rewrite Forall_lookup in Hok; by apply (Hok _ _ Hlk)).
    split.
    + pose proof (set_child_node psz Hpsz page z prev (interior_cells cells) (length (f_pre f)) (build_interior_cell s h) h' Hn) as Hsc.
      rewrite set_child_cell in Hsc. unfold interior_cells. rewrite list_fmap_insert. apply Hsc; [|done].
      unfold interior_cells. by rewrite list_lookup_fmap, Hlk.
    + apply Forall_insert; [done|]. split; [apply Hks|done].
Qed.

(** The node with the child split in two. *)
Lemma plug2_cells f t s t' :
  let '(cells, z) := frame_cells f (root_page t') in
  let n := length (f_pre f) in
  exists kids last_, plug2 f t s t' = Inner (f_page f) kids last_
    /\ kid_cells kids = take n cells ++ [(s, root_page t)] ++ drop n cells /\ root_page last_ = z.
Proof.
  rewrite frame_cells_plug. unfold plug2. destruct (close t' (f_post f)) as [l z]. cbn [fst snd]. cbv zeta.
  do 2 eexists. split; [done|]. unfold kid_cells. rewrite !map_app.
  rewrite take_app_length', drop_app_length' by (symmetry; apply length_map). done.
Qed.

(** * Inserting a separator *)

(** The interior nodes of the tree are [l], and nothing else changed but
    pages of [old] and pages that were free. *)
Definition inners_in (m m' : gmap PageNo Bytes) (old : list PageNo) (l : list inner) : Prop :=
  Forall (inner_at psz lo hi m') l /\ NoDup (map inner_page l)
  /\ (forall p, p ∈ map inner_page l -> p ∈ old \/ m !! p = None)
  /\ (forall p, is_Some (m !! p) -> p ∉ old -> m' !! p = m !! p)
  /\ (forall p, is_Some (m !! p) -> is_Some (m' !! p)).

Lemma inner_at_agree m m' x : m' !! inner_page x = m !! inner_page x -> inner_at psz lo hi m x -> inner_at psz lo hi m' x.
Proof. destruct x as [[p cells] z]. unfold inner_page. cbn [fst]. intros E (page & prev & Hp & Hn). exists page, prev. by rewrite E. Qed.
Lemma inners_agree m m' l :
  (forall p, p ∈ map inner_page l -> m' !! p = m !! p) -> Forall (inner_at psz lo hi m) l -> Forall (inner_at psz lo hi m') l.
Proof.
  intros Hag Hl. apply Forall_forall. intros x Hx. rewrite Forall_forall in Hl.
  apply (inner_at_agree m); [|by apply Hl]. apply Hag. by apply list_elem_of_fmap_2.
Qed.

Lemma write_inner m p page z prev cells (k : nat) tree (Q : unit -> _) :
  has_writer tree = true -> is_Some (m !! p) ->
  node_at psz page kInterior z prev (interior_cells cells) -> Q tt (<[p := page]> m) k ->
  runs (write tree p page) m k Q.
Proof.
  intros Hw Hp Hn HQ. apply runs_write; [done|done| | |done]; apply Hn.
Qed.

(** A filled interior node. *)
Lemma filled_inner cells last_ :
  cells_ok cells -> u64_ok last_ -> (kHdr + slots_bytes (interior_cells cells) <= Node.usable psz)%nat ->
  node_at psz (Node.set_right (insert_cells (Node.init psz kInterior) 0 (interior_cells cells)) last_)
    kInterior last_ 0 (interior_cells cells).
Proof.
  intros Hc Hu Hroom. pose proof (store_page_size (W := W)) as Hpsz.
  eapply set_right_node; [done| |done]. apply fill_node; [done|unfold is_byte, kInterior; lia|by apply interior_cells_ok|done].
Qed.

Lemma new_root_node sep left right :
  key_ok lo hi sep -> u64_ok left -> u64_ok right ->
  node_at psz (new_root sep left right) kInterior right 0 (interior_cells [(sep, left)]).
Proof.
  intros Hs Hl Hr. assert (Hc : cells_ok [(sep, left)]) by (by apply Forall_singleton).
  assert (E : new_root sep left right
              = Node.set_right (insert_cells (Node.init psz kInterior) 0 (interior_cells [(sep, left)])) right)
    by (unfold new_root, interior_cells; cbn [map insert_cells]; reflexivity).
  rewrite E. apply filled_inner; [done|done|].
  pose proof (interior_cells_bytes _ Hc) as Hb. cbn [length] in Hb. pose proof page_room as Hpr. lia.
Qed.

(** The trees a node splits into. *)
Lemma split_trees kids (last_ : tree) n : (n < length kids)%nat ->
  exists t s, kids !! n = Some (t, s) /\ kid_cells kids !! n = Some (s, root_page t)
    /\ (forall X (F : tree -> list X) G,
          in_order F G (take n kids) t ++ G s ++ in_order F G (drop (n + 1) kids) last_ = in_order F G kids last_)
    /\ kid_cells (take n kids) = take n (kid_cells kids) /\ kid_cells (drop (n + 1) kids) = drop (n + 1) (kid_cells kids).
Proof.
  intros Hn. destruct (lookup_lt_is_Some_2 kids n Hn) as [[t s] Hts]. exists t, s.
  split_and!; [done|unfold kid_cells; by rewrite list_lookup_fmap, Hts| |unfold kid_cells; by rewrite firstn_map
    |unfold kid_cells; by rewrite skipn_map].
  intros X F G. rewrite <- (take_drop_middle kids n (t, s) Hts) at 3. rewrite in_order_app, in_order_cons.
  unfold in_order at 1. rewrite <- app_assoc. by rewrite Nat.add_1_r.
Qed.

Lemma plug2_inner f t s t' : exists kids last_, plug2 f t s t' = Inner (f_page f) kids last_.
Proof. unfold plug2. destruct (close t' (f_post f)). eauto. Qed.

Lemma in_order_plug2 {X} (F : tree -> list X) G f t s t' kids last_ :
  plug2 f t s t' = Inner (f_page f) kids last_ ->
  in_order F G kids last_ = frame_before F G f ++ F t ++ G s ++ F t' ++ frame_after F G f.
Proof.
  unfold plug2. pose proof (in_order_close F G t' (f_post f)) as Hc. destruct (close t' (f_post f)) as [l z]. cbn [fst snd] in Hc.
  intros E. injection E as <- <-. rewrite in_order_app, in_order_cons, Hc. done.
Qed.


Section insert_separator.
Context (tree : BTree) (Hw : has_writer tree = true) (Hratio : (5 * (12 + hi) <= 8 * (12 + lo))%nat).

Definition pages_of (l : list inner) : list PageNo := map inner_page l.

(** What [insert_separator] makes of the pending split at a context. *)
Definition separated (ctx : list frame) (tl : BTreeTree.tree) (sep : Bytes) (tr : BTreeTree.tree) (h : nat)
    (m m' : gmap PageNo Bytes) : Prop :=
  exists t', root_page t' = root_ tree
    /\ leaves t' = before leaves no_sep ctx ++ leaves tl ++ leaves tr ++ after leaves no_sep ctx
    /\ skeleton t' = sep_skeleton ctx ++ skeleton tl ++ Sep sep :: skeleton tr ++ skeleton_sep ctx
    /\ inners_in m m' (pages_of (ctx_inners ctx (root_page tl) ++ inners tl ++ inners tr)) (inners t')
    /\ (height t' <= h)%nat.

Lemma plug2_leaves ctx f tl sep tr :
  leaves (plug_all ctx (plug2 f tl sep tr)) = before leaves no_sep (f :: ctx) ++ leaves tl ++ leaves tr ++ after leaves no_sep (f :: ctx)
  /\ skeleton (plug_all ctx (plug2 f tl sep tr))
     = sep_skeleton (f :: ctx) ++ skeleton tl ++ Sep sep :: skeleton tr ++ skeleton_sep (f :: ctx).
Proof.
  rewrite leaves_plug_all, skeleton_plug_all. destruct (plug2_inner f tl sep tr) as (kids & last_ & E).
  pose proof (in_order_plug2 leaves no_sep f tl sep tr kids last_ E) as H1.
  pose proof (in_order_plug2 skeleton (fun s => [Sep s]) f tl sep tr kids last_ E) as H2.
  rewrite E. cbn [leaves skeleton before after]. rewrite H1, H2. unfold no_sep at 3. cbn [app]. rewrite <- !app_assoc. split; [done|].
  cbn [app]. by rewrite <- !app_assoc.
Qed.

(** The interior nodes of the node with the child split in two. *)
Lemma inners_plug2 f tl sep tr kids last_ :
  plug2 f tl sep tr = Inner (f_page f) kids last_ ->
  in_order inners no_sep kids last_ ≡ₚ frame_inners f ++ inners tl ++ inners tr.
Proof.
  intros E. rewrite (in_order_plug2 inners no_sep f tl sep tr kids last_ E). unfold no_sep at 2, frame_inners. cbn [app].
  rewrite <- !app_assoc. apply Permutation_app_head. rewrite (app_assoc (inners tl)).
  rewrite (Permutation_app_comm (inners tl ++ inners tr)). done.
Qed.

Lemma old_pages f ctx h tl tr :
  pages_of (ctx_inners (f :: ctx) h ++ inners tl ++ inners tr)
  ≡ₚ f_page f :: pages_of (ctx_inners ctx (f_page f) ++ frame_inners f ++ inners tl ++ inners tr).
Proof.
  cbn [ctx_inners app]. unfold pages_of. cbn [map].
  replace (inner_page (frame_inner f h)) with (f_page f) by (unfold frame_inner, inner_page; by destruct (frame_cells f h)).
  constructor. apply Permutation_map. rewrite <- !app_assoc. rewrite !app_assoc. do 2 apply Permutation_app_tail.
  apply Permutation_app_comm.
Qed.

Lemma pages_perm l l' : l ≡ₚ l' -> pages_of l ≡ₚ pages_of l'.
Proof. apply Permutation_map. Qed.

Lemma separated_in_place f ctx tl sep tr h m page prev kids last_ :
  top_page (f :: ctx) 0 = root_ tree -> is_Some (m !! f_page f) ->
  Forall (inner_at psz lo hi m) (ctx_inners (f :: ctx) (root_page tl) ++ inners tl ++ inners tr) ->
  NoDup (pages_of (ctx_inners (f :: ctx) (root_page tl) ++ inners tl ++ inners tr)) ->
  plug2 f tl sep tr = Inner (f_page f) kids last_ ->
  node_at psz page kInterior (root_page last_) prev (interior_cells (kid_cells kids)) ->
  cells_ok (kid_cells kids) -> kid_cells kids <> [] ->
  (height (plug_all ctx (plug2 f tl sep tr)) <= h)%nat ->
  separated (f :: ctx) tl sep tr h m (<[f_page f := page]> m).
Proof.
  intros Htop Hpg Hold Hnd E Hn Hc Hne Hh. exists (plug_all ctx (plug2 f tl sep tr)).
  destruct (plug2_leaves ctx f tl sep tr) as [Hl Hs].
  assert (Hin : inners (plug_all ctx (plug2 f tl sep tr))
                ≡ₚ (f_page f, kid_cells kids, root_page last_)
                    :: ctx_inners ctx (f_page f) ++ frame_inners f ++ inners tl ++ inners tr).
  { rewrite inners_plug_all, E. cbn [root_page inners]. rewrite (inners_plug2 f tl sep tr kids last_ E).
    by rewrite <- Permutation_middle. }
  assert (Hpages : pages_of (inners (plug_all ctx (plug2 f tl sep tr)))
                   ≡ₚ pages_of (ctx_inners (f :: ctx) (root_page tl) ++ inners tl ++ inners tr)).
  { rewrite old_pages. rewrite (pages_perm _ _ Hin). done. }
  rewrite old_pages in Hnd. apply NoDup_cons in Hnd as [Hnin Hnd].
  split_and!; [|done|done| |done].
  - rewrite root_plug_all, E. cbn [root_page]. rewrite <- Htop. unfold top_page. rewrite last_cons. by destruct (last ctx).
  - split_and!.
    + rewrite Hin. apply Forall_cons. split.
      { exists page, prev. by rewrite lookup_insert_eq. }
      apply (inners_agree m).
      { intros p Hp. rewrite lookup_insert_ne; [done|]. by intros <-. }
      cbn [ctx_inners app] in Hold. apply Forall_cons in Hold as [_ Hold].
      rewrite <- !app_assoc in Hold. rewrite !Forall_app in Hold. rewrite !Forall_app. tauto.
    + fold (pages_of (inners (plug_all ctx (plug2 f tl sep tr)))). rewrite Hpages, old_pages. by constructor.
    + intros p Hp. left. by rewrite <- Hpages.
    + intros p _ Hp. rewrite lookup_insert_ne; [done|]. intros <-. apply Hp. rewrite old_pages. by left.
    + intros p Hp. apply lookup_insert_is_Some'. auto.
Qed.

(** The halves of a node, in the pages. *)
Definition halves (f : frame) (kids : list (BTreeTree.tree * Bytes)) (last_ : BTreeTree.tree) (n : nat) (lp rp : PageNo)
    (t : BTreeTree.tree) : BTreeTree.tree * BTreeTree.tree :=
  (Inner lp (take n kids) t, Inner rp (drop (n + 1) kids) last_).

Lemma halves_inners f tl sep tr kids last_ n t s lp rp :
  plug2 f tl sep tr = Inner (f_page f) kids last_ -> kids !! n = Some (t, s) ->
  inners (Inner lp (take n kids) t) ++ inners (Inner rp (drop (n + 1) kids) last_)
  ≡ₚ (lp, kid_cells (take n kids), root_page t) :: (rp, kid_cells (drop (n + 1) kids), root_page last_)
     :: frame_inners f ++ inners tl ++ inners tr.
Proof.
  intros E Hn. cbn [inners app]. constructor. rewrite <- Permutation_middle. constructor.
  destruct (split_trees kids last_ n) as (t' & s' & Hts & _ & Hio & _); [by eapply lookup_lt_Some|].
  assert (t' = t /\ s' = s) as [-> ->] by (rewrite Hn in Hts; by injection Hts). pose proof (Hio _ inners no_sep) as Hi.
  unfold no_sep at 2 in Hi. cbn [app] in Hi. rewrite Hi. by apply inners_plug2 with (sep := sep).
Qed.

Lemma halves_order f tl sep tr kids last_ n t s lp rp :
  plug2 f tl sep tr = Inner (f_page f) kids last_ -> kids !! n = Some (t, s) ->
  leaves (Inner lp (take n kids) t) ++ leaves (Inner rp (drop (n + 1) kids) last_)
  = frame_before leaves no_sep f ++ leaves tl ++ leaves tr ++ frame_after leaves no_sep f
  /\ skeleton (Inner lp (take n kids) t) ++ Sep s :: skeleton (Inner rp (drop (n + 1) kids) last_)
     = frame_before skeleton (fun s => [Sep s]) f ++ skeleton tl ++ Sep sep :: skeleton tr
       ++ frame_after skeleton (fun s => [Sep s]) f.
Proof.
  intros E Hn. destruct (split_trees kids last_ n) as (t' & s' & Hts & _ & Hio & _); [by eapply lookup_lt_Some|].
  assert (t' = t /\ s' = s) as [-> ->] by (rewrite Hn in Hts; by injection Hts).
  pose proof (Hio _ leaves no_sep) as H1. pose proof (Hio _ skeleton (fun s => [Sep s])) as H2.
  rewrite (in_order_plug2 leaves no_sep f tl sep tr kids last_ E) in H1.
  rewrite (in_order_plug2 skeleton (fun s => [Sep s]) f tl sep tr kids last_ E) in H2. unfold no_sep at 2 5 in H1.
  cbn [app leaves skeleton] in *. done.
Qed.

(** A frame whose node is in the pages. *)
Lemma frame_page m f h : inner_at psz lo hi m (frame_inner f h) ->
  let '(cells, z) := frame_cells f h in
  exists page prev, m !! f_page f = Some page /\ node_at psz page kInterior z prev (interior_cells cells) /\ cells_ok cells.
Proof.
  unfold frame_inner. destruct (frame_cells f h) as [cells z]. intros (page & prev & Hp & Hn & _ & Hc). eauto.
Qed.

Lemma kid_cells_nonempty (cells : list (Bytes * PageNo)) n x :
  take n cells ++ [x] ++ drop n cells <> [].
Proof. intros E. apply (f_equal length) in E. rewrite !length_app in E. cbn in E. lia. Qed.

Lemma nonempty_take {A} (l : list A) n : (3 <= length l)%nat -> (n = length l / 2)%nat ->
  (1 <= n < length l)%nat /\ take n l <> [] /\ drop (n + 1) l <> [].
Proof.
  intros Hl ->. pose proof (Nat.div_mod_eq (length l) 2). pose proof (Nat.mod_upper_bound (length l) 2).
  split; [lia|]. split; intros E; apply (f_equal length) in E; rewrite ?length_take, ?length_drop in E; cbn [length] in E; lia.
Qed.

(** The recursive step keeps track of which pages were there. *)
Lemma inners_in_trans m m1 m' (O O1 : list PageNo) q l :
  inners_in m1 m' O1 l -> O1 ≡ₚ q :: O -> m !! q = None ->
  (forall p, is_Some (m !! p) -> p ∉ O -> m1 !! p = m !! p) -> (forall p, is_Some (m !! p) -> is_Some (m1 !! p)) ->
  inners_in m m' O l.
Proof.
  intros (H1 & H2 & H3 & H4 & H5) HO Hq Hag Hdom. split_and!; [done|done| | |auto].
  - intros p Hp. destruct (H3 p Hp) as [Hin|Hnone].
    + rewrite HO in Hin. apply elem_of_cons in Hin as [->|?]; auto.
    + right. destruct (m !! p) eqn:E; [|done]. destruct (Hdom p ltac:(eauto)) as [? E']. congruence.
  - intros p Hp Hn. rewrite H4; [by apply Hag|auto|]. rewrite HO. intros [->|?]%elem_of_cons; [|done].
    destruct Hp as [? Hp]. congruence.
Qed.

(** The cells of an overflowing node with the new one at its place. *)
Lemma gather_children_cells n z prev cells slot sep child :
  cells_ok cells -> node_at psz n kInterior z prev (interior_cells cells) ->
  gather_children n slot sep child = take slot cells ++ [(sep, child)] ++ drop slot cells.
Proof.
  intros Hc Hn. unfold gather_children. rewrite (inner_count n z prev cells Hn).
  assert (Hm : map (fun i => (Node.key n i, Node.child n i)) (seq 0 (length cells)) = cells); [|by rewrite Hm].
  apply list_eq. intros i. change (map ?g ?l) with (g <$> l). rewrite list_lookup_fmap.
  destruct (cells !! i) as [[a c]|] eqn:Ei.
  - destruct (inner_key_child lo hi Hhi n z prev cells Hc Hn i a c Ei) as [<- <-].
    by rewrite lookup_seq_lt by (by eapply lookup_lt_Some).
  - apply lookup_ge_None in Ei. by rewrite lookup_seq_ge by lia.
Qed.

(** The split of the root: the halves move to new pages under a new root. *)
Lemma separated_root f tl sep tr h m m' kids last_ n t s lp rp :
  plug2 f tl sep tr = Inner (f_page f) kids last_ -> kids !! n = Some (t, s) -> f_page f = root_ tree ->
  Forall (inner_at psz lo hi m) (frame_inners f ++ inners tl ++ inners tr) ->
  NoDup (f_page f :: pages_of (frame_inners f ++ inners tl ++ inners tr)) ->
  (forall p, p ∈ pages_of (ctx_inners [f] (root_page tl) ++ inners tl ++ inners tr) -> is_Some (m !! p)) ->
  m !! lp = None -> m !! rp = None -> lp <> rp ->
  Forall (inner_at psz lo hi m') [(f_page f, [(s, lp)], rp); (lp, kid_cells (take n kids), root_page t);
                                  (rp, kid_cells (drop (n + 1) kids), root_page last_)] ->
  (forall p, p ∉ [f_page f; rp; lp] -> m' !! p = m !! p) -> (forall p, is_Some (m !! p) -> is_Some (m' !! p)) ->
  (height (plug2 f tl sep tr) <= h)%nat ->
  separated [f] tl sep tr (S h) m m'.
Proof.
  intros E Hts Hroot Hrest Hnd HinO Hlp Hrp Hne Hnew Hm' Hdom Hh.
  set (O := pages_of (ctx_inners [f] (root_page tl) ++ inners tl ++ inners tr)) in *.
  assert (HO : O ≡ₚ f_page f :: pages_of (frame_inners f ++ inners tl ++ inners tr)) by apply (old_pages f []).
  assert (Hsub : forall p, p ∈ pages_of (frame_inners f ++ inners tl ++ inners tr) -> p ∈ O) by (intros p Hp; rewrite HO; by right).
  assert (HlpO : lp ∉ O) by (intros Hin; destruct (HinO _ Hin); congruence).
  assert (HrpO : rp ∉ O) by (intros Hin; destruct (HinO _ Hin); congruence).
  assert (HfO : f_page f ∈ O) by (rewrite HO; by left).
  set (TL := Inner lp (take n kids) t). set (TR := Inner rp (drop (n + 1) kids) last_).
  exists (Inner (f_page f) [(TL, s)] TR).
  destruct (halves_order f tl sep tr kids last_ n t s lp rp E Hts) as [Hlv Hsk].
  pose proof (halves_inners f tl sep tr kids last_ n t s lp rp E Hts) as Hhi'. fold TL TR in Hlv, Hsk, Hhi'.
  assert (Hin : inners (Inner (f_page f) [(TL, s)] TR)
            ≡ₚ (f_page f, [(s, lp)], rp) :: (lp, kid_cells (take n kids), root_page t)
               :: (rp, kid_cells (drop (n + 1) kids), root_page last_) :: frame_inners f ++ inners tl ++ inners tr).
  { change (inners (Inner (f_page f) [(TL, s)] TR))
      with ((f_page f, [(s, lp)], rp) :: in_order inners no_sep [(TL, s)] TR).
    rewrite in_order_cons. constructor. exact Hhi'. }
  apply NoDup_cons in Hnd as [Hnf Hnd]. split_and!; [done| | | |].
  - change (leaves (Inner (f_page f) [(TL, s)] TR)) with (in_order leaves no_sep [(TL, s)] TR).
    rewrite in_order_cons. cbn [before after]. rewrite app_nil_r. exact Hlv.
  - change (skeleton (Inner (f_page f) [(TL, s)] TR)) with (in_order skeleton (fun s => [Sep s]) [(TL, s)] TR).
    rewrite in_order_cons. cbn [before after]. rewrite app_nil_r. exact Hsk.
  - split_and!; [..|exact Hdom].
    + rewrite Hin. rewrite !Forall_cons in Hnew. destruct Hnew as (N1 & N2 & N3 & _). rewrite !Forall_cons.
      split_and!; [done..|]. apply (inners_agree m); [|done]. intros p Hp. apply Hm'. pose proof (Hsub p Hp).
      rewrite !elem_of_cons, elem_of_nil. intros [->|[->|[->|[]]]]; done.
    + rewrite Hin. cbn [map inner_page fst]. repeat apply NoDup_cons_2; rewrite ?elem_of_cons; [..|done].
      * intros [?|[?|Hp]]; [congruence|congruence|done].
      * intros [?|Hp]; [congruence|]. by apply HlpO, Hsub.
      * intros Hp. by apply HrpO, Hsub.
    + intros p Hp. rewrite Hin in Hp. cbn [map inner_page fst] in Hp. rewrite !elem_of_cons in Hp.
      destruct Hp as [->|[->|[->|Hp]]]; [by left|by right|by right|]. left. by apply Hsub.
    + intros p [b Hb] Hp. apply Hm'. rewrite !elem_of_cons, elem_of_nil. intros [->|[->|[->|[]]]]; [done|congruence|congruence].
  - pose proof (height_halves lp rp (f_page f) kids last_ n t s Hts) as [Hq1 Hq2]. rewrite <- E in Hq1, Hq2.
    fold TL in Hq1. fold TR in Hq2. change (S (Nat.max (height TL) (height TR)) <= S h)%nat. lia.
Qed.

(** A split below the root goes on in the parent. *)
Lemma separated_up f g ctx tl sep tr h m m1 m' kids last_ n t s rp :
  plug2 f tl sep tr = Inner (f_page f) kids last_ -> kids !! n = Some (t, s) -> m !! rp = None ->
  let TL := Inner (f_page f) (take n kids) t in
  let TR := Inner rp (drop (n + 1) kids) last_ in
  let O := pages_of (ctx_inners (f :: g :: ctx) (root_page tl) ++ inners tl ++ inners tr) in
  pages_of (ctx_inners (g :: ctx) (root_page TL) ++ inners TL ++ inners TR) ≡ₚ rp :: O ->
  f_page f ∈ O ->
  (forall p, p <> rp -> p <> f_page f -> m1 !! p = m !! p) -> (forall p, is_Some (m !! p) -> is_Some (m1 !! p)) ->
  separated (g :: ctx) TL s TR h m1 m' -> separated (f :: g :: ctx) tl sep tr h m m'.
Proof.
  intros E Hts Hrp TL TR O HO1 HfO Hm1 Hdom (t' & Hr & Hl & Hs & Hi & Hh). exists t'.
  destruct (halves_order f tl sep tr kids last_ n t s (f_page f) rp E Hts) as [Hlv Hsk]. fold TL TR in Hlv, Hsk.
  split_and!; [done| | | |done].
  - rewrite Hl, (app_assoc (leaves TL)), Hlv. cbn [before after]. by rewrite <- !app_assoc.
  - rewrite Hs. replace (skeleton TL ++ Sep s :: skeleton TR ++ skeleton_sep (g :: ctx))
      with ((skeleton TL ++ Sep s :: skeleton TR) ++ skeleton_sep (g :: ctx)) by (by rewrite <- app_assoc).
    rewrite Hsk. cbn [before after]. rewrite <- !app_assoc. cbn [app]. by rewrite <- !app_assoc.
  - eapply inners_in_trans; [exact Hi|exact HO1|done| |done]. intros p [b Hb] Hp.
    apply Hm1; [congruence|by intros ->].
Qed.

Lemma insert_separator_runs ctx : forall tl sep tr m k h,
  ctx <> [] -> top_page ctx 0 = root_ tree ->
  Forall (inner_at psz lo hi m) (ctx_inners ctx (root_page tl) ++ inners tl ++ inners tr) ->
  NoDup (pages_of (ctx_inners ctx (root_page tl) ++ inners tl ++ inners tr)) ->
  key_ok lo hi sep -> u64_ok (root_page tl) -> u64_ok (root_page tr) ->
  (height (plug_all ctx tl) <= h)%nat -> (length ctx + height tr <= h)%nat ->
  runs (insert_separator tree (map frame_entry ctx) sep (root_page tr)) m (length ctx + 1 + k)
    (fun _ m' k' => separated ctx tl sep tr (S h) m m' /\ (k <= k')%nat).
Proof.
  induction ctx as [|f ctx IH]; intros tl sep tr m k h Hne Htop Hold Hnd Hsep Hul Hur Hh1 Hh2; [done|]. clear Hne.
  pose proof (store_page_size (W := W)) as Hpsz.
  pose proof Hold as Hold'. cbn [ctx_inners app] in Hold'. apply Forall_cons in Hold' as [Hf Hrest].
  apply frame_page in Hf. pose proof (hole_update f (root_page tl) (root_page tr)) as Hup.
  pose proof (plug2_cells f tl sep tr) as Hp2. pose proof (frame_cells_slot f (root_page tr)) as Hslot.
  destruct (frame_cells f (root_page tl)) as [cells0 z0]. destruct (frame_cells f (root_page tr)) as [cells z].
  destruct Hf as (page & prev & Hpg & Hn0 & Hc0). destruct Hslot as [Hslot _].
  destruct (Hup page prev Hc0 Hur Hn0) as (Hchild & Hn & Hc). clear Hup. destruct Hp2 as (kids & last_ & E & Hkids & Hz).
  set (slot := length (f_pre f)) in *. cbn [map insert_separator frame_entry]. fold slot.
  apply runs_bind, (runs_read _ page); [done|]. rewrite Hchild.
  set (n := if negb (slot <? Node.count page)%nat then Node.set_right page (root_page tr)
            else Node.set_child page slot (root_page tr)) in *. cbv zeta.
  destruct (interior_cell_facts sep (root_page tl) Hsep Hul) as [Hcell Hclen].
  assert (Hall : cells_ok (kid_cells kids)).
  { rewrite Hkids. unfold cells_ok in *. rewrite <- (take_drop slot cells) in Hc. apply Forall_app in Hc as [? ?].
    apply Forall_app. split; [done|]. by constructor. }
  assert (Hcells : interior_cells (kid_cells kids)
            = take slot (interior_cells cells) ++ build_interior_cell sep (root_page tl) :: drop slot (interior_cells cells)).
  { rewrite Hkids, !interior_cells_app. unfold interior_cells. by rewrite firstn_map, skipn_map. }
  assert (Hlen : (slot <= length (interior_cells cells))%nat) by (unfold interior_cells; by rewrite length_map).
  assert (Hh : (height (plug_all ctx (plug2 f tl sep tr)) <= h)%nat).
  { pose proof (height_plug_all_le ctx (plug2 f tl sep tr) (plug f tl)). cbn [plug_all length] in *.
    pose proof (height_plug2 f tl sep tr (Nat.max (height tl) (height tr)) ltac:(lia) ltac:(lia)).
    pose proof (height_context ctx (plug f tl)). pose proof (height_plug f tl). lia. }
  assert (Hplace : forall page', node_at psz page' kInterior z prev (interior_cells (kid_cells kids)) ->
            runs (write tree (f_page f) page') m (length (f :: ctx) + 1 + k)
              (fun _ m' k' => separated (f :: ctx) tl sep tr (S h) m m' /\ (k <= k')%nat)).
  { intros page' Hn'. eapply write_inner; [done|by eauto|exact Hn'|]. split; [|lia]. rewrite <- Hz in Hn'.
    apply (separated_in_place f ctx tl sep tr (S h) m page' prev kids last_ Htop ltac:(eauto) Hold Hnd E Hn' Hall);
      [rewrite Hkids; apply kid_cells_nonempty|lia]. }
  destruct (Node.fits n (length (build_interior_cell sep (root_page tl)))) eqn:Efit.
  { apply Hplace. rewrite Hcells. apply (proj1 (node_fits psz Hpsz n kInterior z prev _ _ Hn)) in Efit.
    eapply insert_cell_node; [done|exact Hn|done|done|lia]. }
  destruct (Node.fits_after_defrag n _) eqn:Efit2.
  { apply Hplace. rewrite Hcells. apply (proj1 (node_fits_after psz Hpsz n kInterior z prev _ _ Hn)) in Efit2.
    destruct (defragment_node psz Hpsz n _ _ _ _ Hn) as [Hn' Hcs].
    eapply insert_cell_node; [done|exact Hn'|done|done|]. rewrite Hcs. lia. }
  clear Hplace. pose proof (node_room psz n _ _ _ _ Hn) as Hroom.
  assert (Hover : (Node.usable psz < length (build_interior_cell sep (root_page tl)) + 2
                    + (kHdr + slots_bytes (interior_cells cells)))%nat).
  { apply not_true_iff_false in Efit2. rewrite (node_fits_after psz Hpsz n _ _ _ _ _ Hn) in Efit2. unfold slots_bytes. lia. }
  destruct (halves_fit cells slot sep (root_page tl) Hratio Hc Hsep Hul) as (_ & Hl3 & Hfl & Hfr);
    [unfold slots_bytes; lia|done|done|]. cbv zeta in Hl3, Hfl, Hfr. rewrite <- Hkids in Hl3, Hfl, Hfr.
  rewrite (gather_children_cells n z prev cells slot sep (root_page tl) Hc Hn), <- Hkids. set (mid := (length (kid_cells kids) / 2)%nat) in *.
  destruct (nonempty_take (kid_cells kids) mid Hl3 eq_refl) as (Hmid & Hnt & Hnd').
  assert (Hlk : length (kid_cells kids) = length kids) by apply length_map.
  destruct (split_trees kids last_ mid ltac:(lia)) as (t & s & Hts & Hcs & _ & Ht1 & Ht2).
  rewrite (nth_lookup_Some _ _ _ _ Hcs). rewrite (na_right _ _ _ _ _ _ Hn), <- Hz, <- Ht1, <- Ht2 in *.
  assert (Hcl : cells_ok (kid_cells (take mid kids))) by (rewrite Ht1; by apply Forall_take).
  assert (Hcr : cells_ok (kid_cells (drop (mid + 1) kids))) by (rewrite Ht2; by apply Forall_drop).
  assert (Hsm : key_ok lo hi s /\ u64_ok (root_page t)) by (unfold cells_ok in Hall; rewrite Forall_lookup in Hall; by apply (Hall _ _ Hcs)).
  destruct Hsm as [Hsk Hut].
  assert (Huz : u64_ok (root_page last_)) by (by eapply node_links_ok in Hn as [? _]).
  pose proof (filled_inner _ _ Hcl Hut Hfl) as Hleft. pose proof (filled_inner _ _ Hcr Huz Hfr) as Hright.
  set (left := Node.set_right _ (root_page t)) in *. set (right := Node.set_right _ (root_page last_)) in *.
  assert (Hm' : map frame_entry ctx = [] <-> ctx = []) by (by destruct ctx).
  replace (length (f :: ctx) + 1 + k)%nat with (S (length ctx + 1 + k)) by (cbn; lia).
  apply runs_bind, runs_allocate. intros rp Hrp Hrpr.
  set (O := pages_of (ctx_inners (f :: ctx) (root_page tl) ++ inners tl ++ inners tr)) in *.
  assert (HO : O ≡ₚ f_page f :: pages_of (ctx_inners ctx (f_page f) ++ frame_inners f ++ inners tl ++ inners tr))
    by apply old_pages.
  assert (HinO : forall p, p ∈ O -> is_Some (m !! p)).
  { intros p Hp. apply list_elem_of_fmap in Hp as ([[q cs] zz] & -> & Hq). rewrite Forall_forall in Hold.
    destruct (Hold _ Hq) as (? & ? & ? & _). cbn. eauto. }
  assert (HrpO : rp ∉ O) by (intros Hin; destruct (HinO _ Hin); congruence).
  assert (HfO : f_page f ∈ O) by (rewrite HO; by left).
  assert (Hrpf : rp <> f_page f) by (by intros ->).
  pose proof (height_halves (f_page f) rp (f_page f) kids last_ mid t s Hts) as [Hhl Hhr]. rewrite <- E in Hhl, Hhr.
  pose proof (height_context ctx (plug2 f tl sep tr)) as Hhc.
  destruct ctx as [|g ctx].
  - apply runs_bind. cbn [length]. replace (0 + 1 + k)%nat with (S k) by lia. apply runs_allocate. intros lp Hlp Hlpr.
    assert (Hlprp : lp <> rp) by (intros ->; by rewrite lookup_insert_eq in Hlp).
    rewrite lookup_insert_ne in Hlp by done. assert (Hlpf : lp <> f_page f) by (intros ->; congruence).
    apply runs_bind. eapply write_inner; [done|by rewrite lookup_insert_eq; eauto|exact Hleft|].
    apply runs_bind. eapply write_inner;
      [done|rewrite !lookup_insert_ne by done; rewrite lookup_insert_eq; eauto|exact Hright|].
    assert (Hroot : f_page f = root_ tree) by (rewrite <- Htop; done). rewrite <- Hroot.
    assert (Hnr : node_at psz (new_root s lp rp) kInterior rp 0 (interior_cells [(s, lp)])) by (apply new_root_node; [done|unfold u64_ok; lia..]).
    eapply write_inner; [done|rewrite !lookup_insert_ne by done; eauto|exact Hnr|].
    split; [|lia]. rewrite HO in Hnd. cbn [ctx_inners app] in Hnd, Hrest. rewrite app_nil_r in Hrest.
    apply (separated_root f tl sep tr h m _ kids last_ mid t s lp rp E Hts Hroot Hrest Hnd HinO Hlp Hrp Hlprp);
      [..|exact Hh].
    + repeat (apply Forall_cons; split); [..|by apply Forall_nil].
      * exists (new_root s lp rp), 0. rewrite lookup_insert_eq. split_and!; [done|exact Hnr|done|].
        apply Forall_singleton. split; [done|]. unfold u64_ok. cbn [snd]. lia.
      * exists left, 0. rewrite !lookup_insert_ne by done. rewrite lookup_insert_eq. done.
      * exists right, 0. rewrite lookup_insert_ne by done. rewrite lookup_insert_eq. done.
    + intros p Hp. rewrite !lookup_insert_ne by set_solver. done.
    + intros p Hp. by repeat (apply lookup_insert_is_Some'; right).
  - apply runs_bind, runs_ret. apply runs_bind. eapply write_inner;
      [done|rewrite lookup_insert_ne by done; eauto|exact Hleft|].
    apply runs_bind. eapply write_inner; [done|rewrite lookup_insert_ne by done; rewrite lookup_insert_eq; eauto|exact Hright|].
    set (m2 := <[rp := right]> _). set (TL := Inner (f_page f) (take mid kids) t) in *. set (TR := Inner rp (drop (mid + 1) kids) last_) in *.
    assert (Hm2 : forall p, p <> rp -> p <> f_page f -> m2 !! p = m !! p).
    { intros p H1 H2. unfold m2. by rewrite !lookup_insert_ne by done. }
    pose proof (halves_inners f tl sep tr kids last_ mid t s (f_page f) rp E Hts) as Hhi'. fold TL TR in Hhi'.
    set (O1 := pages_of (ctx_inners (g :: ctx) (root_page TL) ++ inners TL ++ inners TR)).
    assert (HO1 : O1 ≡ₚ rp :: O).
    { unfold O1. rewrite (pages_perm _ (_ ++ _) (Permutation_app_head _ Hhi')), HO. unfold pages_of.
      rewrite !map_app. cbn [map inner_page fst]. rewrite <- !Permutation_middle, !map_app. by constructor. }
    apply runs_pages. intros Hm2ok.
    assert (Hfu : u64_ok (f_page f)).
    { assert (Hfm : m2 !! f_page f = Some left) by (unfold m2; rewrite lookup_insert_ne by done; apply lookup_insert_eq).
      by destruct (pages_ok_lookup _ _ _ Hm2ok Hfm) as (_ & ? & _). }
    eapply runs_conseq; [apply (IH TL s TR m2 k h)|].
    + done.
    + rewrite <- Htop. unfold top_page. rewrite !last_cons. by destruct (last ctx).
    + apply Forall_app. rewrite <- !app_assoc in Hrest.
      assert (Hkeep : Forall (inner_at psz lo hi m2) (frame_inners f ++ ctx_inners (g :: ctx) (f_page f) ++ inners tl ++ inners tr)).
      { apply (inners_agree m); [|done]. intros p Hp.
        assert (Hp' : p ∈ pages_of (ctx_inners (g :: ctx) (f_page f) ++ frame_inners f ++ inners tl ++ inners tr)).
        { revert Hp. unfold pages_of. rewrite !map_app, !elem_of_app. clear. intuition. }
        apply Hm2.
        - intros ->. apply HrpO. rewrite HO. by right.
        - intros ->. rewrite HO in Hnd. by apply NoDup_cons in Hnd as [Hnf _]. }
      rewrite !Forall_app in Hkeep. destruct Hkeep as (K1 & K2 & K3 & K4). split; [exact K2|].
      rewrite Hhi'. repeat (apply Forall_cons; split).
      * exists left, 0. unfold m2. rewrite lookup_insert_ne by done. rewrite lookup_insert_eq. done.
      * exists right, 0. unfold m2. rewrite lookup_insert_eq. done.
      * rewrite !Forall_app. done.
    + fold O1. rewrite HO1. by constructor.
    + done.
    + exact Hfu.
    + unfold u64_ok. cbn [TR root_page]. lia.
    + pose proof (height_plug_all_le (g :: ctx) TL (plug2 f tl sep tr)). lia.
    + lia.
    + intros _ m' k' [Hsep' Hk']. split; [|done]. eapply separated_up; try done.
      intros p Hp. unfold m2. by repeat (apply lookup_insert_is_Some'; right).
Qed.
End insert_separator.
End split.
