(* ===== verification/BTreePut.v ===== *)
(** The B+tree stores what it is given.

    [put] frees the overflow chain of the value it replaces, writes the new
    chain, stores the cell in the leaf and splits the leaf by size when it is
    full.  Each stage has its rule; the last theorem says that the tree
    afterwards holds the old contents with the key set, in the same place,
    and that pages of other trees are untouched. *)

From stdpp Require Import base numbers list gmap strings sorting.
From S2P Require Import Prelude Bytes PageFormat BTreeNode BTreeNodeFacts BTree BTreeTree BTreeRead BTreeSplit.
Open Scope Z_scope.

Section put.
Context {W : Type} `{PageStoreLaws W}.
#[local] Abbreviation psz := page_size.

(** * Bounded loops *)

(** A loop whose body counts down ends within its bound, or has used it up. *)
Lemma loop_runs {St A} (body : St -> M W (A + St)) (I : nat -> St -> gmap PageNo Bytes -> nat -> Prop)
    (Q : A -> gmap PageNo Bytes -> nat -> Prop) :
  (forall j x m k, I j x m k -> runs (body x) m k (fun r m' k' =>
     match r with inl a => Q a m' k' | inr x' => (0 < j)%nat /\ I (j - 1)%nat x' m' k' end)) ->
  forall n j x m k, I j x m k -> runs (loop n body x) m k (fun r m' k' =>
     match r with inl a => Q a m' k' | inr x' => (Pos.to_nat n <= j)%nat /\ I (j - Pos.to_nat n)%nat x' m' k' end).
Proof.
  intros Hbody. induction n as [n IH|n IH|]; intros j x m k HI; cbn [loop].
  - apply runs_bind. eapply runs_conseq; [by apply Hbody|]. intros [a|x1] m1 k1; [by intros; apply runs_ret|]. intros [Hj HI1].
    apply runs_bind. eapply runs_conseq; [by apply IH|]. intros [a|x2] m2 k2; [by intros; apply runs_ret|]. intros [Hj2 HI2].
    eapply runs_conseq; [by apply IH|]. intros [a|x3] m3 k3; [done|]. intros [Hj3 HI3]. rewrite Pos2Nat.inj_xI.
    split; [lia|]. replace (j - S (2 * Pos.to_nat n))%nat with (j - 1 - Pos.to_nat n - Pos.to_nat n)%nat by lia. done.
  - apply runs_bind. eapply runs_conseq; [by apply IH|]. intros [a|x2] m2 k2; [by intros; apply runs_ret|]. intros [Hj2 HI2].
    eapply runs_conseq; [by apply IH|]. intros [a|x3] m3 k3; [done|]. intros [Hj3 HI3]. rewrite Pos2Nat.inj_xO.
    split; [lia|]. replace (j - 2 * Pos.to_nat n)%nat with (j - Pos.to_nat n - Pos.to_nat n)%nat by lia. done.
  - eapply runs_conseq; [by apply Hbody|]. intros [a|x1] m1 k1; [done|]. intros [Hj HI1]. split; [lia|done].
Qed.

(** * Overflow chains *)

Lemma chain_agree m m' chain : forall v, (forall p, p ∈ chain -> m' !! p = m !! p) ->
  chain_at psz m chain v -> chain_at psz m' chain v.
Proof.
  induction chain as [|p chain IH]; intros v Hag; cbn [chain_at]; [done|].
  intros (Hv & page & Hp & Hnext & Hsub & Hch). split; [done|]. exists page.
  split_and!; [rewrite Hag; [done|by left]|done|done|]. apply IH; [|done]. intros q Hq. apply Hag. by right.
Qed.
Lemma chain_pages m chain : forall v p, chain_at psz m chain v -> p ∈ chain -> is_Some (m !! p).
Proof.
  induction chain as [|q chain IH]; intros v p; cbn [chain_at]; [by intros _ Hp%elem_of_nil|].
  intros (_ & page & Hq & _ & _ & Hch) [->|Hp]%elem_of_cons; eauto.
Qed.

(** The pages of a chain given back. *)
Definition without (m : gmap PageNo Bytes) (ps : list PageNo) : gmap PageNo Bytes := foldl (fun m p => delete p m) m ps.
Lemma lookup_without m ps : forall q, without m ps !! q = if decide (q ∈ ps) then None else m !! q.
Proof.
  revert m. induction ps as [|p ps IH]; intros m q; cbn [without foldl]; [done|].
  fold (without (delete p m) ps). rewrite IH. destruct (decide (q ∈ ps)) as [Hq|Hq].
  - by rewrite decide_True by (by right).
  - destruct (decide (q = p)) as [->|Hne]; [rewrite decide_True by left; apply lookup_delete_eq|].
    rewrite decide_False by (by intros [?|?]%elem_of_cons). by rewrite lookup_delete_ne by done.
Qed.

(** What remains to be freed of a chain: [j] is its length. *)
Definition freeing (m0 : gmap PageNo Bytes) (all : list PageNo) (k0 j : nat) (p : PageNo) (m : gmap PageNo Bytes) (k : nat) : Prop :=
  exists done_ chain v, all = done_ ++ chain /\ m = without m0 done_ /\ k = k0 /\ p = hd 0 chain /\ length chain = j
    /\ NoDup chain /\ chain_at psz m chain v.

Lemma free_hop_runs m0 all k0 j p m k :
  freeing m0 all k0 j p m k ->
  runs (free_hop p) m k (fun r m' k' =>
    match r with inl _ => m' = without m0 all /\ k' = k0 | inr p' => (0 < j)%nat /\ freeing m0 all k0 (j - 1) p' m' k' end).
Proof.
  intros (done_ & chain & v & -> & -> & -> & -> & <- & Hnd & Hch). unfold free_hop.
  destruct chain as [|q chain]; cbn [hd]; [rewrite app_nil_r; by apply runs_ret|].
  apply runs_pages. intros Hm. cbn [chain_at] in Hch. destruct Hch as (Hv & page & Hq & Hnext & Hsub & Hch).
  destruct (pages_ok_lookup _ _ _ Hm Hq) as (Hq1 & _). destruct (Z.eqb_spec q 0); [lia|].
  apply runs_bind, (runs_read _ page); [done|]. cbv zeta. apply runs_bind, runs_free; [by eauto|]. apply runs_ret.
  cbn [length]. split; [lia|]. apply NoDup_cons in Hnd as [Hnq Hnd].
  exists (done_ ++ [q]), chain, (drop (capacity psz) v). rewrite <- app_assoc. unfold without. rewrite foldl_app.
  split_and!; [done|done|done|done|lia|done|]. cbn [foldl]. apply (chain_agree (without m0 done_)); [|done]. intros r Hr.
  apply lookup_delete_ne. by intros ->.
Qed.

Lemma free_overflow_runs m k chain v :
  chain_at psz m chain v -> NoDup chain -> Z.of_nat (length v) < 2 ^ 32 ->
  runs (free_overflow (hd 0 chain)) m k (fun _ m' k' => m' = without m chain /\ k' = k).
Proof.
  intros Hch Hnd Hv. unfold free_overflow. apply runs_bind.
  assert (Hlen : Z.of_nat (length chain) < 2 ^ 24).
  { pose proof (chain_length _ _ _ Hch) as Hl. destruct (capacity_pos (W := W)) as [_ Hc].
    pose proof (store_page_size (W := W)).
    assert (Z.of_nat (length v / capacity psz) <= 2 ^ 32 / 500).
    { rewrite Nat2Z.inj_div. transitivity (Z.of_nat (length v) / 500); [apply Z.div_le_compat_l; lia|].
      apply Z.div_le_mono; lia. }
    change (2 ^ 32 / 500) with 8589934 in *. lia. }
  eapply runs_conseq.
  - eapply (loop_runs free_hop (freeing m chain k) (fun _ m' k' => m' = without m chain /\ k' = k)).
    + intros j x m1 k1. apply free_hop_runs.
    + exists [], chain, v. split_and!; try done.
  - intros [a|p] m' k'; [intros [-> ->]; by apply runs_ret|]. intros [Hle _]. exfalso.
    assert (2 ^ 24 <= Z.of_nat (Pos.to_nat (2 ^ 24))) by (rewrite positive_nat_Z; done). lia.
Qed.

(** [ps] are pages added to [m]. *)
Definition added (m m' : gmap PageNo Bytes) (ps : list PageNo) : Prop :=
  NoDup ps /\ Forall (fun p => m !! p = None) ps /\ Forall (fun p => is_Some (m' !! p)) ps
  /\ (forall p, p ∉ ps -> m' !! p = m !! p).

Lemma allocate_pages_runs n : forall m k,
  runs (allocate_pages n) m (n + k) (fun ps m' k' => length ps = n /\ k' = k /\ added m m' ps).
Proof.
  induction n as [|n IH]; intros m k; cbn [allocate_pages].
  { apply runs_ret. split_and!; [done|done|]. split_and!; [constructor..|done]. }
  apply runs_bind, runs_allocate. intros p Hp _. apply runs_bind. eapply runs_conseq; [apply IH|].
  intros ps m' k' (Hl & -> & Hnd & Hfresh & Hin & Hag). apply runs_ret. split_and!; [cbn; lia|done|].
  assert (Hps : p ∉ ps).
  { intros Hps. rewrite Forall_forall in Hfresh. specialize (Hfresh _ Hps). by rewrite lookup_insert_eq in Hfresh. }
  split_and!.
  - by constructor.
  - constructor; [done|]. eapply Forall_impl; [exact Hfresh|]. intros q. by intros [? _]%lookup_insert_None.
  - constructor; [|done]. rewrite (Hag p Hps), lookup_insert_eq. eauto.
  - intros q Hq. rewrite not_elem_of_cons in Hq. destruct Hq as [Hqp Hq]. rewrite Hag by done. by apply lookup_insert_ne.
Qed.

Lemma overflow_image_ok next data :
  u64_ok next -> bytes_ok data -> (length data <= capacity psz)%nat ->
  let page := overflow_image next data in
  length page = psz /\ bytes_ok page /\ get_u64 page 0 = next /\ sub kOverflowHdr (length data) page = data.
Proof.
  intros Hn Hd Hl. destruct (capacity_pos (W := W)) as [_ Hc]. cbv zeta. unfold overflow_image.
  set (p0 := put_u64 (replicate psz 0) 0 next).
  assert (L0 : length p0 = psz) by (unfold p0, put_u64; by rewrite length_blit, length_replicate).
  assert (B0 : bytes_ok p0).
  { apply bytes_ok_blit; [apply bytes_ok_le_bytes|apply bytes_ok_replicate; unfold is_byte; lia]. }
  unfold kOverflowHdr. split_and!; [by rewrite length_blit|by apply bytes_ok_blit| |].
  - unfold get_u64. rewrite get_le_blit_before by lia. apply (get_put_le 8); [rewrite length_replicate; lia|].
    unfold u64_ok in Hn. cbn. lia.
  - apply sub_blit_same; [done|lia].
Qed.

Lemma write_chain_runs ps : forall v m k,
  NoDup ps -> Forall (fun p => is_Some (m !! p)) ps -> bytes_ok v ->
  (length v <= capacity psz * length ps)%nat -> (capacity psz * length ps < length v + capacity psz)%nat ->
  runs (write_chain ps v) m k (fun _ m' k' => k' = k /\ chain_at psz m' ps v
    /\ (forall p, p ∉ ps -> m' !! p = m !! p) /\ (forall p, is_Some (m !! p) -> is_Some (m' !! p))).
Proof.
  destruct (capacity_pos (W := W)) as [Hc _].
  induction ps as [|p ps IH]; intros v m k Hnd Hin Hv H1 H2; cbn [write_chain].
  { apply runs_ret. cbn in *. split_and!; [done|destruct v; [done|cbn in *; lia]|done|done]. }
  apply runs_pages. intros Hm. apply NoDup_cons in Hnd as [Hp Hnd]. apply Forall_cons in Hin as [Hpm Hin].
  change overflow_capacity with (capacity psz). cbn [length] in H1, H2.
  assert (Hu : u64_ok (hd 0 ps)).
  { destruct ps as [|q ps]; [by unfold u64_ok|]. apply Forall_cons in Hin as [[b Hb] _].
    by destruct (pages_ok_lookup _ _ _ Hm Hb) as (_ & ? & _). }
  destruct (overflow_image_ok (hd 0 ps) (take (capacity psz) v) Hu (bytes_ok_take _ _ Hv)) as (Il & Ib & Inext & Isub).
  { rewrite length_take. lia. }
  apply runs_bind, runs_write_page; [done|done|done|]. set (m1 := <[p := _]> m).
  eapply runs_conseq.
  - apply IH; [done| |by apply bytes_ok_drop|rewrite length_drop; lia|].
    + eapply Forall_impl; [exact Hin|]. intros q Hq. apply lookup_insert_is_Some'. by right.
    + rewrite length_drop. destruct ps; [cbn in *; lia|]. cbn [length] in *. lia.
  - intros _ m' k' (-> & Hch & Hag & Hdom). split_and!; [done| | |].
    + cbn [chain_at]. split; [intros ->; cbn in *; lia|]. eexists. rewrite Hag by done. unfold m1. rewrite lookup_insert_eq.
      split_and!; done.
    + intros q [Hq1 Hq2]%not_elem_of_cons. rewrite Hag by done. by apply lookup_insert_ne.
    + intros q Hq. apply Hdom, lookup_insert_is_Some'. by right.
Qed.

(** The pages of the chain of a value. *)
Definition chain_cost (v : Bytes) : nat := ((length v + capacity psz - 1) / capacity psz)%nat.

Lemma write_overflow_runs v m k :
  bytes_ok v -> v <> [] ->
  runs (write_overflow v) m (chain_cost v + k)
    (fun first m' k' => k' = k /\ exists chain, hd 0 chain = first /\ chain <> [] /\ chain_at psz m' chain v /\ added m m' chain).
Proof.
  intros Hv Hne. unfold write_overflow. change overflow_capacity with (capacity psz). fold (chain_cost v).
  destruct (capacity_pos (W := W)) as [Hc _].
  apply runs_bind. eapply runs_conseq; [apply allocate_pages_runs|]. intros ps m1 k1 (Hl & -> & Hnd & Hfresh & Hin & Hag).
  assert (Hlen : (0 < length v)%nat) by (destruct v; [done|cbn; lia]).
  pose proof (Nat.div_mod_eq (length v + capacity psz - 1) (capacity psz)) as Hdm.
  pose proof (Nat.mod_upper_bound (length v + capacity psz - 1) (capacity psz) ltac:(lia)) as Hmb.
  fold (chain_cost v) in Hdm. set (r := ((length v + capacity psz - 1) mod capacity psz)%nat) in *. clearbody r.
  apply runs_bind. eapply runs_conseq; [apply write_chain_runs; [done|done|done|rewrite Hl; lia..]|].
  intros _ m2 k2 (-> & Hch & Hag2 & Hdom). apply runs_ret. split; [done|]. exists ps.
  split_and!; [done| |done|].
  - intros ->. cbn in Hl. rewrite <- Hl in Hdm. lia.
  - split_and!; [done|done| |].
    + eapply Forall_impl; [exact Hin|]. auto.
    + intros p Hp. by rewrite Hag2, Hag.
Qed.

(** * The cell of an entry *)

Lemma max_cell_bound : (15 <= max_cell_bytes psz)%nat.
Proof.
  pose proof (store_page_size (W := W)). unfold max_cell_bytes, kPageTrailerBytes, kHdr.
  pose proof (Nat.Div0.div_le_mono 484 (psz - 4 - 24) 4 ltac:(lia)). change (484 / 4)%nat with 121%nat in *. lia.
Qed.

Context (lo hi : nat) (Hhi : (hi <= max_key page_size)%nat).

Lemma entry_agree m m' e : (forall p, p ∈ e_chain e -> m' !! p = m !! p) -> entry_at psz lo hi m e -> entry_at psz lo hi m' e.
Proof.
  intros Hag (Hk & Hv & Hl & Hch). split_and!; [done..|]. destruct (e_chain e) as [|p chain]; [done|].
  by apply (chain_agree m).
Qed.

Definition cell_cost (key v : Bytes) : nat :=
  if (max_cell_bytes psz <? kLeafCellHdr + length key + length v)%nat then chain_cost v else 0%nat.

Lemma make_cell_runs key v m k :
  key_ok lo hi key -> bytes_ok v -> Z.of_nat (length v) < 2 ^ 32 ->
  runs (make_cell key v) m (cell_cost key v + k) (fun cell m' k' => k' = k /\ exists chain,
    let e := mkEnt key v chain in cell = cell_of e /\ entry_at psz lo hi m' e /\ added m m' chain).
Proof.
  intros Hk Hv Hl. unfold make_cell, cell_cost. unfold wrap32. rewrite Z.mod_small by lia.
  destruct (Nat.ltb_spec (max_cell_bytes psz) (kLeafCellHdr + length key + length v)) as [Hbig|Hsmall].
  - assert (Hne : v <> []).
    { intros ->. destruct Hk as [_ Hkl]. unfold max_key, kLeafCellHdr in *. cbn [length] in Hbig.
      pose proof max_cell_bound. lia. }
    apply runs_bind. eapply runs_conseq; [by apply write_overflow_runs|].
    intros first m' k' (-> & chain & <- & Hcne & Hch & Hadd). apply runs_ret. split; [done|]. exists chain.
    cbv zeta. destruct chain as [|p chain]; [done|]. split_and!; [done| |done]. split_and!; done.
  - apply runs_ret. split; [done|]. exists []. cbv zeta. split_and!; [done| |].
    + split_and!; done.
    + split_and!; [constructor..|done].
Qed.

(** * The place in a leaf *)

Lemma cell_of_size m e : pages_ok psz m -> entry_at psz lo hi m e ->
  cell_ok kLeaf (cell_of e) /\ (length (cell_of e) <= max_cell_bytes psz)%nat.
Proof.
  intros Hm He. split; [by destruct (cell_of_ok lo hi Hhi m e Hm He)|].
  destruct He as ((Hk & Hl) & Hv & Hvl & Hchain). pose proof (max_key_bound (W := W)). unfold cell_of.
  destruct (e_chain e) as [|first chain].
  - destruct (build_leaf_inline_ok (e_key e) (e_val e) Hk Hv ltac:(lia) Hvl) as (_ & _ & _ & _ & ->). lia.
  - destruct Hchain as (_ & page & Hp & _). destruct (pages_ok_lookup _ _ _ Hm Hp) as (_ & Hf & _).
    destruct (build_leaf_overflow_ok (e_key e) (Z.of_nat (length (e_val e))) first Hk ltac:(lia) ltac:(lia) Hf)
      as (_ & _ & _ & _ & _ & ->). unfold max_key, kLeafCellHdr in *.
    pose proof max_cell_bound. lia.
Qed.

(** ** Splitting a leaf by size *)

Lemma slots_bytes_cons c cells : slots_bytes (c :: cells) = (length c + 2 + slots_bytes cells)%nat.
Proof. unfold slots_bytes. rewrite cells_bytes_cons. cbn [length]. lia. Qed.
Lemma slots_bytes_sum cells : sum_list (map (fun c => length c + 2)%nat cells) = slots_bytes cells.
Proof.
  induction cells as [|c cells IH]; [done|]. cbn [map sum_list]. rewrite IH. by rewrite slots_bytes_cons.
Qed.
Lemma slots_bytes_take_drop n cells : (slots_bytes (take n cells) + slots_bytes (drop n cells))%nat = slots_bytes cells.
Proof. by rewrite <- (slots_bytes_app psz), take_drop. Qed.

Lemma split_point_spec cells : forall acc half, cells <> [] ->
  let s := split_point cells acc half in
  (s < length cells)%nat /\ (s = 0%nat \/ (acc + slots_bytes (take s cells) < half)%nat)
  /\ (S s = length cells \/ (half <= acc + slots_bytes (take (S s) cells))%nat).
Proof.
  induction cells as [|c cells IH]; intros acc half Hne; [done|]. cbn [split_point]. destruct cells as [|d cells].
  { cbn. split_and!; [lia|by left|by left]. }
  destruct (Nat.ltb_spec (acc + length c + 2) half) as [Hlt|Hge].
  - destruct (IH (acc + length c + 2)%nat half) as (H1 & H2 & H3); [done|]. cbv zeta.
    set (s := split_point (d :: cells) (acc + length c + 2) half) in *. split_and!; [cbn [length] in *; lia| |].
    + right. rewrite firstn_cons, slots_bytes_cons. destruct H2 as [->|H2]; [cbn; lia|lia].
    + destruct H3 as [H3|H3]; [left; cbn [length] in *; lia|right]. rewrite firstn_cons, slots_bytes_cons. lia.
  - cbv zeta. split_and!; [cbn; lia|by left|right]. rewrite firstn_cons, take_0, slots_bytes_cons. cbn. lia.
Qed.

Lemma slots_bytes_le cells n : Forall (fun c => (length c <= n)%nat) cells -> (slots_bytes cells <= (n + 2) * length cells)%nat.
Proof.
  induction 1 as [|c cells Hc _ IH]; [cbn; lia|]. rewrite slots_bytes_cons. cbn [length]. lia.
Qed.

Lemma leaf_page_room : (4 * (max_cell_bytes psz + 2) <= Node.usable psz - kHdr)%nat.
Proof.
  pose proof (store_page_size (W := W)). pose proof max_cell_bound. unfold max_cell_bytes, Node.usable, kPageTrailerBytes, kHdr in *.
  pose proof (Nat.Div0.mul_div_le (psz - 4 - 24) 4). lia.
Qed.

Lemma leaf_halves_fit cells :
  Forall (fun c => (length c <= max_cell_bytes psz)%nat) cells ->
  (Node.usable psz < kHdr + slots_bytes cells <= Node.usable psz + max_cell_bytes psz + 2)%nat ->
  let split := Nat.max 1 (split_point cells 0 (slots_bytes cells / 2)) in
  (1 <= split < length cells)%nat
  /\ (kHdr + slots_bytes (take split cells) <= Node.usable psz)%nat
  /\ (kHdr + slots_bytes (drop split cells) <= Node.usable psz)%nat.
Proof.
  intros Hc Hb. pose proof leaf_page_room as Hroom. pose proof (slots_bytes_le _ _ Hc) as Hall. pose proof max_cell_bound as Hmin.
  assert (Hlen : (4 < length cells)%nat).
  { assert (Hlt : (4 * (max_cell_bytes psz + 2) < length cells * (max_cell_bytes psz + 2))%nat) by lia.
    apply Nat.mul_lt_mono_pos_r in Hlt; lia. }
  assert (Hne : cells <> []) by (intros ->; cbn in Hlen; lia).
  pose proof (Nat.div_mod_eq (slots_bytes cells) 2) as Hdm. pose proof (Nat.mod_upper_bound (slots_bytes cells) 2 ltac:(lia)) as Hr2.
  set (T := slots_bytes cells) in *. set (half := (T / 2)%nat) in *. set (r := (T mod 2)%nat) in *. clearbody half r.
  destruct (split_point_spec cells 0 half Hne) as (H1 & H2 & H3). cbv zeta. set (s := split_point cells 0 half) in *. clearbody s.
  set (M := max_cell_bytes psz) in *. set (U := Node.usable psz) in *. clearbody M U. unfold kHdr in *.
  assert (Hs : (length (take (Nat.max 1 s) cells) = Nat.max 1 s)%nat) by (rewrite length_take; lia).
  assert (Hone : (slots_bytes (take 1 cells) <= M + 2)%nat).
  { pose proof (slots_bytes_le _ _ (Forall_take _ 1 _ Hc)) as Hx. rewrite length_take in Hx. lia. }
  pose proof (slots_bytes_take_drop (Nat.max 1 s) cells) as Htd. fold T in Htd.
  split; [lia|]. destruct s as [|s].
  - change (Nat.max 1 0) with 1%nat in *. split; [lia|]. destruct H3 as [H3|H3]; [lia|]. cbn [Nat.add] in H3. lia.
  - replace (Nat.max 1 (S s)) with (S s) in * by lia. destruct H2 as [H2|H2]; [lia|]. cbn [Nat.add] in H2. split; [lia|].
    destruct H3 as [H3|H3].
    + pose proof (slots_bytes_le _ _ (Forall_drop _ (S s) _ Hc)) as Hx. rewrite length_drop in Hx.
      replace (length cells - S s)%nat with 1%nat in Hx by lia. lia.
    + cbn [Nat.add] in H3. destruct (lookup_lt_is_Some_2 cells (S s) H1) as [c Hcs].
      rewrite (take_S_r _ _ _ Hcs), (slots_bytes_app psz) in H3. rewrite Forall_lookup in Hc. specialize (Hc _ _ Hcs). cbn beta in Hc.
      assert (slots_bytes [c] = (length c + 2)%nat) as E by (rewrite slots_bytes_cons; cbn; lia). lia.
Qed.

(** ** The nodes of the halves *)

Lemma gather_leaf_cells n nx pv cells slot cell :
  node_at psz n kLeaf nx pv cells -> gather_cells n slot cell = take slot cells ++ [cell] ++ drop slot cells.
Proof.
  intros Hn. unfold gather_cells. rewrite (na_count _ _ _ _ _ _ Hn).
  assert (Hm : map (fun i => sub (Node.slot n i) (Node.cell_size n i) n) (seq 0 (length cells)) = cells); [|by rewrite Hm].
  apply list_eq. intros i. change (map ?g ?l) with (g <$> l). rewrite list_lookup_fmap.
  destruct (cells !! i) as [c|] eqn:Ei.
  - rewrite lookup_seq_lt by (by eapply lookup_lt_Some). cbn [fmap option_fmap option_map Nat.add].
    rewrite (node_cell_size _ _ _ _ _ _ Hn _ _ Ei). by destruct (na_cells _ _ _ _ _ _ Hn _ _ Ei) as (_ & _ & -> & _).
  - apply lookup_ge_None in Ei. by rewrite lookup_seq_ge by lia.
Qed.

Lemma filled_leaf cells nx pv :
  Forall (cell_ok kLeaf) cells -> u64_ok nx -> u64_ok pv -> (kHdr + slots_bytes cells <= Node.usable psz)%nat ->
  node_at psz (Node.set_right (Node.set_prev (insert_cells (Node.init psz kLeaf) 0 cells) pv) nx) kLeaf nx pv cells.
Proof.
  intros Hc Hn Hp Hroom. pose proof (store_page_size (W := W)) as Hpsz.
  eapply set_right_node; [done| |done]. eapply set_prev_node; [done| |done].
  apply fill_node; [done|unfold is_byte, kLeaf; lia|done|done].
Qed.

(** ** Order and links of a split leaf *)

Lemma sorted_separator X l e r Y :
  l <> [] -> sorted (X ++ map (fun e => K (e_key e)) (l ++ e :: r) ++ Y) ->
  sorted (X ++ map (fun e => K (e_key e)) l ++ Sep (e_key e) :: map (fun e => K (e_key e)) (e :: r) ++ Y).
Proof.
  intros Hl Hs. rewrite map_app, <- app_assoc, app_assoc in Hs. rewrite app_assoc.
  set (X' := X ++ map _ l) in *. set (Y' := map _ (e :: r) ++ Y) in *.
  apply sorted_app in Hs as (H1 & H2 & H3). apply sorted_app. split_and!; [done| |].
  - constructor; [done|]. apply Forall_forall. intros y Hy. unfold Y' in *. cbn [map app] in *.
    apply elem_of_cons in Hy as [->|Hy]; [apply kle_refl|]. apply StronglySorted_inv in H2 as [_ H2].
    rewrite Forall_forall in H2. specialize (H2 _ Hy). destruct y; [by apply klt_kle|done].
  - intros x y Hx [->|Hy]%elem_of_cons; [|by apply H3]. assert (He : K (e_key e) ∈ Y') by (by left).
    destruct x as [a|s]; [exact (H3 _ _ Hx He)|]. unfold X' in *. apply elem_of_app in Hx as [Hx|Hx].
    + destruct l as [|d l]; [done|]. apply sorted_app in H1 as (_ & _ & H1).
      specialize (H1 _ (K (e_key d)) Hx ltac:(left)). assert (Hd : klt (e_key d) (e_key e)).
      { apply (H3 (K (e_key d)) (K (e_key e))); [|done]. apply elem_of_app. right. left. }
      by eapply kle_klt_trans.
    + apply list_elem_of_fmap in Hx as (? & ? & _). done.
Qed.

Lemma linked_split m m' B p es A l r rp :
  linked psz m 0 (B ++ (p, es) :: A) 0 -> NoDup (map fst A) -> u64_ok rp ->
  leaf_at psz m' p (last_page B 0) rp l -> leaf_at psz m' rp p (first_page A 0) r ->
  (forall q, q ∈ map fst B -> m' !! q = m !! q) ->
  (forall q, q ∈ map fst A -> q <> first_page A 0 -> m' !! q = m !! q) ->
  (A <> [] -> exists nb, m !! first_page A 0 = Some nb /\ m' !! first_page A 0 = Some (Node.set_prev nb rp)) ->
  linked psz m' 0 (B ++ (p, l) :: (rp, r) :: A) 0.
Proof.
  intros Hl Hnd Hu Hp Hr HB HA Hfirst. apply linked_app in Hl as [Hl1 Hl2]. apply linked_app. cbn [linked first_page] in *.
  destruct Hl2 as [_ Hl2]. split_and!; [by eapply linked_agree|done|done|].
  destruct A as [|[q fs] A]; [done|]. cbn [linked first_page map fst] in *. destruct Hl2 as [(page & Hq & Hnq) Hl2].
  apply NoDup_cons in Hnd as [Hqn Hnd]. split.
  - destruct Hfirst as (nb & Hnb & Hnb'); [done|]. assert (nb = page) as -> by congruence. eexists. split; [done|].
    pose proof (store_page_size (W := W)) as Hpsz. by eapply set_prev_node.
  - eapply linked_agree; [|done]. intros x Hx. apply HA; [by right|]. by intros ->.
Qed.

(** * The tree around a leaf *)

Definition node_pages (t : tree) : list PageNo := map fst (leaves t) ++ map inner_page (inners t).

(** The nodes of a tree are in the pages, whatever its overflow chains. *)
Record nodes_at (m : gmap PageNo Bytes) (t : tree) : Prop := {
  no_leaves : linked psz m 0 (leaves t) 0;
  no_inners : Forall (inner_at psz lo hi m) (inners t);
  no_pages : NoDup (node_pages t)
}.

Lemma tree_nodes m t : tree_at psz lo hi m t -> nodes_at m t.
Proof.
  intros []. constructor; [done|done|]. unfold owned in ta_owned. rewrite app_assoc in ta_owned.
  by apply NoDup_app in ta_owned as [? _].
Qed.

Lemma nodes_agree m m' t : (forall p, p ∈ node_pages t -> m' !! p = m !! p) -> nodes_at m t -> nodes_at m' t.
Proof.
  intros Hag []. constructor; [| |done].
  - apply (linked_agree m); [|done]. intros p Hp. apply Hag, elem_of_app. by left.
  - apply (inners_agree lo hi m); [|done]. intros p Hp. apply Hag, elem_of_app. by right.
Qed.

Lemma linked_pages m ls : forall prev next p, linked psz m prev ls next -> p ∈ map fst ls -> is_Some (m !! p).
Proof.
  induction ls as [|[q es] ls IH]; intros prev next p; cbn [linked map fst]; [by intros _ Hp%elem_of_nil|].
  intros [(page & Hq & _) Hl] [->|Hp]%elem_of_cons; [by eauto|by eapply IH].
Qed.
Lemma nodes_pages m t p : nodes_at m t -> p ∈ node_pages t -> is_Some (m !! p).
Proof.
  intros [] [Hp|Hp]%elem_of_app; [by eapply linked_pages|].
  apply list_elem_of_fmap in Hp as ([[q cs] z] & -> & Hq). rewrite Forall_forall in no_inners0.
  destruct (no_inners0 _ Hq) as (page & prev & Hp & _). cbn. eauto.
Qed.

(** Pages [m'] hold a tree of height [h] at most with the entries [es], made of
    the nodes of [t] and new pages. *)
Definition stored (h : nat) (t : tree) (es : list Entry) (m m' : gmap PageNo Bytes) : Prop :=
  exists t', root_page t' = root_page t /\ nodes_at m' t' /\ entries_of t' = es
    /\ sorted (skeleton t') /\ Forall (fun x => key_ok lo hi (item_key x)) (skeleton t')
    /\ (forall p, p ∈ node_pages t' -> p ∈ node_pages t \/ m !! p = None)
    /\ (forall p, is_Some (m !! p) -> p ∉ node_pages t -> m' !! p = m !! p)
    /\ (height t' <= h)%nat /\ (filled (leaves t) -> filled (leaves t')).

Lemma node_pages_plug ctx p es :
  node_pages (plug_all ctx (Leaf p es))
  ≡ₚ p :: map fst (before leaves no_sep ctx) ++ map fst (after leaves no_sep ctx) ++ map inner_page (ctx_inners ctx p).
Proof.
  unfold node_pages. rewrite (Permutation_map inner_page (inners_plug_all ctx (Leaf p es))). cbn [inners root_page].
  rewrite app_nil_r, leaves_plug_all. cbn [leaves]. rewrite !map_app. cbn [map fst app].
  rewrite <- !app_assoc. cbn [app]. rewrite <- Permutation_middle. done.
Qed.

Lemma linked_replace m m' B p es es' A :
  linked psz m 0 (B ++ (p, es) :: A) 0 -> (forall q, q ∈ map fst B ++ map fst A -> m' !! q = m !! q) ->
  leaf_at psz m' p (last_page B 0) (first_page A 0) es' -> linked psz m' 0 (B ++ (p, es') :: A) 0.
Proof.
  intros Hl Hag Hp. apply linked_app in Hl as [Hl1 Hl2]. apply linked_app. cbn [linked first_page] in *. destruct Hl2 as [_ Hl2].
  split_and!; [|done|]; (eapply linked_agree; [|done]); intros q Hq; apply Hag, elem_of_app; auto.
Qed.

Lemma leaf_links m ctx p es page next prev :
  nodes_at m (plug_all ctx (Leaf p es)) -> m !! p = Some page -> node_at psz page kLeaf next prev (map cell_of es) ->
  next = first_page (after leaves no_sep ctx) 0 /\ prev = last_page (before leaves no_sep ctx) 0.
Proof.
  intros [Hl _ _] Hp Hn. rewrite leaves_plug_all in Hl. cbn [leaves app] in Hl. apply linked_app in Hl as [_ Hl].
  cbn [linked] in Hl. destruct Hl as [(page' & Hp' & Hn') _]. assert (page' = page) as -> by congruence.
  split; [by rewrite <- (na_right _ _ _ _ _ _ Hn'), (na_right _ _ _ _ _ _ Hn)|].
  by rewrite <- (na_prev _ _ _ _ _ _ Hn'), (na_prev _ _ _ _ _ _ Hn).
Qed.

Section at_leaf.
Context (m : gmap PageNo Bytes) (ctx : list frame) (p : PageNo) (es es' : list Entry).
Context (page : Bytes) (next prev : PageNo).
#[local] Abbreviation t := (plug_all ctx (Leaf p es)).
#[local] Abbreviation B := (before leaves no_sep ctx).
#[local] Abbreviation A := (after leaves no_sep ctx).
Context (Ht : nodes_at m t) (Hp : m !! p = Some page).
Context (Hn : node_at psz page kLeaf next prev (map cell_of es)).
Context (Hsorted : sorted (sep_skeleton ctx ++ map (fun e => K (e_key e)) es' ++ skeleton_sep ctx)).
Context (Hkeys : Forall (fun x => key_ok lo hi (item_key x)) (sep_skeleton ctx ++ map (fun e => K (e_key e)) es' ++ skeleton_sep ctx)).
#[local] Abbreviation all := (all_entries B ++ es' ++ all_entries A).

Lemma stored_in_place h page' :
  node_at psz page' kLeaf next prev (map cell_of es') -> es' <> [] \/ ctx = [] -> (height t <= h)%nat -> stored h t all m (<[p := page']> m).
Proof.
  intros Hn' Hne Hth. exists (plug_all ctx (Leaf p es')). pose proof (node_pages_plug ctx p es) as HP.
  pose proof (node_pages_plug ctx p es') as HP'. destruct (leaf_links m ctx p es page next prev Ht Hp Hn) as [-> ->].
  pose proof (no_pages _ _ Ht) as Hnd. rewrite HP in Hnd. apply NoDup_cons in Hnd as [Hpn Hnd].
  assert (Hag : forall q, q ∈ map fst B ++ map fst A ++ map inner_page (ctx_inners ctx p) -> <[p := page']> m !! q = m !! q).
  { intros q Hq. apply lookup_insert_ne. by intros ->. }
  split_and!.
  - by rewrite !root_plug_all.
  - destruct Ht as [Hl Hi _]. constructor.
    + rewrite leaves_plug_all in *. cbn [leaves app] in *. eapply linked_replace; [done| |].
      * intros q Hq. apply Hag. rewrite app_assoc, elem_of_app. by left.
      * exists page'. by rewrite lookup_insert_eq.
    + rewrite inners_plug_all in *. cbn [inners root_page] in *. rewrite app_nil_r in *.
      eapply (inners_agree lo hi m); [|done]. intros q Hq. apply Hag. rewrite !elem_of_app. auto.
    + rewrite HP'. by constructor.
  - rewrite entries_plug_all. f_equal. f_equal. unfold entries_of, all_entries. cbn. by rewrite app_nil_r.
  - by rewrite skeleton_plug_all.
  - by rewrite skeleton_plug_all.
  - intros q Hq. left. rewrite HP in *. by rewrite HP' in Hq.
  - intros q _ Hq. apply lookup_insert_ne. intros <-. apply Hq. rewrite HP. by left.
  - pose proof (height_plug_all_le ctx (Leaf p es') (Leaf p es)) as Hh. cbn [height] in Hh.
    pose proof (height_context ctx (Leaf p es)). cbn [height] in *. lia.
  - rewrite !leaves_plug_all. cbn [leaves app]. destruct Hne as [Hne| ->]; [|by left]. intros Hf.
    apply (filled_with _ _ [(p, es')] _ Hf). by constructor.
Qed.

(** The leaf split in two under its parent. *)
Lemma stored_split tree m1 m' l e r rp :
  l <> [] -> es' = l ++ e :: r -> m !! rp = None -> u64_ok rp ->
  leaf_at psz m1 p prev rp l -> leaf_at psz m1 rp p next (e :: r) ->
  (forall q, q <> p -> q <> rp -> (A <> [] -> q <> next) -> m1 !! q = m !! q) ->
  (A <> [] -> exists nb, m !! next = Some nb /\ m1 !! next = Some (Node.set_prev nb rp)) ->
  (forall q, is_Some (m !! q) -> is_Some (m1 !! q)) ->
  root_ tree = root_page t -> key_ok lo hi (e_key e) ->
  separated lo hi tree ctx (Leaf p l) (e_key e) (Leaf rp (e :: r)) (S (height t)) m1 m' -> stored (S (height t)) t all m m'.
Proof.
  intros Hl -> Hrp Hu HL HR Hag Hnext Hdom Hroot Hke (t' & Hr & Hlv & Hsk & Hin & Hh). exists t'.
  pose proof (node_pages_plug ctx p es) as HP. destruct (leaf_links m ctx p es page next prev Ht Hp Hn) as [-> ->].
  pose proof Ht as [Hlk _ Hnd]. rewrite HP in Hnd. apply NoDup_cons in Hnd as [Hpn Hnd]. rewrite leaves_plug_all in Hlk.
  cbn [leaves app inners root_page] in *. rewrite app_nil_r in Hin.
  change (pages_of (ctx_inners ctx p)) with (map inner_page (ctx_inners ctx p)) in Hin. destruct Hin as (Hi1 & Hi2 & Hi3 & Hi4 & _).
  assert (HrpP : rp ∉ node_pages t) by (intros Hx; destruct (nodes_pages _ _ _ Ht Hx); congruence).
  rewrite HP in HrpP. apply not_elem_of_cons in HrpP as [Hrpp HrpO].
  assert (Hfirst : A <> [] -> first_page A 0 ∈ map fst A) by (destruct A as [|[q fs] A']; [done|]; intros _; left).
  apply NoDup_app in Hnd as (HndB & HdB & Hnd). apply NoDup_app in Hnd as (HndA & HdA & HndI).
  rewrite !not_elem_of_app in Hpn, HrpO. destruct Hpn as (HpB & HpA & HpI), HrpO as (HrpB & HrpA & HrpI).
  assert (Hlk1 : linked psz m1 0 (B ++ (p, l) :: (rp, e :: r) :: A) 0).
  { eapply linked_split; [exact Hlk|done..| | |].
    - intros q Hq. apply Hag; [by intros ->..|]. intros HA ->. apply (HdB _ Hq), elem_of_app. left. by apply Hfirst.
    - intros q Hq Hne. apply Hag; [by intros ->..|done].
    - intros HA. by apply Hnext. }
  assert (Hpages : map fst (B ++ (p, l) :: (rp, e :: r) :: A) ≡ₚ p :: rp :: map fst B ++ map fst A).
  { rewrite map_app. cbn [map fst]. by rewrite <- !Permutation_middle. }
  assert (Hout : forall q, q ∈ map fst (B ++ (p, l) :: (rp, e :: r) :: A) -> q ∉ map inner_page (ctx_inners ctx p)).
  { intros q. rewrite Hpages, !elem_of_cons, elem_of_app. intros [->|[->|[Hq|Hq]]]; [done|done| |by apply HdA].
    intros Hx. apply (HdB _ Hq), elem_of_app. by right. }
  split_and!; [congruence| | | | | | |done|].
  7: { rewrite Hlv, leaves_plug_all. cbn [leaves app]. intros Hf. apply (filled_with _ _ [(p, l); (rp, e :: r)] _ Hf). by repeat constructor. }
  - constructor; [|done|].
    + rewrite Hlv. apply (linked_agree m1); [|done]. intros q Hq. apply Hi4; [by eapply linked_pages|by apply Hout].
    + unfold node_pages. rewrite Hlv. apply NoDup_app. split_and!; [|intros q Hq Hx|done].
      * cbn [app]. rewrite Hpages. repeat apply NoDup_cons_2; rewrite ?elem_of_cons, ?elem_of_app.
        -- intros [?|[?|?]]; congruence.
        -- by intros [?|?].
        -- apply NoDup_app. split_and!; [done| |done]. intros q Hq Hx. apply (HdB _ Hq), elem_of_app. by left.
      * destruct (Hi3 _ Hx) as [Hin|Hnone]; [by apply (Hout _ Hq)|].
        destruct (linked_pages _ _ _ _ _ Hlk1 Hq). congruence.
  - unfold entries_of. rewrite Hlv. cbn [app]. rewrite all_entries_app. f_equal. unfold all_entries. cbn [map concat snd].
    by rewrite <- app_assoc.
  - rewrite Hsk. cbn [skeleton]. by apply sorted_separator.
  - rewrite Hsk. cbn [skeleton]. rewrite map_app, !Forall_app in Hkeys. rewrite !Forall_app, Forall_cons, Forall_app.
    destruct Hkeys as (K1 & [K2 K3] & K4). by split_and!.
  - intros q Hq. unfold node_pages in Hq. rewrite Hlv in Hq. apply elem_of_app in Hq as [Hq|Hq].
    + cbn [app] in Hq. rewrite Hpages, !elem_of_cons in Hq. destruct Hq as [->|[->|Hq]]; [left|by right|left]; rewrite HP; [by left|].
      right. rewrite app_assoc, elem_of_app. by left.
    + destruct (Hi3 _ Hq) as [Hin|Hnone].
      * left. rewrite HP. right. rewrite !elem_of_app. auto.
      * right. destruct (m !! q) eqn:Eq; [|done]. destruct (Hdom q); [by eauto|congruence].
  - intros q Hq Hx. rewrite HP, not_elem_of_cons, !not_elem_of_app in Hx. destruct Hx as (Hx1 & Hx2 & Hx3 & Hx4).
    rewrite Hi4; [|by apply Hdom|done]. apply Hag; [done| |].
    + intros ->. destruct Hq. congruence.
    + intros HA ->. by apply Hx3, Hfirst.
Qed.

(** The root leaf split in two. *)
Lemma stored_root m' l e r lp rp :
  ctx = [] -> l <> [] -> es' = l ++ e :: r -> m !! rp = None -> m !! lp = None -> lp <> rp ->
  leaf_at psz m' lp 0 rp l -> leaf_at psz m' rp lp 0 (e :: r) ->
  inner_at psz lo hi m' (p, [(e_key e, lp)], rp) ->
  (forall q, q <> p -> q <> rp -> q <> lp -> m' !! q = m !! q) -> stored (S (height t)) t all m m'.
Proof.
  intros Hctx Hl -> Hrp Hlp Hne HL HR Hi Hag. subst ctx. cbn [plug_all before after app] in *. rewrite app_nil_r in *.
  exists (Inner p [(Leaf lp l, e_key e)] (Leaf rp (e :: r))). unfold node_pages, entries_of, all_entries.
  cbn [leaves inners in_order map concat fst snd app no_sep root_page kid_cells inner_page height fold_right].
  assert (lp <> p) by congruence. assert (rp <> p) by congruence.
  split_and!; [done| | | | | | |lia|intros _; right; by repeat constructor].
  - constructor.
    + cbn. done.
    + cbn. by constructor.
    + unfold node_pages. cbn. repeat apply NoDup_cons_2; [set_solver..|constructor].
  - by rewrite !app_nil_r.
  - cbn [skeleton]. unfold in_order. cbn [map concat fst snd]. rewrite app_nil_r. rewrite <- app_assoc. cbn [app].
    pose proof (sorted_separator [] l e r []) as Hx. rewrite !app_nil_r in Hx. by apply Hx.
  - cbn [skeleton]. unfold in_order. cbn [map concat fst snd]. rewrite app_nil_r. rewrite map_app, Forall_app in Hkeys.
    rewrite <- app_assoc, Forall_app. destruct Hkeys as [K1 K2]. split; [done|]. constructor; [|done]. by apply Forall_cons in K2 as [? _].
  - intros q Hq. set_solver.
  - intros q [b Hb] Hq. apply Hag; [set_solver|congruence|congruence].
Qed.

(** ** Storing the new cell *)

Context (tree : BTree) (Hw : has_writer tree = true) (Hroot : root_ tree = root_page t).
Context (Hratio : (5 * (12 + hi) <= 8 * (12 + lo))%nat).
(** The leaf [n] in memory, without the entry that is replaced. *)
Context (n : Bytes) (es0 : list Entry) (i : nat) (e : Entry).
Context (Hn0 : node_at psz n kLeaf next prev (map cell_of es0)).
Context (Hi : (i <= length es0)%nat) (Hes' : es' = take i es0 ++ e :: drop i es0).
Context (Hents : Forall (entry_at psz lo hi m) es').

Lemma new_cells : map cell_of es' = take i (map cell_of es0) ++ cell_of e :: drop i (map cell_of es0).
Proof. rewrite Hes', map_app. cbn [map]. by rewrite firstn_map, skipn_map. Qed.

Lemma new_cells_ok : pages_ok psz m -> Forall (fun c => cell_ok kLeaf c /\ (length c <= max_cell_bytes psz)%nat) (map cell_of es').
Proof.
  intros Hm. apply Forall_forall. intros c Hc. apply list_elem_of_fmap in Hc as (x & -> & Hx).
  rewrite Forall_forall in Hents. apply (cell_of_size m x Hm). by apply Hents.
Qed.

Lemma write_leaf (P : PageNo) b k nx pv cs m0 (Q : unit -> _) :
  is_Some (m0 !! P) -> node_at psz b kLeaf nx pv cs -> Q tt (<[P := b]> m0) k -> runs (write tree P b) m0 k Q.
Proof. intros HP Hb HQ. apply runs_write; [done|done| | |done]; apply Hb. Qed.

(** The leaf goes in place when there is room, as it is or defragmented. *)
Lemma place_leaf_runs k :
  pages_ok psz m -> (Node.fits n (length (cell_of e)) || Node.fits_after_defrag n (length (cell_of e))) = true ->
  runs (write tree p (Node.insert_cell (if Node.fits n (length (cell_of e)) then n else Node.defragment psz n) i (cell_of e)))
    m k (fun _ m' k' => stored (S (height t)) t all m m' /\ (k <= k')%nat).
Proof.
  intros Hm Hfit. pose proof (store_page_size (W := W)) as Hpsz. pose proof (new_cells_ok Hm) as Hok.
  rewrite new_cells in Hok. apply Forall_app in Hok as [_ Hok]. apply Forall_cons in Hok as [[Hok _] _].
  assert (Hi' : (i <= length (map cell_of es0))%nat) by (by rewrite length_map).
  assert (Hn' : node_at psz (Node.insert_cell (if Node.fits n (length (cell_of e)) then n else Node.defragment psz n) i (cell_of e))
                  kLeaf next prev (map cell_of es')).
  { rewrite new_cells. destruct (Node.fits n (length (cell_of e))) eqn:Ef.
    - apply (proj1 (node_fits psz Hpsz n kLeaf next prev _ _ Hn0)) in Ef. eapply insert_cell_node; [done|exact Hn0|done|done|lia].
    - cbn [orb] in Hfit. apply (proj1 (node_fits_after psz Hpsz n kLeaf next prev _ _ Hn0)) in Hfit.
      destruct (defragment_node psz Hpsz n _ _ _ _ Hn0) as [Hd Hcs]. eapply insert_cell_node; [done|exact Hd|done|done|].
      rewrite Hcs. lia. }
  eapply write_leaf; [by eauto|exact Hn'|]. split; [|done]. apply stored_in_place; [done| |lia]. left. rewrite Hes'. by destruct (take i es0).
Qed.

Lemma separate_runs m1 l e1 r rp k :
  ctx <> [] -> l <> [] -> es' = l ++ e1 :: r -> m !! rp = None -> u64_ok p -> u64_ok rp ->
  leaf_at psz m1 p prev rp l -> leaf_at psz m1 rp p next (e1 :: r) ->
  (forall q, q <> p -> q <> rp -> (A <> [] -> q <> next) -> m1 !! q = m !! q) ->
  (A <> [] -> exists nb, m !! next = Some nb /\ m1 !! next = Some (Node.set_prev nb rp)) ->
  (forall q, is_Some (m !! q) -> is_Some (m1 !! q)) -> key_ok lo hi (e_key e1) ->
  runs (insert_separator tree (map frame_entry ctx) (e_key e1) rp) m1 (length ctx + 1 + k)
    (fun _ m' k' => stored (S (height t)) t all m m' /\ (k <= k')%nat).
Proof.
  intros Hctx Hl Hsplit Hrp Hup Hurp HL HR Hag Hnb Hdom Hk.
  pose proof (height_context ctx (Leaf p es)) as Hh1. pose proof (height_plug_all_le ctx (Leaf p l) (Leaf p es)) as Hh2.
  cbn [height] in Hh1, Hh2. pose proof (node_pages_plug ctx p es) as HP. pose proof Ht as [_ Hi' Hnd]. rewrite HP in Hnd.
  rewrite inners_plug_all in Hi'. cbn [inners root_page] in Hi'. rewrite app_nil_r in Hi'.
  destruct (leaf_links m ctx p es page next prev Ht Hp Hn) as [Enx Epv].
  apply NoDup_cons in Hnd as [Hpn Hnd]. rewrite !not_elem_of_app in Hpn. destruct Hpn as (_ & _ & HpI).
  apply NoDup_app in Hnd as (_ & _ & Hnd). apply NoDup_app in Hnd as (_ & HdA & HndI).
  eapply runs_conseq;
    [apply (insert_separator_runs lo hi Hhi tree Hw Hratio ctx (Leaf p l) (e_key e1) (Leaf rp (e1 :: r)) m1 k (height t))|].
  - done.
  - rewrite Hroot, root_plug_all. unfold top_page. destruct (last ctx) eqn:El; [done|by apply last_None in El].
  - cbn [inners root_page app]. rewrite app_nil_r. apply (inners_agree lo hi m); [|done]. intros q Hq. apply Hag.
    + by intros ->.
    + intros ->. apply list_elem_of_fmap in Hq as ([[q cs] z] & -> & Hq). rewrite Forall_forall in Hi'.
      destruct (Hi' _ Hq) as (? & ? & Hpg & _). cbn in Hrp. congruence.
    + intros HA ->. apply (HdA next); [|done]. rewrite Enx. destruct A as [|[q fs] A']; [done|left].
  - cbn [inners root_page app]. by rewrite app_nil_r.
  - done.
  - done.
  - done.
  - lia.
  - cbn [height]. lia.
  - intros _ m' k' [Hs' Hk']. split; [|done]. by eapply (stored_split tree m1 m' l e1 r rp).
Qed.

(** The leaf after this one. *)
Lemma next_leaf : pages_ok psz m -> A <> [] ->
  next <> 0 /\ next <> p /\ exists nb cs nx, m !! next = Some nb /\ node_at psz nb kLeaf nx p cs.
Proof.
  intros Hm HA. destruct (leaf_links m ctx p es page next prev Ht Hp Hn) as [Enx _]. pose proof Ht as [Hl _ Hnd].
  rewrite (node_pages_plug ctx p es) in Hnd. apply NoDup_cons in Hnd as [Hpn _]. rewrite !not_elem_of_app in Hpn.
  destruct Hpn as (_ & HpA & _). rewrite leaves_plug_all in Hl. cbn [leaves app] in Hl. apply linked_app in Hl as [_ [_ Hl]].
  destruct A as [|[q fs] A']; [done|]. cbn [linked first_page] in *. subst next. destruct Hl as [(nb & Hnb & Hnn) _].
  destruct (pages_ok_lookup _ _ _ Hm Hnb) as (Hge & _). split_and!; [lia| |by eauto 10].
  intros ->. apply HpA. left.
Qed.

Section halves.
Context (l : list Entry) (e1 : Entry) (r : list Entry) (rp : PageNo) (ln : Bytes) (rn : PageNo -> Bytes).
Context (Hm : pages_ok psz m) (Hl : l <> []) (Hsplit : es' = l ++ e1 :: r).
Context (Hrp : m !! rp = None) (Hurp : u64_ok rp) (Hke : key_ok lo hi (e_key e1)).
Context (HLn : node_at psz ln kLeaf rp prev (map cell_of l)).
Context (HRn : forall P, u64_ok P -> node_at psz (rn P) kLeaf next P (map cell_of (e1 :: r))).
Context (Hsepkey : forall P, u64_ok P -> Node.key (rn P) 0 = e_key e1).
#[local] Abbreviation m0 := (<[rp := replicate psz 0]> m).

Lemma split_root_runs k :
  ctx = [] ->
  runs (let! lp := allocate_page in
        do! write tree lp ln in
        do! write tree rp (rn lp) in
        do! (if next =? 0 then ret tt else let! nb := read next in write tree next (Node.set_prev nb rp)) in
        write tree (root_ tree) (new_root (Node.key (rn lp) 0) lp rp))
    m0 (S k) (fun _ m' k' => stored (S (height t)) t all m m' /\ (k <= k')%nat).
Proof.
  intros Ectx. assert (Hrpp : rp <> p) by congruence.
  destruct (leaf_links m ctx p es page next prev Ht Hp Hn) as [Enx Epv].
  apply runs_bind, runs_allocate. intros lp Hlp Hlpr. assert (Hulp : u64_ok lp) by (unfold u64_ok; lia).
  assert (Hlprp : lp <> rp) by (intros ->; by rewrite lookup_insert_eq in Hlp). rewrite lookup_insert_ne in Hlp by done.
  assert (Hlpp : lp <> p) by congruence.
  apply runs_bind. eapply write_leaf; [by rewrite lookup_insert_eq; eauto|exact HLn|].
  apply runs_bind. eapply write_leaf; [rewrite !lookup_insert_ne by done; rewrite lookup_insert_eq; eauto|exact (HRn lp Hulp)|].
  assert (next = 0 /\ prev = 0) as [Hnx Hpv] by (rewrite Enx, Epv, Ectx; done). rewrite Hnx at 1. cbn [Z.eqb].
  apply runs_bind, runs_ret. assert (Er : root_ tree = p) by (by rewrite Hroot, Ectx). rewrite Er, (Hsepkey lp Hulp).
  assert (Hnr : node_at psz (new_root (e_key e1) lp rp) kInterior rp 0 (interior_cells [(e_key e1, lp)]))
    by (by apply (new_root_node lo hi Hhi)).
  eapply write_inner; [done|rewrite !lookup_insert_ne by done; by eauto|exact Hnr|]. split; [|lia].
  apply (stored_root _ l e1 r lp rp); try done.
  - exists ln. rewrite !lookup_insert_ne, lookup_insert_eq by done. split; [done|]. rewrite <- Hpv. exact HLn.
  - exists (rn lp). rewrite lookup_insert_ne, lookup_insert_eq by done. split; [done|]. rewrite <- Hnx. exact (HRn lp Hulp).
  - exists (new_root (e_key e1) lp rp), 0. rewrite lookup_insert_eq. split_and!; [done|exact Hnr|done|].
    by apply Forall_singleton.
  - intros q Hq1 Hq2 Hq3. by rewrite !lookup_insert_ne by done.
Qed.

Lemma split_below_runs k :
  ctx <> [] ->
  runs (do! write tree p ln in
        do! write tree rp (rn p) in
        do! (if next =? 0 then ret tt else let! nb := read next in write tree next (Node.set_prev nb rp)) in
        insert_separator tree (map frame_entry ctx) (Node.key (rn p) 0) rp)
    m0 (length ctx + 1 + k) (fun _ m' k' => stored (S (height t)) t all m m' /\ (k <= k')%nat).
Proof.
  intros Ectx. pose proof (store_page_size (W := W)) as Hpsz. assert (Hrpp : rp <> p) by congruence.
  destruct (leaf_links m ctx p es page next prev Ht Hp Hn) as [Enx _].
  assert (Hup : u64_ok p) by (by destruct (pages_ok_lookup _ _ _ Hm Hp) as (_ & ? & _)).
  rewrite (Hsepkey p Hup). apply runs_bind. eapply write_leaf; [rewrite lookup_insert_ne by done; eauto|exact HLn|].
  apply runs_bind. eapply write_leaf; [rewrite lookup_insert_ne by done; rewrite lookup_insert_eq; eauto|exact (HRn p Hup)|].
  apply runs_bind. set (m1 := <[rp := rn p]> _).
  assert (Hm1 : forall q, q <> p -> q <> rp -> m1 !! q = m !! q) by (intros q H1 H2; unfold m1; by rewrite !lookup_insert_ne by done).
  assert (Hdom1 : forall q, is_Some (m !! q) -> is_Some (m1 !! q)).
  { intros q Hq. unfold m1. by repeat (apply lookup_insert_is_Some'; right). }
  assert (Hpp : leaf_at psz m1 p prev rp l).
  { exists ln. unfold m1. rewrite lookup_insert_ne, lookup_insert_eq by done. done. }
  assert (Hpr : leaf_at psz m1 rp p next (e1 :: r)).
  { exists (rn p). unfold m1. rewrite lookup_insert_eq. split; [done|by apply HRn]. }
  destruct (Z.eqb_spec next 0) as [Hz|Hz].
  - assert (HA : A = []) by (destruct (decide (A = [])) as [|HA]; [done|]; by destruct (next_leaf Hm HA)).
    apply runs_ret. eapply (separate_runs m1 l e1 r rp k); try done. intros q H1 H2 _. by apply Hm1.
  - assert (HA : A <> []) by (intros HA; apply Hz; by rewrite Enx, HA).
    destruct (next_leaf Hm HA) as (_ & Hnp & nb & cs & nx & Hnb & Hnn). assert (Hnrp : next <> rp) by congruence.
    apply runs_bind, (runs_read _ nb); [by rewrite Hm1|].
    eapply write_leaf; [by rewrite Hm1; eauto|eapply (set_prev_node psz Hpsz nb kLeaf); [exact Hnn|exact Hurp]|].
    eapply (separate_runs _ l e1 r rp k); try done.
    + destruct Hpp as (b & Hb & ?). exists b. by rewrite lookup_insert_ne.
    + destruct Hpr as (b & Hb & ?). exists b. by rewrite lookup_insert_ne.
    + intros q H1 H2 H3. rewrite lookup_insert_ne by (symmetry; auto). by apply Hm1.
    + intros _. exists nb. by rewrite lookup_insert_eq.
    + intros q Hq. apply lookup_insert_is_Some'. auto.
Qed.
End halves.

Lemma split_leaf_runs k :
  Node.fits_after_defrag n (length (cell_of e)) = false ->
  runs (split_leaf tree p (map frame_entry ctx) n i (cell_of e)) m (length ctx + 2 + k)
    (fun _ m' k' => stored (S (height t)) t all m m' /\ (k <= k')%nat).
Proof.
  intros Hfit. apply runs_pages. intros Hm. pose proof (store_page_size (W := W)) as Hpsz. pose proof (new_cells_ok Hm) as Hok.
  apply Forall_and in Hok as [Hok Hsz]. unfold split_leaf. rewrite (gather_leaf_cells _ _ _ _ i (cell_of e) Hn0).
  cbn [app]. rewrite <- new_cells, slots_bytes_sum. rewrite (na_right _ _ _ _ _ _ Hn0), (na_prev _ _ _ _ _ _ Hn0).
  pose proof (node_room psz n _ _ _ _ Hn0) as Hroom.
  destruct (leaf_halves_fit (map cell_of es') Hsz) as (Hs & Hfl & Hfr).
  { apply not_true_iff_false in Hfit. rewrite (node_fits_after psz Hpsz n _ _ _ _ _ Hn0) in Hfit.
    assert (E : slots_bytes (map cell_of es') = (slots_bytes (map cell_of es0) + length (cell_of e) + 2)%nat).
    { rewrite new_cells, (slots_bytes_app psz), slots_bytes_cons. pose proof (slots_bytes_take_drop i (map cell_of es0)). lia. }
    assert (Hce : (length (cell_of e) <= max_cell_bytes psz)%nat).
    { rewrite new_cells in Hsz. apply Forall_app in Hsz as [_ Hsz]. by apply Forall_cons in Hsz as [? _]. }
    unfold slots_bytes in E |- *. unfold slots_bytes in *. lia. }
  set (s := Nat.max 1 (split_point _ 0 _)) in *. rewrite length_map in Hs. rewrite firstn_map, skipn_map in *.
  assert (Hcl : Forall (cell_ok kLeaf) (map cell_of (take s es'))) by (rewrite <- firstn_map; by apply Forall_take).
  assert (Hcr : Forall (cell_ok kLeaf) (map cell_of (drop s es'))) by (rewrite <- skipn_map; by apply Forall_drop).
  destruct (lookup_lt_is_Some_2 es' s ltac:(lia)) as [e1 He1].
  assert (Hsplit : es' = take s es' ++ e1 :: drop (S s) es') by (by rewrite <- (drop_S _ _ _ He1), take_drop).
  rewrite (drop_S _ _ _ He1) in *. set (l := take s es') in *. set (r := drop (S s) es') in *.
  assert (Hl : l <> []) by (intros E; apply (f_equal length) in E; unfold l in E; rewrite length_take in E; cbn in E; lia).
  destruct (node_links_ok psz Hpsz n _ _ _ _ Hn0) as [Hunx Hupv].
  assert (He1k : entry_at psz lo hi m e1) by (rewrite Forall_lookup in Hents; by eapply Hents).
  assert (Hsep : forall b nx pv, node_at psz b kLeaf nx pv (map cell_of (e1 :: r)) -> Node.key b 0 = e_key e1).
  { intros b nx pv Hb. rewrite (node_key _ _ _ _ _ _ Hb 0 (cell_of e1)) by done.
    by destruct (cell_of_ok lo hi Hhi m e1 Hm He1k) as (_ & ? & _). }
  replace (length ctx + 2 + k)%nat with (S (length ctx + 1 + k)) by lia.
  apply runs_bind, runs_allocate. intros rp Hrp Hrpr. assert (Hurp : u64_ok rp) by (unfold u64_ok; lia).
  set (ln := Node.set_right (Node.set_prev (insert_cells (Node.init psz kLeaf) 0 (map cell_of l)) prev) rp).
  set (rn := fun P => Node.set_right (Node.set_prev (insert_cells (Node.init psz kLeaf) 0 (map cell_of (e1 :: r))) P) next).
  assert (HLn : node_at psz ln kLeaf rp prev (map cell_of l)) by (by apply filled_leaf).
  assert (HRn : forall P, u64_ok P -> node_at psz (rn P) kLeaf next P (map cell_of (e1 :: r))) by (intros; by apply filled_leaf).
  assert (Hkey : forall P, u64_ok P -> Node.key (rn P) 0 = e_key e1) by (intros P HP; exact (Hsep _ _ _ (HRn P HP))).
  destruct (decide (ctx = [])) as [Ectx|Ectx].
  - assert (Epath : map frame_entry ctx = []) by (by rewrite Ectx). rewrite Epath.
    replace (length ctx + 1 + k)%nat with (S k) by (rewrite Ectx; cbn; lia).
    exact (split_root_runs l e1 r rp ln rn Hl Hsplit Hrp Hurp (proj1 He1k) HLn HRn Hkey k Ectx).
  - assert (Hpath : exists g path, map frame_entry ctx = g :: path) by (destruct ctx; [done|cbn; eauto]).
    destruct Hpath as (g & path & Hpath). rewrite Hpath. apply runs_bind, runs_ret.
    pose proof (split_below_runs l e1 r rp ln rn Hm Hl Hsplit Hrp Hurp (proj1 He1k) HLn HRn Hkey k Ectx) as Hrun.
    rewrite Hpath in Hrun. exact Hrun.
Qed.

Lemma store_cell_runs k :
  runs (if Node.fits n (length (cell_of e)) then write tree p (Node.insert_cell n i (cell_of e))
        else if Node.fits_after_defrag n (length (cell_of e)) then
          write tree p (Node.insert_cell (Node.defragment psz n) i (cell_of e))
        else split_leaf tree p (map frame_entry ctx) n i (cell_of e))
    m (length ctx + 2 + k) (fun _ m' k' => stored (S (height t)) t all m m' /\ (k <= k')%nat).
Proof.
  apply runs_pages. intros Hm. destruct (Node.fits_after_defrag n (length (cell_of e))) eqn:E2.
  - pose proof (place_leaf_runs (length ctx + 2 + k) Hm) as Hpl. rewrite E2, orb_true_r in Hpl. specialize (Hpl eq_refl).
    destruct (Node.fits n (length (cell_of e))); (eapply runs_conseq; [exact Hpl|]); intros _ m' k' [? ?]; split; [done|lia|done|lia].
  - destruct (Node.fits n (length (cell_of e))) eqn:E1; [|by apply split_leaf_runs].
    pose proof (place_leaf_runs (length ctx + 2 + k) Hm) as Hpl. rewrite E1 in Hpl. specialize (Hpl eq_refl).
    eapply runs_conseq; [exact Hpl|]. intros _ m' k' [? ?]. split; [done|lia].
Qed.
End at_leaf.

(** * The tree after the change *)

Definition chains (es : list Entry) : list PageNo := concat (map e_chain es).
Lemma chains_app a b : chains (a ++ b) = chains a ++ chains b.
Proof. unfold chains. by rewrite map_app, concat_app. Qed.
Lemma chains_cons e es : chains (e :: es) = e_chain e ++ chains es.
Proof. done. Qed.
Lemma chains_in e es p : e ∈ es -> p ∈ e_chain e -> p ∈ chains es.
Proof.
  intros He Hp. apply list_elem_of_In, in_concat. exists (e_chain e). split; [|by apply list_elem_of_In].
  apply in_map_iff. exists e. split; [done|by apply list_elem_of_In].
Qed.
Lemma chains_pages m es p : Forall (entry_at psz lo hi m) es -> p ∈ chains es -> is_Some (m !! p).
Proof.
  intros Hes Hp. apply list_elem_of_In, in_concat in Hp as (c & Hc & Hp). apply in_map_iff in Hc as (e & <- & He).
  apply list_elem_of_In in He. apply list_elem_of_In in Hp. rewrite Forall_forall in Hes.
  destruct (Hes _ He) as (_ & _ & _ & Hch). destruct (e_chain e) eqn:E; [by apply elem_of_nil in Hp|]. by eapply chain_pages.
Qed.

Lemma owned_nodes t : owned t = node_pages t ++ chains (entries_of t).
Proof. unfold owned, node_pages. by rewrite <- app_assoc. Qed.

Section change.
Context (m m2 m3 : gmap PageNo Bytes) (t : tree) (E1 old new E2 : list Entry).
Context (Ht : tree_at psz lo hi m t) (Hold : entries_of t = E1 ++ old ++ E2).
Context (Hadd : added (without m (chains old)) m2 (chains new)) (Hnew : Forall (entry_at psz lo hi m2) new).

Lemma change_kept q :
  is_Some (m !! q) -> q ∉ chains old -> m2 !! q = m !! q.
Proof.
  intros [b Hq] Ho. destruct Hadd as (_ & Hfresh & _ & Hag).
  assert (E : without m (chains old) !! q = m !! q) by (by rewrite lookup_without, decide_False).
  rewrite <- E. apply Hag. intros Hin. rewrite Forall_forall in Hfresh. specialize (Hfresh _ Hin). cbn in Hfresh. congruence.
Qed.

Lemma change_disjoint :
  NoDup (node_pages t) /\ NoDup (chains (E1 ++ E2))
  /\ (forall q, q ∈ node_pages t -> q ∉ chains old /\ q ∉ chains (E1 ++ E2))
  /\ (forall q, q ∈ chains (E1 ++ E2) -> q ∉ chains old).
Proof.
  pose proof (ta_owned _ _ _ _ _ Ht) as Hnd. rewrite owned_nodes, Hold, !chains_app in Hnd.
  assert (Hperm : node_pages t ++ chains E1 ++ chains old ++ chains E2 ≡ₚ node_pages t ++ chains old ++ chains (E1 ++ E2)).
  { rewrite chains_app. apply Permutation_app_head, Permutation_app_swap_app. }
  rewrite Hperm in Hnd. apply NoDup_app in Hnd as (H1 & H2 & H3). apply NoDup_app in H3 as (H3 & H4 & H5).
  split_and!; [done|done| |].
  - intros q Hq. specialize (H2 q Hq). by rewrite not_elem_of_app in H2.
  - intros q Hq Hx. by apply (H4 q).
Qed.

Lemma change_nodes : nodes_at m2 t.
Proof.
  destruct change_disjoint as (_ & _ & Hd & _). apply (nodes_agree m); [|by apply tree_nodes]. intros q Hq. apply change_kept.
  - by eapply nodes_pages; [apply tree_nodes|].
  - by apply Hd.
Qed.

Lemma change_entries : Forall (entry_at psz lo hi m2) (E1 ++ E2).
Proof.
  destruct change_disjoint as (_ & _ & _ & Hd). pose proof (ta_entries _ _ _ _ _ Ht) as He. rewrite Hold in He.
  assert (He' : Forall (entry_at psz lo hi m) (E1 ++ E2)) by (rewrite !Forall_app in He; rewrite Forall_app; tauto).
  apply Forall_forall. intros e Hin. rewrite Forall_forall in He'. apply (entry_agree m); [|by apply He'].
  intros p Hp. assert (Hpc : p ∈ chains (E1 ++ E2)) by (by eapply chains_in). apply change_kept; [|by apply Hd].
  eapply chains_pages; [|done]. by apply Forall_forall.
Qed.

Lemma change_tree h :
  stored h t (E1 ++ new ++ E2) m2 m3 ->
  exists t', tree_at psz lo hi m3 t' /\ root_page t' = root_page t /\ entries_of t' = E1 ++ new ++ E2
    /\ (height t' <= h)%nat
    /\ (forall q, is_Some (m !! q) -> q ∉ owned t -> m3 !! q = m !! q).
Proof.
  intros (t' & Hr & Hn & He & Hs & Hk & Hp & Hag & Hh & Hfill). exists t'. destruct change_disjoint as (_ & Hndc & Hd & Hdo).
  pose proof change_nodes as Hnt. pose proof change_entries as Hents. pose proof Hadd as (Hndn & Hfresh & Hin & Hkeep).
  assert (Hall : Forall (entry_at psz lo hi m2) (E1 ++ new ++ E2)) by (rewrite !Forall_app in *; tauto).
  assert (Hnp : forall q, q ∈ node_pages t -> q ∉ chains new).
  { intros q Hq Hx. rewrite Forall_forall in Hfresh. specialize (Hfresh _ Hx). cbn in Hfresh.
    rewrite lookup_without, decide_False in Hfresh by (by apply Hd).
    destruct (nodes_pages m t q) as [? Hb]; [by apply tree_nodes|done|]. congruence. }
  assert (Hout : forall q, q ∈ chains (E1 ++ new ++ E2) -> q ∉ node_pages t).
  { intros q Hq Hx. rewrite !chains_app, !elem_of_app in Hq. destruct (Hd q Hx) as [_ Hd'].
    rewrite chains_app, elem_of_app in Hd'. destruct Hq as [Hq|[Hq|Hq]]; [tauto|by apply (Hnp q)|tauto]. }
  split_and!; [constructor|done|done|done|].
  - apply Hn.
  - apply Hn.
  - rewrite He. apply Forall_forall. intros e Hin'. rewrite Forall_forall in Hall. apply (entry_agree m2); [|by apply Hall].
    intros p Hpe. assert (p ∈ chains (E1 ++ new ++ E2)) by (by eapply chains_in). apply Hag; [|by apply Hout].
    eapply chains_pages; [|done]. by apply Forall_forall.
  - rewrite owned_nodes, He. apply NoDup_app. split_and!; [apply Hn| |].
    + intros q Hq Hx. destruct (Hp q Hq) as [Hq'|Hq']; [by apply (Hout q)|].
      destruct (chains_pages m2 _ q Hall Hx). congruence.
    + assert (Hperm : chains (E1 ++ new ++ E2) ≡ₚ chains new ++ chains (E1 ++ E2)).
      { rewrite !chains_app. apply Permutation_app_swap_app. }
      rewrite Hperm. apply NoDup_app. split_and!; [done| |done]. intros q Hq Hx.
      rewrite Forall_forall in Hfresh. specialize (Hfresh _ Hq). cbn in Hfresh.
      rewrite lookup_without, decide_False in Hfresh by (by apply Hdo).
      pose proof (ta_entries _ _ _ _ _ Ht) as Hte. rewrite Hold in Hte.
      assert (Hte' : Forall (entry_at psz lo hi m) (E1 ++ E2)) by (rewrite !Forall_app in *; tauto).
      destruct (chains_pages m _ q Hte' Hx). congruence.
  - done.
  - done.
  - by apply Hfill, (ta_filled _ _ _ _ _ Ht).
  - intros q Hq Ho. rewrite owned_nodes, not_elem_of_app, Hold, !chains_app, !not_elem_of_app in Ho.
    destruct Ho as (Ho1 & _ & Ho2 & _). assert (Hk2 : m2 !! q = m !! q) by (by apply change_kept).
    rewrite Hag; [done|by rewrite Hk2|done].
Qed.
End change.

(** * Contents *)

Lemma contents_lookup_app a b k :
  contents_of (a ++ b) !! k = match contents_of a !! k with Some v => Some v | None => contents_of b !! k end.
Proof.
  unfold contents_of. rewrite map_app, list_to_map_app, lookup_union. by destruct (_ !! k), (_ !! k).
Qed.

Lemma contents_replace E1 old E2 key :
  Forall (fun e => e_key e <> key) E1 -> Forall (fun e => e_key e <> key) E2 -> Forall (fun e => e_key e = key) old ->
  contents_of (E1 ++ E2) = delete key (contents_of (E1 ++ old ++ E2))
  /\ forall v c, contents_of (E1 ++ [mkEnt key v c] ++ E2) = <[key := v]> (contents_of (E1 ++ old ++ E2)).
Proof.
  intros H1 H2 H3. apply contents_none in H1, H2.
  assert (Hold : forall k, k <> key -> contents_of old !! k = None).
  { intros k Hk. apply contents_none. eapply Forall_impl; [exact H3|]. intros e ->. done. }
  split; [|intros v c]; apply map_eq; intros k; (destruct (decide (k = key)) as [->|Hne];
    [rewrite ?lookup_insert_eq, ?lookup_delete_eq|rewrite ?lookup_insert_ne, ?lookup_delete_ne by done]);
    rewrite !contents_lookup_app, ?H1, ?H2, ?(Hold _ Hne); try done.
  - unfold contents_of at 1. cbn. by rewrite lookup_insert_eq.
  - assert (E : contents_of [mkEnt key v c] !! k = None) by (apply contents_none; constructor; [|constructor]; cbn; congruence).
    by rewrite E.
Qed.

(** * Put *)

(** What the leaf at the place of a key says of it. *)
Record place (m : gmap PageNo Bytes) (t : tree) (ctx : list frame) (p : PageNo) (es : list Entry) (page : Bytes)
    (key : Bytes) (i : nat) : Prop := {
  pl_tree : t = plug_all ctx (Leaf p es);
  pl_page : m !! p = Some page;
  pl_node : exists next prev, node_at psz page kLeaf next prev (map cell_of es);
  pl_fits : fits_at ctx key;
  pl_bound : (i <= length es)%nat;
  pl_before : Forall (fun e => klt (e_key e) key) (take i es);
  pl_after : Forall (fun e => kle key (e_key e)) (drop i es)
}.

Lemma find_leaf_runs tree t key m k (Q : list PathEntry * Bytes -> _) :
  tree_at psz lo hi m t -> root_page t = root_ tree -> (height t <= 64)%nat ->
  (forall ctx p es page i, place m t ctx p es page key i ->
     key_at page i key = match es !! i with Some e => bool_decide (e_key e = key) | None => false end ->
     Q (mkEntry p i :: map frame_entry ctx, page) m k) ->
  runs (find_leaf tree key) m k Q.
Proof.
  intros Ht Hr Hh HQ. unfold find_leaf. rewrite <- Hr. apply runs_pages. intros Hm.
  pose proof (tree_part lo hi _ _ Ht) as Hp. eapply (descend_runs lo hi Hhi); [done|done|].
  intros ctx p es page prev next -> Hpg Hn Hfit. rewrite app_nil_r. destruct (part_leaf lo hi _ _ _ _ Hp) as [Hes Hs].
  destruct (lower_bound_spec lo hi Hhi m page next prev es key Hm Hes Hn Hs) as (Hi & H1 & H2).
  apply (HQ ctx p es page); [by constructor; eauto|]. by apply (key_at_spec lo hi Hhi m page next prev).
Qed.

Lemma place_sorted m t ctx p es page key i e es' :
  tree_at psz lo hi m t -> place m t ctx p es page key i -> e_key e = key -> key_ok lo hi key ->
  (es' = drop i es \/ exists e0, drop i es = e0 :: es' /\ e_key e0 = key) -> Forall (fun e => e_key e <> key) es' ->
  let new := take i es ++ e :: es' in
  sorted (sep_skeleton ctx ++ map (fun e => K (e_key e)) new ++ skeleton_sep ctx)
  /\ Forall (fun x => key_ok lo hi (item_key x)) (sep_skeleton ctx ++ map (fun e => K (e_key e)) new ++ skeleton_sep ctx).
Proof.
  intros Ht [-> _ _ [Hf1 Hf2] _ Hb Ha] Hk Hko Hcase Hne. cbv zeta.
  pose proof (ta_sorted _ _ _ _ _ Ht) as Hs. pose proof (ta_keys _ _ _ _ _ Ht) as Hks. rewrite skeleton_plug_all in Hs, Hks.
  cbn [skeleton] in Hs, Hks. rewrite <- (take_drop i es), map_app in Hs, Hks. set (S1 := sep_skeleton ctx) in *. set (S2 := skeleton_sep ctx) in *.
  set (L := map _ (take i es)) in *. rewrite map_app. fold L. cbn [map]. rewrite Hk. set (R' := map (fun e => K (e_key e)) es').
  set (R := map _ (drop i es)) in *. rewrite <- app_assoc, app_assoc in Hs, Hks. rewrite <- app_assoc, app_assoc. cbn [app].
  assert (HR : exists R0, R = R0 ++ R').
  { destruct Hcase as [->|(e0 & E & _)]; [by exists []|]. exists [K (e_key e0)]. unfold R. by rewrite E. }
  destruct HR as [R0 HR]. rewrite HR in Hs, Hks. rewrite <- (app_assoc R0) in Hs, Hks.
  apply sorted_app in Hs as (Hs1 & Hs2 & Hs3). apply sorted_app in Hs2 as (_ & Hs2 & _).
  apply Forall_app in Hks as [Hk1 Hk2]. apply Forall_app in Hk2 as [_ Hk2].
  assert (Hlt : forall x, x ∈ S1 ++ L -> ilt x (K key)).
  { intros x [Hx|Hx]%elem_of_app; [by apply Hf1|]. apply list_elem_of_fmap in Hx as (e1 & -> & Hx).
    rewrite Forall_forall in Hb. by apply Hb. }
  assert (Hgt : forall x, x ∈ R' ++ S2 -> ilt (K key) x).
  { intros x [Hx|Hx]%elem_of_app; [|by apply Hf2]. apply list_elem_of_fmap in Hx as (e1 & -> & Hx).
    assert (Hle : kle key (e_key e1)).
    { rewrite Forall_forall in Ha. apply Ha. destruct Hcase as [<-|(e0 & -> & _)]; [done|by right]. }
    rewrite Forall_forall in Hne. apply kle_cases in Hle as [E|?]; [by destruct (Hne _ Hx)|done]. }
  split.
  - apply sorted_app. split_and!; [done| |].
    + constructor; [done|]. apply Forall_forall. auto.
    + intros x y Hx [->|Hy]%elem_of_cons; [by apply Hlt|]. apply (ilt_trans _ (K key)); auto.
  - apply Forall_app. split; [done|]. by constructor.
Qed.

Lemma after_keys key l :
  sorted (map (fun e => K (e_key e)) l) -> Forall (fun e => kle key (e_key e)) l ->
  match l with e :: l => (e_key e = key -> Forall (fun e => e_key e <> key) l)
                         /\ (e_key e <> key -> Forall (fun e => e_key e <> key) (e :: l))
  | [] => True end.
Proof.
  destruct l as [|e l]; [done|]. cbn [map]. intros Hs Hle. apply StronglySorted_inv in Hs as [_ Hs]. apply Forall_cons in Hle as [He _].
  assert (Hl : Forall (fun x => e_key x <> key) l).
  { apply Forall_forall. intros x Hx. rewrite Forall_forall in Hs.
    assert (Hlt : klt (e_key e) (e_key x)) by (by apply (Hs (K (e_key x))), (list_elem_of_fmap_2 (fun e => K (e_key e)))).
    symmetry. apply klt_ne. by eapply kle_klt_trans. }
  split; [done|]. intros Hne. by constructor.
Qed.

Lemma free_cell_runs m k page next prev es i e :
  pages_ok psz m -> Forall (entry_at psz lo hi m) es -> node_at psz page kLeaf next prev (map cell_of es) ->
  es !! i = Some e -> NoDup (e_chain e) ->
  runs (free_cell_overflow page i) m k (fun _ m' k' => m' = without m (e_chain e) /\ k' = k).
Proof.
  intros Hm Hes Hn Hi Hnd. pose proof (leaf_cell es i e Hi) as Hc. pose proof (leaf_entry lo hi m es Hes i e Hi) as He.
  destruct (cell_of_ok lo hi Hhi m e Hm He) as (_ & _ & Hval). unfold free_cell_overflow.
  rewrite (node_overflowed _ _ _ _ _ _ Hn _ _ Hc eq_refl). destruct He as (_ & _ & Hvl & Hch).
  destruct (e_chain e) as [|first chain].
  - destruct Hval as [-> _]. by apply runs_ret.
  - destruct Hval as (Ho & _ & Hf). rewrite Ho. cbn [negb].
    rewrite (node_first _ _ _ _ _ _ Hn _ _ Hc eq_refl Ho), Hf. by apply (free_overflow_runs m k (first :: chain) (e_val e)).
Qed.

Lemma entry_chain_nodup m t e : tree_at psz lo hi m t -> e ∈ entries_of t -> NoDup (e_chain e).
Proof.
  intros Ht He. pose proof (ta_owned _ _ _ _ _ Ht) as Hnd. rewrite owned_nodes in Hnd. apply NoDup_app in Hnd as (_ & _ & Hnd).
  apply list_elem_of_split in He as (l1 & l2 & E). rewrite E, chains_app, chains_cons in Hnd.
  apply NoDup_app in Hnd as (_ & _ & Hnd). by apply NoDup_app in Hnd as [? _].
Qed.

(** The entry of a key is replaced or added. *)
Lemma insert_into_leaf_runs tree t ctx p es page key v i m k :
  has_writer tree = true -> (5 * (12 + hi) <= 8 * (12 + lo))%nat -> root_ tree = root_page t ->
  tree_at psz lo hi m t -> place m t ctx p es page key i -> key_ok lo hi key -> bytes_ok v -> Z.of_nat (length v) < 2 ^ 32 ->
  let replace := match es !! i with Some e => bool_decide (e_key e = key) | None => false end in
  runs (insert_into_leaf tree (mkEntry p i :: map frame_entry ctx) page key v i replace) m (cell_cost key v + (height t + 1 + k))
    (fun _ m' k' => (exists t', tree_at psz lo hi m' t' /\ root_page t' = root_page t
         /\ contents t' = <[key := v]> (contents t) /\ (height t' <= S (height t))%nat
         /\ (forall q, is_Some (m !! q) -> q ∉ owned t -> m' !! q = m !! q)) /\ (k <= k')%nat).
Proof.
  intros Hw Hratio Hroot Ht Hpl Hk Hv Hvl. cbv zeta. set (replace := match es !! i with Some _ => _ | None => _ end).
  pose proof (store_page_size (W := W)) as Hpsz.
  pose proof Hpl as [Et Hp (next & prev & Hn) Hfit Hi Hb Ha]. destruct (context_keys ctx key Hfit) as [HB HA].
  set (old := if replace then match es !! i with Some e => [e] | None => [] end else []).
  set (es2 := if replace then drop (S i) es else drop i es).
  assert (Hcase : drop i es = old ++ es2 /\ Forall (fun e => e_key e = key) old
                  /\ (es2 = drop i es \/ exists e0, drop i es = e0 :: es2 /\ e_key e0 = key)).
  { unfold old, es2, replace. destruct (es !! i) as [e|] eqn:E; [|by auto]. case_bool_decide; [|by auto].
    rewrite (drop_S _ _ _ E). split_and!; [done|by constructor|right; eauto]. }
  destruct Hcase as (Edrop & Hkold & Hcase).
  pose proof (tree_part lo hi _ _ Ht) as Hpart. rewrite Et in Hpart. destruct (part_leaf lo hi _ _ _ _ Hpart) as [Hes Hs].
  assert (Hne2 : Forall (fun e => e_key e <> key) es2).
  { assert (Hsd : sorted (map (fun e => K (e_key e)) (drop i es))).
    { rewrite <- (take_drop i es), map_app in Hs. by apply sorted_app in Hs as (_ & ? & _). }
    pose proof (after_keys key _ Hsd Ha) as Hk2. unfold es2, replace. destruct (es !! i) as [e|] eqn:E.
    - rewrite (drop_S _ _ _ E) in *. destruct Hk2 as [Hk3 Hk4]. case_bool_decide; auto.
    - rewrite drop_ge; [constructor|by apply lookup_ge_None]. }
  assert (Hold : entries_of t = (all_entries (before leaves no_sep ctx) ++ take i es) ++ old ++ es2 ++ all_entries (after leaves no_sep ctx)).
  { rewrite Et, entries_plug_all. unfold entries_of. cbn [leaves]. unfold all_entries at 2. cbn [map concat snd].
    rewrite app_nil_r, <- (take_drop i es), Edrop at 1. by rewrite <- !app_assoc. }
  set (n := if replace then Node.remove_cell page i else page).
  set (es0 := take i es ++ es2).
  assert (Hn0 : node_at psz n kLeaf next prev (map cell_of es0)).
  { unfold n, es0, es2, replace. destruct (es !! i) as [e|] eqn:E; [case_bool_decide|]; rewrite ?take_drop; try done.
    rewrite map_app, <- firstn_map, <- skipn_map. eapply remove_cell_node; [done|done|by apply leaf_cell]. }
  unfold insert_into_leaf. apply runs_bind. apply runs_pages. intros Hm.
  apply (runs_conseq _ _ _ (fun x m' k' => x = n /\ m' = without m (chains old) /\ k' = (cell_cost key v + (height t + 1 + k))%nat)).
  { unfold n, old, replace. destruct (es !! i) as [e|] eqn:E; [case_bool_decide|]; [|by apply runs_ret..].
    apply runs_bind. eapply runs_conseq; [eapply free_cell_runs; [done|done|done|done|]|].
    - eapply entry_chain_nodup; [done|]. rewrite Et, entries_plug_all. apply elem_of_app. right. apply elem_of_app. left.
      unfold entries_of, all_entries. cbn. rewrite app_nil_r. by eapply list_elem_of_lookup_2.
    - intros _ m' k' [-> ->]. apply runs_ret. rewrite chains_cons. unfold chains. cbn. by rewrite app_nil_r. }
  intros ? ? ? (-> & -> & ->). apply runs_bind. eapply runs_conseq; [by apply make_cell_runs|].
  intros cell m2 k2 (-> & chain & -> & He & Hadd). set (e := mkEnt key v chain) in *.
  assert (Hlen0 : (i <= length es0)%nat) by (unfold es0; rewrite length_app, length_take; lia).
  set (es' := take i es ++ e :: es2).
  assert (Ees' : es' = take i es0 ++ e :: drop i es0).
  { unfold es0, es'. rewrite take_app_length', drop_app_length' by (rewrite length_take; lia). done. }
  destruct (place_sorted m t ctx p es page key i e es2 Ht Hpl eq_refl Hk Hcase Hne2) as [Hs' Hk']. fold es' in Hs', Hk'.
  assert (Hadd' : added (without m (chains old)) m2 (chains [e])) by (unfold chains at 2; cbn; by rewrite app_nil_r).
  pose proof (change_nodes m m2 t _ old [e] _ Ht Hold Hadd') as Hnt.
  pose proof (change_entries m m2 t _ old [e] _ Ht Hold Hadd') as Hents.
  assert (Hp2 : m2 !! p = Some page).
  { rewrite <- Hp. eapply (change_kept m m2 old [e]); [done|by eauto|].
    destruct (change_disjoint m t _ old _ Ht Hold) as (_ & _ & Hd & _). apply Hd. rewrite Et, node_pages_plug. by left. }
  rewrite Et in Hnt, Hroot. pose proof (height_context ctx (Leaf p es)) as Hh. rewrite <- Et in Hh. cbn [height] in Hh.
  replace (height t + 1 + k)%nat with (length ctx + 2 + (height t - length ctx - 1 + k))%nat by lia.
  eapply runs_conseq.
  - apply (store_cell_runs m2 ctx p es es' page next prev Hnt Hp2 Hn Hs' Hk' tree Hw Hroot Hratio n es0 i e Hn0 Hlen0 Ees').
    unfold es'. rewrite !Forall_app in Hents. rewrite Forall_app, Forall_cons. destruct Hents as [[_ ?] [? _]]. done.
  - intros _ m3 k3 [Hst Hk3]. split; [|lia]. rewrite <- Et in Hst.
    destruct (change_tree m m2 m3 t _ old [e] _ Ht Hold Hadd' ltac:(by constructor) (S (height t))) as (t' & Ht' & Hr' & He' & Hh' & Hag).
    { unfold es' in Hst. rewrite <- !app_assoc in *. exact Hst. }
    exists t'. split_and!; [done|done| |done|done]. unfold contents. rewrite He', Hold.
    apply (contents_replace (_ ++ take i es) old (es2 ++ _) key); [apply Forall_app; split|apply Forall_app; split|]; try done.
    + eapply Forall_impl; [exact HB|]. intros x. apply klt_ne.
    + eapply Forall_impl; [exact Hb|]. intros x. apply klt_ne.
    + eapply Forall_impl; [exact HA|]. intros x Hx. symmetry. by apply klt_ne.
Qed.

(** A key is set. *)
Lemma put_runs tree t key v m k :
  has_writer tree = true -> (5 * (12 + hi) <= 8 * (12 + lo))%nat -> (1 <= lo)%nat ->
  tree_at psz lo hi m t -> root_page t = root_ tree -> (height t <= 64)%nat ->
  key_ok lo hi key -> bytes_ok v -> Z.of_nat (length v) < 2 ^ 32 ->
  runs (put tree key v) m (cell_cost key v + (height t + 1 + k))
    (fun _ m' k' => (exists t', tree_at psz lo hi m' t' /\ root_page t' = root_ tree
         /\ contents t' = <[key := v]> (contents t) /\ (height t' <= S (height t))%nat
         /\ (forall q, is_Some (m !! q) -> q ∉ owned t -> m' !! q = m !! q)) /\ (k <= k')%nat).
Proof.
  intros Hw Hratio Hlo Ht Hr Hh Hk Hv Hvl. unfold put. rewrite Hw. cbn [negb].
  assert (Hkl : key_length_ok key = true).
  { unfold key_length_ok. change max_key_bytes with (max_key psz). destruct Hk as [_ Hk].
    destruct (Nat.eqb_spec (length key) 0); [lia|]. destruct (Nat.ltb_spec (max_key psz) (length key)); [lia|done]. }
  rewrite Hkl. cbn [negb]. apply runs_bind. eapply find_leaf_runs; [done|done|done|]. intros ctx p es page i Hpl Hka.
  cbn [slot_of pe_slot]. rewrite Hka, <- Hr. by apply insert_into_leaf_runs.
Qed.

(** A key is set only when it is not there. *)
Lemma insert_if_absent_runs tree t key v m k :
  has_writer tree = true -> (5 * (12 + hi) <= 8 * (12 + lo))%nat -> (1 <= lo)%nat ->
  tree_at psz lo hi m t -> root_page t = root_ tree -> (height t <= 64)%nat ->
  key_ok lo hi key -> bytes_ok v -> Z.of_nat (length v) < 2 ^ 32 ->
  runs (insert_if_absent tree key v) m (cell_cost key v + (height t + 1 + k))
    (fun inserted m' k' => inserted = bool_decide (contents t !! key = None) /\ exists t', tree_at psz lo hi m' t' /\ root_page t' = root_ tree
         /\ contents t' = (if inserted then <[key := v]> (contents t) else contents t) /\ (height t' <= S (height t))%nat
         /\ (forall q, is_Some (m !! q) -> q ∉ owned t -> m' !! q = m !! q)).
Proof.
  intros Hw Hratio Hlo Ht Hr Hh Hk Hv Hvl. unfold insert_if_absent. rewrite Hw. cbn [negb].
  assert (Hkl : key_length_ok key = true).
  { unfold key_length_ok. change max_key_bytes with (max_key psz). destruct Hk as [_ Hk].
    destruct (Nat.eqb_spec (length key) 0); [lia|]. destruct (Nat.ltb_spec (max_key psz) (length key)); [lia|done]. }
  rewrite Hkl. cbn [negb]. apply runs_bind. eapply find_leaf_runs; [done|done|done|]. intros ctx p es page i Hpl Hka.
  cbn [slot_of pe_slot]. pose proof Hpl as [Et _ _ Hfit _ Hb Ha]. pose proof (tree_part lo hi _ _ Ht) as Hpart.
  rewrite Et in Hpart. destruct (part_leaf lo hi _ _ _ _ Hpart) as [_ Hs].
  pose proof (contents_at hi Hhi ctx p es key i Hfit Hb Ha Hs) as Hc. rewrite <- Et in Hc. rewrite Hka.
  pose proof (insert_into_leaf_runs tree t ctx p es page key v i m k Hw Hratio ltac:(done) Ht Hpl Hk Hv Hvl) as Hins. cbv zeta in Hins.
  destruct (es !! i) as [e|]; [case_bool_decide as Hke|].
  - rewrite decide_True in Hc by done. apply runs_ret. rewrite Hc, bool_decide_false by done. split; [done|].
    exists t. split_and!; [done|done|done|lia|done].
  - rewrite decide_False in Hc by done. apply runs_bind. eapply runs_conseq; [exact Hins|]. intros _ m' k' [(t' & ?) _].
    apply runs_ret. rewrite Hc, bool_decide_true by done. split; [done|]. exists t'. by rewrite <- Hr.
  - apply runs_bind. eapply runs_conseq; [exact Hins|]. intros _ m' k' [(t' & ?) _].
    apply runs_ret. rewrite Hc, bool_decide_true by done. split; [done|]. exists t'. by rewrite <- Hr.
Qed.
End put.
