(* ===== verification/BTreeErase.v ===== *)
(** The B+tree forgets what it is told to.

    [erase] removes the cell of the key.  A leaf that empties is taken out of
    the leaf chain and out of its parent; a parent left with one child gives
    way to it, and the root takes its last child's page over.  The theorem
    says that the tree afterwards holds the old contents without the key.
    Nothing bounds the lengths of the keys here: an erasure never splits. *)

From stdpp Require Import base numbers list gmap strings sorting.
From S2P Require Import Prelude Bytes PageFormat BTreeNode BTreeNodeFacts BTree BTreeTree BTreeRead BTreeSplit BTreePut.
Open Scope Z_scope.

(** * Subsequences *)

Lemma sorted_sublist l l' : l `sublist_of` l' -> sorted l' -> sorted l.
Proof.
  unfold sorted. induction 1 as [|x l l' Hs IH|x l l' Hs IH]; intros Hl; [done|..]; apply StronglySorted_inv in Hl as [H1 H2];
    [|by apply IH]. constructor; [by apply IH|].
  rewrite Forall_forall in *. intros y Hy. apply H2. by eapply elem_of_sublist.
Qed.
Lemma Forall_sublist {A} (P : A -> Prop) l l' : l `sublist_of` l' -> Forall P l' -> Forall P l.
Proof. intros Hs. rewrite !Forall_forall. intros Hl x Hx. apply Hl. by eapply elem_of_sublist. Qed.

(** * A node without the child of its hole *)

(** The children left when the hole of a frame is removed with a separator
    beside it. *)
Definition unplug (f : frame) : option (list (tree * Bytes) * tree) :=
  match f_post f with
  | (_, t) :: post => let '(l, z) := close t post in Some (f_pre f ++ l, z)
  | [] => match last (f_pre f) with
          | Some (t, _) => Some (removelast (f_pre f), t)
          | None => None
          end
  end.

Lemma last_split {A} (l : list A) x : last l = Some x -> exists l', l = l' ++ [x] /\ removelast l = l'.
Proof. intros Hl. apply last_Some in Hl as [l' ->]. exists l'. by rewrite removelast_last. Qed.

Lemma unplug_order f kids z : unplug f = Some (kids, z) ->
  (forall X (F : tree -> list X), in_order F no_sep kids z = frame_before F no_sep f ++ frame_after F no_sep f)
  /\ in_order skeleton (fun s => [Sep s]) kids z
     `sublist_of` frame_before skeleton (fun s => [Sep s]) f ++ frame_after skeleton (fun s => [Sep s]) f.
Proof.
  unfold unplug, frame_before, frame_after. destruct (f_post f) as [|[s t] post].
  - destruct (last (f_pre f)) as [[t s]|] eqn:E; [|done]. intros Eq. injection Eq as <- <-. apply last_split in E as (pre & -> & ->).
    cbn [map concat]. split.
    + intros X F. rewrite map_app, concat_app. unfold in_order. cbn. by rewrite !app_nil_r.
    + rewrite map_app, concat_app. unfold in_order. cbn [map concat fst snd]. rewrite !app_nil_r.
      apply sublist_app; [done|]. by apply sublist_inserts_r.
  - destruct (close t post) as [l z'] eqn:E. intros Eq. injection Eq as <- <-. split.
    + intros X F. rewrite in_order_app. f_equal. pose proof (in_order_close F no_sep t post) as H. rewrite E in H. exact H.
    + rewrite in_order_app. apply sublist_app; [done|]. cbn [map concat fst snd app]. apply sublist_cons.
      pose proof (in_order_close skeleton (fun s => [Sep s]) t post) as H. rewrite E in H. cbn [fst snd] in H. by rewrite H.
Qed.

Lemma unplug_cells f h cells z0 : frame_cells f h = (cells, z0) -> cells <> [] ->
  exists kids z, unplug f = Some (kids, z)
    /\ let slot := length (f_pre f) in
       if (slot <? length cells)%nat then kid_cells kids = take slot cells ++ drop (S slot) cells /\ root_page z = z0
       else (exists s, cells = kid_cells kids ++ [(s, root_page z)]).
Proof.
  unfold frame_cells, unplug. assert (Hl : length (kid_cells (f_pre f)) = length (f_pre f)) by apply length_map.
  destruct (f_post f) as [|[s t] post]; cbn [fmap list_fmap close prod_map].
  - intros E Hne. injection E as <- <-. cbn [map] in *. rewrite app_nil_r in *.
    destruct (last (f_pre f)) as [[t s]|] eqn:El; [|by apply last_None in El; rewrite El in Hne]. do 2 eexists. split; [done|].
    cbv zeta. destruct (Nat.ltb_spec (length (f_pre f)) (length (kid_cells (f_pre f)))); [lia|]. exists s.
    apply last_split in El as (pre & -> & ->). unfold kid_cells. by rewrite map_app.
  - pose proof (close_map root_page t post) as Hcm. destruct (close t post) as [l z]. cbn [fst snd id] in *. change (id s) with s.
    rewrite Hcm. intros E Hne. injection E as <- <-. do 2 eexists. split; [done|]. cbv zeta. cbn [map fst snd].
    rewrite length_app. cbn [length]. destruct (Nat.ltb_spec (length (f_pre f)) (length (kid_cells (f_pre f)) + S (length (map (λ x, (x.2, x.1)) (prod_map root_page id <$> l)))));
      [|lia]. split; [|done].
    rewrite take_app_length' by done. rewrite drop_app_ge by lia. rewrite Hl. replace (S (length (f_pre f)) - length (f_pre f))%nat with 1%nat by lia.
    cbn [drop]. unfold kid_cells. rewrite map_app. f_equal. change (map ?g (?h <$> l)) with (g <$> (h <$> l)).
    rewrite <- list_fmap_compose. apply list_fmap_ext. by intros i [a b].
Qed.

Lemma unplug_height f kids z t : unplug f = Some (kids, z) -> (height (Inner (f_page f) kids z) <= height (plug f t))%nat.
Proof.
  unfold unplug, plug. destruct (f_post f) as [|[s u] post].
  - destruct (last (f_pre f)) as [[u s]|] eqn:E; [|done]. intros Eq. injection Eq as <- <-. apply last_split in E as (pre & -> & ->).
    cbn [close]. rewrite app_nil_r. cbn [height]. rewrite fold_right_app. cbn [fold_right fst].
    induction pre as [|x l IH]; cbn; lia.
  - cbn [close]. destruct (close u post) as [l z']. intros Eq. injection Eq as <- <-. cbn [height]. rewrite !fold_right_app.
    cbn [fold_right fst]. induction (f_pre f) as [|x l' IH]; cbn; lia.
Qed.

Section erase.
Context {W : Type} `{PageStoreLaws W}.
Context (lo hi : nat) (Hhi : (hi <= max_key page_size)%nat).
#[local] Abbreviation psz := page_size.

(** The page of a node without the child. *)
Definition unplug_page (buf : Bytes) (slot : nat) : Bytes :=
  if (slot <? Node.count buf)%nat then Node.remove_cell buf slot
  else let last_ := (Node.count buf - 1)%nat in
       Node.remove_cell (Node.set_right buf (Node.child buf last_)) last_.

Lemma unplug_node f h buf cells z prev :
  frame_cells f h = (cells, z) -> cells <> [] -> cells_ok lo hi cells ->
  node_at psz buf kInterior z prev (interior_cells cells) ->
  (Node.count buf =? 0)%nat = false
  /\ exists kids z', unplug f = Some (kids, z')
       /\ node_at psz (unplug_page buf (length (f_pre f))) kInterior (root_page z') prev (interior_cells (kid_cells kids))
       /\ cells_ok lo hi (kid_cells kids).
Proof.
  intros Ef Hne Hok Hn. pose proof (store_page_size (W := W)) as Hpsz.
  destruct (unplug_cells f h cells z Ef Hne) as (kids & z' & Eu & Hcase). cbv zeta in Hcase.
  assert (Hcount : Node.count buf = length cells) by apply (inner_count buf z prev cells Hn).
  split; [apply Nat.eqb_neq; destruct cells; [done|]; cbn in Hcount; lia|]. exists kids, z'. split; [done|].
  unfold unplug_page. rewrite Hcount. destruct (Nat.ltb_spec (length (f_pre f)) (length cells)) as [Hlt|Hge].
  - destruct Hcase as [Ek ->]. rewrite Ek. destruct (lookup_lt_is_Some_2 cells _ Hlt) as [[s c] Hc]. split.
    + rewrite interior_cells_app. unfold interior_cells. rewrite <- firstn_map, <- skipn_map.
      eapply remove_cell_node; [done|done|]. unfold interior_cells. by rewrite list_lookup_fmap, Hc.
    + unfold cells_ok in *. apply Forall_app. split; [by apply Forall_take|by apply Forall_drop].
  - destruct Hcase as [s Ec]. cbv zeta. assert (Hlen : (length cells - 1 = length (kid_cells kids))%nat).
    { rewrite Ec, length_app. cbn. lia. }
    assert (Hlk : cells !! length (kid_cells kids) = Some (s, root_page z')).
    { rewrite Ec, lookup_app_r, Nat.sub_diag by lia. done. }
    rewrite Hlen. destruct (inner_key_child lo hi Hhi buf z prev cells Hok Hn _ _ _ Hlk) as [_ ->].
    assert (Hu : key_ok lo hi s /\ u64_ok (root_page z')) by (unfold cells_ok in Hok; rewrite Forall_lookup in Hok; by apply (Hok _ _ Hlk)).
    split.
    + assert (Htake : interior_cells (kid_cells kids) = take (length (kid_cells kids)) (interior_cells cells)
                                                       ++ drop (S (length (kid_cells kids))) (interior_cells cells)).
      { unfold interior_cells. rewrite firstn_map, skipn_map, Ec. rewrite take_app_length.
        rewrite drop_ge; [by rewrite app_nil_r|]. rewrite length_app. cbn. lia. }
      rewrite Htake. eapply remove_cell_node; [done| |].
      * eapply set_right_node; [done|exact Hn|apply Hu].
      * unfold interior_cells. by rewrite list_lookup_fmap, Hlk.
    + unfold cells_ok in *. rewrite Ec in Hok. by apply Forall_app in Hok as [? _].
Qed.

(** * The leaf chain without a leaf *)

Lemma linked_set_right m m' B x y :
  linked psz m 0 B x -> NoDup (map fst B) -> u64_ok y ->
  (forall q, q ∈ map fst B -> q <> last_page B 0 -> m' !! q = m !! q) ->
  (B <> [] -> exists nb, m !! last_page B 0 = Some nb /\ m' !! last_page B 0 = Some (Node.set_right nb y)) ->
  linked psz m' 0 B y.
Proof.
  intros Hl Hnd Hy Hag Hlast. pose proof (store_page_size (W := W)) as Hpsz.
  destruct B as [|[q fs] B _] using rev_ind; [done|]. apply linked_app in Hl as [Hl1 Hl2]. apply linked_app.
  assert (Elast : last_page (B ++ [(q, fs)]) 0 = q) by (unfold last_page; by rewrite last_snoc). rewrite Elast in *.
  rewrite map_app in Hnd, Hag. apply NoDup_app in Hnd as (_ & Hd & _). cbn [linked first_page map fst] in *. split.
  - eapply linked_agree; [|done]. intros p Hp. apply Hag; [apply elem_of_app; by left|]. intros ->. apply (Hd _ Hp). by left.
  - split; [|done]. destruct Hl2 as [(page & Hq & Hn) _]. destruct Hlast as (nb & Hnb & Hnb'); [by destruct B|].
    assert (nb = page) as -> by congruence. eexists. split; [done|]. by eapply set_right_node.
Qed.

Lemma linked_set_prev m m' A x y :
  linked psz m x A 0 -> NoDup (map fst A) -> u64_ok y ->
  (forall q, q ∈ map fst A -> q <> first_page A 0 -> m' !! q = m !! q) ->
  (A <> [] -> exists nb, m !! first_page A 0 = Some nb /\ m' !! first_page A 0 = Some (Node.set_prev nb y)) ->
  linked psz m' y A 0.
Proof.
  intros Hl Hnd Hy Hag Hfirst. pose proof (store_page_size (W := W)) as Hpsz.
  destruct A as [|[q fs] A]; [done|]. cbn [linked first_page map fst] in *. destruct Hl as [(page & Hq & Hn) Hl].
  apply NoDup_cons in Hnd as [Hqn Hnd]. split.
  - destruct Hfirst as (nb & Hnb & Hnb'); [done|]. assert (nb = page) as -> by congruence. eexists. split; [done|].
    by eapply set_prev_node.
  - eapply linked_agree; [|done]. intros p Hp. apply Hag; [by right|]. by intros ->.
Qed.

Lemma first_page_in (A : list (PageNo * list Entry)) x : A <> [] -> first_page A x ∈ map fst A.
Proof. destruct A as [|[q fs] A]; [done|]. intros _. left. Qed.
Lemma last_page_in (B : list (PageNo * list Entry)) x : B <> [] -> last_page B x ∈ map fst B.
Proof.
  destruct B as [|[q fs] B _] using rev_ind; [done|]. intros _. unfold last_page. rewrite last_snoc, map_app. apply elem_of_app. right. left.
Qed.

(** The ends of a stretch of leaves. *)
Lemma linked_ends m ls prev next :
  pages_ok psz m -> linked psz m prev ls next ->
  (last_page ls 0 = 0 <-> ls = []) /\ u64_ok (last_page ls 0) /\ (first_page ls 0 = 0 <-> ls = []) /\ u64_ok (first_page ls 0)
  /\ (ls <> [] -> (exists nb pv cs, m !! last_page ls 0 = Some nb /\ node_at psz nb kLeaf next pv cs)
                 /\ (exists nb nx cs, m !! first_page ls 0 = Some nb /\ node_at psz nb kLeaf nx prev cs)).
Proof.
  intros Hm Hl. destruct (decide (ls = [])) as [->|Hne]; [split_and!; try done; by unfold u64_ok|].
  assert (Hin : forall x, x ∈ map fst ls -> 1 <= x /\ u64_ok x).
  { intros x Hx. destruct (linked_pages m ls prev next x Hl Hx) as [b Hb]. by destruct (pages_ok_lookup _ _ _ Hm Hb) as (? & ? & _). }
  destruct (Hin _ (last_page_in ls 0 Hne)) as [Hl1 Hl2]. destruct (Hin _ (first_page_in ls 0 Hne)) as [Hf1 Hf2].
  split_and!; [split; [lia|done]|done|split; [lia|done]|done|]. intros _. split.
  - destruct ls as [|[q fs] B _] using rev_ind; [done|]. apply linked_app in Hl as [_ [(page & Hq & Hn) _]].
    unfold last_page at 1. rewrite last_snoc. cbn [first_page] in Hn. eauto.
  - destruct ls as [|[q fs] ls]; [done|]. destruct Hl as [(page & Hq & Hn) _]. cbn [first_page]. eauto.
Qed.

Lemma unlink_prev_runs tree m k B x y :
  has_writer tree = true -> linked psz m 0 B x -> NoDup (map fst B) -> u64_ok y ->
  runs (if last_page B 0 =? 0 then ret tt else let! nb := read (last_page B 0) in write tree (last_page B 0) (Node.set_right nb y))
    m k (fun _ m' k' => k' = k /\ linked psz m' 0 B y
      /\ (forall q, q ∉ map fst B -> m' !! q = m !! q) /\ (forall q, is_Some (m !! q) -> is_Some (m' !! q))).
Proof.
  intros Hw Hl Hnd Hy. apply runs_pages. intros Hm. pose proof (store_page_size (W := W)) as Hpsz.
  destruct (linked_ends m B 0 x Hm Hl) as (Hz & _ & _ & _ & Hends).
  destruct (Z.eqb_spec (last_page B 0) 0) as [E|E]; [apply Hz in E as ->; by apply runs_ret|].
  assert (HB : B <> []) by (by intros ->). pose proof (last_page_in B 0 HB) as Hin.
  destruct (Hends HB) as [(nb & pv & cs & Hnb & Hnn) _]. apply runs_bind, (runs_read _ nb); [done|].
  pose proof (set_right_node psz Hpsz nb kLeaf x pv cs y Hnn Hy) as Hnn'.
  apply runs_write; [done|by eauto|apply Hnn'|apply Hnn'|]. split_and!; [done| | |].
  - eapply linked_set_right; [exact Hl|done|done| |].
    + intros q Hq Hne. by apply lookup_insert_ne.
    + intros _. exists nb. by rewrite lookup_insert_eq.
  - intros q Hq. apply lookup_insert_ne. by intros <-.
  - intros q Hq. apply lookup_insert_is_Some'. auto.
Qed.

Lemma unlink_next_runs tree m k A x y :
  has_writer tree = true -> linked psz m x A 0 -> NoDup (map fst A) -> u64_ok y ->
  runs (if first_page A 0 =? 0 then ret tt else let! nb := read (first_page A 0) in write tree (first_page A 0) (Node.set_prev nb y))
    m k (fun _ m' k' => k' = k /\ linked psz m' y A 0
      /\ (forall q, q ∉ map fst A -> m' !! q = m !! q) /\ (forall q, is_Some (m !! q) -> is_Some (m' !! q))).
Proof.
  intros Hw Hl Hnd Hy. apply runs_pages. intros Hm. pose proof (store_page_size (W := W)) as Hpsz.
  destruct (linked_ends m A x 0 Hm Hl) as (_ & _ & Hz & _ & Hends).
  destruct (Z.eqb_spec (first_page A 0) 0) as [E|E]; [apply Hz in E as ->; by apply runs_ret|].
  assert (HA : A <> []) by (by intros ->). pose proof (first_page_in A 0 HA) as Hin.
  destruct (Hends HA) as [_ (nb & nx & cs & Hnb & Hnn)]. apply runs_bind, (runs_read _ nb); [done|].
  pose proof (set_prev_node psz Hpsz nb kLeaf nx x cs y Hnn Hy) as Hnn'.
  apply runs_write; [done|by eauto|apply Hnn'|apply Hnn'|]. split_and!; [done| | |].
  - eapply linked_set_prev; [exact Hl|done|done| |].
    + intros q Hq Hne. by apply lookup_insert_ne.
    + intros _. exists nb. by rewrite lookup_insert_eq.
  - intros q Hq. apply lookup_insert_ne. by intros <-.
  - intros q Hq. apply lookup_insert_is_Some'. auto.
Qed.

(** [unlink] leaves the leaves before and after, linked to each other. *)
Lemma unlink_runs tree m k B p es A :
  has_writer tree = true -> linked psz m 0 (B ++ (p, es) :: A) 0 -> NoDup (map fst B ++ p :: map fst A) ->
  runs (unlink tree (last_page B 0) (first_page A 0)) m k (fun _ m' k' => k' = k /\ linked psz m' 0 (B ++ A) 0
    /\ (forall q, q ∉ map fst B ++ map fst A -> m' !! q = m !! q) /\ (forall q, is_Some (m !! q) -> is_Some (m' !! q))).
Proof.
  intros Hw Hl Hnd. apply runs_pages. intros Hm. apply linked_app in Hl as [HlB [_ HlA]]. cbn [first_page] in HlB.
  apply NoDup_app in Hnd as (HndB & HdB & HndA). apply NoDup_cons in HndA as [HpA HndA].
  destruct (linked_ends _ _ _ _ Hm HlB) as (_ & HuB & _). destruct (linked_ends _ _ _ _ Hm HlA) as (_ & _ & _ & HuA & _).
  assert (HdBA : forall q, q ∈ map fst A -> q ∉ map fst B) by (intros q Hq Hx; apply (HdB _ Hx); by right).
  unfold unlink. apply runs_bind. eapply runs_conseq; [by apply (unlink_prev_runs tree m k B p (first_page A 0))|].
  intros _ m1 k1 (-> & HlB1 & Hag1 & Hdom1).
  assert (HlA1 : linked psz m1 p A 0) by (eapply linked_agree; [|exact HlA]; auto).
  eapply runs_conseq; [by apply (unlink_next_runs tree m1 k A p (last_page B 0))|].
  intros _ m2 k2 (-> & HlA2 & Hag2 & Hdom2). split_and!; [done| | |auto].
  - apply linked_app. split; [|done]. eapply linked_agree; [|exact HlB1]. intros q Hq. apply Hag2. intros Hx. by apply (HdBA q).
  - intros q [Hq1 Hq2]%not_elem_of_app. by rewrite Hag2, Hag1.
Qed.

(** * The parent without the leaf *)

Definition reroot (p : PageNo) (t : tree) : tree :=
  match t with Leaf _ es => Leaf p es | Inner _ kids last_ => Inner p kids last_ end.

Section unplugged.
Context (m m1 : gmap PageNo Bytes) (f : frame) (ctx : list frame) (p : PageNo) (es : list Entry).
Context (kids : list (BTreeTree.tree * Bytes)) (z : BTreeTree.tree).
#[local] Abbreviation t := (plug_all (f :: ctx) (Leaf p es)).
#[local] Abbreviation B := (before leaves no_sep (f :: ctx)).
#[local] Abbreviation A := (after leaves no_sep (f :: ctx)).
Context (Ht : nodes_at lo hi m t) (Hs : sorted (skeleton t)) (Hks : Forall (fun x => key_ok lo hi (item_key x)) (skeleton t)).
Context (Hl1 : linked psz m1 0 (B ++ A) 0).
Context (Hag1 : forall q, q ∉ map fst (B ++ A) -> q <> p -> m1 !! q = m !! q).
Context (Hun : unplug f = Some (kids, z)).

Lemma unplugged_pages : node_pages t ≡ₚ p :: f_page f :: map fst (B ++ A) ++ map inner_page (frame_inners f ++ ctx_inners ctx (f_page f)).
Proof.
  rewrite node_pages_plug. constructor. cbn [ctx_inners map].
  replace (inner_page (frame_inner f p)) with (f_page f) by (unfold frame_inner, inner_page; by destruct (frame_cells f p)).
  rewrite app_assoc, <- map_app. by rewrite <- Permutation_middle.
Qed.

Lemma unplugged_facts :
  (forall q, q ∈ map inner_page (frame_inners f ++ ctx_inners ctx (f_page f)) -> q <> f_page f /\ q ∉ map fst (B ++ A))
  /\ f_page f ∉ map fst (B ++ A) /\ NoDup (map fst (B ++ A))
  /\ NoDup (map inner_page (frame_inners f ++ ctx_inners ctx (f_page f)))
  /\ inner_at psz lo hi m1 (frame_inner f p) /\ Forall (inner_at psz lo hi m1) (frame_inners f ++ ctx_inners ctx (f_page f)).
Proof.
  pose proof Ht as [_ Hi Hnd]. rewrite unplugged_pages in Hnd. apply NoDup_cons in Hnd as [Hpn Hnd].
  apply NoDup_cons in Hnd as [Hfn Hnd]. apply NoDup_app in Hnd as (HndL & HdL & HndI).
  rewrite not_elem_of_cons, not_elem_of_app in Hpn. destruct Hpn as (Hpf & HpL & HpI). apply not_elem_of_app in Hfn as [HfL HfI].
  assert (Hinn : forall q, q ∈ map inner_page (frame_inners f ++ ctx_inners ctx (f_page f)) -> q <> f_page f /\ q ∉ map fst (B ++ A)).
  { intros q Hq. split; [by intros ->|]. intros Hx. by apply (HdL q). }
  rewrite inners_plug_all in Hi. cbn [inners root_page ctx_inners] in Hi. rewrite app_nil_r in Hi. apply Forall_cons in Hi as [Hif Hi].
  split_and!; try done.
  - eapply inner_at_agree; [|exact Hif]. unfold frame_inner, inner_page. destruct (frame_cells f p). cbn [fst].
    by apply Hag1.
  - eapply (inners_agree lo hi m); [|done]. intros q Hq. apply Hag1; [by apply Hinn|by intros ->].
Qed.

Lemma stored_without t' m' :
  root_page t' = root_page t -> nodes_at lo hi m' t' -> map snd (leaves t') = map snd (B ++ A) ->
  skeleton t' = sep_skeleton ctx ++ in_order skeleton (fun s => [Sep s]) kids z ++ skeleton_sep ctx ->
  (forall q, q ∈ node_pages t' -> q ∈ node_pages t) ->
  (forall q, is_Some (m !! q) -> q ∉ node_pages t -> m' !! q = m1 !! q) ->
  (height t' <= height t)%nat -> stored lo hi (height t) t (all_entries B ++ [] ++ all_entries A) m m'.
Proof.
  intros Hr Hn Hlv Hsk Hp Hag Hh. exists t'.
  assert (Hsub : skeleton t' `sublist_of` skeleton t).
  { rewrite Hsk. rewrite skeleton_plug_all. cbn [skeleton before after]. rewrite <- !app_assoc. apply sublist_app; [done|].
    rewrite !app_assoc. apply sublist_app; [|done]. etrans; [apply (unplug_order f kids z Hun)|].
    apply sublist_app; [by apply sublist_inserts_r|done]. }
  split_and!; [done|done|unfold entries_of, all_entries; by rewrite Hlv, map_app, concat_app|by eapply sorted_sublist|by eapply Forall_sublist|auto| |lia|].
  2: { intros Hf. apply (filled_snd _ _ Hlv). rewrite leaves_plug_all in Hf. exact (filled_without _ _ _ Hf). }
  intros q Hq Hx. rewrite Hag by done. apply Hag1.
  - rewrite unplugged_pages, !not_elem_of_cons, not_elem_of_app in Hx. tauto.
  - intros ->. apply Hx. rewrite unplugged_pages. by left.
Qed.

Lemma unplugged_keep n prev :
  kids <> [] -> node_at psz n kInterior (root_page z) prev (interior_cells (kid_cells kids)) -> cells_ok lo hi (kid_cells kids) ->
  stored lo hi (height t) t (all_entries B ++ [] ++ all_entries A) m (<[f_page f := n]> m1).
Proof.
  intros Hne Hn Hok. destruct unplugged_facts as (Hinn & HfL & HndL & HndI & _ & Hi). destruct (unplug_order f kids z Hun) as [Hord _].
  apply (stored_without (plug_all ctx (Inner (f_page f) kids z))).
  - rewrite !root_plug_all. unfold top_page. rewrite last_cons. by destruct (last ctx).
  - assert (Hlv : leaves (plug_all ctx (Inner (f_page f) kids z)) = B ++ A).
    { rewrite leaves_plug_all. cbn [leaves before after]. rewrite Hord. by rewrite <- !app_assoc. }
    assert (Hin : inners (plug_all ctx (Inner (f_page f) kids z))
                  ≡ₚ (f_page f, kid_cells kids, root_page z) :: frame_inners f ++ ctx_inners ctx (f_page f)).
    { rewrite inners_plug_all. cbn [inners root_page]. rewrite Hord. fold (frame_inners f). rewrite <- Permutation_middle.
      constructor. apply Permutation_app_comm. }
    constructor.
    + rewrite Hlv. eapply linked_agree; [|exact Hl1]. intros q Hq. apply lookup_insert_ne. by intros <-.
    + rewrite Hin. constructor.
      * exists n, prev. rewrite lookup_insert_eq. split_and!; [done|done|by destruct kids|done].
      * eapply (inners_agree lo hi m1); [|done]. intros q Hq. apply lookup_insert_ne. intros <-. by destruct (Hinn _ Hq).
    + unfold node_pages. rewrite Hlv, (Permutation_map inner_page Hin). cbn [map inner_page fst]. apply NoDup_app. split_and!; [done| |].
      * intros q Hq [->|Hx]%elem_of_cons; [done|]. by destruct (Hinn q Hx).
      * constructor; [|done]. intros Hx. by destruct (Hinn _ Hx).
  - rewrite leaves_plug_all. cbn [leaves before after]. rewrite Hord. by rewrite <- !app_assoc.
  - by rewrite skeleton_plug_all.
  - intros q Hq. rewrite unplugged_pages. right. unfold node_pages in Hq. rewrite leaves_plug_all in Hq.
    rewrite (Permutation_map inner_page (inners_plug_all _ _)) in Hq. cbn [leaves inners root_page before after] in Hq.
    rewrite !Hord in Hq. cbn [before after]. revert Hq. unfold frame_inners. cbn [map inner_page fst].
    rewrite !map_app. cbn [map inner_page fst]. rewrite !map_app, !elem_of_cons, !elem_of_app, !elem_of_cons, !elem_of_app. tauto.
  - intros q _ Hx. apply lookup_insert_ne. intros <-. apply Hx. rewrite unplugged_pages. right. by left.
  - pose proof (unplug_height f kids z (Leaf p es) Hun) as Hh.
    pose proof (height_plug_all_le ctx (Inner (f_page f) kids z) (plug f (Leaf p es))) as Hh2.
    pose proof (height_context ctx (plug f (Leaf p es))). cbn [plug_all]. lia.
Qed.

(** An only child takes the place of its parent in the grandparent. *)
Lemma unplugged_up g ctx' gb :
  ctx = g :: ctx' -> kids = [] -> inner_at psz lo hi (<[f_page g := gb]> m1) (frame_inner g (root_page z)) ->
  stored lo hi (height t) t (all_entries B ++ [] ++ all_entries A) m (delete (f_page f) (<[f_page g := gb]> m1)).
Proof.
  intros Ectx Ekids Hg. destruct unplugged_facts as (Hinn & HfL & HndL & HndI & _ & Hi). destruct (unplug_order f kids z Hun) as [Hord _].
  rewrite Ekids in Hord. assert (Hz : forall X (F : BTreeTree.tree -> list X), F z = frame_before F no_sep f ++ frame_after F no_sep f).
  { intros X F. rewrite <- Hord. done. }
  assert (Hzi : inners z = frame_inners f) by apply Hz.
  assert (Hci : ctx_inners ctx (f_page f) = frame_inner g (f_page f) :: frame_inners g ++ ctx_inners ctx' (f_page g)) by (by rewrite Ectx).
  assert (Hgp : forall h, inner_page (frame_inner g h) = f_page g).
  { intros h. unfold frame_inner, inner_page. by destruct (frame_cells g h). }
  rewrite Hci in *.
  assert (Hin : inners (plug_all ctx z) ≡ₚ frame_inner g (root_page z) :: frame_inners f ++ frame_inners g ++ ctx_inners ctx' (f_page g)).
  { rewrite inners_plug_all, Ectx, Hzi. cbn [ctx_inners app]. constructor. apply Permutation_app_comm. }
  assert (Hinp : map inner_page (frame_inner g (root_page z) :: frame_inners f ++ frame_inners g ++ ctx_inners ctx' (f_page g))
                 ≡ₚ map inner_page (frame_inners f ++ frame_inner g (f_page f) :: frame_inners g ++ ctx_inners ctx' (f_page g))).
  { rewrite <- Permutation_middle. cbn [map]. by rewrite !Hgp. }
  assert (Hgin : f_page g ∈ map inner_page (frame_inners f ++ frame_inner g (f_page f) :: frame_inners g ++ ctx_inners ctx' (f_page g))).
  { rewrite map_app. cbn [map]. rewrite Hgp, elem_of_app, elem_of_cons. auto. }
  destruct (Hinn _ Hgin) as [Hgf HgL].
  assert (Hlv : leaves (plug_all ctx z) = B ++ A).
  { rewrite leaves_plug_all. cbn [before after]. rewrite Hz. by rewrite <- !app_assoc. }
  assert (Hag' : forall q, q <> f_page f -> q <> f_page g -> delete (f_page f) (<[f_page g := gb]> m1) !! q = m1 !! q).
  { intros q H1 H2. by rewrite lookup_delete_ne, lookup_insert_ne. }
  apply (stored_without (plug_all ctx z)).
  - rewrite !root_plug_all, Ectx. unfold top_page. rewrite !last_cons. by destruct (last ctx').
  - constructor.
    + rewrite Hlv. eapply linked_agree; [|exact Hl1]. intros q Hq. apply Hag'; by intros ->.
    + rewrite Hin. constructor.
      * eapply inner_at_agree; [|exact Hg]. rewrite Hgp. by apply lookup_delete_ne.
      * rewrite Forall_app, Forall_cons in Hi. destruct Hi as (Hi1 & _ & Hi2).
        eapply (inners_agree lo hi m1); [|by apply Forall_app]. intros q Hq.
        rewrite map_app in HndI. cbn [map] in HndI. rewrite Hgp, <- Permutation_middle, <- map_app in HndI. apply NoDup_cons in HndI as [Hgn _].
        apply Hag'; [|by intros ->]. apply Hinn. rewrite <- Hinp. by right.
    + unfold node_pages. rewrite Hlv, (Permutation_map inner_page Hin), Hinp. apply NoDup_app. split_and!; [done| |done].
      intros q Hq Hx. by destruct (Hinn q Hx).
  - by rewrite Hlv.
  - rewrite skeleton_plug_all, Ekids. done.
  - intros q Hq. rewrite unplugged_pages. do 2 right. unfold node_pages in Hq. by rewrite Hlv, (Permutation_map inner_page Hin), Hinp, <- Hci in Hq.
  - intros q _ Hx. rewrite unplugged_pages, !not_elem_of_cons, not_elem_of_app, Hci in Hx. destruct Hx as (_ & Hx1 & _ & Hx2).
    apply Hag'; [done|]. by intros ->.
  - pose proof (unplug_height f kids z (Leaf p es) Hun) as Hh. rewrite Ekids in Hh. cbn [height fold_right] in Hh.
    pose proof (height_plug_all_le ctx z (plug f (Leaf p es))) as Hh2.
    pose proof (height_context ctx (plug f (Leaf p es))). cbn [plug_all]. lia.
Qed.

(** The only child of the root becomes the root. *)
Lemma unplugged_root child :
  ctx = [] -> kids = [] -> m1 !! root_page z = Some child ->
  root_page z <> f_page f /\ length child = psz /\ bytes_ok child
  /\ stored lo hi (height t) t (all_entries B ++ [] ++ all_entries A) m (delete (root_page z) (<[f_page f := child]> m1)).
Proof.
  intros Ectx Ekids Hchild. destruct unplugged_facts as (Hinn & HfL & HndL & HndI & _ & Hi). destruct (unplug_order f kids z Hun) as [Hord _].
  rewrite Ekids in Hord. assert (Hz : forall X (F : BTreeTree.tree -> list X), F z = frame_before F no_sep f ++ frame_after F no_sep f).
  { intros X F. rewrite <- Hord. done. }
  assert (Hzi : inners z = frame_inners f) by apply Hz.
  assert (Hzl : leaves z = B ++ A) by (rewrite Ectx; cbn [before after]; rewrite app_nil_r; apply Hz).
  pose proof Hl1 as Hlz. rewrite <- Hzl in HfL, HndL, Hinn, Hlz.
  rewrite Ectx in Hinn, HndI, Hi. cbn [ctx_inners] in Hinn, HndI, Hi. rewrite app_nil_r in Hinn, HndI, Hi. rewrite <- Hzi in Hinn, HndI, Hi.
  assert (Hup : root_page t = f_page f) by (rewrite Ectx; cbn [plug_all]; apply root_plug).
  assert (Hroot : root_page z ∈ map fst (leaves z) \/ root_page z ∈ map inner_page (inners z)).
  { destruct z as [q es1|q ks l]; cbn; [left|right]; left. }
  assert (Hzf : root_page z <> f_page f) by (destruct Hroot as [Hr|Hr]; [by intros E; rewrite E in Hr|by apply Hinn]).
  assert (Hnode : exists ty nx pv cs, node_at psz child ty nx pv cs).
  { destruct z as [q es1|q ks l]; cbn [root_page leaves linked inners] in *.
    - destruct Hlz as [(page & Hq & Hn) _]. assert (page = child) as -> by congruence. eauto.
    - apply Forall_cons in Hi as [(page & pv & Hq & Hn & _) _]. assert (page = child) as -> by congruence. eauto. }
  destruct Hnode as (ty & nx & pv & cs & Hnode). split_and!; [done|apply Hnode|apply Hnode|].
  apply (stored_without (reroot (f_page f) z)).
  - rewrite Hup. by destruct z.
  - assert (Hf' : delete (root_page z) (<[f_page f := child]> m1) !! f_page f = Some child).
    { rewrite lookup_delete_ne by done. apply lookup_insert_eq. }
    destruct z as [q es1|q ks l]; cbn [reroot root_page leaves linked inners first_page map fst inner_page] in *.
    + destruct Hlz as [(page & Hq & Hn) _]. assert (page = child) as -> by congruence.
      constructor; [|constructor|unfold node_pages; cbn; apply NoDup_cons_2; [apply not_elem_of_nil|constructor]].
      split; [|done]. exists child. done.
    + apply Forall_cons in Hi as [(page & pv' & Hq & Hn & Hne & Hk) Hi]. assert (page = child) as -> by congruence.
      apply NoDup_cons in HndI as [Hqn HndI].
      assert (Hkeep : forall x, x <> q -> x <> f_page f -> delete q (<[f_page f := child]> m1) !! x = m1 !! x).
      { intros x H1 H2. by rewrite lookup_delete_ne, lookup_insert_ne. }
      constructor; cbn [leaves inners].
      * eapply linked_agree; [|exact Hlz]. intros x Hx. apply Hkeep; [|by intros ->].
        intros ->. by destruct (Hinn q ltac:(left)).
      * constructor; [by exists child, pv'|]. eapply (inners_agree lo hi m1); [|exact Hi]. intros x Hx. apply Hkeep; [by intros ->|].
        by apply Hinn; right.
      * unfold node_pages. cbn [leaves inners map inner_page fst]. apply NoDup_app. split_and!; [done| |].
        -- intros x Hx [->|Hy]%elem_of_cons; [done|]. by destruct (Hinn x ltac:(by right)).
        -- constructor; [|done]. intros Hx. by destruct (Hinn (f_page f) ltac:(by right)).
  - rewrite <- Hzl. by destruct z.
  - rewrite Ectx, Ekids. cbn [before after app]. rewrite app_nil_r. by destruct z.
  - intros q Hq. rewrite unplugged_pages, <- Hzl, Ectx. cbn [ctx_inners]. rewrite app_nil_r, <- Hzi. right.
    destruct z as [q0 es1|q0 ks l]; unfold node_pages in Hq; cbn [reroot leaves inners map fst inner_page app] in *.
    + rewrite elem_of_cons in *. destruct Hq as [Hq|Hq]; [by left|]. by apply elem_of_nil in Hq.
    + rewrite !elem_of_app, !elem_of_cons in *. rewrite elem_of_app, elem_of_cons. tauto.
  - intros q _ Hx. rewrite unplugged_pages, !not_elem_of_cons, not_elem_of_app, <- Hzl, Ectx in Hx. cbn [ctx_inners] in Hx.
    rewrite app_nil_r, <- Hzi in Hx. destruct Hx as (_ & Hx1 & Hx2 & Hx3). rewrite lookup_delete_ne, lookup_insert_ne; [done|done|].
    intros <-. by destruct Hroot.
  - pose proof (unplug_height f kids z (Leaf p es) Hun) as Hh. rewrite Ekids in Hh. cbn [height fold_right] in Hh.
    rewrite Ectx. cbn [plug_all]. assert (height (reroot (f_page f) z) = height z) by (by destruct z). lia.
Qed.
End unplugged.

Lemma remove_child_runs tree m m1 f ctx p es k :
  has_writer tree = true -> root_ tree = root_page (plug_all (f :: ctx) (Leaf p es)) ->
  let t := plug_all (f :: ctx) (Leaf p es) in
  let B := before leaves no_sep (f :: ctx) in
  let A := after leaves no_sep (f :: ctx) in
  nodes_at lo hi m t -> sorted (skeleton t) -> Forall (fun x => key_ok lo hi (item_key x)) (skeleton t) ->
  linked psz m1 0 (B ++ A) 0 -> (forall q, q ∉ map fst (B ++ A) -> q <> p -> m1 !! q = m !! q) ->
  runs (remove_child tree (map frame_entry (f :: ctx))) m1 k
    (fun _ m' k' => stored lo hi (height t) t (all_entries B ++ [] ++ all_entries A) m m' /\ k' = k).
Proof.
  intros Hw Hroot t B A Ht Hs Hks Hl1 Hag1. apply runs_pages. intros Hm1.
  destruct (unplugged_facts m m1 f ctx p es Ht Hag1) as (Hinn & HfL & _ & _ & Hif & Hi). fold B A in Hinn, HfL.
  unfold frame_inner in Hif. destruct (frame_cells f p) as [cells z0] eqn:Ecells.
  destruct Hif as (buf & prev & Hbuf & Hn & Hne & Hok).
  destruct (unplug_node f p buf cells z0 prev Ecells Hne Hok Hn) as (Hcount & kids & z & Hun & Hn' & Hok').
  cbn [map remove_child frame_entry]. apply runs_bind, (runs_read _ buf); [done|].
  set (n := unplug_page buf (length (f_pre f))) in *.
  match goal with |- runs ?c _ _ _ => assert (Eprog : c = collapse tree (f_page f) (map frame_entry ctx) n) end.
  { unfold n, unplug_page. rewrite Hcount. by destruct (length (f_pre f) <? Node.count buf)%nat. }
  rewrite Eprog. clear Eprog. unfold collapse. rewrite (inner_count n _ _ _ Hn'). unfold kid_cells at 1. rewrite length_map.
  destruct (Nat.ltb_spec 0 (length kids)) as [Hlt|Hge].
  { eapply write_inner; [done|by eauto|exact Hn'|]. split; [|done].
    eapply (unplugged_keep m m1 f ctx p es kids z); try done. by destruct kids; [cbn in Hlt; lia|]. }
  assert (kids = []) as Ekids by (destruct kids; [done|cbn in Hge; lia]).
  rewrite (na_right _ _ _ _ _ _ Hn'). destruct (unplug_order f kids z Hun) as [Hord _].
  assert (Hz : is_Some (m1 !! root_page z)).
  { rewrite Ekids in Hord. destruct z as [q es1|q ks l]; cbn [root_page].
    - apply (linked_pages m1 (B ++ A) 0 0); [done|]. pose proof (Hord _ leaves) as Hlv. cbn in Hlv.
      unfold B, A. cbn [before after]. rewrite <- app_assoc, (app_assoc (frame_before _ _ _)), <- Hlv, !map_app. cbn [map fst].
      rewrite !elem_of_app, elem_of_cons. auto.
    - pose proof (Hord _ inners) as Hiv. cbn in Hiv. apply Forall_app in Hi as [Hi _]. unfold frame_inners in Hi.
      rewrite <- Hiv in Hi. apply Forall_cons in Hi as [(page & pv & Hq & _) _]. eauto. }
  destruct Hz as [child Hz]. destruct (pages_ok_lookup _ _ _ Hm1 Hz) as (_ & Hzu & _).
  destruct ctx as [|g ctx'] eqn:Ectx; cbn [map frame_entry].
  - destruct (unplugged_root m m1 f [] p es kids z Ht Hs Hks Hl1 Hag1 Hun child eq_refl Ekids Hz) as (Hzf & Hcl & Hcb & Hst).
    apply runs_bind, (runs_read _ child); [done|]. assert (Hr : root_ tree = f_page f) by (rewrite Hroot; cbn [plug_all]; apply root_plug).
    rewrite Hr. apply runs_bind, runs_write; [done|by eauto|done|done|].
    apply runs_free; [rewrite lookup_insert_ne by done; by eauto|]. split; [exact Hst|done].
  - cbn [ctx_inners] in Hi, Hinn. apply Forall_app in Hi as [_ Hi]. apply Forall_cons in Hi as [Hg _].
    unfold frame_inner in Hg. pose proof (hole_update lo hi Hhi g (f_page f) (root_page z)) as Hup.
    assert (Hgf : f_page g <> f_page f).
    { apply Hinn. rewrite map_app. cbn [map]. rewrite elem_of_app, elem_of_cons. right. left.
      unfold frame_inner, inner_page. by destruct (frame_cells g (f_page f)). }
    destruct (frame_cells g (f_page f)) as [cg zg] eqn:Eg. destruct Hg as (gb & gpv & Hgb & Hgn & Hgne & Hgok).
    pose proof (frame_cells_change hi Hhi g (f_page f) (root_page z)) as Hch. rewrite Eg in Hch.
    destruct (frame_cells g (root_page z)) as [cg' zg'] eqn:Eg'. destruct Hch as [Hlen _].
    destruct (Hup gb gpv Hgok Hzu Hgn) as (_ & Hgn' & Hgok').
    apply runs_bind, (runs_read _ gb); [done|].
    set (gb' := if negb (length (f_pre g) <? Node.count gb)%nat then Node.set_right gb (root_page z)
                else Node.set_child gb (length (f_pre g)) (root_page z)) in *.
    replace (if (length (f_pre g) <? Node.count gb)%nat then Node.set_child gb (length (f_pre g)) (root_page z)
             else Node.set_right gb (root_page z)) with gb' by (unfold gb'; by destruct (length (f_pre g) <? Node.count gb)%nat).
    apply runs_bind. eapply write_inner; [done|by eauto|exact Hgn'|].
    apply runs_free; [rewrite lookup_insert_ne by done; by eauto|]. split; [|done].
    eapply (unplugged_up m m1 f (g :: ctx') p es kids z Ht Hs Hks Hl1 Hag1 Hun g ctx' gb' eq_refl Ekids).
    unfold frame_inner. rewrite Eg'. exists gb', gpv. rewrite lookup_insert_eq. split_and!; [done|done| |done].
    intros ->. by destruct cg.
Qed.

(** A leaf that empties is removed with its place in the parent. *)
Lemma drop_leaf_runs tree m ctx p es page next prev n k :
  let t := plug_all ctx (Leaf p es) in
  has_writer tree = true -> root_ tree = root_page t -> ctx <> [] ->
  nodes_at lo hi m t -> sorted (skeleton t) -> Forall (fun x => key_ok lo hi (item_key x)) (skeleton t) ->
  m !! p = Some page -> node_at psz page kLeaf next prev (map cell_of es) -> node_at psz n kLeaf next prev [] ->
  runs (do! unlink tree (Node.prev n) (Node.right n) in do! free_page p in
        do! remove_child tree (map frame_entry ctx) in ret true) m k
    (fun r m' k' => r = true /\ stored lo hi (height t) t (all_entries (before leaves no_sep ctx) ++ [] ++ all_entries (after leaves no_sep ctx)) m m' /\ k' = k).
Proof.
  intros t Hw Hroot Hctx Ht Hs Hks Hp Hn Hn0. rewrite (na_right _ _ _ _ _ _ Hn0), (na_prev _ _ _ _ _ _ Hn0).
  destruct (leaf_links lo hi m ctx p es page next prev Ht Hp Hn) as [-> ->].
  pose proof Ht as [Hl _ Hnd]. unfold t in Hl, Hnd. rewrite leaves_plug_all in Hl. cbn [leaves app] in Hl.
  rewrite node_pages_plug in Hnd. rewrite app_assoc in Hnd. apply NoDup_cons in Hnd as [Hpn Hnd].
  apply NoDup_app in Hnd as (Hnd & _ & _). rewrite not_elem_of_app in Hpn. destruct Hpn as [HpL _].
  apply runs_bind. eapply runs_conseq; [eapply (unlink_runs tree m k); [done|exact Hl|]|].
  { rewrite <- Permutation_middle. by constructor. }
  intros _ m1 k1 (-> & Hl1 & Hag1 & Hdom1). apply runs_bind, runs_free; [apply Hdom1; eauto|].
  apply runs_bind. destruct ctx as [|f ctx]; [done|]. eapply runs_conseq.
  - eapply (remove_child_runs tree m (delete p m1) f ctx p es); [done|done|done|done|done| |].
    + eapply linked_agree; [|exact Hl1]. intros q Hq. apply lookup_delete_ne. intros <-. by rewrite map_app in Hq.
    + intros q Hq Hqp. rewrite lookup_delete_ne by done. apply Hag1. by rewrite <- map_app.
  - intros _ m' k' [Hst ->]. apply runs_ret. split_and!; done.
Qed.

(** A key is erased. *)
Lemma erase_runs tree t key m k :
  has_writer tree = true -> tree_at psz lo hi m t -> root_page t = root_ tree -> (height t <= 64)%nat ->
  runs (erase tree key) m k
    (fun existed m' k' => existed = bool_decide (is_Some (contents t !! key)) /\ exists t', tree_at psz lo hi m' t' /\ root_page t' = root_ tree
         /\ contents t' = delete key (contents t) /\ (height t' <= height t)%nat
         /\ (forall q, is_Some (m !! q) -> q ∉ owned t -> m' !! q = m !! q)).
Proof.
  intros Hw Ht Hr Hh. unfold erase. rewrite Hw. cbn [negb]. apply runs_pages. intros Hm. pose proof (store_page_size (W := W)) as Hpsz.
  apply runs_bind. eapply (find_leaf_runs lo hi Hhi); [done|done|done|]. intros ctx p es page i Hpl Hka.
  cbn [slot_of pe_slot pe_page tl]. rewrite Hka. pose proof Hpl as [Et Hp (next & prev & Hn) Hfit Hi Hb Ha].
  pose proof (tree_part lo hi _ _ Ht) as Hpart. rewrite Et in Hpart. destruct (part_leaf lo hi _ _ _ _ Hpart) as [Hes Hs].
  pose proof (contents_at hi Hhi ctx p es key i Hfit Hb Ha Hs) as Hc. rewrite <- Et in Hc.
  assert (Hnot : match es !! i with Some e => bool_decide (e_key e = key) | None => false end = false -> contents t !! key = None).
  { intros E. rewrite Hc. destruct (es !! i); [|done]. rewrite decide_False; [done|]. by apply bool_decide_eq_false in E. }
  destruct (match es !! i with Some e => bool_decide (e_key e = key) | None => false end) eqn:Eb; cbn [negb].
  2: { apply runs_ret. rewrite (Hnot eq_refl). split; [done|]. exists t. rewrite delete_id by (by apply Hnot). split_and!; try done. }
  destruct (es !! i) as [e|] eqn:Ee; [|done]. apply bool_decide_eq_true in Eb. rewrite decide_True in Hc by done.
  destruct (context_keys ctx key Hfit) as [HB HA].
  set (all1 := all_entries (before leaves no_sep ctx)) in *. set (all2 := all_entries (after leaves no_sep ctx)) in *.
  assert (Hold : entries_of t = (all1 ++ take i es) ++ [e] ++ drop (S i) es ++ all2).
  { rewrite Et, entries_plug_all. unfold entries_of. cbn [leaves]. unfold all_entries at 2. cbn [map concat snd].
    rewrite app_nil_r. rewrite <- (take_drop_middle es i e Ee) at 1. by rewrite <- !app_assoc. }
  assert (Hnd : NoDup (e_chain e)).
  { eapply entry_chain_nodup; [done|]. rewrite Hold, !elem_of_app. right. left. left. }
  apply runs_bind. eapply runs_conseq; [by eapply (free_cell_runs lo hi Hhi m k page next prev es i e)|]. intros _ ? ? [-> ->].
  assert (Echain : chains [e] = e_chain e) by (unfold chains; cbn; by rewrite app_nil_r). rewrite <- Echain. clear Echain.
  set (m2 := without m (chains [e])). assert (Hadd : added m2 m2 (chains [])) by (split_and!; [constructor..|done]).
  pose proof (change_nodes lo hi m m2 t _ [e] [] _ Ht Hold Hadd) as Hnt.
  assert (Hp2 : m2 !! p = Some page).
  { rewrite <- Hp. eapply (change_kept m m2 [e] []); [done|by eauto|].
    destruct (change_disjoint lo hi m t _ [e] _ Ht Hold) as (_ & _ & Hd & _). apply Hd. rewrite Et, node_pages_plug. by left. }
  set (n := Node.remove_cell page i). set (es' := take i es ++ drop (S i) es).
  assert (Hn' : node_at psz n kLeaf next prev (map cell_of es')).
  { unfold es'. rewrite map_app, <- firstn_map, <- skipn_map. eapply remove_cell_node; [done|done|by apply leaf_cell]. }
  pose proof (ta_sorted _ _ _ _ _ Ht) as Hsk. pose proof (ta_keys _ _ _ _ _ Ht) as Hkk.
  apply (runs_conseq _ _ _ (fun r m' k' => r = true /\ stored lo hi (height t) t (all1 ++ es' ++ all2) m2 m' /\ k' = k)).
  - cbv zeta. rewrite (leaf_count n _ _ _ Hn'). cbn [length]. rewrite length_map.
    destruct ((0 <? length es')%nat || (S (length ctx) =? 1)%nat) eqn:Econd.
    + apply runs_bind. apply runs_write; [done|by eauto|apply Hn'|apply Hn'|]. apply runs_ret. split_and!; [done| |done].
      rewrite Et in Hnt, Hsk, Hkk |- *. rewrite skeleton_plug_all in Hsk, Hkk.
      assert (Hsub : sep_skeleton ctx ++ map (fun e => K (e_key e)) es' ++ skeleton_sep ctx
                     `sublist_of` sep_skeleton ctx ++ skeleton (Leaf p es) ++ skeleton_sep ctx).
      { apply sublist_app; [done|]. apply sublist_app; [|done]. cbn [skeleton]. unfold es'.
        rewrite <- (take_drop_middle es i e Ee) at 3. rewrite !map_app. apply sublist_app; [done|]. cbn [map]. by apply sublist_cons. }
      eapply (stored_in_place lo hi Hhi m2 ctx p es es' page next prev); try done; [by eapply sorted_sublist|by eapply Forall_sublist|].
      destruct ctx; [by right|left]. intros E0. by rewrite E0 in Econd.
    + apply orb_false_iff in Econd as [E1 E2]. apply Nat.ltb_ge in E1. apply Nat.eqb_neq in E2.
      assert (Ees : es' = []) by (destruct es'; [done|cbn in E1; lia]). rewrite Ees in Hn' |- *.
      rewrite Et in Hnt, Hsk, Hkk, Hr |- *.
      eapply (drop_leaf_runs tree m2 ctx p es page next prev n k); try done. by destruct ctx; cbn in E2.
  - intros r m3 k3 (-> & Hst & ->). rewrite Hc, bool_decide_true by eauto. split; [done|].
    destruct (change_tree lo hi m m2 m3 t _ [e] [] _ Ht Hold Hadd ltac:(constructor) (height t)) as (t' & Ht' & Hr' & He' & Hh' & Hag).
    { cbn [app]. unfold es' in Hst. rewrite <- !app_assoc in *. exact Hst. }
    exists t'. split_and!; [done|congruence| |done|done]. unfold contents. rewrite He', Hold.
    apply (contents_replace (all1 ++ take i es) [e] (drop (S i) es ++ all2) key); [apply Forall_app; split|apply Forall_app; split|].
    + eapply Forall_impl; [exact HB|]. intros x. apply klt_ne.
    + eapply Forall_impl; [exact Hb|]. intros x. apply klt_ne.
    + rewrite (drop_S _ _ _ Ee) in Ha. rewrite <- (take_drop i es), (drop_S _ _ _ Ee), map_app in Hs. apply sorted_app in Hs as (_ & Hs & _).
      by apply (after_keys key _ Hs Ha).
    + eapply Forall_impl; [exact HA|]. intros x Hx. symmetry. by apply klt_ne.
    + by constructor.
Qed.
End erase.
