(* ===== verification/BTreeScan.v ===== *)
(** Cursors over the B+tree.

    A cursor divides the entries of the tree into those before it and those
    from it on.  [seek_first], [seek_last] and [seek] put it at the first and
    the last entry and at the first entry not below a key, [next] and [prev]
    move it, and [for_each] visits every entry in key order. *)

From stdpp Require Import base numbers list gmap strings sorting.
From S2P Require Import Prelude Bytes PageFormat BTreeNode BTreeNodeFacts BTree BTreeTree BTreeRead BTreePut.
Open Scope Z_scope.

Section scan.
Context {W : Type} `{PageStoreLaws W}.
Context (lo hi : nat) (Hhi : (hi <= max_key page_size)%nat).
#[local] Abbreviation psz := page_size.

(** * Where a cursor is *)

Section cursors.
Context (m : gmap PageNo Bytes) (t : BTreeTree.tree).
(** The cursor is at slot [slot_ c] of a leaf, between the entries [bef] and
    [aft]. *)
Definition between (c : Cursor) (bef aft : list Entry) : Prop :=
  exists B es A, leaves t = B ++ (leaf_ c, es) :: A /\ m !! leaf_ c = Some (page_ c) /\ (slot_ c <= length es)%nat
    /\ bef = all_entries B ++ take (slot_ c) es /\ aft = drop (slot_ c) es ++ all_entries A.
(** The cursor is on the first of [aft], with [bef] before it, or past the
    end. *)
Definition cursor_at (c : Cursor) (bef aft : list Entry) : Prop :=
  entries_of t = bef ++ aft
  /\ match aft with
     | [] => valid_ c = false
     | e :: _ => valid_ c = true /\ key_ c = e_key e /\ between c bef aft /\ (slot_ c < Node.count (page_ c))%nat
     end.

Context (Ht : tree_at psz lo hi m t).
Lemma leaf_of B p es A page : leaves t = B ++ (p, es) :: A -> m !! p = Some page ->
  node_at psz page kLeaf (first_page A 0) (last_page B 0) (map cell_of es) /\ Forall (entry_at psz lo hi m) es.
Proof.
  intros Hlv Hp. pose proof (ta_leaves _ _ _ _ _ Ht) as Hl. pose proof (ta_entries _ _ _ _ _ Ht) as He. unfold entries_of in He.
  rewrite Hlv in Hl, He. apply linked_app in Hl as [_ [(page' & Hp' & Hn) _]]. assert (page' = page) as -> by congruence. split; [done|].
  rewrite all_entries_app in He. apply Forall_app in He as [_ He]. unfold all_entries in He. cbn [map concat snd] in He. by apply Forall_app in He as [? _].
Qed.
Lemma leaf_there B p es A : leaves t = B ++ (p, es) :: A -> exists page, m !! p = Some page.
Proof.
  intros Hlv. apply (linked_pages m (leaves t) 0 0); [apply Ht|]. rewrite Hlv, map_app. apply elem_of_app. right. left.
Qed.
Lemma all_entries_cons p es A : all_entries ((p, es) :: A) = es ++ all_entries A.
Proof. done. Qed.
Lemma between_entries c bef aft : between c bef aft -> entries_of t = bef ++ aft.
Proof.
  intros (B & es & A & Hlv & _ & _ & -> & ->). unfold entries_of. rewrite Hlv, all_entries_app, all_entries_cons.
  rewrite <- app_assoc, (app_assoc (take _ _)), take_drop. done.
Qed.
(** A cursor on a slot. *)
Lemma on_slot c B es A e : pages_ok psz m -> leaves t = B ++ (leaf_ c, es) :: A -> m !! leaf_ c = Some (page_ c) -> es !! slot_ c = Some e -> valid_ c = true ->
  key_ c = Node.key (page_ c) (slot_ c) -> cursor_at c (all_entries B ++ take (slot_ c) es) (drop (slot_ c) es ++ all_entries A).
Proof.
  intros Hm Hlv Hp He Hv Hk. destruct (leaf_of _ _ _ _ _ Hlv Hp) as [Hn Hes].
  assert (Hb : between c (all_entries B ++ take (slot_ c) es) (drop (slot_ c) es ++ all_entries A)).
  { exists B, es, A. split_and!; try done. apply lookup_lt_Some in He. lia. }
  split; [by apply between_entries in Hb|]. rewrite (drop_S _ _ _ He) in *. cbn [app] in *. split_and!; [done| |done|].
  - rewrite Hk. by eapply (leaf_key lo hi Hhi m (page_ c) (first_page A 0) (last_page B 0) es).
  - rewrite (leaf_count _ _ _ _ Hn). by eapply lookup_lt_Some.
Qed.

Lemma load_slot_runs fuel : forall c B es A k,
  leaves t = B ++ (leaf_ c, es) :: A -> m !! leaf_ c = Some (page_ c) -> (slot_ c <= length es)%nat -> (length A <= fuel)%nat ->
  runs (load_slot fuel c) m k
    (fun c' m' k' => cursor_at c' (all_entries B ++ take (slot_ c) es) (drop (slot_ c) es ++ all_entries A) /\ m' = m /\ k' = k).
Proof.
  induction fuel as [|fuel IH]; intros c B es A k Hlv Hp Hs Hfuel; apply runs_pages; intros Hm; destruct (leaf_of _ _ _ _ _ Hlv Hp) as [Hn Hes];
    cbn [load_slot]; rewrite (leaf_count _ _ _ _ Hn), (na_right _ _ _ _ _ _ Hn).
  all: destruct (Nat.ltb_spec (slot_ c) (length es)) as [Hlt|Hge].
  1, 3: destruct (lookup_lt_is_Some_2 es _ Hlt) as [e He]; apply runs_ret; split_and!; try done; exact (on_slot (mkCursor (leaf_ c) (slot_ c) (page_ c) (Node.key (page_ c) (slot_ c)) true) B es A e Hm Hlv Hp He eq_refl eq_refl).
  all: destruct A as [|[q fs] A]; cbn [first_page]; [change (0 =? 0) with true|cbn [length] in Hfuel; try lia].
  1, 2: apply runs_ret; split_and!; try done; assert (Hb : between c (all_entries B ++ take (slot_ c) es) (drop (slot_ c) es ++ all_entries []))
    by (by exists B, es, []); split; [by apply between_entries in Hb|]; by rewrite drop_ge.
  assert (Hlv' : leaves t = (B ++ [(leaf_ c, es)]) ++ (q, fs) :: A) by (by rewrite Hlv, <- app_assoc).
  destruct (leaf_there _ _ _ _ Hlv') as [page Hq]. destruct (pages_ok_lookup _ _ _ Hm Hq) as (Hq1 & _).
  destruct (Z.eqb_spec q 0); [lia|]. apply runs_bind, (runs_read _ page); [done|].
  eapply runs_conseq; [apply (IH (mkCursor q 0 page (key_ c) (valid_ c)) _ fs A k Hlv'); cbn [leaf_ page_ slot_]; [done|lia|lia]|].
  cbn [slot_]. rewrite take_0, drop_0, app_nil_r, all_entries_app, all_entries_cons. unfold all_entries at 2 4. cbn [map concat snd]. rewrite app_nil_r.
  rewrite take_ge, drop_ge by lia. done.
Qed.

Lemma next_runs fuel c bef e aft k :
  cursor_at c bef (e :: aft) -> (length (leaves t) <= fuel)%nat ->
  runs (next fuel c) m k (fun c' m' k' => cursor_at c' (bef ++ [e]) aft /\ m' = m /\ k' = k).
Proof.
  intros (_ & Hv & _ & (B & es & A & Hlv & Hp & Hle & -> & Er) & Hs) Hfuel. unfold next. rewrite Hv. cbn [negb].
  destruct (leaf_of _ _ _ _ _ Hlv Hp) as [Hn Hes]. rewrite (leaf_count _ _ _ _ Hn) in Hs.
  destruct (lookup_lt_is_Some_2 es _ Hs) as [e' He]. rewrite (drop_S _ _ _ He) in Er. cbn [app] in Er. injection Er as -> ->.
  rewrite <- app_assoc, <- (take_S_r _ _ _ He). replace (S (slot_ c)) with (slot_ c + 1)%nat by lia.
  apply (load_slot_runs fuel (mkCursor _ _ _ _ _) B es A k); [done|done|cbn; lia|]. rewrite Hlv, length_app in Hfuel. cbn in Hfuel. lia.
Qed.

(** The entry before the cursor, or none. *)
Lemma step_back_runs fuel : forall c B es A k,
  leaves t = B ++ (leaf_ c, es) :: A -> m !! leaf_ c = Some (page_ c) -> (slot_ c <= length es)%nat -> valid_ c = true -> (length B <= fuel)%nat ->
  runs (step_back fuel c) m k
    (fun c' m' k' => match last (all_entries B ++ take (slot_ c) es) with
                     | Some e => exists bef, all_entries B ++ take (slot_ c) es = bef ++ [e]
                                   /\ cursor_at c' bef (e :: drop (slot_ c) es ++ all_entries A)
                     | None => valid_ c' = false
                     end /\ m' = m /\ k' = k).
Proof.
  induction fuel as [|fuel IH]; intros c B es A k Hlv Hp Hs Hv Hfuel; apply runs_pages; intros Hm; destruct (leaf_of _ _ _ _ _ Hlv Hp) as [Hn Hes];
    cbn [step_back]; rewrite (na_prev _ _ _ _ _ _ Hn).
  all: destruct (slot_ c) as [|s] eqn:Es; cbn [Nat.eqb negb].
  2, 4: destruct (lookup_lt_is_Some_2 es s ltac:(lia)) as [e He]; apply runs_ret; split_and!; try done; rewrite (take_S_r _ _ _ He), app_assoc, last_snoc;
    eexists; (split; [reflexivity|]); cbn [Nat.sub]; rewrite Nat.sub_0_r; rewrite app_comm_cons, <- (drop_S _ _ _ He);
    exact (on_slot (mkCursor (leaf_ c) s (page_ c) (Node.key (page_ c) s) (valid_ c)) B es A e Hm Hlv Hp He Hv eq_refl).
  all: destruct (decide (B = [])) as [->|Hne]; [by apply runs_ret|].
  { destruct B; [done|cbn in Hfuel; lia]. }
  destruct (exists_last Hne) as (B0 & [q fs] & EB). rewrite EB in *. unfold last_page. rewrite last_snoc. cbn [fst].
  rewrite <- app_assoc in Hlv. cbn [app] in Hlv. destruct (leaf_there _ _ _ _ Hlv) as [page Hq]. destruct (pages_ok_lookup _ _ _ Hm Hq) as (Hq1 & _).
  destruct (Z.eqb_spec q 0); [lia|]. apply runs_bind, (runs_read _ page); [done|]. destruct (leaf_of _ _ _ _ _ Hlv Hq) as [Hnq _].
  rewrite (leaf_count _ _ _ _ Hnq). rewrite length_app in Hfuel. cbn in Hfuel.
  eapply runs_conseq; [apply (IH (mkCursor q (length fs) page (key_ c) (valid_ c)) B0 fs _ k Hlv); cbn [leaf_ page_ slot_ valid_]; [done|lia|done|lia]|].
  cbn [slot_]. rewrite take_ge, drop_ge, take_0, drop_0, app_nil_r, all_entries_app, !all_entries_cons by lia. unfold all_entries at 4. cbn [map concat]. rewrite app_nil_r. done.
Qed.

Lemma prev_runs fuel c bef aft k :
  cursor_at c bef aft -> aft <> [] -> (length (leaves t) <= fuel)%nat ->
  runs (prev fuel c) m k
    (fun c' m' k' => match last bef with
                     | Some e => exists bef', bef = bef' ++ [e] /\ cursor_at c' bef' (e :: aft)
                     | None => valid_ c' = false
                     end /\ m' = m /\ k' = k).
Proof.
  intros [_ Hc] Hne Hfuel. destruct aft as [|e aft]; [done|]. destruct Hc as (Hv & _ & (B & es & A & Hlv & Hp & Hle & -> & ->) & Hs).
  unfold prev. rewrite Hv. cbn [negb]. apply step_back_runs; try done. rewrite Hlv, length_app in Hfuel. lia.
Qed.

Lemma value_runs c bef e aft k (Q : Bytes -> _) :
  cursor_at c bef (e :: aft) -> Q (e_val e) m k -> runs (value c) m k Q.
Proof.
  intros (_ & Hv & _ & (B & es & A & Hlv & Hp & Hle & -> & Er) & Hs) HQ. apply runs_pages. intros Hm. unfold value. rewrite Hv. cbn [negb].
  destruct (leaf_of _ _ _ _ _ Hlv Hp) as [Hn Hes]. rewrite (leaf_count _ _ _ _ Hn) in Hs. destruct (lookup_lt_is_Some_2 es _ Hs) as [e' He].
  rewrite (drop_S _ _ _ He) in Er. cbn [app] in Er. injection Er as -> _. by eapply (slot_value_runs lo hi Hhi).
Qed.

(** Visiting what is left. *)
Lemma visit_runs {X} (g : Bytes -> Bytes -> X -> X) fuel chain : forall c bef rest a k,
  cursor_at c bef rest -> (length (leaves t) <= chain)%nat -> (length rest <= fuel)%nat ->
  runs (visit fuel chain (fun key v a => Ret (g key v a)) c a) m k
    (fun r m' k' => r = foldl (fun a e => g (e_key e) (e_val e) a) a rest /\ m' = m /\ k' = k).
Proof.
  induction fuel as [|fuel IH]; intros c bef rest a k Hon Hchain Hfuel; destruct rest as [|e rest]; cbn [length] in Hfuel; try lia;
    cbn [visit].
  1, 2: destruct Hon as [_ Hon]; rewrite Hon; by apply runs_ret.
  pose proof Hon as (_ & Hv & Hk & _). rewrite Hv. cbn [negb]. apply runs_bind. eapply value_runs; [done|]. rewrite Hk.
  apply runs_bind. intros w Hw. exists (g (e_key e) (e_val e) a), w, m, k. split_and!; [done|done|]. clear w Hw.
  apply runs_bind. eapply runs_conseq; [by apply (next_runs chain c bef e rest)|]. intros c' m' k' (Hon' & -> & ->).
  apply (IH c' (bef ++ [e]) rest); [done|done|lia].
Qed.
End cursors.

(** * The first leaf *)

Lemma leftmost_runs depth : forall t m k (Q : PageNo * Bytes -> _),
  part_at lo hi m t -> (height t <= depth)%nat ->
  (forall p es A page prev next, leaves t = (p, es) :: A -> m !! p = Some page -> node_at psz page kLeaf next prev (map cell_of es) -> Q (p, page) m k) ->
  runs (leftmost depth (root_page t)) m k Q.
Proof.
  induction depth as [|depth IH]; intros t m k Q Hp Hh HQ; [destruct t; cbn in Hh; lia|].
  apply runs_pages. intros Hm. cbn [leftmost]. destruct t as [p es|p kids last_]; cbn [root_page].
  - pose proof (pa_leaves _ _ _ _ Hp) as Hl. apply Forall_cons in Hl as [(prev & next & page & Hpg & Hn) _]. cbn [fst snd] in *.
    apply runs_bind, (runs_read _ page); [done|]. rewrite (leaf_type _ _ _ _ Hn). apply runs_ret. by eapply (HQ p es []).
  - destruct (part_cells lo hi Hhi m p kids last_ Hm Hp) as (Hk & _).
    pose proof (pa_inners _ _ _ _ Hp) as Hin. apply Forall_cons in Hin as [(page & prev & Hpg & Hn & Hne & _) _].
    apply runs_bind, (runs_read _ page); [done|]. destruct (inner_type _ _ _ _ Hn) as [_ ->]. rewrite (inner_count _ _ _ _ Hn).
    destruct (open_inner p kids last_ 0) as (f & t & Hpl & Hf & Hpre & Hclose).
    assert (Hchild : (if (0 <? length (kid_cells kids))%nat then Node.child page 0 else Node.right page) = root_page t).
    { rewrite (open_child p kids last_ 0 f t Hf Hclose) by lia. destruct (kid_cells kids) as [|[s c] cells] eqn:Ek; [done|].
      cbn [length Nat.ltb Nat.leb lookup list_lookup]. by destruct (inner_key_child lo hi Hhi page _ _ _ Hk Hn 0 s c eq_refl). }
    rewrite Hchild. rewrite <- Hpl in Hp, Hh. pose proof (part_plug _ _ _ _ _ Hp) as Hpt.
    apply IH; [done|pose proof (height_plug f t); lia|]. intros q es A pg pv nx Hlv Hq Hnq.
    apply (HQ q es (A ++ frame_after leaves no_sep f) pg pv nx); [|done|done]. rewrite <- Hpl, leaves_plug, Hlv.
    unfold frame_before. by rewrite Hpre, take_0.
Qed.

Lemma seek_first_runs tree t fuel c m k :
  tree_at psz lo hi m t -> root_page t = root_ tree -> (height t <= 64)%nat -> (length (leaves t) <= fuel)%nat ->
  runs (seek_first tree fuel c) m k (fun c' m' k' => cursor_at m t c' [] (entries_of t) /\ m' = m /\ k' = k).
Proof.
  intros Ht Hr Hh Hfuel. unfold seek_first. rewrite <- Hr. apply runs_bind, leftmost_runs; [by apply tree_part|done|].
  intros p es A page prev next Hlv Hp Hn. unfold entries_of. rewrite Hlv.
  apply (load_slot_runs m t Ht fuel (mkCursor p 0 page (key_ c) (valid_ c)) [] es A); [done|done|cbn; lia|]. rewrite Hlv in Hfuel. cbn in Hfuel. lia.
Qed.

(** Every entry is visited, in key order. *)
Lemma for_each_runs {X} (g : Bytes -> Bytes -> X -> X) tree t fuel a m k :
  tree_at psz lo hi m t -> root_page t = root_ tree -> (height t <= 64)%nat ->
  (length (leaves t) <= fuel)%nat -> (length (entries_of t) <= fuel)%nat ->
  runs (for_each tree fuel (fun key v a => Ret (g key v a)) a) m k
    (fun r m' k' => r = foldl (fun a e => g (e_key e) (e_val e) a) a (entries_of t) /\ m' = m /\ k' = k).
Proof.
  intros Ht Hr Hh Hf1 Hf2. unfold for_each. apply runs_bind. eapply runs_conseq; [by eapply seek_first_runs|].
  intros c m' k' (Hon & -> & ->). by eapply (visit_runs m t).
Qed.

(** * The last leaf *)

Lemma rightmost_runs depth : forall t m k (Q : PageNo * Bytes -> _),
  part_at lo hi m t -> (height t <= depth)%nat ->
  (forall p es B page prev next, leaves t = B ++ [(p, es)] -> m !! p = Some page -> node_at psz page kLeaf next prev (map cell_of es) -> Q (p, page) m k) ->
  runs (rightmost depth (root_page t)) m k Q.
Proof.
  induction depth as [|depth IH]; intros t m k Q Hp Hh HQ; [destruct t; cbn in Hh; lia|].
  apply runs_pages. intros Hm. cbn [rightmost]. destruct t as [p es|p kids last_]; cbn [root_page].
  - pose proof (pa_leaves _ _ _ _ Hp) as Hl. apply Forall_cons in Hl as [(prev & next & page & Hpg & Hn) _]. cbn [fst snd] in *.
    apply runs_bind, (runs_read _ page); [done|]. rewrite (leaf_type _ _ _ _ Hn). apply runs_ret. by eapply (HQ p es []).
  - pose proof (pa_inners _ _ _ _ Hp) as Hin. apply Forall_cons in Hin as [(page & prev & Hpg & Hn & Hne & _) _].
    apply runs_bind, (runs_read _ page); [done|]. destruct (inner_type _ _ _ _ Hn) as [_ ->]. rewrite (na_right _ _ _ _ _ _ Hn).
    assert (Hpl : plug (mkFrame p kids []) last_ = Inner p kids last_) by (unfold plug; cbn; by rewrite app_nil_r).
    rewrite <- Hpl in Hp, Hh. pose proof (part_plug _ _ _ _ _ Hp) as Hpt.
    apply IH; [done|pose proof (height_plug (mkFrame p kids []) last_); lia|]. intros q es B pg pv nx Hlv Hq Hnq.
    apply (HQ q es (frame_before leaves no_sep (mkFrame p kids []) ++ B) pg pv nx); [|done|done]. rewrite <- Hpl, leaves_plug, Hlv.
    unfold frame_after. cbn. by rewrite app_nil_r, app_assoc.
Qed.

Lemma seek_last_runs tree t c m k :
  tree_at psz lo hi m t -> root_page t = root_ tree -> (height t <= 64)%nat ->
  runs (seek_last tree c) m k
    (fun c' m' k' => match last (entries_of t) with
                     | Some e => exists bef, entries_of t = bef ++ [e] /\ cursor_at m t c' bef [e]
                     | None => valid_ c' = false
                     end /\ m' = m /\ k' = k).
Proof.
  intros Ht Hr Hh. unfold seek_last. rewrite <- Hr. apply runs_bind, rightmost_runs; [by apply tree_part|done|].
  intros p es B page prev next Hlv Hp Hn. apply runs_pages. intros Hm. rewrite (leaf_count _ _ _ _ Hn).
  assert (He : entries_of t = all_entries B ++ es) by (unfold entries_of; rewrite Hlv, all_entries_app, all_entries_cons; by rewrite app_nil_r).
  destruct (decide (es = [])) as [->|Hne].
  - apply runs_ret. split_and!; try done. assert (B = []) as ->.
    { pose proof (ta_filled _ _ _ _ _ Ht) as Hf. rewrite Hlv in Hf. unfold filled in Hf. rewrite length_app, Forall_app, Forall_cons in Hf. cbn in Hf.
      destruct Hf as [Hf|(_ & Hf & _)]; [|done]. destruct B; [done|cbn in Hf; lia]. }
    by rewrite He.
  - destruct (exists_last Hne) as (es' & e & ->). rewrite length_app. cbn [length]. rewrite Nat.add_1_r. cbn [Nat.eqb]. apply runs_ret.
    split_and!; try done. rewrite He, app_assoc, last_snoc. exists (all_entries B ++ es'). split; [done|].
    assert (Hi : (es' ++ [e]) !! length es' = Some e) by (by rewrite lookup_app_r, Nat.sub_diag).
    pose proof (on_slot m t Ht (mkCursor p (length es') page (Node.key page (length es')) true) B _ [] e Hm Hlv Hp Hi eq_refl eq_refl) as Hc.
    cbn [slot_ Nat.sub] in *. rewrite take_app_length, drop_app_length, app_nil_r in Hc. by rewrite Nat.sub_0_r.
Qed.

(** * Seeking a key *)

(** The entries whose key is not below. *)
Definition not_below (key : Bytes) (es : list Entry) : list Entry := filter (fun e => is_le (compare_bytes key (e_key e)) = true) es.

Lemma not_below_app key a b : not_below key (a ++ b) = not_below key a ++ not_below key b.
Proof. apply filter_app. Qed.
Lemma not_below_none key l : Forall (fun e => klt (e_key e) key) l -> not_below key l = [].
Proof.
  induction 1 as [|e l He _ IH]; [done|]. unfold not_below. rewrite filter_cons_False; [exact IH|].
  rewrite is_le_spec, kle_not_klt. auto.
Qed.
Lemma not_below_all key l : Forall (fun e => kle key (e_key e)) l -> not_below key l = l.
Proof.
  induction 1 as [|e l He _ IH]; [done|]. unfold not_below. rewrite filter_cons_True; [by f_equal|by apply is_le_spec].
Qed.

Lemma seek_runs tree t fuel key c m k :
  tree_at psz lo hi m t -> root_page t = root_ tree -> (height t <= 64)%nat -> (length (leaves t) <= fuel)%nat ->
  runs (seek tree fuel key c) m k (fun c' m' k' => (exists bef, cursor_at m t c' bef (not_below key (entries_of t)) /\ Forall (fun e => klt (e_key e) key) bef) /\ m' = m /\ k' = k).
Proof.
  intros Ht Hr Hh Hfuel. unfold seek. apply runs_bind. eapply (find_leaf_runs lo hi Hhi); [done|done|done|].
  intros ctx p es page i [Et Hp _ Hfit Hi Hb Ha] _. cbn [pe_page pe_slot].
  destruct (context_keys ctx key Hfit) as [HB HA]. pose proof (leaves_plug_all ctx (Leaf p es)) as Hlv. rewrite <- Et in Hlv. cbn [leaves app] in Hlv.
  assert (Hrest : not_below key (entries_of t) = drop i es ++ all_entries (after leaves no_sep ctx)).
  { rewrite Et, entries_plug_all, !not_below_app, (not_below_none key (all_entries (before leaves no_sep ctx))) by done. cbn [app]. f_equal.
    - unfold entries_of, all_entries. cbn [leaves map concat snd]. rewrite app_nil_r, <- (take_drop i es) at 1.
      by rewrite not_below_app, not_below_none, not_below_all.
    - apply not_below_all. eapply Forall_impl; [exact HA|]. intros e. apply klt_kle. }
  rewrite Hrest. eapply runs_conseq; [eapply (load_slot_runs m t Ht fuel (mkCursor p i page (key_ c) (valid_ c))); [exact Hlv|done|done|]|].
  - rewrite Hlv, length_app in Hfuel. cbn in Hfuel. lia.
  - intros c' m' k' (Hc & -> & ->). split_and!; [|done|done]. eexists. split; [exact Hc|]. by apply Forall_app.
Qed.
End scan.
