(* ===== verification/BTreePager.v ===== *)
(** The B+tree on the pager: a write transaction is a page store.

    The interface the tree was verified against is discharged by the
    transaction of the database: its pages are those of the transaction that
    are neither the header nor on the free list, and what the tree reads,
    writes, allocates and frees are the operations of [WriteTxn].  With that,
    a database holds ordered maps: the theorems compose the tree and the
    transaction. *)

From stdpp Require Import base numbers list gmap strings sorting.
From S2P Require Import Prelude Bytes Crc32c PageFormat Vfs VfsFrame Wal Db DbView.
From S2P Require Import BTreeNode BTreeNodeFacts BTree BTreeTree BTreeRead.
Open Scope Z_scope.

Section pager.
Context (psz : nat) (dbid : Bytes) (path wpath : string).
Context (Hpsz : 512 <= Z.of_nat psz <= 65536).
Context (fb : Bytes) (h : WalHeader.t) (txs : list Tx).

#[local] Abbreviation T := (WriteTxn * (Db.Db * World))%type.
#[local] Abbreviation inv := (txn_inv psz dbid path wpath fb h txs).

(** The pages in use by a transaction. *)
Definition in_use (A : list Bytes) (free : list PageNo) (m : gmap PageNo Bytes) : Prop :=
  forall p b, m !! p = Some b <-> 1 <= p < Z.of_nat (length A) /\ p ∉ free /\ A !! Z.to_nat p = Some b.

Lemma in_use_pages A free m w : in_use A free m -> inv A free w -> pages_ok psz m.
Proof.
  intros Hm Hinv p b Hp. apply Hm in Hp as (Hp & _ & Hb). destruct w as [t [d w]]. destruct Hinv as (Hdb & _ & _ & Ht).
  pose proof (tr_bound _ _ _ _ _ _ Ht). split; [nia|]. rewrite (tr_pages _ _ _ _ _ _ Ht) in Hb. rewrite Z2Nat.id in Hb by lia.
  destruct (t_dirty t !! p) as [b'|] eqn:E.
  - injection Hb as <-. by destruct (tr_dirty _ _ _ _ _ _ Ht p b' E) as (_ & ? & ?).
  - destruct Hdb as (_ & _ & _ & _ & _ & _ & Hh & _). specialize (Hh (length txs)). rewrite take_ge in Hh by lia.
    destruct Hh as [Hall _]. rewrite Forall_lookup in Hall. by destruct (Hall _ _ Hb) as (? & ? & _).
Qed.

#[export] Instance pager : PageStore T := {|
  page_size := psz;
  read_page p := write_txn_read p psz;
  write_page := Db.write_page;
  allocate_page := Db.allocate_page;
  free_page := Db.free_page
|}.

(** The pages of the transaction are [m], and [k] more fit in 64 bits of file
    offset. *)
Definition pager_at (w : T) (m : gmap PageNo Bytes) (k : nat) : Prop :=
  exists A free, inv A free w /\ in_use A free m /\ (Z.of_nat (length A) + Z.of_nat k) * Z.of_nat psz < 2 ^ 64.

Lemma in_use_insert A free m p b :
  in_use A free m -> is_Some (m !! p) -> in_use (<[Z.to_nat p := b]> A) free (<[p := b]> m).
Proof.
  intros Hm [b0 H0]. apply Hm in H0 as (Hp & Hnf & H0). pose proof (lookup_lt_Some _ _ _ H0). intros q c. rewrite length_insert.
  destruct (decide (q = p)) as [->|Hne].
  - rewrite lookup_insert_eq, list_lookup_insert_eq by done. naive_solver.
  - rewrite lookup_insert_ne by done. rewrite (Hm q c). split; intros (Hq & Hqf & Hc); (split; [done|split; [done|]]);
      [rewrite list_lookup_insert_ne by lia|rewrite list_lookup_insert_ne in Hc by lia]; done.
Qed.

Lemma in_use_free A free m p b :
  in_use A free m -> is_Some (m !! p) -> in_use (<[Z.to_nat p := b]> A) (p :: free) (delete p m).
Proof.
  intros Hm [b0 H0]. apply Hm in H0 as (Hp & Hnf & H0). intros q c. rewrite length_insert, not_elem_of_cons.
  destruct (decide (q = p)) as [->|Hne]; [rewrite lookup_delete_eq; naive_solver|].
  rewrite lookup_delete_ne by done. rewrite (Hm q c). split; intros (Hq & Hqf & Hc).
  - split; [done|split; [done|]]. rewrite list_lookup_insert_ne by lia. done.
  - destruct Hqf. split; [done|split; [done|]]. rewrite list_lookup_insert_ne in Hc by lia. done.
Qed.

Lemma in_use_allocated A free m :
  (0 < length A)%nat -> NoDup free -> Forall (fun p => 1 <= p < Z.of_nat (length A)) free -> in_use A free m ->
  let '(p, A', free') := allocated psz A free in
  m !! p = None /\ in_use A' free' (<[p := replicate psz 0]> m) /\ (length A' <= length A + 1)%nat.
Proof.
  intros Hpos Hnd Hall Hm. destruct free as [|q free]; cbn [allocated].
  - split_and!; [| |rewrite length_app; cbn; lia].
    + destruct (m !! Z.of_nat (length A)) eqn:E; [|done]. apply Hm in E. lia.
    + intros p b. rewrite length_app. cbn [length]. destruct (decide (p = Z.of_nat (length A))) as [->|Hne].
      * rewrite lookup_insert_eq, Nat2Z.id, lookup_app_r, Nat.sub_diag by lia. unfold zero_page. cbn.
        split; [intros [= <-]|by intros (_ & _ & [= <-])]. split_and!; [lia|lia|apply not_elem_of_nil|done].
      * rewrite lookup_insert_ne by done. rewrite (Hm p b). split; intros (Hp & Hf & Hb); split_and!; try done; try lia.
        -- rewrite lookup_app_l by lia. done.
        -- rewrite lookup_app_l in Hb by lia. done.
  - apply NoDup_cons in Hnd as [Hqf Hnd]. apply Forall_cons in Hall as [Hq Hall].
    split_and!; [| |rewrite length_insert; lia].
    + destruct (m !! q) eqn:E; [|done]. apply Hm in E as (_ & Hn & _). exfalso. apply Hn. by left.
    + intros p b. rewrite length_insert. destruct (decide (p = q)) as [->|Hne].
      * rewrite lookup_insert_eq, list_lookup_insert_eq by lia. unfold zero_page. naive_solver.
      * rewrite lookup_insert_ne by done. rewrite (Hm p b), not_elem_of_cons.
        split; intros (Hp & Hf & Hb); (split; [done|split; [tauto|]]);
          [rewrite list_lookup_insert_ne by lia|rewrite list_lookup_insert_ne in Hb by lia]; done.
Qed.

#[export] Instance pager_laws : PageStoreLaws T.
Proof.
  refine {| store_at := pager_at |}.
  - exact Hpsz.
  - intros w m k (A & free & Hinv & Hm & _). by eapply in_use_pages.
  - intros w m k p b (A & free & Hinv & Hm & Hk) Hp. pose proof Hp as Hp'. apply Hm in Hp' as (Hr & _ & Hb). destruct w as [t [d w]].
    destruct (write_txn_read_spec psz dbid path wpath fb h txs A free t d w p Hinv ltac:(lia)) as (b' & c & Hb' & Hread & Hinv').
    assert (b' = b) as -> by congruence. eexists. split; [exact Hread|]. by exists A, free.
  - intros w m k p b (A & free & Hinv & Hm & Hk) [b0 Hp] Hl Hb. pose proof Hp as Hp'. apply Hm in Hp' as (Hr & Hf & _). destruct w as [t [d w]].
    destruct (write_page_spec psz dbid path wpath fb h txs A free t d w p b Hinv Hr Hl Hb Hf) as [Hw Hinv'].
    eexists. split; [exact Hw|]. exists (<[Z.to_nat p := b]> A), free. rewrite length_insert. split_and!; [done| |done].
    apply in_use_insert; [done|by eauto].
  - intros w m k (A & free & Hinv & Hm & Hk). destruct w as [t [d w]].
    pose proof (allocate_page_spec psz dbid path wpath fb h txs A free t d w ltac:(lia) ltac:(nia) Hinv) as Ha.
    pose proof Hinv as (_ & _ & _ & Ht). pose proof (tr_free _ _ _ _ _ _ Ht) as (_ & Hnd & _ & Hall).
    pose proof (txn_rel_length_pos _ _ _ _ _ _ Ht). pose proof (tr_grows _ _ _ _ _ _ Ht).
    pose proof (in_use_allocated A free m ltac:(lia) Hnd Hall Hm) as Hu.
    destruct (allocated psz A free) as [[p A'] free']. destruct Ha as (t' & c & Ha & Hinv'). destruct Hu as (Hp & Hu & Hlen).
    exists p. eexists. split_and!; [exact Ha|exact Hp|]. exists A', free'. split_and!; [done|done|nia].
  - intros w m k p (A & free & Hinv & Hm & Hk) [b0 Hp]. pose proof Hp as Hp'. apply Hm in Hp' as (Hr & Hf & _). destruct w as [t [d w]].
    destruct (free_page_spec psz dbid path wpath fb h txs A free t d w p ltac:(lia) Hinv Hr Hf) as (t' & Hfree & Hinv').
    eexists. split; [exact Hfree|]. do 2 eexists. split_and!; [exact Hinv'|apply in_use_free; [done|by eauto]|]. by rewrite length_insert.
Defined.
End pager.
