(* ===== verification/BTreeSpec.v ===== *)
(** What the B+tree promises: an ordered map.

    [btree_refines_map] is the refinement of a finite map by the pages of a
    transaction, one operation at a time; [for_each_in_order] and
    [seek_in_order] say what iteration yields; [btree_rejects] what is
    refused.  They hold over any page store that keeps its laws, and the
    witnesses run them on a write transaction of a small database. *)

From stdpp Require Import base numbers list gmap strings sorting.
From S2P Require Import Prelude Bytes Crc32c PageFormat Vfs VfsFrame Wal Db DbView DbSpec.
From S2P Require Import BTreeNode BTreeNodeFacts BTree BTreeTree BTreeRead BTreeSplit BTreePut BTreeErase BTreeScan BTreePager.
Open Scope Z_scope.

(** * Operations *)

Inductive MapOp :=
  | Get (key : Bytes)
  | Put (key v : Bytes)
  | InsertIfAbsent (key v : Bytes)
  | Erase (key : Bytes).
Inductive MapAnswer := AValue (v : option Bytes) | ADone | AFlag (b : bool).

Definition exec_op {W} `{PageStore W} (tree : BTree) (op : MapOp) : M W MapAnswer :=
  match op with
  | Get key => let! v := get tree key in ret (AValue v)
  | Put key v => do! put tree key v in ret ADone
  | InsertIfAbsent key v => let! b := insert_if_absent tree key v in ret (AFlag b)
  | Erase key => let! b := erase tree key in ret (AFlag b)
  end.

(** The same on a finite map. *)
Definition map_op (op : MapOp) (c : gmap Bytes Bytes) : MapAnswer * gmap Bytes Bytes :=
  match op with
  | Get key => (AValue (c !! key), c)
  | Put key v => (ADone, <[key := v]> c)
  | InsertIfAbsent key v =>
      match c !! key with Some _ => (AFlag false, c) | None => (AFlag true, <[key := v]> c) end
  | Erase key => (AFlag (bool_decide (is_Some (c !! key))), delete key c)
  end.

Section spec.
Context {W : Type} `{PageStoreLaws W}.
#[local] Abbreviation psz := page_size.

(** What may be stored, and the pages it may take. *)
Definition op_ok (lo hi : nat) (op : MapOp) : Prop :=
  match op with
  | Get _ | Erase _ => True
  | Put key v | InsertIfAbsent key v => key_ok lo hi key /\ bytes_ok v /\ Z.of_nat (length v) < 2 ^ 32
  end.
Definition op_cost (op : MapOp) (h : nat) : nat :=
  match op with
  | Get _ | Erase _ => 0%nat
  | Put key v | InsertIfAbsent key v => (cell_cost key v + (h + 1))%nat
  end.

(** The keys a tree may hold: none is empty, the longest leaves room for four
    in a page, and the shortest is not much shorter (see [interior_split_overflows]). *)
Definition lengths_ok (lo hi : nat) : Prop :=
  (1 <= lo)%nat /\ (hi <= max_key psz)%nat /\ (5 * (12 + hi) <= 8 * (12 + lo))%nat.

(** The pages [m] hold a tree of height [h] with the contents [c] at [root]. *)
Definition map_at (lo hi : nat) (m : gmap PageNo Bytes) (tree : BTree) (t : BTreeTree.tree) (c : gmap Bytes Bytes) : Prop :=
  tree_at psz lo hi m t /\ root_page t = root_ tree /\ contents t = c.

(** [C3] The B+tree refines a finite map: on a page store whose pages hold a
    tree, [get], [put], [insert_if_absent] and [erase] succeed, answer what
    the map answers, and leave pages that hold a tree with the updated map at
    the same root; pages that do not belong to the tree keep their contents,
    and a tree of height h becomes one of height at most h + 1.  The store
    must have room for the overflow chain of the value and for one page per
    level and one more; the height must be within the 64 levels a descent
    allows. *)
Theorem btree_refines_map lo hi tree op t c (w : W) m k :
  lengths_ok lo hi -> has_writer tree = true -> op_ok lo hi op ->
  store_at w m (op_cost op (height t) + k) -> map_at lo hi m tree t c -> (height t <= 64)%nat ->
  exists w' m' k' t',
    exec_op tree op w = (Ret (fst (map_op op c)), w')
    /\ store_at w' m' k'
    /\ map_at lo hi m' tree t' (snd (map_op op c))
    /\ (height t' <= S (height t))%nat
    /\ (forall q, is_Some (m !! q) -> q ∉ owned t -> m' !! q = m !! q).
Proof.
  intros (Hlo & Hhi & Hratio) Hw Hop Hst (Ht & Hr & <-) Hh.
  enough (Hrun : runs (exec_op tree op) m (op_cost op (height t) + k) (fun a m' _ => a = fst (map_op op (contents t))
     /\ exists t', map_at lo hi m' tree t' (snd (map_op op (contents t))) /\ (height t' <= S (height t))%nat
     /\ (forall q, is_Some (m !! q) -> q ∉ owned t -> m' !! q = m !! q))).
  { destruct (Hrun w Hst) as (a & w' & m' & k' & E & Hst' & -> & t' & Hrest). exists w', m', k', t'. done. }
  destruct op as [key|key v|key v|key]; cbn [exec_op op_cost map_op fst snd].
  - apply runs_bind. eapply runs_conseq; [eapply (get_runs lo hi Hhi); [by apply tree_part|done|done]|].
    intros r m' k' (-> & -> & ->). apply runs_ret. split; [done|]. exists t. split_and!; [done|lia|done].
  - destruct Hop as (Hk & Hv & Hvl). apply runs_bind. rewrite <- Nat.add_assoc.
    eapply runs_conseq; [by apply (put_runs lo hi Hhi)|].
    intros _ m' k' [(t' & ? & ? & ? & ? & ?) _]. apply runs_ret. split; [done|]. by exists t'.
  - destruct Hop as (Hk & Hv & Hvl). apply runs_bind. rewrite <- Nat.add_assoc.
    eapply runs_conseq; [by apply (insert_if_absent_runs lo hi Hhi)|].
    intros r m' k' (-> & t' & ? & ? & Hc & ? & ?). apply runs_ret. destruct (contents t !! key) eqn:E; cbn [fst snd];
      (split; [done|]; exists t'; split_and!; done).
  - apply runs_bind. eapply runs_conseq; [by apply (erase_runs lo hi Hhi)|].
    intros r m' k' (-> & t' & ? & ? & Hc & ? & ?). apply runs_ret. split; [done|]. exists t'. split_and!; try done. lia.
Qed.

(** What iteration collects. *)
Definition collect (key v : Bytes) (l : list (Bytes * Bytes)) : list (Bytes * Bytes) := l ++ [(key, v)].
Definition key_below (a b : Bytes * Bytes) : Prop := klt (fst a) (fst b).

Lemma collect_entries es : forall l, foldl (fun a e => collect (e_key e) (e_val e) a) l es = l ++ map (fun e => (e_key e, e_val e)) es.
Proof.
  induction es as [|e es IH]; intros l; cbn [foldl map]; [by rewrite app_nil_r|]. rewrite IH. unfold collect. by rewrite <- app_assoc.
Qed.

Lemma entries_sorted lo hi m t : tree_at psz lo hi m t -> StronglySorted key_below (map (fun e => (e_key e, e_val e)) (entries_of t)).
Proof.
  intros Ht. pose proof (ta_sorted _ _ _ _ _ Ht) as Hs. pose proof (keys_skeleton t) as Hk.
  assert (Hks : StronglySorted klt (map e_key (entries_of t))).
  { rewrite <- Hk. clear Hk. induction (skeleton t) as [|x l IH]; [constructor|]. apply StronglySorted_inv in Hs as [Hs Hx].
    specialize (IH Hs). destruct x as [a|a]; cbn; [|done]. constructor; [done|]. apply Forall_forall. intros b Hb.
    apply list_elem_of_omap in Hb as ([b'|] & Hb & [= ->]). rewrite Forall_forall in Hx. exact (Hx _ Hb). }
  clear -Hks. induction (entries_of t) as [|e es IH]; [constructor|]. cbn in *. apply StronglySorted_inv in Hks as [H1 H2].
  constructor; [by apply IH|]. apply Forall_forall. intros x Hx. apply list_elem_of_fmap in Hx as (e' & -> & He'). rewrite Forall_forall in H2.
  exact (H2 _ (list_elem_of_fmap_2 e_key _ _ He')).
Qed.

Lemma sorted_keys_nodup l : StronglySorted key_below l -> NoDup l.*1.
Proof.
  induction 1 as [|x l _ IH Hx]; [constructor|]. cbn. constructor; [|done]. intros Hin. apply list_elem_of_fmap in Hin as (y & E & Hy).
  rewrite Forall_forall in Hx. specialize (Hx y Hy). unfold key_below in Hx. rewrite E in Hx. by apply klt_irrefl in Hx.
Qed.
Lemma not_below_sorted key es :
  StronglySorted key_below (map (fun e => (e_key e, e_val e)) es) ->
  StronglySorted key_below (map (fun e => (e_key e, e_val e)) (not_below key es)).
Proof.
  unfold not_below. induction es as [|e es IH]; intros Hs; [done|]. cbn [map] in Hs. apply StronglySorted_inv in Hs as [Hs He].
  rewrite filter_cons. case_decide; [|by apply IH]. cbn [map]. constructor; [by apply IH|]. rewrite Forall_forall in *.
  intros x Hx. apply He. apply list_elem_of_fmap in Hx as (y & -> & Hy). apply list_elem_of_filter in Hy as [_ Hy].
  exact (list_elem_of_fmap_2 (fun e => (e_key e, e_val e)) _ _ Hy).
Qed.

(** [C12] [for_each] visits every entry of the tree once, in ascending key
    order: what a collecting callback ends with is sorted and, as a map, is the
    contents of the tree.  Fuel that covers the leaves and the entries is
    enough. *)
Theorem for_each_in_order lo hi tree t c fuel (w : W) m k :
  lengths_ok lo hi -> store_at w m k -> map_at lo hi m tree t c -> (height t <= 64)%nat ->
  (length (leaves t) <= fuel)%nat -> (length (entries_of t) <= fuel)%nat ->
  exists l w', for_each tree fuel (fun key v l => Ret (collect key v l)) [] w = (Ret l, w')
    /\ store_at w' m k /\ StronglySorted key_below l /\ list_to_map l = c.
Proof.
  intros (_ & Hhi & _) Hst (Ht & Hr & <-) Hh Hf1 Hf2.
  destruct (for_each_runs lo hi Hhi collect tree t fuel [] m k Ht Hr Hh Hf1 Hf2 w Hst) as (l & w' & m' & k' & E & Hst' & -> & -> & ->).
  do 2 eexists. split_and!; [exact E|exact Hst'|..]; rewrite collect_entries; cbn [app]; [by eapply entries_sorted|done].
Qed.

(** [C38] A range scan: after [seek] to a key, visiting with [next] to the end
    yields exactly the entries whose key is not below it, in ascending order. *)
Theorem seek_in_order lo hi tree t c key fuel (w : W) m k :
  lengths_ok lo hi -> store_at w m k -> map_at lo hi m tree t c -> (height t <= 64)%nat ->
  (length (leaves t) <= fuel)%nat -> (length (entries_of t) <= fuel)%nat ->
  exists l w', (let! cur := seek tree fuel key cursor0 in visit fuel fuel (fun key v l => Ret (collect key v l)) cur []) w = (Ret l, w')
    /\ store_at w' m k /\ StronglySorted key_below l
    /\ (forall k v, (k, v) ∈ l <-> kle key k /\ c !! k = Some v).
Proof.
  intros (_ & Hhi & _) Hst (Ht & Hr & <-) Hh Hf1 Hf2.
  assert (Hle : (length (not_below key (entries_of t)) <= fuel)%nat).
  { etrans; [|exact Hf2]. apply length_filter. }
  assert (Hrun : runs (let! cur := seek tree fuel key cursor0 in visit fuel fuel (fun key v l => Ret (collect key v l)) cur []) m k
            (fun l m' k' => l = map (fun e => (e_key e, e_val e)) (not_below key (entries_of t)) /\ m' = m /\ k' = k)).
  { apply runs_bind. eapply runs_conseq; [by apply (seek_runs lo hi Hhi)|]. intros cur m' k' ((bef & Hon & _) & -> & ->).
    eapply runs_conseq; [eapply (visit_runs lo hi Hhi m t Ht collect); [exact Hon|done|done]|].
    intros l m' k' (-> & -> & ->). by rewrite collect_entries. }
  destruct (Hrun w Hst) as (l & w' & m' & k' & E & Hst' & -> & -> & ->). do 2 eexists. split_and!; [exact E|exact Hst'|..].
  - apply not_below_sorted. by eapply entries_sorted.
  - intros k0 v. unfold contents, contents_of. rewrite <- elem_of_list_to_map by (apply sorted_keys_nodup; by eapply entries_sorted).
    split.
    + intros Hin. apply list_elem_of_fmap in Hin as (e & [= -> ->] & He). apply list_elem_of_filter in He as [Hle' He].
      apply is_le_spec in Hle'. split; [done|]. exact (list_elem_of_fmap_2 (fun e => (e_key e, e_val e)) _ _ He).
    + intros [Hk Hin]. apply list_elem_of_fmap in Hin as (e & [= -> ->] & He).
      apply (list_elem_of_fmap_2 (fun e => (e_key e, e_val e))), list_elem_of_filter. split; [by apply is_le_spec|done].
Qed.

(** What a tree refuses: writing through a read-only tree, and a key that
    is empty or too long for four cells to fit in a page.  The error is
    InvalidArgument and nothing is touched. *)
Theorem btree_rejects tree key v (w : W) :
  has_writer tree = false \/ (length key = 0)%nat \/ (max_key psz < length key)%nat ->
  exists msg, put tree key v w = (invalid_argument msg, w) /\ insert_if_absent tree key v w = (invalid_argument msg, w)
    /\ (has_writer tree = false -> erase tree key w = (invalid_argument msg, w)).
Proof.
  intros Hcase. unfold put, insert_if_absent, erase. destruct (has_writer tree).
  - assert (E : key_length_ok key = false).
    { unfold key_length_ok. change max_key_bytes with (max_key psz). apply negb_false_iff, orb_true_iff.
      destruct Hcase as [?|[->|Hk]]; [done|by left|right]. by apply Nat.ltb_lt. }
    rewrite E. cbn [negb]. by eexists.
  - by eexists.
Qed.

(** A new tree is empty. *)
Lemma create_runs lo hi m k :
  runs create m (S k) (fun root m' k' => map_at lo hi m' (mkBTree root true) (Leaf root []) ∅ /\ k' = k
    /\ m !! root = None /\ (forall q, q <> root -> m' !! q = m !! q)).
Proof.
  unfold create. apply runs_bind, runs_allocate. intros p Hp Hr. pose proof (store_page_size (W := W)) as Hpsz.
  pose proof (init_node psz Hpsz kLeaf ltac:(unfold is_byte, kLeaf; lia)) as Hn.
  apply runs_bind, runs_write_page; [rewrite lookup_insert_eq; eauto|apply Hn|apply Hn|]. apply runs_ret.
  split_and!; [|done|done|intros q Hq; by rewrite !lookup_insert_ne by done].
  split_and!; [|done|done]. constructor.
  - cbn. split; [|done]. eexists. rewrite lookup_insert_eq. split; [done|exact Hn].
  - constructor.
  - constructor.
  - unfold owned. cbn. apply NoDup_cons_2; [apply not_elem_of_nil|constructor].
  - constructor.
  - constructor.
  - by left.
Qed.
End spec.

(** * A tree in a database *)

(** The transaction [begin_write] gives on the database of one page. *)
Definition small_txn : WriteTxn := mkWriteTxn 0 small_header small_header ∅ ∅ false.
Definition small_id : Bytes := replicate 16 171.
Definition small_state : WriteTxn * (Db.Db * World) := (small_txn, (s_db small_sys, small_world)).

#[local] Opaque header_image seal_page DbHeader.decode page_checksum_ok log_file small_file.
Lemma small_txn_inv : txn_inv 512 small_id "d" "d.wal" small_file small_wal_header [] [small_file] [] small_state.
Proof.
  destruct small_state_ok as [Hst Hok]. destruct small_header_ok as [Hwf Hp].
  destruct (header_image_ok 512 small_header Hwf Hp) as [_ Hdec].
  split_and!; [exact small_db_inv|done|done|].
  change (total_images []) with (@nil PageImage). rewrite Hst.
  constructor.
  - reflexivity.
  - exists small_file. split; [reflexivity|]. split; [exact Hdec|]. split_and!; reflexivity.
  - reflexivity.
  - lia.
  - cbn. lia.
  - intros i. cbn [t_dirty small_txn]. by rewrite lookup_empty.
  - apply map_Forall_empty.
  - cbn. intros p Hp1. lia.
  - split_and!; reflexivity.
  - split_and!; [reflexivity|constructor|reflexivity|constructor].
  - intros p Hp1. exfalso. exact (not_elem_of_empty p Hp1).
Qed.

#[local] Instance small_pager : PageStore (WriteTxn * (Db.Db * World)) := pager 512.
#[local] Instance small_laws : PageStoreLaws (WriteTxn * (Db.Db * World)) :=
  pager_laws 512 small_id "d" "d.wal" ltac:(lia) small_file small_wal_header [].

Lemma small_store : store_at small_state ∅ 100.
Proof.
  exists [small_file], []. split_and!; [exact small_txn_inv| |cbn; lia].
  intros p b. rewrite lookup_empty. cbn [length]. split; [done|]. lia.
Qed.

(** A tree created in the transaction takes a key, in a leaf and in an
    overflow chain. *)
Lemma btree_refines_map_witness :
  exists root w' m k (w2 : WriteTxn * (Db.Db * World)) m2 k2 t2,
    create small_state = (Ret root, w') /\ store_at w' m k
    /\ exec_op (mkBTree root true) (Put [1; 2] (replicate 600 3)) w' = (Ret ADone, w2)
    /\ store_at w2 m2 k2 /\ map_at 2 4 m2 (mkBTree root true) t2 {[ [1; 2] := replicate 600 3 ]}.
Proof.
  destruct (create_runs 2 4 ∅ 99 small_state small_store) as (root & w' & m & k & E & Hst & Ht & -> & _).
  destruct (btree_refines_map 2 4 (mkBTree root true) (Put [1; 2] (replicate 600 3)) (Leaf root []) ∅ w' m 95) as (w2 & m2 & k2 & t2 & E2 & Hst2 & Ht2 & _).
  - split_and!; [lia|decide_now|lia].
  - reflexivity.
  - split_and!; [split; [decide_now|cbn; lia]|decide_now|reflexivity].
  - exact Hst.
  - exact Ht.
  - cbn. lia.
  - exists root, w', m, 99%nat, w2, m2, k2, t2. split_and!; [exact E|exact Hst|exact E2|exact Hst2|exact Ht2].
Defined.

(** Two keys are put in descending order. *)
Definition two_entries : gmap Bytes Bytes := {[ [1; 2] := replicate 600 3; [3; 1] := [9] ]}.
Definition make_two : M (WriteTxn * (Db.Db * World)) PageNo :=
  let! root := create in
  do! put (mkBTree root true) [3; 1] [9] in
  do! put (mkBTree root true) [1; 2] (replicate 600 3) in
  ret root.
Definition low_key : Bytes := [1; 2].
Definition high_key : Bytes := [3; 1].
Definition long_value : Bytes := replicate 600 3.
Lemma two_made : exists root (w : WriteTxn * (Db.Db * World)) m k t,
  make_two small_state = (Ret root, w) /\ store_at w m k /\ map_at 2 4 m (mkBTree root true) t two_entries /\ (height t <= 64)%nat.
Proof.
  enough (Hrun : runs make_two ∅ 100 (fun root m _ => exists t, map_at 2 4 m (mkBTree root true) t two_entries /\ (height t <= 64)%nat)).
  { destruct (Hrun small_state small_store) as (root & w & m & k & E & Hst & t & Ht & Hh). exists root, w, m, k, t. exact (conj E (conj Hst (conj Ht Hh))). }
  assert (Hhi : (4 <= max_key (page_size (W := WriteTxn * (Db.Db * World))))%nat) by decide_now.
  assert (Hk1 : key_ok 2 4 high_key) by (split; [decide_now|cbn; lia]). assert (Hk2 : key_ok 2 4 low_key) by (split; [decide_now|cbn; lia]).
  assert (Hv1 : bytes_ok ([9] : Bytes)) by decide_now. assert (Hv2 : bytes_ok long_value) by decide_now.
  assert (Hc1 : cell_cost (W := WriteTxn * (Db.Db * World)) high_key ([9] : Bytes) = 0%nat) by (vm_compute; reflexivity).
  assert (Hc2 : (cell_cost (W := WriteTxn * (Db.Db * World)) low_key long_value <= 10)%nat) by (apply Nat.leb_le; vm_compute; reflexivity).
  unfold make_two. apply runs_bind. eapply runs_conseq; [exact (create_runs 2 4 ∅ 99)|]. intros root m k ((Ht & Hr & Hc) & -> & _).
  apply runs_bind. pose proof (put_runs 2 4 Hhi (mkBTree root true) (Leaf root []) high_key ([9] : Bytes) m 97 eq_refl ltac:(lia) ltac:(lia) Ht Hr ltac:(cbn; lia) Hk1 Hv1 eq_refl) as Hput.
  rewrite Hc1 in Hput. cbn [height Nat.add] in Hput. eapply runs_conseq; [exact Hput|]. clear Hput Ht Hr Hc.
  intros [] m1 k1 [(t1 & Ht1 & Hr1 & Hcon1 & Hh1 & _) Hle]. cbn [height] in Hh1.
  apply runs_bind. set (cost := cell_cost (W := WriteTxn * (Db.Db * World)) low_key long_value) in *.
  pose proof (put_runs 2 4 Hhi (mkBTree root true) t1 low_key long_value m1 (k1 - (cost + (height t1 + 1))) eq_refl ltac:(lia) ltac:(lia) Ht1 Hr1 ltac:(lia) Hk2 Hv2 eq_refl) as Hput.
  fold cost in Hput. replace (cost + (height t1 + 1 + (k1 - (cost + (height t1 + 1)))))%nat with k1 in Hput by lia.
  eapply runs_conseq; [exact Hput|]. intros [] m2 k2 [(t2 & Ht2 & Hr2 & Hcon2 & Hh2 & _) _]. apply runs_ret. exists t2. split; [|lia].
  split; [exact Ht2|]. split; [exact Hr2|]. rewrite Hcon2, Hcon1. reflexivity.
Qed.

Lemma for_each_in_order_witness :
  exists root (w : WriteTxn * (Db.Db * World)) fuel l w2, make_two small_state = (Ret root, w)
    /\ for_each (mkBTree root true) fuel (fun key v l => Ret (collect key v l)) [] w = (Ret l, w2)
    /\ StronglySorted key_below l /\ list_to_map l = two_entries.
Proof.
  destruct two_made as (root & w & m & k & t & E & Hst & Ht & Hh). set (fuel := (length (leaves t) + length (entries_of t))%nat).
  destruct (for_each_in_order 2 4 (mkBTree root true) t two_entries fuel w m k) as (l & w2 & E2 & _ & Hs & Hl);
    [split_and!; [lia|decide_now|lia]|exact Hst|exact Ht|exact Hh|unfold fuel; lia..|].
  exists root, w, fuel, l, w2. split_and!; [exact E|exact E2|exact Hs|exact Hl].
Defined.

Lemma seek_in_order_witness :
  exists root (w : WriteTxn * (Db.Db * World)) fuel l w2, make_two small_state = (Ret root, w)
    /\ (let! cur := seek (mkBTree root true) fuel [2] cursor0 in
        visit fuel fuel (fun key v l => Ret (collect key v l)) cur []) w = (Ret l, w2)
    /\ ([3; 1], [9]) ∈ l.
Proof.
  destruct two_made as (root & w & m & k & t & E & Hst & Ht & Hh). set (fuel := (length (leaves t) + length (entries_of t))%nat).
  destruct (seek_in_order 2 4 (mkBTree root true) t two_entries [2] fuel w m k) as (l & w2 & E2 & _ & _ & Hl);
    [split_and!; [lia|decide_now|lia]|exact Hst|exact Ht|exact Hh|unfold fuel; lia..|].
  exists root, w, fuel, l, w2. split_and!; [exact E|exact E2|]. apply Hl. split; [decide_now|reflexivity].
Defined.

Lemma btree_rejects_witness :
  exists msg, put (mkBTree 1 true) [] [5] small_state = (invalid_argument msg, small_state).
Proof.
  destruct (btree_rejects (mkBTree 1 true) [] [5] small_state) as (msg & E & _); [right; left; reflexivity|].
  exists msg. exact E.
Defined.
