(* ===== verification/BTreeFindings.v ===== *)
(** Trees that go wrong, on pages held in memory.

    The two examples evaluate the code on concrete sequences of operations.
    The first shows that an interior node split at its middle cell can give a
    half that does not fit its page, which is why [lengths_ok] bounds the key
    lengths.  The second shows that erasing can leave leaves at different
    depths, which [check] reports as a problem although the tree answers
    correctly. *)

From stdpp Require Import base numbers list gmap strings.
From S2P Require Import Prelude Bytes PageFormat BTreeNode BTree.
Open Scope Z_scope.

(** Pages in memory, the least page size; a page is a number once. *)
Record Mem := mkMem { mem_pages : gmap PageNo Bytes; mem_next : PageNo }.
#[export] Instance mem_store : PageStore Mem := {|
  page_size := 512;
  read_page p := fun s => match mem_pages s !! p with Some b => (Ret b, s) | None => (not_found "no such page", s) end;
  write_page p b := fun s => (Ret tt, mkMem (<[p := b]> (mem_pages s)) (mem_next s));
  allocate_page := fun s =>
    (Ret (mem_next s), mkMem (<[mem_next s := replicate 512 0]> (mem_pages s)) (mem_next s + 1));
  free_page p := fun s => (Ret tt, mkMem (delete p (mem_pages s)) (mem_next s))
|}.

Definition mem_tree : BTree := mkBTree 1 true.
Fixpoint put_all (l : list (Bytes * Bytes)) : M Mem unit :=
  match l with [] => ret tt | (k, v) :: l => do! put mem_tree k v in put_all l end.
Fixpoint erase_all (l : list Bytes) : M Mem unit :=
  match l with [] => ret tt | k :: l => do! erase mem_tree k in erase_all l end.
Definition numbered (n : nat) (f : Z -> Bytes * Bytes) : list (Bytes * Bytes) := map (fun i => f (Z.of_nat i)) (seq 1 n).
Definition outcome {A} (m : M Mem A) : option A :=
  match fst (m (mkMem ∅ 1)) with Ret a => Some a | Err _ => None end.

(** Twenty-two short keys, then nine long ones before them. *)
Definition short_entry (i : Z) : Bytes * Bytes := ([2; i], replicate 109 5).
Definition long_entry (i : Z) : Bytes * Bytes := ([1; i] ++ replicate 102 7, replicate 7 5).
Definition mixed : M Mem unit :=
  let! _ := create in
  do! put_all (numbered 22 short_entry) in
  put_all (numbered 9 long_entry).

(** Every key is accepted and every [put] succeeds.  The last one splits an
    interior node of thirteen cells at the seventh; the half with the long
    keys needs more than its page, its cells overwrite its header, and a key
    stored at the start cannot be read any more. *)
Example interior_split_overflows :
  outcome mixed = Some tt
  /\ outcome (do! mixed in let! r := check mem_tree in ret (problems r))
     = Some ["page 17: slot array and content overlap"; "page 5: prev link 4 expected 0"]
  /\ outcome (do! mixed in get mem_tree (fst (short_entry 1))) = None.
Proof. vm_compute. done. Qed.

(** Thirty keys of one length, of which the first four are erased. *)
Definition even_entry (i : Z) : Bytes * Bytes := ([0; i] ++ replicate 98 7, [i; 1]).
Definition thinned : M Mem unit :=
  let! _ := create in
  do! put_all (numbered 30 even_entry) in
  erase_all (map fst (numbered 4 even_entry)).

(** The tree answers, and what remains is read in order, but the interior
    node that gave way to its only child left that leaf a level higher, and
    [check] calls the tree damaged. *)
Example erase_leaves_uneven_depths :
  outcome (do! thinned in let! r := check mem_tree in ret (hd "" (problems r)))
  = Some "page 5: leaf at depth 3 differs from 2"
  /\ outcome (do! thinned in for_each mem_tree 100 (fun k _ l => Ret (l ++ [nth 1 k 0])) []) = Some (map Z.of_nat (seq 5 26)).
Proof. vm_compute. done. Qed.
