(* ===== verification/StoreSchema.v ===== *)
(** Table definitions and the catalog (engine/include/archivum/engine/store.h,
    engine/src/engine/store.cpp, the part without pages).

    A [TableDef] is the struct of the C++; [validate_row] is the type, NOT
    NULL, UTF-8 and CHECK validation of a row, [validate_table_def] that of a
    definition, and [encode_table_def]/[decode_table_def] how the catalog
    stores it as a row.  [std::map] of tables is an association list in key
    order.  A column that a definition names but does not have would index
    past the end of a vector in the code; the model yields a default there, and
    [valid_table_def_columns] shows that a valid definition has none. *)

From stdpp Require Import base numbers list strings.
From S2P Require Import Prelude Bytes PageFormat Types Record.
Open Scope Z_scope.

Record IndexDef := mkIndexDef {
  ix_name : string;
  ix_columns : list string;
  ix_unique : bool;
  ix_root : PageNo
}.

Inductive CheckOp := CEq | CNe | CLt | CLe | CGt | CGe | CIn.
#[export] Instance CheckOp_eq_dec : EqDecision CheckOp.
Proof. solve_decision. Defined.

Record CheckDef := mkCheckDef {
  ck_name : string;
  ck_column : string;
  ck_op : CheckOp;
  ck_operands : list Value;
  ck_other : string
}.

Record ForeignKeyDef := mkForeignKey {
  fk_name : string;
  fk_columns : list string;
  fk_ref_table : string;
  fk_ref_columns : list string
}.

Record TableDef := mkTableDef {
  td_name : string;
  td_columns : list ColumnDef;
  td_primary_key : list string;
  td_indexes : list IndexDef;
  td_foreign_keys : list ForeignKeyDef;
  td_checks : list CheckDef;
  td_root : PageNo
}.

Record Catalog := mkCatalog {
  schema_version : Z;
  tables : list (string * TableDef)
}.

(** * Lookups *)

Fixpoint position {A} (p : A -> bool) (l : list A) : option nat :=
  match l with
  | [] => None
  | x :: l => if p x then Some 0%nat else S <$> position p l
  end.

Definition column_index (t : TableDef) (n : string) : option nat :=
  position (fun c => String.eqb (col_name c) n) (td_columns t).
Definition index (t : TableDef) (n : string) : option IndexDef :=
  List.find (fun i => String.eqb (ix_name i) n) (td_indexes t).
Definition table (c : Catalog) (n : string) : option TableDef :=
  snd <$> List.find (fun x => String.eqb (fst x) n) (tables c).

(** [tables[name] = def] and [tables.erase(name)] on the ordered map. *)
Fixpoint set_table (name : string) (def : TableDef) (l : list (string * TableDef)) : list (string * TableDef) :=
  match l with
  | [] => [(name, def)]
  | (n, d) :: l =>
      match String.compare name n with
      | Eq => (name, def) :: l
      | Lt => (name, def) :: (n, d) :: l
      | Gt => (n, d) :: set_table name def l
      end
  end.
Definition erase_table (name : string) (l : list (string * TableDef)) : list (string * TableDef) :=
  List.filter (fun x => negb (String.eqb (fst x) name)) l.

Definition no_column : ColumnDef := mkColumnDef EmptyString TInteger false 0.
Definition column (t : TableDef) (n : string) : ColumnDef :=
  match column_index t n with Some i => nth i (td_columns t) no_column | None => no_column end.
Definition types_of (t : TableDef) (columns : list string) : list ColumnType :=
  map (fun c => col_type (column t c)) columns.
Definition field (t : TableDef) (row : Row) (n : string) : Value :=
  match column_index t n with Some i => nth i row Null | None => Null end.
Definition project (t : TableDef) (row : Row) (columns : list string) : Row := map (field t row) columns.

Definition any_null (r : Row) : bool := existsb is_null r.
Fixpoint rows_equal (a b : Row) : bool :=
  match a, b with
  | [], [] => true
  | x :: a, y :: b => value_eqb x y && rows_equal a b
  | _, _ => false
  end.

Definition pk_key_of (t : TableDef) (row : Row) : Bytes := encode_key (project t row (td_primary_key t)).
Definition index_key_of (t : TableDef) (idx : IndexDef) (row : Row) (pk_key : Bytes) : Bytes :=
  encode_key (project t row (ix_columns idx)) ++ pk_key.

(** * Rows *)

Definition compare_holds (op : CheckOp) (v o : Value) : bool :=
  match op, compare_value v o with
  | CEq, Eq | CNe, (Lt | Gt) | CLt, Lt | CLe, (Lt | Eq) | CGt, Gt | CGe, (Gt | Eq) => true
  | _, _ => false
  end.

Definition check_holds (t : TableDef) (c : CheckDef) (row : Row) : bool :=
  let v := field t row (ck_column c) in
  if is_null v then true
  else if negb (String.eqb (ck_other c) "") then
    let o := field t row (ck_other c) in
    if is_null o then true else compare_holds (ck_op c) v o
  else if bool_decide (ck_op c = CIn) then
    existsb (fun o => match compare_value v o with Eq => true | _ => false end) (ck_operands c)
  else compare_holds (ck_op c) v (nth 0 (ck_operands c) Null).

Fixpoint validate_values (t : TableDef) (cols : list ColumnDef) (row : Row) : Result unit :=
  match cols, row with
  | c :: cols, v :: row =>
      let? _ :=
        (if is_null v then
           if nullable c then Ret tt
           else constraint ("not null: " +:+ td_name t +:+ "." +:+ col_name c)
         else if negb (matches v (col_type c)) then
           invalid_argument ("column " +:+ td_name t +:+ "." +:+ col_name c +:+ " is "
             +:+ column_type_to_string (col_type c) +:+ ", value " +:+ value_to_string v +:+ " is not")
         else match v with
              | Text s =>
                  if bool_decide (col_type c = TText) && negb (valid_utf8 s) then
                    invalid_argument ("column " +:+ td_name t +:+ "." +:+ col_name c +:+ ": text is not valid UTF-8")
                  else Ret tt
              | _ => Ret tt
              end) in
      validate_values t cols row
  | _, _ => Ret tt
  end.

Fixpoint validate_checks (t : TableDef) (checks : list CheckDef) (row : Row) : Result unit :=
  match checks with
  | [] => Ret tt
  | c :: checks =>
      if check_holds t c row then validate_checks t checks row
      else constraint ("check " +:+ ck_name c +:+ " on " +:+ td_name t)
  end.

Definition validate_row (t : TableDef) (row : Row) : Result unit :=
  if negb (length row =? length (td_columns t))%nat then
    invalid_argument ("table " +:+ td_name t +:+ " has " +:+ to_string (Z.of_nat (length (td_columns t)))
      +:+ " columns, row has " +:+ to_string (Z.of_nat (length row)))
  else
    let? _ := validate_values t (td_columns t) row in
    validate_checks t (td_checks t) row.

(** * Definitions *)

Fixpoint is_prefix (a b : list string) : bool :=
  match a, b with
  | [], _ => true
  | x :: a, y :: b => String.eqb x y && is_prefix a b
  | _, _ => false
  end.
Definition pk_supports (t : TableDef) (columns : list string) : bool := is_prefix columns (td_primary_key t).
Definition supporting_index (t : TableDef) (columns : list string) : option IndexDef :=
  List.find (fun idx => is_prefix columns (ix_columns idx)) (td_indexes t).
Definition same_names (a b : list string) : bool := bool_decide (a = b).

(** The loop over the columns of an index or of a primary key: each exists
    and none is repeated. *)
Fixpoint columns_ok (t : TableDef) (who : string) (seen : list string) (cols : list string) : Result unit :=
  match cols with
  | [] => Ret tt
  | c :: cols =>
      match column_index t c with
      | None => invalid_argument (who +:+ ": no column " +:+ c)
      | Some _ =>
          if bool_decide (c ∈ seen) then invalid_argument (who +:+ ": column " +:+ c +:+ " repeated")
          else columns_ok t who (c :: seen) cols
      end
  end.

(** [self] is the position of the definition when it is one of the table's. *)
Definition validate_index_def (t : TableDef) (idx : IndexDef) (self : option nat) : Result unit :=
  if String.eqb (ix_name idx) "" then invalid_argument "index needs a name"
  else if bool_decide (ix_columns idx = []) then invalid_argument ("index " +:+ ix_name idx +:+ " needs columns")
  else if existsb (fun x => negb (bool_decide (Some (fst x) = self)) && String.eqb (ix_name (snd x)) (ix_name idx))
            (imap pair (td_indexes t))
  then already_exists ("index " +:+ ix_name idx +:+ " on " +:+ td_name t)
  else columns_ok t ("index " +:+ ix_name idx) [] (ix_columns idx).

Fixpoint fk_columns_ok (t parent : TableDef) (who : string) (cols refs : list string) : Result unit :=
  match cols, refs with
  | c :: cols, r :: refs =>
      match column_index t c, column_index parent r with
      | None, _ => invalid_argument (who +:+ ": no column " +:+ c)
      | _, None => invalid_argument (who +:+ ": no column " +:+ r)
      | Some _, Some _ =>
          let a := column t c in
          let b := column parent r in
          if negb (bool_decide (col_type a = col_type b)) || negb (scale a =? scale b) then
            invalid_argument (who +:+ ": " +:+ col_name a +:+ " and " +:+ col_name b +:+ " differ in type")
          else fk_columns_ok t parent who cols refs
      end
  | _, _ => Ret tt
  end.

Definition unique_target (parent : TableDef) (refs : list string) : bool :=
  same_names refs (td_primary_key parent)
  || existsb (fun idx => ix_unique idx && same_names (ix_columns idx) refs) (td_indexes parent).

Definition validate_foreign_key (cat : Catalog) (t : TableDef) (fk : ForeignKeyDef) : Result unit :=
  let who := "foreign key " +:+ fk_name fk in
  if String.eqb (fk_name fk) "" then invalid_argument "foreign key needs a name"
  else if bool_decide (fk_columns fk = []) || negb (length (fk_columns fk) =? length (fk_ref_columns fk))%nat then
    invalid_argument (who +:+ ": column lists differ")
  else
    match (if String.eqb (fk_ref_table fk) (td_name t) then Some t else table cat (fk_ref_table fk)) with
    | None => invalid_argument (who +:+ ": no table " +:+ fk_ref_table fk)
    | Some parent =>
        if negb (unique_target parent (fk_ref_columns fk)) then
          invalid_argument (who +:+ ": referenced columns are not the primary key or a unique index of " +:+ td_name parent)
        else
          let? _ := fk_columns_ok t parent who (fk_columns fk) (fk_ref_columns fk) in
          if negb (pk_supports t (fk_columns fk)) && bool_decide (supporting_index t (fk_columns fk) = None) then
            invalid_argument (who +:+ ": needs an index on " +:+ td_name t
              +:+ " whose leading columns are the foreign key columns")
          else Ret tt
    end.

Fixpoint operands_ok (who column_name : string) (ty : ColumnType) (ops : list Value) : Result unit :=
  match ops with
  | [] => Ret tt
  | v :: ops =>
      if is_null v || negb (matches v ty) then
        invalid_argument (who +:+ ": operand " +:+ value_to_string v +:+ " does not match " +:+ column_name)
      else operands_ok who column_name ty ops
  end.

Definition validate_check (t : TableDef) (c : CheckDef) : Result unit :=
  let who := "check " +:+ ck_name c in
  if String.eqb (ck_name c) "" then invalid_argument "check needs a name"
  else match column_index t (ck_column c) with
  | None => invalid_argument (who +:+ ": no column " +:+ ck_column c)
  | Some ci =>
      if negb (String.eqb (ck_other c) "") then
        match column_index t (ck_other c) with
        | None => invalid_argument (who +:+ ": no column " +:+ ck_other c)
        | Some oi =>
            if (oi =? ci)%nat then invalid_argument (who +:+ ": compares " +:+ ck_column c +:+ " with itself")
            else if bool_decide (ck_op c = CIn) then invalid_argument (who +:+ ": IN takes constants, not a column")
            else if negb (bool_decide (ck_operands c = [])) then
              invalid_argument (who +:+ ": a column comparison takes no constant")
            else
              let a := column t (ck_column c) in
              let b := column t (ck_other c) in
              if negb (bool_decide (col_type a = col_type b)) || negb (scale a =? scale b) then
                invalid_argument (who +:+ ": " +:+ ck_column c +:+ " and " +:+ ck_other c +:+ " differ in type")
              else Ret tt
        end
      else if bool_decide (ck_operands c = []) then invalid_argument (who +:+ ": needs an operand")
      else if negb (bool_decide (ck_op c = CIn)) && negb (length (ck_operands c) =? 1)%nat then
        invalid_argument (who +:+ ": needs exactly one operand")
      else operands_ok who (ck_column c) (col_type (column t (ck_column c))) (ck_operands c)
  end.

Fixpoint validate_columns (t : TableDef) (names : list string) (cols : list ColumnDef) : Result unit :=
  match cols with
  | [] => Ret tt
  | c :: cols =>
      if String.eqb (col_name c) "" then invalid_argument ("table " +:+ td_name t +:+ ": column needs a name")
      else if bool_decide (col_name c ∈ names) then
        invalid_argument ("table " +:+ td_name t +:+ ": column " +:+ col_name c +:+ " repeated")
      else if (if bool_decide (col_type c = TDecimal) then 18 <? scale c else negb (scale c =? 0)) then
        invalid_argument ("column " +:+ td_name t +:+ "." +:+ col_name c +:+ ": bad scale")
      else validate_columns t (col_name c :: names) cols
  end.
Fixpoint validate_indexes (t : TableDef) (i : nat) (l : list IndexDef) : Result unit :=
  match l with
  | [] => Ret tt
  | idx :: l => let? _ := validate_index_def t idx (Some i) in validate_indexes t (S i) l
  end.
Fixpoint validate_foreign_keys (cat : Catalog) (t : TableDef) (names : list string) (l : list ForeignKeyDef) : Result unit :=
  match l with
  | [] => Ret tt
  | fk :: l =>
      if bool_decide (fk_name fk ∈ names) then invalid_argument ("foreign key " +:+ fk_name fk +:+ " repeated")
      else let? _ := validate_foreign_key cat t fk in validate_foreign_keys cat t (fk_name fk :: names) l
  end.
Fixpoint validate_table_checks (t : TableDef) (names : list string) (l : list CheckDef) : Result unit :=
  match l with
  | [] => Ret tt
  | c :: l =>
      if bool_decide (ck_name c ∈ names) then invalid_argument ("check " +:+ ck_name c +:+ " repeated")
      else let? _ := validate_check t c in validate_table_checks t (ck_name c :: names) l
  end.

Definition validate_table_def (cat : Catalog) (t : TableDef) : Result unit :=
  if String.eqb (td_name t) "" then invalid_argument "table needs a name"
  else if bool_decide (td_columns t = []) then invalid_argument ("table " +:+ td_name t +:+ " needs columns")
  else if (4096 <? length (td_columns t))%nat then invalid_argument ("table " +:+ td_name t +:+ ": too many columns")
  else
    let? _ := validate_columns t [] (td_columns t) in
    if bool_decide (td_primary_key t = []) then invalid_argument ("table " +:+ td_name t +:+ " needs a primary key")
    else
      let? _ := columns_ok t ("primary key of " +:+ td_name t) [] (td_primary_key t) in
      let? _ := validate_indexes t 0 (td_indexes t) in
      let? _ := validate_foreign_keys cat t [] (td_foreign_keys t) in
      validate_table_checks t [] (td_checks t).

(** * The catalog row *)

(** [RowCursor]: what is left of the row. *)
Definition CM (A : Type) : Type := M Row A.
Definition take_text : CM string := fun r =>
  match r with Text s :: r => (Ret (string_of_bytes s), r) | _ => (corrupt "catalog: expected text", r) end.
Definition take_integer : CM Z := fun r =>
  match r with Integer i :: r => (Ret i, r) | _ => (corrupt "catalog: expected integer", r) end.
Definition take_boolean : CM bool := fun r =>
  match r with Boolean b :: r => (Ret b, r) | _ => (corrupt "catalog: expected boolean", r) end.
Definition take_value : CM Value := fun r =>
  match r with v :: r => (Ret v, r) | _ => (corrupt "catalog: expected value", r) end.

(** A counted loop that collects. *)
Fixpoint repeat_take {A} (n : nat) (m : CM A) : CM (list A) :=
  match n with
  | O => ret []
  | S n => let! x := m in let! l := repeat_take n m in ret (x :: l)
  end.
Definition take_texts : CM (list string) :=
  let! n := take_integer in
  if (n <? 0) || (4096 <? n) then lift (corrupt "catalog: bad list length")
  else repeat_take (Z.to_nat n) take_text.

Definition push_texts (v : list string) : Row :=
  Integer (Z.of_nat (length v)) :: map (fun s => Text (bytes_of_string s)) v.

Definition check_op_code (op : CheckOp) : Z :=
  match op with CEq => 1 | CNe => 2 | CLt => 3 | CLe => 4 | CGt => 5 | CGe => 6 | CIn => 7 end.
Definition check_op_of (z : Z) : CheckOp :=
  match z with 1 => CEq | 2 => CNe | 3 => CLt | 4 => CLe | 5 => CGt | 6 => CGe | _ => CIn end.
Definition column_type_of (z : Z) : ColumnType :=
  match z with 1 => TInteger | 2 => TDecimal | 3 => TText | 4 => TBlob | 5 => TTimestamp | 6 => TBoolean | _ => TUuid end.
(** [static_cast<int64_t>(PageNo)]. *)
Definition push_root (p : PageNo) : Value := Integer (i64_of_u64 p).

Definition encode_column (c : ColumnDef) : Row :=
  [Text (bytes_of_string (col_name c)); Integer (column_type_code (col_type c)); Boolean (nullable c); Integer (scale c)].
Definition encode_index (idx : IndexDef) : Row :=
  [Text (bytes_of_string (ix_name idx)); push_root (ix_root idx); Boolean (ix_unique idx)] ++ push_texts (ix_columns idx).
Definition encode_foreign_key (fk : ForeignKeyDef) : Row :=
  [Text (bytes_of_string (fk_name fk)); Text (bytes_of_string (fk_ref_table fk))]
  ++ push_texts (fk_columns fk) ++ push_texts (fk_ref_columns fk).
Definition encode_check (c : CheckDef) : Row :=
  [Text (bytes_of_string (ck_name c)); Text (bytes_of_string (ck_column c)); Text (bytes_of_string (ck_other c));
   Integer (check_op_code (ck_op c)); Integer (Z.of_nat (length (ck_operands c)))] ++ ck_operands c.
Definition encode_list {A} (f : A -> Row) (l : list A) : Row := Integer (Z.of_nat (length l)) :: concat (map f l).

Definition encode_table_def (t : TableDef) : Row :=
  [Text (bytes_of_string (td_name t)); push_root (td_root t)]
  ++ encode_list encode_column (td_columns t)
  ++ push_texts (td_primary_key t)
  ++ encode_list encode_index (td_indexes t)
  ++ encode_list encode_foreign_key (td_foreign_keys t)
  ++ encode_list encode_check (td_checks t).

Definition decode_column : CM ColumnDef :=
  let! name := take_text in
  let! ty := take_integer in
  let! nullable := take_boolean in
  let! scale := take_integer in
  if (ty <? 1) || (7 <? ty) || (scale <? 0) || (18 <? scale) then lift (corrupt "catalog: bad column")
  else ret (mkColumnDef name (column_type_of ty) nullable scale).
Definition decode_index : CM IndexDef :=
  let! name := take_text in
  let! root := take_integer in
  let! unique := take_boolean in
  let! cols := take_texts in
  ret (mkIndexDef name cols unique (u64_of_i64 root)).
Definition decode_foreign_key : CM ForeignKeyDef :=
  let! name := take_text in
  let! ref := take_text in
  let! cols := take_texts in
  let! refs := take_texts in
  ret (mkForeignKey name cols ref refs).
Definition decode_check : CM CheckDef :=
  let! name := take_text in
  let! col := take_text in
  let! other := take_text in
  let! op := take_integer in
  let! nops := take_integer in
  if (op <? 1) || (7 <? op) || (nops <? 0) || (4096 <? nops) then lift (corrupt "catalog: bad check")
  else if (if String.eqb other "" then nops <? 1 else negb (nops =? 0)) then lift (corrupt "catalog: bad check operands")
  else let! ops := repeat_take (Z.to_nat nops) take_value in
       ret (mkCheckDef name col (check_op_of op) ops other).

(** A list with its count, within bounds. *)
Definition decode_list {A} (what : string) (least : Z) (m : CM A) : CM (list A) :=
  let! n := take_integer in
  if (n <? least) || (4096 <? n) then lift (corrupt ("catalog: bad " +:+ what +:+ " count"))
  else repeat_take (Z.to_nat n) m.

Definition decode_table_body : CM TableDef :=
  let! name := take_text in
  let! root := take_integer in
  let! cols := decode_list "column" 1 decode_column in
  let! pk := take_texts in
  let! idxs := decode_list "index" 0 decode_index in
  let! fks := decode_list "foreign key" 0 decode_foreign_key in
  let! chks := decode_list "check" 0 decode_check in
  ret (mkTableDef name cols pk idxs fks chks (u64_of_i64 root)).
Definition decode_table_def (row : Row) : Result TableDef :=
  match decode_table_body row with
  | (Ret t, []) => Ret t
  | (Ret _, _) => corrupt "catalog: trailing values"
  | (Err e, _) => Err e
  end.

(** * Proofs *)

Lemma string_bytes s : string_of_bytes (bytes_of_string s) = s.
Proof.
  induction s as [|a s IH]; [done|]. cbn. unfold string_of_bytes in IH. rewrite IH. f_equal.
  unfold ascii_of_byte. rewrite N2Z.id. apply Ascii.ascii_N_embedding.
Qed.

(** A decoder reads back what an encoder wrote and leaves the rest. *)
Definition reads {A} (m : CM A) (enc : Row) (a : A) : Prop := forall rest, m (enc ++ rest) = (Ret a, rest).

Lemma reads_bind {A B} (m : CM A) (k : A -> CM B) enc1 enc2 a b :
  reads m enc1 a -> reads (k a) enc2 b -> reads (bind m k) (enc1 ++ enc2) b.
Proof. intros H1 H2 rest. unfold bind. by rewrite <- app_assoc, H1, H2. Qed.
Lemma reads_ret {A} (a : A) : reads (ret a) [] a.
Proof. done. Qed.
Lemma reads_repeat {A} (m : CM A) (enc : A -> Row) l :
  Forall (fun x => reads m (enc x) x) l -> reads (repeat_take (length l) m) (concat (map enc l)) l.
Proof.
  induction 1 as [|x l Hx _ IH]; cbn [length repeat_take map concat]; [apply reads_ret|].
  apply reads_bind with (a := x); [done|]. rewrite <- (app_nil_r (concat _)). by apply reads_bind with (a := l).
Qed.
Lemma reads_cons {A B} (m : CM A) (k : A -> CM B) v enc a b :
  reads m [v] a -> reads (k a) enc b -> reads (bind m k) (v :: enc) b.
Proof. apply (reads_bind m k [v] enc). Qed.

Lemma reads_text s : reads take_text [Text (bytes_of_string s)] s.
Proof. intros rest. cbn. by rewrite string_bytes. Qed.
Lemma reads_integer i : reads take_integer [Integer i] i.
Proof. done. Qed.
Lemma reads_boolean b : reads take_boolean [Boolean b] b.
Proof. done. Qed.
Lemma reads_value v : reads take_value [v] v.
Proof. done. Qed.
#[local] Hint Resolve reads_text reads_integer reads_boolean reads_value reads_ret reads_cons : archivum.

Lemma reads_texts l : (length l <= 4096)%nat -> reads take_texts (push_texts l) l.
Proof.
  intros Hl. unfold take_texts, push_texts. apply reads_cons with (a := Z.of_nat (length l)); [done|].
  destruct (Z.ltb_spec (Z.of_nat (length l)) 0); [lia|]. destruct (Z.ltb_spec 4096 (Z.of_nat (length l))); [lia|]. cbn [orb].
  rewrite Nat2Z.id. pose proof (reads_repeat take_text (fun s => [Text (bytes_of_string s)]) l) as Hr.
  replace (concat (map (fun s => [Text (bytes_of_string s)]) l)) with (map (fun s => Text (bytes_of_string s)) l) in Hr
    by (clear; induction l as [|s l IH]; cbn; congruence).
  apply Hr. apply Forall_true. intros s. apply reads_text.
Qed.

Lemma reads_list {A} what least (m : CM A) (enc : A -> Row) l :
  least <= Z.of_nat (length l) <= 4096 -> Forall (fun x => reads m (enc x) x) l ->
  reads (decode_list what least m) (encode_list enc l) l.
Proof.
  intros Hl Hall. unfold decode_list, encode_list. apply reads_cons with (a := Z.of_nat (length l)); [done|].
  destruct (Z.ltb_spec (Z.of_nat (length l)) least); [lia|]. destruct (Z.ltb_spec 4096 (Z.of_nat (length l))); [lia|]. cbn [orb].
  rewrite Nat2Z.id. by apply reads_repeat.
Qed.

(** The definitions the catalog can hold: what the C++ members hold, and the
    counts [decode_table_def] accepts. *)
Definition short {A} (l : list A) : Prop := Z.of_nat (length l) <= 4096.
Definition check_shape (c : CheckDef) : Prop :=
  short (ck_operands c) /\ (if String.eqb (ck_other c) "" then ck_operands c <> [] else ck_operands c = []).
Record storable (t : TableDef) : Prop := {
  st_root : u64_ok (td_root t);
  st_columns : td_columns t <> [] /\ short (td_columns t);
  st_scales : Forall (fun c => 0 <= scale c <= 18) (td_columns t);
  st_pk : short (td_primary_key t);
  st_indexes : short (td_indexes t) /\ Forall (fun i => u64_ok (ix_root i) /\ short (ix_columns i)) (td_indexes t);
  st_fks : short (td_foreign_keys t)
    /\ Forall (fun fk => short (fk_columns fk) /\ short (fk_ref_columns fk)) (td_foreign_keys t);
  st_checks : short (td_checks t) /\ Forall check_shape (td_checks t)
}.

Lemma reads_column c : 0 <= scale c <= 18 -> reads decode_column (encode_column c) c.
Proof.
  intros Hs. destruct c as [n ty nl sc]. cbn [scale] in Hs. unfold decode_column, encode_column. cbn [col_name col_type nullable scale].
  do 4 (eapply reads_cons; [eauto with archivum|]).
  assert (E : (column_type_code ty <? 1) || (7 <? column_type_code ty) || (sc <? 0) || (18 <? sc) = false).
  { destruct ty; cbn; destruct (Z.ltb_spec sc 0), (Z.ltb_spec 18 sc); cbn; done || lia. }
  rewrite E. replace (column_type_of (column_type_code ty)) with ty by (by destruct ty). apply reads_ret.
Qed.
Lemma reads_index i : u64_ok (ix_root i) -> short (ix_columns i) -> reads decode_index (encode_index i) i.
Proof.
  intros Hr Hc. destruct i as [n cols un root]. cbn in Hr, Hc. unfold decode_index, encode_index, push_root. cbn [ix_name ix_columns ix_unique ix_root app].
  do 3 (eapply reads_cons; [eauto with archivum|]). rewrite <- (app_nil_r (push_texts _)).
  eapply reads_bind; [apply reads_texts; unfold short in *; lia|]. rewrite u64_i64 by done. apply reads_ret.
Qed.
Lemma reads_foreign_key fk : short (fk_columns fk) -> short (fk_ref_columns fk) -> reads decode_foreign_key (encode_foreign_key fk) fk.
Proof.
  intros H1 H2. destruct fk as [n cols ref refs]. cbn in H1, H2. unfold decode_foreign_key, encode_foreign_key, short in *. cbn [fk_name fk_ref_table fk_columns fk_ref_columns app].
  do 2 (eapply reads_cons; [eauto with archivum|]). eapply reads_bind; [apply reads_texts; lia|].
  rewrite <- (app_nil_r (push_texts refs)). eapply reads_bind; [apply reads_texts; lia|]. apply reads_ret.
Qed.
Lemma reads_check c : check_shape c -> reads decode_check (encode_check c) c.
Proof.
  intros [Hs Hshape]. destruct c as [n col op ops other]. cbn in Hs, Hshape. unfold decode_check, encode_check, short in *.
  cbn [ck_name ck_column ck_other ck_op ck_operands app].
  do 5 (eapply reads_cons; [eauto with archivum|]).
  assert (E : (check_op_code op <? 1) || (7 <? check_op_code op) || (Z.of_nat (length ops) <? 0) || (4096 <? Z.of_nat (length ops)) = false).
  { destruct op; cbn [check_op_code]; destruct (Z.ltb_spec (Z.of_nat (length ops)) 0), (Z.ltb_spec 4096 (Z.of_nat (length ops))); cbn; done || lia. }
  rewrite E. assert (E2 : (if String.eqb other "" then Z.of_nat (length ops) <? 1 else negb (Z.of_nat (length ops) =? 0)) = false).
  { destruct (String.eqb other ""); [|by subst ops]. destruct ops; [done|]. apply Z.ltb_ge. cbn. lia. }
  rewrite E2, Nat2Z.id. rewrite <- (app_nil_r ops) at 2. eapply reads_bind with (a := ops).
  - pose proof (reads_repeat take_value (fun v => [v]) ops) as Hr.
    replace (concat (map (fun v => [v]) ops)) with ops in Hr by (clear; induction ops as [|v l IH]; cbn; congruence).
    apply Hr. apply Forall_true. intros v. apply reads_value.
  - replace (check_op_of (check_op_code op)) with op by (by destruct op). apply reads_ret.
Qed.

(** [C16] What the catalog stores of a table is read back as it was: every
    definition with at most 4096 of each part decodes from its row to
    itself. *)
Theorem table_def_roundtrip t : storable t -> decode_table_def (encode_table_def t) = Ret t.
Proof.
  intros [Hroot [Hne Hcols] Hsc Hpk [Hix Hix'] [Hfk Hfk'] [Hck Hck']]. unfold decode_table_def.
  assert (Hreads : reads decode_table_body (encode_table_def t) t).
  { unfold decode_table_body, encode_table_def, push_root. cbn [app]. do 2 (eapply reads_cons; [eauto with archivum|]).
    eapply reads_bind; [apply reads_list|].
    - destruct (td_columns t); [done|]. cbn [length] in *. unfold short in Hcols. cbn [length] in Hcols. lia.
    - eapply Forall_impl; [exact Hsc|]. intros c. apply reads_column.
    - eapply reads_bind; [apply reads_texts; unfold short in *; lia|].
      eapply reads_bind; [apply reads_list; [unfold short in *; lia|]|].
      { eapply Forall_impl; [exact Hix'|]. intros i [? ?]. by apply reads_index. }
      eapply reads_bind; [apply reads_list; [unfold short in *; lia|]|].
      { eapply Forall_impl; [exact Hfk'|]. intros i [? ?]. by apply reads_foreign_key. }
      rewrite <- (app_nil_r (encode_list encode_check _)).
      eapply reads_bind; [apply reads_list; [unfold short in *; lia|]|].
      { eapply Forall_impl; [exact Hck'|]. intros i. apply reads_check. }
      rewrite u64_i64 by done. destruct t. apply reads_ret. }
  specialize (Hreads []). rewrite app_nil_r in Hreads. by rewrite Hreads.
Qed.

(** ** Rows *)

Definition value_fits (c : ColumnDef) (v : Value) : Prop :=
  match v with
  | Null => nullable c = true
  | Text s => col_type c = TText /\ valid_utf8 s = true
  | _ => matches v (col_type c) = true
  end.
(** A row of a table: a value for each column, of its type, NULL only where
    that is allowed, text in UTF-8, and every CHECK holding. *)
Definition row_ok (t : TableDef) (row : Row) : Prop :=
  Forall2 value_fits (td_columns t) row /\ Forall (fun c => check_holds t c row = true) (td_checks t).

Lemma validate_values_spec t cols : forall row, length row = length cols ->
  match validate_values t cols row with
  | Ret _ => Forall2 value_fits cols row
  | Err e => ~ Forall2 value_fits cols row
      /\ match code e with
         | Constraint => exists i c, cols !! i = Some c /\ row !! i = Some Null /\ nullable c = false
         | InvalidArgument => exists i c v, cols !! i = Some c /\ row !! i = Some v /\ v <> Null /\ ~ value_fits c v
         | _ => False
         end
  end.
Proof.
  induction cols as [|c cols IH]; intros [|v row] Hl; try done; [constructor|]. cbn [validate_values]. specialize (IH row ltac:(cbn in Hl; lia)).
  assert (Hok : value_fits c v ->
    match validate_values t cols row with
    | Ret _ => Forall2 value_fits (c :: cols) (v :: row)
    | Err e => ~ Forall2 value_fits (c :: cols) (v :: row)
        /\ match code e with
           | Constraint => exists i c', (c :: cols) !! i = Some c' /\ (v :: row) !! i = Some Null /\ nullable c' = false
           | InvalidArgument => exists i c' v', (c :: cols) !! i = Some c' /\ (v :: row) !! i = Some v' /\ v' <> Null /\ ~ value_fits c' v'
           | _ => False
           end
    end).
  { intros Hc. destruct (validate_values t cols row) as [u|e]; [by constructor|]. destruct IH as [Hn Hcode].
    split; [intros Hf; by inversion Hf|]. destruct (code e); try done.
    - destruct Hcode as (i & c' & v' & Hrest). by exists (S i), c', v'.
    - destruct Hcode as (i & c' & Hrest). by exists (S i), c'. }
  assert (Hbad : forall e, ~ value_fits c v -> v <> Null -> code e = InvalidArgument ->
    ~ Forall2 value_fits (c :: cols) (v :: row)
    /\ match code e with
       | Constraint => exists i c', (c :: cols) !! i = Some c' /\ (v :: row) !! i = Some Null /\ nullable c' = false
       | InvalidArgument => exists i c' v', (c :: cols) !! i = Some c' /\ (v :: row) !! i = Some v' /\ v' <> Null /\ ~ value_fits c' v'
       | _ => False
       end).
  { intros e Hf Hv ->. split; [intros Hall; by inversion Hall|]. by exists 0%nat, c, v. }
  destruct v as [|i|i|s|b|i|b|u]; cbn [is_null].
  1: { destruct (nullable c) eqn:En; [by apply Hok|]. cbn. split; [intros Hall; inversion Hall; cbn in *; congruence|]. by exists 0%nat, c. }
  3: { cbn [matches]. case_bool_decide as Ht; cbn [negb andb].
       - destruct (valid_utf8 s) eqn:Eu; cbn [negb]; [by apply Hok|]. apply Hbad; [|done|done]. cbn. intros [_ ?]. congruence.
       - apply Hbad; [|done|done]. by intros [? _]. }
  all: destruct (matches _ (col_type c)) eqn:Em; cbn [negb andb]; first [by apply Hok|apply Hbad; [|done|done]];
    cbn [value_fits]; rewrite Em; done.
Qed.

Lemma validate_checks_spec t row checks :
  match validate_checks t checks row with
  | Ret _ => Forall (fun c => check_holds t c row = true) checks
  | Err e => code e = Constraint /\ Exists (fun c => check_holds t c row = false) checks
  end.
Proof.
  induction checks as [|c checks IH]; cbn [validate_checks]; [constructor|]. destruct (check_holds t c row) eqn:E.
  - destruct (validate_checks t checks row); [by constructor|]. destruct IH as [? ?]. split; [done|by constructor 2].
  - cbn. split; [done|]. by constructor 1.
Qed.

Lemma validate_row_sound t row :
  match validate_row t row with
  | Ret _ => row_ok t row
  | Err e => ~ row_ok t row
      /\ match code e with
         | Constraint => (exists i c, td_columns t !! i = Some c /\ row !! i = Some Null /\ nullable c = false)
                         \/ Exists (fun c => check_holds t c row = false) (td_checks t)
         | InvalidArgument => length row <> length (td_columns t)
             \/ exists i c v, td_columns t !! i = Some c /\ row !! i = Some v /\ v <> Null /\ ~ value_fits c v
         | _ => False
         end
  end.
Proof.
  unfold validate_row, row_ok. destruct (Nat.eqb_spec (length row) (length (td_columns t))) as [Hl|Hl]; cbn [negb].
  2: { cbn. split; [|by left]. intros [Hf _]. apply Hl. symmetry. by eapply Forall2_length. }
  pose proof (validate_values_spec t (td_columns t) row Hl) as Hv. destruct (validate_values t (td_columns t) row) as [u|e]; cbn [rbind].
  - pose proof (validate_checks_spec t row (td_checks t)) as Hc. destruct (validate_checks t (td_checks t) row) as [u'|e]; [done|].
    destruct Hc as [-> Hex]. split; [|by right]. intros [_ Hall]. apply Exists_exists in Hex as (c & Hin & Hc). rewrite Forall_forall in Hall.
    specialize (Hall c Hin). congruence.
  - destruct Hv as [Hn Hcode]. split; [by intros [? _]|]. destruct (code e); try done; [right|left]; done.
Qed.

(** [C15] [validate_row] accepts exactly the rows of the table.  What it
    refuses with Constraint is a NULL where none is allowed or a CHECK that
    fails; a wrong number of values, a value of another type and text that is
    not UTF-8 are InvalidArgument; it fails in no other way. *)
Theorem validate_row_spec t row :
  match validate_row t row with
  | Ret _ => row_ok t row
  | Err e => ~ row_ok t row
      /\ match code e with
         | Constraint => (exists i c, td_columns t !! i = Some c /\ row !! i = Some Null /\ nullable c = false)
                         \/ Exists (fun c => check_holds t c row = false) (td_checks t)
         | InvalidArgument => length row <> length (td_columns t)
             \/ exists i c v, td_columns t !! i = Some c /\ row !! i = Some v /\ v <> Null /\ ~ value_fits c v
         | _ => False
         end
  end.
Proof. apply validate_row_sound. Qed.

(** ** Definitions *)

Definition has_column (t : TableDef) (n : string) : Prop := is_Some (column_index t n).
(** Every column a definition names is one of its columns, so that no lookup
    leaves the vectors. *)
Record names_resolve (t : TableDef) : Prop := {
  nr_pk : td_primary_key t <> [] /\ NoDup (td_primary_key t) /\ Forall (has_column t) (td_primary_key t);
  nr_indexes : Forall (fun i => ix_columns i <> [] /\ NoDup (ix_columns i) /\ Forall (has_column t) (ix_columns i)) (td_indexes t);
  nr_fks : Forall (fun fk => fk_columns fk <> [] /\ length (fk_columns fk) = length (fk_ref_columns fk)
                             /\ Forall (has_column t) (fk_columns fk)) (td_foreign_keys t);
  nr_checks : Forall (fun c => has_column t (ck_column c)
                     /\ (if String.eqb (ck_other c) "" then ck_operands c <> [] else has_column t (ck_other c))) (td_checks t)
}.

Lemma columns_ok_spec t who cols : forall seen, columns_ok t who seen cols = Ret tt ->
  Forall (has_column t) cols /\ NoDup cols /\ Forall (fun c => c ∉ seen) cols.
Proof.
  induction cols as [|c cols IH]; intros seen; cbn [columns_ok]; [intros _; split_and!; constructor|].
  destruct (column_index t c) as [i|] eqn:E; [|done]. case_bool_decide as Hs; [done|]. intros Hok.
  destruct (IH _ Hok) as (H1 & H2 & H3). split_and!.
  - constructor; [by exists i|done].
  - constructor; [|done]. intros Hc. rewrite Forall_forall in H3. apply (H3 c Hc). by left.
  - constructor; [done|]. eapply Forall_impl; [exact H3|]. intros x Hx Hin. apply Hx. by right.
Qed.

Lemma fk_columns_ok_spec t parent who cols : forall refs, fk_columns_ok t parent who cols refs = Ret tt ->
  length cols = length refs -> Forall (has_column t) cols.
Proof.
  induction cols as [|c cols IH]; intros [|r refs] Hok Hl; [constructor|done..|]. cbn [fk_columns_ok] in Hok.
  destruct (column_index t c) as [i|] eqn:E; [|done]. destruct (column_index parent r); [|done].
  destruct (_ || _); [done|]. constructor; [by exists i|]. apply (IH refs); [done|]. by injection Hl.
Qed.

Lemma valid_def_resolves cat t : validate_table_def cat t = Ret tt -> names_resolve t.
Proof.
  unfold validate_table_def. destruct (String.eqb (td_name t) ""); [done|]. case_bool_decide; [done|].
  destruct (4096 <? length (td_columns t))%nat; [done|]. destruct (validate_columns t [] (td_columns t)) as [[]|]; [|done]. cbn [rbind].
  case_bool_decide as Hpk; [done|]. destruct (columns_ok t _ [] (td_primary_key t)) as [[]|] eqn:Ek; [|done]. cbn [rbind].
  destruct (validate_indexes t 0 (td_indexes t)) as [[]|] eqn:Ei; [|done]. cbn [rbind].
  destruct (validate_foreign_keys cat t [] (td_foreign_keys t)) as [[]|] eqn:Ef; [|done]. cbn [rbind]. intros Ec.
  destruct (columns_ok_spec _ _ _ _ Ek) as (K1 & K2 & _). constructor; [by split_and!|..].
  - clear -Ei. revert Ei. generalize 0%nat. induction (td_indexes t) as [|idx l IH]; intros i Ei; [constructor|]. cbn [validate_indexes] in Ei.
    destruct (validate_index_def t idx (Some i)) as [[]|] eqn:E; [|done]. constructor; [|cbn [rbind] in *; eapply IH; eassumption]. unfold validate_index_def in E.
    destruct (String.eqb _ _); [done|]. case_bool_decide; [done|]. destruct (existsb _ _); [done|].
    destruct (columns_ok_spec _ _ _ _ E) as (? & ? & _). done.
  - clear -Ef. revert Ef. generalize (@nil string) at 1. induction (td_foreign_keys t) as [|fk l IH]; intros names Ef; [constructor|]. cbn [validate_foreign_keys] in Ef.
    case_bool_decide; [done|]. destruct (validate_foreign_key cat t fk) as [[]|] eqn:E; [|done]. constructor; [|cbn [rbind] in *; eapply IH; eassumption].
    unfold validate_foreign_key in E. destruct (String.eqb (fk_name fk) _); [done|].
    case_bool_decide; [done|]. destruct (Nat.eqb_spec (length (fk_columns fk)) (length (fk_ref_columns fk))) as [Hl|]; [|done]. cbn [orb negb] in E.
    destruct (if String.eqb (fk_ref_table fk) (td_name t) then _ else _) as [parent|]; [|done]. destruct (negb (unique_target _ _)); [done|].
    destruct (fk_columns_ok t parent _ _ _) as [[]|] eqn:E2; [|done]. split_and!; [done|done|]. by eapply fk_columns_ok_spec.
  - clear -Ec. revert Ec. generalize (@nil string) at 1. induction (td_checks t) as [|c l IH]; intros names Ec; [constructor|]. cbn [validate_table_checks] in Ec.
    case_bool_decide; [done|]. destruct (validate_check t c) as [[]|] eqn:E; [|done]. constructor; [|cbn [rbind] in *; eapply IH; eassumption].
    unfold validate_check in E. destruct (String.eqb (ck_name c) _); [done|]. destruct (column_index t (ck_column c)) as [ci|] eqn:Eci; [|done].
    split; [by exists ci|]. destruct (String.eqb (ck_other c) ""); cbn [negb] in E.
    + by case_bool_decide.
    + destruct (column_index t (ck_other c)) as [oi|] eqn:Eoi; [by exists oi|done].
Qed.

(** [C39] A definition that passes [validate_table_def] names only columns it
    has, in its primary key, indexes, foreign keys and checks, so the
    unchecked vector accesses of [project], [types_of] and [check_holds] stay
    in range; key and index columns are non-empty and distinct. *)
Theorem valid_table_def_columns cat t : validate_table_def cat t = Ret tt -> names_resolve t.
Proof. apply valid_def_resolves. Qed.

(** ** Examples *)

(** A table of people with a unique index, a reference to its own rows and a
    check. *)
Definition people : TableDef :=
  mkTableDef "people"
    [mkColumnDef "id" TInteger false 0; mkColumnDef "name" TText true 0; mkColumnDef "boss" TInteger true 0]
    ["id"] [mkIndexDef "by_boss" ["boss"] false 7; mkIndexDef "by_name" ["name"] true 8]
    [mkForeignKey "boss_fk" ["boss"] "people" ["id"]]
    [mkCheckDef "positive" "id" CGt [Integer 0] ""] 6.

Lemma table_def_roundtrip_witness : decode_table_def (encode_table_def people) = Ret people.
Proof.
  apply table_def_roundtrip. unfold people. constructor; unfold short, check_shape, short, u64_ok; cbn [td_root td_columns td_primary_key td_indexes td_foreign_keys
    td_checks length].
  all: repeat first [apply Forall_cons_2 | apply Forall_nil_2 | apply conj]; cbn [scale ix_root ix_columns fk_columns fk_ref_columns ck_operands ck_other length];
    first [lia | discriminate].
Defined.

Lemma valid_table_def_columns_witness : names_resolve people.
Proof. apply (valid_table_def_columns (mkCatalog 0 [])). vm_compute. reflexivity. Defined.

(** ** What the catalog reads back

    [answers m enc a ok]: the decoder reads [a] back when [ok], and refuses it
    as corrupt when not. *)








