(* ===== verification/Tzif.v ===== *)
(** Time zones (modules/punchline/include/archivum/punchline/tzif.h,
    modules/punchline/src/tzif.cpp): the reader of compiled IANA zones and of
    the POSIX rule in their footer, and the offset in force at an instant.

    Strings and files are byte lists; a [Cursor] is what is left of its
    string, and [peek] at the end is the character zero, as in the code.
    Instants are integers: the 64-bit sums of the code are exact for instants
    below 2^62.  [int] accumulators wrap ([to_int]); the code's overflow there
    is undefined, so a theorem about a number asks that it has fewer than ten
    digits.  The embedded database is generated at build time and is an
    argument of [zone]. *)

From stdpp Require Import base numbers list strings sorting.
From S2P Require Import Prelude Bytes Types LocalTime.
Open Scope Z_scope.

Module Tz.

Record LocalTimeType := mkType { utoff : Z; is_dst : bool; abbrev : Bytes }.

Inductive RuleKind := MonthWeekDay | JulianNoLeap | JulianZeroBased.
#[export] Instance RuleKind_eq_dec : EqDecision RuleKind.
Proof. solve_decision. Defined.
Record RuleDate := mkRule { kind : RuleKind; month : Z; week : Z; weekday : Z; day : Z; time : Z }.
Definition no_rule : RuleDate := mkRule MonthWeekDay 0 0 0 0 7200.

Record PosixRule := mkPosix { std : LocalTimeType; dst : option LocalTimeType; start : RuleDate; end_ : RuleDate }.

Record Zone := mkZone {
  version_ : Z;
  transition_times_ : list Z;
  transition_types_ : list nat;
  types_ : list LocalTimeType;
  footer_ : option PosixRule
}.

Record Local := mkLocal { offset : Z; l_dst : bool; l_abbrev : Bytes }.
#[export] Instance Local_eq_dec : EqDecision Local.
Proof. solve_decision. Defined.
Record Transition := mkTransition { at_ : Z; after : Local }.

(** * Numbers *)

Definition be32 (p : Bytes) (i : nat) : Z :=
  Z.lor (Z.lor (Z.lor (Z.shiftl (byte_at p i) 24) (Z.shiftl (byte_at p (i + 1)) 16)) (Z.shiftl (byte_at p (i + 2)) 8))
        (byte_at p (i + 3)).
Definition be64 (p : Bytes) (i : nat) : Z := i64_of_u64 (Z.lor (Z.shiftl (be32 p i) 32) (be32 p (i + 4))).

Record Header := mkHeader {
  version : Z;
  isutcnt : nat;
  isstdcnt : nat;
  leapcnt : nat;
  timecnt : nat;
  typecnt : nat;
  charcnt : nat
}.

Definition tzif_magic : Bytes := [84; 90; 105; 102].
Definition header_version (v : Z) : Result Z :=
  if v =? 0 then Ret 1
  else if (50 <=? v) && (v <=? 57) then Ret (v - 48)
  else corrupt "TZif: unknown version byte".
Definition read_header (d : Bytes) (at_ : nat) : Result Header :=
  if (length d <? at_ + 44)%nat then corrupt "TZif: truncated header"
  else if negb (bool_decide (sub at_ 4 d = tzif_magic)) then corrupt "TZif: bad magic"
  else
    let? v := header_version (byte_at d (at_ + 4)) in
    let count i := Z.to_nat (be32 d (at_ + i)) in
    let h := mkHeader v (count 20%nat) (count 24%nat) (count 28%nat) (count 32%nat) (count 36%nat) (count 40%nat) in
    if (be32 d (at_ + 36) =? 0) || (256 <? be32 d (at_ + 36)) || (2 ^ 20 <? be32 d (at_ + 32))
       || (2 ^ 16 <? be32 d (at_ + 40)) || (2 ^ 16 <? be32 d (at_ + 28))
    then corrupt "TZif: implausible counts"
    else if negb (be32 d (at_ + 24) =? 0) && negb (be32 d (at_ + 24) =? be32 d (at_ + 36)) then corrupt "TZif: isstdcnt"
    else if negb (be32 d (at_ + 20) =? 0) && negb (be32 d (at_ + 20) =? be32 d (at_ + 36)) then corrupt "TZif: isutcnt"
    else Ret h.

Definition block_size (h : Header) (time_size : nat) : nat :=
  timecnt h * time_size + timecnt h + typecnt h * 6 + charcnt h + leapcnt h * (time_size + 4) + isstdcnt h + isutcnt h.

(** The calendar helpers of tzif.cpp are copies of those of localtime.cpp. *)
Definition tz_days_from_civil (y m d : Z) : Z := days_from_civil y m d.
Definition weekday_of (days : Z) : Z := weekday_of_day days.
Definition tz_leap (y : Z) : bool := leap y.
Definition year_of_instant (instant : Z) : Z :=
  let z := (if 0 <=? instant then instant else instant - 86399) `quot` 86400 + 719468 in
  let era := (if 0 <=? z then z else z - 146096) `quot` 146097 in
  let doe := z - era * 146097 in
  let yoe := (doe - doe `quot` 1460 + doe `quot` 36524 - doe `quot` 146096) `quot` 365 in
  let doy := doe - (365 * yoe + yoe `quot` 4 - yoe `quot` 100) in
  let mp := (5 * doy + 2) `quot` 153 in
  let m := mp + (if mp <? 10 then 3 else -9) in
  to_int (yoe + era * 400 + (if m <=? 2 then 1 else 0)).

(** * The POSIX TZ string *)

Definition peek (c : Bytes) : Z := match c with [] => 0 | b :: _ => b end.
Definition done (c : Bytes) : bool := match c with [] => true | _ => false end.
Definition CM (A : Type) : Type := M Bytes A.
Definition peekM : CM Z := fun c => (Ret (peek c), c).
Definition doneM : CM bool := fun c => (Ret (done c), c).
(** [++c.i] *)
Definition advance : CM unit := fun c => (Ret tt, tl c).

Fixpoint take_while (p : Z -> bool) (c : Bytes) : Bytes * Bytes :=
  match c with
  | [] => ([], [])
  | b :: c' => if p b then let '(l, r) := take_while p c' in (b :: l, r) else ([], c)
  end.
Definition is_letter (b : Z) : bool := ((65 <=? b) && (b <=? 90)) || ((97 <=? b) && (b <=? 122)).
Definition is_digit (b : Z) : bool := (48 <=? b) && (b <=? 57).

Definition parse_name : CM Bytes :=
  let! name := (fun c =>
    if peek c =? 60 then
      let '(name, c) := take_while (fun b => negb (b =? 62)) (tl c) in
      if negb (peek c =? 62) then (corrupt "TZ string: unterminated <name>", c) else (Ret name, tl c)
    else let '(name, c) := take_while is_letter c in (Ret name, c)) in
  if (length name <? 3)%nat then lift (corrupt "TZ string: name shorter than three characters") else ret name.

(** The lambda [number]: [None] when there is no digit. *)
Definition number : CM (option Z) := fun c =>
  if negb (is_digit (peek c)) then (Ret None, c)
  else let '(ds, c) := take_while is_digit c in (Ret (Some (fold_left (fun out b => to_int (out * 10 + (b - 48))) ds 0)), c).

Definition number_or (what : string) : CM Z :=
  let! n := number in
  match n with Some n => ret n | None => lift (corrupt what) end.
Definition parse_hms (max_hours : Z) : CM Z :=
  let! p := peekM in
  let! sign := (if p =? 43 then do! advance in ret 1 else if p =? 45 then do! advance in ret (-1) else ret 1) in
  let! h := number_or "TZ string: expected hours" in
  let! p := peekM in
  let! (m, s) :=
    (if p =? 58 then
       do! advance in
       let! m := number_or "TZ string: expected minutes" in
       let! p := peekM in
       if p =? 58 then
         do! advance in
         let! s := number_or "TZ string: expected seconds" in
         ret (m, s)
       else ret (m, 0)
     else ret (0, 0)) in
  if (max_hours <? h) || (59 <? m) || (59 <? s) then lift (corrupt "TZ string: time out of range")
  else ret (sign * (h * 3600 + m * 60 + s)).

(** A number with the character that must follow it. *)
Definition number_dot : CM Z :=
  let! n := number_or "TZ string: Mm.w.d" in
  let! p := peekM in
  if negb (p =? 46) then lift (corrupt "TZ string: Mm.w.d") else do! advance in ret n.
Definition parse_rule_date : CM RuleDate :=
  let! p := peekM in
  let! d :=
    (if p =? 77 then
       do! advance in
       let! mo := number_dot in
       let! we := number_dot in
       let! wd := number_or "TZ string: Mm.w.d" in
       if (mo <? 1) || (12 <? mo) || (we <? 1) || (5 <? we) || (wd <? 0) || (6 <? wd)
       then lift (corrupt "TZ string: Mm.w.d out of range")
       else ret (mkRule MonthWeekDay mo we wd 0 7200)
     else if p =? 74 then
       do! advance in
       let! n := number_or "TZ string: Jn" in
       if (n <? 1) || (365 <? n) then lift (corrupt "TZ string: Jn") else ret (mkRule JulianNoLeap 0 0 0 n 7200)
     else
       let! n := number_or "TZ string: n" in
       if (n <? 0) || (365 <? n) then lift (corrupt "TZ string: n") else ret (mkRule JulianZeroBased 0 0 0 n 7200)) in
  let! p := peekM in
  if p =? 47 then
    do! advance in
    let! t := parse_hms 167 in
    ret (mkRule (kind d) (month d) (week d) (weekday d) (day d) t)
  else ret d.

Definition comma (what : string) : CM unit :=
  let! p := peekM in
  if negb (p =? 44) then lift (corrupt what) else advance.
Definition parse_posix_body : CM PosixRule :=
  let! std_name := parse_name in
  let! std_off := parse_hms 24 in
  let std := mkType (to_int (- std_off)) false std_name in
  let! d := doneM in
  if d then ret (mkPosix std None no_rule no_rule)
  else
    let! dst_name := parse_name in
    let! d := doneM in
    let! p := peekM in
    let! off := (if negb d && negb (p =? 44) then let! off := parse_hms 24 in ret (to_int (- off))
                 else ret (to_int (utoff std + 3600))) in
    do! comma "TZ string: dst without rules" in
    let! start := parse_rule_date in
    do! comma "TZ string: missing end rule" in
    let! e := parse_rule_date in
    let! d := doneM in
    if negb d then lift (corrupt "TZ string: trailing characters")
    else ret (mkPosix std (Some (mkType off true dst_name)) start e).
Definition parse_posix (tz : Bytes) : Result PosixRule := fst (parse_posix_body tz).

(** * The file *)

Fixpoint parse_times (d : Bytes) (time_size : nat) (n at_ : nat) (prev : option Z) : Result (list Z) :=
  match n with
  | O => Ret []
  | S n =>
      let t := if (time_size =? 8)%nat then be64 d at_ else to_int (be32 d at_) in
      if (match prev with Some b => t <=? b | None => false end) then corrupt "TZif: transitions not increasing"
      else let? l := parse_times d time_size n (at_ + time_size) (Some t) in Ret (t :: l)
  end.
Fixpoint parse_indices (d : Bytes) (typecnt n at_ : nat) : Result (list nat) :=
  match n with
  | O => Ret []
  | S n =>
      let idx := Z.to_nat (byte_at d at_) in
      if (typecnt <=? idx)%nat then corrupt "TZif: transition type out of range"
      else let? l := parse_indices d typecnt n (at_ + 1) in Ret (idx :: l)
  end.
(** [chars] is the offset of the abbreviations, [charcnt] their length. *)
Fixpoint parse_types (d : Bytes) (charcnt chars n at_ : nat) : Result (list LocalTimeType) :=
  match n with
  | O => Ret []
  | S n =>
      let idx := Z.to_nat (byte_at d (at_ + 5)) in
      if (charcnt <=? idx)%nat then corrupt "TZif: abbreviation index out of range"
      else
        let ab := fst (take_while (fun b => negb (b =? 0)) (sub (chars + idx) (charcnt - idx) d)) in
        let t := mkType (to_int (be32 d at_)) (negb (byte_at d (at_ + 4) =? 0)) ab in
        let? l := parse_types d charcnt chars n (at_ + 6) in Ret (t :: l)
  end.
Definition parse_footer (data : Bytes) (at_ : nat) : Result (option PosixRule) :=
  if (length data <? at_ + 2)%nat || negb (byte_at data at_ =? 10) then corrupt "TZif: missing footer"
  else
    let '(tz, rest) := take_while (fun b => negb (b =? 10)) (drop (at_ + 1) data) in
    if done rest then corrupt "TZif: unterminated footer"
    else if bool_decide (tz = []) then Ret None
    else let? rule := parse_posix tz in Ret (Some rule).

Definition parse (data : Bytes) : Result Zone :=
  let? h1 := read_header data 0 in
  let? (h, at_, time_size) :=
    (if 2 <=? version h1 then
       let at_ := (44 + block_size h1 4)%nat in
       let? h2 := read_header data at_ in
       Ret (h2, (at_ + 44)%nat, 8%nat)
     else Ret (h1, 44%nat, 4%nat)) in
  if (length data <? at_ + block_size h time_size)%nat then corrupt "TZif: truncated data block"
  else
    let? times := parse_times data time_size (timecnt h) at_ None in
    let p := (at_ + timecnt h * time_size)%nat in
    let? indices := parse_indices data (typecnt h) (timecnt h) p in
    let p := (p + timecnt h)%nat in
    let? types := parse_types data (charcnt h) (p + typecnt h * 6) (typecnt h) p in
    let? footer := (if 2 <=? version h then parse_footer data (at_ + block_size h time_size) else Ret None) in
    Ret (mkZone (version h1) times indices types footer).

(** * Rules *)

Definition days_of_months : list Z := [31; 28; 31; 30; 31; 30; 31; 31; 30; 31; 30; 31].
(** [while (day > last) day -= 7]: the fuel is enough as a week is at most the
    fifth ([clamp_enough]). *)
Fixpoint clamp (fuel : nat) (day last : Z) : Z :=
  match fuel with
  | O => day
  | S fuel => if last <? day then clamp fuel (day - 7) last else day
  end.
Definition rule_day (year : Z) (d : RuleDate) : Z :=
  match kind d with
  | MonthWeekDay =>
      let first := tz_days_from_civil year (month d) 1 in
      let delta := weekday d - weekday_of first in
      let delta := if delta <? 0 then delta + 7 else delta in
      let day := first + delta + (week d - 1) * 7 in
      let last := first + nth (Z.to_nat (month d - 1)) days_of_months 0
                  + (if (month d =? 2) && tz_leap year then 1 else 0) - 1 in
      clamp 5 day last
  | JulianNoLeap =>
      let n := if tz_leap year && (60 <=? day d) then day d + 1 else day d in
      tz_days_from_civil year 1 1 + n - 1
  | JulianZeroBased => tz_days_from_civil year 1 1 + day d
  end.
Definition rule_transition (year : Z) (d : RuleDate) (offset_before : Z) : Z :=
  rule_day year d * 86400 + time d - offset_before.

(** [std::pair] order. *)
Definition pair_le (a b : Z * bool) : Prop := fst a < fst b \/ (fst a = fst b /\ (snd a = true -> snd b = true)).
#[export] Instance pair_le_dec a b : Decision (pair_le a b).
Proof. unfold pair_le. apply _. Defined.

Definition rule_pairs (r : PosixRule) (d : LocalTimeType) (years : list Z) : list (Z * bool) :=
  concat (map (fun y => [(rule_transition y (start r) (utoff (std r)), true); (rule_transition y (end_ r) (utoff d), false)]) years).
Definition rule_local (r : PosixRule) (instant : Z) : Local :=
  match dst r with
  | None => mkLocal (utoff (std r)) false (abbrev (std r))
  | Some d =>
      let year := year_of_instant (instant + utoff (std r)) in
      let ts := merge_sort pair_le (rule_pairs r d [year - 1; year; year + 1]) in
      let in_dst := fold_left (fun acc '(t, d) => if t <=? instant then d else acc) ts false in
      if in_dst then mkLocal (utoff d) true (abbrev d) else mkLocal (utoff (std r)) false (abbrev (std r))
  end.

(** * Zones *)

Definition no_type : LocalTimeType := mkType 0 false [].
Definition type_local (z : Zone) (i : nat) : Local :=
  let t := nth i (types_ z) no_type in mkLocal (utoff t) (is_dst t) (abbrev t).

(** [std::upper_bound] on a sorted vector, as a position. *)
Fixpoint upper_bound (l : list Z) (x : Z) : nat :=
  match l with
  | [] => 0%nat
  | a :: l => if a <=? x then S (upper_bound l x) else 0%nat
  end.
Fixpoint first_standard (l : list LocalTimeType) (i : nat) : option nat :=
  match l with
  | [] => None
  | t :: l => if is_dst t then first_standard l (S i) else Some i
  end.

Definition local_of (z : Zone) (instant : Z) : Local :=
  match transition_times_ z with
  | [] => match footer_ z with Some r => rule_local r instant | None => type_local z 0 end
  | front :: _ =>
      if instant <? front then type_local z (default 0%nat (first_standard (types_ z) 0))
      else
        let idx := (upper_bound (transition_times_ z) instant - 1)%nat in
        match footer_ z with
        | Some r =>
            if (idx + 1 =? length (transition_times_ z))%nat then rule_local r instant
            else type_local z (nth idx (transition_types_ z) 0%nat)
        | None => type_local z (nth idx (transition_types_ z) 0%nat)
        end
  end.

Fixpoint unique (l : list Z) : list Z :=
  match l with
  | a :: (b :: _) as l' => if a =? b then unique l' else a :: unique l'
  | l => l
  end.
Definition consider (z : Zone) (local_seconds offset : Z) : list Z :=
  let t := local_seconds - offset in
  if Tz.offset (local_of z t) =? offset then [t] else [].
Definition footer_offsets (f : option PosixRule) : list Z :=
  match f with
  | None => []
  | Some r => utoff (std r) :: match dst r with Some d => [utoff d] | None => [] end
  end.
Definition instants_of (z : Zone) (local_seconds : Z) : list Z :=
  let offsets := [offset (local_of z (local_seconds - 36 * 3600)); offset (local_of z (local_seconds + 36 * 3600))]
                 ++ map utoff (types_ z) ++ footer_offsets (footer_ z) in
  unique (merge_sort Z.le (concat (map (consider z local_seconds) offsets))).

(** The two loops of [transitions], over the times to try; [out] collects. *)
Fixpoint explicit_loop (z : Zone) (from to : Z) (times : list Z) (prev : Local) (out : list Transition) : list Transition :=
  match times with
  | [] => out
  | t :: times =>
      if (t <? from) || (to <=? t) then explicit_loop z from to times prev out
      else
        let a := local_of z t in
        let out := if bool_decide (a = prev) then out else out ++ [mkTransition t a] in
        explicit_loop z from to times a out
  end.
Fixpoint rule_loop (z : Zone) (from rule_from to : Z) (times : list Z) (p : Local) (out : list Transition) : list Transition :=
  match times with
  | [] => out
  | t :: times =>
      if (t <? rule_from) || (to <=? t) then rule_loop z from rule_from to times p out
      else if t <=? match last out with Some x => at_ x | None => from - 1 end then rule_loop z from rule_from to times p out
      else
        let a := local_of z t in
        let out := if negb (offset a =? offset p) || negb (Bool.eqb (l_dst a) (l_dst p)) then out ++ [mkTransition t a] else out in
        rule_loop z from rule_from to times a out
  end.
Definition transition_le (a b : Transition) : Prop := at_ a <= at_ b.
#[export] Instance transition_le_dec a b : Decision (transition_le a b).
Proof. unfold transition_le. apply _. Defined.
(** [for (int y = y0; y <= y1; ++y)] *)
Definition years (y0 y1 : Z) : list Z := map (fun i => y0 + Z.of_nat i) (seq 0 (Z.to_nat (y1 - y0 + 1))).
Definition transitions (z : Zone) (from to : Z) : list Transition :=
  let out := explicit_loop z from to (transition_times_ z) (local_of z from) [] in
  let out :=
    match footer_ z with
    | Some r =>
        match dst r with
        | Some d =>
            let rule_from := match last (transition_times_ z) with Some b => Z.max from b | None => from end in
            let y0 := year_of_instant rule_from - 1 in
            let y1 := year_of_instant to + 1 in
            let times := merge_sort Z.le (map fst (rule_pairs r d (years y0 y1))) in
            rule_loop z from rule_from to times (local_of z rule_from) out
        | None => out
        end
    | None => out
    end in
  merge_sort transition_le out.

(** * The embedded database *)

Record EmbeddedDatabase := mkDatabase { db_version : Bytes; zones : list (Bytes * Bytes) }.
Definition zone (db : EmbeddedDatabase) (name : Bytes) : Result Zone :=
  if (length (zones db) =? 0)%nat then
    unsupported "no time zone database is embedded in this binary (tools/tzdata/generate.py)"
  else match List.find (fun x => bool_decide (name = fst x)) (zones db) with
       | Some (_, data) => parse data
       | None => not_found ("unknown time zone: " +:+ string_of_bytes name)
       end.
Definition database_version (db : EmbeddedDatabase) : Result Bytes :=
  if (length (zones db) =? 0)%nat then unsupported "no time zone database is embedded in this binary"
  else Ret (db_version db).
Definition unavailable : Bytes := [117; 110; 97; 118; 97; 105; 108; 97; 98; 108; 101].
Definition release_stamp (db : EmbeddedDatabase) : Bytes :=
  match database_version db with Ret v => v | Err _ => unavailable end.

(** * Well-formed zones *)

Definition rule_date_ok (d : RuleDate) : Prop :=
  match kind d with
  | MonthWeekDay => 1 <= month d <= 12 /\ 1 <= week d <= 5 /\ 0 <= weekday d <= 6
  | JulianNoLeap => 1 <= day d <= 365
  | JulianZeroBased => 0 <= day d <= 365
  end.
Definition i32_ok (z : Z) : Prop := - 2 ^ 31 <= z < 2 ^ 31.
Definition posix_ok (r : PosixRule) : Prop :=
  i32_ok (utoff (std r)) /\ is_dst (std r) = false
  /\ match dst r with
     | Some d => i32_ok (utoff d) /\ is_dst d = true /\ rule_date_ok (start r) /\ rule_date_ok (end_ r)
     | None => True
     end.
Record zone_ok (z : Zone) : Prop := {
  zo_times : StronglySorted Z.lt (transition_times_ z);
  zo_length : length (transition_types_ z) = length (transition_times_ z);
  zo_indices : Forall (fun i => (i < length (types_ z))%nat) (transition_types_ z);
  zo_types : (1 <= length (types_ z) <= 256)%nat;
  zo_offsets : Forall (fun t => i32_ok (utoff t)) (types_ z);
  zo_footer : match footer_ z with Some r => posix_ok r | None => True end
}.

(** ** What the parser accepts *)

Lemma to_int_ok z : i32_ok (to_int z).
Proof. unfold i32_ok, to_int. pose proof (Z.mod_pos_bound (z + 2 ^ 31) (2 ^ 32) ltac:(lia)). lia. Qed.

Lemma parse_times_sorted d ts n : forall at_ prev l, parse_times d ts n at_ prev = Ret l ->
  length l = n /\ StronglySorted Z.lt l /\ match prev with Some b => Forall (fun t => b < t) l | None => True end.
Proof.
  induction n as [|n IH]; intros at_ prev l H; cbn [parse_times] in H.
  - injection H as <-. split_and!; [done|constructor|by destruct prev].
  - set (t := if (ts =? 8)%nat then _ else _) in H.
    destruct (match prev with Some b => t <=? b | None => false end) eqn:E; [done|]. inv_bind H. injection H as <-.
    destruct (IH _ _ _ E0) as (Hl & Hs & Hf). split_and!; [cbn; lia|by constructor|]. destruct prev as [b|]; [|done].
    apply Z.leb_gt in E. constructor; [done|]. eapply Forall_impl; [exact Hf|]. cbn. lia.
Qed.
Lemma parse_indices_ok d typecnt n : forall at_ l, parse_indices d typecnt n at_ = Ret l ->
  length l = n /\ Forall (fun i => (i < typecnt)%nat) l.
Proof.
  induction n as [|n IH]; intros at_ l H; cbn [parse_indices] in H; [by injection H as <-|].
  destruct (_ <=? _)%nat eqn:E; [done|]. inv_bind H. injection H as <-. destruct (IH _ _ E0). apply Nat.leb_gt in E.
  split; [cbn; lia|by constructor].
Qed.
Lemma parse_types_ok d charcnt chars n : forall at_ l, parse_types d charcnt chars n at_ = Ret l ->
  length l = n /\ Forall (fun t => i32_ok (utoff t)) l.
Proof.
  induction n as [|n IH]; intros at_ l H; cbn [parse_types] in H; [by injection H as <-|].
  destruct (_ <=? _)%nat; [done|]. inv_bind H. injection H as <-. destruct (IH _ _ E). split; [cbn; lia|].
  constructor; [apply to_int_ok|done].
Qed.

Lemma bind_peek {A} (k : Z -> CM A) c : bind peekM k c = k (peek c) c.
Proof. done. Qed.

Lemma parse_rule_date_ok c d c' : parse_rule_date c = (Ret d, c') -> rule_date_ok d.
Proof.
  unfold parse_rule_date. rewrite bind_peek. intros H. apply bind_value in H as (d0 & c1 & H0 & H).
  assert (Hd : rule_date_ok d0).
  { destruct (peek c =? 77).
    - inv_bind H0. destruct (_ || _) eqn:E' in H0; [done|]. injection H0 as <- _. repeat (apply orb_false_iff in E' as [E' ?]). breflect.
      cbn. lia.
    - destruct (peek c =? 74); inv_bind H0; (destruct (_ || _) eqn:E' in H0; [done|]); injection H0 as <- _; breflect; cbn; lia. }
  rewrite bind_peek in H. destruct (peek c1 =? 47).
  - inv_bind H. injection H as <- _. destruct d0; exact Hd.
  - by injection H as <- _.
Qed.
Lemma parse_posix_ok tz r : parse_posix tz = Ret r -> posix_ok r.
Proof.
  unfold parse_posix. destruct (parse_posix_body tz) as [[r'|] c'] eqn:H; [|done]. intros [= ->].
  unfold parse_posix_body in H. apply bind_value in H as (? & ? & ? & H). apply bind_value in H as (? & ? & ? & H).
  apply bind_value in H as (d & ? & _ & H). destruct d.
  - injection H as <- _. split; [apply to_int_ok|done].
  - apply bind_value in H as (? & ? & ? & H). apply bind_value in H as (d1 & ? & _ & H). rewrite bind_peek in H.
    apply bind_value in H as (off & ? & Hoff & H). apply bind_value in H as (? & ? & ? & H). apply bind_value in H as (st & ? & Hs & H).
    apply bind_value in H as (? & ? & ? & H). apply bind_value in H as (en & ? & He & H). apply bind_value in H as (d2 & ? & _ & H).
    destruct d2; [|done]. injection H as <- _. split; [apply to_int_ok|]. split; [done|]. cbn.
    split_and!; [|done|by eapply parse_rule_date_ok|by eapply parse_rule_date_ok].
    destruct (negb d1 && _); [inv_bind Hoff|]; injection Hoff as <- _; apply to_int_ok.
Qed.

Lemma be32_nonneg d i : bytes_ok d -> 0 <= be32 d i.
Proof.
  intros Hd. unfold be32. rewrite !Z.lor_nonneg, !Z.shiftl_nonneg. split_and!; apply byte_at_ok; done.
Qed.
Lemma read_header_counts d at_ h : bytes_ok d -> read_header d at_ = Ret h -> (1 <= typecnt h <= 256)%nat.
Proof.
  intros Hd. unfold read_header. destruct (_ <? _)%nat; [done|]. destruct (negb _); [done|]. intros H. inv_bind H. cbv zeta in H.
  destruct (_ || _ || _ || _ || _) eqn:E' in H; [done|]. repeat (apply orb_false_iff in E' as [E' ?]). breflect.
  destruct (_ && _) in H; [done|]. destruct (_ && _) in H; [done|]. injection H as <-. cbn [typecnt].
  pose proof (be32_nonneg d (at_ + 36) Hd). lia.
Qed.

(** [C33] What [Zone::parse] accepts is a zone: transition times strictly
    ascend, there is a type for each and it exists, there are one to 256
    types, offsets fit 32 bits and the footer's rule has its members in range;
    so no lookup of [local_of] leaves its vector. *)
Theorem parse_zone_ok data z : bytes_ok data -> parse data = Ret z -> zone_ok z.
Proof.
  intros Hd H. unfold parse in H. apply rbind_value in H as (h1 & H1 & H).
  apply rbind_value in H as ([[h at_] ts] & Hh & H).
  assert (Hc : (1 <= typecnt h <= 256)%nat).
  { destruct (2 <=? version h1); [inv_bind Hh; injection Hh as <- _ _|injection Hh as <- _ _]; by eapply read_header_counts. }
  destruct (_ <? _)%nat; [done|]. apply rbind_value in H as (times & Ht & H). apply rbind_value in H as (indices & Hi & H).
  apply rbind_value in H as (types & Hty & H). apply rbind_value in H as (footer & Hf & H). injection H as <-.
  apply parse_times_sorted in Ht as (Ht1 & Ht2 & _). apply parse_indices_ok in Hi as [Hi1 Hi2]. apply parse_types_ok in Hty as [Hy1 Hy2].
  constructor; cbn; [done|lia|by rewrite Hy1|lia|done|].
  destruct (2 <=? version h); [|by injection Hf as <-]. unfold parse_footer in Hf. destruct (_ || _); [done|].
  destruct (take_while _ _) as [tz rest]. destruct (done rest); [done|]. case_bool_decide; [by injection Hf as <-|].
  inv_bind Hf. injection Hf as <-. by eapply parse_posix_ok.
Qed.

(** ** Wall clocks *)

Lemma in_local_offsets z t : zone_ok z ->
  offset (local_of z t) ∈ map utoff (types_ z) ++ footer_offsets (footer_ z).
Proof.
  intros Hz. assert (Htype : forall i, (i < length (types_ z))%nat -> offset (type_local z i) ∈ map utoff (types_ z)).
  { intros i Hi. unfold type_local. cbn. destruct (lookup_lt_is_Some_2 (types_ z) i Hi) as [x Hx].
    rewrite (nth_lookup_Some _ _ _ _ Hx). apply (list_elem_of_fmap_2 utoff). by eapply list_elem_of_lookup_2. }
  assert (Hrule : forall r, footer_ z = Some r -> offset (rule_local r t) ∈ footer_offsets (footer_ z)).
  { intros r ->. unfold rule_local, footer_offsets. destruct (dst r) as [d|]; [|by left].
    destruct (fold_left _ _ _); [right; by left|by left]. }
  assert (Hidx : forall i, (nth i (transition_types_ z) 0 < length (types_ z))%nat).
  { intros i. destruct (transition_types_ z !! i) as [x|] eqn:E.
    - rewrite (nth_lookup_Some _ _ _ _ E). pose proof (zo_indices _ Hz) as Hf. rewrite Forall_lookup in Hf. by apply (Hf i).
    - rewrite nth_lookup, E. pose proof (zo_types _ Hz). cbn. lia. }
  assert (Hstd : (default 0 (first_standard (types_ z) 0) < length (types_ z))%nat).
  { pose proof (zo_types _ Hz). enough (forall l i, (default 0 (first_standard l i) < i + length l \/ default 0 (first_standard l i) = 0)%nat) as Hall
      by (destruct (Hall (types_ z) 0%nat); lia).
    induction l as [|x l IH]; intros i; cbn; [by right|]. destruct (is_dst x); [|cbn; lia]. destruct (IH (S i)); cbn; lia. }
  unfold local_of. apply elem_of_app. destruct (transition_times_ z).
  - destruct (footer_ z) as [r|] eqn:Er; [right; by apply Hrule|left; apply Htype; pose proof (zo_types _ Hz); lia].
  - destruct (t <? z0); [left; by apply Htype|]. destruct (footer_ z) as [r|] eqn:Er; [|left; apply Htype, Hidx].
    destruct (_ =? _)%nat; [right; by apply Hrule|left; apply Htype, Hidx].
Qed.

Lemma unique_cons2 a b l : unique (a :: b :: l) = if a =? b then unique (b :: l) else a :: unique (b :: l).
Proof. reflexivity. Qed.
Lemma unique_elem l x : x ∈ unique l <-> x ∈ l.
Proof.
  induction l as [|a [|b l] IH]; [done|done|]. rewrite unique_cons2. destruct (Z.eqb_spec a b) as [->|Hab].
  - rewrite IH, !elem_of_cons. tauto.
  - rewrite !(elem_of_cons _ x a). by rewrite IH.
Qed.
Lemma unique_sorted l : StronglySorted Z.le l -> StronglySorted Z.lt (unique l).
Proof.
  induction l as [|a [|b l] IH]; intros Hs; [constructor|by repeat constructor|]. apply StronglySorted_inv in Hs as [Hs Ha].
  specialize (IH Hs). rewrite unique_cons2. destruct (Z.eqb_spec a b) as [->|Hab]; [done|]. constructor; [done|].
  apply Forall_forall. intros x Hx. rewrite unique_elem in Hx. rewrite Forall_forall in Ha.
  assert (b <= x). { apply StronglySorted_inv in Hs as [_ Hb]. rewrite Forall_forall in Hb. apply elem_of_cons in Hx as [->|Hx]; [lia|by apply Hb]. }
  specialize (Ha b ltac:(by left)). lia.
Qed.

(** [C32] [instants_of] is exact: it lists, in ascending order and once each,
    the instants at which a clock on the wall of the zone reads the given
    local time; none in a gap, two in a fold. *)
Theorem instants_of_exact z l : zone_ok z ->
  StronglySorted Z.lt (instants_of z l) /\ (forall t, t ∈ instants_of z l <-> t + offset (local_of z t) = l).
Proof.
  intros Hz. unfold instants_of. split; [apply unique_sorted, StronglySorted_merge_sort; try apply _; intros ???; lia|].
  intros t. rewrite unique_elem, merge_sort_Permutation. rewrite list_elem_of_In, in_concat. split.
  - intros (c & Hc & Ht). apply in_map_iff in Hc as (o & <- & _). unfold consider in Ht.
    destruct (Z.eqb_spec (offset (local_of z (l - o))) o) as [E|]; [|done]. destruct Ht as [<-|[]]. rewrite E. lia.
  - intros E. set (o := offset (local_of z t)) in *. exists (consider z l o). split.
    + apply in_map_iff. exists o. split; [done|]. apply in_or_app. right. apply list_elem_of_In, in_local_offsets, Hz.
    + unfold consider. replace (l - o) with t by lia. fold o. rewrite Z.eqb_refl. by left.
Qed.

(** ** The offset in force *)

Lemma upper_bound_split l x : StronglySorted Z.lt l ->
  Forall (fun a => a <= x) (take (upper_bound l x) l) /\ Forall (fun a => x < a) (drop (upper_bound l x) l).
Proof.
  induction 1 as [|a l Hs IH Ha]; [done|]. cbn [upper_bound]. destruct (Z.leb_spec a x); cbn [take drop].
  - destruct IH. split; [by constructor|done].
  - split; [constructor|]. constructor; [done|]. eapply Forall_impl; [exact Ha|]. cbn. lia.
Qed.
Lemma filter_split {A} (P : A -> Prop) `{forall a, Decision (P a)} l1 l2 :
  Forall P l1 -> Forall (fun a => ~ P a) l2 -> filter P (l1 ++ l2) = l1.
Proof.
  intros H1 H2. rewrite filter_app. assert (filter P l2 = []) as ->.
  { induction H2 as [|a l Ha _ IH]; [done|]. by rewrite filter_cons_False. }
  rewrite app_nil_r. induction H1 as [|a l Ha _ IH]; [done|]. rewrite filter_cons_True by done. by f_equal.
Qed.

(** The last transition at or before an instant, with its type. *)
Definition last_before (z : Zone) (t : Z) : option (Z * nat) :=
  last (filter (fun p => fst p <= t) (zip (transition_times_ z) (transition_types_ z))).

Lemma upper_bound_le l x : (upper_bound l x <= length l)%nat.
Proof. induction l as [|a l IH]; [done|]. cbn. destruct (a <=? x); lia. Qed.

Lemma last_before_eq z t : zone_ok z ->
  last_before z t = match upper_bound (transition_times_ z) t with
                    | O => None
                    | S i => Some (nth i (transition_times_ z) 0, nth i (transition_types_ z) 0%nat)
                    end.
Proof.
  intros Hz. unfold last_before. set (k := upper_bound (transition_times_ z) t). set (l := transition_times_ z) in *.
  pose proof (zo_length _ Hz) as Hl. fold l in Hl. set (ts := transition_types_ z) in *.
  destruct (upper_bound_split l t (zo_times _ Hz)) as [H1 H2]. fold k in H1, H2.
  pose proof (upper_bound_le l t) as Hk. fold k in Hk.
  assert (E : zip l ts = zip (take k l) (take k ts) ++ zip (drop k l) (drop k ts)).
  { rewrite <- zip_with_app by (rewrite !length_take; lia). by rewrite !take_drop. }
  rewrite E, filter_split.
  - destruct k as [|i]; [done|]. rewrite last_lookup, length_zip_with, !length_take.
    replace (Nat.pred _) with i by lia. rewrite lookup_zip_with, !lookup_take_lt by lia.
    destruct (lookup_lt_is_Some_2 l i ltac:(lia)) as [a Ha]. destruct (lookup_lt_is_Some_2 ts i ltac:(lia)) as [b Hb].
    rewrite Ha, Hb. cbn. by rewrite (nth_lookup_Some _ _ _ _ Ha), (nth_lookup_Some _ _ _ _ Hb).
  - apply Forall_forall. intros [a b] Hin. apply elem_of_zip_l in Hin. rewrite Forall_forall in H1. by apply H1.
  - apply Forall_forall. intros [a b] Hin. apply elem_of_zip_l in Hin. rewrite Forall_forall in H2. cbn. specialize (H2 a Hin). lia.
Qed.

(** What is in force before the first transition. *)
Definition before_all (z : Zone) (t : Z) : Local :=
  match transition_times_ z, footer_ z with
  | [], Some r => rule_local r t
  | [], None => type_local z 0
  | _, _ => type_local z (default 0%nat (first_standard (types_ z) 0))
  end.

(** The binary search of [local_of] finds the last transition at or
    before the instant, whose type decides; the footer rule takes over at
    the last one of the file. *)
Theorem local_of_last_transition z t : zone_ok z ->
  local_of z t =
  match last_before z t with
  | None => before_all z t
  | Some (a, i) =>
      match footer_ z with
      | Some r => if bool_decide (last (transition_times_ z) = Some a) then rule_local r t else type_local z i
      | None => type_local z i
      end
  end.
Proof.
  intros Hz. rewrite (last_before_eq z t Hz). unfold local_of, before_all. pose proof (zo_times _ Hz) as Hs.
  pose proof (upper_bound_le (transition_times_ z) t) as Hle.
  destruct (transition_times_ z) as [|front l] eqn:E; [by destruct (footer_ z)|]. cbn [upper_bound] in *. destruct (Z.leb_spec front t) as [Ht|Ht].
  - rewrite (proj2 (Z.ltb_ge t front)) by done. rewrite Nat.sub_succ, Nat.sub_0_r. destruct (footer_ z) as [r|]; [|done].
    set (i := upper_bound l t) in *. replace (bool_decide _) with (i + 1 =? length (front :: l))%nat; [done|].
    destruct (lookup_lt_is_Some_2 (front :: l) i ltac:(cbn in *; lia)) as [a Ha]. rewrite (nth_lookup_Some _ _ _ _ Ha).
    rewrite last_lookup. cbn [length Nat.pred] in *. destruct (Nat.eqb_spec (i + 1) (S (length l))) as [Hi|Hi].
    + rewrite bool_decide_true; [done|]. by replace (length l) with i by lia.
    + rewrite bool_decide_false; [done|]. intros Hlast.
      assert (StronglySorted Z.lt (front :: l)) by done.
      assert (a < a); [|lia]. eapply (StronglySorted_app_1_elem_of Z.lt (take (S i) (front :: l)) (drop (S i) (front :: l))).
      * by rewrite take_drop.
      * eapply (list_elem_of_lookup_2 _ i). rewrite lookup_take_lt by lia. exact Ha.
      * eapply (list_elem_of_lookup_2 _ (length l - S i)). rewrite lookup_drop. by replace (S i + (length l - S i))%nat with (length l) by lia.
  - rewrite (proj2 (Z.ltb_lt t front)) by done. done.
Qed.

(** ** Rule dates *)

Lemma weekday_of_mod z : weekday_of z = (z + 4) mod 7.
Proof.
  unfold weekday_of, weekday_of_day. destruct (_ <? 0) eqn:?; breflect; Z.to_euclidean_division_equations; lia.
Qed.
Lemma days_of_month y m : 1 <= m <= 12 ->
  nth (Z.to_nat (m - 1)) days_of_months 0 + (if (m =? 2) && tz_leap y then 1 else 0) = month_length y m.
Proof.
  intros Hm. apply (month_cases m (fun m => nth (Z.to_nat (m - 1)) days_of_months 0 + (if (m =? 2) && tz_leap y then 1 else 0)
    = month_length y m)); [done|]. repeat apply Forall_cons_2; try apply Forall_nil_2; unfold tz_leap, month_length; generalize (leap y); intros []; reflexivity.
Qed.
Lemma day_of_month y m k : 1 <= m <= 12 -> days_from_civil y m k = days_from_civil y m 1 + k - 1.
Proof. intros. rewrite !days_from_civil_eq by done. lia. Qed.

(** The loop that steps back by weeks ends within its fuel, on the first day
    that is not past [last]. *)
Lemma clamp_enough fuel : forall day last, day <= last + 7 * Z.of_nat fuel ->
  clamp fuel day last <= last /\ (clamp fuel day last - day) mod 7 = 0
  /\ (clamp fuel day last = day \/ (last < day /\ last < clamp fuel day last + 7)).
Proof.
  induction fuel as [|fuel IH]; intros day last H; cbn [clamp].
  - split_and!; [lia|by rewrite Z.sub_diag|by left].
  - destruct (Z.ltb_spec last day) as [Hl|Hl]; [|split_and!; [lia|by rewrite Z.sub_diag|by left]].
    destruct (IH (day - 7) last ltac:(lia)) as (H1 & H2 & H3). split_and!; [done| |right].
    + replace (clamp fuel (day - 7) last - day) with (clamp fuel (day - 7) last - (day - 7) + (-1) * 7) by lia.
      by rewrite Z_mod_plus_full.
    + destruct H3 as [->|?]; lia.
Qed.

Lemma week_rule_day year d : kind d = MonthWeekDay -> rule_date_ok d ->
  exists k, 1 <= k <= month_length year (month d) /\ rule_day year d = days_from_civil year (month d) k
    /\ weekday_of (rule_day year d) = weekday d
    /\ (if week d =? 5 then month_length year (month d) - 7 < k else 7 * (week d - 1) < k <= 7 * week d).
Proof.
  intros Hk Hd. unfold rule_date_ok in Hd. rewrite Hk in Hd. destruct Hd as (Hm & Hw & Hwd). unfold rule_day. rewrite Hk.
  unfold tz_days_from_civil. set (first := days_from_civil year (month d) 1). pose proof (weekday_of_mod first) as Ewd.
  set (delta := if weekday d - weekday_of first <? 0 then _ else _).
  assert (Hdelta : 0 <= delta < 7 /\ (first + delta + 4) mod 7 = weekday d).
  { unfold delta. clearbody first. destruct (_ <? 0) eqn:E; breflect; rewrite Ewd in *; Z.to_euclidean_division_equations; lia. }
  destruct Hdelta as [Hdelta Emod]. clearbody delta.
  pose proof (days_of_month year (month d) Hm) as Hlen. pose proof (month_length_bounds year (month d)) as Hb.
  set (last := first + _ + _ - 1). assert (Hlast : last = first + month_length year (month d) - 1) by (unfold last; rewrite <- Hlen; lia).
  clearbody last. set (day := first + delta + (week d - 1) * 7).
  destruct (clamp_enough 5 day last ltac:(unfold day; lia)) as (H1 & H2 & H3). set (D := clamp 5 day last) in *. clearbody D.
  assert (HD : first <= D). { destruct H3 as [->|?]; unfold day; lia. }
  exists (D - first + 1). split_and!; [lia|lia| | |].
  - rewrite (day_of_month year (month d) (D - first + 1)) by done. fold first. lia.
  - rewrite weekday_of_mod. unfold day in H2. clear -H2 Emod Hdelta Hwd. Z.to_euclidean_division_equations. lia.
  - destruct (Z.eqb_spec (week d) 5) as [E5|E5].
    + destruct H3 as [->|?]; [|lia]. unfold day. lia.
    + destruct H3 as [->|[H3 _]]; unfold day in *; lia.
Qed.

Lemma julian_rule_day year d : kind d = JulianNoLeap -> rule_date_ok d ->
  forall y0 m k, leap y0 = false -> valid_date y0 m k -> days_from_civil y0 m k - days_from_civil y0 1 1 = day d - 1 ->
  rule_day year d = days_from_civil year m k.
Proof.
  intros Hk Hd y0 m k Hl [Hm Hv] E. unfold rule_date_ok in Hd. rewrite Hk in Hd. unfold rule_day, tz_leap, tz_days_from_civil. rewrite Hk.
  rewrite (day_of_month year m k) by done. rewrite (day_of_month y0 m k) in E by done.
  assert (Hml : month_length y0 m <= 31) by apply month_length_bounds.
  assert (H28 : m = 2 -> k <= 28) by (intros ->; cbn in Hv; rewrite Hl in Hv; lia). apply leap_false in Hl.
  revert Hl E H28 Hv. apply (month_cases m (fun m => _ -> _ - days_from_civil y0 1 1 = day d - 1 -> (m = 2 -> k <= 28) -> _ -> _)); [done|].
  all: repeat apply Forall_cons_2; try apply Forall_nil_2; intros Hl E H28 Hv; rewrite !days_from_civil_eq in * by lia;
    cbn -[Z.div Z.add Z.mul Z.sub] in *; (destruct (leap year) eqn:Hly; [apply leap_true in Hly|apply leap_false in Hly]);
    destruct (60 <=? day d) eqn:H60; breflect; cbn -[Z.div Z.add Z.mul Z.sub]; Z.to_euclidean_division_equations; lia.
Qed.

(** The day a rule names.  [Mm.w.d] is the day of month m that falls on
    weekday d, the w-th such day for w below 5 and the last one for 5; [Jn]
    is the date that is the n-th day of a year without a leap day; [n] counts
    days from the first of January. *)
Theorem rule_day_spec year d : rule_date_ok d ->
  match kind d with
  | MonthWeekDay =>
      exists k, 1 <= k <= month_length year (month d) /\ rule_day year d = days_from_civil year (month d) k
      /\ weekday_of (rule_day year d) = weekday d
      /\ (if week d =? 5 then month_length year (month d) - 7 < k else 7 * (week d - 1) < k <= 7 * week d)
  | JulianNoLeap =>
      forall y0 m k, leap y0 = false -> valid_date y0 m k -> days_from_civil y0 m k - days_from_civil y0 1 1 = day d - 1 ->
      rule_day year d = days_from_civil year m k
  | JulianZeroBased => rule_day year d = days_from_civil year 1 1 + day d
  end.
Proof.
  intros Hd. destruct (kind d) eqn:Hk; [by apply week_rule_day|by apply julian_rule_day|]. unfold rule_day. by rewrite Hk.
Qed.

(** ** The rule in force *)

Definition jan1 (y : Z) : Z := days_from_civil y 1 1 * 86400.

Definition year_of (s : Z) : Z := fst (fst (civil_from_days (s / 86400))).
Lemma year_of_instant_eq s : year_of_instant s = to_int (year_of s).
Proof.
  unfold year_of_instant, year_of, civil_from_days. cbv zeta.
  assert (E : (if 0 <=? s then s else s - 86399) `quot` 86400 = s / 86400).
  { destruct (0 <=? s) eqn:?; breflect; Z.to_euclidean_division_equations; lia. }
  by rewrite E.
Qed.
Lemma year_of_bounds s : jan1 (year_of s) <= s < jan1 (year_of s + 1).
Proof.
  unfold year_of, jan1. pose proof (civil_from_days_correct (s / 86400)) as Hc. destruct (civil_from_days (s / 86400)) as [[y m] d].
  destruct Hc as [Hv E]. cbn [fst]. pose proof (days_from_civil_year y m d Hv). rewrite E in *. Z.to_euclidean_division_equations. lia.
Qed.
Lemma jan1_mono y y' : y <= y' -> jan1 y <= jan1 y'.
Proof. unfold jan1. intros H. pose proof (days_from_civil_mono y y' H). lia. Qed.
Lemma year_length y : 365 <= days_from_civil (y + 1) 1 1 - days_from_civil y 1 1 <= 366.
Proof.
  rewrite !days_from_civil_eq by lia. simpl. replace (y + 1 - 1) with y by lia.
  destruct (leap y) eqn:Hl; [apply leap_true in Hl|apply leap_false in Hl]; Z.to_euclidean_division_equations; lia.
Qed.
Lemma days_near y : Z.abs (days_from_civil y 1 1 - 365 * y) <= Z.abs y + 800000.
Proof. rewrite days_from_civil_eq by lia. simpl. Z.to_euclidean_division_equations. lia. Qed.
Lemma year_small y s : jan1 y <= s < jan1 (y + 1) -> Z.abs s <= 36028797018963968 -> Z.abs y < 2147483646.
Proof.
  unfold jan1. intros Hb Hs. pose proof (days_near y) as H1. pose proof (days_near (y + 1)) as H2.
  generalize dependent (days_from_civil y 1 1). generalize dependent (days_from_civil (y + 1) 1 1). intros. lia.
Qed.

(** A rule that takes effect a month or more away from the turn of the year. *)
Definition mid_year (d : RuleDate) : Prop :=
  match kind d with MonthWeekDay => 2 <= month d <= 11 | _ => 32 <= day d <= 334 end /\ Z.abs (time d) <= 167 * 3600 + 3599.

Lemma mid_month_bounds year m k : 2 <= m <= 11 -> 1 <= k <= month_length year m ->
  days_from_civil year 1 1 + 31 <= days_from_civil year m k /\ days_from_civil year m k + 31 <= days_from_civil (year + 1) 1 1.
Proof.
  intros Hm Hk. assert (Hk' : 1 <= k <= match m with 4 | 6 | 9 | 11 => 30 | 2 => 29 | _ => 31 end).
  { revert Hk. unfold month_length. repeat case_match; lia. }
  clear Hk. assert (Hm' : 1 <= m <= 12) by lia. revert Hm Hk'.
  apply (month_cases m (fun m => 2 <= m <= 11 -> 1 <= k <= match m with 4 | 6 | 9 | 11 => 30 | 2 => 29 | _ => 31 end ->
    days_from_civil year 1 1 + 31 <= days_from_civil year m k /\ days_from_civil year m k + 31 <= days_from_civil (year + 1) 1 1)); [done|].
  repeat apply Forall_cons_2; try apply Forall_nil_2; intros Hm Hk; try lia; rewrite !days_from_civil_eq by lia;
    cbn -[Z.div Z.add Z.mul Z.sub]; Z.to_euclidean_division_equations; lia.
Qed.
Lemma mid_year_bounds year d : rule_date_ok d -> mid_year d ->
  days_from_civil year 1 1 + 31 <= rule_day year d /\ rule_day year d + 30 <= days_from_civil (year + 1) 1 1.
Proof.
  intros Hd [Hm _]. destruct (kind d) eqn:Hk.
  - destruct (week_rule_day year d Hk Hd) as (k & Hk' & -> & _). pose proof (mid_month_bounds year (month d) k Hm Hk'). lia.
  - unfold rule_day, tz_days_from_civil. rewrite Hk. pose proof (year_length year). destruct (_ && _); lia.
  - unfold rule_day, tz_days_from_civil. rewrite Hk. pose proof (year_length year). lia.
Qed.
(** So on a standard-time clock the change falls in its own year. *)
Lemma transition_in_year year d before utoff : rule_date_ok d -> mid_year d -> Z.abs before <= 25 * 3600 -> Z.abs utoff <= 25 * 3600 ->
  jan1 year < rule_transition year d before + utoff < jan1 (year + 1).
Proof.
  intros Hd Hm Hb Hu. pose proof (mid_year_bounds year d Hd Hm). destruct Hm as [_ Ht]. unfold rule_transition, jan1. lia.
Qed.

#[local] Instance pair_le_trans : Transitive pair_le.
Proof. intros [a []] [b []] [c []]; unfold pair_le; cbn; intuition lia. Qed.
#[local] Instance pair_le_total : Total pair_le.
Proof. intros [a p] [b q]. unfold pair_le. cbn. destruct (Z.lt_trichotomy a b) as [?|[->|?]]; [by left; left| |by right; left].
  destruct p, q; [left|right|left|left]; right; done. Qed.

(** The loop keeps the last pair at or before the instant. *)
Lemma fold_latest instant l : forall acc, StronglySorted pair_le l ->
  let b := fold_left (fun acc '(t, d) => if t <=? instant then d else acc) l acc in
  (Forall (fun p => instant < fst p) l /\ b = acc)
  \/ exists p, p ∈ l /\ fst p <= instant /\ b = snd p /\ forall p', p' ∈ l -> fst p' <= instant -> pair_le p' p.
Proof.
  induction l as [|[t d] l IH]; intros acc Hs; cbn [fold_left]; [by left|]. apply StronglySorted_inv in Hs as [Hs Hf].
  rewrite Forall_forall in Hf. destruct (Z.leb_spec t instant) as [Ht|Ht].
  - right. destruct (IH d Hs) as [[Hn Hb]|(p & Hp & Hle & Hb & Hall)].
    + exists (t, d). split_and!; [by left|done|done|]. intros p' Hp' Hle. rewrite Forall_forall in Hn. apply elem_of_cons in Hp' as [->|Hp'].
      * right. done.
      * specialize (Hn p' Hp'). lia.
    + exists p. split_and!; [by right|done|done|]. intros p' Hp' Hle'. apply elem_of_cons in Hp' as [->|Hp']; [by apply Hf|by apply Hall].
  - destruct (IH acc Hs) as [[Hn Hb]|(p & Hp & Hle & Hb & Hall)].
    + left. split; [by constructor|done].
    + right. exists p. split_and!; [by right|done|done|]. intros p' Hp' Hle'. apply elem_of_cons in Hp' as [->|Hp']; [cbn in Hle'; lia|by apply Hall].
Qed.

(** The change that decides at an instant: the latest of all years that is
    not after it. *)
Definition decides (r : PosixRule) (d : LocalTimeType) (instant : Z) (p : Z * bool) : Prop :=
  (exists y, p ∈ rule_pairs r d [y]) /\ fst p <= instant
  /\ forall y p', p' ∈ rule_pairs r d [y] -> fst p' <= instant -> pair_le p' p.

Lemma rule_pairs_elem r d ys p : p ∈ rule_pairs r d ys <-> exists y, y ∈ ys /\ p ∈ rule_pairs r d [y].
Proof.
  unfold rule_pairs. induction ys as [|y ys IH]; cbn [map concat].
  - split; [by intros ?%not_elem_of_nil|by intros (y & ?%not_elem_of_nil & _)].
  - rewrite elem_of_app, IH. split.
    + intros [H|(y' & Hy & H)]; [exists y; split; [by left|]; by rewrite app_nil_r|exists y'; split; [by right|done]].
    + intros (y' & Hy & H). apply elem_of_cons in Hy as [->|Hy]; [left; by rewrite app_nil_r in H|right; by exists y'].
Qed.

(** The footer rule: the three years that [rule_local] looks at are
    enough.  For a rule whose changes are a month or more from the turn of
    the year, the change that decides is the latest of all years. *)
Theorem rule_local_latest r d instant :
  posix_ok r -> dst r = Some d -> mid_year (start r) -> mid_year (end_ r) ->
  Z.abs (utoff (std r)) <= 25 * 3600 -> Z.abs (utoff d) <= 25 * 3600 -> Z.abs instant <= 2 ^ 54 ->
  exists p, decides r d instant p
    /\ rule_local r instant = if snd p then mkLocal (utoff d) true (abbrev d) else mkLocal (utoff (std r)) false (abbrev (std r)).
Proof.
  intros (_ & _ & Hr) Ed Hms Hme Hs Hd Hi. rewrite Ed in Hr. destruct Hr as (_ & _ & Hrs & Hre).
  unfold rule_local. rewrite Ed. set (s := instant + utoff (std r)). rewrite year_of_instant_eq.
  pose proof (year_of_bounds s) as Hb.
  pose proof (year_small _ _ Hb ltac:(unfold s; lia)) as Hy. rewrite to_int_id by lia.
  set (y := year_of s) in *. clearbody y.
  assert (Hin : forall y' p, p ∈ rule_pairs r d [y'] -> jan1 y' < fst p + utoff (std r) < jan1 (y' + 1)).
  { intros y' p Hp. unfold rule_pairs in Hp. cbn in Hp. rewrite !elem_of_cons in Hp. destruct Hp as [->|[->|Hp%not_elem_of_nil]]; [| |done]; cbn [fst];
      by apply transition_in_year. }
  set (ts := merge_sort pair_le _). assert (Hts : forall p, p ∈ ts <-> exists y', y' ∈ [y - 1; y; y + 1] /\ p ∈ rule_pairs r d [y']).
  { intros p. unfold ts. by rewrite merge_sort_Permutation, rule_pairs_elem. }
  set (p0 := (rule_transition (y - 1) (start r) (utoff (std r)), true)).
  assert (Hp0 : p0 ∈ rule_pairs r d [y - 1]) by (by left).
  assert (Hp0' : p0 ∈ ts). { apply Hts. exists (y - 1). split; [by left|done]. }
  pose proof (Hin _ _ Hp0) as Hb0. replace (y - 1 + 1) with y in Hb0 by lia.
  destruct (fold_latest instant ts false) as [[Hn _]|(p & Hp & Hle & -> & Hall)].
  { apply StronglySorted_merge_sort; apply _. }
  { rewrite Forall_forall in Hn. specialize (Hn p0 Hp0'). unfold s in *. lia. }
  exists p. split; [|by destruct (snd p)]. split_and!; [apply Hts in Hp as (y' & _ & ?); by exists y'|done|].
  intros y' p' Hp' Hle'. pose proof (Hin _ _ Hp') as Hb'. destruct (decide (y' ∈ [y - 1; y; y + 1])) as [Hy'|Hy'].
  - apply Hall; [|done]. apply Hts. by exists y'.
  - rewrite !not_elem_of_cons in Hy'. destruct (Z.lt_ge_cases y' (y - 1)) as [Hlt|Hge].
    + trans p0; [|apply Hall; [done|unfold s in *; lia]]. left. pose proof (jan1_mono (y' + 1) (y - 1) ltac:(lia)). lia.
    + pose proof (jan1_mono (y + 1) y' ltac:(lia)). unfold s in *. lia.
Qed.

End Tz.
