(* ===== verification/TzifPosix.v ===== *)
(** Listing the transitions of a zone, and printing its rule.

    [transitions_sound] is about [Zone::transitions]; [posix_roundtrip] shows
    that [Zone::parse_posix] inverts a printer of POSIX TZ strings, for every
    kind of rule date. *)

From stdpp Require Import base numbers list strings sorting.
From S2P Require Import Prelude Bytes Types LocalTime Tzif.
Import Tz.
Open Scope Z_scope.

(** ** Listing transitions *)

Definition at_lt (a b : Transition) : Prop := at_ a < at_ b.
(** What the loops keep true of the transitions collected. *)
Definition collected (z : Zone) (from to : Z) (out : list Transition) : Prop :=
  StronglySorted at_lt out /\ Forall (fun x => from <= at_ x < to /\ after x = local_of z (at_ x)) out.

Lemma collected_snoc z from to out t : collected z from to out -> from <= t < to ->
  Forall (fun x => at_ x < t) out -> collected z from to (out ++ [mkTransition t (local_of z t)]).
Proof.
  intros [Hs Hf] Ht Hl. split.
  - apply StronglySorted_app_2; [|done|by repeat constructor]. intros x1 x2 H1 H2. apply list_elem_of_singleton in H2 as ->.
    rewrite Forall_forall in Hl. by apply Hl.
  - apply Forall_app. split; [done|]. apply Forall_singleton. done.
Qed.
Lemma explicit_loop_collected z from to times : forall prev out, StronglySorted Z.lt times -> collected z from to out ->
  Forall (fun x => Forall (fun t => at_ x < t) times) out -> collected z from to (explicit_loop z from to times prev out).
Proof.
  induction times as [|t times IH]; intros prev out Hs Hc Hl; cbn [explicit_loop]; [done|].
  apply StronglySorted_inv in Hs as [Hs Ht].
  assert (Hl' : Forall (fun x => Forall (fun t => at_ x < t) times) out /\ Forall (fun x => at_ x < t) out).
  { split; (eapply Forall_impl; [exact Hl|]); intros x Hx; by inversion Hx. }
  destruct Hl' as [Hl1 Hl2]. destruct ((t <? from) || (to <=? t)) eqn:E; [by apply IH|]. breflect. apply IH; [done| |].
  - case_bool_decide; [done|]. apply collected_snoc; [done|lia|done].
  - case_bool_decide; [done|]. apply Forall_app. split; [done|]. by repeat constructor.
Qed.
Lemma last_greatest out x t : StronglySorted at_lt out -> last out = Some x -> at_ x < t -> Forall (fun y => at_ y < t) out.
Proof.
  intros Hs Hl Hx. apply last_Some in Hl as [l ->]. apply Forall_app. split; [|by repeat constructor]. apply Forall_forall. intros y Hy.
  assert (at_lt y x) by (eapply (StronglySorted_app_1_elem_of at_lt); [exact Hs|done|by left]). unfold at_lt in *. lia.
Qed.
Lemma rule_loop_collected z from rule_from to times : forall p out, from <= rule_from -> collected z from to out ->
  collected z from to (rule_loop z from rule_from to times p out).
Proof.
  induction times as [|t times IH]; intros p out Hf Hc; cbn [rule_loop]; [done|].
  destruct ((t <? rule_from) || (to <=? t)) eqn:E; [by apply IH|]. breflect. destruct (t <=? _) eqn:E'; [by apply IH|]. breflect.
  apply IH; [done|]. destruct (_ || _); [|done]. apply collected_snoc; [done|lia|]. destruct Hc as [Hs _].
  destruct (last out) as [x|] eqn:El; [by eapply last_greatest|]. apply last_None in El as ->. constructor.
Qed.

Lemma strict_of_perm (l l' : list Transition) : StronglySorted transition_le l' -> l' ≡ₚ l -> NoDup (map at_ l) -> StronglySorted at_lt l'.
Proof.
  intros Hs Hp Hn. rewrite <- Hp in Hn. clear Hp. induction Hs as [|a l' Hs IH Ha]; [constructor|]. cbn in Hn.
  apply NoDup_cons in Hn as [Hna Hn]. constructor; [by apply IH|]. apply Forall_forall. intros x Hx. rewrite Forall_forall in Ha.
  specialize (Ha x Hx). unfold transition_le, at_lt in *. assert (at_ a <> at_ x); [|lia]. intros E. apply Hna. rewrite E.
  by apply (list_elem_of_fmap_2 at_).
Qed.
Lemma strict_nodup l : StronglySorted at_lt l -> NoDup (map at_ l).
Proof.
  induction 1 as [|a l _ IH Ha]; [constructor|]. cbn. constructor; [|done]. intros Hin. apply list_elem_of_fmap in Hin as (x & E & Hx).
  rewrite Forall_forall in Ha. specialize (Ha x Hx). unfold at_lt in Ha. lia.
Qed.

(** [transitions] lists instants of the range in strictly ascending
    order, each with what is in force from then on. *)
Theorem transitions_sound z from to : zone_ok z ->
  StronglySorted (fun a b => at_ a < at_ b) (transitions z from to)
  /\ Forall (fun x => from <= at_ x < to /\ after x = local_of z (at_ x)) (transitions z from to).
Proof.
  intros Hz. unfold transitions. set (out := match footer_ z with Some _ => _ | None => _ end).
  assert (Hc : collected z from to out).
  { assert (He : collected z from to (explicit_loop z from to (transition_times_ z) (local_of z from) [])).
    { apply explicit_loop_collected; [apply Hz|by split; constructor|constructor]. }
    unfold out. destruct (footer_ z) as [r|]; [|done]. destruct (dst r); [|done]. apply rule_loop_collected; [|done].
    destruct (last _); lia. }
  destruct Hc as [Hs Hf]. split.
  - apply (strict_of_perm out); [|apply merge_sort_Permutation|by apply strict_nodup].
    apply StronglySorted_merge_sort; [intros a b c; unfold transition_le; lia|intros a b; unfold transition_le; lia].
  - by rewrite merge_sort_Permutation.
Qed.

(** ** Printing rules *)

Definition show (n : Z) : Bytes :=
  if n <? 10 then [48 + n]
  else if n <? 100 then [48 + n / 10; 48 + n mod 10]
  else [48 + n / 100; 48 + n / 10 mod 10; 48 + n mod 10].
Definition show_hms (v : Z) : Bytes :=
  let a := Z.abs v in
  (if v <? 0 then [45] else []) ++ show (a / 3600)
  ++ (if a mod 3600 =? 0 then []
      else 58 :: show (a / 60 mod 60) ++ (if a mod 60 =? 0 then [] else 58 :: show (a mod 60))).
Definition show_name (n : Bytes) : Bytes := if forallb is_letter n then n else 60 :: n ++ [62].
Definition show_date (d : RuleDate) : Bytes :=
  match kind d with
  | MonthWeekDay => 77 :: show (month d) ++ 46 :: show (week d) ++ 46 :: show (weekday d)
  | JulianNoLeap => 74 :: show (day d)
  | JulianZeroBased => show (day d)
  end ++ (if time d =? 7200 then [] else 47 :: show_hms (time d)).
Definition show_posix (r : PosixRule) : Bytes :=
  show_name (abbrev (std r)) ++ show_hms (- utoff (std r))
  ++ match dst r with
     | None => []
     | Some d =>
         show_name (abbrev d)
         ++ (if utoff d =? utoff (std r) + 3600 then [] else show_hms (- utoff d))
         ++ 44 :: show_date (start r) ++ 44 :: show_date (end_ r)
     end.

(** Names a TZ string can carry, offsets of less than 25 hours, rule times of
    less than a week, and the members a rule does not use at their defaults. *)
Definition name_ok (n : Bytes) : Prop := (3 <= length n)%nat /\ 62 ∉ n.
Definition date_ok (d : RuleDate) : Prop :=
  rule_date_ok d /\ Z.abs (time d) <= 167 * 3600 + 3599
  /\ match kind d with MonthWeekDay => day d = 0 | _ => month d = 0 /\ week d = 0 /\ weekday d = 0 end.
Definition printable (r : PosixRule) : Prop :=
  name_ok (abbrev (std r)) /\ Z.abs (utoff (std r)) < 25 * 3600 /\ is_dst (std r) = false
  /\ match dst r with
     | None => start r = no_rule /\ end_ r = no_rule
     | Some d => name_ok (abbrev d) /\ Z.abs (utoff d) < 25 * 3600 /\ is_dst d = true /\ date_ok (start r) /\ date_ok (end_ r)
     end.

Lemma take_while_app p l rest : Forall (fun b => p b = true) l -> (rest = [] \/ p (peek rest) = false) ->
  take_while p (l ++ rest) = (l, rest).
Proof.
  intros Hl Hr. induction Hl as [|b l Hb _ IH]; cbn [app take_while].
  - destruct Hr as [->|Hr]; [done|]. destruct rest; [done|]. cbn in *. by rewrite Hr.
  - by rewrite Hb, IH.
Qed.

Lemma number_show n rest : 0 <= n < 1000 -> is_digit (peek rest) = false -> number (show n ++ rest) = (Ret (Some n), rest).
Proof.
  intros Hn Hr. assert (Hdig : forall b, 0 <= b < 10 -> is_digit (48 + b) = true).
  { intros b Hb. unfold is_digit. apply andb_true_intro. split; apply Z.leb_le; lia. }
  assert (H : Forall (fun b => is_digit b = true) (show n)
              /\ fold_left (fun out b => to_int (out * 10 + (b - 48))) (show n) 0 = n /\ show n <> []).
  { unfold show. destruct (Z.ltb_spec n 10); [|destruct (Z.ltb_spec n 100)]; cbn [fold_left]; split_and!; try done;
      try (repeat constructor; apply Hdig; Z.to_euclidean_division_equations; lia).
    all: repeat match goal with
         | |- context [to_int ?z] =>
             lazymatch z with context [to_int _] => fail | _ => rewrite (to_int_id z) by (Z.to_euclidean_division_equations; lia) end
         end; Z.to_euclidean_division_equations; lia. }
  destruct H as (Hd & Hf & Hne). unfold number. replace (is_digit (peek (show n ++ rest))) with true.
  - cbn [negb]. rewrite take_while_app; [by rewrite Hf|done|by right].
  - destruct (show n) as [|b l]; [done|]. cbn. by inversion Hd.
Qed.
Lemma number_or_show what n rest : 0 <= n < 1000 -> is_digit (peek rest) = false -> number_or what (show n ++ rest) = (Ret n, rest).
Proof. intros. unfold number_or, bind. by rewrite number_show. Qed.

Lemma bind_ret_eq {S A B} (m : M S A) (k : A -> M S B) s a s' : m s = (Ret a, s') -> bind m k s = k a s'.
Proof. unfold bind. by intros ->. Qed.
Lemma peek_show n rest : 0 <= n < 1000 -> is_digit (peek (show n ++ rest)) = true.
Proof.
  intros Hn. unfold show. destruct (Z.ltb_spec n 10); [|destruct (Z.ltb_spec n 100)]; cbn; unfold is_digit; apply andb_true_intro;
    split; apply Z.leb_le; Z.to_euclidean_division_equations; lia.
Qed.

Lemma is_digit_range b : is_digit b = true -> 48 <= b <= 57.
Proof. unfold is_digit. intros H. breflect. lia. Qed.

(** What follows a time of day: no digit and no colon. *)
Definition ends_time (rest : Bytes) : Prop := is_digit (peek rest) = false /\ peek rest <> 58.

Lemma hms_tail a rest : 0 <= a -> ends_time rest ->
  (let! p := peekM in
   if p =? 58 then
     do! advance in
     let! m := number_or "TZ string: expected minutes" in
     let! p := peekM in
     if p =? 58 then do! advance in let! s := number_or "TZ string: expected seconds" in ret (m, s) else ret (m, 0)
   else ret (0, 0))
    ((if a mod 3600 =? 0 then []
      else 58 :: show (a / 60 mod 60) ++ (if a mod 60 =? 0 then [] else 58 :: show (a mod 60))) ++ rest)
  = (Ret (a / 60 mod 60, a mod 60), rest).
Proof.
  intros Ha [Hd Hc]. rewrite bind_peek. destruct (Z.eqb_spec (a mod 3600) 0) as [E|E].
  - cbn [app]. rewrite (proj2 (Z.eqb_neq _ _) Hc). unfold ret. do 3 f_equal; Z.to_euclidean_division_equations; lia.
  - cbn [app peek]. rewrite Z.eqb_refl. erewrite bind_ret_eq by reflexivity. cbn [tl]. rewrite <- app_assoc.
    assert (0 <= a / 60 mod 60 < 1000) by (Z.to_euclidean_division_equations; lia).
    assert (0 <= a mod 60 < 1000) by (Z.to_euclidean_division_equations; lia).
    destruct (Z.eqb_spec (a mod 60) 0) as [E'|E'].
    + cbn [app]. erewrite bind_ret_eq by (by apply number_or_show). rewrite bind_peek, (proj2 (Z.eqb_neq _ _) Hc). unfold ret. by rewrite E'.
    + erewrite bind_ret_eq by (by apply number_or_show). rewrite bind_peek. cbn [app peek]. rewrite Z.eqb_refl.
      erewrite bind_ret_eq by reflexivity. cbn [tl]. erewrite bind_ret_eq by (by apply number_or_show). done.
Qed.
Lemma hms_tail_start a rest : ends_time rest ->
  is_digit (peek ((if a mod 3600 =? 0 then []
      else 58 :: show (a / 60 mod 60) ++ (if a mod 60 =? 0 then [] else 58 :: show (a mod 60))) ++ rest)) = false.
Proof. intros [Hd _]. by destruct (_ =? 0). Qed.

Lemma parse_hms_show max v rest : 0 <= max < 1000 -> Z.abs v <= max * 3600 + 3599 -> ends_time rest ->
  parse_hms max (show_hms v ++ rest) = (Ret v, rest).
Proof.
  intros Hm Hv Hr. unfold parse_hms, show_hms. set (a := Z.abs v) in *. set (tail := if a mod 3600 =? 0 then _ else _).
  pose proof (hms_tail_start a rest Hr) as Hts. pose proof (hms_tail a rest ltac:(unfold a; lia) Hr) as Ht. fold tail in Hts, Ht.
  assert (Hh : 0 <= a / 3600 <= max) by (unfold a in *; Z.to_euclidean_division_equations; lia).
  rewrite bind_peek, <- !app_assoc.
  assert (Hsign : (if peek ((if v <? 0 then [45] else []) ++ show (a / 3600) ++ tail ++ rest) =? 43 then do! advance in ret 1
     else if peek ((if v <? 0 then [45] else []) ++ show (a / 3600) ++ tail ++ rest) =? 45 then do! advance in ret (-1) else ret 1)
     ((if v <? 0 then [45] else []) ++ show (a / 3600) ++ tail ++ rest)
     = (Ret (if v <? 0 then -1 else 1), show (a / 3600) ++ tail ++ rest)).
  { destruct (v <? 0); [done|]. cbn [app]. pose proof (is_digit_range _ (peek_show (a / 3600) (tail ++ rest) ltac:(lia))) as Hp.
    rewrite (proj2 (Z.eqb_neq _ 43)), (proj2 (Z.eqb_neq _ 45)) by lia. done. }
  erewrite bind_ret_eq by exact Hsign. erewrite bind_ret_eq by (apply number_or_show; [lia|exact Hts]).
  match goal with |- bind peekM (fun p => bind _ ?k) ?st = _ => change (bind (bind peekM (fun p =>
     if p =? 58 then
     do! advance in
     let! m := number_or "TZ string: expected minutes" in
     let! p := peekM in
     if p =? 58 then do! advance in let! s := number_or "TZ string: expected seconds" in ret (m, s) else ret (m, 0)
     else ret (0, 0))) k st = (Ret v, rest)) end.
  erewrite bind_ret_eq by exact Ht. cbv beta iota.
  rewrite (proj2 (Z.ltb_ge max _)), (proj2 (Z.ltb_ge 59 _)), (proj2 (Z.ltb_ge 59 _)) by (Z.to_euclidean_division_equations; lia).
  cbn [orb]. unfold ret. do 2 f_equal. unfold a. destruct (Z.ltb_spec v 0); Z.to_euclidean_division_equations; lia.
Qed.

Lemma parse_name_show n rest : name_ok n -> rest = [] \/ is_letter (peek rest) = false -> parse_name (show_name n ++ rest) = (Ret n, rest).
Proof.
  intros [Hl Hn] Hr. unfold parse_name, show_name. unfold bind. destruct (forallb is_letter n) eqn:E.
  - assert (Hf : Forall (fun b => is_letter b = true) n) by (apply Forall_forall; intros b Hb; rewrite forallb_forall in E; by apply E, list_elem_of_In).
    assert (Hp : peek (n ++ rest) =? 60 = false).
    { destruct n as [|b n]; [cbn in Hl; lia|]. cbn. inversion Hf as [|? ? Hb]; subst. apply Z.eqb_neq. intros ->. done. }
    rewrite Hp, take_while_app by done. rewrite (proj2 (Nat.ltb_ge _ _)) by lia. done.
  - cbn [app peek tl]. rewrite Z.eqb_refl, <- app_assoc. rewrite take_while_app.
    + cbn [app peek tl]. rewrite Z.eqb_refl. cbn [negb]. rewrite (proj2 (Nat.ltb_ge _ _)) by lia. done.
    + apply Forall_forall. intros b Hb. apply negb_true_iff, Z.eqb_neq. intros ->. done.
    + by right.
Qed.
Lemma show_name_start n rest : name_ok n -> ends_time (show_name n ++ rest) /\ done (show_name n ++ rest) = false.
Proof.
  intros [Hl _]. unfold show_name, ends_time. destruct (forallb is_letter n) eqn:E; [|done]. destruct n as [|b n]; [cbn in Hl; lia|].
  cbn in E |- *. apply andb_true_iff in E as [Hb _]. unfold is_letter in Hb. split; [|done]. unfold is_digit.
  apply orb_true_iff in Hb. split; [apply andb_false_iff; rewrite !Z.leb_gt|]; destruct Hb as [Hb|Hb]; breflect; lia.
Qed.
Lemma show_hms_start v rest : Z.abs v <= 1000 * 3600 - 1 -> is_letter (peek (show_hms v ++ rest)) = false /\ peek (show_hms v ++ rest) <> 44
  /\ done (show_hms v ++ rest) = false.
Proof.
  intros Hv. unfold show_hms. destruct (v <? 0); [done|]. cbn [app]. rewrite <- !app_assoc.
  set (r := (if _ =? 0 then [] else _) ++ rest). pose proof (peek_show (Z.abs v / 3600) r ltac:(Z.to_euclidean_division_equations; lia)) as Hp.
  destruct (show (Z.abs v / 3600) ++ r) as [|b l]; [done|]. cbn in *. apply is_digit_range in Hp. unfold is_letter.
  split_and!; [|lia|done]. apply orb_false_iff. rewrite !andb_false_iff, !Z.leb_gt. lia.
Qed.

(** What follows a rule date: the end or a comma. *)
Definition ends_date (rest : Bytes) : Prop := rest = [] \/ peek rest = 44.
Lemma ends_date_time rest : ends_date rest -> ends_time rest /\ peek rest <> 47.
Proof. intros [->|E]; [done|]. unfold ends_time. by rewrite E. Qed.

Lemma number_dot_show n rest : 0 <= n < 1000 -> number_dot (show n ++ 46 :: rest) = (Ret n, rest).
Proof. intros Hn. unfold number_dot. erewrite bind_ret_eq by (by apply number_or_show). done. Qed.

Lemma parse_rule_date_show d rest : date_ok d -> ends_date rest -> parse_rule_date (show_date d ++ rest) = (Ret d, rest).
Proof.
  intros (Hd & Ht & Hn) Hr. apply ends_date_time in Hr as [Htime Hslash].
  set (tail := (if time d =? 7200 then [] else 47 :: show_hms (time d)) ++ rest).
  assert (Htail : is_digit (peek tail) = false).
  { unfold tail. destruct (_ =? 7200); [apply Htime|done]. }
  assert (Hrest : forall d0, kind d0 = kind d -> month d0 = month d -> week d0 = week d -> weekday d0 = weekday d -> day d0 = day d -> time d0 = 7200 ->
    (let! p := peekM in
     if p =? 47 then do! advance in let! t := parse_hms 167 in ret (mkRule (kind d0) (month d0) (week d0) (weekday d0) (day d0) t)
     else ret d0) tail = (Ret d, rest)).
  { intros d0 E1 E2 E3 E4 E5 E6. rewrite bind_peek. unfold tail. destruct (Z.eqb_spec (time d) 7200) as [E|E].
    - cbn [app]. rewrite (proj2 (Z.eqb_neq _ _) Hslash). unfold ret. destruct d0, d; cbn in *; by subst.
    - cbn [app peek]. rewrite Z.eqb_refl. erewrite bind_ret_eq by reflexivity. cbn [tl].
      erewrite bind_ret_eq by (apply parse_hms_show; [lia|lia|done]). rewrite E1, E2, E3, E4, E5. by destruct d. }
  unfold parse_rule_date, show_date. rewrite <- app_assoc. fold tail. rewrite bind_peek. destruct d as [kd mo we wd dy ti]. cbn [kind month week weekday day time] in *.
  destruct kd; cbn in Hd.
  - cbn [app peek]. rewrite Z.eqb_refl, <- !app_assoc. cbn [app]. rewrite <- !app_assoc. cbn [app].
    erewrite bind_ret_eq.
    2: { erewrite bind_ret_eq by reflexivity. cbn [tl]. erewrite bind_ret_eq by (apply number_dot_show; lia).
         erewrite bind_ret_eq by (apply number_dot_show; lia). erewrite bind_ret_eq by (apply number_or_show; [lia|done]).
         rewrite (proj2 (Z.ltb_ge mo 1)), (proj2 (Z.ltb_ge 12 mo)), (proj2 (Z.ltb_ge we 1)), (proj2 (Z.ltb_ge 5 we)), (proj2 (Z.ltb_ge wd 0)),
           (proj2 (Z.ltb_ge 6 wd)) by lia. reflexivity. }
    by apply Hrest.
  - destruct Hn as (-> & -> & ->). cbn [app peek]. change (74 =? 77) with false. change (74 =? 74) with true. cbv iota.
    erewrite bind_ret_eq.
    2: { erewrite bind_ret_eq by reflexivity. cbn [tl]. erewrite bind_ret_eq by (apply number_or_show; [lia|done]).
         rewrite (proj2 (Z.ltb_ge dy 1)), (proj2 (Z.ltb_ge 365 dy)) by lia. reflexivity. }
    by apply Hrest.
  - destruct Hn as (-> & -> & ->). pose proof (is_digit_range _ (peek_show dy tail ltac:(lia))) as Hp.
    rewrite (proj2 (Z.eqb_neq _ 77)), (proj2 (Z.eqb_neq _ 74)) by lia.
    erewrite bind_ret_eq.
    2: { erewrite bind_ret_eq by (apply number_or_show; [lia|done]). rewrite (proj2 (Z.ltb_ge dy 0)), (proj2 (Z.ltb_ge 365 dy)) by lia. reflexivity. }
    by apply Hrest.
Qed.

Lemma to_int_neg_neg v : Z.abs v < 25 * 3600 -> to_int (- - v) = v.
Proof. intros. rewrite Z.opp_involutive. apply to_int_id. lia. Qed.

(** [C34] [parse_posix] reads every POSIX TZ string it should: a rule that is
    printed as such a string, with quoted names, fractional offsets and any
    of the three kinds of dates, is read back as it was. *)
Theorem posix_roundtrip r : printable r -> parse_posix (show_posix r) = Ret r.
Proof.
  intros (Hn & Ho & Hd & Hr). destruct r as [[so sd sn] dr st en]. cbn [std dst start end_ utoff is_dst abbrev] in *. subst sd.
  unfold parse_posix. enough (parse_posix_body (show_posix (mkPosix (mkType so false sn) dr st en))
    = (Ret (mkPosix (mkType so false sn) dr st en), [])) as -> by done.
  unfold parse_posix_body, show_posix. cbn [std dst start end_ utoff is_dst abbrev].
  set (tail := match dr with Some _ => _ | None => _ end).
  assert (Htail : ends_time tail).
  { unfold tail. destruct dr as [d|]; [|done]. destruct Hr as (? & _). by apply show_name_start. }
  destruct (show_hms_start (- so) tail ltac:(lia)) as (Hs1 & _ & _).
  erewrite bind_ret_eq by (apply parse_name_show; [done|by right]).
  erewrite bind_ret_eq by (apply parse_hms_show; [lia|lia|done]). rewrite to_int_neg_neg by lia. cbv zeta.
  unfold tail. clear Htail Hs1 tail. destruct dr as [[dof dd dn]|].
  - destruct Hr as (Hdn & Hdo & Hdd & Hst & Hen). cbn [utoff is_dst abbrev] in *. subst dd.
    set (dates := 44 :: show_date st ++ 44 :: show_date en). set (offs := if dof =? so + 3600 then [] else show_hms (- dof)).
    assert (Hoffs : (offs ++ dates = [] \/ is_letter (peek (offs ++ dates)) = false)).
    { right. unfold offs. destruct (_ =? _); [done|]. apply show_hms_start. lia. }
    destruct (show_name_start dn (offs ++ dates) Hdn) as [_ Hdone].
    erewrite bind_ret_eq by (unfold doneM; rewrite Hdone; reflexivity). cbv iota.
    erewrite bind_ret_eq by (by apply parse_name_show). erewrite bind_ret_eq by reflexivity. rewrite bind_peek.
    assert (Hoff : (if negb (done (offs ++ dates)) && negb (peek (offs ++ dates) =? 44) then let! off := parse_hms 24 in ret (to_int (- off))
              else ret (to_int (so + 3600))) (offs ++ dates) = (Ret dof, dates)).
    { unfold offs. destruct (Z.eqb_spec dof (so + 3600)) as [E|E].
      - cbn [app]. unfold dates at 1 2. cbn [done peek]. rewrite Z.eqb_refl. cbn [negb andb]. unfold ret. rewrite to_int_id by lia. by subst.
      - destruct (show_hms_start (- dof) dates ltac:(lia)) as (_ & Hc & ->). rewrite (proj2 (Z.eqb_neq _ _) Hc). cbn [negb andb].
        erewrite bind_ret_eq by (apply parse_hms_show; [lia|lia|done]). unfold ret. by rewrite to_int_neg_neg by lia. }
    erewrite bind_ret_eq by exact Hoff. unfold dates. erewrite bind_ret_eq by reflexivity. cbn [tl].
    erewrite bind_ret_eq by (apply parse_rule_date_show; [done|by right]). erewrite bind_ret_eq by reflexivity. cbn [tl].
    rewrite <- (app_nil_r (show_date en)). erewrite bind_ret_eq by (apply parse_rule_date_show; [done|by left]). done.
  - destruct Hr as [-> ->]. done.
Qed.

(** ** Examples *)

(** EST5EDT,M3.2.0,M11.1.0 *)
Definition eastern : PosixRule :=
  mkPosix (mkType (-18000) false [69; 83; 84]) (Some (mkType (-14400) true [69; 68; 84]))
    (mkRule MonthWeekDay 3 2 0 0 7200) (mkRule MonthWeekDay 11 1 0 0 7200).
Lemma posix_roundtrip_witness :
  show_posix eastern = [69;83;84;53;69;68;84;44;77;51;46;50;46;48;44;77;49;49;46;49;46;48]
  /\ parse_posix (show_posix eastern) = Ret eastern.
Proof.
  split; [reflexivity|]. apply (posix_roundtrip eastern). unfold printable, date_ok, rule_date_ok, name_ok. cbn.
  split_and!; try lia; try done; apply (bool_decide_unpack _); reflexivity.
Defined.

(** A zone with one transition, a year of fixed offset and the rule. *)
Definition new_york : Zone := mkZone 2 [1000] [1%nat] [mkType (-17762) false [76; 77; 84]; mkType (-18000) false [69; 83; 84]] (Some eastern).
Lemma new_york_ok : zone_ok new_york.
Proof.
  constructor; cbn; unfold posix_ok, rule_date_ok, i32_ok; cbn; repeat first [apply Forall_cons_2 | apply Forall_nil_2 | apply SSorted_cons
    | apply SSorted_nil | apply conj]; cbn; try lia; done.
Defined.

Lemma transitions_sound_witness :
  map at_ (transitions new_york 1700000000 1731000000) = [1710054000; 1730613600]
  /\ Forall (fun x => 1700000000 <= at_ x < 1731000000 /\ after x = local_of new_york (at_ x)) (transitions new_york 1700000000 1731000000).
Proof. split; [vm_compute; reflexivity|]. exact (proj2 (transitions_sound new_york 1700000000 1731000000 new_york_ok)). Defined.

(** Half past one on the third of November 2024 happens twice. *)
Lemma instants_of_exact_witness :
  instants_of new_york 1730597400 = [1730611800; 1730615400]
  /\ (forall t, t ∈ instants_of new_york 1730597400 <-> t + offset (local_of new_york t) = 1730597400).
Proof. split; [vm_compute; reflexivity|]. exact (proj2 (instants_of_exact new_york 1730597400 new_york_ok)). Defined.

Lemma local_of_last_transition_witness : local_of new_york 500 = type_local new_york 0.
Proof. rewrite (local_of_last_transition new_york 500 new_york_ok). vm_compute. reflexivity. Defined.

Lemma rule_day_spec_witness : exists k, 1 <= k <= 31 /\ rule_day 2024 (start eastern) = days_from_civil 2024 3 k.
Proof.
  destruct (rule_day_spec 2024 (start eastern) ltac:(cbn; lia)) as (k & Hk & E & _). exists k. split; [exact Hk|exact E].
Defined.

Lemma rule_local_latest_witness : exists p, decides eastern (mkType (-14400) true [69; 68; 84]) 1720000000 p
  /\ rule_local eastern 1720000000 = mkLocal (-14400) true [69; 68; 84].
Proof.
  destruct (rule_local_latest eastern (mkType (-14400) true [69; 68; 84]) 1720000000) as (p & Hp & _).
  - unfold posix_ok, rule_date_ok, i32_ok. cbn. split_and!; try lia; done.
  - reflexivity.
  - unfold mid_year. cbn. lia.
  - unfold mid_year. cbn. lia.
  - cbn. lia.
  - cbn. lia.
  - lia.
  - exists p. split; [exact Hp|vm_compute; reflexivity].
Defined.

(** A version 1 file with no transitions and one type, UTC. *)
Definition utc_file : Bytes :=
  tzif_magic ++ replicate 16 0 ++ replicate 12 0 ++ [0;0;0;0] ++ [0;0;0;1] ++ [0;0;0;4] ++ [0;0;0;0;0;0] ++ [85; 84; 67; 0].
Lemma parse_zone_ok_witness :
  parse utc_file = Ret (mkZone 1 [] [] [mkType 0 false [85; 84; 67]] None) /\ zone_ok (mkZone 1 [] [] [mkType 0 false [85; 84; 67]] None).
Proof.
  split; [vm_compute; reflexivity|]. apply (parse_zone_ok utc_file); [|vm_compute; reflexivity].
  apply (bool_decide_unpack _). vm_compute. exact I.
Defined.
