(* ===== verification/Store.v ===== *)
(** The typed store (engine/include/archivum/engine/store.h,
    engine/src/engine/store.cpp, from [load_catalog] on): tables, indexes and
    constraints kept in B+trees.

    A [Reader] is its catalog and the pages of its transaction; its methods
    run over any page store and take the catalog as an argument.  A [Writer]
    adds the catalog it edits.  A cursor walk takes [fuel], the number of
    leaves and entries it may visit; [StoreRep] states how much is enough.
    The callback of a scan has the state it captures as an accumulator, which
    an error discards, as every caller in the code does. *)

From stdpp Require Import base numbers list gmap strings.
From S2P Require Import Prelude Bytes PageFormat Types Record StoreSchema BTreeNode BTree.
Open Scope Z_scope.

Definition kVersionKey : Z := 0.
Definition kTableKeyTag : Z := 1.
Definition kCatalogRoot : PageNo := 1.

Definition table_key (name : string) : Bytes := kTableKeyTag :: bytes_of_string name.
Definition starts_with (key prefix : Bytes) : bool :=
  (length prefix <=? length key)%nat && bool_decide (take (length prefix) key = prefix).
Definition key_less (a b : Bytes) : bool := match compare_bytes a b with Lt => true | _ => false end.

Record Bound := mkBound { b_values : Row; inclusive : bool }.

(** * Reader *)

Section reader.
Context {W : Type} `{PageStore W}.
Variable fuel : nat.
(** [writer_ != nullptr]. *)
Variable writer_ : bool.
Variable catalog_ : Catalog.

Definition tree (root : PageNo) : BTree := mkBTree root writer_.

Definition get_by_key (t : TableDef) (pk_key : Bytes) : M W (option Row) :=
  let! v := BTree.get (tree (td_root t)) pk_key in
  match v with
  | None => ret None
  | Some v => let! row := lift (decode_row v) in ret (Some row)
  end.

(** The loop of [get] over the values of a primary key. *)
Fixpoint primary_key_ok (t : TableDef) (values : Row) (columns : list string) : Result unit :=
  match values, columns with
  | v :: values, c :: columns =>
      if is_null v || negb (matches v (col_type (column t c))) then
        invalid_argument ("primary key value " +:+ value_to_string v +:+ " does not match " +:+ c)
      else primary_key_ok t values columns
  | _, _ => Ret tt
  end.
Definition get (table_ : string) (primary_key : Row) : M W (option Row) :=
  match StoreSchema.table catalog_ table_ with
  | None => lift (not_found ("no table " +:+ table_))
  | Some t =>
      if negb (length primary_key =? length (td_primary_key t))%nat then
        lift (invalid_argument ("primary key of " +:+ table_ +:+ " has "
          +:+ to_string (Z.of_nat (length (td_primary_key t))) +:+ " columns"))
      else
        do! lift (primary_key_ok t primary_key (td_primary_key t)) in
        get_by_key t (encode_key primary_key)
  end.

Definition prefix_exists (root : PageNo) (values : Row) : M W bool :=
  let prefix := encode_key values in
  let! c := seek (tree root) fuel prefix cursor0 in
  ret (valid_ c && starts_with (key_ c) prefix).
Definition index_prefix_exists (idx : IndexDef) (values : Row) : M W bool := prefix_exists (ix_root idx) values.

Fixpoint bound_values_ok (t : TableDef) (values : Row) (columns : list string) : Result unit :=
  match values, columns with
  | v :: values, c :: columns =>
      if negb (matches v (col_type (column t c))) then
        invalid_argument ("scan bound " +:+ value_to_string v +:+ " does not match " +:+ col_name (column t c))
      else bound_values_ok t values columns
  | _, _ => Ret tt
  end.
Definition check_bound (t : TableDef) (columns : list string) (b : option Bound) : Result unit :=
  match b with
  | None => Ret tt
  | Some b =>
      if (length columns <? length (b_values b))%nat then invalid_argument "scan bound has too many columns"
      else bound_values_ok t (b_values b) columns
  end.

(** [while (c.valid() && starts_with(c.key(), p)) c.next()] *)
Fixpoint skip_prefix (n : nat) (p : Bytes) (c : Cursor) : M W Cursor :=
  if valid_ c && starts_with (key_ c) p then
    match n with
    | O => lift (corrupt "scan longer than the fuel")
    | S n => let! c := next fuel c in skip_prefix n p c
    end
  else ret c.

Section scan.
Context {A : Type}.
(** The callback: whether to go on, and the captured state. *)
Variable fn : Bytes -> A -> M W (bool * A).

Definition past_upper (upper : option Bound) (key : Bytes) : bool :=
  match upper with
  | None => false
  | Some b =>
      let hi := encode_key (b_values b) in
      if inclusive b then key_less hi key && negb (starts_with key hi) else negb (key_less key hi)
  end.
Definition past_lower (lower : option Bound) (key : Bytes) : bool :=
  match lower with
  | None => false
  | Some b =>
      let lo := encode_key (b_values b) in
      if inclusive b then key_less key lo else key_less key lo || starts_with key lo
  end.

Fixpoint scan_forward (n : nat) (upper : option Bound) (c : Cursor) (a : A) : M W A :=
  if negb (valid_ c) then ret a
  else if past_upper upper (key_ c) then ret a
  else match n with
       | O => lift (corrupt "scan longer than the fuel")
       | S n =>
           let! (go, a) := fn (key_ c) a in
           if negb go then ret a else let! c := next fuel c in scan_forward n upper c a
       end.
Fixpoint scan_backward (n : nat) (lower : option Bound) (c : Cursor) (a : A) : M W A :=
  if negb (valid_ c) then ret a
  else if past_lower lower (key_ c) then ret a
  else match n with
       | O => lift (corrupt "scan longer than the fuel")
       | S n =>
           let! (go, a) := fn (key_ c) a in
           if negb go then ret a else let! c := prev fuel c in scan_backward n lower c a
       end.

Definition key_columns (t : TableDef) (idx : option IndexDef) : list string :=
  match idx with Some idx => ix_columns idx ++ td_primary_key t | None => td_primary_key t end.

Definition scan_raw (t : TableDef) (idx : option IndexDef) (lower upper : option Bound) (reverse : bool) (a : A) : M W A :=
  do! lift (check_bound t (key_columns t idx) lower) in
  do! lift (check_bound t (key_columns t idx) upper) in
  let tr := tree (match idx with Some idx => ix_root idx | None => td_root t end) in
  if negb reverse then
    let! c :=
      (match lower with
       | Some b =>
           let! c := seek tr fuel (encode_key (b_values b)) cursor0 in
           if negb (inclusive b) then skip_prefix fuel (encode_key (b_values b)) c else ret c
       | None => seek_first tr fuel cursor0
       end) in
    scan_forward fuel upper c a
  else
    let! c :=
      (match upper with
       | Some b =>
           let! c := seek tr fuel (encode_key (b_values b)) cursor0 in
           let! c := (if inclusive b then skip_prefix fuel (encode_key (b_values b)) c else ret c) in
           if valid_ c then prev fuel c else seek_last tr c
       | None => seek_last tr cursor0
       end) in
    scan_backward fuel lower c a.
End scan.

(** The row of a key of the table or of an index. *)
Definition scan_row (t : TableDef) (idx : option IndexDef) (key : Bytes) : M W Row :=
  let! row_bytes :=
    (match idx with
     | Some idx =>
         let! (_, pk_key) := lift (decode_key key (types_of t (ix_columns idx)) []) in
         let! v := BTree.get (tree (td_root t)) pk_key in
         lift (match v with Some b => Ret b | None => corrupt ("index " +:+ ix_name idx +:+ " entry without a row") end)
     | None =>
         let! v := BTree.get (tree (td_root t)) key in
         lift (match v with Some b => Ret b | None => corrupt "row vanished during scan" end)
     end) in
  lift (decode_row row_bytes).

Definition scan {A} (table_ index_ : string) (lower upper : option Bound) (reverse : bool) (fn : Row -> A -> bool * A) (a : A) : M W A :=
  match StoreSchema.table catalog_ table_ with
  | None => lift (not_found ("no table " +:+ table_))
  | Some t =>
      let! idx := lift (if String.eqb index_ "" then Ret None
                        else match StoreSchema.index t index_ with
                             | Some idx => Ret (Some idx)
                             | None => not_found ("no index " +:+ index_ +:+ " on " +:+ table_)
                             end) in
      scan_raw (fun key a => let! row := scan_row t idx key in ret (fn row a)) t idx lower upper reverse a
  end.
Definition scan_all (table_ index_ : string) (lower upper : option Bound) (reverse : bool) : M W (list Row) :=
  scan table_ index_ lower upper reverse (fun r out => (true, out ++ [r])) [].
Definition count (table_ : string) : M W Z :=
  match StoreSchema.table catalog_ table_ with
  | None => lift (not_found ("no table " +:+ table_))
  | Some t => scan_raw (fun _ n => ret (true, wrap64 (n + 1))) t None None None false 0
  end.

(** * Foreign keys *)

(** The last unique index on exactly these columns. *)
Definition unique_index_on (t : TableDef) (columns : list string) : option IndexDef :=
  fold_left (fun found idx => if ix_unique idx && same_names (ix_columns idx) columns then Some idx else found) (td_indexes t) None.

Definition parent_exists (t : TableDef) (fk : ForeignKeyDef) (parent : TableDef) (values : Row) : M W bool :=
  if same_names (fk_ref_columns fk) (td_primary_key parent) then
    let! r := get_by_key parent (encode_key values) in ret (bool_decide (is_Some r))
  else match unique_index_on parent (fk_ref_columns fk) with
       | None => lift (corrupt ("foreign key " +:+ fk_name fk +:+ " lost its unique index"))
       | Some uidx => index_prefix_exists uidx values
       end.

Definition unchanged (t : TableDef) (columns : list string) (row : Row) (other : option Row) : bool :=
  match other with Some o => rows_equal (project t row columns) (project t o columns) | None => false end.

Fixpoint check_parents (t : TableDef) (row : Row) (old_row : option Row) (fks : list ForeignKeyDef) : M W unit :=
  match fks with
  | [] => ret tt
  | fk :: fks =>
      let values := project t row (fk_columns fk) in
      if any_null values then check_parents t row old_row fks
      else if unchanged t (fk_columns fk) row old_row then check_parents t row old_row fks
      else
        match (if String.eqb (fk_ref_table fk) (td_name t) then Some t else StoreSchema.table catalog_ (fk_ref_table fk)) with
        | None => lift (corrupt ("foreign key " +:+ fk_name fk +:+ " references missing table"))
        | Some parent =>
            let! found := parent_exists t fk parent values in
            if negb found then
              lift (constraint ("foreign key " +:+ fk_name fk +:+ " on " +:+ td_name t +:+ ": no parent row in " +:+ td_name parent))
            else check_parents t row old_row fks
        end
  end.

Definition child_exists (child : TableDef) (fk : ForeignKeyDef) (values : Row) : M W bool :=
  if pk_supports child (fk_columns fk) then prefix_exists (td_root child) values
  else match supporting_index child (fk_columns fk) with
       | None => lift (corrupt ("foreign key " +:+ fk_name fk +:+ " lost its index"))
       | Some idx => prefix_exists (ix_root idx) values
       end.
Fixpoint no_children_by (t : TableDef) (row : Row) (new_row : option Row) (child : TableDef) (fks : list ForeignKeyDef) : M W unit :=
  match fks with
  | [] => ret tt
  | fk :: fks =>
      if negb (String.eqb (fk_ref_table fk) (td_name t)) then no_children_by t row new_row child fks
      else
        let values := project t row (fk_ref_columns fk) in
        if any_null values then no_children_by t row new_row child fks
        else if unchanged t (fk_ref_columns fk) row new_row then no_children_by t row new_row child fks
        else
          let! found := child_exists child fk values in
          if (found : bool) then
            lift (constraint ("foreign key " +:+ fk_name fk +:+ " on " +:+ td_name child +:+ ": row of " +:+ td_name t +:+ " is referenced"))
          else no_children_by t row new_row child fks
  end.
Fixpoint no_children_in (t : TableDef) (row : Row) (new_row : option Row) (l : list (string * TableDef)) : M W unit :=
  match l with
  | [] => ret tt
  | (_, child) :: l =>
      do! no_children_by t row new_row child (td_foreign_keys child) in
      no_children_in t row new_row l
  end.
Definition check_no_children (t : TableDef) (row : Row) (new_row : option Row) : M W unit :=
  no_children_in t row new_row (tables catalog_).

(** * Rows of a writer *)

Fixpoint put_index_entries (t : TableDef) (row : Row) (pk_key : Bytes) (old_row : option Row) (l : list IndexDef) : M W unit :=
  match l with
  | [] => ret tt
  | idx :: l =>
      if unchanged t (ix_columns idx) row old_row then put_index_entries t row pk_key old_row l
      else
        do! BTree.put (tree (ix_root idx)) (index_key_of t idx row pk_key) [] in
        put_index_entries t row pk_key old_row l
  end.
(** With [new_row], only the entries that it changes. *)
Fixpoint erase_entries (t : TableDef) (row : Row) (pk_key : Bytes) (new_row : option Row) (l : list IndexDef) : M W unit :=
  match l with
  | [] => ret tt
  | idx :: l =>
      if (match new_row with Some n => unchanged t (ix_columns idx) n (Some row) | None => false end)
      then erase_entries t row pk_key new_row l
      else
        let! existed := BTree.erase (tree (ix_root idx)) (index_key_of t idx row pk_key) in
        if negb existed then lift (corrupt ("index " +:+ ix_name idx +:+ " lacks the entry for a row"))
        else erase_entries t row pk_key new_row l
  end.
Definition erase_index_entries (t : TableDef) (row : Row) (pk_key : Bytes) : M W unit :=
  erase_entries t row pk_key None (td_indexes t).

(** The loop over the indexes before a row is stored: lengths and unique
    indexes.  [who] is the table as the message names it. *)
Fixpoint check_indexes (t : TableDef) (who : string) (row : Row) (pk_key : Bytes) (old_row : option Row) (l : list IndexDef) : M W unit :=
  match l with
  | [] => ret tt
  | idx :: l =>
      let values := project t row (ix_columns idx) in
      if unchanged t (ix_columns idx) row old_row then check_indexes t who row pk_key old_row l
      else if (max_key_bytes <? length (encode_key values) + length pk_key)%nat then
        lift (invalid_argument ("index key " +:+ ix_name idx +:+ " too long"))
      else if negb (ix_unique idx) || any_null values then check_indexes t who row pk_key old_row l
      else
        let! dup := index_prefix_exists idx values in
        if (dup : bool) then lift (constraint ("unique index " +:+ ix_name idx +:+ " on " +:+ who))
        else check_indexes t who row pk_key old_row l
  end.

Definition insert_unchecked (t : TableDef) (row : Row) (check_fks : bool) : M W unit :=
  do! lift (validate_row t row) in
  let pk_key := pk_key_of t row in
  if (max_key_bytes <? length pk_key)%nat then lift (invalid_argument ("primary key of " +:+ td_name t +:+ " too long"))
  else
    let! existing := BTree.get (tree (td_root t)) pk_key in
    if bool_decide (is_Some existing) then lift (constraint ("primary key of " +:+ td_name t))
    else
      do! check_indexes t (td_name t) row pk_key None (td_indexes t) in
      do! (if check_fks then check_parents t row None (td_foreign_keys t) else ret tt) in
      do! BTree.put (tree (td_root t)) pk_key (encode_row row) in
      put_index_entries t row pk_key None (td_indexes t).

Definition update_row (table_ : string) (t : TableDef) (row : Row) : M W unit :=
  do! lift (validate_row t row) in
  let pk_key := pk_key_of t row in
  let! old := get_by_key t pk_key in
  match old with
  | None => lift (not_found ("no row with that primary key in " +:+ table_))
  | Some old_row =>
      if rows_equal old_row row then ret tt
      else
        do! check_indexes t table_ row pk_key (Some old_row) (td_indexes t) in
        do! check_parents t row (Some old_row) (td_foreign_keys t) in
        do! check_no_children t old_row (Some row) in
        do! erase_entries t old_row pk_key (Some row) (td_indexes t) in
        do! BTree.put (tree (td_root t)) pk_key (encode_row row) in
        put_index_entries t row pk_key (Some old_row) (td_indexes t)
  end.

Definition remove_row (table_ : string) (primary_key : Row) : M W unit :=
  let! old := get table_ primary_key in
  match old, StoreSchema.table catalog_ table_ with
  | Some old_row, Some t =>
      do! check_no_children t old_row None in
      let pk_key := encode_key primary_key in
      do! erase_index_entries t old_row pk_key in
      let! existed := BTree.erase (tree (td_root t)) pk_key in
      if negb existed then lift (corrupt "row vanished during remove") else ret tt
  | _, _ => lift (not_found ("no row with that primary key in " +:+ table_))
  end.

Definition verify_foreign_keys (table_ : string) : M W unit :=
  match StoreSchema.table catalog_ table_ with
  | None => lift (not_found ("no table " +:+ table_))
  | Some t =>
      if bool_decide (td_foreign_keys t = []) then ret tt
      else scan_raw (fun key u =>
             let! row := get_by_key t key in
             match row with
             | None => lift (corrupt "row vanished during foreign key verification")
             | Some row => do! check_parents t row None (td_foreign_keys t) in ret (true, u)
             end) t None None None false tt
  end.
End reader.

(** * Loading the catalog *)

Definition load_entry (key value : Bytes) (out : Catalog) : Result Catalog :=
  match key with
  | [] => corrupt "catalog: empty key"
  | tag :: name =>
      let? row := decode_row value in
      if tag =? kVersionKey then
        match row with
        | [Integer v] => Ret (mkCatalog (u64_of_i64 v) (tables out))
        | _ => corrupt "catalog: bad version entry"
        end
      else if negb (tag =? kTableKeyTag) then corrupt "catalog: unknown entry"
      else
        let? def := decode_table_def row in
        if negb (String.eqb (td_name def) (string_of_bytes name)) then corrupt "catalog: table entry name mismatch"
        else Ret (mkCatalog (schema_version out) (set_table (td_name def) def (tables out)))
  end.
Definition load_catalog {W} `{PageStore W} (fuel : nat) : M W Catalog :=
  for_each (mkBTree kCatalogRoot false) fuel load_entry (mkCatalog 0 []).

(** * Writer *)

Record Writer := mkWriter { edited : Catalog; schema_changed : bool; finished : bool }.
Definition set_edited (w : Writer) (c : Catalog) : Writer := mkWriter c (schema_changed w) (finished w).
Definition mark_changed (w : Writer) : Writer := mkWriter (edited w) true (finished w).

Section writer.
Context {W : Type} `{PageStore W}.
Variable fuel : nat.
Definition WrM (A : Type) : Type := M (Writer * W) A.

Definition while_active {A} (m : Catalog -> WrM A) : WrM A :=
  let! w := getO in
  if finished w then lift (invalid_argument "transaction finished") else m (edited w).

Definition insert (table_ : string) (row : Row) : WrM unit :=
  while_active (fun cat =>
    match StoreSchema.table cat table_ with
    | None => lift (not_found ("no table " +:+ table_))
    | Some t => onw (insert_unchecked fuel true cat t row true)
    end).
Definition update (table_ : string) (row : Row) : WrM unit :=
  while_active (fun cat =>
    match StoreSchema.table cat table_ with
    | None => lift (not_found ("no table " +:+ table_))
    | Some t => onw (update_row fuel true cat table_ t row)
    end).
Definition remove (table_ : string) (primary_key : Row) : WrM unit :=
  while_active (fun cat => onw (remove_row fuel true cat table_ primary_key)).

Definition save_table (t : TableDef) : WrM unit :=
  do! modO mark_changed in
  onw (BTree.put (mkBTree kCatalogRoot true) (table_key (td_name t)) (encode_row (encode_table_def t))).
Definition save_version : WrM unit :=
  do! modO mark_changed in
  let! w := getO in
  onw (BTree.put (mkBTree kCatalogRoot true) [kVersionKey] (encode_row [Integer (i64_of_u64 (schema_version (edited w)))])).
Definition set_schema_version (version : Z) : WrM unit :=
  while_active (fun cat => do! modO (fun w => set_edited w (mkCatalog version (tables cat))) in save_version).

(** The primary key's columns lose their nullability. *)
Definition pk_not_null (t : TableDef) : list ColumnDef :=
  fold_left (fun cols c =>
    match position (fun x => String.eqb (col_name x) c) cols with
    | Some i => alter (fun x => mkColumnDef (col_name x) (col_type x) false (scale x)) i cols
    | None => cols
    end) (td_primary_key t) (td_columns t).
Definition with_columns (t : TableDef) (cols : list ColumnDef) : TableDef :=
  mkTableDef (td_name t) cols (td_primary_key t) (td_indexes t) (td_foreign_keys t) (td_checks t) (td_root t).
Definition with_indexes (t : TableDef) (l : list IndexDef) : TableDef :=
  mkTableDef (td_name t) (td_columns t) (td_primary_key t) l (td_foreign_keys t) (td_checks t) (td_root t).
Definition with_root (t : TableDef) (root : PageNo) : TableDef :=
  mkTableDef (td_name t) (td_columns t) (td_primary_key t) (td_indexes t) (td_foreign_keys t) (td_checks t) root.
Definition index_at (idx : IndexDef) (root : PageNo) : IndexDef := mkIndexDef (ix_name idx) (ix_columns idx) (ix_unique idx) root.

Fixpoint create_indexes (l : list IndexDef) : M W (list IndexDef) :=
  match l with
  | [] => ret []
  | idx :: l =>
      let! r := create in
      let! l := create_indexes l in
      ret (index_at idx r :: l)
  end.
Definition create_table (def : TableDef) : WrM unit :=
  while_active (fun cat =>
    match StoreSchema.table cat (td_name def) with
    | Some _ => lift (already_exists ("table " +:+ td_name def))
    | None =>
        let def := with_columns def (pk_not_null def) in
        do! lift (validate_table_def cat def) in
        let! root := onw create in
        let! idxs := onw (create_indexes (td_indexes def)) in
        let def := with_indexes (with_root def root) idxs in
        do! modO (fun w => set_edited w (mkCatalog (schema_version (edited w)) (set_table (td_name def) def (tables (edited w))))) in
        save_table def
    end).

(** The first foreign key of another table that refers to [table_]. *)
Definition referring_key (cat : Catalog) (table_ : string) : option (string * ForeignKeyDef) :=
  head (concat (map (fun x : string * TableDef =>
    if String.eqb (fst x) table_ then []
    else map (fun fk => (fst x, fk)) (List.filter (fun fk => String.eqb (fk_ref_table fk) table_) (td_foreign_keys (snd x)))) (tables cat))).
Fixpoint destroy_all (l : list IndexDef) : M W unit :=
  match l with
  | [] => ret tt
  | idx :: l => do! destroy (ix_root idx) in destroy_all l
  end.
Definition drop_table (table_ : string) : WrM unit :=
  while_active (fun cat =>
    match StoreSchema.table cat table_ with
    | None => lift (not_found ("no table " +:+ table_))
    | Some t =>
        match referring_key cat table_ with
        | Some (cname, fk) =>
            lift (invalid_argument ("table " +:+ table_ +:+ " is referenced by foreign key " +:+ fk_name fk +:+ " on " +:+ cname))
        | None =>
            do! onw (destroy (td_root t)) in
            do! onw (destroy_all (td_indexes t)) in
            do! modO (fun w => set_edited w (mkCatalog (schema_version cat) (erase_table table_ (tables cat)))) in
            do! modO mark_changed in
            do! onw (BTree.erase (mkBTree kCatalogRoot true) (table_key table_)) in
            ret tt
        end
    end).

(** The body of [create_index]'s scan. *)
Definition build_entry (table_ : string) (t : TableDef) (def : IndexDef) (pk_key : Bytes) (u : unit) : M W (bool * unit) :=
  let! row := get_by_key true t pk_key in
  match row with
  | None => lift (corrupt "row vanished during index build")
  | Some row =>
      let values := project t row (ix_columns def) in
      let prefix := encode_key values in
      if (max_key_bytes <? length prefix + length pk_key)%nat then
        lift (invalid_argument ("index key " +:+ ix_name def +:+ " too long"))
      else
        let! dup := (if ix_unique def && negb (any_null values) then prefix_exists fuel true (ix_root def) values else ret false) in
        if (dup : bool) then
          lift (constraint ("unique index " +:+ ix_name def +:+ " on " +:+ table_ +:+ ": existing rows are not unique"))
        else
          do! BTree.put (mkBTree (ix_root def) true) (prefix ++ pk_key) [] in
          ret (true, u)
  end.
Definition create_index (table_ : string) (def : IndexDef) : WrM unit :=
  while_active (fun cat =>
    match StoreSchema.table cat table_ with
    | None => lift (not_found ("no table " +:+ table_))
    | Some t =>
        do! lift (validate_index_def t def None) in
        let! root := onw create in
        let def := index_at def root in
        let! s := attempt (onw (scan_raw fuel true (build_entry table_ t def) t None None None false tt)) in
        match s with
        | Err e =>
            do! (if bool_decide (code e = Constraint \/ code e = InvalidArgument) then onw (destroy root) else ret tt) in
            lift (Err e)
        | Ret _ =>
            let t := with_indexes t (td_indexes t ++ [def]) in
            do! modO (fun w => set_edited w (mkCatalog (schema_version cat) (set_table table_ t (tables cat)))) in
            save_table t
        end
    end).

Definition unsupported_key (t : TableDef) : option ForeignKeyDef :=
  List.find (fun fk => negb (pk_supports t (fk_columns fk)) && bool_decide (supporting_index t (fk_columns fk) = None)) (td_foreign_keys t).
Definition targeting_key (cat : Catalog) (table_ : string) (columns : list string) : option (string * ForeignKeyDef) :=
  head (concat (map (fun x : string * TableDef =>
    map (fun fk => (fst x, fk))
      (List.filter (fun fk => String.eqb (fk_ref_table fk) table_ && same_names (fk_ref_columns fk) columns) (td_foreign_keys (snd x)))) (tables cat))).
Definition drop_index (table_ index_ : string) : WrM unit :=
  while_active (fun cat =>
    match StoreSchema.table cat table_ with
    | None => lift (not_found ("no table " +:+ table_))
    | Some t =>
        match position (fun i => String.eqb (ix_name i) index_) (td_indexes t) with
        | None => lift (not_found ("no index " +:+ index_ +:+ " on " +:+ table_))
        | Some i =>
            let pos := nth i (td_indexes t) (mkIndexDef "" [] false 0) in
            let without := with_indexes t (delete i (td_indexes t)) in
            match unsupported_key without with
            | Some fk => lift (invalid_argument ("index " +:+ index_ +:+ " supports foreign key " +:+ fk_name fk))
            | None =>
                let other_unique := same_names (ix_columns pos) (td_primary_key t)
                  || existsb (fun idx => ix_unique idx && same_names (ix_columns idx) (ix_columns pos)) (td_indexes without) in
                match (if ix_unique pos && negb other_unique then targeting_key cat table_ (ix_columns pos) else None) with
                | Some (cname, fk) =>
                    lift (invalid_argument ("index " +:+ index_ +:+ " is the target of foreign key " +:+ fk_name fk +:+ " on " +:+ cname))
                | None =>
                    do! onw (destroy (ix_root pos)) in
                    do! modO (fun w => set_edited w (mkCatalog (schema_version cat) (set_table table_ without (tables cat)))) in
                    save_table without
                end
            end
        end
    end).
End writer.
