(* ===== verification/Grove.v ===== *)
(** Several B+trees on one page store.

    The theorems about one tree speak of the pages of that tree.  [framed]
    turns the laws of a page store into the laws of the same store with some
    of its pages set aside: an operation on one tree, verified against the
    framed laws, leaves every other tree as it was, and pages in use and
    allocations left never exceed what they were.  [Groves] is what the
    store asks of its trees: maps at root pages, each changed by its own
    operations only, and cursors that walk their keys in order; the instance
    [grove_of_pages] discharges it. *)

From stdpp Require Import base numbers list gmap strings sorting functions.
From S2P Require Import Prelude Bytes PageFormat BTreeNode BTreeNodeFacts BTree BTreeTree BTreeRead BTreeSplit BTreePut BTreeErase BTreeScan BTreeSpec.
From S2P Require Import Record StoreSchema Store.
From stdpp Require Import list.
Open Scope Z_scope.

(** * Framing *)

Section frame.
Context {W : Type} `{PageStoreLaws W}.
(** Pages and allocations set aside, and a bound on pages and allocations
    together. *)
Context (F : gmap PageNo Bytes) (K N : nat).

Definition framed_at (w : W) (m : gmap PageNo Bytes) (k : nat) : Prop :=
  m ##ₘ F /\ store_at w (m ∪ F) (k + K) /\ (size (m ∪ F) + k + K <= N)%nat.

Lemma union_here (m : gmap PageNo Bytes) p : m ##ₘ F -> is_Some (m !! p) -> F !! p = None /\ is_Some ((m ∪ F) !! p).
Proof.
  intros Hd [b Hb]. split; [by apply (map_disjoint_Some_l m F p b)|]. exists b. by apply lookup_union_Some_l.
Qed.

Definition framed : PageStoreLaws W.
Proof.
  refine {| store_at := framed_at |}.
  - exact store_page_size.
  - intros w m k (Hd & Hs & _) p b Hp. apply (store_pages _ _ _ Hs). by apply lookup_union_Some_l.
  - intros w m k p b (Hd & Hs & HN) Hp. destruct (store_read w _ _ p b Hs) as (w' & E & Hs'); [by apply lookup_union_Some_l|]. by exists w'.
  - intros w m k p b (Hd & Hs & HN) Hp Hl Hb. destruct (union_here m p Hd Hp) as [Hn Hp'].
    destruct (store_write w _ _ p b Hs Hp' Hl Hb) as (w' & E & Hs'). exists w'. split; [done|]. split_and!.
    + by apply map_disjoint_insert_l.
    + by rewrite <- insert_union_l.
    + rewrite <- insert_union_l, map_size_insert. by destruct Hp' as [? ->].
  - intros w m k (Hd & Hs & HN). destruct (store_allocate w _ _ Hs) as (p & w' & E & Hn & Hs'). pose proof Hn as [Hm Hf]%lookup_union_None.
    exists p, w'. split_and!; [done|done|]. split_and!; [by apply map_disjoint_insert_l|by rewrite <- insert_union_l|].
    rewrite <- insert_union_l, map_size_insert, Hn. lia.
  - intros w m k p (Hd & Hs & HN) Hp. destruct (union_here m p Hd Hp) as [Hn Hp']. destruct (store_free w _ _ p Hs Hp') as (w' & E & Hs').
    rewrite delete_union, (delete_id F) in Hs' by done.
    exists w'. split; [done|]. split_and!; [by apply map_disjoint_delete_l|done|].
    rewrite <- (delete_id F p Hn) at 1. rewrite <- delete_union, map_size_delete. destruct Hp' as [? ->]. lia.
Defined.

Lemma frame_runs {A} (c : M W A) m k Q : m ##ₘ F -> (size (m ∪ F) + k + K <= N)%nat ->
  runs (H0 := framed) c m k Q -> runs c (m ∪ F) (k + K)
    (fun a m' k' => exists m1 k1, m' = m1 ∪ F /\ m1 ##ₘ F /\ k' = (k1 + K)%nat /\ (size m' + k' <= N)%nat /\ Q a m1 k1).
Proof.
  intros Hd HN Hr w Hw. destruct (Hr w) as (a & w' & m' & k' & E & (Hd' & Hs' & HN') & HQ); [done|].
  exists a, w', (m' ∪ F), (k' + K)%nat. split_and!; [done|done|]. exists m', k'. split_and!; [done|done|done|lia|done].
Qed.
End frame.

(** * Groves *)

(** A cursor over the tree at a root page, with the keys before it and those
    from it on. *)
Record Mark := mkMark {
  mk_root : PageNo;
  mk_cursor : Cursor;
  mk_before : list Bytes;
  mk_after : list Bytes
}.
(** What is known of the trees of a store: the contents of the tree at each
    root page, a bound on its height, the allocations left, a bound on the
    pages in use and the allocations left together, and the cursors. *)
Record Grove := mkGrove {
  g_trees : gmap PageNo (gmap Bytes Bytes);
  g_height : PageNo -> nat;
  g_room : nat;
  g_pages : nat;
  g_marks : list Mark
}.
(** After a change of the tree at [r] by which it grew by [grow] levels and
    that took [cost] allocations. *)
Definition changed (g : Grove) (r : PageNo) (c : gmap Bytes Bytes) (grow cost : nat) : Grove :=
  mkGrove (<[r := c]> (g_trees g)) (<[r := (grow + g_height g r)%nat]> (g_height g)) (g_room g - cost) (g_pages g) [].
Definition marked (g : Grove) (x : Mark) : Grove := mkGrove (g_trees g) (g_height g) (g_room g) (g_pages g) (x :: g_marks g).

(** Key lengths of the tree at a root page. *)
Definition Lengths : Type := PageNo -> nat * nat.
Definition fits_tree (ls : Lengths) (r : PageNo) (key : Bytes) : Prop := key_ok (fst (ls r)) (snd (ls r)) key.

(** The keys of a tree, in order. *)
#[export] Instance kle_dec : RelDecision kle.
Proof. intros a b. unfold kle. apply _. Defined.
#[export] Instance kle_trans : Transitive kle.
Proof. intros a b c H1 H2. apply kle_cases in H2 as [->|H2]; [done|]. apply klt_kle. by eapply kle_klt_trans. Qed.
#[export] Instance kle_total : Total kle.
Proof. intros a b. destruct (key_cases a b) as [H1|[->|H1]]; [left; by apply klt_kle|left; apply kle_refl|right; by apply klt_kle]. Qed.
#[export] Instance kle_antisymm : AntiSymm (=) kle.
Proof. intros a b H1 H2. apply kle_cases in H1 as [|H1]; [done|]. apply kle_not_klt in H2. done. Qed.
Definition keys_of (c : gmap Bytes Bytes) : list Bytes := merge_sort kle (map fst (map_to_list c)).
Lemma keys_of_perm c : keys_of c ≡ₚ map fst (map_to_list c).
Proof. apply merge_sort_Permutation. Qed.
Lemma elem_of_keys c k : k ∈ keys_of c <-> is_Some (c !! k).
Proof.
  rewrite keys_of_perm, list_elem_of_fmap. split.
  - intros ([k' v] & -> & Hin). apply elem_of_map_to_list in Hin. by exists v.
  - intros [v Hv]. exists (k, v). split; [done|]. by apply elem_of_map_to_list.
Qed.
Lemma keys_of_sorted c : StronglySorted kle (keys_of c).
Proof. apply (StronglySorted_merge_sort kle). Qed.
Lemma klt_sorted l : StronglySorted klt l -> StronglySorted kle l /\ NoDup l.
Proof.
  induction 1 as [|x l _ [IH1 IH2] Hx]; [by split; constructor|]. split; constructor; try done.
  - eapply Forall_impl; [exact Hx|]. intros y. apply klt_kle.
  - intros Hin. rewrite Forall_forall in Hx. by destruct (klt_irrefl x (Hx x Hin)).
Qed.
(** A list is the keys of a tree when it is sorted and has them all. *)
Lemma keys_of_unique c l : StronglySorted klt l -> (forall k, k ∈ l <-> is_Some (c !! k)) -> l = keys_of c.
Proof.
  intros [Hs Hnd]%klt_sorted Hin. apply (StronglySorted_unique kle); [done|apply keys_of_sorted|].
  apply NoDup_Permutation; [done| |intros k; by rewrite elem_of_keys]. rewrite keys_of_perm. apply NoDup_fst_map_to_list.
Qed.
(** The cursor divides the keys and stands on the first of those after. *)
Definition mark_ok (c : gmap Bytes Bytes) (x : Mark) : Prop :=
  keys_of c = mk_before x ++ mk_after x
  /\ match mk_after x with
     | [] => valid_ (mk_cursor x) = false
     | k :: _ => valid_ (mk_cursor x) = true /\ key_ (mk_cursor x) = k
     end.

(** The trees of a store, as an interface. *)
Class Groves (W : Type) `{PageStore W} (ls : Lengths) := {
  grove_at : W -> Grove -> Prop;
  grove_get w g r c b key : grove_at w g -> g_trees g !! r = Some c -> (g_height g r <= 64)%nat ->
    exists w', BTree.get (mkBTree r b) key w = (Ret (c !! key), w') /\ grove_at w' g;
  grove_put w g r c key v : grove_at w g -> g_trees g !! r = Some c -> (g_height g r <= 64)%nat ->
    fits_tree ls r key -> bytes_ok v -> Z.of_nat (length v) < 2 ^ 32 ->
    (cell_cost key v + g_height g r + 1 <= g_room g)%nat ->
    exists w', BTree.put (mkBTree r true) key v w = (Ret tt, w')
      /\ grove_at w' (changed g r (<[key := v]> c) 1 (cell_cost key v + g_height g r + 1));
  grove_erase w g r c key : grove_at w g -> g_trees g !! r = Some c -> (g_height g r <= 64)%nat ->
    exists w', BTree.erase (mkBTree r true) key w = (Ret (bool_decide (is_Some (c !! key))), w')
      /\ grove_at w' (changed g r (delete key c) 0 0);
  grove_unmark w g x : grove_at w (marked g x) -> grove_at w g;
  grove_size w g r c : grove_at w g -> g_trees g !! r = Some c -> (length (keys_of c) <= g_pages g * page_size)%nat;
  grove_mark w g c x : grove_at w g -> x ∈ g_marks g -> g_trees g !! mk_root x = Some c -> mark_ok c x;
  grove_first w g r c b fuel : grove_at w g -> g_trees g !! r = Some c -> (g_height g r <= 64)%nat -> (g_pages g <= fuel)%nat ->
    exists cur w', seek_first (mkBTree r b) fuel cursor0 w = (Ret cur, w') /\ grove_at w' (marked g (mkMark r cur [] (keys_of c)));
  grove_seek w g r c b p fuel : grove_at w g -> g_trees g !! r = Some c -> (g_height g r <= 64)%nat -> (g_pages g <= fuel)%nat ->
    exists cur bef aft w', seek (mkBTree r b) fuel p cursor0 w = (Ret cur, w') /\ grove_at w' (marked g (mkMark r cur bef aft))
      /\ Forall (fun k => klt k p) bef /\ Forall (kle p) aft;
  grove_last w g r c b cur0 : grove_at w g -> g_trees g !! r = Some c -> (g_height g r <= 64)%nat ->
    exists cur w', seek_last (mkBTree r b) cur0 w = (Ret cur, w')
      /\ match last (keys_of c) with
         | Some k => exists bef, keys_of c = bef ++ [k] /\ grove_at w' (marked g (mkMark r cur bef [k]))
         | None => valid_ cur = false /\ grove_at w' g
         end;
  grove_next w g r c cur bef k aft fuel : grove_at w g -> g_trees g !! r = Some c -> mkMark r cur bef (k :: aft) ∈ g_marks g -> (g_pages g <= fuel)%nat ->
    exists cur' w', next fuel cur w = (Ret cur', w') /\ grove_at w' (marked g (mkMark r cur' (bef ++ [k]) aft));
  grove_prev w g r c cur bef k aft fuel : grove_at w g -> g_trees g !! r = Some c -> mkMark r cur bef (k :: aft) ∈ g_marks g -> (g_pages g <= fuel)%nat ->
    exists cur' w', prev fuel cur w = (Ret cur', w')
      /\ match last bef with
         | Some k' => exists bef', bef = bef' ++ [k'] /\ grove_at w' (marked g (mkMark r cur' bef' (k' :: k :: aft)))
         | None => valid_ cur' = false /\ grove_at w' g
         end
}.

(** ** Prefixes *)

Lemma starts_with_iff key p : starts_with key p = true <-> exists s, key = p ++ s.
Proof.
  unfold starts_with. rewrite andb_true_iff, bool_decide_eq_true, Nat.leb_le. split.
  - intros [_ E]. exists (drop (length p) key). rewrite <- E at 1. by rewrite take_drop.
  - intros [s ->]. rewrite take_app_length, length_app. split; [lia|done].
Qed.
Lemma kle_app p s : kle p (p ++ s).
Proof. unfold kle. rewrite <- (app_nil_r p) at 1. rewrite lex_app. by destruct s. Qed.
(** What lies between a prefix and a string that has it has it too. *)
Lemma prefix_between p s : forall e, kle p e -> kle e (p ++ s) -> exists s', e = p ++ s'.
Proof.
  unfold kle. induction p as [|x p IH]; intros e H1 H2; [by exists e|]. destruct e as [|y e]; [done|]. cbn in H1, H2.
  destruct (Z.compare_spec x y) as [->|Hlt|Hgt].
  - rewrite Z.compare_refl in H2. destruct (IH e H1 H2) as [s' ->]. by exists s'.
  - destruct (Z.compare_spec y x); [lia|lia|done].
  - done.
Qed.

Definition has_prefix (p : Bytes) (c : gmap Bytes Bytes) : bool := bool_decide (Exists (fun x => starts_with (fst x) p = true) (map_to_list c)).
Lemma has_prefix_iff p c : has_prefix p c = true <-> exists key, is_Some (c !! key) /\ exists s, key = p ++ s.
Proof.
  unfold has_prefix. rewrite bool_decide_eq_true, Exists_exists. split.
  - intros ([key v] & Hin & Hs). apply elem_of_map_to_list in Hin. exists key. split; [by exists v|]. by apply starts_with_iff.
  - intros (key & [v Hv] & Hs). exists (key, v). split; [by apply elem_of_map_to_list|]. by apply starts_with_iff.
Qed.

(** The first key that is not below [p] has the prefix if any has. *)
Lemma first_has_prefix p c cur r bef aft : mark_ok c (mkMark r cur bef aft) -> Forall (fun k => klt k p) bef -> Forall (kle p) aft ->
  valid_ cur && starts_with (key_ cur) p = has_prefix p c.
Proof.
  intros [Hk Hcur] Hb Ha. cbn in *. rewrite Forall_forall in Hb. apply eq_true_iff_eq. rewrite andb_true_iff, has_prefix_iff, starts_with_iff.
  assert (Hin : forall s, is_Some (c !! (p ++ s)) -> p ++ s ∈ aft).
  { intros s Hs. apply elem_of_keys in Hs. rewrite Hk in Hs. apply elem_of_app in Hs as [Hs|Hs]; [|done].
    specialize (Hb _ Hs). cbn in Hb. pose proof (kle_app p s) as Hle. by apply kle_not_klt in Hle. }
  destruct aft as [|k aft].
  - rewrite Hcur. split; [by intros []|]. intros (key & Hs & s & ->). by apply Hin, not_elem_of_nil in Hs.
  - destruct Hcur as [-> ->]. split.
    + intros [_ Hp]. exists k. split; [|done]. apply elem_of_keys. rewrite Hk. apply elem_of_app. right. by left.
    + intros (key & Hs & s & ->). split; [done|]. apply Hin in Hs. apply Forall_cons in Ha as [Hpk _]. apply (prefix_between p s); [done|].
      pose proof (keys_of_sorted c) as Hso. rewrite Hk in Hso. apply StronglySorted_app in Hso as (_ & _ & Hso). apply StronglySorted_inv in Hso as [_ Hso].
      apply elem_of_cons in Hs as [->|Hs]; [apply kle_refl|]. rewrite Forall_forall in Hso. by apply Hso.
Qed.

(** ** Trees in pages *)

Section pages.
Context {W : Type} `{PageStoreLaws W} (ls : Lengths).
#[local] Abbreviation psz := page_size.
Definition lengths_fit : Prop := forall r, lengths_ok (fst (ls r)) (snd (ls r)).

(** The pages of one tree. *)
Definition tree_pages (r : PageNo) (c : gmap Bytes Bytes) (h : nat) (mr : gmap PageNo Bytes) : Prop :=
  exists t, tree_at psz (fst (ls r)) (snd (ls r)) mr t /\ root_page t = r /\ contents t = c /\ (height t <= h)%nat.
(** A cursor on one tree. *)
Definition mark_pages (c : gmap Bytes Bytes) (mr : gmap PageNo Bytes) (x : Mark) : Prop :=
  exists t bef aft, tree_at psz (fst (ls (mk_root x))) (snd (ls (mk_root x))) mr t /\ contents t = c
    /\ cursor_at mr t (mk_cursor x) bef aft /\ mk_before x = map e_key bef /\ mk_after x = map e_key aft.
(** The pages [m] hold every tree of the grove, no page in two. *)
Record grove_pages (g : Grove) (m : gmap PageNo Bytes) (P : gmap PageNo (gmap PageNo Bytes)) : Prop := {
  gp_tree r c : g_trees g !! r = Some c -> exists mr, P !! r = Some mr /\ tree_pages r c (g_height g r) mr;
  gp_mark x c mr : x ∈ g_marks g -> g_trees g !! mk_root x = Some c -> P !! mk_root x = Some mr -> mark_pages c mr x;
  gp_in r mr : P !! r = Some mr -> mr ⊆ m;
  gp_disjoint r1 r2 m1 m2 : P !! r1 = Some m1 -> P !! r2 = Some m2 -> r1 <> r2 -> m1 ##ₘ m2
}.
Definition pages_grove_at (w : W) (g : Grove) : Prop :=
  lengths_fit /\ exists m k P, (g_room g <= k)%nat /\ store_at w m k /\ (size m + k <= g_pages g)%nat /\ grove_pages g m P.

(** An operation on the tree at [r], verified on its own pages. *)
Lemma on_tree {A} (c : M W A) (Q : gmap PageNo Bytes -> A -> gmap PageNo Bytes -> nat -> Prop) w g r content n :
  pages_grove_at w g -> g_trees g !! r = Some content -> (n <= g_room g)%nat ->
  (forall mr F K N, mr ##ₘ F -> tree_pages r content (g_height g r) mr -> (size mr <= g_pages g)%nat ->
     (forall x, x ∈ g_marks g -> mk_root x = r -> mark_pages content mr x) -> runs (H0 := framed F K N) c mr n (Q mr)) ->
  exists a w', c w = (Ret a, w') /\ exists mr mr' k', tree_pages r content (g_height g r) mr /\ Q mr a mr' k'
    /\ (mr' = mr -> (n <= k')%nat -> pages_grove_at w' g /\ forall x, mk_root x = r -> mark_pages content mr x -> pages_grove_at w' (marked g x))
    /\ forall c' h', tree_pages r c' h' mr' -> pages_grove_at w' (mkGrove (<[r := c']> (g_trees g)) (<[r := h']> (g_height g)) (g_room g - n + k') (g_pages g) []).
Proof.
  intros (Hls & m & k & P & Hk & Hs & HN & [HP HM Hin Hdis]) Hr Hroom Hrun. destruct (HP r content Hr) as (mr & Hmr & Ht).
  pose proof (Hin r mr Hmr) as Hsub. set (F := m ∖ mr). assert (HF : mr ##ₘ F) by (by apply map_disjoint_difference_r1).
  assert (Em : mr ∪ F = m) by (by apply map_difference_union).
  set (K := (k - n)%nat). assert (Ek : (n + K)%nat = k) by (unfold K; lia).
  destruct (frame_runs F K (g_pages g) c mr n (Q mr) HF) with (w := w) as (a & w' & m' & k' & E & Hs' & m1 & k1 & -> & Hd1 & -> & HN' & HQ).
  { rewrite Em. lia. }
  { apply Hrun; [done|done| |].
    - pose proof (map_subseteq_size _ _ Hsub). lia.
    - intros x Hx <-. by apply HM. }
  { by rewrite Em, Ek. }
  exists a, w'. split; [done|]. exists mr, m1, k1. split_and!; [done|done| |].
  - intros -> Hnk. rewrite Em in Hs', HN'. split; [|intros x <- Hx]; (split; [done|]); exists m, (k1 + K)%nat, P; cbn; (split_and!; [unfold K; lia|done|done|]);
      constructor; try done. intros y c' mr'' [->|Hy]%elem_of_cons; [|by apply HM]. intros H1 H2. cbn in H1. by simplify_eq.
  - intros c' h' Ht'. split; [done|]. exists (m1 ∪ F), (k1 + K)%nat, (<[r := m1]> P). cbn. split_and!; [unfold K; lia|done|done|].
    assert (HinF : forall q mq, P !! q = Some mq -> q <> r -> mq ⊆ F).
    { intros q mq Hq Hne. apply map_subseteq_spec. intros i x Hi. unfold F. apply lookup_difference_Some. split.
      - eapply map_subseteq_spec; [by eapply Hin|done].
      - eapply (map_disjoint_Some_l mq mr); [|done]. by eapply Hdis. }
    constructor.
    + intros q cq Hq. cbn [g_trees g_height] in *. destruct (decide (q = r)) as [->|Hne].
      * rewrite lookup_insert_eq in Hq. injection Hq as <-. exists m1. by rewrite lookup_insert_eq, fn_lookup_insert.
      * rewrite lookup_insert_ne in Hq by done. destruct (HP q cq Hq) as (mq & Hmq & Htq). exists mq.
        by rewrite lookup_insert_ne, fn_lookup_insert_ne.
    + intros x cx mx Hx. by apply not_elem_of_nil in Hx.
    + intros q mq Hq. apply lookup_insert_Some in Hq as [[<- <-]|[Hne Hq]]; [by apply map_union_subseteq_l|].
      etrans; [by eapply HinF|by apply map_union_subseteq_r].
    + intros r1 r2 m1' m2' H1 H2 Hne. apply lookup_insert_Some in H1 as [[<- <-]|[Hr1 H1]]; apply lookup_insert_Some in H2 as [[<- <-]|[Hr2 H2]].
      * done.
      * eapply map_disjoint_weaken_r; [exact Hd1|by eapply HinF].
      * symmetry. eapply map_disjoint_weaken_r; [exact Hd1|by eapply HinF].
      * by eapply Hdis.
Qed.
(** An operation that only reads. *)
Lemma read_tree {A} (c : M W A) (Q : gmap PageNo Bytes -> A -> Prop) w g r content :
  pages_grove_at w g -> g_trees g !! r = Some content ->
  (forall mr F K N t, tree_at psz (fst (ls r)) (snd (ls r)) mr t -> root_page t = r -> contents t = content -> (height t <= g_height g r)%nat ->
     (size mr <= g_pages g)%nat -> (forall x, x ∈ g_marks g -> mk_root x = r -> mark_pages content mr x) ->
     runs (H0 := framed F K N) c mr 0 (fun a m' k' => Q mr a /\ m' = mr /\ k' = 0%nat)) ->
  exists a w' mr, c w = (Ret a, w') /\ Q mr a /\ pages_grove_at w' g /\ forall x, mk_root x = r -> mark_pages content mr x -> pages_grove_at w' (marked g x).
Proof.
  intros Hg Hr Hrun.
  destruct (on_tree c (fun mr a m' k' => Q mr a /\ m' = mr /\ k' = 0%nat) w g r content 0 Hg Hr) as (a & w' & E & mr & mr' & k' & Ht & (HQ & -> & ->) & Hsame & _); [lia| |].
  { intros mr F K N _ (t & Ht & Hroot & Hc & Hht) Hsz Hm. by apply (Hrun mr F K N t). }
  destruct (Hsame eq_refl) as [Hg' Hmark]; [lia|]. exists a, w', mr. split_and!; done.
Qed.

(** Fewer allocations are promised. *)
Lemma less_room w g k : (k <= g_room g)%nat -> pages_grove_at w g -> pages_grove_at w (mkGrove (g_trees g) (g_height g) k (g_pages g) (g_marks g)).
Proof.
  intros Hk (Hls & m & k' & P & Hk' & Hs & HN & [HP HM Hin Hdis]). split; [done|]. exists m, k', P. cbn. split_and!; [lia|done|done|by constructor].
Qed.

Lemma pages_get w g r c b key : pages_grove_at w g -> g_trees g !! r = Some c -> (g_height g r <= 64)%nat ->
  exists w', BTree.get (mkBTree r b) key w = (Ret (c !! key), w') /\ pages_grove_at w' g.
Proof.
  intros Hg Hr Hh. pose proof (proj1 Hg) as Hls.
  destruct (read_tree (BTree.get (mkBTree r b) key) (fun _ v => v = c !! key) w g r c Hg Hr) as (v & w' & mr & E & -> & Hg' & _); [|by exists w'].
  intros mr F K N t Ht Hroot <- Hht _ _. eapply (runs_conseq (H0 := framed F K N)).
  - apply (get_runs (H0 := framed F K N) (fst (ls r)) (snd (ls r)) ltac:(apply Hls) _ t key); [by apply tree_part|done|lia].
  - done.
Qed.

Lemma pages_put w g r c key v : pages_grove_at w g -> g_trees g !! r = Some c -> (g_height g r <= 64)%nat ->
  fits_tree ls r key -> bytes_ok v -> Z.of_nat (length v) < 2 ^ 32 -> (cell_cost key v + g_height g r + 1 <= g_room g)%nat ->
  exists w', BTree.put (mkBTree r true) key v w = (Ret tt, w')
    /\ pages_grove_at w' (changed g r (<[key := v]> c) 1 (cell_cost key v + g_height g r + 1)).
Proof.
  intros Hg Hr Hh Hk Hv Hl Hroom. pose proof (proj1 Hg) as Hls. destruct (Hls r) as (H1 & H2 & H3).
  destruct (on_tree (BTree.put (mkBTree r true) key v) (fun mr _ m' k' => tree_pages r (<[key := v]> c) (1 + g_height g r) m') w g r c
    (cell_cost key v + g_height g r + 1) Hg Hr Hroom) as ([] & w' & E & mr & mr' & k' & Ht & Ht' & _ & Hnew).
  - intros mr F K N _ (t & Ht & Hroot & <- & Hht) _ _.
    replace (cell_cost key v + g_height g r + 1)%nat with (cell_cost key v + (height t + 1 + (g_height g r - height t)))%nat by lia.
    eapply (runs_conseq (H0 := framed F K N)).
    + eapply (put_runs (H0 := framed F K N) (fst (ls r)) (snd (ls r)) H2 _ t); [done|done|done|done|done|lia|done|done|done].
    + intros _ m' k' [(t' & Ht' & Hr' & Hc & Hh' & _) _]. exists t'. split_and!; [done|done|done|lia].
  - exists w'. split; [done|]. apply Hnew in Ht'. unfold changed.
    apply (less_room _ _ (g_room g - (cell_cost key v + g_height g r + 1))) in Ht'; [done|cbn; lia].
Qed.

Lemma pages_erase w g r c key : pages_grove_at w g -> g_trees g !! r = Some c -> (g_height g r <= 64)%nat ->
  exists w', BTree.erase (mkBTree r true) key w = (Ret (bool_decide (is_Some (c !! key))), w')
    /\ pages_grove_at w' (changed g r (delete key c) 0 0).
Proof.
  intros Hg Hr Hh. pose proof (proj1 Hg) as Hls. destruct (Hls r) as (H1 & H2 & H3).
  destruct (on_tree (BTree.erase (mkBTree r true) key) (fun mr b m' k' => b = bool_decide (is_Some (c !! key))
      /\ tree_pages r (delete key c) (0 + g_height g r) m') w g r c 0 Hg Hr) as (b & w' & E & mr & mr' & k' & Ht & [-> Ht'] & _ & Hnew); [lia| |].
  - intros mr F K N _ (t & Ht & Hroot & <- & Hht) _ _. eapply (runs_conseq (H0 := framed F K N)).
    + eapply (erase_runs (H0 := framed F K N) (fst (ls r)) (snd (ls r)) H2 _ t key); [done|done|done|lia].
    + intros b m' k' [-> (t' & Ht' & Hr' & Hc & Hh' & _)]. split; [done|]. exists t'. split_and!; [done|done|done|lia].
  - exists w'. split; [done|]. apply Hnew in Ht'. unfold changed.
    apply (less_room _ _ (g_room g - 0)) in Ht'; [done|cbn; lia].
Qed.

Lemma pages_unmark w g x : pages_grove_at w (marked g x) -> pages_grove_at w g.
Proof.
  intros (Hls & m & k & P & Hk & Hs & HN & [HP HM Hin Hdis]). split; [done|]. exists m, k, P. split_and!; try done. constructor; try done.
  intros y c mr Hy. apply HM. by right.
Qed.

Lemma leaves_fit lo hi m t : tree_at psz lo hi m t -> (length (leaves t) <= size m)%nat.
Proof.
  intros Ht. pose proof (ta_owned _ _ _ _ _ Ht) as Hn. unfold owned in Hn. apply NoDup_app in Hn as (Hn & _ & _).
  rewrite <- (length_map fst (leaves t)), <- size_dom, <- (size_list_to_set (C := gset PageNo) _ Hn). apply subseteq_size. intros p Hp.
  apply elem_of_list_to_set in Hp. apply elem_of_dom. eapply linked_pages; [by apply Ht|done].
Qed.

(** ** Cursors *)

Lemma tree_keys lo hi m t : tree_at psz lo hi m t -> map e_key (entries_of t) = keys_of (contents t).
Proof.
  intros Ht. pose proof (entries_sorted lo hi m t Ht) as Hs. apply keys_of_unique.
  - clear -Hs. induction (entries_of t) as [|e l IH]; [constructor|]. cbn [map] in *. apply StronglySorted_inv in Hs as [Hs Hf]. constructor; [by apply IH|].
    apply Forall_map. apply (Forall_map (fun e => (e_key e, e_val e))) in Hf. exact Hf.
  - intros key. unfold contents, contents_of. split.
    + intros (e & -> & He)%list_elem_of_fmap. exists (e_val e). apply elem_of_list_to_map_1; [by apply sorted_keys_nodup|].
      exact (list_elem_of_fmap_2 (fun e => (e_key e, e_val e)) _ _ He).
    + intros [v Hv]. apply elem_of_list_to_map_2, list_elem_of_fmap in Hv as (e & [= -> ->] & He). exact (list_elem_of_fmap_2 e_key _ _ He).
Qed.
Lemma leaf_size m p prev next es : leaf_at psz m p prev next es -> (length es <= psz)%nat.
Proof.
  intros (page & _ & Hn). pose proof (node_room psz page _ _ _ _ Hn) as Hroom. rewrite length_map in Hroom. unfold Node.usable in Hroom. lia.
Qed.
Lemma entries_size m l : forall prev next, linked psz m prev l next -> (length (all_entries l) <= length l * psz)%nat.
Proof.
  induction l as [|[p es] l IH]; intros prev next Hl; [cbn; lia|]. cbn [linked] in Hl. destruct Hl as [Hp Hl]. rewrite all_entries_cons, length_app.
  pose proof (leaf_size _ _ _ _ _ Hp). specialize (IH _ _ Hl). cbn [length]. lia.
Qed.
Lemma pages_size w g r c : pages_grove_at w g -> g_trees g !! r = Some c -> (length (keys_of c) <= g_pages g * psz)%nat.
Proof.
  intros (Hls & m & k & P & Hk & Hs & HN & [HP _ Hin _]) Hr. destruct (HP r c Hr) as (mr & Hmr & t & Ht & _ & <- & _).
  rewrite <- (tree_keys _ _ _ _ Ht), length_map. unfold entries_of. etrans; [eapply entries_size, Ht|]. apply Nat.mul_le_mono_r.
  pose proof (leaves_fit _ _ _ _ Ht). pose proof (map_subseteq_size _ _ (Hin _ _ Hmr)). lia.
Qed.

Lemma pages_mark w g c x : pages_grove_at w g -> x ∈ g_marks g -> g_trees g !! mk_root x = Some c -> mark_ok c x.
Proof.
  intros (Hls & m & k & P & Hk & Hs & HN & [HP HM _ _]) Hx Hr. destruct (HP _ c Hr) as (mr & Hmr & _).
  destruct (HM x c mr Hx Hr Hmr) as (t & bef & aft & Ht & <- & [He Hc] & Eb & Ea). unfold mark_ok. rewrite Eb, Ea, <- map_app, <- He. split.
  - symmetry. by eapply tree_keys.
  - destruct aft as [|e aft]; [done|]. cbn [map]. by destruct Hc as (-> & -> & _).
Qed.

Section cursor.
Context (w : W) (g : Grove) (r : PageNo) (c : gmap Bytes Bytes) (fuel : nat).
Context (Hg : pages_grove_at w g) (Hr : g_trees g !! r = Some c).

Lemma pages_first b : (g_height g r <= 64)%nat -> (g_pages g <= fuel)%nat ->
  exists cur w', seek_first (mkBTree r b) fuel cursor0 w = (Ret cur, w') /\ pages_grove_at w' (marked g (mkMark r cur [] (keys_of c))).
Proof.
  intros Hh Hfuel. pose proof (proj1 Hg r) as (H1 & H2 & H3).
  destruct (read_tree (seek_first (mkBTree r b) fuel cursor0) (fun mr cur => mark_pages c mr (mkMark r cur [] (keys_of c))) w g r c Hg Hr)
    as (cur & w' & mr & E & Hm & _ & Hmark); [|exists cur, w'; split; [done|by apply Hmark]].
  intros mr F K N t Ht Hroot <- Hht Hsz _. pose proof (leaves_fit _ _ _ _ Ht). eapply (runs_conseq (H0 := framed F K N)).
  - apply (seek_first_runs (H0 := framed F K N) (fst (ls r)) (snd (ls r)) H2 _ t fuel); [done|done|lia|lia].
  - intros cur m' k' (Hc & -> & ->). split_and!; [|done|done]. exists t, [], (entries_of t). split_and!; try done. symmetry. by eapply tree_keys.
Qed.

Lemma pages_seek b p : (g_height g r <= 64)%nat -> (g_pages g <= fuel)%nat ->
  exists cur bef aft w', seek (mkBTree r b) fuel p cursor0 w = (Ret cur, w') /\ pages_grove_at w' (marked g (mkMark r cur bef aft))
    /\ Forall (fun k => klt k p) bef /\ Forall (kle p) aft.
Proof.
  intros Hh Hfuel. pose proof (proj1 Hg r) as (H1 & H2 & H3).
  destruct (read_tree (seek (mkBTree r b) fuel p cursor0) (fun mr cur => exists bef aft, mark_pages c mr (mkMark r cur bef aft)
      /\ Forall (fun k => klt k p) bef /\ Forall (kle p) aft) w g r c Hg Hr) as (cur & w' & mr & E & (bef & aft & Hm & Hb & Ha) & _ & Hmark).
  2: { exists cur, bef, aft, w'. split_and!; [done|by apply Hmark|done|done]. }
  intros mr F K N t Ht Hroot <- Hht Hsz _. pose proof (leaves_fit _ _ _ _ Ht). eapply (runs_conseq (H0 := framed F K N)).
  - apply (seek_runs (H0 := framed F K N) (fst (ls r)) (snd (ls r)) H2 _ t fuel p); [done|done|lia|lia].
  - intros cur m' k' ((bef & Hc & Hb) & -> & ->). split_and!; [|done|done]. exists (map e_key bef), (map e_key (not_below p (entries_of t))). split_and!.
    + exists t, bef, (not_below p (entries_of t)). done.
    + by apply Forall_map.
    + apply Forall_map, Forall_forall. intros e Hin. apply list_elem_of_filter in Hin as [Hin _]. by apply is_le_spec.
Qed.

Lemma pages_last b cur0 : (g_height g r <= 64)%nat ->
  exists cur w', seek_last (mkBTree r b) cur0 w = (Ret cur, w')
    /\ match last (keys_of c) with
       | Some k => exists bef, keys_of c = bef ++ [k] /\ pages_grove_at w' (marked g (mkMark r cur bef [k]))
       | None => valid_ cur = false /\ pages_grove_at w' g
       end.
Proof.
  intros Hh. pose proof (proj1 Hg r) as (H1 & H2 & H3).
  destruct (read_tree (seek_last (mkBTree r b) cur0) (fun mr cur => match last (keys_of c) with
      | Some k => exists bef, keys_of c = bef ++ [k] /\ mark_pages c mr (mkMark r cur bef [k])
      | None => valid_ cur = false end) w g r c Hg Hr) as (cur & w' & mr & E & Hm & Hg' & Hmark).
  2: { exists cur, w'. split; [done|]. destruct (last (keys_of c)) as [k|]; [|done]. destruct Hm as (bef & Ek & Hm). exists bef. split; [done|by apply Hmark]. }
  intros mr F K N t Ht Hroot <- Hht Hsz _. eapply (runs_conseq (H0 := framed F K N)).
  - apply (seek_last_runs (H0 := framed F K N) (fst (ls r)) (snd (ls r)) H2 _ t); [done|done|lia].
  - intros cur m' k' (Hc & -> & ->). split_and!; [|done|done]. rewrite <- (tree_keys _ _ _ _ Ht), fmap_last.
    destruct (last (entries_of t)) as [e|]; cbn [fmap option_fmap option_map]; [|done]. destruct Hc as (bef & Eb & Hc).
    exists (map e_key bef). rewrite Eb, map_app. split; [done|]. exists t, bef, [e]. done.
Qed.

Lemma pages_next cur bef k aft : mkMark r cur bef (k :: aft) ∈ g_marks g -> (g_pages g <= fuel)%nat ->
  exists cur' w', next fuel cur w = (Ret cur', w') /\ pages_grove_at w' (marked g (mkMark r cur' (bef ++ [k]) aft)).
Proof.
  intros Hx Hfuel. pose proof (proj1 Hg r) as (H1 & H2 & H3).
  destruct (read_tree (next fuel cur) (fun mr cur' => mark_pages c mr (mkMark r cur' (bef ++ [k]) aft)) w g r c Hg Hr)
    as (cur' & w' & mr & E & Hm & _ & Hmark); [|exists cur', w'; split; [done|by apply Hmark]].
  intros mr F K N _ _ _ _ _ Hsz Hmarks. destruct (Hmarks _ Hx eq_refl) as (t & bef' & aft' & Ht & Ec & Hc & Eb & Ea). cbn in Ht, Hc, Eb, Ea.
  destruct aft' as [|e aft']; [done|]. cbn [map] in Ea. injection Ea as -> ->. pose proof (leaves_fit _ _ _ _ Ht). eapply (runs_conseq (H0 := framed F K N)).
  - apply (next_runs (H0 := framed F K N) (fst (ls r)) (snd (ls r)) H2 mr t Ht fuel cur bef' e aft'); [done|lia].
  - intros cur' m' k' (Hc' & -> & ->). split_and!; [|done|done]. exists t, (bef' ++ [e]), aft'. rewrite map_app, Eb. done.
Qed.

Lemma pages_prev cur bef k aft : mkMark r cur bef (k :: aft) ∈ g_marks g -> (g_pages g <= fuel)%nat ->
  exists cur' w', prev fuel cur w = (Ret cur', w')
    /\ match last bef with
       | Some k' => exists bef', bef = bef' ++ [k'] /\ pages_grove_at w' (marked g (mkMark r cur' bef' (k' :: k :: aft)))
       | None => valid_ cur' = false /\ pages_grove_at w' g
       end.
Proof.
  intros Hx Hfuel. pose proof (proj1 Hg r) as (H1 & H2 & H3).
  destruct (read_tree (prev fuel cur) (fun mr cur' => match last bef with
      | Some k' => exists bef', bef = bef' ++ [k'] /\ mark_pages c mr (mkMark r cur' bef' (k' :: k :: aft))
      | None => valid_ cur' = false end) w g r c Hg Hr) as (cur' & w' & mr & E & Hm & Hg' & Hmark).
  2: { exists cur', w'. split; [done|]. destruct (last bef) as [k'|]; [|done]. destruct Hm as (bef' & Ek & Hm). exists bef'. split; [done|by apply Hmark]. }
  intros mr F K N _ _ _ _ _ Hsz Hmarks. destruct (Hmarks _ Hx eq_refl) as (t & bef' & aft' & Ht & Ec & Hc & Eb & Ea). cbn in Ht, Hc, Eb, Ea.
  pose proof (leaves_fit _ _ _ _ Ht). eapply (runs_conseq (H0 := framed F K N)).
  - apply (prev_runs (H0 := framed F K N) (fst (ls r)) (snd (ls r)) H2 mr t Ht fuel cur bef' aft'); [done|by destruct aft'|lia].
  - intros cur' m' k' (Hc' & -> & ->). split_and!; [|done|done]. rewrite Eb, fmap_last. destruct (last bef') as [e|]; cbn [fmap option_fmap option_map]; [|done].
    destruct Hc' as (bef2 & -> & Hc'). exists (map e_key bef2). rewrite map_app. split; [done|]. exists t, bef2, (e :: aft'). cbn. rewrite Ea. done.
Qed.
End cursor.
End pages.

#[export] Instance grove_of_pages {W} `{PageStoreLaws W} (ls : Lengths) : Groves W ls := {|
  grove_at := pages_grove_at ls;
  grove_get := pages_get ls;
  grove_put := pages_put ls;
  grove_erase := pages_erase ls;
  grove_unmark := pages_unmark ls;
  grove_size := pages_size ls;
  grove_mark := pages_mark ls;
  grove_first w g r c b fuel Hg Hr := pages_first ls w g r c fuel Hg Hr b;
  grove_seek w g r c b p fuel Hg Hr := pages_seek ls w g r c fuel Hg Hr b p;
  grove_last w g r c b cur0 Hg Hr := pages_last ls w g r c Hg Hr b cur0;
  grove_next w g r c cur bef k aft fuel Hg Hr := pages_next ls w g r c fuel Hg Hr cur bef k aft;
  grove_prev w g r c cur bef k aft fuel Hg Hr := pages_prev ls w g r c fuel Hg Hr cur bef k aft
|}.
