(* ===== verification/StoreRep.v ===== *)
(** How tables are kept in trees.

    [table_rep] relates a table's rows to its trees: the primary tree maps the
    encoded primary key to the encoded row, and each index tree holds exactly
    one entry per row, the encoded indexed columns followed by the primary
    key.  Keys are self-delimiting, so an entry determines its row's key, and
    a prefix lookup finds exactly the rows with the given values. *)

From stdpp Require Import base numbers list gmap strings sorting functions.
From S2P Require Import Prelude Bytes PageFormat Types Record StoreSchema BTreeNode BTree BTreeRead BTreePut Store Grove.
From stdpp Require Import list.
Open Scope Z_scope.

(** * Values *)

Lemma value_eqb_eq a b : value_ok a -> value_ok b -> value_eqb a b = true <-> a = b.
Proof.
  intros Ha Hb. unfold value_eqb. rewrite compare_value_eq by done. split.
  - destruct (kind a ?= kind b) eqn:E; try done. apply Z.compare_eq in E. intros H.
    apply payload_compare_eq; [done|]. by destruct (payload_compare a b).
  - intros ->. rewrite Z.compare_refl, payload_compare_refl. apply Z.eqb_refl.
Qed.
Lemma rows_equal_eq a : forall b, Forall value_ok a -> Forall value_ok b -> rows_equal a b = true <-> a = b.
Proof.
  induction a as [|x a IH]; intros [|y b] Ha Hb; cbn; try done. inversion Ha; inversion Hb; subst. rewrite andb_true_iff, value_eqb_eq, IH by done.
  split; [by intros [-> ->]|by intros [= -> ->]].
Qed.

(** Values of the given types, NULL included. *)
Definition typed (values : Row) (types : list ColumnType) : Prop :=
  Forall2 (fun v t => value_ok v /\ matches v t = true) values types.
Lemma typed_ok values types : typed values types -> Forall value_ok values.
Proof. induction 1 as [|???? []]; constructor; auto. Qed.
Lemma encode_key_app a b : Forall value_ok a -> Forall value_ok b -> encode_key (a ++ b) = encode_key a ++ encode_key b.
Proof. intros Ha Hb. rewrite !encode_key_bytes by (try apply Forall_app; done). by rewrite map_app, concat_app. Qed.
Lemma encode_key_ok values : Forall value_ok values -> bytes_ok (encode_key values).
Proof. intros H. rewrite encode_key_bytes by done. by apply bytes_ok_keys. Qed.
Lemma decode_encode_row row : row_fits row -> decode_row (encode_row row) = Ret row.
Proof. intros H. rewrite encode_row_bytes, <- (app_nil_r (row_bytes row)). apply (decode_row_extended row [] H). constructor. Qed.
Lemma encode_row_ok row : row_fits row -> bytes_ok (encode_row row).
Proof. intros [H _]. rewrite encode_row_bytes. apply bytes_ok_app. split; [apply bytes_ok_le_bytes|by apply bytes_ok_row_values]. Qed.
(** Keys are self-delimiting. *)
Lemma encode_key_split types v1 v2 r1 r2 : typed v1 types -> typed v2 types -> bytes_ok r1 -> bytes_ok r2 ->
  encode_key v1 ++ r1 = encode_key v2 ++ r2 -> v1 = v2 /\ r1 = r2.
Proof.
  intros H1 H2 Hr1 Hr2 E. rewrite !encode_key_bytes in E by (by eapply typed_ok).
  pose proof (decode_key_bytes v1 types [] r1 H1 Hr1) as D1. pose proof (decode_key_bytes v2 types [] r2 H2 Hr2) as D2.
  rewrite E, D2 in D1. cbn in D1. by injection D1 as -> ->.
Qed.

(** ** Rows of a table *)

Definition good_row (t : TableDef) (row : Row) : Prop := row_ok t row /\ row_fits row.

Lemma position_bound {A} (p : A -> bool) l : forall i, position p l = Some i -> (i < length l)%nat.
Proof.
  induction l as [|x l IH]; intros i; cbn; [done|]. destruct (p x); [intros [= <-]; lia|].
  destruct (position p l) as [j|]; [|done]. intros [= <-]. specialize (IH j eq_refl). lia.
Qed.
Lemma row_values_ok row : row_fits row -> Forall value_ok row.
Proof. intros [H _]. eapply Forall_impl; [exact H|]. intros v Hv. apply Hv. Qed.
Lemma project_values_ok t row cols : Forall value_ok row -> Forall value_ok (project t row cols).
Proof.
  intros H. apply Forall_map, Forall_true. intros c. unfold field. destruct (column_index t c) as [i|]; [|done].
  destruct (row !! i) as [v|] eqn:E; [|by rewrite nth_lookup, E]. rewrite (nth_lookup_Some _ _ _ _ E). rewrite Forall_lookup in H. by apply (H i).
Qed.
Lemma project_typed t row cols : good_row t row -> Forall (has_column t) cols -> typed (project t row cols) (types_of t cols).
Proof.
  intros [[Hrow _] Hfits] Hc. pose proof (row_values_ok _ Hfits) as Hok. unfold typed, project, types_of. apply Forall2_fmap_l, Forall2_fmap_r.
  apply Forall_Forall2_diag. eapply Forall_impl; [exact Hc|]. intros c [i Hi]. unfold compose, field, column. rewrite !Hi.
  pose proof (position_bound _ _ _ Hi) as Hlt. destruct (lookup_lt_is_Some_2 _ _ Hlt) as [cd Hcd].
  destruct (Forall2_lookup_l _ _ _ _ _ Hrow Hcd) as (v & Hv & Hfit).
  rewrite (nth_lookup_Some _ _ _ _ Hv), (nth_lookup_Some _ _ _ _ Hcd). rewrite Forall_lookup in Hok. split; [by apply (Hok i)|].
  destruct v; cbn in Hfit |- *; try done. destruct Hfit as [-> _]. done.
Qed.
Lemma project_app t row a b : project t row (a ++ b) = project t row a ++ project t row b.
Proof. apply map_app. Qed.

Lemma pk_key_bytes t row : row_fits row -> bytes_ok (pk_key_of t row).
Proof. intros H. apply encode_key_ok, project_values_ok, row_values_ok, H. Qed.

Lemma pk_key_inj t r1 r2 : Forall (has_column t) (td_primary_key t) -> good_row t r1 -> good_row t r2 -> pk_key_of t r1 = pk_key_of t r2 ->
  project t r1 (td_primary_key t) = project t r2 (td_primary_key t).
Proof.
  intros Hpk H1 H2 E. apply (encode_key_split (types_of t (td_primary_key t)) _ _ [] []); [by apply project_typed..|constructor|constructor|].
  by rewrite !app_nil_r.
Qed.

(** * Representation *)

Definition index_of (t : TableDef) (idx : IndexDef) (rows : gmap Bytes Row) (c : gmap Bytes Bytes) : Prop :=
  forall key v, c !! key = Some v <-> v = [] /\ exists k r, rows !! k = Some r /\ key = index_key_of t idx r k.
Definition rows_ok (t : TableDef) (rows : gmap Bytes Row) : Prop := map_Forall (fun k r => k = pk_key_of t r /\ good_row t r) rows.
Record table_rep (R : gmap PageNo (gmap Bytes Bytes)) (t : TableDef) (rows : gmap Bytes Row) : Prop := {
  rep_rows : R !! td_root t = Some (encode_row <$> rows);
  rep_ok : rows_ok t rows;
  rep_index : Forall (fun idx => exists c, R !! ix_root idx = Some c /\ index_of t idx rows c) (td_indexes t)
}.

(** The columns a definition names are its own. *)
Definition index_resolves (t : TableDef) (idx : IndexDef) : Prop := Forall (has_column t) (ix_columns idx).

Lemma index_key_inj t idx r1 r2 k1 k2 : index_resolves t idx -> good_row t r1 -> good_row t r2 -> bytes_ok k1 -> bytes_ok k2 ->
  index_key_of t idx r1 k1 = index_key_of t idx r2 k2 -> project t r1 (ix_columns idx) = project t r2 (ix_columns idx) /\ k1 = k2.
Proof.
  intros Hi H1 H2 Hk1 Hk2. apply (encode_key_split (types_of t (ix_columns idx))); try done; by apply project_typed.
Qed.

(** Rows with given values in given columns. *)
Definition exists_row (rows : gmap Bytes Row) (p : Row -> bool) : bool := existsb (fun x => p (snd x)) (map_to_list rows).
Lemma exists_row_iff rows p : exists_row rows p = true <-> exists k r, rows !! k = Some r /\ p r = true.
Proof.
  unfold exists_row. rewrite existsb_exists. split.
  - intros ([k r] & Hin & Hp). exists k, r. split; [|done]. by apply elem_of_map_to_list, list_elem_of_In.
  - intros (k & r & Hr & Hp). exists (k, r). split; [|done]. by apply list_elem_of_In, elem_of_map_to_list.
Qed.
Definition has_values (t : TableDef) (rows : gmap Bytes Row) (cols : list string) (values : Row) : bool :=
  exists_row rows (fun r => rows_equal (project t r cols) values).

Lemma has_values_iff t rows cols values : rows_ok t rows -> Forall value_ok values ->
  has_values t rows cols values = true <-> exists k r, rows !! k = Some r /\ project t r cols = values.
Proof.
  intros Hr Hv. unfold has_values. rewrite exists_row_iff.
  assert (Heq : forall k r, rows !! k = Some r -> rows_equal (project t r cols) values = true <-> project t r cols = values).
  { intros k r Hk. destruct (Hr k r Hk) as (_ & _ & Hf). apply rows_equal_eq; [|done]. by apply project_values_ok, row_values_ok. }
  split; intros (k & r & Hk & Hp); exists k, r; (split; [done|]); by apply (Heq k r Hk).
Qed.

(** A lookup by prefix finds the rows with these values, in an index whose
    leading columns they are and in the primary tree. *)
Lemma prefix_finds (t : TableDef) (rows : gmap Bytes Row) (cols : list string) (rest : Bytes -> Row -> Bytes) (values : Row) (key_of : Bytes -> Row -> Bytes) (c : gmap Bytes Bytes) :
  rows_ok t rows -> Forall (has_column t) cols -> typed values (types_of t cols) ->
  (forall k r, rows !! k = Some r -> key_of k r = encode_key (project t r cols) ++ rest k r /\ bytes_ok (rest k r)) ->
  (forall key, is_Some (c !! key) <-> exists k r, rows !! k = Some r /\ key = key_of k r) ->
  has_prefix (encode_key values) c = has_values t rows cols values.
Proof.
  intros Hr Hc Hv Hkey Hdom. apply eq_true_iff_eq. rewrite has_prefix_iff, has_values_iff by (done || by eapply typed_ok). split.
  - intros (key & Hk & s & ->). apply Hdom in Hk as (k & r & Hk & E). exists k, r. split; [done|].
    destruct (Hkey k r Hk) as [E2 Hb]. rewrite E2 in E. destruct (Hr k r Hk) as [_ Hg].
    assert (bytes_ok s).
    { assert (Hall : bytes_ok (encode_key values ++ s)).
      { rewrite E. apply bytes_ok_app. split; [|done]. apply encode_key_ok. eapply typed_ok. by apply project_typed. }
      by apply bytes_ok_app in Hall as [_ ?]. }
    symmetry. exact (proj1 (encode_key_split _ _ _ _ _ Hv (project_typed t r cols Hg Hc) H Hb E)).
  - intros (k & r & Hk & <-). destruct (Hkey k r Hk) as [E _]. exists (key_of k r). split; [apply Hdom; by exists k, r|].
    by exists (rest k r).
Qed.

Lemma is_prefix_app a : forall b, is_prefix a b = true -> exists c, b = a ++ c.
Proof.
  induction a as [|x a IH]; intros b H; [by exists b|]. destruct b as [|y b]; [done|]. cbn in H. apply andb_true_iff in H as [E H].
  apply String.eqb_eq in E as ->. destruct (IH b H) as [c ->]. by exists c.
Qed.

Lemma index_finds (t : TableDef) (idx : IndexDef) (rows : gmap Bytes Row) (cols : list string) (values : Row) (c : gmap Bytes Bytes) :
  rows_ok t rows -> index_resolves t idx -> is_prefix cols (ix_columns idx) = true -> typed values (types_of t cols) ->
  index_of t idx rows c -> has_prefix (encode_key values) c = has_values t rows cols values.
Proof.
  intros Hr Hi Hp Hv Hc. apply is_prefix_app in Hp as [more Em]. unfold index_resolves in Hi. rewrite Em in Hi. apply Forall_app in Hi as [Hi1 Hi2].
  apply (prefix_finds t rows cols (fun k r => encode_key (project t r more) ++ k) values (fun k r => index_key_of t idx r k)); try done.
  - intros k r Hk. destruct (Hr k r Hk) as [E Hg]. pose proof (row_values_ok _ (proj2 Hg)) as Hok. unfold index_key_of.
    rewrite Em, project_app, encode_key_app by (by apply project_values_ok). rewrite <- app_assoc. split; [done|].
    apply bytes_ok_app. split; [by apply encode_key_ok, project_values_ok|]. rewrite E. apply pk_key_bytes, Hg.
  - intros key. split.
    + intros [v Hk]. apply Hc in Hk as [_ ?]. done.
    + intros Hk. exists []. by apply Hc.
Qed.
Lemma primary_finds (t : TableDef) (rows : gmap Bytes Row) (cols : list string) (values : Row) :
  rows_ok t rows -> Forall (has_column t) (td_primary_key t) -> pk_supports t cols = true -> typed values (types_of t cols) ->
  has_prefix (encode_key values) (encode_row <$> rows) = has_values t rows cols values.
Proof.
  intros Hr Hi Hp Hv. unfold pk_supports in Hp. apply is_prefix_app in Hp as [more Em]. rewrite Em in Hi. apply Forall_app in Hi as [Hi1 Hi2].
  apply (prefix_finds t rows cols (fun k r => encode_key (project t r more)) values (fun k r => k)); try done.
  - intros k r Hk. destruct (Hr k r Hk) as [E Hg]. pose proof (row_values_ok _ (proj2 Hg)) as Hok. rewrite E. unfold pk_key_of.
    rewrite Em, project_app, encode_key_app by (by apply project_values_ok). split; [done|]. by apply encode_key_ok, project_values_ok.
  - intros key. rewrite lookup_fmap. split.
    + intros [v Hk]. destruct (rows !! key) as [r|] eqn:E; [|done]. by exists key, r.
    + intros (k & r & Hk & ->). rewrite Hk. by eexists.
Qed.
Lemma primary_found (t : TableDef) (rows : gmap Bytes Row) (values : Row) :
  rows_ok t rows -> Forall (has_column t) (td_primary_key t) -> typed values (types_of t (td_primary_key t)) ->
  bool_decide (is_Some (rows !! encode_key values)) = has_values t rows (td_primary_key t) values.
Proof.
  intros Hr Hi Hv. apply eq_true_iff_eq. rewrite bool_decide_eq_true, has_values_iff by (done || by eapply typed_ok). split.
  - intros [r Hk]. exists (encode_key values), r. split; [done|]. destruct (Hr _ _ Hk) as [E Hg]. unfold pk_key_of in E.
    symmetry. apply (encode_key_split (types_of t (td_primary_key t)) _ _ [] []); [done|by apply project_typed|constructor|constructor|].
    by rewrite !app_nil_r.
  - intros (k & r & Hk & <-). destruct (Hr _ _ Hk) as [E _]. exists r. by rewrite <- Hk, E.
Qed.
