(* ===== verification/StoreSpec.v ===== *)
(** What the rows of a store promise, without trees.

    The contents of a store are the rows of each table by primary key
    ([Data]).  [spec_insert], [spec_update] and [spec_remove] say when a
    change is refused and with which error, in the order in which the code
    finds it, and what the tables hold afterwards; a constraint is a question
    about the rows ([has_values]), not a lookup in an index.  [integrity] is
    what the constraints are for: rows of their tables, unique indexes, and a
    parent for every reference.  [StoreRefine] shows that the code computes
    these functions. *)

From stdpp Require Import base numbers list gmap strings.
From S2P Require Import Prelude Bytes PageFormat Types Record StoreSchema BTreeNode BTree Store Grove StoreRep.
From stdpp Require Import list.
Open Scope Z_scope.

Definition Data : Type := gmap string (gmap Bytes Row).
Definition rows_of (d : Data) (name : string) : gmap Bytes Row := default ∅ (d !! name).
Lemma rows_of_eq (d : Data) name rows : rows_of (<[name := rows]> d) name = rows.
Proof. unfold rows_of, Data in *. by rewrite lookup_insert_eq. Qed.
Lemma rows_of_ne (d : Data) name name' rows : name' <> name -> rows_of (<[name := rows]> d) name' = rows_of d name'.
Proof. intros Hne. unfold rows_of, Data in *. by rewrite lookup_insert_ne. Qed.

Section spec.
(** The longest key of a tree. *)
Variable max_key : nat.
Variable cat : Catalog.
Variable d : Data.

Fixpoint spec_indexes (t : TableDef) (who : string) (rows : gmap Bytes Row) (row : Row) (pk_key : Bytes) (old : option Row) (l : list IndexDef) : Result unit :=
  match l with
  | [] => Ret tt
  | idx :: l =>
      let values := project t row (ix_columns idx) in
      if unchanged t (ix_columns idx) row old then spec_indexes t who rows row pk_key old l
      else if (max_key <? length (encode_key values) + length pk_key)%nat then
        invalid_argument ("index key " +:+ ix_name idx +:+ " too long")
      else if ix_unique idx && negb (any_null values) && has_values t rows (ix_columns idx) values then
        constraint ("unique index " +:+ ix_name idx +:+ " on " +:+ who)
      else spec_indexes t who rows row pk_key old l
  end.

Definition parent_of (t : TableDef) (fk : ForeignKeyDef) : option TableDef :=
  if String.eqb (fk_ref_table fk) (td_name t) then Some t else StoreSchema.table cat (fk_ref_table fk).

(** A row with these values in the referenced columns. *)
Definition has_parent (t : TableDef) (fk : ForeignKeyDef) (values : Row) : bool :=
  match parent_of t fk with
  | Some parent => has_values parent (rows_of d (fk_ref_table fk)) (fk_ref_columns fk) values
  | None => false
  end.
Fixpoint spec_parents (t : TableDef) (row : Row) (old : option Row) (fks : list ForeignKeyDef) : Result unit :=
  match fks with
  | [] => Ret tt
  | fk :: fks =>
      let values := project t row (fk_columns fk) in
      if any_null values || unchanged t (fk_columns fk) row old || has_parent t fk values then spec_parents t row old fks
      else constraint ("foreign key " +:+ fk_name fk +:+ " on " +:+ td_name t +:+ ": no parent row in " +:+ fk_ref_table fk)
  end.

Fixpoint spec_children_by (t : TableDef) (row : Row) (new : option Row) (child : TableDef) (fks : list ForeignKeyDef) : Result unit :=
  match fks with
  | [] => Ret tt
  | fk :: fks =>
      let values := project t row (fk_ref_columns fk) in
      if String.eqb (fk_ref_table fk) (td_name t) && negb (any_null values) && negb (unchanged t (fk_ref_columns fk) row new)
         && has_values child (rows_of d (td_name child)) (fk_columns fk) values
      then constraint ("foreign key " +:+ fk_name fk +:+ " on " +:+ td_name child +:+ ": row of " +:+ td_name t +:+ " is referenced")
      else spec_children_by t row new child fks
  end.
Fixpoint spec_children (t : TableDef) (row : Row) (new : option Row) (l : list (string * TableDef)) : Result unit :=
  match l with
  | [] => Ret tt
  | (_, child) :: l =>
      let? _ := spec_children_by t row new child (td_foreign_keys child) in
      spec_children t row new l
  end.

(** A change of the rows of [name], unless refused. *)
Definition changing (name : string) (r : Result unit) (f : gmap Bytes Row -> gmap Bytes Row) : Result unit * Data :=
  match r with
  | Ret _ => (Ret tt, <[name := f (rows_of d name)]> d)
  | Err e => (Err e, d)
  end.
Definition guard (b : bool) (r : Result unit) : Result unit := if b then Ret tt else r.

Definition insert_allowed (t : TableDef) (row : Row) : Result unit :=
  let pk_key := pk_key_of t row in
  let rows := rows_of d (td_name t) in
  let? _ := validate_row t row in
  let? _ := guard (length pk_key <=? max_key)%nat (invalid_argument ("primary key of " +:+ td_name t +:+ " too long")) in
  let? _ := guard (bool_decide (rows !! pk_key = None)) (constraint ("primary key of " +:+ td_name t)) in
  let? _ := spec_indexes t (td_name t) rows row pk_key None (td_indexes t) in
  spec_parents t row None (td_foreign_keys t).
Definition spec_insert (name : string) (row : Row) : Result unit * Data :=
  match StoreSchema.table cat name with
  | None => (not_found ("no table " +:+ name), d)
  | Some t => changing name (insert_allowed t row) <[pk_key_of t row := row]>
  end.

Definition update_allowed (t : TableDef) (old row : Row) : Result unit :=
  let? _ := spec_indexes t (td_name t) (rows_of d (td_name t)) row (pk_key_of t row) (Some old) (td_indexes t) in
  let? _ := spec_parents t row (Some old) (td_foreign_keys t) in
  spec_children t old (Some row) (tables cat).
Definition spec_update (name : string) (row : Row) : Result unit * Data :=
  match StoreSchema.table cat name with
  | None => (not_found ("no table " +:+ name), d)
  | Some t =>
      match validate_row t row, rows_of d name !! pk_key_of t row with
      | Err e, _ => (Err e, d)
      | Ret _, None => (not_found ("no row with that primary key in " +:+ name), d)
      | Ret _, Some old =>
          if rows_equal old row then (Ret tt, d)
          else changing name (update_allowed t old row) <[pk_key_of t row := row]>
      end
  end.

Definition spec_remove (name : string) (primary_key : Row) : Result unit * Data :=
  match StoreSchema.table cat name with
  | None => (not_found ("no table " +:+ name), d)
  | Some t =>
      if negb (length primary_key =? length (td_primary_key t))%nat then
        (invalid_argument ("primary key of " +:+ name +:+ " has "
          +:+ to_string (Z.of_nat (length (td_primary_key t))) +:+ " columns"), d)
      else
        match primary_key_ok t primary_key (td_primary_key t), rows_of d name !! encode_key primary_key with
        | Err e, _ => (Err e, d)
        | Ret _, None => (not_found ("no row with that primary key in " +:+ name), d)
        | Ret _, Some old => changing name (spec_children t old None (tables cat)) (base.delete (encode_key primary_key))
        end
  end.
End spec.

Inductive RowOp :=
  | RInsert (name : string) (row : Row)
  | RUpdate (name : string) (row : Row)
  | RRemove (name : string) (primary_key : Row).
Definition spec_row_op (max_key : nat) (cat : Catalog) (d : Data) (op : RowOp) : Result unit * Data :=
  match op with
  | RInsert name row => spec_insert max_key cat d name row
  | RUpdate name row => spec_update max_key cat d name row
  | RRemove name key => spec_remove cat d name key
  end.
