(* ===== verification/StoreReads.v ===== *)
(** The store's reads answer the questions of the specification.

    [catalog_ok] is what the schema operations maintain of a catalog, and
    [store_rep] that its trees hold the given rows.  Over such trees the
    constraint checks of the code return exactly what [StoreSpec] says and
    change nothing ([gives]).  The proofs use the interface [Groves] only. *)

From stdpp Require Import base numbers list gmap strings sorting functions.
From S2P Require Import Prelude Bytes PageFormat Types Record StoreSchema BTreeNode BTree BTreeRead BTreePut Store Grove StoreRep StoreSpec.
From stdpp Require Import list.
Open Scope Z_scope.

(** * Catalogs *)

Definition roots_of (t : TableDef) : list PageNo := td_root t :: map ix_root (td_indexes t).
Definition all_roots (cat : Catalog) : list PageNo := concat (map (fun x : string * TableDef => roots_of (snd x)) (tables cat)).
(** What [create_table], [create_index] and the drops maintain. *)
Record catalog_ok (cat : Catalog) : Prop := {
  co_names : Forall (fun x => td_name (snd x) = fst x) (tables cat);
  co_nodup : NoDup (map fst (tables cat));
  co_valid : Forall (fun x => validate_table_def cat (snd x) = Ret tt) (tables cat);
  co_roots : NoDup (all_roots cat)
}.

Lemma table_in cat name t : StoreSchema.table cat name = Some t -> (name, t) ∈ tables cat.
Proof.
  unfold StoreSchema.table. intros Ht. destruct (List.find _ (tables cat)) as [[n u]|] eqn:E; [|done]. injection Ht as <-.
  apply List.find_some in E as [Hin En]. apply String.eqb_eq in En as <-. by apply list_elem_of_In.
Qed.
Lemma in_table cat name t : NoDup (map fst (tables cat)) -> (name, t) ∈ tables cat -> StoreSchema.table cat name = Some t.
Proof.
  unfold StoreSchema.table. induction (tables cat) as [|[n u] l IH]; cbn [map fst List.find]; [by intros _ ?%not_elem_of_nil|].
  intros [Hn Hnd]%NoDup_cons Hin. destruct (String.eqb_spec n name) as [->|Hne].
  - apply elem_of_cons in Hin as [[= ->]|Hin]; [done|]. exfalso. apply Hn. exact (list_elem_of_fmap_2 fst _ _ Hin).
  - apply elem_of_cons in Hin as [[= -> ->]|Hin]; [done|]. by apply IH.
Qed.

Lemma root_of_two_tables cat x y : NoDup (all_roots cat) -> x ∈ tables cat -> y ∈ tables cat -> x <> y ->
  forall r, r ∈ roots_of (snd x) -> r ∉ roots_of (snd y).
Proof.
  unfold all_roots. induction (tables cat) as [|z l IH]; [by intros _ ?%not_elem_of_nil|]. cbn [map concat].
  intros (_ & Hd & Hn)%NoDup_app Hx Hy Hne r Hr Hr'.
  assert (Hin : forall u, u ∈ l -> forall q, q ∈ roots_of (snd u) -> q ∈ concat (map (fun x : string * TableDef => roots_of (snd x)) l)).
  { intros u Hu q Hq. apply list_elem_of_In, List.in_concat. exists (roots_of (snd u)). split; [|by apply list_elem_of_In].
    apply List.in_map_iff. exists u. split; [done|by apply list_elem_of_In]. }
  apply elem_of_cons in Hx as [->|Hx]; apply elem_of_cons in Hy as [->|Hy].
  - done.
  - apply (Hd r Hr). by eapply Hin.
  - apply (Hd r Hr'). by eapply Hin.
  - by eapply IH.
Qed.
Lemma roots_nodup cat x : NoDup (all_roots cat) -> x ∈ tables cat -> NoDup (roots_of (snd x)).
Proof.
  unfold all_roots. induction (tables cat) as [|z l IH]; [by intros _ ?%not_elem_of_nil|]. cbn [map concat].
  intros (Hz & _ & Hn)%NoDup_app [->|Hx]%elem_of_cons; [done|by apply IH].
Qed.

(** What validation says of a foreign key. *)
Record fk_sound (cat : Catalog) (t : TableDef) (fk : ForeignKeyDef) (parent : TableDef) : Prop := {
  fs_parent : parent_of cat t fk = Some parent;
  fs_columns : Forall (has_column t) (fk_columns fk);
  fs_refs : Forall (has_column parent) (fk_ref_columns fk);
  fs_types : types_of t (fk_columns fk) = types_of parent (fk_ref_columns fk);
  fs_unique : unique_target parent (fk_ref_columns fk) = true;
  fs_supported : pk_supports t (fk_columns fk) = true \/ is_Some (supporting_index t (fk_columns fk))
}.
Lemma fk_columns_sound t parent who cols : forall refs, fk_columns_ok t parent who cols refs = Ret tt -> length cols = length refs ->
  Forall (has_column t) cols /\ Forall (has_column parent) refs /\ types_of t cols = types_of parent refs.
Proof.
  induction cols as [|c cols IH]; intros [|r refs] Hok Hl; [by split_and!; constructor|done..|]. cbn [fk_columns_ok] in Hok.
  destruct (column_index t c) as [i|] eqn:E; [|done]. destruct (column_index parent r) as [j|] eqn:E2; [|done].
  case_bool_decide as Ht; [|done]. cbn [negb orb] in Hok. destruct (negb _); [done|].
  destruct (IH refs Hok ltac:(by injection Hl)) as (H1 & H2 & H3). split_and!; [constructor; [by exists i|done]|constructor; [by exists j|done]|].
  unfold types_of in *. cbn [map]. by rewrite Ht, H3.
Qed.
Lemma validate_fk_sound cat t fk : validate_foreign_key cat t fk = Ret tt -> exists parent, fk_sound cat t fk parent.
Proof.
  unfold validate_foreign_key. destruct (String.eqb (fk_name fk) _); [done|]. case_bool_decide; [done|].
  destruct (Nat.eqb_spec (length (fk_columns fk)) (length (fk_ref_columns fk))) as [Hl|]; [|done]. cbn [orb negb].
  fold (parent_of cat t fk). destruct (parent_of cat t fk) as [parent|] eqn:Ep; [|done].
  destruct (unique_target parent (fk_ref_columns fk)) eqn:Eu; [|done]. cbn [negb].
  destruct (fk_columns_ok t parent _ _ _) as [[]|] eqn:E2; [|done]. cbn [rbind].
  destruct (pk_supports t (fk_columns fk)) eqn:Es; cbn [negb andb]; [|case_bool_decide as Hs; [done|]]; intros _;
    destruct (fk_columns_sound _ _ _ _ _ E2 Hl) as (H1 & H2 & H3); exists parent; constructor; try done; [by left|right].
  by destruct (supporting_index t (fk_columns fk)).
Qed.
Lemma validate_fks_sound cat t l : forall names, validate_foreign_keys cat t names l = Ret tt -> Forall (fun fk => exists parent, fk_sound cat t fk parent) l.
Proof.
  induction l as [|fk l IH]; intros names; cbn [validate_foreign_keys]; [constructor|]. case_bool_decide; [done|].
  destruct (validate_foreign_key cat t fk) as [[]|] eqn:E; [|done]. cbn [rbind]. intros Hl. constructor; [by apply validate_fk_sound|by eapply IH].
Qed.
Lemma valid_fks cat t : validate_table_def cat t = Ret tt -> Forall (fun fk => exists parent, fk_sound cat t fk parent) (td_foreign_keys t).
Proof.
  unfold validate_table_def. destruct (String.eqb (td_name t) ""); [done|]. case_bool_decide; [done|]. destruct (4096 <? _)%nat; [done|].
  destruct (validate_columns t [] (td_columns t)) as [[]|]; [|done]. cbn [rbind]. case_bool_decide; [done|].
  destruct (columns_ok t _ [] (td_primary_key t)) as [[]|]; [|done]. cbn [rbind].
  destruct (validate_indexes t 0 (td_indexes t)) as [[]|]; [|done]. cbn [rbind].
  destruct (validate_foreign_keys cat t [] (td_foreign_keys t)) as [[]|] eqn:Ef; [|done]. intros _. by eapply validate_fks_sound.
Qed.

Section catalog.
Context (cat : Catalog) (Hcat : catalog_ok cat).
Lemma table_name name t : (name, t) ∈ tables cat -> td_name t = name.
Proof. intros Hin. pose proof (co_names _ Hcat) as H. rewrite Forall_forall in H. exact (H _ Hin). Qed.
Lemma table_valid name t : (name, t) ∈ tables cat -> validate_table_def cat t = Ret tt.
Proof. intros Hin. pose proof (co_valid _ Hcat) as H. rewrite Forall_forall in H. exact (H _ Hin). Qed.
Lemma table_resolves name t : (name, t) ∈ tables cat -> names_resolve t.
Proof. intros Hin. apply (valid_def_resolves cat). by apply (table_valid name). Qed.
Lemma table_fks name t fk : (name, t) ∈ tables cat -> fk ∈ td_foreign_keys t -> exists parent, fk_sound cat t fk parent.
Proof. intros Hin Hfk. pose proof (valid_fks cat t (table_valid _ _ Hin)) as H. rewrite Forall_forall in H. by apply H. Qed.
(** The parent of a foreign key is a table of the catalog, under the name the
    key has for it. *)
Lemma parent_table name t fk parent : (name, t) ∈ tables cat -> parent_of cat t fk = Some parent -> (fk_ref_table fk, parent) ∈ tables cat.
Proof.
  intros Hin. unfold parent_of. destruct (String.eqb_spec (fk_ref_table fk) (td_name t)) as [->|]; [|apply table_in].
  intros [= <-]. by rewrite (table_name _ _ Hin).
Qed.
End catalog.

(** * Reading *)

Section refine.
Context {W : Type} `{PageStore W} (ls : Lengths) `{!Groves W ls}.

(** [c] returns [r] and leaves the trees as they are. *)
Definition gives {A} (c : M W A) (g : Grove) (r : Result A) : Prop :=
  forall w, grove_at w g -> exists w', c w = (r, w') /\ grove_at w' g.

Lemma gives_lift {A} (r : Result A) g : gives (lift r) g r.
Proof. intros w Hw. by exists w. Qed.
Lemma gives_bind {A B} (c : M W A) (k : A -> M W B) g r (k' : A -> Result B) :
  gives c g r -> (forall a, r = Ret a -> gives (k a) g (k' a)) -> gives (bind c k) g (rbind r k').
Proof.
  intros Hc Hk w Hw. destruct (Hc w Hw) as (w1 & E & Hw1). unfold bind. rewrite E. destruct r as [a|e]; cbn [rbind].
  - apply (Hk a eq_refl w1 Hw1).
  - by exists w1.
Qed.
Lemma gives_ret {A B} (c : M W A) (k : A -> M W B) g a r : gives c g (Ret a) -> gives (k a) g r -> gives (bind c k) g r.
Proof. intros Hc Hk. change r with (rbind (Ret a) (fun _ => r)). apply gives_bind; [done|]. by intros ? [= ->]. Qed.

Section reader.
Context (fuel : nat) (cat : Catalog) (d : Data) (g : Grove) (Hcat : catalog_ok cat).
(** The trees of the catalog hold the rows [d]; cursors may visit every page. *)
Definition store_rep (g : Grove) (d : Data) : Prop := forall name t, (name, t) ∈ tables cat -> table_rep (g_trees g) t (rows_of d name).
Definition heights (g : Grove) (h : nat) : Prop := Forall (fun r => (g_height g r <= h)%nat) (all_roots cat).
Context (Hrep : store_rep g d) (Hh : heights g 64) (Hfuel : (g_pages g <= fuel)%nat).

Lemma root_in name t r : (name, t) ∈ tables cat -> r ∈ roots_of t -> r ∈ all_roots cat.
Proof.
  intros Hin Hr. unfold all_roots. apply list_elem_of_In, List.in_concat. exists (roots_of t). split; [|by apply list_elem_of_In].
  apply List.in_map_iff. exists (name, t). split; [done|by apply list_elem_of_In].
Qed.
Lemma root_height name t r : (name, t) ∈ tables cat -> r ∈ roots_of t -> (g_height g r <= 64)%nat.
Proof. intros Hin Hr. unfold heights in Hh. rewrite Forall_forall in Hh. apply Hh. by eapply root_in. Qed.
Lemma pk_root t : td_root t ∈ roots_of t.
Proof. by left. Qed.
Lemma ix_root_in t idx : idx ∈ td_indexes t -> ix_root idx ∈ roots_of t.
Proof. intros H1. right. exact (list_elem_of_fmap_2 ix_root _ _ H1). Qed.

Lemma gives_get b name t key : (name, t) ∈ tables cat ->
  gives (BTree.get (mkBTree (td_root t) b) key) g (Ret (encode_row <$> rows_of d name !! key)).
Proof.
  intros Hin w Hw. rewrite <- lookup_fmap. apply grove_get; [done|apply Hrep, Hin|]. by eapply root_height, pk_root.
Qed.
Lemma gives_get_by_key b name t key : (name, t) ∈ tables cat -> gives (get_by_key b t key) g (Ret (rows_of d name !! key)).
Proof.
  intros Hin. unfold get_by_key, Store.tree. eapply gives_ret; [by apply gives_get|]. destruct (rows_of d name !! key) as [row|] eqn:E; [|apply gives_lift].
  cbn [fmap option_fmap option_map]. destruct (rep_ok _ _ _ (Hrep _ _ Hin) _ _ E) as (_ & _ & Hf).
  rewrite decode_encode_row by done. eapply gives_ret; apply gives_lift.
Qed.
Lemma gives_prefix b r c values : g_trees g !! r = Some c -> (g_height g r <= 64)%nat ->
  gives (prefix_exists fuel b r values) g (Ret (has_prefix (encode_key values) c)).
Proof.
  intros Hr Hr64 w Hw. unfold prefix_exists, Store.tree, bind.
  destruct (grove_seek w g r c b (encode_key values) fuel Hw Hr Hr64 Hfuel) as (cur & bef & aft & w' & E & Hw' & Hb & Ha).
  exists w'. rewrite E. unfold ret. rewrite (first_has_prefix (encode_key values) c cur r bef aft); [|by apply (grove_mark w' (marked g (mkMark r cur bef aft))); [|left|]|done|done].
  split; [done|]. by eapply grove_unmark.
Qed.

(** The rows with given values, by an index whose leading columns have them
    and by the primary key. *)
Lemma gives_index b name t idx cols values : (name, t) ∈ tables cat -> idx ∈ td_indexes t -> is_prefix cols (ix_columns idx) = true ->
  typed values (types_of t cols) -> gives (prefix_exists fuel b (ix_root idx) values) g (Ret (has_values t (rows_of d name) cols values)).
Proof.
  intros Hin Hidx Hp Hv. pose proof (Hrep _ _ Hin) as [_ Hok Hix]. rewrite Forall_forall in Hix. destruct (Hix idx Hidx) as (c & Hc & Hof).
  pose proof (table_resolves cat Hcat _ _ Hin) as Hres. pose proof (nr_indexes _ Hres) as Hni. rewrite Forall_forall in Hni.
  rewrite <- (index_finds t idx (rows_of d name) cols values c); [|done|by apply (Hni idx)|done|done|done].
  apply gives_prefix; [done|]. eapply root_height; [done|by apply ix_root_in].
Qed.
Lemma gives_primary b name t cols values : (name, t) ∈ tables cat -> pk_supports t cols = true -> typed values (types_of t cols) ->
  gives (prefix_exists fuel b (td_root t) values) g (Ret (has_values t (rows_of d name) cols values)).
Proof.
  intros Hin Hp Hv. pose proof (Hrep _ _ Hin) as [Hr Hok _]. pose proof (nr_pk _ (table_resolves cat Hcat _ _ Hin)) as (_ & _ & Hpk).
  rewrite <- (primary_finds t (rows_of d name) cols values) by done. apply gives_prefix; [done|]. eapply root_height, pk_root. done.
Qed.

Lemma is_prefix_refl l : is_prefix l l = true.
Proof. induction l as [|x l IH]; cbn; [done|]. by rewrite String.eqb_refl. Qed.

(** ** Unique indexes *)

Lemma check_indexes_gives b name t who row pk_key old : (name, t) ∈ tables cat -> good_row t row -> forall l, l ⊆ td_indexes t ->
  gives (check_indexes fuel b t who row pk_key old l) g (spec_indexes max_key_bytes t who (rows_of d name) row pk_key old l).
Proof.
  intros Hin Hrow. induction l as [|idx l IH]; intros Hl; cbn [check_indexes spec_indexes]; [apply gives_lift|].
  assert (Hidx : idx ∈ td_indexes t) by (apply Hl; by left). assert (Hl' : l ⊆ td_indexes t) by (intros x Hx; apply Hl; by right). specialize (IH Hl').
  destruct (unchanged _ _ _ _); [done|]. destruct (max_key_bytes <? _)%nat; [apply gives_lift|].
  destruct (ix_unique idx), (any_null (project t row (ix_columns idx))); cbn [negb orb andb]; try done.
  unfold index_prefix_exists. eapply gives_ret.
  { eapply (gives_index _ _ _ _ (ix_columns idx)); [done|done|apply is_prefix_refl|]. apply project_typed; [done|].
    pose proof (nr_indexes _ (table_resolves cat Hcat _ _ Hin)) as Hni. rewrite Forall_forall in Hni. by apply (Hni idx). }
  destruct (has_values _ _ _ _); [apply gives_lift|done].
Qed.

(** ** Foreign keys *)

Lemma unique_index_found (l : list IndexDef) (columns : list string) : forall found,
  (existsb (fun idx => ix_unique idx && same_names (ix_columns idx) columns) l = true \/ is_Some found) ->
  (forall idx, found = Some idx -> ix_columns idx = columns) ->
  exists idx, fold_left (fun found idx => if ix_unique idx && same_names (ix_columns idx) columns then Some idx else found) l found = Some idx
    /\ ix_columns idx = columns /\ (idx ∈ l \/ found = Some idx).
Proof.
  induction l as [|x l IH]; intros found Hex Hf; cbn [fold_left existsb] in *.
  - destruct Hex as [|[idx ->]]; [done|]. exists idx. split_and!; [done|by apply Hf|by right].
  - destruct (ix_unique x && same_names (ix_columns x) columns) eqn:E.
    + assert (Hx : ix_columns x = columns) by (apply andb_true_iff in E as [_ E]; by apply bool_decide_eq_true in E).
      destruct (IH (Some x)) as (idx & E2 & Hc & Hin); [by right; eexists|by intros ? [= <-]|]. exists idx. split_and!; [done|done|].
      left. destruct Hin as [|[= ->]]; [by right|by left].
    + destruct (IH found) as (idx & E2 & Hc & Hin); [done|done|]. exists idx. split_and!; [done|done|]. destruct Hin; [left; by right|by right].
Qed.

Lemma parent_exists_gives b name t fk values : (name, t) ∈ tables cat -> fk ∈ td_foreign_keys t -> typed values (types_of t (fk_columns fk)) ->
  exists parent, parent_of cat t fk = Some parent /\ td_name parent = fk_ref_table fk
    /\ gives (parent_exists fuel b t fk parent values) g (Ret (has_parent cat d t fk values)).
Proof.
  intros Hin Hfk Hv. destruct (table_fks cat Hcat _ _ _ Hin Hfk) as (parent & Hs). pose proof (fs_parent _ _ _ _ Hs) as Hp. exists parent.
  pose proof (parent_table cat Hcat _ _ _ _ Hin Hp) as Hpin. pose proof (table_name cat Hcat _ _ Hpin) as Hname. split_and!; [done|done|].
  rewrite (fs_types _ _ _ _ Hs) in Hv. pose proof (table_resolves cat Hcat _ _ Hpin) as Hres.
  unfold parent_exists, has_parent. rewrite Hp. case_eq (same_names (fk_ref_columns fk) (td_primary_key parent)).
  - intros E%bool_decide_eq_true. eapply gives_ret; [by apply gives_get_by_key|]. rewrite E in *.
    rewrite (primary_found parent); [apply gives_lift|apply (rep_ok _ _ _ (Hrep _ _ Hpin))|apply (nr_pk _ Hres)|done].
  - intros E. pose proof (fs_unique _ _ _ _ Hs) as Hu. unfold unique_target in Hu. rewrite E in Hu. cbn [orb] in Hu.
    destruct (unique_index_found (td_indexes parent) (fk_ref_columns fk) None) as (idx & E2 & Hc & Hi); [by left|done|].
    unfold unique_index_on. rewrite E2. destruct Hi as [Hi|]; [|done]. unfold index_prefix_exists.
    eapply gives_index; [done|done|rewrite Hc; apply is_prefix_refl|done].
Qed.

Lemma check_parents_gives b name t row old : (name, t) ∈ tables cat -> good_row t row -> forall fks, fks ⊆ td_foreign_keys t ->
  gives (check_parents fuel b cat t row old fks) g (spec_parents cat d t row old fks).
Proof.
  intros Hin Hrow. induction fks as [|fk fks IH]; intros Hl; cbn [check_parents spec_parents]; [apply gives_lift|].
  assert (Hfk : fk ∈ td_foreign_keys t) by (apply Hl; by left). specialize (IH ltac:(intros x Hx; apply Hl; by right)).
  destruct (any_null _); cbn [orb]; [done|]. destruct (unchanged _ _ _ _); cbn [orb]; [done|].
  destruct (parent_exists_gives b name t fk (project t row (fk_columns fk)) Hin Hfk) as (parent & Hp & Hname & Hg).
  { apply project_typed; [done|]. destruct (table_fks cat Hcat _ _ _ Hin Hfk) as (p & Hs). apply Hs. }
  fold (parent_of cat t fk). rewrite Hp. eapply gives_ret; [exact Hg|]. destruct (has_parent _ _ _ _ _); cbn [negb]; [done|].
  rewrite Hname. apply gives_lift.
Qed.

Lemma child_exists_gives b name child fk values : (name, child) ∈ tables cat -> fk ∈ td_foreign_keys child -> typed values (types_of child (fk_columns fk)) ->
  gives (child_exists fuel b child fk values) g (Ret (has_values child (rows_of d name) (fk_columns fk) values)).
Proof.
  intros Hin Hfk Hv. destruct (table_fks cat Hcat _ _ _ Hin Hfk) as (parent & Hs). unfold child_exists.
  destruct (pk_supports child (fk_columns fk)) eqn:E; [by apply gives_primary|].
  destruct (fs_supported _ _ _ _ Hs) as [?|[idx Hi]]; [congruence|]. rewrite Hi. unfold supporting_index in Hi. apply List.find_some in Hi as [Hi1 Hi2].
  apply gives_index; [done|by apply list_elem_of_In|done|done].
Qed.
Lemma no_children_by_gives b name t row new cname child : (name, t) ∈ tables cat -> good_row t row -> (cname, child) ∈ tables cat ->
  forall fks, fks ⊆ td_foreign_keys child ->
  gives (no_children_by fuel b t row new child fks) g (spec_children_by d t row new child fks).
Proof.
  intros Hin Hrow Hc. induction fks as [|fk fks IH]; intros Hl; cbn [no_children_by spec_children_by]; [apply gives_lift|].
  assert (Hfk : fk ∈ td_foreign_keys child) by (apply Hl; by left). specialize (IH ltac:(intros x Hx; apply Hl; by right)).
  destruct (String.eqb_spec (fk_ref_table fk) (td_name t)) as [E|]; cbn [negb andb]; [|done].
  destruct (any_null _); cbn [negb andb]; [done|]. destruct (unchanged _ _ _ _); cbn [negb andb]; [done|].
  destruct (table_fks cat Hcat _ _ _ Hc Hfk) as (parent & Hs). pose proof (parent_table cat Hcat _ _ _ _ Hc (fs_parent _ _ _ _ Hs)) as Hpin.
  rewrite E, (table_name cat Hcat _ _ Hin) in Hpin.
  assert (parent = t) as ->. { pose proof (in_table _ _ _ (co_nodup _ Hcat) Hpin). pose proof (in_table _ _ _ (co_nodup _ Hcat) Hin). congruence. }
  eapply gives_ret.
  { apply child_exists_gives; [exact Hc|done|]. rewrite (fs_types _ _ _ _ Hs). apply project_typed; [done|apply Hs]. }
  rewrite (table_name cat Hcat _ _ Hc). destruct (has_values _ _ _ _); [apply gives_lift|done].
Qed.
Lemma check_no_children_gives b name t row new : (name, t) ∈ tables cat -> good_row t row ->
  gives (check_no_children fuel b cat t row new) g (spec_children d t row new (tables cat)).
Proof.
  intros Hin Hrow. unfold check_no_children. assert (Hl : tables cat ⊆ tables cat) by done. revert Hl.
  generalize (tables cat) at 1 3 4. induction l as [|[cn child] l IH]; intros Hl; cbn [no_children_in spec_children]; [apply gives_lift|].
  apply gives_bind; [eapply no_children_by_gives; [done|done|apply Hl; by left|done]|]. intros _ _. apply IH. intros x Hx. apply Hl. by right.
Qed.
End reader.
End refine.
