(* ===== verification/StoreRefine.v ===== *)
(** The store's row operations compute the specification: [insert], [update]
    and [remove] leave trees that hold the specified rows, and on an error
    the trees are as they were. *)

From stdpp Require Import base numbers list gmap strings sorting functions.
From S2P Require Import Prelude Bytes PageFormat Types Record StoreSchema BTreeNode BTree BTreeRead BTreePut Store Grove StoreRep StoreSpec StoreReads.
From stdpp Require Import list.
Open Scope Z_scope.

(** * Index trees under changes of the rows *)

Section index.
Context (t : TableDef) (idx : IndexDef) (rows : gmap Bytes Row) (Hok : rows_ok t rows) (Hi : index_resolves t idx).

Lemma rows_key_bytes k r : rows !! k = Some r -> bytes_ok k.
Proof. intros Hk. destruct (Hok k r Hk) as (-> & Hg). apply pk_key_bytes, Hg. Qed.

Lemma index_of_delete c k r : index_of t idx rows c -> rows !! k = Some r ->
  index_of t idx (base.delete k rows) (base.delete (index_key_of t idx r k) c) /\ is_Some (c !! index_key_of t idx r k).
Proof.
  intros Hc Hk. split; [|exists []; apply Hc; split; [done|by exists k, r]]. intros key v. rewrite lookup_delete_Some, (Hc key v). split.
  - intros (Hne & -> & k' & r' & Hk' & ->). split; [done|]. exists k', r'. split; [|done]. rewrite lookup_delete_ne; [done|]. intros <-. congruence.
  - intros (-> & k' & r' & [Hne Hk']%lookup_delete_Some & ->). split_and!; [|done|by exists k', r']. intros E.
    apply index_key_inj in E as [_ ->]; [done|done|apply (Hok _ _ Hk)|apply (Hok _ _ Hk')|by eapply rows_key_bytes|by eapply rows_key_bytes].
Qed.
Lemma index_of_insert c k r : index_of t idx (base.delete k rows) c -> index_of t idx (<[k := r]> rows) (<[index_key_of t idx r k := []]> c).
Proof.
  intros Hc key v. rewrite lookup_insert_Some, (Hc key v). split.
  - intros [[<- <-]|(Hne & -> & k' & r' & [Hk Hk']%lookup_delete_Some & ->)]; (split; [done|]).
    + exists k, r. by rewrite lookup_insert_eq.
    + exists k', r'. by rewrite lookup_insert_ne.
  - intros (-> & k' & r' & Hk' & ->). destruct (decide (index_key_of t idx r k = index_key_of t idx r' k')) as [|Hne]; [by left|right].
    split_and!; [done|done|]. apply lookup_insert_Some in Hk' as [[-> ->]|[Hk Hk']]; [done|]. exists k', r'. by rewrite lookup_delete_ne.
Qed.
Lemma index_of_same c k r0 r : index_of t idx rows c -> rows !! k = Some r0 -> project t r (ix_columns idx) = project t r0 (ix_columns idx) ->
  index_of t idx (<[k := r]> rows) c.
Proof.
  intros Hc Hk Hp key v. rewrite (Hc key v).
  assert (E : index_key_of t idx r k = index_key_of t idx r0 k) by (unfold index_key_of; by rewrite Hp).
  split; intros (-> & k' & r' & Hk' & ->); (split; [done|]).
  - destruct (decide (k' = k)) as [->|Hne]; [exists k, r; rewrite lookup_insert_eq; split; [done|]; by simplify_eq|].
    exists k', r'. by rewrite lookup_insert_ne.
  - apply lookup_insert_Some in Hk' as [[<- <-]|[Hne Hk']]; [by exists k, r0|by exists k', r'].
Qed.
End index.

(** * Writing *)

Section write.
Context {W : Type} `{PageStore W} (ls : Lengths) `{!Groves W ls}.

(** [c] ends with a result and trees that satisfy [Q]. *)
Definition does {A} (c : M W A) (g : Grove) (Q : Result A -> Grove -> Prop) : Prop :=
  forall w, grove_at w g -> exists r w' g', c w = (r, w') /\ grove_at w' g' /\ Q r g'.

Lemma does_lift {A} (r : Result A) g (Q : Result A -> Grove -> Prop) : Q r g -> does (lift r) g Q.
Proof. intros HQ w Hw. by exists r, w, g. Qed.
Lemma does_after {A B} (c : M W A) (k : A -> M W B) g r (Q : Result B -> Grove -> Prop) :
  gives ls c g r -> match r with Ret a => does (k a) g Q | Err e => Q (Err e) g end -> does (bind c k) g Q.
Proof.
  intros Hc Hk w Hw. destruct (Hc w Hw) as (w1 & E & Hw1). unfold bind. rewrite E. destruct r as [a|e]; [by apply Hk|]. by exists (Err e), w1, g.
Qed.
Lemma does_bind {A B} (c : M W A) (k : A -> M W B) g (P : A -> Grove -> Prop) (Q : Result B -> Grove -> Prop) :
  does c g (fun r g' => exists a, r = Ret a /\ P a g') -> (forall a g', P a g' -> does (k a) g' Q) -> does (bind c k) g Q.
Proof.
  intros Hc Hk w Hw. destruct (Hc w Hw) as (r & w1 & g1 & E & Hw1 & a & -> & HP). unfold bind. rewrite E. by apply (Hk a g1 HP).
Qed.
Lemma does_conseq {A} (c : M W A) g (Q Q' : Result A -> Grove -> Prop) : does c g Q -> (forall r g', Q r g' -> Q' r g') -> does c g Q'.
Proof. intros Hc HQ w Hw. destruct (Hc w Hw) as (r & w' & g' & E & Hw' & Hq). exists r, w', g'. auto. Qed.

(** Only the trees at [rs] changed; their heights grew by [k] at most, and at
    most [cost] allocations were taken. *)
Record only (rs : list PageNo) (k cost : nat) (g g' : Grove) : Prop := {
  only_trees q : q ∉ rs -> g_trees g' !! q = g_trees g !! q;
  only_heights q : (g_height g' q <= g_height g q + k)%nat;
  only_room : (g_room g <= g_room g' + cost)%nat;
  only_pages : g_pages g' = g_pages g
}.
Lemma only_refl g : only [] 0 0 g g.
Proof. constructor; [done|intros; lia|lia|done]. Qed.
Lemma only_trans rs1 rs2 k1 k2 c1 c2 g g1 g2 : only rs1 k1 c1 g g1 -> only rs2 k2 c2 g1 g2 -> only (rs1 ++ rs2) (k1 + k2) (c1 + c2) g g2.
Proof.
  intros [T1 H1 R1 P1] [T2 H2 R2 P2]. constructor.
  - intros q [Hq1 Hq2]%not_elem_of_app. by rewrite T2, T1.
  - intros q. specialize (H1 q). specialize (H2 q). lia.
  - lia.
  - congruence.
Qed.
Lemma only_weaken rs rs' k cost g g' : rs ⊆ rs' -> only rs k cost g g' -> only rs' k cost g g'.
Proof. intros Hs [T Hk R P]. constructor; [|done|done|done]. intros q Hq. apply T. intros Hin. by apply Hq, Hs. Qed.
Lemma only_changed g r c grow cost : (cost <= g_room g)%nat -> only [r] grow cost g (changed g r c grow cost).
Proof.
  intros Hc. constructor; cbn.
  - intros q Hq. rewrite lookup_insert_ne; [done|]. intros <-. apply Hq. by left.
  - intros q. destruct (decide (q = r)) as [->|Hne]; [rewrite fn_lookup_insert; lia|]. rewrite fn_lookup_insert_ne by done. lia.
  - lia.
  - done.
Qed.

(** A loop over trees, one step each. *)
Fixpoint run_all {X} (step : X -> M W unit) (l : list X) : M W unit :=
  match l with [] => ret tt | x :: l => do! step x in run_all step l end.

Lemma no_cost {X} (l : list X) : sum_list_with (fun _ => 0%nat) l = 0%nat.
Proof. by induction l. Qed.

Section loop.
Context {X : Type} (root : X -> PageNo) (step : X -> M W unit) (P P' : X -> gmap Bytes Bytes -> Prop) (cost : X -> nat) (grow h : nat).
Definition holds_at (Q : X -> gmap Bytes Bytes -> Prop) (g : Grove) (x : X) : Prop := exists c, g_trees g !! root x = Some c /\ Q x c.
Definition step_ok (x : X) : Prop := forall g, holds_at P g x -> (g_height g (root x) <= h)%nat -> (cost x <= g_room g)%nat ->
  does (step x) g (fun r g' => r = Ret tt /\ only [root x] grow (cost x) g g' /\ (forall q, q <> root x -> g_height g' q = g_height g q) /\ holds_at P' g' x).

Lemma run_all_does l : Forall step_ok l -> NoDup (map root l) -> forall g, Forall (fun x => (g_height g (root x) <= h)%nat) l ->
  Forall (holds_at P g) l -> (sum_list_with cost l <= g_room g)%nat ->
  does (run_all step l) g (fun r g' => r = Ret tt /\ only (map root l) grow (sum_list_with cost l) g g'
    /\ (forall q, q ∉ map root l -> g_height g' q = g_height g q) /\ Forall (holds_at P' g') l).
Proof.
  induction 1 as [|x l Hx Hl IH]; cbn [run_all map sum_list_with]; intros Hnd g Hh HP Hr.
  { apply does_lift. split_and!; [done| |done|constructor]. constructor; [done|intros; lia|lia|done]. }
  apply NoDup_cons in Hnd as [Hnx Hnd]. inversion Hh as [|?? Hhx Hhl]; inversion HP as [|?? HPx HPl]; subst.
  apply (does_bind _ _ _ (fun _ g1 => only [root x] grow (cost x) g g1 /\ (forall q, q <> root x -> g_height g1 q = g_height g q) /\ holds_at P' g1 x)).
  { eapply does_conseq; [apply Hx; [done|done|lia]|]. intros r g1 (-> & Hrest). by exists tt. }
  intros _ g1 ([T1 H1 R1 P1] & Hs1 & HP1).
  assert (Hne : forall y, y ∈ l -> root y <> root x) by (intros y Hy E; apply Hnx; rewrite <- E; exact (list_elem_of_fmap_2 root _ _ Hy)).
  eapply does_conseq; [apply (IH Hnd g1)|].
  - apply Forall_forall. intros y Hy. rewrite Hs1 by (by apply Hne). rewrite Forall_forall in Hhl. by apply Hhl.
  - apply Forall_forall. intros y Hy. rewrite Forall_forall in HPl. destruct (HPl y Hy) as (c & Hc & HPc). exists c. split; [|done].
    rewrite T1; [done|]. rewrite list_elem_of_singleton. by apply Hne.
  - lia.
  - intros r g2 (-> & [T2 H2 R2 P2] & Hs2 & HP2). split_and!; [done| | |].
    + constructor.
      * intros q [Hq Hql]%not_elem_of_cons. rewrite T2 by done. apply T1. by rewrite list_elem_of_singleton.
      * intros q. destruct (decide (q = root x)) as [->|Hq]; [rewrite Hs2 by done; apply H1|]. rewrite <- (Hs1 q Hq). apply H2.
      * lia.
      * congruence.
    + intros q [Hq Hql]%not_elem_of_cons. by rewrite Hs2, Hs1.
    + constructor; [|done]. destruct HP1 as (c & Hc & HPc). exists c. split; [|done]. by rewrite T2.
Qed.
End loop.

(** ** The index entries of a row *)

Section entries.
Context (t : TableDef) (rows : gmap Bytes Row) (Hok : rows_ok t rows) (Hres : Forall (index_resolves t) (td_indexes t)).
Context (k : Bytes) (h : nat) (Hh : (h <= 64)%nat) (Hk : bytes_ok k).

Lemma unchanged_eq cols row old : row_fits row -> row_fits old -> unchanged t cols row (Some old) = true <-> project t row cols = project t old cols.
Proof. intros H1 H2. cbn. apply rows_equal_eq; by apply project_values_ok, row_values_ok. Qed.

Definition keeps (row : Row) (old : option Row) (idx : IndexDef) : bool := unchanged t (ix_columns idx) row old.
(** Between the erasures and the insertions of an update. *)
Definition half (row : Row) (old : option Row) (idx : IndexDef) (c : gmap Bytes Bytes) : Prop :=
  if keeps row old idx then index_of t idx rows c else index_of t idx (base.delete k rows) c.

Definition put_entry (row : Row) (old : option Row) (idx : IndexDef) : M W unit :=
  if keeps row old idx then ret tt else BTree.put (mkBTree (ix_root idx) true) (index_key_of t idx row k) [].
Lemma put_index_entries_run row old l : forall w, put_index_entries true t row k old l w = run_all (put_entry row old) l w.
Proof.
  induction l as [|idx l IH]; intros w; [done|]. cbn [put_index_entries run_all]. unfold put_entry at 1, keeps, Store.tree.
  destruct (unchanged _ _ _ _); [apply IH|]. unfold bind. destruct (BTree.put _ _ _ _) as [[[]|] w']; [apply IH|done].
Qed.
Definition put_cost (row : Row) (idx : IndexDef) : nat := cell_cost (index_key_of t idx row k) [] + h + 1.

Lemma put_entry_ok row old idx : index_resolves t idx ->
  (forall r0, old = Some r0 -> rows !! k = Some r0 /\ row_fits row /\ row_fits r0) -> (forall r0, rows !! k = Some r0 -> old = Some r0) ->
  (keeps row old idx = false -> fits_tree ls (ix_root idx) (index_key_of t idx row k)) ->
  step_ok ix_root (put_entry row old) (half row old) (fun idx c => index_of t idx (<[k := row]> rows) c) (put_cost row) 1 h idx.
Proof.
  intros Hi Hold Hold' Hfit g (c & Hc & HP) Hhx Hroom. unfold put_entry, half in *. destruct (keeps row old idx) eqn:Ek.
  - apply does_lift. split_and!; [done| |done|].
    + eapply (only_weaken []); [apply list_subseteq_nil|]. constructor; [done|intros; lia|lia|done].
    + exists c. split; [done|]. destruct old as [r0|]; [|done]. destruct (Hold r0 eq_refl) as (H0 & H1 & H2).
      apply unchanged_eq in Ek; [|done|done]. by apply (index_of_same t idx rows c k r0).
  - intros w Hw. destruct (grove_put w g (ix_root idx) c (index_key_of t idx row k) [] Hw Hc) as (w' & E & Hw'); [lia|by apply Hfit|constructor|done| |].
    { unfold put_cost in Hroom. lia. }
    exists (Ret tt), w'. eexists. split_and!; [exact E|exact Hw'|done| | |].
    + unfold put_cost in *. pose proof (only_changed g (ix_root idx) (<[index_key_of t idx row k:=[]]> c) 1 (cell_cost (index_key_of t idx row k) [] + g_height g (ix_root idx) + 1)) as [T1 H1 R1 P1]; [lia|].
      constructor; [done|done|lia|done].
    + intros q Hq. cbn. by rewrite fn_lookup_insert_ne.
    + eexists. split; [cbn; apply lookup_insert_eq|]. by apply index_of_insert.
Qed.

Definition erase_entry (row : Row) (new : option Row) (idx : IndexDef) : M W unit :=
  if match new with Some n => keeps n (Some row) idx | None => false end then ret tt
  else let! existed := BTree.erase (mkBTree (ix_root idx) true) (index_key_of t idx row k) in
       if negb existed then lift (corrupt ("index " +:+ ix_name idx +:+ " lacks the entry for a row")) else ret tt.
Lemma erase_entries_run row new l : forall w, erase_entries true t row k new l w = run_all (erase_entry row new) l w.
Proof.
  induction l as [|idx l IH]; intros w; [done|]. cbn [erase_entries run_all]. unfold erase_entry at 1, keeps, Store.tree.
  destruct (match new with Some n => _ | None => _ end); [apply IH|]. unfold bind. destruct (BTree.erase _ _ _) as [[[]|] w']; [apply IH|done|done].
Qed.
Lemma erase_entry_ok row new idx : rows !! k = Some row -> index_resolves t idx ->
  step_ok ix_root (erase_entry row new) (fun idx c => index_of t idx rows c)
    (fun idx c => match new with Some n => half n (Some row) idx c | None => index_of t idx (base.delete k rows) c end) (fun _ => 0%nat) 0 h idx.
Proof.
  intros Hrow Hi g (c & Hc & HP) Hhx Hroom. unfold erase_entry.
  destruct (match new with Some n => keeps n (Some row) idx | None => false end) eqn:Ek.
  - destruct new as [nw|]; [|done]. apply does_lift. split_and!; [done| |done|].
    + eapply (only_weaken []); [apply list_subseteq_nil|]. constructor; [done|intros; lia|lia|done].
    + exists c. split; [done|]. unfold half. by rewrite Ek.
  - intros w Hw. destruct (grove_erase w g (ix_root idx) c (index_key_of t idx row k) Hw Hc) as (w' & E & Hw'); [lia|].
    destruct (index_of_delete t idx rows Hok Hi c k row HP Hrow) as [Hdel Hex]. rewrite bool_decide_true in E by done.
    exists (Ret tt), w'. eexists. unfold bind. rewrite E. split_and!; [done|exact Hw'|done|apply only_changed; lia| |].
    + intros q Hq. cbn. by rewrite fn_lookup_insert_ne.
    + eexists. split; [cbn; apply lookup_insert_eq|]. destruct new as [nw|]; [|done]. unfold half. by rewrite Ek.
Qed.
End entries.

(** ** Whole rows *)

(** Keys that the length checks accept have a place in their trees. *)
Definition row_keys_fit (t : TableDef) (row : Row) : Prop :=
  ((length (pk_key_of t row) <= max_key_bytes)%nat -> fits_tree ls (td_root t) (pk_key_of t row))
  /\ Forall (fun idx => (length (index_key_of t idx row (pk_key_of t row)) <= max_key_bytes)%nat ->
       fits_tree ls (ix_root idx) (index_key_of t idx row (pk_key_of t row))) (td_indexes t).
(** The allocations a row may need. *)
Definition row_cost (h : nat) (t : TableDef) (row : Row) : nat :=
  cell_cost (pk_key_of t row) (encode_row row) + h + 1 + sum_list_with (put_cost t (pk_key_of t row) h row) (td_indexes t).
(** A row that can be stored. *)
Record storable_row (t : TableDef) (row : Row) : Prop := {
  sr_fits : row_fits row;
  sr_keys : row_keys_fit t row;
  sr_short : Z.of_nat (length (encode_row row)) < 2 ^ 32
}.

Lemma spec_indexes_lengths max_key t who rows row pk_key old : forall l, spec_indexes max_key t who rows row pk_key old l = Ret tt ->
  Forall (fun idx => keeps t row old idx = false -> (length (index_key_of t idx row pk_key) <= max_key)%nat) l.
Proof.
  induction l as [|idx l IH]; cbn [spec_indexes]; [constructor|]. intros Hs. unfold keeps, index_key_of in *.
  destruct (unchanged t (ix_columns idx) row old) eqn:Eu; [constructor; [congruence|by apply IH]|].
  destruct (Nat.ltb_spec max_key (length (encode_key (project t row (ix_columns idx))) + length pk_key)); [done|].
  constructor; [intros _; rewrite length_app; lia|]. apply IH. by destruct (ix_unique idx && _ && _).
Qed.

Section ops.
Context (fuel h : nat) (cat : Catalog) (d : Data) (g : Grove) (Hcat : catalog_ok cat).
Context (Hrep : store_rep cat g d) (Hh : heights cat g h) (Hh64 : (h <= 64)%nat) (Hfuel : (g_pages g <= fuel)%nat).

Definition outcome (cost : nat) (res : Result unit * Data) (r : Result unit) (g' : Grove) : Prop :=
  r = fst res /\ store_rep cat g' (snd res) /\ heights cat g' (h + 1) /\ (g_room g <= g_room g' + cost)%nat /\ g_pages g' = g_pages g.

Lemma heights_64 : heights cat g 64.
Proof. eapply Forall_impl; [exact Hh|]. cbn. intros. lia. Qed.
#[local] Hint Resolve heights_64 : core.
Lemma unchanged_outcome cost r : outcome cost (r, d) r g.
Proof. split_and!; [done|done| |lia|done]. eapply Forall_impl; [exact Hh|]. cbn. intros. lia. Qed.
#[local] Hint Resolve unchanged_outcome : core.

Lemma write_outcome name t rows' cost g' : (name, t) ∈ tables cat -> only (roots_of t) 1 cost g g' -> table_rep (g_trees g') t rows' ->
  outcome cost (Ret tt, <[name := rows']> d) (Ret tt) g'.
Proof.
  intros Hin [T Hhe R P] Ht. split_and!; [done| | |done|done].
  - intros name' t' Hin'. cbn [snd]. destruct (decide (name' = name)) as [->|Hne].
    + rewrite rows_of_eq. assert (t' = t) as ->; [|done].
      pose proof (in_table _ _ _ (co_nodup _ Hcat) Hin). pose proof (in_table _ _ _ (co_nodup _ Hcat) Hin'). congruence.
    + rewrite rows_of_ne by done.
      assert (Hout : forall q, q ∈ roots_of t' -> g_trees g' !! q = g_trees g !! q).
      { intros q Hq. apply T. eapply (root_of_two_tables cat (name', t') (name, t)); [by apply Hcat|done|done| |done]. by intros [= ->]. }
      destruct (Hrep _ _ Hin') as [Hr Hok Hix]. constructor; [|done|].
      * rewrite Hout; [done|apply pk_root].
      * apply Forall_forall. intros idx Hidx. rewrite Forall_forall in Hix. destruct (Hix idx Hidx) as (c & Hc & Hof). exists c. split; [|done].
        rewrite Hout; [done|by apply ix_root_in].
  - unfold heights in *. rewrite Forall_forall in Hh. apply Forall_forall. intros q Hq. specialize (Hh q Hq). specialize (Hhe q). lia.
Qed.

Lemma roots_split name t : (name, t) ∈ tables cat -> NoDup (map ix_root (td_indexes t)) /\ td_root t ∉ map ix_root (td_indexes t).
Proof. intros Hin. pose proof (roots_nodup cat _ (co_roots _ Hcat) Hin) as Hnd. cbn in Hnd. by apply NoDup_cons in Hnd as [? ?]. Qed.
Lemma indexes_resolve name t : (name, t) ∈ tables cat -> Forall (index_resolves t) (td_indexes t).
Proof. intros Hin. eapply Forall_impl; [apply (nr_indexes _ (table_resolves cat Hcat _ _ Hin))|]. by intros idx (_ & _ & ?). Qed.
Lemma index_heights name t : (name, t) ∈ tables cat -> Forall (fun idx => (g_height g (ix_root idx) <= h)%nat) (td_indexes t).
Proof.
  intros Hin. apply Forall_forall. intros idx Hidx. unfold heights in Hh. rewrite Forall_forall in Hh. apply Hh.
  eapply root_in; [done|by apply ix_root_in].
Qed.
Lemma primary_height name t : (name, t) ∈ tables cat -> (g_height g (td_root t) <= h)%nat.
Proof. intros Hin. unfold heights in Hh. rewrite Forall_forall in Hh. apply Hh. eapply root_in; [done|apply pk_root]. Qed.

(** The row and then its index entries, after [g1] in which the old entries
    are gone. *)
Lemma store_row_does name t row old g1 : (name, t) ∈ tables cat -> storable_row t row -> good_row t row ->
  (length (pk_key_of t row) <= max_key_bytes)%nat ->
  Forall (fun idx => keeps t row old idx = false -> (length (index_key_of t idx row (pk_key_of t row)) <= max_key_bytes)%nat) (td_indexes t) ->
  rows_of d name !! pk_key_of t row = old -> (row_cost h t row <= g_room g)%nat ->
  only (map ix_root (td_indexes t)) 0 0 g g1 ->
  Forall (holds_at ix_root (half t (rows_of d name) (pk_key_of t row) row old) g1) (td_indexes t) ->
  does (do! BTree.put (mkBTree (td_root t) true) (pk_key_of t row) (encode_row row) in
        put_index_entries true t row (pk_key_of t row) old (td_indexes t)) g1
    (outcome (row_cost h t row) (Ret tt, <[name := <[pk_key_of t row := row]> (rows_of d name)]> d)).
Proof.
  intros Hin [Hfits [Hpkfit Hixfit] Hshort] Hgood Hpk Hlens Hold Hroom Honly Hhalf. set (k := pk_key_of t row) in *. set (rows := rows_of d name) in *.
  destruct (Hrep _ _ Hin) as [Hr Hok Hix]. fold rows in Hr, Hok, Hix. destruct (roots_split _ _ Hin) as [Hnd Hnr].
  pose proof (indexes_resolve _ _ Hin) as Hres. pose proof Honly as [T1 H1 R1 P1]. unfold row_cost in *. fold k in Hroom |- *.
  pose proof (primary_height _ _ Hin) as Hph. specialize (H1 (td_root t)) as Hp1.
  apply (does_bind _ _ _ (fun _ g2 => only [td_root t] 1 (cell_cost k (encode_row row) + h + 1) g1 g2 /\ (forall q, q <> td_root t -> g_height g2 q = g_height g1 q)
    /\ g_trees g2 !! td_root t = Some (encode_row <$> <[k := row]> rows))).
  { intros w Hw. destruct (grove_put w g1 (td_root t) (encode_row <$> rows) k (encode_row row) Hw) as (w' & E & Hw').
    - by rewrite T1.
    - lia.
    - by apply Hpkfit.
    - by apply encode_row_ok.
    - done.
    - lia.
    - exists (Ret tt), w'. eexists. split_and!; [exact E|exact Hw'|]. exists tt. split_and!; [done| |intros q Hq; cbn; by rewrite fn_lookup_insert_ne|].
      + pose proof (only_changed g1 (td_root t) (<[k := encode_row row]> (encode_row <$> rows)) 1 (cell_cost k (encode_row row) + g_height g1 (td_root t) + 1)) as [T2 H2 R2 P2]; [lia|].
        constructor; [done|done|lia|done].
      + cbn. by rewrite lookup_insert_eq, fmap_insert. }
  intros _ g2 ([T2 H2 R2 P2] & Hs2 & Hr2).
  intros w Hw. rewrite put_index_entries_run.
  eapply (does_conseq _ g2); [eapply (run_all_does ix_root (put_entry t k row old) (half t rows k row old)
    (fun idx c => index_of t idx (<[k := row]> rows) c) (put_cost t k h row) 1 h)| |exact Hw].
  - apply Forall_forall. intros idx Hidx. rewrite Forall_forall in Hres, Hlens, Hixfit.
    apply put_entry_ok; [lia|by apply Hres|..].
    + intros r0 ->. split_and!; [done|done|]. destruct (Hok _ _ Hold) as (_ & _ & ?). done.
    + intros r0 Hr0. congruence.
    + intros Hkeep. by apply Hixfit, Hlens.
  - done.
  - apply Forall_forall. intros idx Hidx. pose proof (index_heights _ _ Hin) as Hih. rewrite Forall_forall in Hih. specialize (Hih idx Hidx).
    cbn in Hih. specialize (H1 (ix_root idx)). rewrite Hs2; [lia|]. intros E. apply Hnr. rewrite <- E. exact (list_elem_of_fmap_2 ix_root _ _ Hidx).
  - apply Forall_forall. intros idx Hidx. rewrite Forall_forall in Hhalf. destruct (Hhalf idx Hidx) as (c & Hc & Hof). exists c. split; [|done].
    rewrite T2; [done|]. rewrite list_elem_of_singleton. intros E. apply Hnr. rewrite <- E. exact (list_elem_of_fmap_2 ix_root _ _ Hidx).
  - lia.
  - intros r g3 (-> & [T3 H3 R3 P3] & Hs3 & Hix3). eapply write_outcome; [done| |].
    + constructor.
      * intros q [Hq1 Hq2]%not_elem_of_cons. rewrite T3, T2, T1; [done|done|by rewrite list_elem_of_singleton|done].
      * intros q. specialize (H1 q). specialize (H2 q). specialize (H3 q).
        destruct (decide (q = td_root t)) as [->|Hq]; [rewrite Hs3 by done; lia|]. rewrite Hs2 in H3 by done. lia.
      * lia.
      * congruence.
    + constructor.
      * by rewrite T3.
      * apply map_Forall_insert_2; [done|done].
      * apply Forall_forall. intros idx Hidx. rewrite Forall_forall in Hix3. by apply Hix3.
Qed.

Lemma validated t row : validate_row t row = Ret tt -> row_fits row -> good_row t row.
Proof. intros Hv Hf. split; [|done]. pose proof (validate_row_sound t row) as Hs. by rewrite Hv in Hs. Qed.

Lemma insert_does name t row : (name, t) ∈ tables cat -> storable_row t row -> (row_cost h t row <= g_room g)%nat ->
  does (insert_unchecked fuel true cat t row true) g (outcome (row_cost h t row) (changing d name (insert_allowed max_key_bytes cat d t row) <[pk_key_of t row := row]>)).
Proof.
  intros Hin Hrow Hroom. pose proof (table_name cat Hcat _ _ Hin) as Hname. unfold insert_unchecked, insert_allowed. rewrite Hname.
  eapply does_after; [apply gives_lift|]. destruct (validate_row t row) as [[]|e] eqn:Ev; cbn [rbind]; [|apply unchanged_outcome].
  pose proof (validated _ _ Ev (sr_fits _ _ Hrow)) as Hgood. unfold guard.
  rewrite Nat.ltb_antisym. destruct (Nat.leb_spec (length (pk_key_of t row)) max_key_bytes) as [Hlen|]; cbn [negb rbind]; [|apply does_lift, unchanged_outcome].
  eapply does_after; [by apply (gives_get ls cat d g Hrep heights_64)|]. cbn beta iota.
  destruct (rows_of d name !! pk_key_of t row) as [r0|] eqn:E0; cbn [fmap option_fmap option_map].
  { rewrite bool_decide_true by done. rewrite (bool_decide_false (_ = None)) by done. apply does_lift, unchanged_outcome. }
  rewrite bool_decide_false by (by intros [? ?]). rewrite (bool_decide_true (_ = None)) by done. cbn [rbind].
  eapply does_after; [by apply (check_indexes_gives ls fuel cat d g Hcat Hrep heights_64 Hfuel true name)|].
  destruct (spec_indexes _ _ _ _ _ _ _ _) as [[]|e] eqn:Ei; cbn [rbind]; [|apply unchanged_outcome].
  eapply does_after; [by apply (check_parents_gives ls fuel cat d g Hcat Hrep heights_64 Hfuel true name)|].
  destruct (spec_parents _ _ _ _ _ _) as [[]|e] eqn:Ep; cbn [rbind changing]; [|apply unchanged_outcome].
  apply store_row_does; try done; [by eapply spec_indexes_lengths| |].
  - constructor; [done|intros; lia|lia|done].
  - apply Forall_forall. intros idx Hidx. destruct (Hrep _ _ Hin) as [_ _ Hix]. rewrite Forall_forall in Hix. destruct (Hix idx Hidx) as (c & Hc & Hof).
    exists c. split; [done|]. unfold half. cbn [keeps unchanged]. by rewrite delete_id.
Qed.

Lemma update_does name t row : (name, t) ∈ tables cat -> storable_row t row -> (row_cost h t row <= g_room g)%nat ->
  (length (pk_key_of t row) <= max_key_bytes)%nat ->
  does (update_row fuel true cat name t row) g (outcome (row_cost h t row) (spec_update max_key_bytes cat d name row)).
Proof.
  intros Hin Hrow Hroom Hlen. pose proof (table_name cat Hcat _ _ Hin) as Hname. unfold update_row, spec_update, update_allowed.
  rewrite (in_table cat name t (co_nodup _ Hcat) Hin), Hname.
  eapply does_after; [apply gives_lift|]. destruct (validate_row t row) as [[]|e] eqn:Ev; [|apply unchanged_outcome].
  pose proof (validated _ _ Ev (sr_fits _ _ Hrow)) as Hgood.
  eapply does_after; [by apply (gives_get_by_key ls cat d g Hrep heights_64)|]. cbn beta iota.
  destruct (rows_of d name !! pk_key_of t row) as [old|] eqn:E0; [|apply does_lift, unchanged_outcome].
  destruct (rows_equal old row); [apply does_lift, unchanged_outcome|].
  destruct (Hrep _ _ Hin) as [Hr Hok Hix]. destruct (Hok _ _ E0) as [_ Hgold].
  eapply does_after; [by apply (check_indexes_gives ls fuel cat d g Hcat Hrep heights_64 Hfuel true name)|].
  destruct (spec_indexes _ _ _ _ _ _ _ _) as [[]|e] eqn:Ei; cbn [rbind]; [|apply unchanged_outcome].
  eapply does_after; [by apply (check_parents_gives ls fuel cat d g Hcat Hrep heights_64 Hfuel true name)|].
  destruct (spec_parents _ _ _ _ _ _) as [[]|e] eqn:Ep; cbn [rbind]; [|apply unchanged_outcome].
  eapply does_after; [by apply (check_no_children_gives ls fuel cat d g Hcat Hrep heights_64 Hfuel true name)|].
  destruct (spec_children _ _ _ _ _) as [[]|e] eqn:Ec; cbn [changing]; [|apply unchanged_outcome].
  destruct (roots_split _ _ Hin) as [Hnd Hnr].
  apply (does_bind _ _ _ (fun _ g1 => only (map ix_root (td_indexes t)) 0 0 g g1
    /\ Forall (holds_at ix_root (half t (rows_of d name) (pk_key_of t row) row (Some old)) g1) (td_indexes t))).
  { intros w Hw. rewrite erase_entries_run.
    eapply (does_conseq _ g); [eapply (run_all_does ix_root _ (fun idx c => index_of t idx (rows_of d name) c) _ (fun _ => 0%nat) 0 h)| |exact Hw].
    - apply Forall_forall. intros idx Hidx. pose proof (indexes_resolve _ _ Hin) as Hres. rewrite Forall_forall in Hres.
      by apply (erase_entry_ok t (rows_of d name) Hok (pk_key_of t row) h ltac:(lia) old (Some row) idx E0), Hres.
    - done.
    - by eapply index_heights.
    - exact Hix.
    - rewrite no_cost. lia.
    - intros r g1 (-> & Honly & _ & Hhalf). exists tt. by rewrite no_cost in Honly. }
  intros _ g1 [Honly Hhalf]. apply store_row_does; try done. by eapply spec_indexes_lengths.
Qed.

Lemma remove_does name primary_key :
  does (remove_row fuel true cat name primary_key) g (outcome 0 (spec_remove cat d name primary_key)).
Proof.
  unfold remove_row, Store.get, spec_remove. destruct (StoreSchema.table cat name) as [t|] eqn:Et; [|eapply does_after; [apply gives_lift|apply unchanged_outcome]].
  apply table_in in Et as Hin. destruct (negb (length primary_key =? _)%nat); [eapply does_after; [apply gives_lift|apply unchanged_outcome]|].
  destruct (primary_key_ok t primary_key (td_primary_key t)) as [[]|e] eqn:Ek; [|].
  2: { eapply (does_after _ _ _ (rbind (Err e) (fun _ : unit => Ret None))); [eapply gives_bind; [apply gives_lift|done]|apply unchanged_outcome]. }
  eapply does_after; [eapply gives_ret; [apply gives_lift|by apply (gives_get_by_key ls cat d g Hrep heights_64)]|]. cbn beta iota.
  destruct (rows_of d name !! encode_key primary_key) as [old|] eqn:E0; [|apply does_lift, unchanged_outcome].
  destruct (Hrep _ _ Hin) as [Hr Hok Hix]. destruct (Hok _ _ E0) as [_ Hgold]. destruct (roots_split _ _ Hin) as [Hnd Hnr].
  eapply does_after; [by apply (check_no_children_gives ls fuel cat d g Hcat Hrep heights_64 Hfuel true name)|].
  destruct (spec_children _ _ _ _ _) as [[]|e] eqn:Ec; cbn [changing]; [|apply unchanged_outcome].
  apply (does_bind _ _ _ (fun _ g1 => only (map ix_root (td_indexes t)) 0 0 g g1
    /\ Forall (holds_at ix_root (fun idx c => index_of t idx (base.delete (encode_key primary_key) (rows_of d name)) c) g1) (td_indexes t))).
  { intros w Hw. unfold erase_index_entries. rewrite erase_entries_run.
    eapply (does_conseq _ g); [eapply (run_all_does ix_root _ (fun idx c => index_of t idx (rows_of d name) c) _ (fun _ => 0%nat) 0 h)| |exact Hw].
    - apply Forall_forall. intros idx Hidx. pose proof (indexes_resolve _ _ Hin) as Hres. rewrite Forall_forall in Hres.
      by apply (erase_entry_ok t (rows_of d name) Hok (encode_key primary_key) h ltac:(lia) old None idx E0), Hres.
    - done.
    - by eapply index_heights.
    - exact Hix.
    - rewrite no_cost. lia.
    - intros r g1 (-> & Honly & _ & Hgone). exists tt. by rewrite no_cost in Honly. }
  intros _ g1 [Honly Hgone]. destruct Honly as [T1 H1 R1 P1]. specialize (H1 (td_root t)) as Hp1. pose proof (primary_height _ _ Hin) as Hph.
  intros w Hw. destruct (grove_erase w g1 (td_root t) (encode_row <$> rows_of d name) (encode_key primary_key) Hw) as (w' & E & Hw'); [by rewrite T1|lia|].
  rewrite lookup_fmap, E0, bool_decide_true in E by done. exists (Ret tt), w'. eexists. unfold bind, Store.tree. rewrite E. split_and!; [done|exact Hw'|].
  destruct (only_changed g1 (td_root t) (base.delete (encode_key primary_key) (encode_row <$> rows_of d name)) 0 0) as [T2 H2 R2 P2]; [lia|].
  eapply write_outcome; [done| |].
  - constructor.
    + intros q [Hq1 Hq2]%not_elem_of_cons. rewrite T2, T1; [done|done|by rewrite list_elem_of_singleton].
    + intros q. specialize (H1 q). specialize (H2 q). lia.
    + lia.
    + cbn. congruence.
  - constructor.
    + cbn. by rewrite lookup_insert_eq, fmap_delete.
    + by apply map_Forall_delete.
    + apply Forall_forall. intros idx Hidx. rewrite Forall_forall in Hgone. destruct (Hgone idx Hidx) as (c & Hc & Hof). exists c. split; [|done].
      rewrite T2; [done|]. rewrite list_elem_of_singleton. intros Eq. apply Hnr. rewrite <- Eq. exact (list_elem_of_fmap_2 ix_root _ _ Hidx).
Qed.
End ops.

(** * Operations of a writer *)

Definition exec_row_op (fuel : nat) (op : RowOp) : WrM (W := W) unit :=
  match op with
  | RInsert name row => Store.insert fuel name row
  | RUpdate name row => Store.update fuel name row
  | RRemove name key => Store.remove fuel name key
  end.
(** The row can be stored, its key is one that [insert] would have taken, and
    there is room for it. *)
Definition op_ready (cat : Catalog) (h room : nat) (op : RowOp) : Prop :=
  match op with
  | RInsert name row => forall t, (name, t) ∈ tables cat -> storable_row t row /\ (row_cost h t row <= room)%nat
  | RUpdate name row => forall t, (name, t) ∈ tables cat ->
      storable_row t row /\ (row_cost h t row <= room)%nat /\ (length (pk_key_of t row) <= max_key_bytes)%nat
  | RRemove _ _ => True
  end.

(** The allocations an operation may take. *)
Definition op_cost (cat : Catalog) (h : nat) (op : RowOp) : nat :=
  match op with
  | RInsert name row | RUpdate name row => match StoreSchema.table cat name with Some t => row_cost h t row | None => 0 end
  | RRemove _ _ => 0
  end.

Lemma row_op_refines fuel h cat d g wr w op :
  catalog_ok cat -> store_rep cat g d -> heights cat g h -> (h <= 64)%nat -> (g_pages g <= fuel)%nat ->
  op_ready cat h (g_room g) op -> finished wr = false -> edited wr = cat -> grove_at w g ->
  exists w' g', exec_row_op fuel op (wr, w) = (fst (spec_row_op max_key_bytes cat d op), (wr, w'))
    /\ grove_at w' g' /\ store_rep cat g' (snd (spec_row_op max_key_bytes cat d op)) /\ heights cat g' (h + 1)
    /\ (g_room g <= g_room g' + op_cost cat h op)%nat /\ g_pages g' = g_pages g.
Proof.
  intros Hcat Hrep Hh Hh64 Hfuel Hop Hact Hed Hw.
  assert (Hrun : forall (c : M W unit) cost res, does c g (outcome h cat g cost res) ->
    exists w' g', onw (S := Writer) c (wr, w) = (fst res, (wr, w')) /\ grove_at w' g' /\ store_rep cat g' (snd res) /\ heights cat g' (h + 1)
      /\ (g_room g <= g_room g' + cost)%nat /\ g_pages g' = g_pages g).
  { intros c cost res Hc. destruct (Hc w Hw) as (r & w' & g' & E & Hw' & -> & Hrep' & Hh' & Hro & Hpg). exists w', g'. unfold onw. rewrite E. by destruct res. }
  assert (Hnone : forall r : Result unit, exists w' g', lift (S := Writer * W) r (wr, w) = (r, (wr, w')) /\ grove_at w' g' /\ store_rep cat g' d /\ heights cat g' (h + 1)
      /\ (g_room g <= g_room g' + 0)%nat /\ g_pages g' = g_pages g).
  { intros r. exists w, g. split_and!; [done|done|done| |lia|done]. eapply Forall_impl; [exact Hh|]. cbn. intros. lia. }
  destruct op as [name row|name row|name key]; cbn [exec_row_op spec_row_op op_ready op_cost] in *;
    unfold Store.insert, Store.update, Store.remove, while_active, bind, getO; cbn [fst]; rewrite Hact, Hed.
  - unfold spec_insert. destruct (StoreSchema.table cat name) as [t|] eqn:Et; [|apply Hnone]. apply table_in in Et.
    apply Hrun, insert_does; try done; by apply Hop.
  - destruct (StoreSchema.table cat name) as [t|] eqn:Et; [|unfold spec_update; rewrite Et; apply Hnone]. apply table_in in Et.
    apply Hrun, update_does; try done; by apply Hop.
  - apply Hrun, remove_does; done.
Qed.

(** [C5] The row operations refine the specification.  Over any page store whose
    trees hold the rows [d] of a catalog, [insert], [update] and [remove] return
    what the specification says, errors and their texts included, and leave
    trees that hold the specified rows; a refused operation leaves the rows as
    they were.  Rows must be of the lengths their trees take, and the cursors
    may visit as many pages as are in use. *)
Theorem store_refines_tables fuel h cat d g wr w op :
  catalog_ok cat -> store_rep cat g d -> heights cat g h -> (h <= 64)%nat -> (g_pages g <= fuel)%nat ->
  op_ready cat h (g_room g) op -> finished wr = false -> edited wr = cat -> grove_at w g ->
  exists w' g', exec_row_op fuel op (wr, w) = (fst (spec_row_op max_key_bytes cat d op), (wr, w'))
    /\ grove_at w' g' /\ store_rep cat g' (snd (spec_row_op max_key_bytes cat d op)) /\ heights cat g' (h + 1).
Proof.
  intros. destruct (row_op_refines fuel h cat d g wr w op) as (w' & g' & E & Hw' & Hrep' & Hh' & _); try done. by exists w', g'.
Qed.
End write.
