(* ===== verification/StoreIntegrity.v ===== *)
(** What the constraints of a store are for.

    [integrity] says that the rows of every table are rows of that table
    under their primary keys, that no two rows share the non-null values of
    a unique index, and that every non-null reference has a parent row.  A row
    operation preserves it, with one exception that the code lets pass: an
    update after which the row refers to the values it had itself before and
    has no longer ([escapes]).  Then integrity is lost. *)

From stdpp Require Import base numbers list gmap strings sorting functions.
From S2P Require Import Prelude Bytes PageFormat Types Record StoreSchema BTreeNode BTree BTreeRead BTreePut BTreeFindings.
From S2P Require Import Store Grove StoreRep StoreSpec StoreReads StoreRefine.
From stdpp Require Import list.
Open Scope Z_scope.

Definition unique_rows (t : TableDef) (cols : list string) (rows : gmap Bytes Row) : Prop :=
  forall k1 k2 r1 r2, rows !! k1 = Some r1 -> rows !! k2 = Some r2 -> any_null (project t r1 cols) = false ->
    project t r1 cols = project t r2 cols -> k1 = k2.
(** A row of the referenced table with the values of the reference. *)
Definition parent_row (cat : Catalog) (d : Data) (t : TableDef) (fk : ForeignKeyDef) (values : Row) : Prop :=
  exists parent k r, parent_of cat t fk = Some parent /\ rows_of d (fk_ref_table fk) !! k = Some r /\ project parent r (fk_ref_columns fk) = values.

Record integrity (cat : Catalog) (d : Data) : Prop := {
  in_rows name t : (name, t) ∈ tables cat -> rows_ok t (rows_of d name);
  in_unique name t idx : (name, t) ∈ tables cat -> idx ∈ td_indexes t -> ix_unique idx = true -> unique_rows t (ix_columns idx) (rows_of d name);
  in_refs name t fk k r : (name, t) ∈ tables cat -> fk ∈ td_foreign_keys t -> rows_of d name !! k = Some r ->
    any_null (project t r (fk_columns fk)) = false -> parent_row cat d t fk (project t r (fk_columns fk))
}.
(** The new row refers to the values that the row itself had in the referenced
    columns, and has others there. *)
Definition escapes (t : TableDef) (old row : Row) : Prop :=
  exists fk, fk ∈ td_foreign_keys t /\ fk_ref_table fk = td_name t
    /\ any_null (project t row (fk_columns fk)) = false
    /\ project t row (fk_columns fk) = project t old (fk_ref_columns fk)
    /\ project t row (fk_ref_columns fk) <> project t old (fk_ref_columns fk).
(** References of a table to itself are by its primary key. *)
Definition self_refs_by_key (t : TableDef) : Prop :=
  forall fk, fk ∈ td_foreign_keys t -> fk_ref_table fk = td_name t -> fk_ref_columns fk = td_primary_key t.
Definition op_escapes (cat : Catalog) (d : Data) (op : RowOp) : Prop :=
  match op with
  | RUpdate name row => exists t old, (name, t) ∈ tables cat /\ rows_of d name !! pk_key_of t row = Some old /\ escapes t old row
  | _ => False
  end.
(** Texts and blobs of the row are shorter than 4 GiB. *)
Definition op_fits (cat : Catalog) (op : RowOp) : Prop :=
  match op with
  | RInsert name row | RUpdate name row => forall t, (name, t) ∈ tables cat -> row_fits row
  | RRemove _ _ => True
  end.

(** * What the checks say *)

Lemma spec_indexes_unique max_key t who rows row pk_key old l : rows_ok t rows -> good_row t row ->
  spec_indexes max_key t who rows row pk_key old l = Ret tt ->
  Forall (fun idx => ix_unique idx = true -> any_null (project t row (ix_columns idx)) = false ->
    keeps t row old idx = true \/ forall k r, rows !! k = Some r -> project t r (ix_columns idx) <> project t row (ix_columns idx)) l.
Proof.
  intros Hok Hrow. induction l as [|idx l IH]; cbn [spec_indexes]; [constructor|]. unfold keeps in *. intros Hs.
  destruct (unchanged t (ix_columns idx) row old) eqn:Eu; [constructor; [by intros; left|by apply IH]|].
  destruct (max_key <? _)%nat; [done|]. destruct (ix_unique idx) eqn:Ei; cbn [andb] in Hs; [|constructor; [congruence|by apply IH]].
  destruct (any_null (project t row (ix_columns idx))) eqn:En; cbn [andb negb] in Hs; [constructor; [congruence|by apply IH]|].
  destruct (has_values t rows (ix_columns idx) (project t row (ix_columns idx))) eqn:Eh; [done|]. constructor; [|by apply IH]. intros _ _. right.
  intros k r Hk E. enough (has_values t rows (ix_columns idx) (project t row (ix_columns idx)) = true) by congruence.
  apply has_values_iff; [done|by apply project_values_ok, row_values_ok, Hrow|]. by exists k, r.
Qed.

Section checks.
Context (cat : Catalog) (d : Data) (Hcat : catalog_ok cat) (Hin : integrity cat d).

Lemma spec_parents_found name t row old fks : (name, t) ∈ tables cat -> good_row t row -> fks ⊆ td_foreign_keys t ->
  spec_parents cat d t row old fks = Ret tt ->
  Forall (fun fk => any_null (project t row (fk_columns fk)) = false ->
    unchanged t (fk_columns fk) row old = true \/ parent_row cat d t fk (project t row (fk_columns fk))) fks.
Proof.
  intros Ht Hrow. induction fks as [|fk fks IH]; intros Hl Hs; cbn [spec_parents] in Hs; [constructor|].
  assert (Hfk : fk ∈ td_foreign_keys t) by (apply Hl; by left). assert (Hl' : fks ⊆ td_foreign_keys t) by (intros x Hx; apply Hl; by right).
  destruct (any_null (project t row (fk_columns fk))) eqn:En; cbn [orb] in Hs; [constructor; [congruence|by apply IH]|].
  destruct (unchanged t (fk_columns fk) row old) eqn:Eu; cbn [orb] in Hs; [constructor; [by intros; left|by apply IH]|].
  destruct (has_parent cat d t fk _) eqn:Eh; [|done]. constructor; [|by apply IH]. intros _. right. unfold has_parent in Eh.
  destruct (parent_of cat t fk) as [parent|] eqn:Ep; [|done]. apply has_values_iff in Eh as (k & r & Hk & E).
  - exists parent, k, r. done.
  - eapply in_rows; [done|]. by eapply (parent_table cat Hcat).
  - by apply project_values_ok, row_values_ok, Hrow.
Qed.

(** No row refers to [row] unless the columns it refers to are kept. *)
Lemma spec_children_none name t row new : (name, t) ∈ tables cat -> good_row t row -> spec_children d t row new (tables cat) = Ret tt ->
  forall cname child fk k r, (cname, child) ∈ tables cat -> fk ∈ td_foreign_keys child -> rows_of d cname !! k = Some r ->
    fk_ref_table fk = name -> any_null (project t row (fk_ref_columns fk)) = false ->
    project child r (fk_columns fk) = project t row (fk_ref_columns fk) -> unchanged t (fk_ref_columns fk) row new = true.
Proof.
  intros Ht Hrow Hs cname child fk k r Hc Hfk Hk Href Hn E. pose proof (table_name cat Hcat _ _ Ht) as Hname.
  assert (Hall : Forall (fun x : string * TableDef => spec_children_by d t row new (snd x) (td_foreign_keys (snd x)) = Ret tt) (tables cat)).
  { revert Hs. clear. generalize (tables cat). intros l. induction l as [|[cn c] l IH]; cbn [spec_children]; [constructor|].
    destruct (spec_children_by d t row new c (td_foreign_keys c)) as [[]|] eqn:E; [|done]. constructor; [done|by apply IH]. }
  rewrite Forall_forall in Hall. specialize (Hall _ Hc). cbn [snd] in Hall. revert Hall. induction (td_foreign_keys child) as [|x l IH]; [by apply not_elem_of_nil in Hfk|].
  cbn [spec_children_by]. apply elem_of_cons in Hfk as [<-|Hfk].
  - rewrite Href, Hname, String.eqb_refl, Hn. cbn [andb negb]. destruct (unchanged _ _ _ _); [done|]. cbn [andb negb].
    rewrite (table_name cat Hcat _ _ Hc). assert (has_values child (rows_of d cname) (fk_columns fk) (project t row (fk_ref_columns fk)) = true) as ->; [|done].
    apply has_values_iff; [by eapply in_rows|by apply project_values_ok, row_values_ok, Hrow|]. by exists k, r.
  - destruct (_ && _); [done|]. by apply IH.
Qed.
End checks.

(** * Preservation *)

Lemma parent_row_mono cat d d' t fk values : rows_of d (fk_ref_table fk) ⊆ rows_of d' (fk_ref_table fk) -> parent_row cat d t fk values -> parent_row cat d' t fk values.
Proof. intros Hs (parent & k & r & Hp & Hk & E). exists parent, k, r. split_and!; [done|by eapply lookup_weaken|done]. Qed.

Section preserve.
Context (max_key : nat) (cat : Catalog) (d : Data) (Hcat : catalog_ok cat) (Hint : integrity cat d).
Context (name : string) (t : TableDef) (Hin : (name, t) ∈ tables cat).

Lemma same_table t' : (name, t') ∈ tables cat -> t' = t.
Proof. intros Hin'. pose proof (in_table _ _ _ (co_nodup _ Hcat) Hin). pose proof (in_table _ _ _ (co_nodup _ Hcat) Hin'). congruence. Qed.

(** A change of one table, from what it must show: its own rows and
    references, and the references to it. *)
Lemma integrity_change rows' : rows_ok t rows' ->
  Forall (fun idx => ix_unique idx = true -> unique_rows t (ix_columns idx) rows') (td_indexes t) ->
  (forall fk k r, fk ∈ td_foreign_keys t -> rows' !! k = Some r -> any_null (project t r (fk_columns fk)) = false ->
     parent_row cat (<[name := rows']> d) t fk (project t r (fk_columns fk))) ->
  (forall cname child fk k r, (cname, child) ∈ tables cat -> cname <> name -> fk ∈ td_foreign_keys child -> fk_ref_table fk = name ->
     rows_of d cname !! k = Some r -> any_null (project child r (fk_columns fk)) = false ->
     parent_row cat (<[name := rows']> d) child fk (project child r (fk_columns fk))) ->
  integrity cat (<[name := rows']> d).
Proof.
  intros Hok Huniq Hown Hothers. constructor.
  - intros n' t' Hin'. destruct (decide (n' = name)) as [->|Hne]; [rewrite rows_of_eq; by rewrite (same_table _ Hin')|].
    rewrite rows_of_ne by done. by eapply in_rows.
  - intros n' t' idx Hin' Hidx Hu. destruct (decide (n' = name)) as [->|Hne].
    + rewrite rows_of_eq. apply same_table in Hin' as ->. rewrite Forall_forall in Huniq. by apply Huniq.
    + rewrite rows_of_ne by done. by eapply in_unique.
  - intros n' t' fk k r Hin' Hfk Hk Hn. destruct (decide (n' = name)) as [->|Hne].
    + rewrite rows_of_eq in Hk. apply same_table in Hin' as ->. by eapply Hown.
    + rewrite rows_of_ne in Hk by done. destruct (decide (fk_ref_table fk = name)) as [E|E]; [by eapply Hothers|].
      eapply parent_row_mono; [|by eapply in_refs]. by rewrite rows_of_ne.
Qed.

Lemma insert_preserves row : row_fits row -> insert_allowed max_key cat d t row = Ret tt ->
  integrity cat (<[name := <[pk_key_of t row := row]> (rows_of d name)]> d).
Proof.
  intros Hfits. unfold insert_allowed. rewrite (table_name cat Hcat _ _ Hin).
  destruct (validate_row t row) as [[]|] eqn:Ev; [|done]. cbn [rbind]. pose proof (validated _ _ Ev Hfits) as Hgood. unfold guard.
  destruct (_ <=? _)%nat; [|done]. cbn [rbind]. case_bool_decide as Hnew; [|done]. cbn [rbind].
  destruct (spec_indexes _ _ _ _ _ _ _ _) as [[]|] eqn:Ei; [|done]. cbn [rbind]. intros Ep.
  pose proof (in_rows _ _ Hint _ _ Hin) as Hok. apply spec_indexes_unique in Ei; [|done|done]. rewrite Forall_forall in Ei.
  pose proof (spec_parents_found cat d Hcat Hint name t row None _ Hin Hgood ltac:(done) Ep) as Hp. rewrite Forall_forall in Hp.
  assert (Hmono : forall fk values t', parent_row cat d t' fk values -> parent_row cat (<[name := <[pk_key_of t row := row]> (rows_of d name)]> d) t' fk values).
  { intros fk values t'. apply parent_row_mono. destruct (decide (fk_ref_table fk = name)) as [->|]; [rewrite rows_of_eq; by apply insert_subseteq|by rewrite rows_of_ne]. }
  apply integrity_change.
  - by apply map_Forall_insert_2.
  - apply Forall_forall. intros idx Hidx Hu k1 k2 r1 r2 H1 H2 Hn E.
    apply lookup_insert_Some in H1 as [[<- <-]|[Hk1 H1]]; apply lookup_insert_Some in H2 as [[<- <-]|[Hk2 H2]].
    + done.
    + destruct (Ei idx Hidx Hu Hn) as [?|Hno]; [done|]. by destruct (Hno _ _ H2).
    + rewrite E in Hn. destruct (Ei idx Hidx Hu Hn) as [?|Hno]; [done|]. by destruct (Hno _ _ H1).
    + by eapply (in_unique _ _ Hint).
  - intros fk k r Hfk Hk Hn. apply Hmono. apply lookup_insert_Some in Hk as [[<- <-]|[Hne Hk]]; [|by eapply in_refs].
    by destruct (Hp fk Hfk Hn).
  - intros cname child fk k r Hc _ Hfk _ Hk Hn. apply Hmono. by eapply in_refs.
Qed.

Lemma remove_preserves k0 old : rows_of d name !! k0 = Some old -> spec_children d t old None (tables cat) = Ret tt ->
  integrity cat (<[name := base.delete k0 (rows_of d name)]> d).
Proof.
  intros H0 Hs. pose proof (in_rows _ _ Hint _ _ Hin) as Hok. destruct (Hok _ _ H0) as [_ Hgood].
  (* A row that stays keeps its parent: no row refers to the one removed. *)
  assert (Hkeep : forall cname child fk k r, (cname, child) ∈ tables cat -> fk ∈ td_foreign_keys child -> rows_of d cname !! k = Some r ->
    any_null (project child r (fk_columns fk)) = false -> parent_row cat (<[name := base.delete k0 (rows_of d name)]> d) child fk (project child r (fk_columns fk))).
  { intros cname child fk k r Hc Hfk Hk Hn. destruct (in_refs _ _ Hint _ _ _ _ _ Hc Hfk Hk Hn) as (parent & kp & rp & Hp & Hkp & E).
    exists parent, kp, rp. split_and!; [done| |done]. destruct (decide (fk_ref_table fk = name)) as [Er|]; [|by rewrite rows_of_ne].
    rewrite Er, rows_of_eq in *. rewrite lookup_delete_ne; [done|]. intros <-. rewrite H0 in Hkp. injection Hkp as <-.
    assert (parent = t) as ->. { apply same_table. rewrite <- Er. by eapply (parent_table cat Hcat). }
    rewrite <- E in Hn. pose proof (spec_children_none cat d Hcat Hint name t old None Hin Hgood Hs cname child fk k r Hc Hfk Hk Er Hn (eq_sym E)). done. }
  apply integrity_change.
  - by apply map_Forall_delete.
  - apply Forall_forall. intros idx Hidx Hu k1 k2 r1 r2 [_ H1]%lookup_delete_Some [_ H2]%lookup_delete_Some. by eapply (in_unique _ _ Hint).
  - intros fk k r Hfk [_ Hk]%lookup_delete_Some Hn. by eapply Hkeep.
  - intros cname child fk k r Hc _ Hfk _ Hk Hn. by eapply Hkeep.
Qed.

Lemma update_preserves old row : row_fits row -> ~ escapes t old row -> validate_row t row = Ret tt -> rows_of d name !! pk_key_of t row = Some old ->
  update_allowed max_key cat d t old row = Ret tt ->
  integrity cat (<[name := <[pk_key_of t row := row]> (rows_of d name)]> d).
Proof.
  intros Hfits Hself Ev H0. unfold update_allowed. rewrite (table_name cat Hcat _ _ Hin). pose proof (validated _ _ Ev Hfits) as Hgood.
  destruct (spec_indexes _ _ _ _ _ _ _ _) as [[]|] eqn:Ei; [|done]. cbn [rbind].
  destruct (spec_parents _ _ _ _ _ _) as [[]|] eqn:Ep; [|done]. cbn [rbind]. intros Hs.
  pose proof (in_rows _ _ Hint _ _ Hin) as Hok. destruct (Hok _ _ H0) as [Hkey Hgold]. apply spec_indexes_unique in Ei; [|done|done]. rewrite Forall_forall in Ei.
  pose proof (spec_parents_found cat d Hcat Hint name t row (Some old) _ Hin Hgood ltac:(done) Ep) as Hp. rewrite Forall_forall in Hp.
  set (k0 := pk_key_of t row) in *. set (d' := <[name := <[k0 := row]> (rows_of d name)]> d).
  assert (Heq : forall cols, unchanged t cols old (Some row) = true -> project t old cols = project t row cols)
    by (intros cols; apply unchanged_eq; [apply Hgold|done]).
  assert (Heq' : forall cols, unchanged t cols row (Some old) = true -> project t row cols = project t old cols)
    by (intros cols; apply unchanged_eq; [done|apply Hgold]).
  (* A parent stays, unless it is the row and its referenced columns change. *)
  assert (Hstay : forall cname child fk values, (cname, child) ∈ tables cat -> fk ∈ td_foreign_keys child -> parent_row cat d child fk values ->
    (fk_ref_table fk = name -> project t old (fk_ref_columns fk) = values -> project t old (fk_ref_columns fk) = project t row (fk_ref_columns fk)) ->
    parent_row cat d' child fk values).
  { intros cname child fk values Hc Hfk (parent & kp & rp & Hpar & Hkp & E) Hsame. unfold d'.
    destruct (decide (fk_ref_table fk = name)) as [Er|]; [|exists parent, kp, rp; by rewrite rows_of_ne].
    assert (parent = t) as ->. { apply same_table. rewrite <- Er. by eapply (parent_table cat Hcat). }
    rewrite Er in Hkp. destruct (decide (kp = k0)) as [->|Hne].
    - rewrite H0 in Hkp. injection Hkp as <-. exists t, k0, row. rewrite Er, rows_of_eq, lookup_insert_eq. split_and!; [done|done|].
      by rewrite <- Hsame.
    - exists t, kp, rp. by rewrite Er, rows_of_eq, lookup_insert_ne. }
  assert (Hother : forall cname child fk k r, (cname, child) ∈ tables cat -> fk ∈ td_foreign_keys child -> rows_of d cname !! k = Some r ->
    any_null (project child r (fk_columns fk)) = false -> parent_row cat d' child fk (project child r (fk_columns fk))).
  { intros cname child fk k r Hc Hfk Hk Hn. apply (Hstay cname); [done|done|by eapply in_refs|]. intros Er E. apply Heq.
    rewrite <- E in Hn. by eapply (spec_children_none cat d Hcat Hint name t old (Some row)). }
  apply integrity_change.
  - by apply map_Forall_insert_2.
  - apply Forall_forall. intros idx Hidx Hu.
    assert (Hone : forall k r, rows_of d name !! k = Some r -> k0 <> k -> any_null (project t row (ix_columns idx)) = false ->
      project t row (ix_columns idx) <> project t r (ix_columns idx)).
    { intros k r Hk Hne Hn E. destruct (Ei idx Hidx Hu Hn) as [Hs'|Hno]; [|by apply (Hno _ _ Hk)]. apply Heq' in Hs'. rewrite Hs' in Hn, E.
      apply Hne. by eapply (in_unique _ _ Hint _ _ _ Hin Hidx Hu). }
    intros k1 k2 r1 r2 H1 H2 Hn E.
    apply lookup_insert_Some in H1 as [[<- <-]|[Hk1 H1]]; apply lookup_insert_Some in H2 as [[<- <-]|[Hk2 H2]].
    + done.
    + by destruct (Hone _ _ H2 Hk2 Hn).
    + rewrite E in Hn. by destruct (Hone _ _ H1 Hk1 Hn).
    + by eapply (in_unique _ _ Hint).
  - intros fk k r Hfk Hk Hn. apply lookup_insert_Some in Hk as [[<- <-]|[Hne Hk]]; [|by eapply Hother].
    destruct (Hp fk Hfk Hn) as [Hs'|Hpar]; [apply Heq' in Hs'; rewrite Hs' in *; by eapply Hother|].
    eapply Hstay; [done|done|done|]. intros Er E. destruct (decide (project t row (fk_ref_columns fk) = project t old (fk_ref_columns fk))); [done|].
    destruct Hself. exists fk. rewrite (table_name cat Hcat _ _ Hin). by split_and!.
  - intros cname child fk k r Hc _ Hfk _ Hk Hn. by eapply Hother.
Qed.

(** The values a key refers to are those of one row. *)
Lemma target_unique fk k1 k2 r1 r2 : fk ∈ td_foreign_keys t -> fk_ref_table fk = name -> rows_of d name !! k1 = Some r1 -> rows_of d name !! k2 = Some r2 ->
  any_null (project t r1 (fk_ref_columns fk)) = false -> project t r1 (fk_ref_columns fk) = project t r2 (fk_ref_columns fk) -> k1 = k2.
Proof.
  intros Hfk Href H1 H2 Hn E. destruct (table_fks cat Hcat _ _ fk Hin Hfk) as (parent & [Hp _ _ _ Hu _]).
  assert (parent = t) as ->. { apply same_table. rewrite <- Href. by eapply (parent_table cat Hcat). }
  unfold unique_target in Hu. apply orb_true_iff in Hu as [Hu|Hu].
  - apply bool_decide_eq_true in Hu. pose proof (in_rows _ _ Hint _ _ Hin) as Hok. destruct (Hok _ _ H1) as [-> _], (Hok _ _ H2) as [-> _].
    unfold pk_key_of. by rewrite <- Hu, E.
  - apply existsb_exists in Hu as (idx & Hidx & Hu). apply andb_true_iff in Hu as [Hu Hs]. apply bool_decide_eq_true in Hs.
    apply (in_unique _ _ Hint name t idx Hin) with r1 r2; rewrite ?Hs; try done. by apply list_elem_of_In.
Qed.

(** An update that escapes leaves a reference without a parent. *)
Lemma update_escapes old row : rows_of d name !! pk_key_of t row = Some old -> escapes t old row ->
  ~ integrity cat (<[name := <[pk_key_of t row := row]> (rows_of d name)]> d).
Proof.
  intros H0 (fk & Hfk & Href & Hn & E & Hne) Hint'. rewrite (table_name cat Hcat _ _ Hin) in Href.
  set (k0 := pk_key_of t row) in *.
  destruct (in_refs _ _ Hint' name t fk k0 row Hin Hfk) as (parent & k & r & Hp & Hk & Er); [by rewrite rows_of_eq, lookup_insert_eq|done|].
  assert (parent = t) as ->. { apply same_table. rewrite <- Href. by eapply (parent_table cat Hcat). }
  rewrite Href, rows_of_eq in Hk. apply lookup_insert_Some in Hk as [[_ <-]|[Hkne Hk]]; [congruence|].
  apply Hkne. eapply (target_unique fk k0 k old r); try done; [by rewrite <- E|congruence].
Qed.
End preserve.

(** A table that refers to itself only by its primary key has no such update. *)
Lemma by_key_never_escapes t old row : names_resolve t -> self_refs_by_key t -> good_row t old -> good_row t row -> pk_key_of t old = pk_key_of t row ->
  ~ escapes t old row.
Proof.
  intros Hn Hself Ho Hr E (fk & Hfk & Href & _ & _ & Hne). rewrite (Hself fk Hfk Href) in Hne. apply Hne. symmetry.
  apply pk_key_inj; [apply (nr_pk _ Hn)|done|done|done].
Qed.
(** Integrity is kept exactly when the operation does not escape. *)
Lemma spec_op_integrity max_key cat d op : catalog_ok cat -> integrity cat d -> op_fits cat op ->
  integrity cat (snd (spec_row_op max_key cat d op)) <-> ~ (fst (spec_row_op max_key cat d op) = Ret tt /\ op_escapes cat d op).
Proof.
  intros Hcat Hint Hop. destruct op as [name row|name row|name key]; cbn [spec_row_op op_fits op_escapes] in *.
  - split; [by intros _ [_ []]|intros _]. unfold spec_insert, changing. destruct (StoreSchema.table cat name) as [t|] eqn:Et; [|done]. apply table_in in Et.
    destruct (insert_allowed _ _ _ _ _) as [[]|] eqn:E; [|done]. eapply insert_preserves; try done. by eapply Hop.
  - unfold spec_update, changing. destruct (StoreSchema.table cat name) as [t|] eqn:Et; [|cbn; split; [by intros _ []|done]]. apply table_in in Et.
    destruct (validate_row t row) as [[]|] eqn:Ev; [|cbn; split; [by intros _ []|done]].
    destruct (rows_of d name !! _) as [old|] eqn:E0; [|cbn; split; [by intros _ []|done]].
    assert (Hesc : (exists t' old', (name, t') ∈ tables cat /\ rows_of d name !! pk_key_of t' row = Some old' /\ escapes t' old' row) <-> escapes t old row).
    { split; [|intros He; by exists t, old]. intros (t' & old' & Ht' & Ho & He). rewrite (same_table cat Hcat name t Et t' Ht') in Ho, He. congruence. }
    rewrite Hesc. destruct (rows_equal old row) eqn:Eq; cbn [fst snd].
    { split; [|done]. intros _ [_ (fk & _ & _ & _ & _ & Hne)]. apply Hne. f_equal. symmetry.
      destruct (in_rows _ _ Hint _ _ Et _ _ E0) as [_ [_ Hf]]. apply rows_equal_eq; [by apply row_values_ok|by apply row_values_ok, (Hop t)|done]. }
    destruct (update_allowed _ _ _ _ _ _) as [[]|] eqn:E; cbn [fst snd]; [|by split; [intros _ []|]]. split.
    + intros Hi [_ He]. by eapply (update_escapes cat d Hcat Hint name t Et old row).
    + intros Hne. eapply update_preserves; try done; [by apply (Hop t)|]. intros He. by apply Hne.
  - split; [by intros _ [_ []]|intros _]. unfold spec_remove, changing. destruct (StoreSchema.table cat name) as [t|] eqn:Et; [|done]. apply table_in in Et.
    destruct (negb _); [done|]. destruct (primary_key_ok _ _ _) as [[]|]; [|done]. destruct (rows_of d name !! _) as [old|] eqn:E0; [|done].
    destruct (spec_children _ _ _ _ _) as [[]|] eqn:E; [|done]. by eapply remove_preserves.
Qed.

(** ** On pages *)

Section pages.
Context {W : Type} `{PageStore W} (ls : Lengths) `{!Groves W ls}.

Lemma ready_fits cat h room op : op_ready ls cat h room op -> op_fits cat op.
Proof. destruct op as [name row|name row|name key]; cbn; [| |done]; intros Hop t Ht; apply (Hop t Ht). Qed.

(** [C9] What a row operation does to integrity.  When the trees of a store
    hold rows with integrity, they hold rows with integrity after [insert],
    [update] or [remove], whether it succeeds or is refused, with one exception
    that the code lets pass: an update that succeeds and after which the row
    refers, by a foreign key of its table to itself, to values that only the
    row itself had before and that it has no longer.  After such an update
    integrity does not hold. *)
Theorem row_op_preserves_integrity fuel h cat d g wr w op :
  catalog_ok cat -> store_rep cat g d -> heights cat g h -> (h <= 64)%nat -> (g_pages g <= fuel)%nat ->
  op_ready ls cat h (g_room g) op -> finished wr = false -> edited wr = cat -> grove_at w g -> integrity cat d ->
  exists r w' g' d', exec_row_op fuel op (wr, w) = (r, (wr, w')) /\ grove_at w' g' /\ store_rep cat g' d'
    /\ (integrity cat d' <-> ~ (r = Ret tt /\ op_escapes cat d op)).
Proof.
  intros Hcat Hrep Hh Hh64 Hfuel Hop Hact Hed Hw Hint.
  destruct (row_op_refines ls fuel h cat d g wr w op) as (w' & g' & E & Hw' & Hrep' & _); try done.
  eexists _, w', g', _. split_and!; [exact E|exact Hw'|exact Hrep'|]. apply spec_op_integrity; [done|done|by eapply ready_fits].
Qed.
End pages.
