(* ===== verification/StoreExamples.v ===== *)
(** A store on pages held in memory: the laws of such pages, a catalog whose
    trees are evaluated, and an update that the constraints should refuse. *)

From stdpp Require Import base numbers list gmap strings sorting functions.
From S2P Require Import Prelude Bytes PageFormat Types Record StoreSchema BTreeNode BTreeNodeFacts BTree BTreeTree BTreeRead BTreePut BTreeSpec BTreeFindings.
From S2P Require Import Store Grove StoreRep StoreSpec StoreReads StoreRefine StoreIntegrity.
From stdpp Require Import list.
Open Scope Z_scope.

(** * Pages in memory *)

Definition mem_at (w : Mem) (m : gmap PageNo Bytes) (k : nat) : Prop :=
  mem_pages w = m /\ pages_ok 512 m /\ map_Forall (fun p _ => p < mem_next w) m /\ 1 <= mem_next w /\ mem_next w + Z.of_nat k < 2 ^ 64.
#[export] Instance mem_laws : PageStoreLaws Mem.
Proof.
  refine {| store_at := mem_at |}.
  - cbn. lia.
  - by intros w m k (_ & ? & _).
  - intros w m k p b (E & Hrest) Hp. exists w. cbn. rewrite E, Hp. done.
  - intros w m k p b (E & Hok & Hlt & Hn) [b0 Hp] Hl Hb. eexists. split; [done|]. cbn in *. split_and!; [cbn; by rewrite E| | |apply Hn|apply Hn].
    + apply map_Forall_insert_2; [|done]. split_and!; [apply (Hok p b0 Hp)..|done|done].
    + apply map_Forall_insert_2; [by apply (Hlt p b0)|done].
  - intros w m k (E & Hok & Hlt & Hn & Hroom). exists (mem_next w). eexists. split_and!; [done| |].
    + destruct (m !! mem_next w) as [b|] eqn:Eb; [|done]. specialize (Hlt _ _ Eb). cbn in Hlt. lia.
    + split_and!; cbn [mem_pages mem_next]; [by rewrite E| | |lia|lia].
      * apply map_Forall_insert_2; [|done]. split_and!; [lia|lia|apply length_replicate|]. apply Forall_replicate. done.
      * apply map_Forall_insert_2; [lia|]. eapply map_Forall_impl; [exact Hlt|]. cbn. intros. lia.
  - intros w m k p (E & Hok & Hlt & Hn & Hroom) Hp. eexists. split; [done|]. split_and!; cbn; [by rewrite E| | |lia|lia]; by apply map_Forall_delete.
Defined.

(** * A catalog *)

(** Numbered rows with a unique code and a reference to another row's code. *)
Definition parts : TableDef :=
  mkTableDef "parts"
    [mkColumnDef "id" TInteger false 0; mkColumnDef "code" TInteger false 0; mkColumnDef "made_of" TInteger true 0]
    ["id"] [mkIndexDef "by_code" ["code"] true 3; mkIndexDef "by_made_of" ["made_of"] false 4]
    [mkForeignKey "made_of_fk" ["made_of"] "parts" ["code"]] [] 2.
Definition parts_catalog : Catalog := mkCatalog 1 [("parts", parts)].
Lemma parts_catalog_ok : catalog_ok parts_catalog.
Proof.
  constructor.
  - by repeat constructor.
  - decide_now.
  - repeat constructor.
  - decide_now.
Qed.

(** The store with the empty table. *)
Definition script : WrM (W := Mem) unit :=
  do! onw create in
  create_table parts.
Definition fresh_writer : Writer := mkWriter (mkCatalog 1 []) false false.

(** The update that [row_op_preserves_integrity] excepts, on a table: a part is
    given the code 8 and made a component of code 7 at once.  The check finds
    code 7 in the row as it was, no row refers to it yet, and the update
    succeeds.  Afterwards no row has the code 7, and the store's own
    verification of the foreign keys fails. *)
Example self_reference_escapes :
  let before := (do! script in Store.insert 9 "parts" [Integer 1; Integer 7; Null]) in
  let after := (do! before in Store.update 9 "parts" [Integer 1; Integer 8; Integer 7]) in
  let verify m := fst (bind m (fun _ => let! w := getO in onw (verify_foreign_keys 9 true (edited w) "parts")) (fresh_writer, mkMem ∅ 1)) in
  verify before = Ret tt
  /\ fst (after (fresh_writer, mkMem ∅ 1)) = Ret tt
  /\ code_of (verify after) = Constraint.
Proof. vm_compute. done. Qed.

(** * Witnesses *)

Definition part_lengths : Lengths := fun _ => (9, 18)%nat.
Definition empty_leaf : Bytes := Node.init 512 kLeaf.
Definition parts_pages : gmap PageNo Bytes := {[2 := empty_leaf; 3 := empty_leaf; 4 := empty_leaf]}.
Definition parts_mem : Mem := mkMem parts_pages 5.
Definition parts_grove : Grove := mkGrove {[2 := ∅; 3 := ∅; 4 := ∅]} (fun _ => 1%nat) 100 103 [].

Lemma leaf_pages r : tree_pages (W := Mem) part_lengths r ∅ 1 {[r := empty_leaf]}.
Proof.
  pose proof (init_node 512 ltac:(lia) kLeaf ltac:(unfold is_byte, kLeaf; lia)) as Hn.
  exists (Leaf r []). split_and!; [|done|done|done]. constructor.
  - cbn. split; [|done]. exists empty_leaf. rewrite lookup_singleton_eq. split; [done|exact Hn].
  - constructor.
  - constructor.
  - unfold owned. cbn. apply NoDup_cons_2; [apply not_elem_of_nil|constructor].
  - constructor.
  - constructor.
  - by left.
Qed.
Lemma part_page p b : parts_pages !! p = Some b -> 2 <= p <= 4 /\ b = empty_leaf.
Proof.
  unfold parts_pages. intros Hp. repeat (apply lookup_insert_Some in Hp as [[<- <-]|[? Hp]]; [split; [lia|done]|]).
  apply lookup_singleton_Some in Hp as [<- <-]. split; [lia|done].
Qed.
Lemma parts_grove_at : grove_at (ls := part_lengths) parts_mem parts_grove.
Proof.
  split; [intros r; cbn; split_and!; [lia|decide_now|lia]|].
  assert (Hleaf : length empty_leaf = 512%nat /\ bytes_ok empty_leaf) by decide_now.
  exists parts_pages, 100%nat, {[2 := {[2 := empty_leaf]}; 3 := {[3 := empty_leaf]}; 4 := {[4 := empty_leaf]}]}. split_and!; [done| |decide_now|].
  - split_and!; [done| | |cbn; lia|cbn; lia].
    + intros p b Hp. apply part_page in Hp as [Hp ->]. split; [lia|exact Hleaf].
    + intros p b Hp. apply part_page in Hp as [Hp ->]. cbn. lia.
  - constructor.
    + intros r c Hr. cbn [g_trees parts_grove g_height] in *. exists {[r := empty_leaf]}.
      repeat (apply lookup_insert_Some in Hr as [[<- <-]|[? Hr]]; [split; [done|apply leaf_pages]|]).
      apply lookup_singleton_Some in Hr as [<- <-]. split; [done|apply leaf_pages].
    + intros x c mr Hx. by apply not_elem_of_nil in Hx.
    + intros r mr Hr. unfold parts_pages.
      repeat (apply lookup_insert_Some in Hr as [[<- <-]|[? Hr]]; [by apply map_singleton_subseteq_l|]).
      apply lookup_singleton_Some in Hr as [<- <-]. by apply map_singleton_subseteq_l.
    + intros r1 r2 m1 m2 H1 H2 Hne.
      assert (Hsing : forall r mr, ({[2 := {[2 := empty_leaf]}; 3 := {[3 := empty_leaf]}; 4 := {[4 := empty_leaf]}]} : gmap PageNo (gmap PageNo Bytes)) !! r = Some mr -> mr = {[r := empty_leaf]}).
      { intros r mr Hr. repeat (apply lookup_insert_Some in Hr as [[<- <-]|[? Hr]]; [done|]). by apply lookup_singleton_Some in Hr as [<- <-]. }
      apply Hsing in H1 as ->. apply Hsing in H2 as ->. by apply map_disjoint_singleton_l_2, lookup_singleton_ne.
Qed.
Lemma empty_index t idx : index_of t idx ∅ ∅.
Proof. intros key v. rewrite lookup_empty. split; [done|]. intros (_ & k & r & Hk & _). by rewrite lookup_empty in Hk. Qed.
Lemma parts_rep : store_rep parts_catalog parts_grove ∅.
Proof.
  intros name t [= -> ->]%list_elem_of_singleton. constructor.
  - done.
  - apply map_Forall_empty.
  - do 2 (apply Forall_cons_2; [exists ∅; split; [done|apply empty_index]|]). apply Forall_nil_2.
Qed.

Definition first_part : Row := [Integer 1; Integer 7; Null].
Lemma first_part_storable : storable_row (W := Mem) part_lengths parts first_part.
Proof.
  constructor.
  - decide_now.
  - split; [intros _; split; [decide_now|cbn; lia]|]. do 2 (apply Forall_cons_2; [intros _; split; [decide_now|cbn; lia]|]). apply Forall_nil_2.
  - reflexivity.
Qed.
Lemma first_part_inserted : spec_row_op (max_key_bytes (W := Mem)) parts_catalog ∅ (RInsert "parts" first_part)
  = (Ret tt, {["parts" := {[pk_key_of parts first_part := first_part]}]}).
Proof. vm_compute. reflexivity. Qed.
Lemma store_refines_tables_witness : exists w' g',
  Store.insert 103 "parts" first_part (mkWriter parts_catalog false false, parts_mem) = (Ret tt, (mkWriter parts_catalog false false, w'))
  /\ grove_at (ls := part_lengths) w' g'
  /\ store_rep parts_catalog g' {["parts" := {[pk_key_of parts first_part := first_part]}]} /\ heights parts_catalog g' 2.
Proof.
  pose proof (store_refines_tables part_lengths 103 1 parts_catalog ∅ parts_grove (mkWriter parts_catalog false false) parts_mem (RInsert "parts" first_part)) as Hr.
  rewrite first_part_inserted in Hr. apply Hr.
  - exact parts_catalog_ok.
  - exact parts_rep.
  - decide_now.
  - lia.
  - reflexivity.
  - intros t [= ->]%list_elem_of_singleton. split; [exact first_part_storable|vm_compute; lia].
  - reflexivity.
  - reflexivity.
  - exact parts_grove_at.
Defined.

Lemma no_rows name : rows_of ∅ name = ∅.
Proof. done. Qed.
Lemma no_rows_integrity cat : integrity cat ∅.
Proof.
  constructor.
  - intros name t _. rewrite no_rows. apply map_Forall_empty.
  - intros name t idx _ _ _ k1 k2 r1 r2 H1. by rewrite no_rows, lookup_empty in H1.
  - intros name t fk k r _ _ H1. by rewrite no_rows, lookup_empty in H1.
Qed.
Lemma row_op_preserves_integrity_witness : exists r w' g' d',
  Store.insert 103 "parts" first_part (mkWriter parts_catalog false false, parts_mem) = (r, (mkWriter parts_catalog false false, w'))
  /\ grove_at (ls := part_lengths) w' g' /\ store_rep parts_catalog g' d' /\ integrity parts_catalog d'.
Proof.
  destruct (row_op_preserves_integrity part_lengths 103 1 parts_catalog ∅ parts_grove (mkWriter parts_catalog false false) parts_mem (RInsert "parts" first_part))
    as (r & w' & g' & d' & E & Hw & Hrep & Hiff).
  - exact parts_catalog_ok.
  - exact parts_rep.
  - decide_now.
  - lia.
  - reflexivity.
  - intros t [= ->]%list_elem_of_singleton. split; [exact first_part_storable|vm_compute; lia].
  - reflexivity.
  - reflexivity.
  - exact parts_grove_at.
  - apply no_rows_integrity.
  - exists r, w', g', d'. split_and!; [exact E|exact Hw|exact Hrep|]. apply Hiff. intros [_ []].
Defined.
