(* ===== verification/CoreSchema.v ===== *)
(** The core schema and migrations (core/src/schema.cpp,
    engine/src/engine/migrate.cpp).

    The tables every module relies on, the steps that create them, and what
    [migrate] does inside the transaction of one step.  Opening and committing
    that transaction is the store's part. *)

From stdpp Require Import base numbers list gmap strings.
From S2P Require Import Prelude Bytes PageFormat Types Record StoreSchema BTree Store.
From stdpp Require Import list.
Open Scope Z_scope.

(** * Values *)

(** The accessors of a [Value]: the fields of another kind hold zero or are
    empty. *)
Definition as_int64 (v : Value) : Z :=
  match v with
  | Integer i | Decimal i | Timestamp i => i
  | Boolean b => if b then 1 else 0
  | _ => 0
  end.
Definition as_bool (v : Value) : bool := negb (as_int64 v =? 0).
Definition as_text (v : Value) : string := match v with Text s => string_of_bytes s | _ => "" end.
Definition as_blob (v : Value) : Bytes := match v with Blob b => b | _ => [] end.
Definition as_uuid (v : Value) : Bytes := match v with Uuid u => u | _ => replicate 16 0 end.
Definition text (s : string) : Value := Text (bytes_of_string s).
(** [r[i]]. *)
Definition at_ (r : Row) (i : nat) : Value := nth i r Null.

(** * Building definitions *)

Definition col (name : string) (ty : ColumnType) (nullable : bool) : ColumnDef := mkColumnDef name ty nullable 0.
Definition index (name : string) (columns : list string) (unique : bool) : IndexDef := mkIndexDef name columns unique 0.
Definition one_of (name column : string) (values : list string) : CheckDef := mkCheckDef name column CIn (map text values) "".
Definition non_empty (name column : string) : CheckDef := mkCheckDef name column CNe [text ""] "".

(** * Tables *)

Definition kAuditLog : string := "audit_log".
Definition kChangeFeed : string := "change_feed".
Definition kRoleGrants : string := "role_grants".
Definition kDatasetGrants : string := "dataset_grants".
Definition kLocalAccounts : string := "local_accounts".

Definition audit_log : TableDef :=
  mkTableDef kAuditLog
    [col "id" TInteger false; col "at" TTimestamp false; col "actor_kind" TText false; col "actor_tid" TText true; col "actor_oid" TText true;
     col "actor_account" TText true; col "actor_device" TUuid true; col "action" TText false; col "target_table" TText true;
     col "target_id" TText true; col "request_id" TText true; col "detail" TText true]
    ["id"]
    [index "audit_log_at" ["at"] false; index "audit_log_target" ["target_table"; "target_id"] false;
     index "audit_log_actor" ["actor_tid"; "actor_oid"] false; index "audit_log_device" ["actor_device"] false;
     index "audit_log_account" ["actor_account"] false]
    []
    [one_of "audit_log_actor_kind_known" "actor_kind" ["principal"; "device"; "account"; "system"]; non_empty "audit_log_action_nonempty" "action"] 0.

Definition change_feed : TableDef :=
  mkTableDef kChangeFeed
    [col "id" TInteger false; col "audit_id" TInteger false; col "at" TTimestamp false; col "table_name" TText false; col "op" TText false;
     col "key" TText false; col "before_image" TText true; col "after_image" TText true]
    ["id"]
    [index "change_feed_audit" ["audit_id"] false; index "change_feed_table" ["table_name"; "id"] false]
    [mkForeignKey "change_feed_audit_fk" ["audit_id"] kAuditLog ["id"]]
    [one_of "change_feed_op_known" "op" ["insert"; "update"; "delete"]; non_empty "change_feed_table_nonempty" "table_name"] 0.

Definition role_grants (with_people : bool) : TableDef :=
  mkTableDef kRoleGrants
    [col "id" TInteger false; col "tid" TText false; col "oid" TText false; col "role" TText false; col "granted_by" TText false;
     col "granted_at" TTimestamp false]
    ["id"]
    [index "role_grants_principal" ["tid"; "oid"; "role"] true; index "role_grants_role" ["role"] false]
    []
    [(if with_people then one_of "role_grants_role_known" "role" ["supervisor"; "payroll"; "admin"; "analyst"; "people"]
      else one_of "role_grants_role_known" "role" ["supervisor"; "payroll"; "admin"; "analyst"]);
     non_empty "role_grants_tid_nonempty" "tid"; non_empty "role_grants_oid_nonempty" "oid"] 0.

Definition dataset_grants : TableDef :=
  mkTableDef kDatasetGrants
    [col "id" TInteger false; col "tid" TText false; col "oid" TText false; col "dataset" TText false; col "permission" TText false;
     col "granted_by" TText false; col "granted_at" TTimestamp false]
    ["id"]
    [index "dataset_grants_principal" ["tid"; "oid"; "dataset"; "permission"] true; index "dataset_grants_dataset" ["dataset"] false]
    []
    [one_of "dataset_grants_permission_known" "permission" ["read"; "write"; "admin"]; non_empty "dataset_grants_dataset_nonempty" "dataset";
     non_empty "dataset_grants_tid_nonempty" "tid"; non_empty "dataset_grants_oid_nonempty" "oid"] 0.

Definition local_accounts : TableDef :=
  mkTableDef kLocalAccounts
    [col "id" TInteger false; col "username" TText false; col "kind" TText false; col "verifier" TBlob false; col "enabled" TBoolean false;
     col "created_at" TTimestamp false; col "expires_at" TTimestamp true; col "last_used_at" TTimestamp true]
    ["id"]
    [index "local_accounts_username" ["username"] true]
    []
    [one_of "local_accounts_kind_known" "kind" ["break_glass"; "device_admin"]; non_empty "local_accounts_username_nonempty" "username"] 0.

(** * Steps *)

Section steps.
Context {W : Type} `{PageStore W}.
Variable fuel : nat.

Fixpoint create_tables (l : list TableDef) : WrM (W := W) unit :=
  match l with
  | [] => ret tt
  | t :: l => do! create_table t in create_tables l
  end.
Fixpoint insert_rows (table_ : string) (l : list Row) : WrM (W := W) unit :=
  match l with
  | [] => ret tt
  | r :: l => do! Store.insert fuel table_ r in insert_rows table_ l
  end.

Definition apply_v1 : WrM (W := W) unit :=
  create_tables [audit_log; change_feed; role_grants false; dataset_grants; local_accounts].
Definition apply_v2 : WrM (W := W) unit :=
  let! w := getO in
  let! rows := onw (scan_all fuel true (edited w) kRoleGrants "" None None false) in
  do! drop_table kRoleGrants in
  do! create_table (role_grants true) in
  insert_rows kRoleGrants rows.

(** * Migrations *)

Record Migration := mkMigration { mg_version : Z; mg_name : string; mg_apply : option (WrM (W := W) unit) }.
Definition migrations : list Migration :=
  [mkMigration 1 "core_v1" (Some apply_v1); mkMigration 2 "core_people_role" (Some apply_v2)].

Definition kMigrationsTable : string := "archivum_migrations".
Definition migrations_table : TableDef :=
  mkTableDef kMigrationsTable
    [mkColumnDef "module" TText false 0; mkColumnDef "version" TInteger false 0; mkColumnDef "name" TText false 0;
     mkColumnDef "applied_at" TTimestamp false 0]
    ["module"; "version"] [] []
    [mkCheckDef "name_nonempty" "name" CNe [text ""] ""; mkCheckDef "module_nonempty" "module" CNe [text ""] ""] 0.

(** The loop of [validate_migrations], at position [i]. *)
Fixpoint validate_from (i : Z) (names : list string) (l : list Migration) : Result unit :=
  match l with
  | [] => Ret tt
  | m :: l =>
      if negb (mg_version m =? i + 1) then
        invalid_argument ("migration " +:+ mg_name m +:+ " has version " +:+ to_string (mg_version m) +:+ ", expected " +:+ to_string (i + 1))
      else if String.eqb (mg_name m) "" then invalid_argument ("migration " +:+ to_string (mg_version m) +:+ " has no name")
      else if bool_decide (mg_name m ∈ names) then invalid_argument ("migration name repeated: " +:+ mg_name m)
      else if negb (bool_decide (is_Some (mg_apply m))) then invalid_argument ("migration " +:+ mg_name m +:+ " has no apply function")
      else validate_from (i + 1) (mg_name m :: names) l
  end.
Definition validate_migrations (l : list Migration) : Result unit := validate_from 0 [] l.

Definition applied_of (r : Row) : Z * string :=
  (u64_of_i64 (as_int64 (at_ r 1)), as_text (at_ r 2)).
Definition applied_migrations (cat : Catalog) (module : string) : M W (list (Z * string)) :=
  match StoreSchema.table cat kMigrationsTable with
  | None => ret []
  | Some _ =>
      let! rows := scan_all fuel true cat kMigrationsTable "" (Some (mkBound [text module] true)) (Some (mkBound [text module] true)) false in
      ret (map applied_of rows)
  end.

(** The check of [migrate] that the recorded steps are the first of the
    list. *)
Fixpoint check_applied (module : string) (i : Z) (applied : list (Z * string)) (l : list Migration) : Result unit :=
  match applied, l with
  | (v, n) :: applied, m :: l =>
      if negb (v =? i + 1) || negb (String.eqb n (mg_name m)) then
        corrupt ("migration " +:+ module +:+ " " +:+ to_string (i + 1) +:+ " recorded as '" +:+ n +:+ "', this binary has '" +:+ mg_name m +:+ "'")
      else check_applied module (i + 1) applied l
  | _, _ => Ret tt
  end.
Definition pending (module : string) (applied : list (Z * string)) (l : list Migration) : Result (list Migration) :=
  if (length l <? length applied)%nat then
    unsupported ("database has " +:+ to_string (Z.of_nat (length applied)) +:+ " migrations of " +:+ module
      +:+ ", newer than this binary's " +:+ to_string (Z.of_nat (length l)))
  else let? _ := check_applied module 0 applied l in Ret (drop (length applied) l).

(** One step inside its transaction, up to the commit. *)
Definition migrate_step (module : string) (now_us : Z) (m : Migration) : WrM (W := W) unit :=
  let! w := getO in
  do! (if negb (bool_decide (is_Some (StoreSchema.table (edited w) kMigrationsTable))) then create_table migrations_table else ret tt) in
  let! w := getO in
  let! now_applied := onw (applied_migrations (edited w) module) in
  if negb (Z.of_nat (length now_applied) =? mg_version m - 1) then lift (busy "schema changed underneath the migration")
  else
    let! s := attempt (match mg_apply m with Some f => f | None => ret tt end) in
    match s with
    | Err e => lift (Err (mkStatus (code e) ("migration " +:+ module +:+ " " +:+ mg_name m +:+ ": " +:+ message e)))
    | Ret _ =>
        do! Store.insert fuel kMigrationsTable [text module; Integer (i64_of_u64 (mg_version m)); text (mg_name m); Timestamp now_us] in
        let! w := getO in
        set_schema_version (wrap64 (schema_version (edited w) + 1))
    end.
End steps.
