(* ===== verification/Program.v ===== *)
(** Programs over a store.

    The code of the modules reaches the store through a [Reader] or a
    [Writer]: it looks at the catalog, gets a row, scans an index and changes
    a row.  A [Prog] is such code; [exec] runs it with the operations of
    [Store], page by page, and [run] on the rows of the tables, as [StoreSpec]
    has them.  [spec_scan] is the rows a scan visits: those within its bounds
    in the order of their keys. *)

From stdpp Require Import base numbers list gmap strings sorting.
From S2P Require Import Prelude Bytes PageFormat Types Record StoreSchema BTreeNode BTreeNodeFacts BTree BTreeTree BTreeRead Store Grove StoreRep StoreSpec StoreReads.
From stdpp Require Import list.
Open Scope Z_scope.

(** * Programs *)

Inductive Prog (A : Type) : Type :=
  | PRet (r : Result A)
  | PCatalog (k : Catalog -> Prog A)
  | PGet (table_ : string) (primary_key : Row) (k : Result (option Row) -> Prog A)
  | PScan (B : Type) (table_ index_ : string) (lower upper : option Bound) (reverse : bool) (fn : Row -> B -> bool * B) (b : B) (k : Result B -> Prog A)
  | PWrite (op : RowOp) (k : Result unit -> Prog A).
Arguments PRet {A} r.
Arguments PCatalog {A} k.
Arguments PGet {A} table_ primary_key k.
Arguments PScan {A B} table_ index_ lower upper reverse fn b k.
Arguments PWrite {A} op k.

Fixpoint pbind {A B} (p : Prog A) (f : A -> Prog B) : Prog B :=
  match p with
  | PRet (Ret a) => f a
  | PRet (Err e) => PRet (Err e)
  | PCatalog k => PCatalog (fun c => pbind (k c) f)
  | PGet t pk k => PGet t pk (fun r => pbind (k r) f)
  | PScan t i lo hi rv fn b k => PScan t i lo hi rv fn b (fun r => pbind (k r) f)
  | PWrite op k => PWrite op (fun r => pbind (k r) f)
  end.

Declare Scope prog_scope.
Delimit Scope prog_scope with prog.
Notation "'let*' x ':=' p 'in' k" := (pbind p (fun x => k)) (at level 200, x pattern, p at level 100, k at level 200, only parsing) : prog_scope.
Notation "'do*' p 'in' k" := (pbind p (fun _ => k)) (at level 200, p at level 100, k at level 200, only parsing) : prog_scope.
Open Scope prog_scope.

Definition pret {A} (a : A) : Prog A := PRet (Ret a).
Definition pcatalog : Prog Catalog := PCatalog pret.
Definition pget (table_ : string) (primary_key : Row) : Prog (option Row) := PGet table_ primary_key PRet.
Definition pscan {B} (table_ index_ : string) (lower upper : option Bound) (reverse : bool) (fn : Row -> B -> bool * B) (b : B) : Prog B :=
  PScan table_ index_ lower upper reverse fn b PRet.
Definition pscan_all (table_ index_ : string) (lower upper : option Bound) : Prog (list Row) :=
  pscan table_ index_ lower upper false (fun r out => (true, out ++ [r])) [].
Definition pwrite (op : RowOp) : Prog unit := PWrite op PRet.
(** The loop [for (x : l) if (Status s = f(x); !s.ok()) return s;]. *)
Fixpoint pfor {A} (l : list A) (f : A -> Prog unit) : Prog unit :=
  match l with
  | [] => pret tt
  | x :: l => do* f x in pfor l f
  end.

(** ** On the pages *)

Section exec.
Context {W : Type} `{PageStore W}.
Variable fuel : nat.
Fixpoint exec {A} (p : Prog A) : WrM (W := W) A :=
  match p with
  | PRet r => lift r
  | PCatalog k => let! w := getO in exec (k (edited w))
  | PGet t pk k => let! w := getO in let! r := attempt (onw (Store.get true (edited w) t pk)) in exec (k r)
  | PScan t i lo hi rv fn b k =>
      let! w := getO in let! r := attempt (onw (Store.scan fuel true (edited w) t i lo hi rv fn b)) in exec (k r)
  | PWrite op k =>
      let! r := attempt (match op with
                         | RInsert t row => Store.insert fuel t row
                         | RUpdate t row => Store.update fuel t row
                         | RRemove t pk => Store.remove fuel t pk
                         end) in
      exec (k r)
  end.
End exec.

(** ** On the rows *)

Definition entry_le (a b : Bytes * Row) : Prop := key_less (fst b) (fst a) = false.
#[export] Instance entry_le_dec : RelDecision entry_le.
Proof. intros a b. unfold entry_le. apply _. Defined.

Lemma key_less_klt a b : key_less a b = true <-> klt a b.
Proof. unfold key_less, klt. rewrite compare_bytes_lex. by destruct (lex a b). Qed.
Lemma key_less_kle a b : key_less a b = false <-> kle b a.
Proof. rewrite kle_not_klt, <- key_less_klt. by destruct (key_less a b). Qed.
#[export] Instance entry_le_trans : Transitive entry_le.
Proof. intros a b c. unfold entry_le. rewrite !key_less_kle. apply kle_trans. Qed.
#[export] Instance entry_le_total : Total entry_le.
Proof. intros a b. unfold entry_le. rewrite !key_less_kle. apply kle_total. Qed.

Section run.
Variable max_key : nat.
Variable cat : Catalog.

(** The entries of a table or of an index, in order. *)
Definition entry_key (t : TableDef) (idx : option IndexDef) (k : Bytes) (r : Row) : Bytes :=
  match idx with Some idx => index_key_of t idx r k | None => k end.
Definition scan_entries (t : TableDef) (idx : option IndexDef) (rows : gmap Bytes Row) : list (Bytes * Row) :=
  merge_sort entry_le (map (fun x => (entry_key t idx (fst x) (snd x), snd x)) (map_to_list rows)).
Definition within (lower upper : option Bound) (key : Bytes) : bool := negb (past_lower lower key) && negb (past_upper upper key).
Definition visited (t : TableDef) (idx : option IndexDef) (lower upper : option Bound) (rows : gmap Bytes Row) : list Row :=
  map snd (List.filter (fun e => within lower upper (fst e)) (scan_entries t idx rows)).

Fixpoint fold_until {B} (fn : Row -> B -> bool * B) (rows : list Row) (b : B) : B :=
  match rows with
  | [] => b
  | r :: rows => let '(go, b) := fn r b in if (go : bool) then fold_until fn rows b else b
  end.
Definition spec_scan {B} (d : Data) (table_ index_ : string) (lower upper : option Bound) (reverse : bool) (fn : Row -> B -> bool * B) (b : B) : Result B :=
  match StoreSchema.table cat table_ with
  | None => not_found ("no table " +:+ table_)
  | Some t =>
      let? idx := (if String.eqb index_ "" then Ret None
                   else match StoreSchema.index t index_ with
                        | Some idx => Ret (Some idx)
                        | None => not_found ("no index " +:+ index_ +:+ " on " +:+ table_)
                        end) in
      let? _ := check_bound t (key_columns t idx) lower in
      let? _ := check_bound t (key_columns t idx) upper in
      let l := visited t idx lower upper (rows_of d table_) in
      Ret (fold_until fn (if reverse then rev l else l) b)
  end.
Definition spec_get (d : Data) (table_ : string) (primary_key : Row) : Result (option Row) :=
  match StoreSchema.table cat table_ with
  | None => not_found ("no table " +:+ table_)
  | Some t =>
      if negb (length primary_key =? length (td_primary_key t))%nat then
        invalid_argument ("primary key of " +:+ table_ +:+ " has " +:+ to_string (Z.of_nat (length (td_primary_key t))) +:+ " columns")
      else let? _ := primary_key_ok t primary_key (td_primary_key t) in Ret (rows_of d table_ !! encode_key primary_key)
  end.

Fixpoint run {A} (p : Prog A) (d : Data) : Result A * Data :=
  match p with
  | PRet r => (r, d)
  | PCatalog k => run (k cat) d
  | PGet t pk k => run (k (spec_get d t pk)) d
  | PScan t i lo hi rv fn b k => run (k (spec_scan d t i lo hi rv fn b)) d
  | PWrite op k => let '(r, d) := spec_row_op max_key cat d op in run (k r) d
  end.

Lemma visited_all t idx rows : visited t idx None None rows = map snd (scan_entries t idx rows).
Proof. unfold visited. f_equal. induction (scan_entries t idx rows) as [|e l IH]; [done|]. cbn. by f_equal. Qed.
Lemma run_bind {A B} (p : Prog A) (f : A -> Prog B) : forall d,
  run (pbind p f) d = match run p d with (Ret a, d) => run (f a) d | (Err e, d) => (Err e, d) end.
Proof.
  induction p as [[a|e]|k IH|t pk k IH|C t i lo hi rv fn b k IH|op k IH]; intros d; cbn [pbind run]; [done|done|apply IH..|].
  destruct (spec_row_op max_key cat d op) as [r d']. apply IH.
Qed.
End run.

(** ** The tables a program may change *)

Definition op_table (op : RowOp) : string := match op with RInsert n _ | RUpdate n _ | RRemove n _ => n end.
Fixpoint writes_only {A} (names : list string) (p : Prog A) : Prop :=
  match p with
  | PRet _ => True
  | PCatalog k => forall c, writes_only names (k c)
  | PGet _ _ k => forall r, writes_only names (k r)
  | PScan _ _ _ _ _ _ _ k => forall r, writes_only names (k r)
  | PWrite op k => op_table op ∈ names /\ forall r, writes_only names (k r)
  end.
(** [d'] differs from [d] in the tables [names] only. *)
Definition same_but (names : list string) (d d' : Data) : Prop := forall n, n ∉ names -> rows_of d' n = rows_of d n.
Lemma same_but_trans names d1 d2 d3 : same_but names d1 d2 -> same_but names d2 d3 -> same_but names d1 d3.
Proof. intros H1 H2 n Hn. by rewrite H2, H1. Qed.
Lemma same_but_weaken names names' d d' : names ⊆ names' -> same_but names d d' -> same_but names' d d'.
Proof. intros Hs H n Hn. apply H. intros Hin. by apply Hn, Hs. Qed.

Lemma writes_bind {A B} names (p : Prog A) (f : A -> Prog B) : writes_only names p -> (forall a, writes_only names (f a)) -> writes_only names (pbind p f).
Proof.
  intros Hp Hf. induction p as [[a|e]|k IH|t pk k IH|C t i lo hi rv fn b k IH|op k IH]; cbn [pbind writes_only] in *; auto. destruct Hp as [Hin Hk]. auto.
Qed.
Lemma writes_for {A} names (l : list A) (f : A -> Prog unit) : (forall x, writes_only names (f x)) -> writes_only names (pfor l f).
Proof. intros Hf. induction l as [|x l IH]; [done|]. cbn [pfor]. by apply writes_bind. Qed.
Lemma writes_weaken {A} names names' (p : Prog A) : names ⊆ names' -> writes_only names p -> writes_only names' p.
Proof.
  intros Hs. induction p as [r|k IH|t pk k IH|C t i lo hi rv fn b k IH|op k IH]; cbn [writes_only]; auto. intros [Hin Hk]. auto.
Qed.
Lemma spec_op_same max_key cat d op : same_but [op_table op] d (snd (spec_row_op max_key cat d op)).
Proof.
  assert (Hch : forall name r f, same_but [name] d (snd (changing d name r f))).
  { intros name r f n Hn. unfold changing. destruct r; [|done]. cbn [snd]. apply rows_of_ne. intros ->. apply Hn. by left. }
  destruct op as [name row|name row|name key]; cbn [spec_row_op op_table].
  - unfold spec_insert. destruct (StoreSchema.table cat name); [apply Hch|done].
  - unfold spec_update. destruct (StoreSchema.table cat name) as [t|]; [|done]. destruct (validate_row t row); [|done].
    destruct (rows_of d name !! _); [|done]. destruct (rows_equal _ _); [done|apply Hch].
  - unfold spec_remove. destruct (StoreSchema.table cat name) as [t|]; [|done]. destruct (negb _); [done|]. destruct (primary_key_ok _ _ _); [|done].
    destruct (rows_of d name !! _); [apply Hch|done].
Qed.
(** A program leaves every other table as it was, whether it succeeds or
    not. *)
Lemma run_same {A} max_key cat names (p : Prog A) : writes_only names p -> forall d, same_but names d (snd (run max_key cat p d)).
Proof.
  induction p as [r|k IH|t pk k IH|C t i lo hi rv fn b k IH|op k IH]; cbn [writes_only run]; intros Hp d; [done|by apply IH..|].
  destruct Hp as [Hin Hk]. pose proof (spec_op_same max_key cat d op) as Hs. destruct (spec_row_op max_key cat d op) as [r d1]. cbn [snd] in Hs.
  eapply same_but_trans; [|by apply IH]. eapply same_but_weaken; [|exact Hs]. intros n ->%list_elem_of_singleton. exact Hin.
Qed.
(** A program that writes nothing. *)
Lemma run_reads {A} max_key cat (p : Prog A) : writes_only [] p -> forall d, snd (run max_key cat p d) = d.
Proof.
  induction p as [r|k IH|t pk k IH|C t i lo hi rv fn b k IH|op k IH]; cbn [writes_only run]; intros Hp d; [done|by apply IH..|].
  destruct Hp as [Hin _]. by apply not_elem_of_nil in Hin.
Qed.
Lemma reads_run {A} max_key cat (p : Prog A) d a d' : writes_only [] p -> run max_key cat p d = (Ret a, d') -> d' = d.
Proof. intros Hp Hr. pose proof (run_reads max_key cat p Hp d) as H. by rewrite Hr in H. Qed.
(** The two halves of a sequence that succeeds. *)
Lemma run_bind_inv {A B} max_key cat (p : Prog A) (f : A -> Prog B) d b d' : run max_key cat (pbind p f) d = (Ret b, d') ->
  exists a d1, run max_key cat p d = (Ret a, d1) /\ run max_key cat (f a) d1 = (Ret b, d').
Proof. rewrite run_bind. destruct (run max_key cat p d) as [[a|] d1]; [|done]. by exists a, d1. Qed.
