(* ===== verification/StoreScan.v ===== *)
(** Scans on pages visit the rows that [Program] says.

    A scan seeks the first key within its bounds and moves a cursor until a
    key is past them, forwards or backwards.  Bounds cut the sorted keys of a
    tree in three, so what the cursor visits is what a filter keeps
    ([visited_forward], [visited_backward]); and each key leads to its row
    ([scan_row_gives]).  With the row operations of [StoreRefine] a whole
    program on pages computes what it computes on tables. *)

From stdpp Require Import base numbers list gmap strings sorting.
From S2P Require Import Prelude Bytes PageFormat Types Record StoreSchema BTreeNode BTreeNodeFacts BTree BTreeTree BTreeRead BTreePut Store Grove StoreRep StoreSpec StoreReads StoreRefine Program.
From stdpp Require Import list.
Open Scope Z_scope.

(** * Bounds on sorted keys *)

(** The entries up to the first for which [p] fails. *)
Fixpoint take_while {A} (p : A -> bool) (l : list A) : list A :=
  match l with
  | [] => []
  | x :: l => if p x then x :: take_while p l else []
  end.
Lemma take_while_filter {A} (p : A -> bool) (R : A -> A -> Prop) l : StronglySorted R l ->
  (forall x y, R x y -> p x = false -> p y = false) -> take_while p l = List.filter p l.
Proof.
  intros Hs Hmono. induction Hs as [|x l _ IH Hx]; [done|]. cbn [take_while List.filter]. destruct (p x) eqn:E; [by rewrite IH|].
  clear IH. induction Hx as [|y l Hy _ IH]; [done|]. cbn [List.filter]. by rewrite (Hmono x y Hy E).
Qed.
Lemma filter_none {A} (p : A -> bool) l : Forall (fun x => p x = false) l -> List.filter p l = [].
Proof. induction 1 as [|x l Hx _ IH]; [done|]. cbn. by rewrite Hx. Qed.
Lemma filter_same {A} (p q : A -> bool) l : Forall (fun x => p x = q x) l -> List.filter p l = List.filter q l.
Proof. induction 1 as [|x l Hx _ IH]; [done|]. cbn. by rewrite Hx, IH. Qed.

(** Keys between a prefix and a key that has it. *)
Lemma starts_between p k k' : kle p k -> kle k k' -> starts_with k' p = true -> starts_with k p = true.
Proof. intros H1 H2 Hs. apply starts_with_iff in Hs as [s ->]. apply starts_with_iff. by apply (prefix_between p s). Qed.
Lemma starts_above k p : starts_with k p = true -> kle p k.
Proof. intros Hs. apply starts_with_iff in Hs as [s ->]. apply kle_app. Qed.

(** A key past the upper bound is followed by such keys, a key past the lower
    bound preceded. *)
Lemma past_upper_mono b k k' : kle k k' -> past_upper b k = true -> past_upper b k' = true.
Proof.
  intros Hle. destruct b as [b|]; [|done]. cbn. destruct (inclusive b).
  - rewrite !andb_true_iff, !negb_true_iff, !key_less_klt. intros [Hlt Hs]. split; [by eapply klt_kle_trans|].
    apply not_true_iff_false. intros Hs'. apply not_true_iff_false in Hs. apply Hs. eapply starts_between; [by apply klt_kle|exact Hle|done].
  - rewrite !negb_true_iff, !key_less_kle. intros H. by transitivity k.
Qed.
Lemma past_lower_mono b k k' : kle k k' -> past_lower b k' = true -> past_lower b k = true.
Proof.
  intros Hle. destruct b as [b|]; [|done]. cbn. set (lo := encode_key (b_values b)). destruct (inclusive b).
  - rewrite !key_less_klt. by apply kle_klt_trans.
  - rewrite !orb_true_iff, !key_less_klt. intros [H|H]; [left; by eapply kle_klt_trans|].
    destruct (key_cases k lo) as [Hk|[->|Hk]]; [by left|right; apply starts_with_iff; exists []; by rewrite app_nil_r|].
    right. eapply starts_between; [by apply klt_kle|exact Hle|done].
Qed.

Definition esorted (l : list (Bytes * Row)) : Prop := StronglySorted (fun a b => kle (fst a) (fst b)) l.
(** Where the keys from [low] on start, the scan that stops at the upper bound
    keeps what is within both. *)
Lemma visited_forward lower upper (l1 l2 : list (Bytes * Row)) : esorted (l1 ++ l2) ->
  Forall (fun e => past_lower lower (fst e) = true) l1 -> Forall (fun e => past_lower lower (fst e) = false) l2 ->
  take_while (fun e => negb (past_upper upper (fst e))) l2 = List.filter (fun e => within lower upper (fst e)) (l1 ++ l2).
Proof.
  intros Hs H1 H2. apply StronglySorted_app_1_r in Hs. rewrite List.filter_app, filter_none, (filter_same _ (fun e => negb (past_upper upper (fst e)))); cbn [app].
  - eapply take_while_filter; [exact Hs|]. intros x y Hle. rewrite !negb_false_iff. by apply past_upper_mono.
  - eapply Forall_impl; [exact H2|]. intros e He. unfold within. by rewrite He.
  - eapply Forall_impl; [exact H1|]. intros e He. unfold within. by rewrite He.
Qed.
Lemma filter_rev {A} (p : A -> bool) l : List.filter p (rev l) = rev (List.filter p l).
Proof. induction l as [|x l IH]; [done|]. cbn [rev List.filter]. rewrite List.filter_app, IH. cbn. destruct (p x); [done|]. by rewrite app_nil_r. Qed.
Lemma sorted_rev {A} (R : A -> A -> Prop) l : StronglySorted R l -> StronglySorted (flip R) (rev l).
Proof.
  induction 1 as [|x l _ IH Hx]; [constructor|]. cbn [rev]. apply StronglySorted_app. split_and!; [|done|by repeat constructor].
  intros y z Hy ->%list_elem_of_singleton. rewrite Forall_forall in Hx. apply Hx. apply list_elem_of_In. apply in_rev. by apply list_elem_of_In.
Qed.
Lemma visited_backward lower upper (l1 l2 : list (Bytes * Row)) : esorted (l1 ++ l2) ->
  Forall (fun e => past_upper upper (fst e) = false) l1 -> Forall (fun e => past_upper upper (fst e) = true) l2 ->
  take_while (fun e => negb (past_lower lower (fst e))) (rev l1) = rev (List.filter (fun e => within lower upper (fst e)) (l1 ++ l2)).
Proof.
  intros Hs H1 H2. apply StronglySorted_app_1_l in Hs. rewrite List.filter_app, (filter_none _ l2), app_nil_r, (filter_same _ (fun e => negb (past_lower lower (fst e)))).
  - rewrite <- filter_rev. eapply take_while_filter; [by apply sorted_rev|]. intros x y Hle. rewrite !negb_false_iff. by apply past_lower_mono.
  - eapply Forall_impl; [exact H1|]. intros e He. unfold within. by rewrite He, andb_true_r.
  - eapply Forall_impl; [exact H2|]. intros e He. unfold within. by rewrite He, andb_false_r.
Qed.

(** * Cursors *)

Section scan.
Context {W : Type} `{PageStore W} (ls : Lengths) `{!Groves W ls}.
#[local] Abbreviation gives := (gives ls).

(** The same trees with more cursors open. *)
Inductive extends (g : Grove) : Grove -> Prop :=
  | extends_refl : extends g g
  | extends_marked g' x : extends g g' -> extends g (marked g' x).
Lemma extends_facts g g' : extends g g' -> g_trees g' = g_trees g /\ g_height g' = g_height g /\ g_pages g' = g_pages g
  /\ forall w, grove_at w g' -> grove_at w g.
Proof.
  induction 1 as [|g' x _ (H1 & H2 & H3 & H4)]; [done|]. split_and!; try done. intros w Hw. eapply H4, grove_unmark, Hw.
Qed.
Lemma extends_trans g g' g'' : extends g g' -> extends g' g'' -> extends g g''.
Proof. intros H1. induction 1 as [|g'' x _ IH]; [done|]. by constructor. Qed.
Lemma gives_extended {A} (c : M W A) g g' r : extends g g' -> forall w, grove_at w g' -> gives c g' r -> exists w', c w = (r, w') /\ grove_at w' g.
Proof. intros He w Hw Hc. destruct (Hc w Hw) as (w' & E & Hw'). exists w'. split; [done|]. by apply (extends_facts _ _ He). Qed.
Lemma gives_ext {A} (c c' : M W A) g r : (forall w, c' w = c w) -> gives c g r -> gives c' g r.
Proof. intros E Hc w Hw. rewrite E. by apply Hc. Qed.
Lemma bind_bind {A B C} (m : M W A) (f : A -> M W B) (k : B -> M W C) w : bind (bind m f) k w = bind m (fun a => bind (f a) k) w.
Proof. unfold bind. by destruct (m w) as [[a|e] w']. Qed.
Lemma bind_ext {A B} (m : M W A) (f f' : A -> M W B) w : (forall a w, f a w = f' a w) -> bind m f w = bind m f' w.
Proof. intros E. unfold bind. destruct (m w) as [[a|e] w']; [apply E|done]. Qed.
Lemma one_more g x : extends g (marked g x).
Proof. repeat constructor. Qed.

Section walk.
Context (fuel : nat) (r : PageNo) (c : gmap Bytes Bytes).
Definition walking (g : Grove) (cur : Cursor) (bef aft : list Bytes) : Prop :=
  g_trees g !! r = Some c /\ (g_pages g <= fuel)%nat /\ mkMark r cur bef aft ∈ g_marks g.
Lemma walking_extends g g' cur bef aft : walking g cur bef aft -> extends g g' -> walking g' cur bef aft.
Proof.
  intros (Hr & Hf & Hm) He. destruct (extends_facts _ _ He) as (E1 & _ & E3 & _). split_and!; [by rewrite E1|by rewrite E3|].
  clear -Hm He. induction He as [|g' x _ IH]; [done|]. by right.
Qed.
Lemma walking_at g w cur bef aft : walking g cur bef aft -> grove_at w g ->
  keys_of c = bef ++ aft /\ match aft with [] => valid_ cur = false | k :: _ => valid_ cur = true /\ key_ cur = k end.
Proof. intros (Hr & _ & Hm) Hw. exact (grove_mark w g c _ Hw Hm Hr). Qed.
Lemma walking_new g cur0 bef0 aft0 cur bef aft : walking g cur0 bef0 aft0 -> walking (marked g (mkMark r cur bef aft)) cur bef aft.
Proof. intros (Hr & Hf & _). split_and!; [done|done|]. left. Qed.

(** Skipping the keys with a prefix. *)
Lemma gives_skip {A} p (k : Cursor -> M W A) res n : forall g cur bef aft, walking g cur bef aft -> (length aft <= n)%nat ->
  (forall g' cur' l1 l2, extends g g' -> aft = l1 ++ l2 -> walking g' cur' (bef ++ l1) l2 -> Forall (fun k => starts_with k p = true) l1 ->
     match l2 with [] => True | k :: _ => starts_with k p = false end -> gives (k cur') g' res) ->
  gives (let! cur := skip_prefix fuel n p cur in k cur) g res.
Proof.
  induction n as [|n IH]; intros g cur bef aft Hc Hn Hk w Hw; destruct (walking_at _ _ _ _ _ Hc Hw) as [_ Hv];
    (destruct aft as [|k0 aft]; [unfold bind; cbn [skip_prefix]; rewrite Hv; apply (Hk g cur [] []); try done; [constructor|by rewrite app_nil_r]|]);
    cbn [length] in Hn; [lia|].
  destruct Hv as [Hv Hkey]. unfold bind. cbn [skip_prefix]. rewrite Hv, Hkey. cbn [andb]. destruct (starts_with k0 p) eqn:Es.
  - pose proof Hc as (Hr & Hf & Hm). destruct (grove_next w g r c cur bef k0 aft fuel Hw Hr Hm Hf) as (cur' & w1 & E & Hw1).
    unfold bind. rewrite E. pose proof (walking_new _ _ _ _ cur' (bef ++ [k0]) aft Hc) as Hc'.
    apply (gives_extended (bind (skip_prefix fuel n p cur') k) _ _ res (one_more _ _) w1 Hw1).
    apply (IH _ _ _ _ Hc'); [lia|]. intros g' cur2 l1 l2 He -> Hc2 Hl1 Hl2.
    apply (Hk g' cur2 (k0 :: l1) l2); [eapply extends_trans; [apply one_more|done]|done| |by constructor|done]. by rewrite <- app_assoc in Hc2.
  - apply (Hk g cur [] (k0 :: aft)); try done; [constructor|by rewrite app_nil_r].
Qed.

(** A walk forwards and a walk backwards. *)
Section callback.
Context {B : Type} (row_of_key : Bytes -> M W Row) (fn : Row -> B -> bool * B).
Definition fetch (key : Bytes) (b : B) : M W (bool * B) := let! row := row_of_key key in ret (fn row b).
Definition fetches (g : Grove) (L : list (Bytes * Row)) : Prop := forall g' e, extends g g' -> e ∈ L -> gives (row_of_key (fst e)) g' (Ret (snd e)).

Lemma gives_forward upper n : forall g cur bef L b, walking g cur bef (map fst L) -> (length L <= n)%nat -> fetches g L ->
  gives (scan_forward fuel fetch n upper cur b) g (Ret (fold_until fn (map snd (take_while (fun e => negb (past_upper upper (fst e))) L)) b)).
Proof.
  induction n as [|n IH]; intros g cur bef L b Hc Hn Hfetch w Hw; destruct (walking_at _ _ _ _ _ Hc Hw) as [_ Hv];
    (destruct L as [|e L]; cbn [map length] in *; [cbn [scan_forward]; rewrite Hv; by exists w|]); [lia|].
  destruct Hv as [Hv Hkey]. cbn [scan_forward take_while]. rewrite Hv, Hkey. cbn [negb]. destruct (past_upper upper (fst e)); cbn [negb]; [by exists w|].
  destruct (Hfetch g e (extends_refl g) ltac:(left) w Hw) as (w1 & E1 & Hw1). unfold bind at 1, fetch at 1. unfold bind at 1. rewrite E1. cbn [ret map fold_until].
  destruct (fn (snd e) b) as [[] b'] eqn:Ef; cbn [negb]; [|by exists w1].
  pose proof Hc as (Hr & Hf & Hm). destruct (grove_next w1 g r c cur bef (fst e) (map fst L) fuel Hw1 Hr Hm Hf) as (cur' & w2 & E2 & Hw2).
  unfold bind. rewrite E2. apply (gives_extended _ _ _ _ (one_more _ _) w2 Hw2). eapply IH; [by eapply walking_new|lia|].
  intros g' x He Hx. apply Hfetch; [|by right]. eapply extends_trans; [apply one_more|done].
Qed.

Lemma gives_backward lower n : forall g cur L e aft b, walking g cur (map fst L) (fst e :: aft) -> (length L < n)%nat -> fetches g (L ++ [e]) ->
  gives (scan_backward fuel fetch n lower cur b) g (Ret (fold_until fn (map snd (take_while (fun e => negb (past_lower lower (fst e))) (rev (L ++ [e])))) b)).
Proof.
  induction n as [|n IH]; intros g cur L e aft b Hc Hn Hfetch w Hw; [lia|]. destruct (walking_at _ _ _ _ _ Hc Hw) as [_ [Hv Hkey]].
  rewrite rev_app_distr. cbn [scan_backward rev app take_while]. rewrite Hv, Hkey. cbn [negb]. destruct (past_lower lower (fst e)); cbn [negb]; [by exists w|].
  destruct (Hfetch g e (extends_refl g) ltac:(apply elem_of_app; right; left) w Hw) as (w1 & E1 & Hw1).
  unfold bind at 1, fetch at 1. unfold bind at 1. rewrite E1. cbn [ret map fold_until]. destruct (fn (snd e) b) as [[] b'] eqn:Ef; cbn [negb]; [|by exists w1].
  pose proof Hc as (Hr & Hf & Hm). destruct (grove_prev w1 g r c cur _ (fst e) aft fuel Hw1 Hr Hm Hf) as (cur' & w2 & E2 & Hprev). rewrite fmap_last in Hprev.
  unfold bind. rewrite E2. destruct L as [|e' L _] using rev_ind.
  - destruct Hprev as [Hinv Hw2]. exists w2. split; [|done]. destruct n; cbn [scan_backward]; by rewrite Hinv.
  - rewrite last_snoc in Hprev. cbn [fmap option_fmap option_map] in Hprev. destruct Hprev as (bef' & Eb & Hw2).
    rewrite map_app in Eb. cbn [map] in Eb. apply app_inj_tail in Eb as [<- _]. rewrite length_app in Hn. cbn in Hn.
    apply (gives_extended _ _ _ _ (one_more _ _) w2 Hw2). eapply IH; [by eapply walking_new|lia|].
    intros g' x He Hx. apply Hfetch; [eapply extends_trans; [apply one_more|done]|]. apply elem_of_app. by left.
Qed.
End callback.

(** ** Where a scan starts *)

Context (b : bool).
Definition start_forward (lower : option Bound) : M W Cursor :=
  match lower with
  | Some bd =>
      let! c := seek (mkBTree r b) fuel (encode_key (b_values bd)) cursor0 in
      if negb (inclusive bd) then skip_prefix fuel fuel (encode_key (b_values bd)) c else ret c
  | None => seek_first (mkBTree r b) fuel cursor0
  end.
Definition start_backward (upper : option Bound) : M W Cursor :=
  match upper with
  | Some bd =>
      let! c := seek (mkBTree r b) fuel (encode_key (b_values bd)) cursor0 in
      let! c := (if inclusive bd then skip_prefix fuel fuel (encode_key (b_values bd)) c else ret c) in
      if valid_ c then prev fuel c else seek_last (mkBTree r b) c
  | None => seek_last (mkBTree r b) cursor0
  end.

Context (g : Grove) (Hr : g_trees g !! r = Some c) (Hh : (g_height g r <= 64)%nat) (Hpages : (g_pages g <= fuel)%nat) (Hsize : (length (keys_of c) <= fuel)%nat).

Lemma gives_seek {A} p (k : Cursor -> M W A) res :
  (forall g' cur bef aft, extends g g' -> walking g' cur bef aft -> keys_of c = bef ++ aft -> Forall (fun x => klt x p) bef -> Forall (kle p) aft -> gives (k cur) g' res) ->
  gives (let! cur := seek (mkBTree r b) fuel p cursor0 in k cur) g res.
Proof.
  intros Hk w Hw. destruct (grove_seek w g r c b p fuel Hw Hr Hh Hpages) as (cur & bef & aft & w1 & E & Hw1 & Hb & Ha).
  unfold bind. rewrite E. apply (gives_extended _ _ _ _ (one_more _ _) w1 Hw1).
  assert (Hwk : walking (marked g (mkMark r cur bef aft)) cur bef aft) by (split_and!; [done|done|left]).
  apply (Hk _ cur bef aft); [apply one_more|done|by apply (walking_at _ _ _ _ _ Hwk Hw1)|done|done].
Qed.

(** Seeking and then skipping the keys with the prefix: what is left starts
    past them. *)
Lemma gives_seek_past {A} p (k : Cursor -> M W A) res :
  (forall g' cur bef aft, extends g g' -> walking g' cur bef aft -> keys_of c = bef ++ aft ->
     Forall (fun x => klt x p \/ starts_with x p = true) bef -> Forall (fun x => klt p x /\ starts_with x p = false) aft -> gives (k cur) g' res) ->
  gives (let! cur := seek (mkBTree r b) fuel p cursor0 in let! cur := skip_prefix fuel fuel p cur in k cur) g res.
Proof.
  intros Hk. apply gives_seek. intros g1 cur bef aft He Hwk Ekeys Hb Ha. eapply gives_skip; [exact Hwk| |].
  { rewrite Ekeys, length_app in Hsize. lia. }
  intros g2 cur2 l1 l2 He2 -> Hwk2 Hl1 Hl2. apply (Hk g2 cur2 (bef ++ l1) l2); [by eapply extends_trans|done|by rewrite <- app_assoc| |].
  - apply Forall_app. split; (eapply Forall_impl; [eassumption|]); auto.
  - apply Forall_app in Ha as [_ Ha]. destruct l2 as [|k0 l2]; [constructor|]. pose proof (keys_of_sorted c) as Hs. rewrite Ekeys in Hs.
    apply StronglySorted_app_1_r, StronglySorted_app_1_r in Hs. apply StronglySorted_inv in Hs as [_ Hs]. apply Forall_cons in Ha as [Ha0 Ha].
    assert (Hno : forall x, kle k0 x -> klt p x /\ starts_with x p = false).
    { intros x Hx. assert (Hsx : starts_with x p = false).
      { apply not_true_iff_false. intros Hsx. apply not_true_iff_false in Hl2. apply Hl2. by eapply starts_between. }
      split; [|done]. assert (Hle : kle p x) by (by transitivity k0). apply kle_cases in Hle as [<-|?]; [|done].
      apply not_true_iff_false in Hsx. destruct Hsx. apply starts_with_iff. exists []. by rewrite app_nil_r. }
    constructor; [apply Hno, kle_refl|]. eapply Forall_impl; [exact Hs|]. intros x. apply Hno.
Qed.

Lemma gives_start_forward {A} lower (k : Cursor -> M W A) res :
  (forall g' cur bef aft, extends g g' -> walking g' cur bef aft -> keys_of c = bef ++ aft ->
     Forall (fun x => past_lower lower x = true) bef -> Forall (fun x => past_lower lower x = false) aft -> gives (k cur) g' res) ->
  gives (let! cur := start_forward lower in k cur) g res.
Proof.
  intros Hk. unfold start_forward. destruct lower as [bd|]; cbn [past_lower] in Hk.
  - set (p := encode_key (b_values bd)) in *. eapply gives_ext; [intros w; apply bind_bind|]. destruct (inclusive bd); cbn [negb].
    + apply gives_seek. intros g' cur bef aft He Hwk Ek Hb Ha w. apply (Hk g' cur bef aft); try done.
      * eapply Forall_impl; [exact Hb|]. intros x. by rewrite key_less_klt.
      * eapply Forall_impl; [exact Ha|]. intros x. by rewrite key_less_kle.
    + apply gives_seek_past. intros g' cur bef aft He Hwk Ek Hb Ha. apply (Hk g' cur bef aft); try done.
      * eapply Forall_impl; [exact Hb|]. intros x. by rewrite orb_true_iff, key_less_klt.
      * eapply Forall_impl; [exact Ha|]. intros x [Hx ->]. rewrite orb_false_r. apply key_less_kle. by apply klt_kle.
  - intros w Hw. destruct (grove_first w g r c b fuel Hw Hr Hh Hpages) as (cur & w1 & E & Hw1). unfold bind. rewrite E.
    apply (gives_extended _ _ _ _ (one_more _ _) w1 Hw1). apply (Hk _ cur [] (keys_of c)); [apply one_more|split_and!; [done|done|left]|done|constructor|].
    by apply Forall_true.
Qed.

(** Standing on the last of [bef], or nowhere when there is none. *)
Definition at_last (g' : Grove) (cur : Cursor) (bef aft : list Bytes) : Prop :=
  match last bef with
  | Some k => exists bef', bef = bef' ++ [k] /\ walking g' cur bef' (k :: aft)
  | None => valid_ cur = false
  end.
Lemma gives_last {A} cur0 (k : Cursor -> M W A) res g0 : extends g g0 ->
  (forall g' cur, extends g0 g' -> at_last g' cur (keys_of c) [] -> gives (k cur) g' res) ->
  gives (let! cur := seek_last (mkBTree r b) cur0 in k cur) g0 res.
Proof.
  intros He Hk w Hw. destruct (extends_facts _ _ He) as (Et & Eh & Ep & _).
  destruct (grove_last w g0 r c b cur0 Hw ltac:(by rewrite Et) ltac:(by rewrite Eh)) as (cur & w1 & E & Hl). unfold bind. rewrite E. unfold at_last in Hk.
  destruct (last (keys_of c)) as [k0|].
  - destruct Hl as (bef & Ek & Hw1). apply (gives_extended _ _ _ _ (one_more _ _) w1 Hw1). apply Hk; [apply one_more|]. exists bef. split; [done|].
    split_and!; [cbn; by rewrite Et|cbn; by rewrite Ep|left].
  - destruct Hl as [Hv Hw1]. by apply Hk; [constructor| |].
Qed.
Lemma gives_prev {A} g0 cur0 bef k0 aft (k : Cursor -> M W A) res : walking g0 cur0 bef (k0 :: aft) ->
  (forall g' cur, extends g0 g' -> at_last g' cur bef (k0 :: aft) -> gives (k cur) g' res) ->
  gives (let! cur := prev fuel cur0 in k cur) g0 res.
Proof.
  intros Hwk Hk w Hw. pose proof Hwk as (Hr0 & Hf & Hm). destruct (grove_prev w g0 r c cur0 bef k0 aft fuel Hw Hr0 Hm Hf) as (cur & w1 & E & Hp).
  unfold bind. rewrite E. unfold at_last in Hk. destruct (last bef) as [k'|].
  - destruct Hp as (bef' & Ek & Hw1). apply (gives_extended _ _ _ _ (one_more _ _) w1 Hw1). apply Hk; [apply one_more|]. exists bef'. split; [done|].
    by eapply walking_new.
  - destruct Hp as [Hv Hw1]. by apply Hk; [constructor| |].
Qed.

Lemma gives_start_backward {A} upper (k : Cursor -> M W A) res :
  (forall g' cur bef aft, extends g g' -> at_last g' cur bef aft -> keys_of c = bef ++ aft ->
     Forall (fun x => past_upper upper x = false) bef -> Forall (fun x => past_upper upper x = true) aft -> gives (k cur) g' res) ->
  gives (let! cur := start_backward upper in k cur) g res.
Proof.
  intros Hk. unfold start_backward. destruct upper as [bd|]; cbn [past_upper] in Hk.
  2: { apply gives_last; [constructor|]. intros g' cur He Hl. apply (Hk g' cur (keys_of c) []); [done|done|by rewrite app_nil_r|by apply Forall_true|constructor]. }
  set (p := encode_key (b_values bd)) in *.
  assert (Hend : forall g0 cur0 bef aft, extends g g0 -> walking g0 cur0 bef aft -> keys_of c = bef ++ aft ->
     (forall g' cur, extends g g' -> at_last g' cur bef aft -> gives (k cur) g' res) ->
     gives (let! cur := (if valid_ cur0 then prev fuel cur0 else seek_last (mkBTree r b) cur0) in k cur) g0 res).
  { intros g0 cur0 bef aft He Hwk Ek Hk0 w Hw. destruct (walking_at _ _ _ _ _ Hwk Hw) as [_ Hv]. destruct aft as [|k0 aft].
    - rewrite Hv. rewrite app_nil_r in Ek. revert Hw. apply gives_last; [done|]. intros g' cur He' Hl. apply Hk0; [by eapply extends_trans|]. by rewrite <- Ek.
    - destruct Hv as [Hv _]. rewrite Hv. revert Hw. eapply gives_prev; [exact Hwk|]. intros g' cur He' Hl. apply Hk0; [by eapply extends_trans|done]. }
  eapply gives_ext; [intros w; apply bind_bind|]. destruct (inclusive bd).
  - eapply (gives_ext (let! cur := seek (mkBTree r b) fuel p cursor0 in let! cur := skip_prefix fuel fuel p cur in
                       let! cur := (if valid_ cur then prev fuel cur else seek_last (mkBTree r b) cur) in k cur)).
    { intros w. apply bind_ext. intros cur w'. apply bind_bind. }
    apply gives_seek_past. intros g0 cur0 bef aft He Hwk Ek Hb Ha. apply (Hend g0 cur0 bef aft He Hwk Ek). intros g' cur He' Hl. apply (Hk g' cur bef aft); try done.
    + eapply Forall_impl; [exact Hb|]. intros x [Hx|Hx]; [|by rewrite Hx, andb_false_r]. apply andb_false_iff. left. apply key_less_kle. by apply klt_kle.
    + eapply Forall_impl; [exact Ha|]. intros x [Hx ->]. rewrite andb_true_r. by apply key_less_klt.
  - eapply (gives_ext (let! cur := seek (mkBTree r b) fuel p cursor0 in
                       let! cur := (if valid_ cur then prev fuel cur else seek_last (mkBTree r b) cur) in k cur)).
    { intros w. by apply bind_ext. }
    apply gives_seek. intros g0 cur0 bef aft He Hwk Ek Hb Ha. apply (Hend g0 cur0 bef aft He Hwk Ek). intros g' cur He' Hl. apply (Hk g' cur bef aft); try done.
    + eapply Forall_impl; [exact Hb|]. intros x Hx. apply negb_false_iff. by apply key_less_klt.
    + eapply Forall_impl; [exact Ha|]. intros x Hx. apply negb_true_iff. by apply key_less_kle.
Qed.
End walk.

(** * The entries of a table *)

Lemma klt_sorted_nodup l : StronglySorted kle l -> NoDup l -> StronglySorted klt l.
Proof.
  induction 1 as [|x l _ IH Hx]; intros Hnd; [constructor|]. apply NoDup_cons in Hnd as [Hn Hnd]. constructor; [by apply IH|].
  apply Forall_forall. intros y Hy. rewrite Forall_forall in Hx. destruct (proj1 (kle_cases x y) (Hx y Hy)) as [->|?]; done.
Qed.
Lemma scan_entries_elem (t : TableDef) (idx : option IndexDef) (rows : gmap Bytes Row) e : e ∈ scan_entries t idx rows <-> exists k, rows !! k = Some (snd e) /\ fst e = entry_key t idx k (snd e).
Proof.
  unfold scan_entries. rewrite merge_sort_Permutation, list_elem_of_fmap. split.
  - intros ([k r] & -> & Hin). apply elem_of_map_to_list in Hin. by exists k.
  - intros (k & Hk & E). exists (k, snd e). split; [destruct e; cbn in *; by rewrite E|]. by apply elem_of_map_to_list.
Qed.
Lemma scan_entries_sorted t idx rows : esorted (scan_entries t idx rows).
Proof.
  assert (Hs : StronglySorted entry_le (scan_entries t idx rows)) by (apply StronglySorted_merge_sort; apply _).
  induction Hs as [|e l _ IH He]; constructor; [exact IH|]. eapply Forall_impl; [exact He|]. intros x. unfold entry_le. by rewrite key_less_kle.
Qed.
Lemma scan_entries_keys (t : TableDef) (idx : option IndexDef) (rows : gmap Bytes Row) (c : gmap Bytes Bytes) :
  (forall (k1 k2 : Bytes) (r1 r2 : Row), rows !! k1 = Some r1 -> rows !! k2 = Some r2 -> entry_key t idx k1 r1 = entry_key t idx k2 r2 -> k1 = k2) ->
  (forall key, is_Some (c !! key) <-> exists k r, rows !! k = Some r /\ key = entry_key t idx k r) ->
  map fst (scan_entries t idx rows) = keys_of c.
Proof.
  intros Hinj Hdom. apply keys_of_unique.
  - apply klt_sorted_nodup.
    + pose proof (scan_entries_sorted t idx rows) as Hs. induction Hs as [|e l _ IH He]; [constructor|]. cbn [map]. constructor; [exact IH|].
      by apply Forall_map.
    + unfold scan_entries. rewrite (Permutation_map fst (merge_sort_Permutation _ _)), map_map. cbn [fst].
      apply NoDup_fmap_2_strong; [|apply NoDup_map_to_list]. intros [k1 r1] [k2 r2] H1 H2 E. apply elem_of_map_to_list in H1, H2. cbn in E.
      assert (k1 = k2) as -> by (by eapply Hinj). by simplify_eq.
  - intros key. rewrite Hdom, list_elem_of_fmap. split.
    + intros (e & -> & He). apply scan_entries_elem in He as (k & Hk & E). by exists k, (snd e).
    + intros (k & r & Hk & ->). exists (entry_key t idx k r, r). split; [done|]. apply scan_entries_elem. by exists k.
Qed.

Section tables.
Context (fuel : nat) (cat : Catalog) (d : Data) (g : Grove) (Hcat : catalog_ok cat).
Context (Hrep : store_rep cat g d) (Hh : heights cat g 64) (Hpages : (g_pages g <= fuel)%nat) (Hfuel : (g_pages g * page_size <= fuel)%nat).
Context (name : string) (t : TableDef) (Hin : (name, t) ∈ tables cat).
#[local] Abbreviation rows := (rows_of d name).

Definition scan_root (idx : option IndexDef) : PageNo := match idx with Some idx => ix_root idx | None => td_root t end.
Definition known (idx : option IndexDef) : Prop := match idx with Some idx => idx ∈ td_indexes t | None => True end.

Lemma row_key k r : rows !! k = Some r -> bytes_ok k /\ good_row t r.
Proof. intros Hk. destruct (rep_ok _ _ _ (Hrep _ _ Hin) _ _ Hk) as [-> Hg]. split; [apply pk_key_bytes, Hg|done]. Qed.

(** The tree of the scan has the keys of the entries. *)
Lemma scan_tree idx : known idx -> exists c, g_trees g !! scan_root idx = Some c /\ (g_height g (scan_root idx) <= 64)%nat
  /\ map fst (scan_entries t idx rows) = keys_of c.
Proof.
  intros Hidx. destruct (Hrep _ _ Hin) as [Hr Hok Hix]. destruct idx as [idx|]; cbn [scan_root known] in *.
  - rewrite Forall_forall in Hix. destruct (Hix idx Hidx) as (c & Hc & Hof). exists c. split_and!; [done|eapply root_height; [done|done|by apply ix_root_in]|].
    pose proof (nr_indexes _ (table_resolves cat Hcat _ _ Hin)) as Hni. rewrite Forall_forall in Hni.
    apply scan_entries_keys; cbn [entry_key].
    + intros k1 k2 r1 r2 H1 H2 E. destruct (row_key _ _ H1), (row_key _ _ H2). apply index_key_inj in E as [_ ?]; try done. by apply (Hni idx).
    + intros key. split; [intros [v Hv]; by apply Hof in Hv as [_ ?]|]. intros Hk. exists []. by apply Hof.
  - eexists. split_and!; [exact Hr|eapply root_height; [done|done|apply pk_root]|]. apply scan_entries_keys; cbn [entry_key]; [done|].
    intros key. rewrite lookup_fmap. split.
    + intros [v Hv]. destruct (rows !! key) as [r|] eqn:E; [|done]. by exists key, r.
    + intros (k & r & Hk & ->). rewrite Hk. by eexists.
Qed.

Lemma scan_row_gives b idx g' e : known idx -> extends g g' -> e ∈ scan_entries t idx rows -> gives (scan_row b t idx (fst e)) g' (Ret (snd e)).
Proof.
  intros Hidx He Hel. apply scan_entries_elem in Hel as (k & Hk & Ek). destruct (extends_facts _ _ He) as (Et & Eh & _ & _).
  assert (Hrep' : store_rep cat g' d) by (intros n u Hu; rewrite Et; by apply Hrep).
  assert (Hh' : heights cat g' 64) by (unfold heights; rewrite Eh; exact Hh).
  destruct (row_key _ _ Hk) as [Hkb Hgr]. pose proof (gives_get ls cat d g' Hrep' Hh' b name t k Hin) as Hget. rewrite Hk in Hget.
  cbn [fmap option_fmap option_map] in Hget. unfold scan_row. eapply gives_ret; [|rewrite decode_encode_row by apply Hgr; apply gives_lift]. rewrite Ek.
  destruct idx as [idx|]; cbn [entry_key known] in *.
  - pose proof (nr_indexes _ (table_resolves cat Hcat _ _ Hin)) as Hni. rewrite Forall_forall in Hni.
    assert (Hty : typed (project t (snd e) (ix_columns idx)) (types_of t (ix_columns idx))) by (apply project_typed; [done|by apply (Hni idx)]).
    unfold index_key_of. rewrite encode_key_bytes by (by eapply typed_ok). rewrite (decode_key_bytes _ _ [] k Hty Hkb).
    eapply gives_ret; [apply gives_lift|]. cbn beta iota. eapply gives_ret; [exact Hget|apply gives_lift].
  - eapply gives_ret; [exact Hget|]. apply gives_lift.
Qed.

Lemma map_fst_split (E : list (Bytes * Row)) bef aft : map fst E = bef ++ aft -> exists E1 E2, E = E1 ++ E2 /\ map fst E1 = bef /\ map fst E2 = aft.
Proof. intros Em. apply map_eq_app in Em as (E1 & E2 & -> & <- & <-). by exists E1, E2. Qed.

(** A scan on pages is a scan on rows. *)
Lemma scan_raw_gives {B} b idx lower upper (reverse : bool) (fn : Row -> B -> bool * B) acc : known idx ->
  gives (scan_raw fuel b (fun key a => let! row := scan_row b t idx key in ret (fn row a)) t idx lower upper reverse acc) g
    (let? _ := check_bound t (key_columns t idx) lower in let? _ := check_bound t (key_columns t idx) upper in
     Ret (fold_until fn (if reverse then rev (visited t idx lower upper rows) else visited t idx lower upper rows) acc)).
Proof.
  intros Hidx. destruct (scan_tree idx Hidx) as (c & Hc & Hheight & Ekeys). unfold scan_raw.
  apply gives_bind; [apply gives_lift|]. intros _ _. apply gives_bind; [apply gives_lift|]. intros _ _.
  set (E := scan_entries t idx rows) in *. pose proof (scan_entries_sorted t idx rows) as Hs. fold E in Hs.
  assert (Hfetch : forall g', extends g g' -> forall L, (forall e, e ∈ L -> e ∈ E) -> fetches (scan_row b t idx) g' L).
  { intros g' He L HL g2 e He2 Hel. apply scan_row_gives; [done|by eapply extends_trans|by apply HL]. }
  assert (Hlen : forall w, grove_at w g -> (length (keys_of c) <= fuel)%nat) by (intros w Hw; pose proof (grove_size w g _ _ Hw Hc); lia).
  intros w Hw. specialize (Hlen w Hw). revert w Hw. destruct reverse; cbn [negb].
  - change (gives (let! cur := start_backward fuel (scan_root idx) b upper in
              scan_backward fuel (fetch (scan_row b t idx) fn) fuel lower cur acc) g (Ret (fold_until fn (rev (visited t idx lower upper rows)) acc))).
    apply (gives_start_backward fuel _ c b g Hc Hheight Hpages Hlen). intros g' cur bef aft He Hl Ek Hb Ha. rewrite <- Ekeys in Ek.
    apply map_fst_split in Ek as (E1 & E2 & EE & <- & <-). unfold visited. fold E. rewrite EE in Hs |- *.
    rewrite <- map_rev, <- (visited_backward lower upper E1 E2 Hs); [|by apply Forall_map in Hb|by apply Forall_map in Ha].
    unfold at_last in Hl. rewrite fmap_last in Hl. destruct E1 as [|e E1 _] using rev_ind.
    + cbn in Hl |- *. intros w Hw. exists w. split; [|done]. destruct fuel; cbn [scan_backward]; by rewrite Hl.
    + rewrite last_snoc in Hl. cbn [fmap option_fmap option_map] in Hl. destruct Hl as (bef' & Eb & Hwk). rewrite map_app in Eb. apply app_inj_tail in Eb as [<- _].
      eapply (gives_backward fuel (scan_root idx) c (scan_row b t idx) fn lower fuel); [exact Hwk| |].
      * rewrite <- Ekeys, EE, length_map, !length_app in Hlen. cbn in Hlen. lia.
      * apply Hfetch; [done|]. intros x Hx. rewrite EE. apply elem_of_app. by left.
  - change (gives (let! cur := start_forward fuel (scan_root idx) b lower in
              scan_forward fuel (fetch (scan_row b t idx) fn) fuel upper cur acc) g (Ret (fold_until fn (visited t idx lower upper rows) acc))).
    apply (gives_start_forward fuel _ c b g Hc Hheight Hpages Hlen). intros g' cur bef aft He Hwk Ek Hb Ha. rewrite <- Ekeys in Ek.
    apply map_fst_split in Ek as (E1 & E2 & EE & <- & <-). unfold visited. fold E. rewrite EE in Hs |- *.
    rewrite <- (visited_forward lower upper E1 E2 Hs); [|by apply Forall_map in Hb|by apply Forall_map in Ha].
    eapply (gives_forward fuel (scan_root idx) c (scan_row b t idx) fn upper fuel); [exact Hwk| |].
    + rewrite <- Ekeys, EE, length_map, length_app in Hlen. lia.
    + apply Hfetch; [done|]. intros x Hx. rewrite EE. apply elem_of_app. by right.
Qed.
End tables.
End scan.
