(* ===== verification/ProgramRefine.v ===== *)
(** Programs on pages compute what they compute on tables.

    [StoreScan] and [StoreReads] verify what a program reads and [StoreRefine]
    what it changes, one operation at a time.  Here they are composed: over
    any page store whose trees hold the rows of a catalog, [exec] returns what
    [run] returns and leaves trees that hold the rows [run] ends with.  So the
    theorems about [run], Punchline's among them, are theorems about pages. *)

From stdpp Require Import base numbers list gmap strings sorting.
From S2P Require Import Prelude Bytes PageFormat Types Record StoreSchema BTreeNode BTreeNodeFacts BTree BTreeTree BTreeRead BTreePut BTreeSpec BTreeFindings.
From S2P Require Import Store Grove StoreRep StoreSpec StoreReads StoreRefine StoreIntegrity StoreExamples Program StoreScan.
From stdpp Require Import list.
Open Scope Z_scope.

Section refine.
Context {W : Type} `{PageStore W} (ls : Lengths) `{!Groves W ls}.
Context (fuel : nat) (cat : Catalog) (Hcat : catalog_ok cat).

(** Cursors may visit every page, and scans every entry of every page. *)
Definition enough (g : Grove) : Prop := (g_pages g <= fuel)%nat /\ (g_pages g * page_size <= fuel)%nat.

Lemma get_gives d g name pk : store_rep cat g d -> heights cat g 64 -> gives ls (Store.get true cat name pk) g (spec_get cat d name pk).
Proof.
  intros Hrep Hh. unfold Store.get, spec_get. destruct (StoreSchema.table cat name) as [t|] eqn:Et; [|apply gives_lift]. apply table_in in Et.
  destruct (negb _); [apply gives_lift|]. apply gives_bind; [apply gives_lift|]. intros _ _. by apply (gives_get_by_key ls cat d g Hrep Hh).
Qed.

Lemma index_known (t : TableDef) name idx : StoreSchema.index t name = Some idx -> idx ∈ td_indexes t.
Proof. unfold StoreSchema.index. intros Hf. apply List.find_some in Hf as [Hin _]. by apply list_elem_of_In. Qed.
Lemma scan_gives {B} d g name iname lower upper reverse (fn : Row -> B -> bool * B) b : store_rep cat g d -> heights cat g 64 -> enough g ->
  gives ls (Store.scan fuel true cat name iname lower upper reverse fn b) g (spec_scan cat d name iname lower upper reverse fn b).
Proof.
  intros Hrep Hh [Hp Hf]. unfold Store.scan, spec_scan. destruct (StoreSchema.table cat name) as [t|] eqn:Et; [|apply gives_lift]. apply table_in in Et.
  apply gives_bind; [apply gives_lift|]. intros idx Hidx. apply (scan_raw_gives ls fuel cat d g Hcat Hrep Hh Hp Hf name t Et).
  destruct (String.eqb iname ""); [by injection Hidx as <-|]. destruct (StoreSchema.index t iname) as [i|] eqn:Ei; [|done]. injection Hidx as <-.
  by eapply index_known.
Qed.

(** What the operations of a program need on the way: no tree deeper than the
    code descends, rows of the lengths their trees take, and room for them.
    [h] bounds the heights of the trees, [room] is the number of pages that
    can still be allocated. *)
Fixpoint ready {A} (p : Prog A) (d : Data) (h room : nat) : Prop :=
  match p with
  | PRet _ => True
  | PCatalog k => ready (k cat) d h room
  | PGet name pk k => (h <= 64)%nat /\ ready (k (spec_get cat d name pk)) d h room
  | PScan name i lo hi rv fn b k => (h <= 64)%nat /\ ready (k (spec_scan cat d name i lo hi rv fn b)) d h room
  | PWrite op k =>
      (h <= 64)%nat /\ op_ready ls cat h room op
      /\ ready (k (fst (spec_row_op max_key_bytes cat d op))) (snd (spec_row_op max_key_bytes cat d op)) (h + 1) (room - op_cost cat h op)
  end.
Lemma heights_le g h h' : heights cat g h -> (h <= h')%nat -> heights cat g h'.
Proof. intros Hh Hle. eapply Forall_impl; [exact Hh|]. cbn. intros. lia. Qed.
Lemma op_ready_room h room room' op : (room <= room')%nat -> op_ready ls cat h room op -> op_ready ls cat h room' op.
Proof.
  intros Hle. destruct op as [name row|name row|name key]; cbn; [| |done]; intros Hop t Ht; destruct (Hop t Ht) as [Hs Hr]; (split; [done|]); [lia|].
  split; [lia|apply Hr].
Qed.

Lemma exec_runs {A} (p : Prog A) : forall d g h room wr w,
  store_rep cat g d -> heights cat g h -> enough g -> (room <= g_room g)%nat -> ready p d h room -> finished wr = false -> edited wr = cat -> grove_at w g ->
  exists w' g', exec fuel p (wr, w) = (fst (run max_key_bytes cat p d), (wr, w'))
    /\ grove_at w' g' /\ store_rep cat g' (snd (run max_key_bytes cat p d)) /\ enough g'.
Proof.
  induction p as [r|k IH|name pk k IH|B name i lo hi rv fn b k IH|op k IH]; intros d g h room wr w Hrep Hh Hen Hroom Hready Hact Hed Hw; cbn [exec run ready] in *.
  - exists w, g. by destruct r.
  - unfold bind, getO. cbn [fst]. rewrite Hed. by eapply IH.
  - destruct Hready as [H64 Hready]. unfold bind, getO, attempt. cbn [fst]. rewrite Hed.
    destruct (get_gives d g name pk Hrep (heights_le _ _ _ Hh H64) w Hw) as (w1 & E & Hw1). unfold onw. rewrite E. by eapply IH.
  - destruct Hready as [H64 Hready]. unfold bind, getO, attempt. cbn [fst]. rewrite Hed.
    destruct (scan_gives d g name i lo hi rv fn b Hrep (heights_le _ _ _ Hh H64) Hen w Hw) as (w1 & E & Hw1). unfold onw. rewrite E. by eapply IH.
  - destruct Hready as (H64 & Hop & Hready).
    destruct (row_op_refines ls fuel h cat d g wr w op) as (w1 & g1 & E & Hw1 & Hrep1 & Hh1 & Hroom1 & Hpages1); try done; [apply Hen|by eapply op_ready_room|].
    unfold bind, attempt, exec_row_op in *.
    set (cost := op_cost cat h op) in *. clearbody cost. destruct op; rewrite E; destruct (spec_row_op _ _ _ _) as [r d1]; cbn [fst snd] in *;
      (apply (IH r d1 g1 (h + 1)%nat (room - cost)%nat wr w1); try done; [unfold enough; by rewrite Hpages1|lia]).
Qed.

(** [C6] A program on pages refines the program on tables.  Over any page store
    whose trees hold the rows [d] of a catalog, a program of lookups, scans in
    both directions and row changes returns on pages what it returns on plain
    tables, errors included, and leaves trees that hold the rows it leaves
    there, when the operations on the way have the room they need. *)
Theorem exec_refines_run {A} (p : Prog A) d g h wr w :
  store_rep cat g d -> heights cat g h -> enough g -> ready p d h (g_room g) -> finished wr = false -> edited wr = cat -> grove_at w g ->
  exists w' g', exec fuel p (wr, w) = (fst (run max_key_bytes cat p d), (wr, w'))
    /\ grove_at w' g' /\ store_rep cat g' (snd (run max_key_bytes cat p d)).
Proof.
  intros Hrep Hh Hen Hready Hact Hed Hw. destruct (exec_runs p d g h (g_room g) wr w) as (w' & g' & E & Hw' & Hrep' & _); try done. by exists w', g'.
Qed.
End refine.

(** ** An example *)

Open Scope prog_scope.
(** Two parts are stored and then read backwards through an index. *)
Definition second_part : Row := [Integer 2; Integer 5; Integer 7].
Definition part_program : Prog (list Row) :=
  do* pwrite (RInsert "parts" first_part) in
  do* pwrite (RInsert "parts" second_part) in
  pscan "parts" "by_code" (Some (mkBound [Integer 5] true)) None true (fun r out => (true, out ++ [r])) [].
Lemma part_program_runs : fst (run (max_key_bytes (W := Mem)) parts_catalog part_program ∅) = Ret [first_part; second_part].
Proof. vm_compute. reflexivity. Qed.
Lemma second_part_storable : storable_row (W := Mem) part_lengths parts second_part.
Proof.
  constructor.
  - decide_now.
  - split; [intros _; split; [decide_now|cbn; lia]|]. do 2 (apply Forall_cons_2; [intros _; split; [decide_now|cbn; lia]|]). apply Forall_nil_2.
  - reflexivity.
Qed.
Definition part_fuel : nat := 103 * 512.
Lemma second_part_inserted : fst (spec_row_op (max_key_bytes (W := Mem)) parts_catalog {["parts" := {[pk_key_of parts first_part := first_part]}]} (RInsert "parts" second_part)) = Ret tt.
Proof. vm_compute. reflexivity. Qed.
Lemma part_program_ready : ready (W := Mem) part_lengths parts_catalog part_program ∅ 1 100.
Proof.
  unfold part_program, pwrite. cbn [pbind ready]. rewrite first_part_inserted. cbn [fst snd pbind ready pret]. rewrite second_part_inserted.
  cbn [pbind pret ready pscan]. split_and!; [lia| |lia| |lia|done].
  - intros t [= ->]%list_elem_of_singleton. split; [exact first_part_storable|vm_compute; lia].
  - intros t [= ->]%list_elem_of_singleton. split; [exact second_part_storable|vm_compute; lia].
Qed.
Lemma exec_refines_run_witness : exists w' g',
  exec part_fuel part_program (mkWriter parts_catalog false false, parts_mem) = (Ret [first_part; second_part], (mkWriter parts_catalog false false, w'))
  /\ grove_at (ls := part_lengths) w' g' /\ store_rep parts_catalog g' (snd (run (max_key_bytes (W := Mem)) parts_catalog part_program ∅)).
Proof.
  rewrite <- part_program_runs.
  apply (exec_refines_run part_lengths part_fuel parts_catalog parts_catalog_ok part_program ∅ parts_grove 1 (mkWriter parts_catalog false false) parts_mem).
  - exact parts_rep.
  - decide_now.
  - split; apply Nat.leb_le; vm_compute; reflexivity.
  - exact part_program_ready.
  - reflexivity.
  - reflexivity.
  - exact parts_grove_at.
Defined.
