(* ===== verification/StoreDump.v ===== *)
(** Dumping and restoring a store (Store::dump and Store::restore of
    engine/src/engine/store.cpp).

    A dump is the definitions with their roots zeroed and the rows of each
    table in key order.  A restore creates the tables parents first: the order
    it finds is the subject of [restore_order_spec]. *)

From stdpp Require Import base numbers list gmap strings.
From Stdlib Require Import Sorted.
From S2P Require Import Prelude Bytes PageFormat Types Record StoreSchema BTreeNode BTree BTreeRead BTreeFindings Store Grove StoreRep StoreSpec StoreReads StoreExamples Program StoreScan ProgramRefine.
From stdpp Require Import list.
Open Scope Z_scope.

Record TableDump := mkTableDump { dump_def : TableDef; dump_rows : list Row }.
#[export] Instance IndexDef_eq : EqDecision IndexDef. Proof. solve_decision. Defined.
#[export] Instance ForeignKeyDef_eq : EqDecision ForeignKeyDef. Proof. solve_decision. Defined.
#[export] Instance CheckDef_eq : EqDecision CheckDef. Proof. solve_decision. Defined.
#[export] Instance TableDef_eq : EqDecision TableDef. Proof. solve_decision. Defined.
#[export] Instance TableDump_eq : EqDecision TableDump. Proof. solve_decision. Defined.
Record Dump := mkDump { dump_version : Z; dump_tables : list TableDump }.

(** * Dump *)

Section dump.
Context {W : Type} `{PageStore W}.
Variable fuel : nat.

Definition zero_roots (t : TableDef) : TableDef := with_indexes (with_root t 0) (map (fun idx => index_at idx 0) (td_indexes t)).
Fixpoint dump_each (cat : Catalog) (l : list (string * TableDef)) : M W (list TableDump) :=
  match l with
  | [] => ret []
  | (name, t) :: l =>
      let! rows := scan_all fuel false cat name "" None None false in
      let! rest := dump_each cat l in
      ret (mkTableDump (zero_roots t) rows :: rest)
  end.
Definition dump (cat : Catalog) : M W Dump :=
  let! tds := dump_each cat (tables cat) in
  ret (mkDump (schema_version cat) tds).
End dump.

(** * The order of a restore *)

Definition table_ready (created : list string) (td : TableDump) : bool :=
  forallb (fun fk => String.eqb (fk_ref_table fk) (td_name (dump_def td)) || bool_decide (fk_ref_table fk ∈ created)) (td_foreign_keys (dump_def td)).
(** One pass over the pending tables: what it makes of the created names, the
    tables it takes and the ones it leaves. *)
Fixpoint restore_pass (created : list string) (pending : list TableDump) : list string * list TableDump * list TableDump :=
  match pending with
  | [] => (created, [], [])
  | td :: pending =>
      if table_ready created td then
        let '(created, taken, later) := restore_pass (td_name (dump_def td) :: created) pending in (created, td :: taken, later)
      else
        let '(created, taken, later) := restore_pass created pending in (created, taken, td :: later)
  end.
Fixpoint restore_order (fuel : nat) (created : list string) (pending order : list TableDump) : Result (list TableDump) :=
  match pending with
  | [] => Ret order
  | _ =>
      match fuel with
      | O => corrupt "restore out of fuel"
      | S fuel =>
          let '(created, taken, later) := restore_pass created pending in
          match taken with
          | [] => invalid_argument "restore: foreign keys form a cycle between tables"
          | _ => restore_order fuel created later (order ++ taken)
          end
      end
  end.
Definition order_of (d : Dump) : Result (list TableDump) := restore_order (length (dump_tables d)) [] (dump_tables d) [].

(** * Restore *)

Section restore.
Context {W : Type} `{PageStore W}.
Variable fuel : nat.

Fixpoint create_each (l : list TableDump) : WrM (W := W) unit :=
  match l with
  | [] => ret tt
  | td :: l => do! create_table (dump_def td) in create_each l
  end.
Fixpoint insert_each (t : TableDef) (rows : list Row) : WrM (W := W) unit :=
  match rows with
  | [] => ret tt
  | row :: rows =>
      let! w := getO in
      do! onw (insert_unchecked fuel true (edited w) t row false) in
      insert_each t rows
  end.
(** The table is looked up anew: it has its roots.  The code reads through the
    pointer, which [create_each] has made valid. *)
Fixpoint fill_each (l : list TableDump) : WrM (W := W) unit :=
  match l with
  | [] => ret tt
  | td :: l =>
      let! w := getO in
      match StoreSchema.table (edited w) (td_name (dump_def td)) with
      | None => lift (corrupt "restore: table vanished")
      | Some t => do! insert_each t (dump_rows td) in fill_each l
      end
  end.
Fixpoint verify_each (l : list TableDump) : WrM (W := W) unit :=
  match l with
  | [] => ret tt
  | td :: l =>
      let! w := getO in
      do! onw (verify_foreign_keys fuel true (edited w) (td_name (dump_def td))) in
      verify_each l
  end.
(** [restore] between the beginning of its transaction and the commit. *)
Definition restore_body (d : Dump) : WrM (W := W) unit :=
  let! w := getO in
  if (0 <? length (tables (edited w)))%nat then lift (invalid_argument "restore needs an empty store")
  else
    let! order := lift (order_of d) in
    do! create_each order in
    do! fill_each order in
    do! verify_each order in
    set_schema_version (dump_version d).
End restore.

(** * The order is parents first, and is found whenever there is one *)

Definition name_of (td : TableDump) : string := td_name (dump_def td).
(** Every table refers to itself or to tables before it. *)
Fixpoint parents_first (created : list string) (l : list TableDump) : Prop :=
  match l with
  | [] => True
  | td :: l =>
      (forall fk, fk ∈ td_foreign_keys (dump_def td) -> fk_ref_table fk = name_of td \/ fk_ref_table fk ∈ created)
      /\ parents_first (name_of td :: created) l
  end.

Lemma table_ready_iff created td : table_ready created td = true <->
  forall fk, fk ∈ td_foreign_keys (dump_def td) -> fk_ref_table fk = name_of td \/ fk_ref_table fk ∈ created.
Proof.
  unfold table_ready. rewrite forallb_forall. split; intros Hr fk Hfk.
  - apply list_elem_of_In in Hfk. specialize (Hr fk Hfk). apply orb_true_iff in Hr as [Hr|Hr]; [left; by apply String.eqb_eq|right; by apply bool_decide_eq_true in Hr].
  - apply list_elem_of_In in Hfk. apply orb_true_iff. destruct (Hr fk Hfk); [left; by apply String.eqb_eq|right; by apply bool_decide_eq_true].
Qed.
Lemma parents_first_weaken created created' l : created ⊆ created' -> parents_first created l -> parents_first created' l.
Proof.
  revert created created'. induction l as [|td l IH]; intros created created' Hs Hl; [done|]. destruct Hl as [Hd Hl]. split.
  - intros fk Hfk. destruct (Hd fk Hfk); [by left|right; set_solver].
  - apply (IH (name_of td :: created)); [set_solver|done].
Qed.
Lemma parents_first_app created a b :
  parents_first created (a ++ b) <-> parents_first created a /\ parents_first (reverse (map name_of a) ++ created) b.
Proof.
  revert created. induction a as [|td a IH]; intros created; [cbn; naive_solver|].
  cbn [app parents_first map]. rewrite IH, reverse_cons, <- app_assoc. cbn [app]. naive_solver.
Qed.

Lemma restore_pass_spec pending : forall created created' taken later,
  restore_pass created pending = (created', taken, later) ->
  taken ++ later ≡ₚ pending /\ created' = reverse (map name_of taken) ++ created /\ parents_first created taken
  /\ Forall (fun td => table_ready created td = false) later.
Proof.
  induction pending as [|td pending IH]; intros created created' taken later Hp; cbn [restore_pass] in Hp.
  { injection Hp as <- <- <-. by split_and!. }
  destruct (table_ready created td) eqn:Er.
  - destruct (restore_pass (td_name (dump_def td) :: created) pending) as [[c t] l] eqn:E. injection Hp as <- <- <-.
    destruct (IH _ _ _ _ E) as (Hperm & -> & Hpf & Hl). split; [by rewrite <- Hperm|]. cbn [map]. rewrite reverse_cons, <- app_assoc.
    split; [done|]. split; [split; [by apply table_ready_iff|exact Hpf]|]. eapply Forall_impl; [exact Hl|].
    intros x Hx. apply not_true_iff_false. intros Hr. apply not_true_iff_false in Hx. apply Hx. apply table_ready_iff.
    rewrite table_ready_iff in Hr. intros fk Hfk. destruct (Hr fk Hfk); [by left|right; set_solver].
  - destruct (restore_pass created pending) as [[c t] l] eqn:E. injection Hp as <- <- <-.
    destruct (IH _ _ _ _ E) as (Hperm & -> & Hpf & Hl). split; [by rewrite <- Permutation_middle, Hperm|].
    split; [done|]. split; [done|]. by constructor.
Qed.

Lemma restore_order_runs fuel : forall created pending order l,
  (length pending <= fuel)%nat -> NoDup (map name_of (order ++ pending)) ->
  created = reverse (map name_of order) -> parents_first [] order ->
  restore_order fuel created pending order = Ret l -> l ≡ₚ order ++ pending /\ parents_first [] l.
Proof.
  induction fuel as [|fuel IH]; intros created pending order l Hf Hnd -> Hpf Hr.
  { destruct pending; [|cbn in Hf; lia]. injection Hr as <-. by rewrite app_nil_r. }
  destruct pending as [|td pending]; [injection Hr as <-; by rewrite app_nil_r|]. cbn [restore_order] in Hr.
  set (pend := td :: pending) in *. destruct (restore_pass (reverse (map name_of order)) pend) as [[c t] later] eqn:E.
  destruct (restore_pass_spec _ _ _ _ _ E) as (Hperm & -> & Hpt & _). destruct t as [|x t]; [done|].
  assert (Hlen : (length later < length pend)%nat) by (rewrite <- Hperm; cbn; rewrite length_app; lia).
  destruct (IH (reverse (map name_of (x :: t)) ++ reverse (map name_of order)) later (order ++ x :: t) l) as [Hp Hl].
  - lia.
  - rewrite <- app_assoc, Hperm. done.
  - by rewrite map_app, reverse_app.
  - apply parents_first_app. split; [done|]. by rewrite app_nil_r.
  - exact Hr.
  - split; [|done]. by rewrite Hp, <- app_assoc, Hperm.
Qed.

(** When the pass takes nothing, some table that an order puts first among
    the pending ones would have been ready. *)
Lemma stuck_pass created pending l :
  NoDup (map name_of l) -> parents_first [] l -> pending ⊆ l -> pending <> [] ->
  (forall td, td ∈ l -> td ∈ pending \/ name_of td ∈ created) -> Exists (fun td => table_ready created td = true) pending.
Proof.
  intros Hnd Hpf Hsub Hne Hcov.
  assert (Hfirst : forall pre suf, l = pre ++ suf -> (forall td, td ∈ pre -> td ∉ pending) -> (exists td, td ∈ suf /\ td ∈ pending) ->
    Exists (fun td => table_ready created td = true) pending).
  { intros pre suf. revert pre. induction suf as [|td suf IH]; intros pre El Hpre [x [Hx Hxp]]; [by apply elem_of_nil in Hx|].
    destruct (decide (td ∈ pending)) as [Hin|Hnin].
    - apply Exists_exists. exists td. split; [done|]. apply table_ready_iff. rewrite El in Hpf. apply parents_first_app in Hpf as [_ Hsuf].
      destruct Hsuf as [Hd _]. intros fk Hfk. destruct (Hd fk Hfk) as [|Hn]; [by left|right].
      rewrite app_nil_r, elem_of_reverse in Hn. apply list_elem_of_fmap in Hn as (y & -> & Hy).
      destruct (Hcov y) as [Hyp|]; [rewrite El; set_solver|by destruct (Hpre y Hy)|done].
    - apply (IH (pre ++ [td])).
      + by rewrite <- app_assoc.
      + intros y [Hy|Hy]%elem_of_app; [by apply Hpre|]. apply list_elem_of_singleton in Hy as ->. done.
      + exists x. split; [|done]. apply elem_of_cons in Hx as [->|]; done. }
  destruct pending as [|td pending]; [done|]. apply (Hfirst [] l); [done|intros y Hy; by apply elem_of_nil in Hy|].
  exists td. split; [apply Hsub; left|left].
Qed.

(** The order of a restore.  For a dump whose tables have distinct
    names, the loop that orders the tables ends, with every table once and
    after the tables it refers to, itself apart; and it ends in the error
    exactly when the tables have no such order: when foreign keys form a cycle
    or refer to a table the dump does not hold. *)
Lemma restore_order_spec d :
  NoDup (map name_of (dump_tables d)) ->
  match order_of d with
  | Ret l => l ≡ₚ dump_tables d /\ parents_first [] l
  | Err e => code e = InvalidArgument /\ forall l, l ≡ₚ dump_tables d -> ~ parents_first [] l
  end.
Proof.
  intros Hnd. destruct (order_of d) as [l|e] eqn:E.
  { apply (restore_order_runs _ _ _ [] _ (le_n _)) in E; [exact E|done|done|done]. }
  unfold order_of in E.
  cut (forall fuel created pending order, (length pending <= fuel)%nat -> created = reverse (map name_of order) ->
         order ++ pending ≡ₚ dump_tables d -> restore_order fuel created pending order = Err e ->
         code e = InvalidArgument /\ forall l, l ≡ₚ dump_tables d -> ~ parents_first [] l).
  { intros H. by apply (H _ _ _ [] (le_n _)) in E. }
  clear E. induction fuel as [|fuel IH]; intros created pending order Hf -> Hperm E.
  { destruct pending; [done|cbn in Hf; lia]. }
  destruct pending as [|td pending]; [done|]. cbn [restore_order] in E. set (pend := td :: pending) in *.
  destruct (restore_pass (reverse (map name_of order)) pend) as [[c t] later] eqn:Ep.
  destruct (restore_pass_spec _ _ _ _ _ Ep) as (Hpt & -> & _ & Hlater). destruct t as [|x t].
  - injection E as <-. split; [done|]. intros l Hl Hpf. cbn [app] in Hpt.
    assert (Hst : Exists (fun td => table_ready (reverse (map name_of order)) td = true) pend).
    { apply (stuck_pass _ pend l); [by rewrite Hl|done| |done|].
      - intros y Hy. rewrite Hl, <- Hperm. set_solver.
      - intros y Hy. rewrite Hl, <- Hperm in Hy. apply elem_of_app in Hy as [Hy|]; [right|by left].
        apply elem_of_reverse. by apply list_elem_of_fmap_2. }
    apply Exists_exists in Hst as (y & Hy & Hr). rewrite Forall_forall in Hlater. rewrite <- Hpt in Hy.
    by rewrite (Hlater y Hy) in Hr.
  - apply (IH _ later (order ++ x :: t)) in E; [exact E| | |].
    + rewrite <- Hpt in Hf. cbn in Hf. rewrite length_app in Hf. lia.
    + by rewrite map_app, reverse_app.
    + rewrite <- app_assoc, Hpt. done.
Qed.

(** * What the engine's own catalogs give

    [orderly] says that the tables of a catalog can be put parents first.  Every
    change of a catalog keeps it, so the dump of a store always restores. *)

Definition Refs : Type := (string * list ForeignKeyDef)%type.
Definition refs_of (t : TableDef) : Refs := (td_name t, td_foreign_keys t).
Fixpoint refs_first (created : list string) (l : list Refs) : Prop :=
  match l with
  | [] => True
  | (n, fks) :: l => Forall (fun fk => fk_ref_table fk = n \/ fk_ref_table fk ∈ created) fks /\ refs_first (n :: created) l
  end.
Definition sorted_names (l : list (string * TableDef)) : Prop := StronglySorted (fun a b => String.compare a b = Lt) (map fst l).
Record orderly (l : list (string * TableDef)) : Prop := {
  or_sorted : sorted_names l;
  or_names : Forall (fun x => fst x = td_name (snd x)) l;
  or_refs : exists o, o ≡ₚ map (fun x => refs_of (snd x)) l /\ refs_first [] o
}.

Lemma sorted_nodup l : sorted_names l -> NoDup (map fst l).
Proof.
  unfold sorted_names. generalize (map fst l). clear l. induction 1 as [|x l Hs IH Hx]; [constructor|]. constructor; [|done]. intros Hin.
  rewrite Forall_forall in Hx. specialize (Hx x Hin). by rewrite string_compare_refl in Hx.
Qed.
Lemma set_table_names name t l : forall n, n ∈ map fst (set_table name t l) <-> n = name \/ n ∈ map fst l.
Proof.
  induction l as [|[m d] l IH]; intros n; cbn [set_table map fst]; [set_solver|].
  destruct (String.compare name m) eqn:E; cbn [map fst].
  - apply String.compare_eq_iff in E as ->. set_solver.
  - set_solver.
  - rewrite !elem_of_cons, IH. set_solver.
Qed.
Lemma set_table_sorted name t l : sorted_names l -> sorted_names (set_table name t l).
Proof.
  unfold sorted_names. induction l as [|[m d] l IH]; intros Hs; cbn [set_table map fst] in *; [by repeat constructor|].
  pose proof Hs as [Hs' Hm]%StronglySorted_inv. destruct (String.compare name m) eqn:E; cbn [map fst].
  - apply String.compare_eq_iff in E as ->. done.
  - constructor; [done|]. constructor; [done|]. eapply Forall_impl; [exact Hm|]. intros n Hn. by eapply string_compare_trans.
  - constructor; [by apply IH|]. apply Forall_forall. intros n Hn. apply set_table_names in Hn as [->|Hn]; [by apply string_compare_gt|].
    rewrite Forall_forall in Hm. by apply Hm.
Qed.
Lemma set_table_new name t l : name ∉ map fst l -> set_table name t l ≡ₚ (name, t) :: l.
Proof.
  induction l as [|[m d] l IH]; intros Hn; cbn [set_table]; [done|]. cbn [map fst] in Hn. apply not_elem_of_cons in Hn as [Hne Hn].
  destruct (String.compare name m) eqn:E; [by apply String.compare_eq_iff in E|done|]. rewrite (IH Hn). apply perm_swap.
Qed.
Lemma set_table_old name t t0 l : sorted_names l -> (name, t0) ∈ l -> refs_of t = refs_of t0 ->
  map (fun x => refs_of (snd x)) (set_table name t l) = map (fun x => refs_of (snd x)) l.
Proof.
  unfold sorted_names. induction l as [|[m d] l IH]; intros Hs Hin Hr; [by apply elem_of_nil in Hin|]. cbn [map fst] in Hs.
  apply StronglySorted_inv in Hs as [Hs Hm]. cbn [set_table]. apply elem_of_cons in Hin as [[= -> ->]|Hin].
  - rewrite string_compare_refl. cbn [map snd]. by rewrite Hr.
  - rewrite Forall_forall in Hm. assert (Hlt : String.compare m name = Lt) by (apply Hm; by apply (list_elem_of_fmap_2 fst l (name, t0))).
    rewrite String.compare_antisym, Hlt. cbn [CompOpp map snd]. f_equal. by apply IH.
Qed.

Lemma refs_first_weaken created created' l : created ⊆ created' -> refs_first created l -> refs_first created' l.
Proof.
  revert created created'. induction l as [|[n fks] l IH]; intros created created' Hs Hl; [done|]. destruct Hl as [Hd Hl]. split.
  - eapply Forall_impl; [exact Hd|]. cbn. intros fk [?|?]; [by left|right; set_solver].
  - apply (IH (n :: created)); [set_solver|done].
Qed.
Lemma refs_first_app created a b : refs_first created (a ++ b) <-> refs_first created a /\ refs_first (reverse (map fst a) ++ created) b.
Proof.
  revert created. induction a as [|[n fks] a IH]; intros created; [cbn; naive_solver|].
  cbn [app refs_first map fst]. rewrite IH, reverse_cons, <- app_assoc. cbn [app]. naive_solver.
Qed.
(** A name that nothing else refers to can be left out. *)
Lemma refs_first_drop created name l :
  Forall (fun x => fst x = name \/ Forall (fun fk => fk_ref_table fk <> name) (snd x)) l -> name ∉ created \/ True ->
  refs_first created l -> refs_first (List.filter (fun n => negb (String.eqb n name)) created) (List.filter (fun x => negb (String.eqb (fst x) name)) l).
Proof.
  intros Hno _. revert created. induction Hno as [|[n fks] l Hx Hl IH]; intros created Hr; [done|]. destruct Hr as [Hd Hr].
  cbn [List.filter fst]. specialize (IH (n :: created) Hr). cbn [List.filter] in IH. destruct (String.eqb_spec n name) as [->|Hne]; cbn [negb] in *; [done|].
  destruct Hx as [?|Hx]; [done|]. split; [|done]. rewrite Forall_forall in Hd, Hx |- *. intros fk Hfk. destruct (Hd fk Hfk) as [|Hin]; [by left|right].
  apply list_elem_of_In, filter_In. split; [by apply list_elem_of_In|]. apply negb_true_iff, String.eqb_neq. by apply Hx.
Qed.

Lemma valid_keys_refer cat t : validate_table_def cat t = Ret tt ->
  Forall (fun fk => fk_ref_table fk = td_name t \/ is_Some (StoreSchema.table cat (fk_ref_table fk))) (td_foreign_keys t).
Proof.
  unfold validate_table_def. destruct (String.eqb (td_name t) ""); [done|]. case_bool_decide; [done|].
  destruct (4096 <? length (td_columns t))%nat; [done|]. destruct (validate_columns _ _ _) as [[]|]; [|done]. cbn [rbind].
  case_bool_decide; [done|]. destruct (columns_ok _ _ _ _) as [[]|]; [|done]. cbn [rbind].
  destruct (validate_indexes _ _ _) as [[]|]; [|done]. cbn [rbind]. destruct (validate_foreign_keys cat t [] (td_foreign_keys t)) as [[]|] eqn:Ef; [|done].
  intros _. revert Ef. generalize (@nil string). induction (td_foreign_keys t) as [|fk l IH]; intros names Ef; [constructor|]. cbn [validate_foreign_keys] in Ef.
  case_bool_decide; [done|]. destruct (validate_foreign_key cat t fk) as [[]|] eqn:E; [|done]. constructor; [|cbn [rbind] in *; by eapply IH].
  unfold validate_foreign_key in E. destruct (String.eqb (fk_name fk) _); [done|]. destruct (bool_decide _ || _); [done|].
  destruct (String.eqb_spec (fk_ref_table fk) (td_name t)); [by left|]. right. destruct (StoreSchema.table cat (fk_ref_table fk)); [by eexists|done].
Qed.

Lemma orderly_new l t v : orderly l -> StoreSchema.table (mkCatalog v l) (td_name t) = None ->
  validate_table_def (mkCatalog v l) t = Ret tt -> forall t', refs_of t' = refs_of t -> orderly (set_table (td_name t') t' l).
Proof.
  intros [Hs Hn (o & Ho & Hr)] Hnone Hv t' Ht'. assert (En : td_name t' = td_name t) by (by injection Ht').
  assert (Hnin : td_name t' ∉ map fst l).
  { rewrite En. intros Hin. apply list_elem_of_fmap in Hin as ([n d] & Hname & Hin). cbn [fst] in Hname. unfold StoreSchema.table in Hnone. cbn [tables] in Hnone.
    destruct (List.find _ l) as [[m e]|] eqn:E; [done|]. apply List.find_none with (x := (n, d)) in E; [|by apply list_elem_of_In].
    cbn [fst] in E. rewrite Hname, String.eqb_refl in E. done. }
  split.
  - by apply set_table_sorted.
  - rewrite (set_table_new _ _ _ Hnin). by constructor.
  - exists (o ++ [refs_of t]). split.
    + rewrite (set_table_new _ _ _ Hnin). cbn [map snd]. rewrite Ht', Ho. by rewrite Permutation_app_comm.
    + apply refs_first_app. split; [done|]. cbn [refs_first]. split; [|done]. eapply Forall_impl; [by apply valid_keys_refer|].
      cbn. intros fk [?|[d Hd]]; [by left|right]. rewrite app_nil_r, elem_of_reverse. unfold StoreSchema.table in Hd. cbn [tables] in Hd.
      destruct (List.find _ l) as [[m e]|] eqn:E; [|done]. apply List.find_some in E as [Hin Em]. apply String.eqb_eq in Em.
      rewrite Ho, map_map. apply list_elem_of_In, in_map_iff. exists (m, e). split; [|done]. cbn [fst snd refs_of] in *.
      rewrite Forall_forall in Hn. apply list_elem_of_In in Hin. specialize (Hn _ Hin). cbn in Hn. congruence.
Qed.

Lemma orderly_same l name t0 t : orderly l -> (name, t0) ∈ l -> refs_of t = refs_of t0 -> orderly (set_table name t l).
Proof.
  intros [Hs Hn (o & Ho & Hr)] Hin Ht. split; [by apply set_table_sorted| |exists o; by rewrite (set_table_old _ _ t0)].
  assert (Hname : name = td_name t).
  { rewrite Forall_forall in Hn. specialize (Hn _ Hin). cbn in Hn. assert (td_name t = td_name t0) by (by injection Ht). congruence. }
  clear -Hn Hname. induction l as [|[m d] l IH]; cbn [set_table]; [by constructor|]. apply Forall_cons in Hn as [Hm Hn].
  destruct (String.compare name m); constructor; auto.
Qed.
Lemma orderly_drop l v name : orderly l -> referring_key (mkCatalog v l) name = None -> orderly (erase_table name l).
Proof.
  intros [Hs Hn (o & Ho & Hr)] Hk. unfold erase_table.
  assert (Hrefs : Forall (fun x : Refs => fst x = name \/ Forall (fun fk => fk_ref_table fk <> name) (snd x)) o).
  { rewrite Ho. apply Forall_map, Forall_forall. intros [n d] Hin. cbn [fst snd refs_of].
    destruct (decide (td_name d = name)) as [|Hne]; [by left|right]. apply Forall_forall. intros fk Hfk Hfn.
    unfold referring_key in Hk. cbn [tables] in Hk. apply head_None in Hk.
    rewrite Forall_forall in Hn. specialize (Hn _ Hin). cbn in Hn.
    assert (Hx : (n, fk) ∈ (concat (map (fun x : string * TableDef => if String.eqb (fst x) name then [] else
      map (fun fk => (fst x, fk)) (List.filter (fun fk => String.eqb (fk_ref_table fk) name) (td_foreign_keys (snd x)))) l))).
    { apply list_elem_of_In, in_concat. exists (map (fun fk => (n, fk)) (List.filter (fun fk => String.eqb (fk_ref_table fk) name) (td_foreign_keys d))). split.
      - apply in_map_iff. exists (n, d). split; [|by apply list_elem_of_In]. cbn [fst snd]. by destruct (String.eqb_spec n name); [congruence|].
      - apply in_map_iff. exists fk. split; [done|]. apply filter_In. split; [by apply list_elem_of_In|]. by apply String.eqb_eq. }
    rewrite Hk in Hx. by apply elem_of_nil in Hx. }
  split.
  - unfold sorted_names in *. clear -Hs. induction l as [|[m d] l IH]; [done|]. cbn [map fst List.filter] in *. apply StronglySorted_inv in Hs as [Hs Hm].
    destruct (String.eqb m name); cbn [negb map fst]; [by apply IH|]. constructor; [by apply IH|]. apply Forall_forall. intros x Hx.
    apply list_elem_of_fmap in Hx as (y & -> & Hy). apply list_elem_of_In, filter_In in Hy as [Hy _]. rewrite Forall_forall in Hm. apply Hm.
    apply list_elem_of_In. by apply in_map.
  - apply Forall_forall. intros x Hx. apply list_elem_of_In, filter_In in Hx as [Hx _]. rewrite Forall_forall in Hn. apply Hn. by apply list_elem_of_In.
  - exists (List.filter (fun x => negb (String.eqb (fst x) name)) o). split; [|by apply (refs_first_drop [] name o); [|right|]].
    clear -Ho Hn. assert (Hl : List.filter (fun x : Refs => negb (String.eqb (fst x) name)) (map (fun x => refs_of (snd x)) l)
      = map (fun x => refs_of (snd x)) (List.filter (fun x => negb (String.eqb (fst x) name)) l)).
    { clear Ho. induction Hn as [|[m d] l Hm Hn IH]; [done|]. cbn in Hm |- *. rewrite Hm. destruct (String.eqb (td_name d) name); cbn; [done|by f_equal]. }
    rewrite <- Hl. by apply filter_perm.
Qed.

(** ** The operations of a writer *)

Section keeps.
Context {W : Type} `{PageStore W}.
Variable fuel : nat.

Definition keeps_orderly {A} (m : WrM (W := W) A) : Prop :=
  forall wr w r wr' w', orderly (tables (edited wr)) -> m (wr, w) = (r, (wr', w')) -> orderly (tables (edited wr')).
Lemma ko_bind {A B} (m : WrM A) (k : A -> WrM B) : keeps_orderly m -> (forall a, keeps_orderly (k a)) -> keeps_orderly (bind m k).
Proof.
  intros Hm Hk wr w r wr' w' Ho E. unfold bind in E. destruct (m (wr, w)) as [[a|e] [wr1 w1]] eqn:E1.
  - apply (Hk a wr1 w1 r wr' w'); [by eapply Hm|done].
  - injection E as _ <- _. by eapply Hm.
Qed.
Lemma ko_onw {A} (m : M W A) : keeps_orderly (onw m).
Proof. intros wr w r wr' w' Ho E. unfold onw in E. destruct (m w). by injection E as _ <- _. Qed.
Lemma ko_lift {A} (r : Result A) : keeps_orderly (lift r).
Proof. intros wr w r' wr' w' Ho E. by injection E as _ <- _. Qed.
Lemma ko_ret {A} (a : A) : keeps_orderly (ret a).
Proof. apply (ko_lift (Ret a)). Qed.
Lemma ko_active {A} (m : Catalog -> WrM A) :
  (forall wr w r wr' w', orderly (tables (edited wr)) -> m (edited wr) (wr, w) = (r, (wr', w')) -> orderly (tables (edited wr'))) -> keeps_orderly (while_active m).
Proof.
  intros Hm wr w r wr' w' Ho E. unfold while_active, bind, getO in E. cbn [fst] in E. destruct (finished wr); [by injection E as _ <- _|by eapply Hm].
Qed.
Lemma ko_mod f : (forall wr, orderly (tables (edited wr)) -> orderly (tables (edited (f wr)))) -> keeps_orderly (modO f).
Proof. intros Hf wr w r wr' w' Ho E. injection E as _ <- _. by apply Hf. Qed.
Lemma ko_save_table t : keeps_orderly (save_table t).
Proof. apply ko_bind; [by apply ko_mod|]. intros _. apply ko_onw. Qed.

(** The steps of a writer that change the catalog. *)
Inductive Ddl :=
  | CreateTable (def : TableDef)
  | DropTable (name : string)
  | CreateIndex (name : string) (def : IndexDef)
  | DropIndex (name index : string)
  | SetVersion (v : Z).
Definition run_ddl (x : Ddl) : WrM (W := W) unit :=
  match x with
  | CreateTable def => create_table def
  | DropTable name => drop_table name
  | CreateIndex name def => create_index fuel name def
  | DropIndex name index => drop_index name index
  | SetVersion v => set_schema_version v
  end.
(** Failed steps are passed over. *)
Fixpoint run_ddls (l : list Ddl) : WrM (W := W) unit :=
  match l with
  | [] => ret tt
  | x :: l => let! _ := attempt (run_ddl x) in run_ddls l
  end.

Lemma with_refs_create def root idxs : refs_of (with_indexes (with_root def root) idxs) = refs_of def.
Proof. done. Qed.
Lemma table_found l v name t : StoreSchema.table (mkCatalog v l) name = Some t -> (name, t) ∈ l.
Proof.
  unfold StoreSchema.table. cbn [tables]. destruct (List.find _ l) as [[n u]|] eqn:E; [|done]. intros [= <-].
  apply List.find_some in E as [Hin En]. apply String.eqb_eq in En as <-. by apply list_elem_of_In.
Qed.

Lemma ko_create_table def : keeps_orderly (create_table def).
Proof.
  apply ko_active. intros wr w r wr' w' Ho E. destruct (edited wr) as [v l] eqn:Ec. cbn [tables] in *.
  destruct (StoreSchema.table (mkCatalog v l) (td_name def)) eqn:Et; [injection E as _ <- _; by rewrite Ec|].
  set (d := with_columns def (pk_not_null def)) in *. unfold bind at 1, lift in E.
  destruct (validate_table_def (mkCatalog v l) d) as [[]|e] eqn:Ev; [|injection E as _ <- _; by rewrite Ec].
  revert E. cut (forall (m : WrM (W := W) unit), m = (let! root := onw create in let! idxs := onw (create_indexes (td_indexes d)) in
      let d := with_indexes (with_root d root) idxs in
      do! modO (fun w => set_edited w (mkCatalog (schema_version (edited w)) (set_table (td_name d) d (tables (edited w))))) in save_table d) ->
      m (wr, w) = (r, (wr', w')) -> orderly (tables (edited wr'))); [intros Hc; by apply Hc|].
  intros m -> E. unfold bind at 1 in E. unfold onw at 1 in E. destruct (create w) as [[root|e] w1]; [|injection E as _ <- _; by rewrite Ec].
  unfold bind at 1 in E. unfold onw at 1 in E. destruct (create_indexes (td_indexes d) w1) as [[idxs|e] w2]; [|injection E as _ <- _; by rewrite Ec].
  unfold bind at 1, modO in E. cbn [fst snd] in E. cbv beta zeta in E.
  refine (ko_save_table _ _ _ _ _ _ _ E). cbn [set_edited edited tables]. rewrite Ec. cbn [tables].
  by apply (orderly_new l d v Ho).
Qed.
Lemma ko_drop_table name : keeps_orderly (drop_table name).
Proof.
  apply ko_active. intros wr w r wr' w' Ho E. destruct (edited wr) as [v l] eqn:Ec. cbn [tables schema_version] in *.
  destruct (StoreSchema.table (mkCatalog v l) name) as [t|] eqn:Et; [|injection E as _ <- _; by rewrite Ec].
  destruct (referring_key (mkCatalog v l) name) as [[cname fk]|] eqn:Ek; [injection E as _ <- _; by rewrite Ec|].
  assert (Hwr : orderly (tables (edited wr))) by (by rewrite Ec).
  revert E. apply ko_bind; [apply ko_onw| |done]. intros _. apply ko_bind; [apply ko_onw|]. intros _.
  apply ko_bind; [apply ko_mod; intros wr0 _; by apply (orderly_drop l v)|]. intros _.
  apply ko_bind; [by apply ko_mod|]. intros _. apply ko_bind; [apply ko_onw|]. intros _. apply ko_ret.
Qed.
Lemma ko_create_index name def : keeps_orderly (create_index fuel name def).
Proof.
  apply ko_active. intros wr w r wr' w' Ho E. destruct (edited wr) as [v l] eqn:Ec. cbn [tables schema_version] in *.
  destruct (StoreSchema.table (mkCatalog v l) name) as [t|] eqn:Et; [|injection E as _ <- _; by rewrite Ec]. apply table_found in Et.
  assert (Hwr : orderly (tables (edited wr))) by (by rewrite Ec).
  revert E. apply ko_bind; [apply ko_lift| |done]. intros _. apply ko_bind; [apply ko_onw|]. intros root. apply ko_bind.
  { intros wr0 w0 r0 wr1 w1 Ho0 E. unfold attempt, onw in E. destruct (scan_raw _ _ _ _ _ _ _ _ _ w0). by injection E as _ <- _. }
  intros [u|e].
  - apply ko_bind; [|intros _; apply ko_save_table]. apply ko_mod. intros wr0 _. by apply (orderly_same l name t).
  - apply ko_bind; [|intros _; apply ko_lift]. case_bool_decide; [apply ko_onw|apply ko_ret].
Qed.
Lemma ko_drop_index name index : keeps_orderly (drop_index name index).
Proof.
  apply ko_active. intros wr w r wr' w' Ho E. destruct (edited wr) as [v l] eqn:Ec. cbn [tables schema_version] in *.
  destruct (StoreSchema.table (mkCatalog v l) name) as [t|] eqn:Et; [|injection E as _ <- _; by rewrite Ec]. apply table_found in Et.
  destruct (position _ (td_indexes t)) as [i|]; [|injection E as _ <- _; by rewrite Ec].
  destruct (unsupported_key _); [injection E as _ <- _; by rewrite Ec|].
  match type of E with (match ?x with _ => _ end) _ = _ => destruct x as [[cname fk]|] end; [injection E as _ <- _; by rewrite Ec|].
  assert (Hwr : orderly (tables (edited wr))) by (by rewrite Ec).
  revert E. apply ko_bind; [apply ko_onw| |done]. intros _. apply ko_bind; [|intros _; apply ko_save_table].
  apply ko_mod. intros wr0 _. by apply (orderly_same l name t).
Qed.
Lemma ko_run_ddl x : keeps_orderly (run_ddl x).
Proof.
  destruct x; [apply ko_create_table|apply ko_drop_table|apply ko_create_index|apply ko_drop_index|].
  apply ko_active. intros wr w r wr' w' Ho. apply ko_bind; [|intros _|done].
  - by apply ko_mod.
  - apply ko_bind; [by apply ko_mod|]. intros _. intros wr0 w0 r0 wr1 w1 Ho0 E. unfold bind, getO in E. cbn [fst] in E.
    by eapply (ko_onw _ _ _ _ _ _ Ho0 E).
Qed.
Lemma ko_run_ddls l : keeps_orderly (run_ddls l).
Proof.
  induction l as [|x l IH]; [apply ko_ret|]. apply ko_bind; [|done].
  intros wr w r wr' w' Ho E. unfold attempt in E. destruct (run_ddl x (wr, w)) as [r1 [wr1 w1]] eqn:E1. injection E as _ <- _. by eapply ko_run_ddl.
Qed.
End keeps.

(** ** What a dump holds *)

Definition dumped (d : Data) (x : string * TableDef) : TableDump :=
  mkTableDump (zero_roots (snd x)) (map snd (scan_entries (snd x) None (rows_of d (fst x)))).
Definition dump_of (cat : Catalog) (d : Data) : Dump := mkDump (schema_version cat) (map (dumped d) (tables cat)).

Lemma fold_until_all (l : list Row) : forall acc, fold_until (fun r out => (true, out ++ [r])) l acc = acc ++ l.
Proof. induction l as [|r l IH]; intros acc; [by rewrite app_nil_r|]. cbn. by rewrite IH, <- app_assoc. Qed.

Section dumps.
Context {W : Type} `{PageStore W} (ls : Lengths) `{!Groves W ls}.
Context (fuel : nat) (cat : Catalog) (Hcat : catalog_ok cat) (d : Data) (g : Grove).
Context (Hrep : store_rep cat g d) (Hh : heights cat g 64) (Hen : enough fuel g).

Lemma scan_all_gives name t : (name, t) ∈ tables cat ->
  gives ls (scan_all fuel false cat name "" None None false) g (Ret (map snd (scan_entries t None (rows_of d name)))).
Proof.
  intros Hin. destruct Hen as [Hp Hf]. unfold scan_all, Store.scan. rewrite (in_table cat name t (co_nodup _ Hcat) Hin).
  eapply gives_ret; [apply gives_lift|].
  pose proof (scan_raw_gives ls fuel cat d g Hcat Hrep Hh Hp Hf name t Hin false None None None false (fun r out => (true, out ++ [r])) [] I) as Hs.
  cbn [check_bound rbind] in Hs. rewrite visited_all, fold_until_all in Hs. exact Hs.
Qed.
Lemma dump_each_gives l : l ⊆ tables cat -> gives ls (dump_each fuel cat l) g (Ret (map (dumped d) l)).
Proof.
  induction l as [|[name t] l IH]; intros Hl; [apply gives_lift|]. cbn [dump_each map].
  eapply gives_ret; [apply scan_all_gives, Hl; left|]. eapply gives_ret; [apply IH; set_solver|]. apply gives_lift.
Qed.
Lemma dump_gives : gives ls (dump fuel cat) g (Ret (dump_of cat d)).
Proof. eapply gives_ret; [by apply dump_each_gives|]. apply gives_lift. Qed.
End dumps.

Definition dump_refs (td : TableDump) : Refs := refs_of (dump_def td).
Lemma parents_first_refs l : forall created, refs_first created (map dump_refs l) -> parents_first created l.
Proof.
  induction l as [|td l IH]; intros created Hl; [done|]. cbn [map refs_first dump_refs refs_of] in Hl. destruct Hl as [Hd Hl]. split; [|by apply IH].
  rewrite Forall_forall in Hd. exact Hd.
Qed.
Lemma orderly_restores cat d : orderly (tables cat) ->
  exists l, order_of (dump_of cat d) = Ret l /\ l ≡ₚ dump_tables (dump_of cat d) /\ parents_first [] l.
Proof.
  intros [Hs Hn (o & Ho & Hr)].
  assert (Hrefs : map dump_refs (map (dumped d) (tables cat)) = map (fun x => refs_of (snd x)) (tables cat)) by (by rewrite map_map).
  rewrite <- Hrefs in Ho. apply Permutation_map_inv in Ho as (l & -> & Hl).
  assert (Hnd : NoDup (map name_of (dump_tables (dump_of cat d)))).
  { cbn [dump_tables dump_of]. rewrite map_map. replace (map (fun x => name_of (dumped d x)) (tables cat)) with (map fst (tables cat)); [by apply sorted_nodup|].
    apply list_fmap_ext. intros i x Hx. rewrite Forall_forall in Hn. apply Hn. by eapply list_elem_of_lookup_2. }
  pose proof (restore_order_spec _ Hnd) as Hspec. destruct (order_of (dump_of cat d)) as [l'|e]; [by exists l'|].
  destruct Hspec as [_ Hno]. destruct (Hno l); [by symmetry|]. by apply parents_first_refs.
Qed.

Section contract.
Context {W : Type} `{PageStore W} (ls : Lengths) `{!Groves W ls}.

(** [C8] A dump is complete and can be put back parents first.  Of a store
    whose catalog a writer has made from an empty one by any sequence of schema
    changes, failed ones included, [dump] succeeds and gives the schema version
    and, table by table, the definition with its roots zeroed and exactly the
    rows of the table, in key order.  The loop of [restore] that orders the
    tables of such a dump ends without its cycle error, and yields every table
    once and after the tables its foreign keys refer to, itself apart. *)
Theorem dump_restores_in_order fuel0 steps v w0 r wr w1 fuel d g w :
  run_ddls fuel0 steps (mkWriter (mkCatalog v []) false false, w0) = (r, (wr, w1)) ->
  catalog_ok (edited wr) -> store_rep (edited wr) g d -> heights (edited wr) g 64 -> enough fuel g -> grove_at w g ->
  (exists w', dump fuel (edited wr) w = (Ret (dump_of (edited wr) d), w') /\ grove_at w' g)
  /\ exists l, order_of (dump_of (edited wr) d) = Ret l /\ l ≡ₚ dump_tables (dump_of (edited wr) d) /\ parents_first [] l.
Proof.
  intros Hrun Hcat Hrep Hh Hen Hw. split; [exact (dump_gives ls fuel (edited wr) Hcat d g Hrep Hh Hen w Hw)|].
  apply orderly_restores. eapply ko_run_ddls; [|exact Hrun]. split; [constructor|constructor|]. by exists [].
Qed.
End contract.

(** The table of parts, made in a store whose catalog has its root, is dumped
    and ordered. *)
Definition parts_unmade : TableDef := zero_roots parts.
Definition catalog_made : Mem := snd (create (mkMem ∅ 1)).
Lemma dump_restores_in_order_witness :
  let cat := edited (fst (snd (run_ddls 9 [CreateTable parts_unmade; DropTable "screws"; SetVersion 1] (mkWriter (mkCatalog 0 []) false false, catalog_made)))) in
  (exists w', dump part_fuel cat parts_mem = (Ret (dump_of cat ∅), w') /\ grove_at (ls := part_lengths) w' parts_grove)
  /\ exists l, order_of (dump_of cat ∅) = Ret l /\ l ≡ₚ dump_tables (dump_of cat ∅) /\ parents_first [] l.
Proof.
  destruct (run_ddls 9 _ _) as [r [wr w1]] eqn:E. cbn [fst snd].
  assert (Hed : edited wr = parts_catalog).
  { change wr with (fst (wr, w1)). change (wr, w1) with (snd (r, (wr, w1))). rewrite <- E. vm_compute. reflexivity. }
  apply (dump_restores_in_order part_lengths 9 _ _ _ _ _ _ part_fuel ∅ parts_grove parts_mem E); rewrite ?Hed.
  - exact parts_catalog_ok.
  - exact parts_rep.
  - decide_now.
  - split; apply Nat.leb_le; vm_compute; reflexivity.
  - exact parts_grove_at.
Defined.
