(* ===== verification/Recorder.v ===== *)
(** Identifiers, the audit row and the change feed (core/src/ids.cpp,
    core/src/recorder.cpp).

    A [Recorder] performs row changes and writes, in the same transaction, a
    change-feed row for each under one audit row.  The images it writes are
    JSON; the library that prints them is the parameter [dump].  [r[i]] past
    the end of a row, which the code never does with rows of its tables, is
    NULL in the model, and [last + 1] is not wrapped (overflow of a signed
    integer is undefined in the code). *)

From stdpp Require Import base numbers list gmap strings.
From S2P Require Import Prelude Bytes PageFormat Types Record StoreSchema Store StoreRep StoreSpec CoreSchema Program.
From stdpp Require Import list.
Open Scope Z_scope.
Open Scope prog_scope.

(** * Identifiers *)

Definition next_id (table_ : string) : Prog Z :=
  let* cat := pcatalog in
  match StoreSchema.table cat table_ with
  | None => PRet (not_found ("no table " +:+ table_))
  | Some t =>
      match td_primary_key t with
      | [c] =>
          if negb (bool_decide (col_type (column t c) = TInteger)) then PRet (invalid_argument ("table " +:+ table_ +:+ " has no single integer key"))
          else
            let* last := pscan table_ "" None None true (fun r _ => (false, as_int64 (field t r c))) 0 in
            pret (last + 1)
      | _ => PRet (invalid_argument ("table " +:+ table_ +:+ " has no single integer key"))
      end
  end.

(** * Images *)

Inductive Json :=
  | JNull
  | JInt (i : Z)
  | JBool (b : bool)
  | JString (s : string)
  | JObject (l : list (string * Json)).
(** [j[name] = v]: the members of an object are kept in the order of their
    names. *)
Fixpoint json_set (name : string) (v : Json) (l : list (string * Json)) : list (string * Json) :=
  match l with
  | [] => [(name, v)]
  | (n, x) :: l =>
      match String.compare name n with
      | Eq => (name, v) :: l
      | Lt => (name, v) :: (n, x) :: l
      | Gt => (n, x) :: json_set name v l
      end
  end.

Definition kind_name (v : Value) : string :=
  match v with
  | Null => "null"
  | Integer _ => "integer"
  | Decimal _ => "decimal"
  | Text _ => "text"
  | Blob _ => "blob"
  | Timestamp _ => "timestamp"
  | Boolean _ => "boolean"
  | Uuid _ => "uuid"
  end.
Definition value_json (v : Value) : Json :=
  match v with
  | Null => JNull
  | Integer i | Decimal i | Timestamp i => JInt i
  | Boolean b => JBool b
  | Text _ => JString (as_text v)
  | Uuid _ => JString (value_to_string v)
  | Blob b => JObject (json_set "length" (JInt (Z.of_nat (length b))) (json_set "kind" (JString "blob") []))
  end.
Definition shape_json (v : Value) : Json :=
  if is_null v then JObject [("present", JBool false)]
  else
    let j := json_set "kind" (JString (kind_name v)) [("present", JBool true)] in
    JObject (match v with
             | Text s => json_set "length" (JInt (Z.of_nat (length s))) j
             | Blob b => json_set "length" (JInt (Z.of_nat (length b))) j
             | _ => j
             end).

(** Table to the columns whose values may be recorded. *)
Definition RecordPolicy : Type := gmap string (gset string).
Definition allow (table_ : string) (columns : list string) (p : RecordPolicy) : RecordPolicy :=
  <[table_ := default ∅ (p !! table_) ∪ list_to_set columns]> p.
Definition allows (p : RecordPolicy) (table_ column : string) : bool :=
  match p !! table_ with Some s => bool_decide (column ∈ s) | None => false end.

Fixpoint image_from (t : TableDef) (p : RecordPolicy) (cols : list ColumnDef) (row : Row) (j : list (string * Json)) : list (string * Json) :=
  match cols, row with
  | c :: cols, v :: row =>
      image_from t p cols row (json_set (col_name c) (if allows p (td_name t) (col_name c) then value_json v else shape_json v) j)
  | _, _ => j
  end.
Definition row_image (t : TableDef) (row : Row) (p : RecordPolicy) : Json := JObject (image_from t p (td_columns t) row []).
Definition row_key (t : TableDef) (row : Row) : Json :=
  JObject (fold_left (fun j c => json_set c (value_json (field t row c)) j) (td_primary_key t) []).

(** * Recorder *)

Inductive ActorKind := KPrincipal | KDevice | KAccount | KSystem.
Record Actor := mkActor { actor_kind : ActorKind; tid : string; oid : string; account : string; device : option Bytes; request_id : string }.
Definition actor_kind_name (k : ActorKind) : string :=
  match k with KPrincipal => "principal" | KDevice => "device" | KAccount => "account" | KSystem => "system" end.
Definition opt_text (s : string) : Value := if String.eqb s "" then Null else text s.

Record Recorder := mkRecorder { policy_ : RecordPolicy; now_us_ : Z; audit_id : Z; status_ : Result unit; audit_row_ : Row }.

(** The outcome of a part whose failure does not end the whole. *)
Fixpoint pattempt {A} (p : Prog A) : Prog (Result A) :=
  match p with
  | PRet r => PRet (Ret r)
  | PCatalog k => PCatalog (fun c => pattempt (k c))
  | PGet t pk k => PGet t pk (fun r => pattempt (k r))
  | PScan t i lo hi rv fn b k => PScan t i lo hi rv fn b (fun r => pattempt (k r))
  | PWrite op k => PWrite op (fun r => pattempt (k r))
  end.

(** The constructor: it writes the audit row. *)
Definition new_recorder (policy : RecordPolicy) (actor : Actor) (action : string) (now_us : Z) (detail : string) : Prog Recorder :=
  let* id := pattempt (next_id kAuditLog) in
  match id with
  | Err e => pret (mkRecorder policy now_us 0 (Err e) [])
  | Ret id =>
      let row := [Integer id; Timestamp now_us; text (actor_kind_name (actor_kind actor)); opt_text (tid actor); opt_text (oid actor);
                  opt_text (account actor); match device actor with Some u => Uuid u | None => Null end; text action; Null; Null;
                  opt_text (request_id actor); opt_text detail] in
      let* s := pattempt (pwrite (RInsert kAuditLog row)) in
      pret (mkRecorder policy now_us id s row)
  end.

Section recorder.
(** [json::dump]. *)
Variable dump : Json -> string.
Variable rec : Recorder.

Definition set_target (table_ id : string) : Prog Recorder :=
  match status_ rec with
  | Err e => PRet (Err e)
  | Ret _ =>
      let row := <[9%nat := text id]> (<[8%nat := text table_]> (audit_row_ rec)) in
      do* pwrite (RUpdate kAuditLog row) in
      pret (mkRecorder (policy_ rec) (now_us_ rec) (audit_id rec) (status_ rec) row)
  end.

Definition opt_image (j : option Json) : Value := match j with Some j => text (dump j) | None => Null end.
Definition feed (table_ op : string) (key : Json) (before after : option Json) : Prog unit :=
  let* id := next_id kChangeFeed in
  pwrite (RInsert kChangeFeed
    [Integer id; Integer (audit_id rec); Timestamp (now_us_ rec); text table_; text op; text (dump key); opt_image before; opt_image after]).

(** The table, while the recorder has its audit row. *)
Definition while_recording (table_ : string) (m : TableDef -> Prog unit) : Prog unit :=
  match status_ rec with
  | Err e => PRet (Err e)
  | Ret _ =>
      let* cat := pcatalog in
      match StoreSchema.table cat table_ with
      | None => PRet (not_found ("no table " +:+ table_))
      | Some t => m t
      end
  end.
Definition rec_insert (table_ : string) (row : Row) : Prog unit :=
  while_recording table_ (fun t =>
    do* pwrite (RInsert table_ row) in
    feed table_ "insert" (row_key t row) None (Some (row_image t row (policy_ rec)))).
Definition rec_update (table_ : string) (row : Row) : Prog unit :=
  while_recording table_ (fun t =>
    let* old := pget table_ (map (field t row) (td_primary_key t)) in
    match old with
    | None => PRet (not_found ("no row to update in " +:+ table_))
    | Some old =>
        do* pwrite (RUpdate table_ row) in
        feed table_ "update" (row_key t row) (Some (row_image t old (policy_ rec))) (Some (row_image t row (policy_ rec)))
    end).
Definition rec_remove (table_ : string) (primary_key : Row) : Prog unit :=
  while_recording table_ (fun t =>
    let* old := pget table_ primary_key in
    match old with
    | None => PRet (not_found ("no row to remove in " +:+ table_))
    | Some old =>
        do* pwrite (RRemove table_ primary_key) in
        feed table_ "delete" (row_key t old) (Some (row_image t old (policy_ rec))) None
    end).
End recorder.

(** * The tables a recorded change touches *)

Lemma next_id_writes names table_ : writes_only names (next_id table_).
Proof.
  unfold next_id, pcatalog. cbn [pbind writes_only pret]. intros c. destruct (StoreSchema.table c table_) as [t|]; [|done].
  destruct (td_primary_key t) as [|? [|]]; [done| |done]. destruct (negb _); [done|]. by apply writes_bind.
Qed.
Section writes.
Context (dump : Json -> string) (rec : Recorder) (names : list string) (Hfeed : kChangeFeed ∈ names).
Lemma feed_writes table_ op key before after : writes_only names (feed dump rec table_ op key before after).
Proof. apply writes_bind; [apply next_id_writes|]. intros id. by split. Qed.
Lemma recording_writes table_ m : (forall t, writes_only names (m t)) -> writes_only names (while_recording rec table_ m).
Proof.
  intros Hm. unfold while_recording. destruct (status_ rec); [|done]. unfold pcatalog. cbn [pbind writes_only pret]. intros c.
  destruct (StoreSchema.table c table_); [apply Hm|done].
Qed.
Lemma rec_insert_writes table_ row : table_ ∈ names -> writes_only names (rec_insert dump rec table_ row).
Proof. intros Ht. apply recording_writes. intros t. apply writes_bind; [by split|]. intros _. apply feed_writes. Qed.
Lemma rec_update_writes table_ row : table_ ∈ names -> writes_only names (rec_update dump rec table_ row).
Proof.
  intros Ht. apply recording_writes. intros t. apply writes_bind; [done|]. intros [old|]; [|done]. apply writes_bind; [by split|]. intros _. apply feed_writes.
Qed.
Lemma rec_remove_writes table_ key : table_ ∈ names -> writes_only names (rec_remove dump rec table_ key).
Proof.
  intros Ht. apply recording_writes. intros t. apply writes_bind; [done|]. intros [old|]; [|done]. apply writes_bind; [by split|]. intros _. apply feed_writes.
Qed.
End writes.
Create HintDb writes.
#[export] Hint Resolve writes_bind writes_for next_id_writes rec_insert_writes rec_update_writes rec_remove_writes : writes.
