(* ===== verification/PunchSchema.v ===== *)
(** The Punchline schema (modules/punchline/src/schema.cpp): its tables, the
    migrations that create and seed them, and the recording policy.

    [schema_installs] runs the migrations of the core and of Punchline on an
    empty store. *)

From stdpp Require Import base numbers list gmap strings.
From S2P Require Import Prelude Bytes PageFormat Types Record StoreSchema BTree Store CoreSchema Recorder.
From stdpp Require Import list.
Open Scope Z_scope.

Definition fk (name : string) (columns : list string) (ref_table : string) (ref_columns : list string) : ForeignKeyDef :=
  mkForeignKey name columns ref_table ref_columns.
Definition at_least (name column : string) (v : Z) : CheckDef := mkCheckDef name column CGe [Integer v] "".
Definition at_most (name column : string) (v : Z) : CheckDef := mkCheckDef name column CLe [Integer v] "".
Definition column_after (name column other : string) : CheckDef := mkCheckDef name column CGt [] other.
Definition column_at_or_after (name column other : string) : CheckDef := mkCheckDef name column CGe [] other.

Definition kEntryStates : list string := ["recorded"; "submitted"; "approved"; "released"; "locked"].
Definition kPeriodStates : list string := ["open"; "locked"].

(** * Migration 1 *)

Definition employees : TableDef :=
  mkTableDef "employees"
    [col "id" TInteger false; col "employee_number" TText false; col "display_name" TText false; col "email" TText true; col "tid" TText true;
     col "oid" TText true; col "active" TBoolean false; col "pay_group" TText true; col "site_zone" TText false; col "created_at" TTimestamp false;
     col "updated_at" TTimestamp false; col "company" TText true; col "cost_center" TText true]
    ["id"]
    [index "employees_number" ["employee_number"] true; index "employees_identity" ["tid"; "oid"] true;
     index "employees_active_name" ["active"; "display_name"] false]
    []
    [non_empty "employees_number_nonempty" "employee_number"; non_empty "employees_name_nonempty" "display_name";
     non_empty "employees_zone_nonempty" "site_zone"] 0.

Definition devices : TableDef :=
  mkTableDef "devices"
    [col "id" TInteger false; col "device_uuid" TUuid false; col "name" TText false; col "employee_id" TInteger false;
     col "credential_hash" TBlob false; col "enrolled_at" TTimestamp false; col "enrolled_by" TText false; col "revoked_at" TTimestamp true;
     col "revoked_reason" TText true; col "last_seen_at" TTimestamp true; col "last_acked_sequence" TInteger true; col "last_journal_id" TUuid true;
     col "employee_id_rejections" TInteger false]
    ["id"]
    [index "devices_uuid" ["device_uuid"] true; index "devices_employee" ["employee_id"; "revoked_at"] false]
    [fk "devices_employee_fk" ["employee_id"] "employees" ["id"]]
    [non_empty "devices_name_nonempty" "name"; at_least "devices_rejections_min" "employee_id_rejections" 0] 0.

Definition pay_periods : TableDef :=
  mkTableDef "pay_periods"
    [col "id" TInteger false; col "start_day" TInteger false; col "end_day" TInteger false; col "site_zone" TText false;
     col "tzdb_version" TText false; col "state" TText false; col "submit_by" TTimestamp true; col "approve_by" TTimestamp true;
     col "release_at" TTimestamp true]
    ["id"]
    [index "pay_periods_start" ["start_day"] true; index "pay_periods_state" ["state"] false]
    []
    [one_of "pay_periods_state_known" "state" kPeriodStates; column_at_or_after "pay_periods_days_ordered" "end_day" "start_day";
     column_at_or_after "pay_periods_cutoffs_ordered" "approve_by" "submit_by"] 0.

Definition supervisor_assignments : TableDef :=
  mkTableDef "supervisor_assignments"
    [col "id" TInteger false; col "employee_id" TInteger false; col "supervisor_employee_id" TInteger false; col "effective_from" TTimestamp false;
     col "effective_to" TTimestamp true; col "assigned_by" TText false; col "audit_id" TInteger false]
    ["id"]
    [index "supervisor_assignments_employee" ["employee_id"; "effective_from"] false;
     index "supervisor_assignments_supervisor" ["supervisor_employee_id"; "effective_from"] false;
     index "supervisor_assignments_audit" ["audit_id"] false]
    [fk "supervisor_assignments_employee_fk" ["employee_id"] "employees" ["id"];
     fk "supervisor_assignments_supervisor_fk" ["supervisor_employee_id"] "employees" ["id"];
     fk "supervisor_assignments_audit_fk" ["audit_id"] "audit_log" ["id"]]
    [non_empty "supervisor_assignments_by_nonempty" "assigned_by"; column_after "supervisor_assignments_range_ordered" "effective_to" "effective_from"] 0.

Definition pay_codes : TableDef :=
  mkTableDef "pay_codes"
    [col "code" TText false; col "description" TText false; col "paid" TBoolean false; col "active" TBoolean false]
    ["code"]
    []
    []
    [non_empty "pay_codes_code_nonempty" "code"] 0.

Definition schedules : TableDef :=
  mkTableDef "schedules"
    [col "id" TInteger false; col "employee_id" TInteger false; col "weekday" TInteger false; col "start_minute" TInteger false;
     col "end_minute" TInteger false; col "effective_from_day" TInteger false; col "effective_to_day" TInteger true]
    ["id"]
    [index "schedules_employee" ["employee_id"; "weekday"; "effective_from_day"] false]
    [fk "schedules_employee_fk" ["employee_id"] "employees" ["id"]]
    [at_least "schedules_weekday_min" "weekday" 0; at_most "schedules_weekday_max" "weekday" 6; at_least "schedules_start_min" "start_minute" 0;
     at_most "schedules_start_max" "start_minute" 1439; at_least "schedules_end_min" "end_minute" 0; at_most "schedules_end_max" "end_minute" 1440;
     column_after "schedules_minutes_ordered" "end_minute" "start_minute";
     column_after "schedules_days_ordered" "effective_to_day" "effective_from_day"] 0.

Definition time_entries : TableDef :=
  mkTableDef "time_entries"
    [col "id" TInteger false; col "entry_uuid" TUuid false; col "employee_id" TInteger false; col "device_id" TInteger false;
     col "journal_id" TUuid true; col "journal_sequence" TInteger false; col "kind" TText false; col "device_time" TTimestamp false;
     col "local_time" TText false; col "site_zone" TText false; col "tzdb_version" TText false; col "receipt_time" TTimestamp false;
     col "attestation" TText false; col "clock_divergence_us" TInteger true; col "period_id" TInteger true; col "state" TText false;
     col "pay_code" TText true; col "approval_audit_id" TInteger true; col "correction_of" TInteger true; col "correction_reason" TText true;
     col "created_at" TTimestamp false; col "note" TText true; col "superseded_by" TInteger true]
    ["id"]
    [index "time_entries_uuid" ["entry_uuid"] true; index "time_entries_journal_sequence" ["journal_id"; "journal_sequence"] true;
     index "time_entries_device_sequence" ["device_id"; "journal_sequence"] false;
     index "time_entries_employee_time" ["employee_id"; "device_time"] false; index "time_entries_period" ["period_id"; "employee_id"] false;
     index "time_entries_state" ["state"] false; index "time_entries_correction" ["correction_of"] false;
     index "time_entries_superseded" ["superseded_by"] false; index "time_entries_approval" ["approval_audit_id"] false;
     index "time_entries_pay_code" ["pay_code"] false; index "time_entries_attestation" ["attestation"; "device_time"] false]
    [fk "time_entries_employee_fk" ["employee_id"] "employees" ["id"]; fk "time_entries_device_fk" ["device_id"] "devices" ["id"];
     fk "time_entries_period_fk" ["period_id"] "pay_periods" ["id"]; fk "time_entries_approval_fk" ["approval_audit_id"] "audit_log" ["id"];
     fk "time_entries_correction_fk" ["correction_of"] "time_entries" ["id"]; fk "time_entries_superseded_fk" ["superseded_by"] "time_entries" ["id"];
     fk "time_entries_pay_code_fk" ["pay_code"] "pay_codes" ["code"]]
    [one_of "time_entries_kind_known" "kind" ["in"; "out"]; one_of "time_entries_attestation_known" "attestation" ["device"; "server"; "manual"];
     one_of "time_entries_state_known" "state" kEntryStates; at_least "time_entries_sequence_min" "journal_sequence" 0] 0.

Definition shifts : TableDef :=
  mkTableDef "shifts"
    [col "id" TInteger false; col "employee_id" TInteger false; col "device_id" TInteger false; col "in_entry_id" TInteger false;
     col "out_entry_id" TInteger true; col "local_day" TInteger false; col "period_id" TInteger true; col "in_time" TTimestamp false;
     col "out_time" TTimestamp true; col "duration_us" TInteger true; col "pay_code" TText true; col "state" TText false]
    ["id"]
    [index "shifts_in_entry" ["in_entry_id"] true; index "shifts_out_entry" ["out_entry_id"] true;
     index "shifts_employee_day" ["employee_id"; "local_day"] false; index "shifts_employee_state" ["employee_id"; "state"] false;
     index "shifts_period" ["period_id"; "employee_id"] false; index "shifts_device" ["device_id"] false; index "shifts_pay_code" ["pay_code"] false]
    [fk "shifts_employee_fk" ["employee_id"] "employees" ["id"]; fk "shifts_device_fk" ["device_id"] "devices" ["id"];
     fk "shifts_in_fk" ["in_entry_id"] "time_entries" ["id"]; fk "shifts_out_fk" ["out_entry_id"] "time_entries" ["id"];
     fk "shifts_period_fk" ["period_id"] "pay_periods" ["id"]; fk "shifts_pay_code_fk" ["pay_code"] "pay_codes" ["code"]]
    [one_of "shifts_state_known" "state" kEntryStates; column_after "shifts_times_ordered" "out_time" "in_time";
     at_least "shifts_duration_min" "duration_us" 0] 0.

Definition sync_batches : TableDef :=
  mkTableDef "sync_batches"
    [col "id" TInteger false; col "batch_uuid" TUuid false; col "device_id" TInteger false; col "received_at" TTimestamp false;
     col "first_sequence" TInteger false; col "last_sequence" TInteger false; col "accepted" TInteger false; col "rejected" TInteger false;
     col "client_time_us" TTimestamp true; col "clock_divergence_us" TInteger true; col "journal_id" TUuid true]
    ["id"]
    [index "sync_batches_uuid" ["batch_uuid"] true; index "sync_batches_device" ["device_id"; "received_at"] false]
    [fk "sync_batches_device_fk" ["device_id"] "devices" ["id"]]
    [at_least "sync_batches_accepted_min" "accepted" 0; at_least "sync_batches_rejected_min" "rejected" 0] 0.

Definition approvals : TableDef :=
  mkTableDef "approvals"
    [col "id" TInteger false; col "period_id" TInteger false; col "employee_id" TInteger false; col "from_state" TText false;
     col "to_state" TText false; col "acted_by_tid" TText true; col "acted_by_oid" TText true; col "acted_by_account" TText true;
     col "acted_at" TTimestamp false; col "note" TText true; col "audit_id" TInteger false]
    ["id"]
    [index "approvals_period" ["period_id"; "employee_id"; "acted_at"] false; index "approvals_audit" ["audit_id"] false;
     index "approvals_employee" ["employee_id"] false]
    [fk "approvals_period_fk" ["period_id"] "pay_periods" ["id"]; fk "approvals_employee_fk" ["employee_id"] "employees" ["id"];
     fk "approvals_audit_fk" ["audit_id"] "audit_log" ["id"]]
    [one_of "approvals_from_known" "from_state" kEntryStates; one_of "approvals_to_known" "to_state" kEntryStates] 0.

Definition exceptions : TableDef :=
  mkTableDef "exceptions"
    [col "id" TInteger false; col "kind" TText false; col "state" TText false; col "employee_id" TInteger true; col "device_id" TInteger true;
     col "entry_id" TInteger true; col "period_id" TInteger true; col "detail" TText true; col "opened_at" TTimestamp false;
     col "resolved_at" TTimestamp true; col "resolved_by" TText true; col "resolution_audit_id" TInteger true]
    ["id"]
    [index "exceptions_state" ["state"; "opened_at"] false; index "exceptions_employee" ["employee_id"] false;
     index "exceptions_device" ["device_id"] false; index "exceptions_entry" ["entry_id"] false; index "exceptions_period" ["period_id"] false;
     index "exceptions_audit" ["resolution_audit_id"] false]
    [fk "exceptions_employee_fk" ["employee_id"] "employees" ["id"]; fk "exceptions_device_fk" ["device_id"] "devices" ["id"];
     fk "exceptions_entry_fk" ["entry_id"] "time_entries" ["id"]; fk "exceptions_period_fk" ["period_id"] "pay_periods" ["id"];
     fk "exceptions_audit_fk" ["resolution_audit_id"] "audit_log" ["id"]]
    [
     one_of "exceptions_kind_known" "kind" ["outside_schedule"; "non_scheduled_day"; "no_schedule"; "long_shift"; "clock_divergence"; "device_attested_count"; "retry_exhausted"; "device_stale"; "approver_flag"; "unpaired_punch"; "employee_id_asserted"; "past_cutoff"; "journal_recovery"; "late_punch"; "entry_rejected"; "local_clock_mismatch"];
     one_of "exceptions_state_known" "state" ["open"; "resolved"; "dismissed"]] 0.

(** * Migration 2 *)

Definition schedule_hours : TableDef :=
  mkTableDef "schedule_hours"
    [col "id" TInteger false; col "employee_id" TInteger false; col "effective_from_day" TInteger false; col "effective_to_day" TInteger true;
     col "daily_minutes" TInteger false; col "weekly_minutes" TInteger false; col "set_by" TText false; col "audit_id" TInteger false]
    ["id"]
    [index "schedule_hours_employee" ["employee_id"; "effective_from_day"] false; index "schedule_hours_audit" ["audit_id"] false]
    [fk "schedule_hours_employee_fk" ["employee_id"] "employees" ["id"]; fk "schedule_hours_audit_fk" ["audit_id"] "audit_log" ["id"]]
    [at_least "schedule_hours_daily_min" "daily_minutes" 1; at_most "schedule_hours_daily_max" "daily_minutes" 1440;
     at_least "schedule_hours_weekly_min" "weekly_minutes" 1; at_most "schedule_hours_weekly_max" "weekly_minutes" 10080;
     column_at_or_after "schedule_hours_weekly_covers_daily" "weekly_minutes" "daily_minutes";
     column_after "schedule_hours_days_ordered" "effective_to_day" "effective_from_day"] 0.

Definition overtime_authorizations : TableDef :=
  mkTableDef "overtime_authorizations"
    [col "id" TInteger false; col "employee_id" TInteger false; col "period_id" TInteger false; col "authorized_minutes" TInteger false;
     col "note" TText false; col "authorized_by_tid" TText false; col "authorized_by_oid" TText false; col "authorized_at" TTimestamp false;
     col "audit_id" TInteger false]
    ["id"]
    [index "overtime_authorizations_timesheet" ["employee_id"; "period_id"; "id"] false; index "overtime_authorizations_period" ["period_id"] false;
     index "overtime_authorizations_audit" ["audit_id"] false]
    [fk "overtime_authorizations_employee_fk" ["employee_id"] "employees" ["id"];
     fk "overtime_authorizations_period_fk" ["period_id"] "pay_periods" ["id"]; fk "overtime_authorizations_audit_fk" ["audit_id"] "audit_log" ["id"]]
    [at_least "overtime_authorizations_minutes_min" "authorized_minutes" 0; non_empty "overtime_authorizations_tid_nonempty" "authorized_by_tid";
     non_empty "overtime_authorizations_oid_nonempty" "authorized_by_oid"] 0.

Definition timesheet_holds : TableDef :=
  mkTableDef "timesheet_holds"
    [col "id" TInteger false; col "employee_id" TInteger false; col "period_id" TInteger false; col "reason" TText false; col "detail" TText false;
     col "opened_at" TTimestamp false; col "cleared_at" TTimestamp true; col "authorization_id" TInteger true; col "audit_id" TInteger false]
    ["id"]
    [index "timesheet_holds_timesheet" ["employee_id"; "period_id"; "id"] false; index "timesheet_holds_period" ["period_id"; "cleared_at"] false;
     index "timesheet_holds_authorization" ["authorization_id"] false; index "timesheet_holds_audit" ["audit_id"] false]
    [fk "timesheet_holds_employee_fk" ["employee_id"] "employees" ["id"]; fk "timesheet_holds_period_fk" ["period_id"] "pay_periods" ["id"];
     fk "timesheet_holds_authorization_fk" ["authorization_id"] "overtime_authorizations" ["id"];
     fk "timesheet_holds_audit_fk" ["audit_id"] "audit_log" ["id"]]
    [one_of "timesheet_holds_reason_known" "reason" ["daily_hours"; "weekly_hours"]] 0.

Definition annotation_codes : TableDef :=
  mkTableDef "annotation_codes"
    [col "code" TText false; col "description" TText false; col "active" TBoolean false]
    ["code"]
    []
    []
    [non_empty "annotation_codes_code_nonempty" "code"] 0.

Definition shift_annotations : TableDef :=
  mkTableDef "shift_annotations"
    [col "id" TInteger false; col "shift_id" TInteger false; col "code" TText false; col "detail" TText false]
    ["id"]
    [index "shift_annotations_shift" ["shift_id"; "code"] true; index "shift_annotations_code" ["code"] false]
    [fk "shift_annotations_shift_fk" ["shift_id"] "shifts" ["id"]; fk "shift_annotations_code_fk" ["code"] "annotation_codes" ["code"]]
    [] 0.

Definition break_codes : TableDef :=
  mkTableDef "break_codes"
    [col "code" TText false; col "description" TText false; col "premium_eligible" TBoolean false; col "active" TBoolean false]
    ["code"]
    []
    []
    [non_empty "break_codes_code_nonempty" "code"] 0.

Definition break_premium_rules : TableDef :=
  mkTableDef "break_premium_rules"
    [col "id" TInteger false; col "break_code" TText false; col "threshold_minutes" TInteger false; col "comparison" TText false;
     col "definition" TText false; col "source" TText false; col "confirmed" TBoolean false; col "effective_from_day" TInteger false;
     col "effective_to_day" TInteger true; col "set_by" TText false; col "audit_id" TInteger false]
    ["id"]
    [index "break_premium_rules_code" ["break_code"; "effective_from_day"] false; index "break_premium_rules_audit" ["audit_id"] false]
    [fk "break_premium_rules_code_fk" ["break_code"] "break_codes" ["code"]; fk "break_premium_rules_audit_fk" ["audit_id"] "audit_log" ["id"]]
    [at_least "break_premium_rules_threshold_min" "threshold_minutes" 0;
     one_of "break_premium_rules_comparison_known" "comparison" ["greater_than"; "at_least"];
     non_empty "break_premium_rules_definition_nonempty" "definition"; non_empty "break_premium_rules_source_nonempty" "source";
     column_after "break_premium_rules_days_ordered" "effective_to_day" "effective_from_day"] 0.

Definition entry_break_codes : TableDef :=
  mkTableDef "entry_break_codes"
    [col "entry_id" TInteger false; col "break_code" TText false]
    ["entry_id"]
    [index "entry_break_codes_code" ["break_code"] false]
    [fk "entry_break_codes_entry_fk" ["entry_id"] "time_entries" ["id"]; fk "entry_break_codes_code_fk" ["break_code"] "break_codes" ["code"]]
    [] 0.

Definition meal_breaks : TableDef :=
  mkTableDef "meal_breaks"
    [col "id" TInteger false; col "employee_id" TInteger false; col "out_entry_id" TInteger false; col "in_entry_id" TInteger true;
     col "local_day" TInteger false; col "started_at" TTimestamp false; col "ended_at" TTimestamp true; col "minutes" TInteger true;
     col "premium" TBoolean false; col "premium_rule_id" TInteger true]
    ["id"]
    [index "meal_breaks_out" ["out_entry_id"] true; index "meal_breaks_employee" ["employee_id"; "local_day"] false;
     index "meal_breaks_in" ["in_entry_id"] false; index "meal_breaks_rule" ["premium_rule_id"] false]
    [fk "meal_breaks_employee_fk" ["employee_id"] "employees" ["id"]; fk "meal_breaks_out_fk" ["out_entry_id"] "time_entries" ["id"];
     fk "meal_breaks_in_fk" ["in_entry_id"] "time_entries" ["id"]; fk "meal_breaks_rule_fk" ["premium_rule_id"] "break_premium_rules" ["id"]]
    [at_least "meal_breaks_minutes_min" "minutes" 0] 0.

Definition entry_edits : TableDef :=
  mkTableDef "entry_edits"
    [col "id" TInteger false; col "entry_id" TInteger false; col "edit_class" TText false; col "reason_code" TText false; col "editor" TText false;
     col "edited_at" TTimestamp false; col "audit_id" TInteger false]
    ["id"]
    [index "entry_edits_entry" ["entry_id"] true; index "entry_edits_class" ["edit_class"; "edited_at"] false;
     index "entry_edits_audit" ["audit_id"] false]
    [fk "entry_edits_entry_fk" ["entry_id"] "time_entries" ["id"]; fk "entry_edits_audit_fk" ["audit_id"] "audit_log" ["id"]]
    [one_of "entry_edits_class_known" "edit_class" ["payroll"; "supervisor"]; non_empty "entry_edits_reason_code_nonempty" "reason_code"] 0.

(** * Steps *)

Section steps.
Context {W : Type} `{PageStore W}.
Variable fuel : nat.

Definition when_table (name problem : string) (m : WrM (W := W) unit) : WrM (W := W) unit :=
  let! w := getO in
  match StoreSchema.table (edited w) name with
  | None => lift (invalid_argument problem)
  | Some _ => m
  end.
Definition code_row (active : bool) (x : string * string) : Row := [text (fst x); text (snd x); Boolean true; Boolean active].
Fixpoint update_rows (table_ : string) (l : list Row) : WrM (W := W) unit :=
  match l with
  | [] => ret tt
  | r :: l => do! Store.update fuel table_ r in update_rows table_ l
  end.

Definition punch_apply_v1 : WrM (W := W) unit :=
  when_table "audit_log" "core schema must be applied first" (
    do! create_tables [employees; devices; pay_periods; supervisor_assignments; pay_codes; schedules; time_entries; shifts; sync_batches;
                       approvals; exceptions] in
    insert_rows fuel "pay_codes" (map (code_row true)
      [("regular", "Regular hours"); ("overtime", "Overtime"); ("double_time", "Double time"); ("pto", "Paid time off"); ("holiday", "Holiday")])).

Definition punch_apply_v2 : WrM (W := W) unit :=
  when_table "time_entries" "punchline migration 1 must be applied first" (
    do! create_tables [schedule_hours; overtime_authorizations; timesheet_holds; annotation_codes; shift_annotations; break_codes;
                       break_premium_rules; entry_break_codes; meal_breaks; entry_edits] in
    do! insert_rows fuel "annotation_codes" (map (fun x : string * string => [text (fst x); text (snd x); Boolean true]) [("L", "Late"); ("E", "Early")]) in
    do! Store.insert fuel "break_codes" [text "M"; text "Meal"; Boolean true; Boolean true] in
    do! insert_rows fuel "pay_codes" (map (code_row true) [("OT", "Overtime"); ("DT", "Double time")]) in
    update_rows "pay_codes" (map (code_row false) [("overtime", "Overtime"); ("double_time", "Double time")])).

Definition punch_migrations : list (Migration (W := W)) :=
  [mkMigration 1 "punchline_v1_schema" (Some punch_apply_v1); mkMigration 2 "punchline_v2_payroll_rules" (Some punch_apply_v2)].
End steps.

Definition v1_tables : list string :=
  ["employees"; "devices"; "pay_periods"; "supervisor_assignments"; "pay_codes"; "schedules"; "time_entries"; "shifts"; "sync_batches"; "approvals"; "exceptions"].
Definition v2_tables : list string :=
  ["schedule_hours"; "overtime_authorizations"; "timesheet_holds"; "annotation_codes"; "shift_annotations"; "break_codes"; "break_premium_rules"; "entry_break_codes"; "meal_breaks"; "entry_edits"].

(** * Recording policy *)

Definition extend_policy (p : RecordPolicy) : RecordPolicy :=
  fold_left (fun p x => allow (fst x) (snd x) p)
    [("employees", ["id"; "employee_number"; "display_name"; "email"; "tid"; "oid"; "active"; "pay_group"; "site_zone"; "created_at"; "updated_at"; "company"; "cost_center"]);
     ("devices", ["id"; "device_uuid"; "name"; "employee_id"; "enrolled_at"; "enrolled_by"; "revoked_at"; "revoked_reason"; "last_seen_at"; "last_acked_sequence"; "last_journal_id"; "employee_id_rejections"]);
     ("pay_periods", ["id"; "start_day"; "end_day"; "site_zone"; "tzdb_version"; "state"; "submit_by"; "approve_by"; "release_at"]);
     ("supervisor_assignments", ["id"; "employee_id"; "supervisor_employee_id"; "effective_from"; "effective_to"; "assigned_by"; "audit_id"]);
     ("pay_codes", ["code"; "description"; "paid"; "active"]);
     ("schedules", ["id"; "employee_id"; "weekday"; "start_minute"; "end_minute"; "effective_from_day"; "effective_to_day"]);
     ("time_entries", ["id"; "entry_uuid"; "employee_id"; "device_id"; "journal_id"; "journal_sequence"; "kind"; "device_time"; "local_time"; "site_zone"; "tzdb_version"; "receipt_time"; "attestation"; "clock_divergence_us"; "period_id"; "state"; "pay_code"; "approval_audit_id"; "correction_of"; "created_at"; "superseded_by"]);
     ("shifts", ["id"; "employee_id"; "device_id"; "in_entry_id"; "out_entry_id"; "local_day"; "period_id"; "in_time"; "out_time"; "duration_us"; "pay_code"; "state"]);
     ("sync_batches", ["id"; "batch_uuid"; "device_id"; "received_at"; "first_sequence"; "last_sequence"; "accepted"; "rejected"; "client_time_us"; "clock_divergence_us"; "journal_id"]);
     ("approvals", ["id"; "period_id"; "employee_id"; "from_state"; "to_state"; "acted_by_tid"; "acted_by_oid"; "acted_by_account"; "acted_at"; "audit_id"]);
     ("exceptions", ["id"; "kind"; "state"; "employee_id"; "device_id"; "entry_id"; "period_id"; "opened_at"; "resolved_at"; "resolved_by"; "resolution_audit_id"]);
     ("schedule_hours", ["id"; "employee_id"; "effective_from_day"; "effective_to_day"; "daily_minutes"; "weekly_minutes"; "set_by"; "audit_id"]);
     ("overtime_authorizations", ["id"; "employee_id"; "period_id"; "authorized_minutes"; "authorized_by_tid"; "authorized_by_oid"; "authorized_at"; "audit_id"]);
     ("timesheet_holds", ["id"; "employee_id"; "period_id"; "reason"; "opened_at"; "cleared_at"; "authorization_id"; "audit_id"]);
     ("annotation_codes", ["code"; "description"; "active"]);
     ("shift_annotations", ["id"; "shift_id"; "code"]);
     ("break_codes", ["code"; "description"; "premium_eligible"; "active"]);
     ("break_premium_rules", ["id"; "break_code"; "threshold_minutes"; "comparison"; "confirmed"; "effective_from_day"; "effective_to_day"; "set_by"; "audit_id"]);
     ("entry_break_codes", ["entry_id"; "break_code"]);
     ("meal_breaks", ["id"; "employee_id"; "out_entry_id"; "in_entry_id"; "local_day"; "started_at"; "ended_at"; "minutes"; "premium"; "premium_rule_id"]);
     ("entry_edits", ["id"; "entry_id"; "edit_class"; "reason_code"; "editor"; "edited_at"; "audit_id"])] p.
