(* ===== verification/PunchInstall.v ===== *)
(** The migrations, run on an empty store held in memory. *)

From stdpp Require Import base numbers list gmap strings.
From S2P Require Import Prelude Bytes PageFormat Types Record StoreSchema BTree BTreeFindings Store StoreSpec StoreReads StoreIntegrity CoreSchema Recorder PunchSchema.
From stdpp Require Import list.
Open Scope Z_scope.

(** * Checking a catalog *)

Definition is_ret {A} (r : Result A) : bool := match r with Ret _ => true | Err _ => false end.
Definition catalog_check (cat : Catalog) : bool :=
  forallb (fun x => String.eqb (td_name (snd x)) (fst x)) (tables cat)
  && bool_decide (NoDup (map fst (tables cat)))
  && forallb (fun x => is_ret (validate_table_def cat (snd x))) (tables cat)
  && bool_decide (NoDup (all_roots cat)).
Lemma catalog_check_ok cat : catalog_check cat = true -> catalog_ok cat.
Proof.
  unfold catalog_check. rewrite !andb_true_iff, !bool_decide_eq_true, !forallb_forall. intros [[[Hn Hd] Hv] Hr]. constructor; [|done| |done].
  - apply Forall_forall. intros x Hx. apply String.eqb_eq, Hn. by apply list_elem_of_In.
  - apply Forall_forall. intros x Hx. specialize (Hv x ltac:(by apply list_elem_of_In)). by destruct (validate_table_def cat (snd x)) as [[]|].
Qed.
Definition self_refs_check (cat : Catalog) : bool :=
  forallb (fun x => forallb (fun k => negb (String.eqb (fk_ref_table k) (td_name (snd x))) || bool_decide (fk_ref_columns k = td_primary_key (snd x)))
    (td_foreign_keys (snd x))) (tables cat).
Lemma self_refs_check_ok cat : self_refs_check cat = true -> Forall (fun x => self_refs_by_key (snd x)) (tables cat).
Proof.
  unfold self_refs_check. rewrite forallb_forall. intros Hc. apply Forall_forall. intros x Hx k Hk E.
  specialize (Hc x ltac:(by apply list_elem_of_In)). rewrite forallb_forall in Hc. specialize (Hc k ltac:(by apply list_elem_of_In)).
  rewrite E, String.eqb_refl in Hc. cbn [negb orb] in Hc. by apply bool_decide_eq_true in Hc.
Qed.

(** * Installing *)

Definition install_fuel : nat := 200.
Fixpoint migrate_all (module : string) (now_us : Z) (l : list (Migration (W := Mem))) : WrM (W := Mem) unit :=
  match l with
  | [] => ret tt
  | m :: l => do! migrate_step install_fuel module now_us m in migrate_all module now_us l
  end.
(** The catalog's tree, then the core's steps and Punchline's. *)
Definition install : WrM (W := Mem) unit :=
  let! _ := onw create in
  do! migrate_all "archivum" 1 (migrations install_fuel) in
  migrate_all "punchline" 1 (punch_migrations install_fuel).
Definition installed : Result unit * (Writer * Mem) := install (mkWriter (mkCatalog 0 []) false false, mkMem ∅ 1).
Definition installed_catalog : Catalog := edited (fst (snd installed)).

(** [C29] The schema installs.  The lists of migrations are well formed; run on an
    empty store they succeed; the catalog then has the tables of both
    modules, four steps are counted, and loading the catalog from its pages
    gives the same catalog.  It is a catalog on which the row operations keep
    integrity: valid definitions, distinct names and trees, and references of
    a table to itself by the primary key only. *)
Theorem schema_installs :
  validate_migrations (migrations (W := Mem) install_fuel) = Ret tt
  /\ validate_migrations (punch_migrations (W := Mem) install_fuel) = Ret tt
  /\ fst installed = Ret tt
  /\ Forall (fun n => is_Some (StoreSchema.table installed_catalog n))
       (kMigrationsTable :: kAuditLog :: kChangeFeed :: kRoleGrants :: kDatasetGrants :: kLocalAccounts :: v1_tables ++ v2_tables)
  /\ schema_version installed_catalog = 4
  /\ fst (load_catalog install_fuel (snd (snd installed))) = Ret installed_catalog
  /\ catalog_ok installed_catalog
  /\ Forall (fun x => self_refs_by_key (snd x)) (tables installed_catalog).
Proof.
  split_and!; [vm_compute; reflexivity..|decide_now|vm_compute; reflexivity|vm_compute; reflexivity|apply catalog_check_ok|apply self_refs_check_ok];
    vm_compute; reflexivity.
Qed.
