(* ===== verification/PunchData.v ===== *)
(** Typed access to the Punchline tables (modules/punchline/include/archivum/
    punchline/data.h, modules/punchline/src/data.cpp).

    A struct of the code is a record here, its fields with the prefix of the
    record; [RowCodec] is its [to_row] and [from_row].  The queries are
    programs over the store.  [std::sort] is a merge sort: where the code
    compares by a key that two elements may share, their order is the one a
    stable sort gives. *)

From stdpp Require Import base numbers list gmap strings sorting.
From S2P Require Import Prelude Bytes PageFormat Types Record StoreSchema Store StoreRep StoreSpec LocalTime CoreSchema Program Recorder.
From stdpp Require Import list.
Open Scope Z_scope.
Open Scope prog_scope.

Definition opt_ts (t : Z) : Value := if t =? 0 then Null else Timestamp t.
Definition opt_id (t : Z) : Value := if t =? 0 then Null else Integer t.
Definition opt_int (v : option Z) : Value := match v with Some v => Integer v | None => Null end.
Definition opt_uuid (u : option Bytes) : Value := match u with Some u => Uuid u | None => Null end.
Definition text_or_empty (v : Value) : string := if is_null v then "" else as_text v.
Definition int_or_zero (v : Value) : Z := if is_null v then 0 else as_int64 v.
Definition int_opt (v : Value) : option Z := if is_null v then None else Some (as_int64 v).
Definition uuid_opt (v : Value) : option Bytes := if is_null v then None else Some (as_uuid v).
(** [x < 0 ? null : integer(x)] and back, where -1 stands for none. *)
Definition opt_nonneg (x : Z) : Value := if x <? 0 then Null else Integer x.
Definition int_or_minus_one (v : Value) : Z := if is_null v then -1 else as_int64 v.

Class RowCodec (T : Type) := { to_row : T -> Row; from_row : Row -> T }.

(** * Structs *)

Record Employee := mkEmployee {
  emp_id : Z; emp_employee_number : string; emp_display_name : string; emp_email : string; emp_tid : string; emp_oid : string; emp_active : bool;
  emp_pay_group : string; emp_site_zone : string; emp_created_at : Z; emp_updated_at : Z; emp_company : string; emp_cost_center : string
}.
Definition emp_to_row (x : Employee) : Row :=
  [Integer (emp_id x); text (emp_employee_number x); text (emp_display_name x); opt_text (emp_email x); opt_text (emp_tid x); opt_text (emp_oid x);
  Boolean (emp_active x); opt_text (emp_pay_group x); text (emp_site_zone x); Timestamp (emp_created_at x); Timestamp (emp_updated_at x);
  opt_text (emp_company x); opt_text (emp_cost_center x)].
Definition emp_from_row (r : Row) : Employee :=
  mkEmployee
    (as_int64 (at_ r 0)) (as_text (at_ r 1)) (as_text (at_ r 2)) (text_or_empty (at_ r 3)) (text_or_empty (at_ r 4)) (text_or_empty (at_ r 5))
    (as_bool (at_ r 6)) (text_or_empty (at_ r 7)) (as_text (at_ r 8)) (as_int64 (at_ r 9)) (as_int64 (at_ r 10)) (text_or_empty (at_ r 11))
    (text_or_empty (at_ r 12)).
#[export] Instance emp_codec : RowCodec Employee := {| to_row := emp_to_row; from_row := emp_from_row |}.

Record Device := mkDevice {
  dev_id : Z; dev_device_uuid : Bytes; dev_name : string; dev_employee_id : Z; dev_credential_hash : Bytes; dev_enrolled_at : Z;
  dev_enrolled_by : string; dev_revoked_at : Z; dev_revoked_reason : string; dev_last_seen_at : Z; dev_last_acked_sequence : Z;
  dev_last_journal_id : option Bytes; dev_employee_id_rejections : Z
}.
Definition dev_to_row (x : Device) : Row :=
  [Integer (dev_id x); Uuid (dev_device_uuid x); text (dev_name x); Integer (dev_employee_id x); Blob (dev_credential_hash x);
  Timestamp (dev_enrolled_at x); text (dev_enrolled_by x); opt_ts (dev_revoked_at x); opt_text (dev_revoked_reason x); opt_ts (dev_last_seen_at x);
  opt_nonneg (dev_last_acked_sequence x); opt_uuid (dev_last_journal_id x); Integer (dev_employee_id_rejections x)].
Definition dev_from_row (r : Row) : Device :=
  mkDevice
    (as_int64 (at_ r 0)) (as_uuid (at_ r 1)) (as_text (at_ r 2)) (as_int64 (at_ r 3)) (as_blob (at_ r 4)) (as_int64 (at_ r 5)) (as_text (at_ r 6))
    (int_or_zero (at_ r 7)) (text_or_empty (at_ r 8)) (int_or_zero (at_ r 9)) (int_or_minus_one (at_ r 10)) (uuid_opt (at_ r 11))
    (as_int64 (at_ r 12)).
#[export] Instance dev_codec : RowCodec Device := {| to_row := dev_to_row; from_row := dev_from_row |}.

Record PayPeriod := mkPayPeriod {
  pp_id : Z; pp_start_day : Z; pp_end_day : Z; pp_site_zone : string; pp_tzdb_version : string; pp_state : string; pp_submit_by : Z;
  pp_approve_by : Z; pp_release_at : Z
}.
Definition pp_to_row (x : PayPeriod) : Row :=
  [Integer (pp_id x); Integer (pp_start_day x); Integer (pp_end_day x); text (pp_site_zone x); text (pp_tzdb_version x); text (pp_state x);
  opt_ts (pp_submit_by x); opt_ts (pp_approve_by x); opt_ts (pp_release_at x)].
Definition pp_from_row (r : Row) : PayPeriod :=
  mkPayPeriod
    (as_int64 (at_ r 0)) (as_int64 (at_ r 1)) (as_int64 (at_ r 2)) (as_text (at_ r 3)) (as_text (at_ r 4)) (as_text (at_ r 5))
    (int_or_zero (at_ r 6)) (int_or_zero (at_ r 7)) (int_or_zero (at_ r 8)).
#[export] Instance pp_codec : RowCodec PayPeriod := {| to_row := pp_to_row; from_row := pp_from_row |}.

Record SupervisorAssignment := mkSupervisorAssignment {
  sa_id : Z; sa_employee_id : Z; sa_supervisor_employee_id : Z; sa_effective_from : Z; sa_effective_to : Z; sa_assigned_by : string; sa_audit_id : Z
}.
Definition sa_to_row (x : SupervisorAssignment) : Row :=
  [Integer (sa_id x); Integer (sa_employee_id x); Integer (sa_supervisor_employee_id x); Timestamp (sa_effective_from x); opt_ts (sa_effective_to x);
  text (sa_assigned_by x); Integer (sa_audit_id x)].
Definition sa_from_row (r : Row) : SupervisorAssignment :=
  mkSupervisorAssignment
    (as_int64 (at_ r 0)) (as_int64 (at_ r 1)) (as_int64 (at_ r 2)) (as_int64 (at_ r 3)) (int_or_zero (at_ r 4)) (as_text (at_ r 5))
    (as_int64 (at_ r 6)).
#[export] Instance sa_codec : RowCodec SupervisorAssignment := {| to_row := sa_to_row; from_row := sa_from_row |}.

Record Schedule := mkSchedule {
  sc_id : Z; sc_employee_id : Z; sc_weekday : Z; sc_start_minute : Z; sc_end_minute : Z; sc_effective_from_day : Z; sc_effective_to_day : Z
}.
Definition sc_to_row (x : Schedule) : Row :=
  [Integer (sc_id x); Integer (sc_employee_id x); Integer (sc_weekday x); Integer (sc_start_minute x); Integer (sc_end_minute x);
  Integer (sc_effective_from_day x); opt_id (sc_effective_to_day x)].
Definition sc_from_row (r : Row) : Schedule :=
  mkSchedule
    (as_int64 (at_ r 0)) (as_int64 (at_ r 1)) (to_int (as_int64 (at_ r 2))) (to_int (as_int64 (at_ r 3))) (to_int (as_int64 (at_ r 4)))
    (as_int64 (at_ r 5)) (int_or_zero (at_ r 6)).
#[export] Instance sc_codec : RowCodec Schedule := {| to_row := sc_to_row; from_row := sc_from_row |}.

Record TimeEntry := mkTimeEntry {
  te_id : Z; te_entry_uuid : Bytes; te_employee_id : Z; te_device_id : Z; te_journal_id : option Bytes; te_journal_sequence : Z; te_kind : string;
  te_device_time : Z; te_local_time : string; te_site_zone : string; te_tzdb_version : string; te_receipt_time : Z; te_attestation : string;
  te_clock_divergence_us : option Z; te_period_id : Z; te_state : string; te_pay_code : string; te_approval_audit_id : Z; te_correction_of : Z;
  te_correction_reason : string; te_created_at : Z; te_note : string; te_superseded_by : Z
}.
Definition te_to_row (x : TimeEntry) : Row :=
  [Integer (te_id x); Uuid (te_entry_uuid x); Integer (te_employee_id x); Integer (te_device_id x); opt_uuid (te_journal_id x);
  Integer (te_journal_sequence x); text (te_kind x); Timestamp (te_device_time x); text (te_local_time x); text (te_site_zone x);
  text (te_tzdb_version x); Timestamp (te_receipt_time x); text (te_attestation x); opt_int (te_clock_divergence_us x); opt_id (te_period_id x);
  text (te_state x); opt_text (te_pay_code x); opt_id (te_approval_audit_id x); opt_id (te_correction_of x); opt_text (te_correction_reason x);
  Timestamp (te_created_at x); opt_text (te_note x); opt_id (te_superseded_by x)].
Definition te_from_row (r : Row) : TimeEntry :=
  mkTimeEntry
    (as_int64 (at_ r 0)) (as_uuid (at_ r 1)) (as_int64 (at_ r 2)) (as_int64 (at_ r 3)) (uuid_opt (at_ r 4)) (as_int64 (at_ r 5)) (as_text (at_ r 6))
    (as_int64 (at_ r 7)) (as_text (at_ r 8)) (as_text (at_ r 9)) (as_text (at_ r 10)) (as_int64 (at_ r 11)) (as_text (at_ r 12)) (int_opt (at_ r 13))
    (int_or_zero (at_ r 14)) (as_text (at_ r 15)) (text_or_empty (at_ r 16)) (int_or_zero (at_ r 17)) (int_or_zero (at_ r 18))
    (text_or_empty (at_ r 19)) (as_int64 (at_ r 20)) (text_or_empty (at_ r 21)) (int_or_zero (at_ r 22)).
#[export] Instance te_codec : RowCodec TimeEntry := {| to_row := te_to_row; from_row := te_from_row |}.

Record Shift := mkShift {
  sh_id : Z; sh_employee_id : Z; sh_device_id : Z; sh_in_entry_id : Z; sh_out_entry_id : Z; sh_local_day : Z; sh_period_id : Z; sh_in_time : Z;
  sh_out_time : Z; sh_duration_us : option Z; sh_pay_code : string; sh_state : string
}.
Definition sh_to_row (x : Shift) : Row :=
  [Integer (sh_id x); Integer (sh_employee_id x); Integer (sh_device_id x); Integer (sh_in_entry_id x); opt_id (sh_out_entry_id x);
  Integer (sh_local_day x); opt_id (sh_period_id x); Timestamp (sh_in_time x); opt_ts (sh_out_time x); opt_int (sh_duration_us x);
  opt_text (sh_pay_code x); text (sh_state x)].
Definition sh_from_row (r : Row) : Shift :=
  mkShift
    (as_int64 (at_ r 0)) (as_int64 (at_ r 1)) (as_int64 (at_ r 2)) (as_int64 (at_ r 3)) (int_or_zero (at_ r 4)) (as_int64 (at_ r 5))
    (int_or_zero (at_ r 6)) (as_int64 (at_ r 7)) (int_or_zero (at_ r 8)) (int_opt (at_ r 9)) (text_or_empty (at_ r 10)) (as_text (at_ r 11)).
#[export] Instance sh_codec : RowCodec Shift := {| to_row := sh_to_row; from_row := sh_from_row |}.

Record SyncBatch := mkSyncBatch {
  sb_id : Z; sb_batch_uuid : Bytes; sb_device_id : Z; sb_received_at : Z; sb_first_sequence : Z; sb_last_sequence : Z; sb_accepted : Z;
  sb_rejected : Z; sb_client_time_us : Z; sb_clock_divergence_us : option Z; sb_journal_id : option Bytes
}.
Definition sb_to_row (x : SyncBatch) : Row :=
  [Integer (sb_id x); Uuid (sb_batch_uuid x); Integer (sb_device_id x); Timestamp (sb_received_at x); Integer (sb_first_sequence x);
  Integer (sb_last_sequence x); Integer (sb_accepted x); Integer (sb_rejected x); opt_ts (sb_client_time_us x); opt_int (sb_clock_divergence_us x);
  opt_uuid (sb_journal_id x)].
Definition sb_from_row (r : Row) : SyncBatch :=
  mkSyncBatch
    (as_int64 (at_ r 0)) (as_uuid (at_ r 1)) (as_int64 (at_ r 2)) (as_int64 (at_ r 3)) (as_int64 (at_ r 4)) (as_int64 (at_ r 5)) (as_int64 (at_ r 6))
    (as_int64 (at_ r 7)) (int_or_zero (at_ r 8)) (int_opt (at_ r 9)) (uuid_opt (at_ r 10)).
#[export] Instance sb_codec : RowCodec SyncBatch := {| to_row := sb_to_row; from_row := sb_from_row |}.

Record Approval := mkApproval {
  ap_id : Z; ap_period_id : Z; ap_employee_id : Z; ap_from_state : string; ap_to_state : string; ap_acted_by_tid : string; ap_acted_by_oid : string;
  ap_acted_by_account : string; ap_acted_at : Z; ap_note : string; ap_audit_id : Z
}.
Definition ap_to_row (x : Approval) : Row :=
  [Integer (ap_id x); Integer (ap_period_id x); Integer (ap_employee_id x); text (ap_from_state x); text (ap_to_state x);
  opt_text (ap_acted_by_tid x); opt_text (ap_acted_by_oid x); opt_text (ap_acted_by_account x); Timestamp (ap_acted_at x); opt_text (ap_note x);
  Integer (ap_audit_id x)].
Definition ap_from_row (r : Row) : Approval :=
  mkApproval
    (as_int64 (at_ r 0)) (as_int64 (at_ r 1)) (as_int64 (at_ r 2)) (as_text (at_ r 3)) (as_text (at_ r 4)) (text_or_empty (at_ r 5))
    (text_or_empty (at_ r 6)) (text_or_empty (at_ r 7)) (as_int64 (at_ r 8)) (text_or_empty (at_ r 9)) (as_int64 (at_ r 10)).
#[export] Instance ap_codec : RowCodec Approval := {| to_row := ap_to_row; from_row := ap_from_row |}.

Record Exception := mkException {
  ex_id : Z; ex_kind : string; ex_state : string; ex_employee_id : Z; ex_device_id : Z; ex_entry_id : Z; ex_period_id : Z; ex_detail : string;
  ex_opened_at : Z; ex_resolved_at : Z; ex_resolved_by : string; ex_resolution_audit_id : Z
}.
Definition ex_to_row (x : Exception) : Row :=
  [Integer (ex_id x); text (ex_kind x); text (ex_state x); opt_id (ex_employee_id x); opt_id (ex_device_id x); opt_id (ex_entry_id x);
  opt_id (ex_period_id x); opt_text (ex_detail x); Timestamp (ex_opened_at x); opt_ts (ex_resolved_at x); opt_text (ex_resolved_by x);
  opt_id (ex_resolution_audit_id x)].
Definition ex_from_row (r : Row) : Exception :=
  mkException
    (as_int64 (at_ r 0)) (as_text (at_ r 1)) (as_text (at_ r 2)) (int_or_zero (at_ r 3)) (int_or_zero (at_ r 4)) (int_or_zero (at_ r 5))
    (int_or_zero (at_ r 6)) (text_or_empty (at_ r 7)) (as_int64 (at_ r 8)) (int_or_zero (at_ r 9)) (text_or_empty (at_ r 10))
    (int_or_zero (at_ r 11)).
#[export] Instance ex_codec : RowCodec Exception := {| to_row := ex_to_row; from_row := ex_from_row |}.

(** * Queries *)

Definition eq_bound (values : Row) : option Bound := Some (mkBound values true).
Definition scan_eq (table_ index_ : string) (values : Row) : Prog (list Row) := pscan_all table_ index_ (eq_bound values) (eq_bound values).

Section helpers.
Context {T : Type} `{RowCodec T}.
Definition first (p : Prog (list Row)) : Prog (option T) :=
  let* rows := p in pret (from_row <$> head rows).
Definition by_pk (table_ : string) (id : Z) : Prog (option T) :=
  let* row := pget table_ [Integer id] in pret (from_row <$> row).
Definition all (p : Prog (list Row)) : Prog (list T) :=
  let* rows := p in pret (map from_row rows).
End helpers.

Definition employee_by_id (id : Z) : Prog (option Employee) := by_pk "employees" id.
Definition employee_by_number (number : string) : Prog (option Employee) := first (scan_eq "employees" "employees_number" [text number]).
Definition employee_by_identity (tid oid : string) : Prog (option Employee) :=
  if String.eqb tid "" || String.eqb oid "" then pret None
  else first (scan_eq "employees" "employees_identity" [text tid; text oid]).
Definition device_by_uuid (uuid : Bytes) : Prog (option Device) := first (scan_eq "devices" "devices_uuid" [Uuid uuid]).
Definition device_by_id (id : Z) : Prog (option Device) := by_pk "devices" id.
Definition period_by_id (id : Z) : Prog (option PayPeriod) := by_pk "pay_periods" id.
Definition period_for_day (local_day : Z) : Prog (option PayPeriod) :=
  pscan "pay_periods" "pay_periods_start" None (eq_bound [Integer local_day]) true
    (fun row found => let p : PayPeriod := from_row row in (false, if local_day <=? pp_end_day p then Some p else found)) None.
Definition entry_by_id (id : Z) : Prog (option TimeEntry) := by_pk "time_entries" id.
Definition entry_by_uuid (uuid : Bytes) : Prog (option TimeEntry) := first (scan_eq "time_entries" "time_entries_uuid" [Uuid uuid]).
Definition shift_by_id (id : Z) : Prog (option Shift) := by_pk "shifts" id.
Definition batch_by_uuid (uuid : Bytes) : Prog (option SyncBatch) := first (scan_eq "sync_batches" "sync_batches_uuid" [Uuid uuid]).
Definition exception_by_id (id : Z) : Prog (option Exception) := by_pk "exceptions" id.

Definition entries_of (employee_id from_us to_us : Z) : Prog (list TimeEntry) :=
  pscan "time_entries" "time_entries_employee_time" (eq_bound [Integer employee_id; Timestamp from_us]) (eq_bound [Integer employee_id; Timestamp to_us]) false
    (fun row out => let e : TimeEntry := from_row row in (true, if te_device_time e <? to_us then out ++ [e] else out)) [].

Definition entry_before (a b : TimeEntry) : Prop :=
  if te_device_time a =? te_device_time b then te_id a <= te_id b else te_device_time a < te_device_time b.
#[export] Instance entry_before_dec : RelDecision entry_before.
Proof. intros a b. unfold entry_before. destruct (te_device_time a =? te_device_time b); apply _. Defined.
Definition entries_in_period (period_id employee_id : Z) : Prog (list TimeEntry) :=
  let* rows := all (scan_eq "time_entries" "time_entries_period" [Integer period_id; Integer employee_id]) in
  pret (merge_sort entry_before rows).

Definition shift_before (a b : Shift) : Prop := sh_in_time a <= sh_in_time b.
#[export] Instance shift_before_dec : RelDecision shift_before.
Proof. intros a b. unfold shift_before. apply _. Defined.
Definition shifts_in_period (period_id employee_id : Z) : Prog (list Shift) :=
  let* rows := all (scan_eq "shifts" "shifts_period" [Integer period_id; Integer employee_id]) in
  pret (merge_sort shift_before rows).

Definition later_open (row : Row) (latest : option Shift) : bool * option Shift :=
  let sh : Shift := from_row row in
  (true, if (sh_out_entry_id sh =? 0) && match latest with None => true | Some l => sh_in_time l <? sh_in_time sh end then Some sh else latest).
Fixpoint open_shift_in (employee_id : Z) (states : list string) (latest : option Shift) : Prog (option Shift) :=
  match states with
  | [] => pret latest
  | state :: states =>
      let* latest := pscan "shifts" "shifts_employee_state" (eq_bound [Integer employee_id; text state]) (eq_bound [Integer employee_id; text state]) false
        later_open latest in
      open_shift_in employee_id states latest
  end.
Definition open_shift_of (employee_id : Z) : Prog (option Shift) :=
  open_shift_in employee_id ["recorded"; "submitted"; "approved"; "released"; "locked"] None.

Definition schedules_of (employee_id : Z) : Prog (list Schedule) := all (scan_eq "schedules" "schedules_employee" [Integer employee_id]).
Definition assignments_of (employee_id : Z) : Prog (list SupervisorAssignment) :=
  all (scan_eq "supervisor_assignments" "supervisor_assignments_employee" [Integer employee_id]).

(** [std::unique] on a sorted vector. *)
Fixpoint unique_ids (l : list Z) : list Z :=
  match l with
  | x :: ((y :: _) as l') => if x =? y then unique_ids l' else x :: unique_ids l'
  | _ => l
  end.
Definition reports_of (supervisor_employee_id at_us : Z) : Prog (list Z) :=
  let* out := pscan "supervisor_assignments" "supervisor_assignments_supervisor" (eq_bound [Integer supervisor_employee_id])
    (eq_bound [Integer supervisor_employee_id]) false
    (fun row out => let a : SupervisorAssignment := from_row row in
       (true, if (sa_effective_from a <=? at_us) && ((sa_effective_to a =? 0) || (at_us <? sa_effective_to a)) then out ++ [sa_employee_id a] else out)) [] in
  pret (unique_ids (merge_sort Z.le out)).
