(* ===== verification/PunchRules.v ===== *)
(** Rules the engine's constraints cannot express, and the exception queue
    (modules/punchline/src/rules.cpp, modules/punchline/src/exceptions.cpp). *)

From stdpp Require Import base numbers list gmap strings.
From S2P Require Import Prelude Bytes PageFormat Types Record StoreSchema Store StoreRep StoreSpec CoreSchema Program Recorder PunchData.
From stdpp Require Import list.
Open Scope Z_scope.
Open Scope prog_scope.

(** * Rules *)

Definition pguard (b : bool) (r : Result unit) : Prog unit := if b then PRet r else pret tt.

(** PL-1. *)
Definition one_active_device (employee_id except_device : Z) : Prog unit :=
  let* active := pscan "devices" "devices_employee" (eq_bound [Integer employee_id]) (eq_bound [Integer employee_id]) false
    (fun r active => if as_int64 (at_ r 0) =? except_device then (true, active)
                     else if is_null (at_ r 7) then (false, true) else (true, active)) false in
  pguard active (constraint "PL-1: employee already has an active device").

(** PL-2: what the scan looks at in a row, and whether two ranges are apart. *)
Definition range_end (r : Row) : Z := if is_null (at_ r 4) then 0 else as_int64 (at_ r 4).
Definition apart (effective_from effective_to from to : Z) : bool :=
  (negb (effective_to =? 0) && (effective_to <=? from)) || (negb (to =? 0) && (to <=? effective_from)).
Definition supervisor_assignment_valid (employee_id supervisor_employee_id effective_from effective_to except_assignment : Z) : Prog unit :=
  if employee_id =? supervisor_employee_id then PRet (constraint "PL-2: an employee cannot supervise themself")
  else if negb (effective_to =? 0) && (effective_to <=? effective_from) then PRet (constraint "PL-2: effective_to must be after effective_from")
  else
    let* overlap := pscan "supervisor_assignments" "supervisor_assignments_employee" (eq_bound [Integer employee_id]) (eq_bound [Integer employee_id]) false
      (fun r overlap => if as_int64 (at_ r 0) =? except_assignment then (true, overlap)
                        else if negb (apart effective_from effective_to (as_int64 (at_ r 3)) (range_end r)) then (false, true) else (true, overlap)) false in
    pguard overlap (constraint "PL-2: overlaps another assignment of this employee").

Definition in_force (from to at_us : Z) : bool := (from <=? at_us) && ((to =? 0) || (at_us <? to)).
Definition supervisor_at (employee_id at_us : Z) : Prog (option Z) :=
  pscan "supervisor_assignments" "supervisor_assignments_employee" (eq_bound [Integer employee_id]) (eq_bound [Integer employee_id]) false
    (fun r found => if in_force (as_int64 (at_ r 3)) (range_end r) at_us then (false, Some (as_int64 (at_ r 2))) else (true, found)) None.

(** PL-3. *)
Definition entry_period_valid (local_day period_id : Z) : Prog unit :=
  if period_id =? 0 then pret tt
  else
    let* p := period_by_id period_id in
    match p with
    | None => PRet (constraint "PL-3: no such pay period")
    | Some p => pguard ((local_day <? pp_start_day p) || (pp_end_day p <? local_day)) (constraint "PL-3: entry's local day is outside its pay period")
    end.

(** PL-4. *)
Definition correction_valid (original_entry_id employee_id : Z) (reason : string) : Prog unit :=
  if String.eqb reason "" then PRet (constraint "PL-4: a correction needs a reason")
  else
    let* e := entry_by_id original_entry_id in
    match e with
    | None => PRet (constraint "PL-4: no such entry to correct")
    | Some e => pguard (negb (te_employee_id e =? employee_id)) (constraint "PL-4: a correction must be of the same employee's entry")
    end.

(** PL-5. *)
Definition device_attested_valid (device_id receipt_time_us : Z) : Prog unit :=
  let* d := device_by_id device_id in
  match d with
  | None => PRet (constraint "PL-5: no such device")
  | Some d => pguard (negb (dev_revoked_at d =? 0) && (dev_revoked_at d <=? receipt_time_us)) (constraint "PL-5: device was revoked before the entry was received")
  end.

(** PL-6. *)
Definition pair_out (open : Shift) (out_punch : TimeEntry) : Result unit :=
  if negb (String.eqb (te_kind out_punch) "out") then constraint "PL-6: not an out punch"
  else if negb (te_employee_id out_punch =? sh_employee_id open) then constraint "PL-6: out punch is another employee's"
  else if negb (te_device_id out_punch =? sh_device_id open) then constraint "PL-6: out punch is from another device"
  else if te_device_time out_punch <=? sh_in_time open then constraint "PL-6: out punch is not after the in punch"
  else Ret tt.

(** PL-7. *)
Definition next_state (from : string) : string :=
  if String.eqb from "recorded" then "submitted"
  else if String.eqb from "submitted" then "approved"
  else if String.eqb from "approved" then "released"
  else if String.eqb from "released" then "locked"
  else "".

Record Standing := mkStanding { roles : gset string; st_employee_id : option Z; override_reason : string }.
Definition holds (who : Standing) (role : string) : bool := bool_decide (role ∈ roles who).

(** Whether the caller is the supervisor in force. *)
Definition supervises (employee_id acted_at : Z) (who : Standing) : Prog bool :=
  match st_employee_id who with
  | Some me => if holds who "supervisor" then let* sup := supervisor_at employee_id acted_at in pret (bool_decide (sup = Some me)) else pret false
  | None => pret false
  end.
Definition transition_allowed (employee_id : Z) (from to : string) (who : Standing) (acted_at : Z) : Prog unit :=
  if negb (String.eqb (next_state from) to) || String.eqb to "" then
    PRet (constraint ("PL-7: transition " +:+ from +:+ " -> " +:+ to +:+ " is out of order"))
  else if String.eqb to "submitted" then
    if bool_decide (st_employee_id who = Some employee_id) then pret tt
    else if holds who "payroll" then pret tt
    else
      let* sup := supervises employee_id acted_at who in
      pguard (negb sup) (constraint "PL-7: only the employee, their supervisor, or payroll may submit")
  else if String.eqb to "approved" then
    let* sup := supervises employee_id acted_at who in
    if (sup : bool) then pret tt
    else if holds who "payroll" then
      pguard (String.eqb (override_reason who) "") (constraint "PL-7: payroll approving in place of the supervisor needs an override reason")
    else PRet (constraint "PL-7: only the supervisor in force at the time of the action may approve")
  else if String.eqb to "released" then
    pguard (negb (holds who "payroll")) (constraint "PL-7: only payroll may release")
  else if String.eqb to "locked" then
    pguard (negb (holds who "payroll" || holds who "admin")) (constraint "PL-7: only payroll or admin may lock")
  else PRet (constraint "PL-7: unknown transition").

(** * Exceptions *)

Record ExceptionKey := mkKey { xk_kind : string; xk_employee_id : Z; xk_device_id : Z; xk_entry_id : Z; xk_period_id : Z }.
Definition key_matches (x : Exception) (k : ExceptionKey) : bool :=
  if negb (String.eqb (xk_kind k) "") && negb (String.eqb (ex_kind x) (xk_kind k)) then false
  else (ex_employee_id x =? xk_employee_id k) && (ex_device_id x =? xk_device_id k) && (ex_entry_id x =? xk_entry_id k) && (ex_period_id x =? xk_period_id k).

(** The open exceptions that satisfy [p], in the order of the queue. *)
Definition open_where (p : Exception -> bool) : Prog (list Exception) :=
  pscan "exceptions" "exceptions_state" (eq_bound [text "open"]) (eq_bound [text "open"]) false
    (fun row out => let x : Exception := from_row row in (true, if p x then out ++ [x] else out)) [].
Definition open_matching (key : ExceptionKey) : Prog (list Exception) := open_where (fun x => key_matches x key).
Definition open_exceptions (employees : list Z) (kind : string) : Prog (list Exception) :=
  open_where (fun x => negb (negb (String.eqb kind "") && negb (String.eqb (ex_kind x) kind))
    && negb (negb (bool_decide (employees = [])) && negb (bool_decide (ex_employee_id x ∈ employees)))).

Section exceptions.
Variable dump : Json -> string.
Variable rec : Recorder.

Definition open_exception (key : ExceptionKey) (detail : string) (now_us : Z) : Prog (Z * bool) :=
  let* existing := open_matching key in
  match existing with
  | x :: _ => pret (ex_id x, false)
  | [] =>
      let* id := next_id "exceptions" in
      let x := mkException id (xk_kind key) "open" (xk_employee_id key) (xk_device_id key) (xk_entry_id key) (xk_period_id key) detail now_us 0 "" 0 in
      do* rec_insert dump rec "exceptions" (to_row x) in
      pret (id, true)
  end.

Definition closed (e : Exception) (new_state by_ : string) (now_us audit : Z) : Exception :=
  mkException (ex_id e) (ex_kind e) new_state (ex_employee_id e) (ex_device_id e) (ex_entry_id e) (ex_period_id e) (ex_detail e) (ex_opened_at e) now_us by_ audit.
Definition close_exception (id : Z) (new_state by_ : string) (now_us : Z) : Prog unit :=
  let* x := exception_by_id id in
  match x with
  | None => PRet (not_found "no such exception")
  | Some x =>
      if negb (String.eqb (ex_state x) "open") then PRet (constraint ("exception is already " +:+ ex_state x))
      else rec_update dump rec "exceptions" (to_row (closed x new_state by_ now_us (audit_id rec)))
  end.
Definition resolve_matching (key : ExceptionKey) (by_ : string) (now_us : Z) : Prog Z :=
  let* open := open_matching key in
  do* pfor open (fun x => close_exception (ex_id x) "resolved" by_ now_us) in
  pret (Z.of_nat (length open)).
End exceptions.
