(* ===== verification/PunchPayroll.v ===== *)
(** The payroll-reference rules (modules/punchline/src/payroll.cpp): scheduled
    hours, the hold on a timesheet and the overtime authorization that clears
    it, annotations, break codes, meal breaks and edits.

    Sums of minutes and microseconds are not wrapped: overflow of a signed
    integer is undefined in the code. *)

From stdpp Require Import base numbers list gmap strings.
From S2P Require Import Prelude Bytes PageFormat Types Record StoreSchema Store StoreRep StoreSpec LocalTime CoreSchema Program Recorder PunchData.
From stdpp Require Import list.
Open Scope Z_scope.
Open Scope prog_scope.

Record Config := mkConfig {
  long_shift_hours : Z; clock_divergence_tolerance_seconds : Z; device_attested_threshold : Z; device_stale_seconds : Z;
  schedule_tolerance_minutes : Z; employee_id_rejection_threshold : Z; monitor_interval_seconds : Z; max_batch_entries : Z; week_start_weekday : Z
}.
Definition default_config : Config := mkConfig 16 300 20 86400 30 5 60 500 0.

Definition kUsPerMinute : Z := 60000000.

(** * Structs *)

Record ScheduleHours := mkScheduleHours {
  hr_id : Z; hr_employee_id : Z; hr_effective_from_day : Z; hr_effective_to_day : Z; hr_daily_minutes : Z; hr_weekly_minutes : Z; hr_set_by : string;
  hr_audit_id : Z
}.
Definition hr_to_row (x : ScheduleHours) : Row :=
  [Integer (hr_id x); Integer (hr_employee_id x); Integer (hr_effective_from_day x); opt_id (hr_effective_to_day x); Integer (hr_daily_minutes x);
  Integer (hr_weekly_minutes x); text (hr_set_by x); Integer (hr_audit_id x)].
Definition hr_from_row (r : Row) : ScheduleHours :=
  mkScheduleHours
    (as_int64 (at_ r 0)) (as_int64 (at_ r 1)) (as_int64 (at_ r 2)) (int_or_zero (at_ r 3)) (as_int64 (at_ r 4)) (as_int64 (at_ r 5))
    (as_text (at_ r 6)) (as_int64 (at_ r 7)).
#[export] Instance hr_codec : RowCodec ScheduleHours := {| to_row := hr_to_row; from_row := hr_from_row |}.

Record OvertimeAuthorization := mkOvertimeAuthorization {
  oa_id : Z; oa_employee_id : Z; oa_period_id : Z; oa_authorized_minutes : Z; oa_note : string; oa_authorized_by_tid : string;
  oa_authorized_by_oid : string; oa_authorized_at : Z; oa_audit_id : Z
}.
Definition oa_to_row (x : OvertimeAuthorization) : Row :=
  [Integer (oa_id x); Integer (oa_employee_id x); Integer (oa_period_id x); Integer (oa_authorized_minutes x); text (oa_note x);
  text (oa_authorized_by_tid x); text (oa_authorized_by_oid x); Timestamp (oa_authorized_at x); Integer (oa_audit_id x)].
Definition oa_from_row (r : Row) : OvertimeAuthorization :=
  mkOvertimeAuthorization
    (as_int64 (at_ r 0)) (as_int64 (at_ r 1)) (as_int64 (at_ r 2)) (as_int64 (at_ r 3)) (as_text (at_ r 4)) (as_text (at_ r 5)) (as_text (at_ r 6))
    (as_int64 (at_ r 7)) (as_int64 (at_ r 8)).
#[export] Instance oa_codec : RowCodec OvertimeAuthorization := {| to_row := oa_to_row; from_row := oa_from_row |}.

Record TimesheetHold := mkTimesheetHold {
  th_id : Z; th_employee_id : Z; th_period_id : Z; th_reason : string; th_detail : string; th_opened_at : Z; th_cleared_at : Z;
  th_authorization_id : Z; th_audit_id : Z
}.
Definition th_to_row (x : TimesheetHold) : Row :=
  [Integer (th_id x); Integer (th_employee_id x); Integer (th_period_id x); text (th_reason x); text (th_detail x); Timestamp (th_opened_at x);
  opt_ts (th_cleared_at x); opt_id (th_authorization_id x); Integer (th_audit_id x)].
Definition th_from_row (r : Row) : TimesheetHold :=
  mkTimesheetHold
    (as_int64 (at_ r 0)) (as_int64 (at_ r 1)) (as_int64 (at_ r 2)) (as_text (at_ r 3)) (as_text (at_ r 4)) (as_int64 (at_ r 5))
    (int_or_zero (at_ r 6)) (int_or_zero (at_ r 7)) (as_int64 (at_ r 8)).
#[export] Instance th_codec : RowCodec TimesheetHold := {| to_row := th_to_row; from_row := th_from_row |}.

Record BreakPremiumRule := mkBreakPremiumRule {
  bp_id : Z; bp_break_code : string; bp_threshold_minutes : Z; bp_comparison : string; bp_definition : string; bp_source : string;
  bp_confirmed : bool; bp_effective_from_day : Z; bp_effective_to_day : Z; bp_set_by : string; bp_audit_id : Z
}.
Definition bp_to_row (x : BreakPremiumRule) : Row :=
  [Integer (bp_id x); text (bp_break_code x); Integer (bp_threshold_minutes x); text (bp_comparison x); text (bp_definition x); text (bp_source x);
  Boolean (bp_confirmed x); Integer (bp_effective_from_day x); opt_id (bp_effective_to_day x); text (bp_set_by x); Integer (bp_audit_id x)].
Definition bp_from_row (r : Row) : BreakPremiumRule :=
  mkBreakPremiumRule
    (as_int64 (at_ r 0)) (as_text (at_ r 1)) (as_int64 (at_ r 2)) (as_text (at_ r 3)) (as_text (at_ r 4)) (as_text (at_ r 5)) (as_bool (at_ r 6))
    (as_int64 (at_ r 7)) (int_or_zero (at_ r 8)) (as_text (at_ r 9)) (as_int64 (at_ r 10)).
#[export] Instance bp_codec : RowCodec BreakPremiumRule := {| to_row := bp_to_row; from_row := bp_from_row |}.

Record MealBreak := mkMealBreak {
  mb_id : Z; mb_employee_id : Z; mb_out_entry_id : Z; mb_in_entry_id : Z; mb_local_day : Z; mb_started_at : Z; mb_ended_at : Z; mb_minutes : Z;
  mb_premium : bool; mb_premium_rule_id : Z
}.
Definition mb_to_row (x : MealBreak) : Row :=
  [Integer (mb_id x); Integer (mb_employee_id x); Integer (mb_out_entry_id x); opt_id (mb_in_entry_id x); Integer (mb_local_day x);
  Timestamp (mb_started_at x); opt_ts (mb_ended_at x); opt_nonneg (mb_minutes x); Boolean (mb_premium x); opt_id (mb_premium_rule_id x)].
Definition mb_from_row (r : Row) : MealBreak :=
  mkMealBreak
    (as_int64 (at_ r 0)) (as_int64 (at_ r 1)) (as_int64 (at_ r 2)) (int_or_zero (at_ r 3)) (as_int64 (at_ r 4)) (as_int64 (at_ r 5))
    (int_or_zero (at_ r 6)) (int_or_minus_one (at_ r 7)) (as_bool (at_ r 8)) (int_or_zero (at_ r 9)).
#[export] Instance mb_codec : RowCodec MealBreak := {| to_row := mb_to_row; from_row := mb_from_row |}.

Record EntryEdit := mkEntryEdit {
  ee_id : Z; ee_entry_id : Z; ee_edit_class : string; ee_reason_code : string; ee_editor : string; ee_edited_at : Z; ee_audit_id : Z
}.
Definition ee_to_row (x : EntryEdit) : Row :=
  [Integer (ee_id x); Integer (ee_entry_id x); text (ee_edit_class x); text (ee_reason_code x); text (ee_editor x); Timestamp (ee_edited_at x);
  Integer (ee_audit_id x)].
Definition ee_from_row (r : Row) : EntryEdit :=
  mkEntryEdit
    (as_int64 (at_ r 0)) (as_int64 (at_ r 1)) (as_text (at_ r 2)) (as_text (at_ r 3)) (as_text (at_ r 4)) (as_int64 (at_ r 5)) (as_int64 (at_ r 6)).
#[export] Instance ee_codec : RowCodec EntryEdit := {| to_row := ee_to_row; from_row := ee_from_row |}.

(** * Scheduled hours *)

Definition schedule_hours_of (employee_id : Z) : Prog (list ScheduleHours) := all (scan_eq "schedule_hours" "schedule_hours_employee" [Integer employee_id]).
(** [from <= day && (to == 0 || day < to)]. *)
Definition effective (from to local_day : Z) : bool := (from <=? local_day) && ((to =? 0) || (local_day <? to)).
(** The last of the rows that satisfies [p]. *)
Definition last_where {T} (p : T -> bool) (l : list T) : option T := fold_left (fun found x => if p x then Some x else found) l None.
Definition schedule_hours_at (employee_id local_day : Z) : Prog (option ScheduleHours) :=
  let* rows := schedule_hours_of employee_id in
  pret (last_where (fun s => effective (hr_effective_from_day s) (hr_effective_to_day s) local_day) rows).

Definition kForever : Z := 2 ^ 63 - 1.
Definition until (to_day : Z) : Z := if to_day =? 0 then kForever else to_day.
Fixpoint hours_overlap (from_day to_day : Z) (l : list ScheduleHours) : Result unit :=
  match l with
  | [] => Ret tt
  | s :: l =>
      if (from_day <? until (hr_effective_to_day s)) && (hr_effective_from_day s <? until to_day) then
        constraint ("scheduled hours overlap another row of this employee (" +:+ string_of_bytes (format_local_day (hr_effective_from_day s)) +:+ " on)")
      else hours_overlap from_day to_day l
  end.

(** * Totals *)

Definition hours_minutes (minutes : Z) : string :=
  string_of_bytes (printf_0d 1 (Z.quot minutes 60)) +:+ "h" +:+ string_of_bytes (printf_0d 2 (Z.rem minutes 60)).

(** [map[key] += us] on an ordered map. *)
Fixpoint add_us (key us : Z) (l : list (Z * Z)) : list (Z * Z) :=
  match l with
  | [] => [(key, us)]
  | (k, v) :: l =>
      match key ?= k with
      | Eq => (k, v + us) :: l
      | Lt => (key, us) :: (k, v) :: l
      | Gt => (k, v) :: add_us key us l
      end
  end.
Record Totals := mkTotals { total_us : Z; day_us : list (Z * Z); week_us : list (Z * Z) }.
Definition week_start (cfg : Config) (local_day : Z) : Z :=
  local_day - Z.rem (Z.rem (weekday_of_day local_day - week_start_weekday cfg) 7 + 7) 7.
Definition add_shift (cfg : Config) (t : Totals) (sh : Shift) : Totals :=
  match sh_duration_us sh with
  | Some us =>
      if sh_out_entry_id sh =? 0 then t
      else mkTotals (total_us t + us) (add_us (sh_local_day sh) us (day_us t)) (add_us (week_start cfg (sh_local_day sh)) us (week_us t))
  | None => t
  end.
Definition totals_of (cfg : Config) (employee_id period_id : Z) : Prog Totals :=
  let* shifts := shifts_in_period period_id employee_id in
  pret (fold_left (add_shift cfg) shifts (mkTotals 0 [] [])).

Definition latest_authorization (employee_id period_id : Z) : Prog (option OvertimeAuthorization) :=
  let* rows := all (scan_eq "overtime_authorizations" "overtime_authorizations_timesheet" [Integer employee_id; Integer period_id]) in
  pret (last rows).

(** The loop over the days or the weeks, with the limit of the hours in
    force. *)
Fixpoint excess_over (employee_id : Z) (limit : ScheduleHours -> Z) (l : list (Z * Z)) (sum : Z) : Prog Z :=
  match l with
  | [] => pret sum
  | (day, us) :: l =>
      let* hours := schedule_hours_at employee_id day in
      excess_over employee_id limit l (match hours with Some h => sum + Z.max 0 (Z.quot us kUsPerMinute - limit h) | None => sum end)
  end.
Definition overtime_excess_minutes (employee_id : Z) (t : Totals) : Prog Z :=
  let* daily := excess_over employee_id hr_daily_minutes (day_us t) 0 in
  let* weekly := excess_over employee_id hr_weekly_minutes (week_us t) 0 in
  pret (Z.max daily weekly).

(** * The hold *)

Definition holds_in_period (period_id : Z) : Prog (list TimesheetHold) := all (scan_eq "timesheet_holds" "timesheet_holds_period" [Integer period_id]).
Definition open_hold (employee_id period_id : Z) : Prog (option TimesheetHold) :=
  let* rows := all (scan_eq "timesheet_holds" "timesheet_holds_timesheet" [Integer employee_id; Integer period_id]) in
  pret (last_where (fun h => th_cleared_at h =? 0) rows).
Definition held_employees (period_id : Z) : Prog (gset Z) :=
  let* rows := holds_in_period period_id in
  pret (list_to_set (map th_employee_id (List.filter (fun h => th_cleared_at h =? 0) rows))).

(** The days or weeks over their limit, as text, and the reason. *)
Fixpoint breaches_in (employee_id : Z) (limit : ScheduleHours -> Z) (reason_name pre post : string) (l : list (Z * Z)) (acc : list string * string)
    : Prog (list string * string) :=
  match l with
  | [] => pret acc
  | (day, us) :: l =>
      let* hours := schedule_hours_at employee_id day in
      breaches_in employee_id limit reason_name pre post l
        (match hours with
         | Some h =>
             if limit h * kUsPerMinute <? us then
               (fst acc ++ [pre +:+ string_of_bytes (format_local_day day) +:+ ": " +:+ hours_minutes (Z.quot us kUsPerMinute) +:+ " worked, "
                            +:+ hours_minutes (limit h) +:+ post],
                if String.eqb (snd acc) "" then reason_name else snd acc)
             else acc
         | None => acc
         end)
  end.

Definition with_hold (h : TimesheetHold) (reason detail : string) : TimesheetHold :=
  mkTimesheetHold (th_id h) (th_employee_id h) (th_period_id h) reason detail (th_opened_at h) (th_cleared_at h) (th_authorization_id h) (th_audit_id h).
Definition cleared (h : TimesheetHold) (at_us authorization : Z) : TimesheetHold :=
  mkTimesheetHold (th_id h) (th_employee_id h) (th_period_id h) (th_reason h) (th_detail h) (th_opened_at h) at_us authorization (th_audit_id h).

Section payroll.
Variable dump : Json -> string.
Variable rec : Recorder.
Variable cfg : Config.

Definition set_schedule_hours (employee_id from_day to_day daily_minutes weekly_minutes : Z) (set_by : string) : Prog Z :=
  let* existing := schedule_hours_of employee_id in
  do* PRet (hours_overlap from_day to_day existing) in
  let* id := next_id "schedule_hours" in
  do* rec_insert dump rec "schedule_hours" (to_row (mkScheduleHours id employee_id from_day to_day daily_minutes weekly_minutes set_by (audit_id rec))) in
  pret id.

Definition evaluate_hold (employee_id period_id now_us : Z) : Prog unit :=
  if period_id =? 0 then pret tt
  else
    let* period := period_by_id period_id in
    if match period with Some p => negb (String.eqb (pp_state p) "open") | None => true end then pret tt
    else
      let* totals := totals_of cfg employee_id period_id in
      let* acc := breaches_in employee_id hr_daily_minutes "daily_hours" "" " scheduled a day" (day_us totals) ([], "") in
      let* (breaches, reason) := breaches_in employee_id hr_weekly_minutes "weekly_hours" "week of " " scheduled a week" (week_us totals) acc in
      let* auth := latest_authorization employee_id period_id in
      let authorized := match auth with Some a => oa_authorized_minutes a | None => 0 end in
      let* excess := overtime_excess_minutes employee_id totals in
      let needed := negb (bool_decide (breaches = [])) && (authorized <? excess) in
      let* open := open_hold employee_id period_id in
      let detail := String.concat "; " breaches in
      match needed, open with
      | true, Some h =>
          if String.eqb (th_detail h) detail && String.eqb (th_reason h) reason then pret tt
          else rec_update dump rec "timesheet_holds" (to_row (with_hold h reason detail))
      | true, None =>
          let* id := next_id "timesheet_holds" in
          rec_insert dump rec "timesheet_holds" (to_row (mkTimesheetHold id employee_id period_id reason detail now_us 0 0 (audit_id rec)))
      | false, Some h =>
          rec_update dump rec "timesheet_holds" (to_row (cleared h now_us (match auth with Some a => oa_id a | None => 0 end)))
      | false, None => pret tt
      end.

Definition evaluate_employee_holds (employee_id now_us : Z) : Prog unit :=
  let* periods := pscan_all "pay_periods" "" None None in
  pfor periods (fun row => let p : PayPeriod := from_row row in
    if negb (String.eqb (pp_state p) "open") then pret tt else evaluate_hold employee_id (pp_id p) now_us).

Definition authorize_overtime (employee_id period_id : Z) (note tid oid : string) (now_us : Z) : Prog OvertimeAuthorization :=
  let* hold := open_hold employee_id period_id in
  match hold with
  | None => PRet (not_found "no timesheet is held for this employee in this period")
  | Some h =>
      let* totals := totals_of cfg employee_id period_id in
      let* excess := overtime_excess_minutes employee_id totals in
      let* id := next_id "overtime_authorizations" in
      let a := mkOvertimeAuthorization id employee_id period_id excess note tid oid now_us (audit_id rec) in
      do* rec_insert dump rec "overtime_authorizations" (to_row a) in
      do* rec_update dump rec "timesheet_holds" (to_row (cleared h now_us id)) in
      pret a
  end.

(** * Codes *)

Definition remove_annotations (shift_id : Z) : Prog unit :=
  let* rows := scan_eq "shift_annotations" "shift_annotations_shift" [Integer shift_id] in
  pfor rows (fun r => rec_remove dump rec "shift_annotations" [at_ r 0]).

Definition clock (minute_of_day : Z) : string :=
  string_of_bytes (printf_0d 2 (Z.rem (Z.quot minute_of_day 60) 100)) +:+ ":" +:+ string_of_bytes (printf_0d 2 (Z.rem minute_of_day 60)).
Definition annotations (day : Schedule) (lt_in lt_out : LocalTime) : list (string * string) :=
  (if sc_start_minute day + schedule_tolerance_minutes cfg <? minute_of_day lt_in then
     [("L", "in " +:+ clock (minute_of_day lt_in) +:+ ", scheduled " +:+ clock (sc_start_minute day))] else [])
  ++ (if (local_day lt_out =? local_day lt_in) && (minute_of_day lt_out <? sc_end_minute day - schedule_tolerance_minutes cfg) then
        [("E", "out " +:+ clock (minute_of_day lt_out) +:+ ", scheduled " +:+ clock (sc_end_minute day))] else []).
Definition record_annotations (shift : Shift) (in_ out : TimeEntry) : Prog unit :=
  do* remove_annotations (sh_id shift) in
  match parse_local_time (bytes_of_string (te_local_time in_)), parse_local_time (bytes_of_string (te_local_time out)) with
  | Ret lt_in, Ret lt_out =>
      let* scheds := schedules_of (te_employee_id in_) in
      match last_where (fun s => effective (sc_effective_from_day s) (sc_effective_to_day s) (local_day lt_in) && (sc_weekday s =? weekday lt_in)) scheds with
      | None => pret tt
      | Some day =>
          pfor (annotations day lt_in lt_out) (fun x =>
            let* id := next_id "shift_annotations" in
            rec_insert dump rec "shift_annotations" [Integer id; Integer (sh_id shift); text (fst x); text (snd x)])
      end
  | _, _ => pret tt
  end.

Definition break_code_active (code : string) : Prog bool :=
  let* row := pget "break_codes" [text code] in
  pret (match row with Some r => as_bool (at_ r 3) | None => false end).
Definition inactive_code (code : string) : Result unit := invalid_argument ("unknown or inactive break code '" +:+ code +:+ "'").
Definition mark_entry_break (entry_id : Z) (code : string) : Prog unit :=
  let* active := break_code_active code in
  if negb active then PRet (inactive_code code)
  else rec_insert dump rec "entry_break_codes" [Integer entry_id; text code].

Definition premium_rule_at (break_code : string) (local_day : Z) : Prog (option BreakPremiumRule) :=
  let* rows := all (scan_eq "break_premium_rules" "break_premium_rules_code" [text break_code]) in
  pret (last_where (fun b => bp_confirmed b && effective (bp_effective_from_day b) (bp_effective_to_day b) local_day) rows).
Definition add_premium_rule (break_code : string) (threshold_minutes : Z) (comparison definition source : string) (confirmed : bool)
    (from_day to_day : Z) (set_by : string) : Prog Z :=
  let* active := break_code_active break_code in
  if negb active then PRet (rbind (inactive_code break_code) (fun _ => Ret 0))
  else
    let* id := next_id "break_premium_rules" in
    do* rec_insert dump rec "break_premium_rules"
      (to_row (mkBreakPremiumRule id break_code threshold_minutes comparison definition source confirmed from_day to_day set_by (audit_id rec))) in
    pret id.

(** * Meals *)

Definition premium_due (rule : BreakPremiumRule) (minutes : Z) : bool :=
  if String.eqb (bp_comparison rule) "at_least" then bp_threshold_minutes rule <=? minutes else bp_threshold_minutes rule <? minutes.
(** The meal that the marked punch [out] begins; [following] is the employee's
    next punch. *)
Definition meal_of (employee_id : Z) (code : string) (day : Z) (out : TimeEntry) (following : option TimeEntry) : Prog MealBreak :=
  match following with
  | Some e =>
      if String.eqb (te_kind e) "in" then
        let minutes := Z.quot (te_device_time e - te_device_time out) kUsPerMinute in
        let* rule := premium_rule_at code day in
        pret (mkMealBreak 0 employee_id (te_id out) (te_id e) day (te_device_time out) (te_device_time e) minutes
                (match rule with Some r => premium_due r minutes | None => false end) (match rule with Some r => bp_id r | None => 0 end))
      else pret (mkMealBreak 0 employee_id (te_id out) 0 day (te_device_time out) 0 (-1) false 0)
  | None => pret (mkMealBreak 0 employee_id (te_id out) 0 day (te_device_time out) 0 (-1) false 0)
  end.
Definition with_id (m : MealBreak) (id : Z) : MealBreak :=
  mkMealBreak id (mb_employee_id m) (mb_out_entry_id m) (mb_in_entry_id m) (mb_local_day m) (mb_started_at m) (mb_ended_at m) (mb_minutes m)
    (mb_premium m) (mb_premium_rule_id m).
Fixpoint rebuild_from (employee_id : Z) (live : list TimeEntry) : Prog unit :=
  match live with
  | [] => pret tt
  | out :: live =>
      if negb (String.eqb (te_kind out) "out") then rebuild_from employee_id live
      else
        let* mark := pget "entry_break_codes" [Integer (te_id out)] in
        match mark with
        | None => rebuild_from employee_id live
        | Some mark =>
            match parse_local_time (bytes_of_string (te_local_time out)) with
            | Err _ => rebuild_from employee_id live
            | Ret lt =>
                let* m := meal_of employee_id (as_text (at_ mark 1)) (local_day lt) out (head live) in
                let* id := next_id "meal_breaks" in
                do* rec_insert dump rec "meal_breaks" (to_row (with_id m id)) in
                rebuild_from employee_id live
            end
        end
  end.
Definition rebuild_meals (employee_id from_us : Z) : Prog unit :=
  let* entries := entries_of employee_id (from_us - 24 * 3600 * 1000000) (Z.quot (2 ^ 63 - 1) 2) in
  let live := List.filter (fun e => te_superseded_by e =? 0) entries in
  do* pfor live (fun e =>
    if negb (String.eqb (te_kind e) "out") then pret tt
    else
      let* old := scan_eq "meal_breaks" "meal_breaks_out" [Integer (te_id e)] in
      pfor old (fun r => rec_remove dump rec "meal_breaks" [at_ r 0])) in
  rebuild_from employee_id live.
Definition meals_in_period (employee_id period_id : Z) : Prog (list MealBreak) :=
  let* period := period_by_id period_id in
  match period with
  | None => pret []
  | Some p => all (pscan_all "meal_breaks" "meal_breaks_employee" (eq_bound [Integer employee_id; Integer (pp_start_day p)])
                (eq_bound [Integer employee_id; Integer (pp_end_day p)]))
  end.

(** * Edits *)

Definition record_entry_edit (entry_id : Z) (edit_class reason_code editor : string) (now_us : Z) : Prog unit :=
  let* id := next_id "entry_edits" in
  rec_insert dump rec "entry_edits" (to_row (mkEntryEdit id entry_id edit_class reason_code editor now_us (audit_id rec))).
Definition all_entry_edits : Prog (list EntryEdit) := all (pscan_all "entry_edits" "" None None).
End payroll.
