(* ===== verification/PunchLifecycle.v ===== *)
(** The approval lifecycle (modules/punchline/src/lifecycle.cpp):
    recorded -> submitted -> approved -> released -> locked, per employee and
    pay period. *)

From stdpp Require Import base numbers list gmap strings.
From S2P Require Import Prelude Bytes PageFormat Types Record StoreSchema Store StoreRep StoreSpec CoreSchema Program Recorder PunchData PunchRules PunchPayroll.
From stdpp Require Import list.
Open Scope Z_scope.
Open Scope prog_scope.

Definition rank (state : string) : Z :=
  if String.eqb state "recorded" then 0
  else if String.eqb state "submitted" then 1
  else if String.eqb state "approved" then 2
  else if String.eqb state "released" then 3
  else if String.eqb state "locked" then 4
  else -1.
Definition predecessor (to : string) : string :=
  if String.eqb to "submitted" then "recorded"
  else if String.eqb to "approved" then "submitted"
  else if String.eqb to "released" then "approved"
  else if String.eqb to "locked" then "released"
  else "".

Definition entry_in_state (e : TimeEntry) (state : string) (approval_audit : Z) : TimeEntry :=
  mkTimeEntry (te_id e) (te_entry_uuid e) (te_employee_id e) (te_device_id e) (te_journal_id e) (te_journal_sequence e) (te_kind e) (te_device_time e)
    (te_local_time e) (te_site_zone e) (te_tzdb_version e) (te_receipt_time e) (te_attestation e) (te_clock_divergence_us e) (te_period_id e) state
    (te_pay_code e) approval_audit (te_correction_of e) (te_correction_reason e) (te_created_at e) (te_note e) (te_superseded_by e).
Definition shift_in_state (s : Shift) (state : string) : Shift :=
  mkShift (sh_id s) (sh_employee_id s) (sh_device_id s) (sh_in_entry_id s) (sh_out_entry_id s) (sh_local_day s) (sh_period_id s) (sh_in_time s)
    (sh_out_time s) (sh_duration_us s) (sh_pay_code s) state.
Definition period_locked (p : PayPeriod) (now_us : Z) : PayPeriod :=
  mkPayPeriod (pp_id p) (pp_start_day p) (pp_end_day p) (pp_site_zone p) (pp_tzdb_version p) "locked" (pp_submit_by p) (pp_approve_by p) now_us.

Record TransitionRequest := mkRequest {
  rq_period_id : Z; rq_employee_id : Z; rq_to_state : string; rq_who : Standing; rq_acted_by_tid : string; rq_acted_by_oid : string;
  rq_acted_by_account : string; rq_note : string; rq_now_us : Z
}.
Record TransitionResult := mkTransition { tr_from_state : string; tr_entries : Z; tr_shifts : Z; tr_approval_id : Z; tr_exceptions_resolved : Z }.
Record LockResult := mkLock { lk_employees : Z; lk_entries : Z }.

(** The first loop: no live entry may be behind; how many are to move. *)
Fixpoint movable (from : string) (l : list TimeEntry) (n : Z) : Result Z :=
  match l with
  | [] => Ret n
  | e :: l =>
      if negb (te_superseded_by e =? 0) then movable from l n
      else if rank (te_state e) <? rank from then
        constraint ("PL-7: entry " +:+ to_string (te_id e) +:+ " is still " +:+ te_state e +:+ "; it must be " +:+ from +:+ " first")
      else movable from l (if String.eqb (te_state e) from then n + 1 else n)
  end.
Definition to_move (from : string) (l : list TimeEntry) : list TimeEntry :=
  List.filter (fun e => (te_superseded_by e =? 0) && String.eqb (te_state e) from) l.
Definition shifts_to_move (from : string) (l : list Shift) : list Shift := List.filter (fun s => String.eqb (sh_state s) from) l.

Section lifecycle.
Variable dump : Json -> string.
Variable rec : Recorder.

Definition write_approval (period_id employee_id : Z) (from to tid oid account note : string) (now_us : Z) : Prog Z :=
  let* id := next_id "approvals" in
  do* rec_insert dump rec "approvals" (to_row (mkApproval id period_id employee_id from to tid oid account now_us note (audit_id rec))) in
  pret id.

(** Device-attested counts, past cutoffs and late punches are resolved by an
    approval. *)
Definition resolve_on_approval (employee_id period_id now_us : Z) : Prog Z :=
  let* n1 := resolve_matching dump rec (mkKey "device_attested_count" employee_id 0 0 period_id) "approval" now_us in
  let* n2 := resolve_matching dump rec (mkKey "past_cutoff" employee_id 0 0 period_id) "approval" now_us in
  let* late := open_exceptions [employee_id] "late_punch" in
  let late := List.filter (fun x => ex_period_id x =? period_id) late in
  do* pfor late (fun x => close_exception dump rec (ex_id x) "resolved" "approval" now_us) in
  pret (n1 + n2 + Z.of_nat (length late)).

Definition move_entry (to : string) (e : TimeEntry) : Prog unit :=
  rec_update dump rec "time_entries"
    (to_row (entry_in_state e to (if String.eqb to "approved" then audit_id rec else te_approval_audit_id e))).
Definition move_shift (to : string) (s : Shift) : Prog unit := rec_update dump rec "shifts" (to_row (shift_in_state s to)).

(** What [transition] checks before it looks at the entries. *)
Definition transition_checks (req : TransitionRequest) (from : string) : Prog unit :=
  let* period := period_by_id (rq_period_id req) in
  match period with
  | None => PRet (not_found "no such pay period")
  | Some p =>
      if negb (String.eqb (pp_state p) "open") then PRet (constraint ("PL-7: pay period is " +:+ pp_state p))
      else
        do* transition_allowed (rq_employee_id req) from (rq_to_state req) (rq_who req) (rq_now_us req) in
        if String.eqb (rq_to_state req) "released" then
          let* hold := open_hold (rq_employee_id req) (rq_period_id req) in
          match hold with
          | Some h => PRet (constraint ("PL-7: the timesheet is held for overtime authorization (" +:+ th_detail h +:+ ")"))
          | None => pret tt
          end
        else pret tt
  end.

Definition transition (req : TransitionRequest) : Prog TransitionResult :=
  let from := predecessor (rq_to_state req) in
  if String.eqb from "" || String.eqb (rq_to_state req) "locked" then
    PRet (invalid_argument "to_state must be submitted, approved or released")
  else
    do* transition_checks req from in
    let* entries := entries_in_period (rq_period_id req) (rq_employee_id req) in
    let* n := PRet (movable from entries 0) in
    if n =? 0 then PRet (constraint ("PL-7: nothing is " +:+ from +:+ " for this employee in this period"))
    else
      do* pfor (to_move from entries) (move_entry (rq_to_state req)) in
      let* shifts := shifts_in_period (rq_period_id req) (rq_employee_id req) in
      do* pfor (shifts_to_move from shifts) (move_shift (rq_to_state req)) in
      let note := if String.eqb (override_reason (rq_who req)) "" then rq_note req else "override: " +:+ override_reason (rq_who req) in
      let* approval := write_approval (rq_period_id req) (rq_employee_id req) from (rq_to_state req) (rq_acted_by_tid req) (rq_acted_by_oid req)
        (rq_acted_by_account req) note (rq_now_us req) in
      let* resolved := (if String.eqb (rq_to_state req) "approved" then resolve_on_approval (rq_employee_id req) (rq_period_id req) (rq_now_us req) else pret 0) in
      pret (mkTransition from (Z.of_nat (length (to_move from entries))) (Z.of_nat (length (shifts_to_move from shifts))) approval resolved).

(** * Locking *)

(** The loop over the entries of the period: the employees with entries and
    the number of entries. *)
Fixpoint lock_entries (l : list TimeEntry) (employees : list Z) (n : Z) : Prog (list Z * Z) :=
  match l with
  | [] => pret (employees, n)
  | e :: l =>
      if negb (te_superseded_by e =? 0) then lock_entries l employees n
      else if negb (String.eqb (te_state e) "released") then
        PRet (constraint ("PL-7: entry " +:+ to_string (te_id e) +:+ " of employee " +:+ to_string (te_employee_id e) +:+ " is " +:+ te_state e +:+ ", not released"))
      else
        do* rec_update dump rec "time_entries" (to_row (entry_in_state e "locked" (te_approval_audit_id e))) in
        lock_entries l (te_employee_id e :: employees) (n + 1)
  end.
Definition lock_period (period_id : Z) (who : Standing) (tid oid account : string) (now_us : Z) : Prog LockResult :=
  let* period := period_by_id period_id in
  match period with
  | None => PRet (not_found "no such pay period")
  | Some p =>
      if negb (String.eqb (pp_state p) "open") then PRet (constraint ("PL-7: pay period is already " +:+ pp_state p))
      else
        do* transition_allowed 0 "released" "locked" who now_us in
        let* rows := all (scan_eq "time_entries" "time_entries_period" [Integer period_id]) in
        let* (employees, n) := lock_entries rows [] 0 in
        let* shifts := all (scan_eq "shifts" "shifts_period" [Integer period_id]) in
        do* pfor shifts (fun s : Shift => if String.eqb (sh_state s) "released" then move_shift "locked" s else pret tt) in
        let per_employee := unique_ids (sorting.merge_sort Z.le employees) in
        do* pfor per_employee (fun e => let* _ := write_approval period_id e "released" "locked" tid oid account "" now_us in pret tt) in
        do* rec_update dump rec "pay_periods" (to_row (period_locked p now_us)) in
        pret (mkLock (Z.of_nat (length per_employee)) n)
  end.
End lifecycle.
