(* ===== verification/PunchSync.v ===== *)
(** Sync and pairing (modules/punchline/src/sync.cpp): a batch of punches from
    a device, manual entries, and the fold that pairs punches into shifts.

    The code collects the identifiers of the exceptions it opens in a vector
    that a caller may leave out; here the operations return them.  The release
    of the embedded time zone database is generated at build time and is an
    argument. *)

From stdpp Require Import base numbers list gmap strings sorting.
From S2P Require Import Prelude Bytes PageFormat Types Record LocalTime StoreSchema Store StoreRep StoreSpec CoreSchema Program Recorder PunchData PunchRules PunchPayroll.
From stdpp Require Import list.
Open Scope Z_scope.
Open Scope prog_scope.

Definition later_than_submitted (state : string) : bool :=
  String.eqb state "approved" || String.eqb state "released" || String.eqb state "locked".
Definition kShiftStates : list string := ["recorded"; "submitted"; "approved"; "released"; "locked"].

Definition pay_code_active (code : string) : Prog bool :=
  let* row := pget "pay_codes" [text code] in
  pret (match row with Some r => as_bool (at_ r 3) | None => false end).

Definition current_entries_from (employee_id from_us : Z) : Prog (list TimeEntry) :=
  let* out := pscan "time_entries" "time_entries_employee_time" (eq_bound [Integer employee_id; Timestamp from_us]) (eq_bound [Integer employee_id]) false
    (fun row out => let e : TimeEntry := from_row row in (true, if te_superseded_by e =? 0 then out ++ [e] else out)) [] in
  pret (merge_sort entry_before out).

Definition reaches (from_us : Z) (s : Shift) : bool := (sh_out_entry_id s =? 0) || (from_us <=? sh_out_time s) || (from_us <=? sh_in_time s).
Fixpoint shifts_in_states (employee_id from_us : Z) (states : list string) (out : list Shift) : Prog (list Shift) :=
  match states with
  | [] => pret out
  | state :: states =>
      let* out := pscan "shifts" "shifts_employee_state" (eq_bound [Integer employee_id; text state]) (eq_bound [Integer employee_id; text state]) false
        (fun row out => let s : Shift := from_row row in (true, if reaches from_us s then out ++ [s] else out)) out in
      shifts_in_states employee_id from_us states out
  end.
Definition shifts_from (employee_id from_us : Z) : Prog (list Shift) :=
  let* out := shifts_in_states employee_id from_us kShiftStates [] in
  pret (merge_sort shift_before out).

(** [note_opened]. *)
Definition note_opened (opened : list Z) (o : Z * bool) : list Z := if snd o then opened ++ [fst o] else opened.

(** * Incoming data (sync.h) *)

Record IncomingEntry := mkIncoming {
  in_entry_uuid : Bytes; in_journal_sequence : Z; in_kind : string; in_device_time_us : Z; in_local_time : string; in_site_zone : string;
  in_tzdb_version : string; in_pay_code : string; in_note : string; in_break_code : string
}.
Record IncomingReport := mkReport { rp_kind : string; rp_detail : string }.
Record IncomingBatch := mkBatch {
  ib_batch_uuid : Bytes; ib_journal_id : Bytes; ib_client_time_us : Z; ib_entries : list IncomingEntry; ib_reports : list IncomingReport
}.
Record EntryOutcome := mkOutcome { oc_entry_uuid : Bytes; oc_journal_sequence : Z; oc_accepted : bool; oc_reason : string }.
Record SyncOutcome := mkSyncOutcome {
  so_outcomes : list EntryOutcome; so_acked_sequences : list Z; so_last_acked_sequence : Z; so_accepted : Z; so_rejected : Z; so_replayed : bool;
  so_clock_divergence_us : option Z; so_exceptions_opened : list Z
}.
Record ManualEntry := mkManual {
  me_employee_id : Z; me_kind : string; me_device_time_us : Z; me_local_time : string; me_pay_code : string; me_note : string; me_break_code : string;
  me_correction_of : Z; me_reason : string; me_edit_class : string; me_reason_code : string; me_editor : string
}.

Definition size_over (s : string) (n : nat) : bool := (n <? String.length s)%nat.
Definition validate_incoming (e : IncomingEntry) : Result unit :=
  if negb (String.eqb (in_kind e) "in") && negb (String.eqb (in_kind e) "out") then invalid_argument "kind must be in or out"
  else if in_device_time_us e <=? 0 then invalid_argument "device_time_us must be positive"
  else if in_journal_sequence e <? 0 then invalid_argument "journal_sequence must be non-negative"
  else
    let? _ := parse_local_time (bytes_of_string (in_local_time e)) in
    if size_over (in_site_zone e) 64 then invalid_argument "site_zone is too long"
    else if size_over (in_tzdb_version e) 32 then invalid_argument "tzdb_version is too long"
    else if size_over (in_note e) 4096 then invalid_argument "note is too long"
    else if size_over (in_pay_code e) 64 then invalid_argument "pay_code is too long"
    else if size_over (in_break_code e) 8 then invalid_argument "break_code is too long"
    else if negb (String.eqb (in_break_code e) "") && negb (String.eqb (in_kind e) "out") then invalid_argument "a break code applies to an out punch"
    else Ret tt.

Definition day_text (day : Z) : string := string_of_bytes (format_local_day day).
(** The exception key of an entry of an employee. *)
Definition entry_key_of (kind : string) (employee_id entry_id : Z) : ExceptionKey := mkKey kind employee_id 0 entry_id 0.
Definition kPairingKinds : list string := ["unpaired_punch"; "long_shift"; "no_schedule"; "non_scheduled_day"; "outside_schedule"].

Section sync.
Variable dump : Json -> string.
Variable rec : Recorder.
Variable cfg : Config.

(** Opens an exception and notes it. *)
Definition opening (key : ExceptionKey) (detail : string) (now_us : Z) (opened : list Z) : Prog (list Z) :=
  let* o := open_exception dump rec key detail now_us in
  pret (note_opened opened o).

(** Schedule checks for a closed shift, on the in punch's local day. *)
Definition check_schedule (in_ out : TimeEntry) (now_us : Z) (opened : list Z) : Prog (list Z) :=
  match parse_local_time (bytes_of_string (te_local_time in_)), parse_local_time (bytes_of_string (te_local_time out)) with
  | Ret lt_in, Ret lt_out =>
      let* scheds := schedules_of (te_employee_id in_) in
      let in_force := List.filter (fun s => effective (sc_effective_from_day s) (sc_effective_to_day s) (local_day lt_in)) scheds in
      let key := fun kind => entry_key_of kind (te_employee_id in_) (te_id in_) in
      match in_force with
      | [] => opening (key "no_schedule") ("no schedule on file for " +:+ day_text (local_day lt_in)) now_us opened
      | _ =>
          match last_where (fun s => sc_weekday s =? weekday lt_in) in_force with
          | None => opening (key "non_scheduled_day") ("punch on " +:+ day_text (local_day lt_in) +:+ ", a non-scheduled day") now_us opened
          | Some day =>
              let tol := schedule_tolerance_minutes cfg in
              let in_early := minute_of_day lt_in <? sc_start_minute day - tol in
              let out_late := (local_day lt_out =? local_day lt_in) && (sc_end_minute day + tol <? minute_of_day lt_out) in
              if in_early || out_late then
                opening (key "outside_schedule") ((if in_early then "in punch before" else "out punch after") +:+ " the scheduled hours on " +:+ day_text (local_day lt_in)) now_us opened
              else pret opened
          end
      end
  | _, _ => pret opened
  end.

Definition count_device_attested (employee_id period_id now_us : Z) (opened : list Z) : Prog (list Z) :=
  if (period_id =? 0) || (device_attested_threshold cfg <=? 0) then pret opened
  else
    let* entries := entries_in_period period_id employee_id in
    let n := Z.of_nat (length (List.filter (fun e => String.eqb (te_attestation e) "device" && (te_superseded_by e =? 0)) entries)) in
    if n <? device_attested_threshold cfg then pret opened
    else
      opening (mkKey "device_attested_count" employee_id 0 0 period_id)
        (to_string n +:+ " device-attested entries in the period (threshold " +:+ to_string (device_attested_threshold cfg) +:+ ")") now_us opened.

(** * Pairing *)

Definition shift_as (s : Shift) (id : Z) : Shift :=
  mkShift id (sh_employee_id s) (sh_device_id s) (sh_in_entry_id s) (sh_out_entry_id s) (sh_local_day s) (sh_period_id s) (sh_in_time s) (sh_out_time s)
    (sh_duration_us s) (sh_pay_code s) (sh_state s).
(** The shift an in punch opens, and what an out punch makes of it. *)
Definition opened_by (employee_id : Z) (e : TimeEntry) : Shift :=
  mkShift 0 employee_id (te_device_id e) (te_id e) 0 (match parse_local_time (bytes_of_string (te_local_time e)) with Ret lt => local_day lt | Err _ => 0 end)
    (te_period_id e) (te_device_time e) 0 None (te_pay_code e) (te_state e).
Definition closed_by (s : Shift) (e : TimeEntry) : Shift :=
  mkShift (sh_id s) (sh_employee_id s) (sh_device_id s) (sh_in_entry_id s) (te_id e) (sh_local_day s) (sh_period_id s) (sh_in_time s) (te_device_time e)
    (Some (te_device_time e - sh_in_time s)) (if String.eqb (sh_pay_code s) "" then te_pay_code e else sh_pay_code s) (sh_state s).
Definition long_shift_us : Z := long_shift_hours cfg * 3600 * 1000000.

(** A shift that may be rebuilt; the earliest in punch of some shifts. *)
Definition unsettled (s : Shift) : bool := negb (later_than_submitted (sh_state s)).
Definition earliest (l : list Shift) (start : Z) : Z := fold_left (fun t s => Z.min t (sh_in_time s)) l start.

Section pairing.
Variable employee_id now_us : Z.

(** The loop that closes the range under overlap: its start, and the shifts to
    rebuild.  Each round but the last moves the start to the in punch of one
    more shift. *)
Fixpoint rebuild_range (fuel : nat) (start : Z) : Prog (Z * list Shift) :=
  match fuel with
  | O => PRet (Err (mkStatus Unsupported "out of fuel"))
  | S fuel =>
      let* touched := shifts_from employee_id start in
      let affected := List.filter unsettled touched in
      let new_start := earliest affected start in
      if new_start =? start then pret (start, affected) else rebuild_range fuel new_start
  end.

Definition resolve_pairing (kind : string) (entry : Z) : Prog unit :=
  let* _ := resolve_matching dump rec (entry_key_of kind employee_id entry) "pairing" now_us in pret tt.
Definition remove_shift (s : Shift) : Prog unit :=
  do* pfor kPairingKinds (fun kind =>
    pfor [sh_in_entry_id s; sh_out_entry_id s] (fun entry => if entry =? 0 then pret tt else resolve_pairing kind entry)) in
  do* remove_annotations dump rec (sh_id s) in
  rec_remove dump rec "shifts" [Integer (sh_id s)].

Definition flag_unpaired (e : TimeEntry) (why : string) (opened : list Z) : Prog (list Z) :=
  opening (mkKey "unpaired_punch" employee_id (te_device_id e) (te_id e) 0) why now_us opened.
Definition persist_open (interrupted : bool) (open : option (Shift * TimeEntry)) (opened : list Z) : Prog (list Z) :=
  match open with
  | None => pret opened
  | Some (s, open_in) =>
      let* id := next_id "shifts" in
      do* rec_insert dump rec "shifts" (to_row (shift_as s id)) in
      let stale := long_shift_us <=? now_us - sh_in_time s in
      if interrupted || stale then
        flag_unpaired open_in (if interrupted then "in punch without an out punch" else "in punch still open past the long-shift threshold") opened
      else pret opened
  end.
Definition close_shift (s : Shift) (open_in e : TimeEntry) (opened : list Z) : Prog (list Z) :=
  let s := closed_by s e in
  let* id := next_id "shifts" in
  let s := shift_as s id in
  do* rec_insert dump rec "shifts" (to_row s) in
  let worked := default 0 (sh_duration_us s) in
  let* opened :=
    (if long_shift_us <=? worked then
       opening (entry_key_of "long_shift" employee_id (sh_in_entry_id s)) ("shift of " +:+ to_string (Z.quot worked 3600000000) +:+ " hours") now_us opened
     else pret opened) in
  let* opened := check_schedule open_in e now_us opened in
  do* record_annotations dump rec cfg s open_in e in
  pret opened.

(** One punch of the fold: the open shift with its in punch, and the
    exceptions opened. *)
Definition pair_punch (e : TimeEntry) (open : option (Shift * TimeEntry)) (opened : list Z) : Prog (option (Shift * TimeEntry) * list Z) :=
  if String.eqb (te_kind e) "in" then
    let* opened := persist_open true open opened in
    pret (Some (opened_by employee_id e, e), opened)
  else
    match open with
    | None => let* opened := flag_unpaired e "out punch without an in punch" opened in pret (None, opened)
    | Some (s, open_in) =>
        match pair_out s e with
        | Ret _ => let* opened := close_shift s open_in e opened in pret (None, opened)
        | Err _ =>
            if negb (sh_device_id s =? te_device_id e) then
              let* opened := flag_unpaired e "out punch from a different device than the open in punch" opened in pret (open, opened)
            else
              let* opened := persist_open true open opened in
              let* opened := flag_unpaired e "out punch without an in punch" opened in
              pret (None, opened)
        end
    end.
Fixpoint pair_punches (l : list TimeEntry) (open : option (Shift * TimeEntry)) (opened : list Z) : Prog (option (Shift * TimeEntry) * list Z) :=
  match l with
  | [] => pret (open, opened)
  | e :: l => let* (open, opened) := pair_punch e open opened in pair_punches l open opened
  end.

(** The whole fold, with the shift that is still open at the end. *)
Definition pair_all (l : list TimeEntry) (opened : list Z) : Prog (list Z) :=
  let* (open, opened) := pair_punches l None opened in
  persist_open false open opened.

Definition sorted_ids (l : list Z) : list Z := unique_ids (merge_sort Z.le l).
Definition repair_pairing (fuel : nat) (from_us : Z) (opened : list Z) : Prog (list Z) :=
  let* (start, affected) := rebuild_range fuel from_us in
  do* pfor affected remove_shift in
  let* all_entries := current_entries_from employee_id start in
  let entries := List.filter (fun e => negb (later_than_submitted (te_state e))) all_entries in
  let touched_periods := sorted_ids (List.filter (fun p => negb (p =? 0)) (map sh_period_id affected ++ map te_period_id all_entries)) in
  do* pfor entries (fun e => resolve_pairing "unpaired_punch" (te_id e)) in
  let* opened := pair_all entries opened in
  do* rebuild_meals dump rec employee_id start in
  do* pfor touched_periods (fun p => evaluate_hold dump rec cfg employee_id p now_us) in
  pret opened.
End pairing.

(** * Batches *)

(** The variables of [apply_batch] that the loop over the entries changes. *)
Record BatchState := mkBatchState {
  b_outcomes : list EntryOutcome; b_acked : list Z; b_accepted : Z; b_rejected : Z; b_opened : list Z; b_in_batch : gset Bytes; b_earliest_new : Z;
  b_periods_touched : list Z; b_first_seq : Z; b_last_seq : Z; b_rejected_detail : string; b_settled : gmap Z bool; b_zone_disagrees : bool;
  b_zone_agrees : bool; b_zone_claimed : string
}.
Definition no_entries (opened : list Z) : BatchState := mkBatchState [] [] 0 0 opened ∅ 0 [] (-1) (-1) "" ∅ false false "".

Definition claim_zone (employee_zone : string) (i : IncomingEntry) (b : BatchState) : BatchState :=
  if String.eqb (in_site_zone i) "" then b
  else
    let differs := negb (String.eqb (in_site_zone i) employee_zone) in
    mkBatchState (b_outcomes b) (b_acked b) (b_accepted b) (b_rejected b) (b_opened b) (b_in_batch b) (b_earliest_new b) (b_periods_touched b) (b_first_seq b)
      (b_last_seq b) (b_rejected_detail b) (b_settled b) (b_zone_disagrees b || differs) (b_zone_agrees b || negb differs)
      (if differs && String.eqb (b_zone_claimed b) "" then String.substring 0 64 (in_site_zone i) else b_zone_claimed b).
Definition reject (i : IncomingEntry) (why : string) (b : BatchState) : BatchState :=
  mkBatchState (b_outcomes b ++ [mkOutcome (in_entry_uuid i) (in_journal_sequence i) false why]) (b_acked b) (b_accepted b) (b_rejected b + 1) (b_opened b)
    (b_in_batch b) (b_earliest_new b) (b_periods_touched b) (b_first_seq b) (b_last_seq b)
    (b_rejected_detail b +:+ value_to_string (Uuid (in_entry_uuid i)) +:+ ": " +:+ why +:+ String (Ascii.ascii_of_nat 10) "")
    (b_settled b) (b_zone_disagrees b) (b_zone_agrees b) (b_zone_claimed b).
Definition accept (i : IncomingEntry) (b : BatchState) : BatchState :=
  let seq := in_journal_sequence i in
  mkBatchState (b_outcomes b ++ [mkOutcome (in_entry_uuid i) seq true ""]) (b_acked b ++ [seq]) (b_accepted b + 1) (b_rejected b) (b_opened b) (b_in_batch b)
    (b_earliest_new b) (b_periods_touched b) (if (b_first_seq b <? 0) || (seq <? b_first_seq b) then seq else b_first_seq b)
    (if b_last_seq b <? seq then seq else b_last_seq b) (b_rejected_detail b) (b_settled b) (b_zone_disagrees b) (b_zone_agrees b) (b_zone_claimed b).
Definition in_batch (i : IncomingEntry) (b : BatchState) : BatchState :=
  mkBatchState (b_outcomes b) (b_acked b) (b_accepted b) (b_rejected b) (b_opened b) ({[in_entry_uuid i]} ∪ b_in_batch b) (b_earliest_new b)
    (b_periods_touched b) (b_first_seq b) (b_last_seq b) (b_rejected_detail b) (b_settled b) (b_zone_disagrees b) (b_zone_agrees b) (b_zone_claimed b).
Definition set_settled (s : gmap Z bool) (b : BatchState) : BatchState :=
  mkBatchState (b_outcomes b) (b_acked b) (b_accepted b) (b_rejected b) (b_opened b) (b_in_batch b) (b_earliest_new b) (b_periods_touched b) (b_first_seq b)
    (b_last_seq b) (b_rejected_detail b) s (b_zone_disagrees b) (b_zone_agrees b) (b_zone_claimed b).
Definition set_opened (opened : list Z) (b : BatchState) : BatchState :=
  mkBatchState (b_outcomes b) (b_acked b) (b_accepted b) (b_rejected b) opened (b_in_batch b) (b_earliest_new b) (b_periods_touched b) (b_first_seq b)
    (b_last_seq b) (b_rejected_detail b) (b_settled b) (b_zone_disagrees b) (b_zone_agrees b) (b_zone_claimed b).
(** The earliest new punch and the periods touched. *)
Definition note_entry (e : TimeEntry) (b : BatchState) : BatchState :=
  mkBatchState (b_outcomes b) (b_acked b) (b_accepted b) (b_rejected b) (b_opened b) (b_in_batch b)
    (if (b_earliest_new b =? 0) || (te_device_time e <? b_earliest_new b) then te_device_time e else b_earliest_new b)
    (if te_period_id e =? 0 then b_periods_touched b else te_period_id e :: b_periods_touched b) (b_first_seq b) (b_last_seq b) (b_rejected_detail b)
    (b_settled b) (b_zone_disagrees b) (b_zone_agrees b) (b_zone_claimed b).

Section batch.
Variable device : Device.
Variable batch : IncomingBatch.
Variable now_us : Z.
Variable employee_zone embedded_release : string.
Variable divergence : option Z.

(** Whether the employee has live entries past [recorded] in the period, as of
    the first time the batch asked. *)
Definition settled (period_id : Z) (b : BatchState) : Prog (bool * BatchState) :=
  match b_settled b !! period_id with
  | Some any => pret (any, b)
  | None =>
      let* in_period := entries_in_period period_id (dev_employee_id device) in
      let any := existsb (fun e => (te_superseded_by e =? 0) && negb (String.eqb (te_state e) "recorded")) in_period in
      pret (any, set_settled (<[period_id := any]> (b_settled b)) b)
  end.

Definition new_entry (i : IncomingEntry) (id period_id : Z) : TimeEntry :=
  mkTimeEntry id (in_entry_uuid i) (dev_employee_id device) (dev_id device) (Some (ib_journal_id batch)) (in_journal_sequence i) (in_kind i)
    (in_device_time_us i) (in_local_time i) employee_zone embedded_release now_us "device" divergence period_id "recorded" (in_pay_code i) 0 0 ""
    now_us (in_note i) 0.

(** The checks that refuse an entry and let the batch go on: the reason, if
    any. *)
Definition refusal (i : IncomingEntry) : Prog (option string) :=
  match validate_incoming i with
  | Err s => pret (Some (message s))
  | Ret _ =>
      let* dup := scan_eq "time_entries" "time_entries_journal_sequence" [Uuid (ib_journal_id batch); Integer (in_journal_sequence i)] in
      if negb (bool_decide (dup = [])) then
        pret (Some ("journal sequence " +:+ to_string (in_journal_sequence i) +:+ " is already stored under another entry uuid"))
      else
        let* pay_ok := (if String.eqb (in_pay_code i) "" then pret true else pay_code_active (in_pay_code i)) in
        if negb pay_ok then pret (Some ("unknown or inactive pay code '" +:+ in_pay_code i +:+ "'"))
        else
          let* break_ok := (if String.eqb (in_break_code i) "" then pret true else break_code_active (in_break_code i)) in
          if negb break_ok then pret (Some ("unknown or inactive break code '" +:+ in_break_code i +:+ "'"))
          else
            let* s := pattempt (device_attested_valid (dev_id device) now_us) in
            match s with
            | Ret _ => pret None
            | Err s => if bool_decide (code s = Constraint) then pret (Some (message s)) else PRet (Err s)
            end
  end.
(** Storing an entry that no check refused; its local time has been validated. *)
Definition store_entry (i : IncomingEntry) (b : BatchState) : Prog BatchState :=
  match parse_local_time (bytes_of_string (in_local_time i)) with
  | Err s => PRet (Err s)
  | Ret lt =>
      let* period := period_for_day (local_day lt) in
      let period_id := match period with Some p => if String.eqb (pp_state p) "open" then pp_id p else 0 | None => 0 end in
      let* id := next_id "time_entries" in
      let e := new_entry i id period_id in
      do* entry_period_valid (local_day lt) period_id in
      let* (late, b) := (if period_id =? 0 then pret (false, b) else settled period_id b) in
      do* rec_insert dump rec "time_entries" (to_row e) in
      do* (if String.eqb (in_break_code i) "" then pret tt else mark_entry_break dump rec id (in_break_code i)) in
      let b := accept i (in_batch i b) in
      let* opened :=
        (if (late : bool) then
           opening (mkKey "late_punch" (dev_employee_id device) 0 id period_id) "punch received after the period's entries were submitted or approved" now_us (b_opened b)
         else pret (b_opened b)) in
      let b := note_entry e (set_opened opened b) in
      match period with
      | Some p =>
          if String.eqb (pp_state p) "locked" then
            let* opened := opening (mkKey "past_cutoff" (dev_employee_id device) 0 id (pp_id p))
              "punch received for a locked pay period; needs a retroactive adjustment" now_us opened in
            pret (set_opened opened b)
          else pret b
      | None => pret b
      end
  end.
Definition apply_entry (i : IncomingEntry) (b : BatchState) : Prog BatchState :=
  let b := claim_zone employee_zone i b in
  if bool_decide (in_entry_uuid i ∈ b_in_batch b) then pret (accept i b)
  else
    let* existing := entry_by_uuid (in_entry_uuid i) in
    match existing with
    | Some e =>
        let b := in_batch i b in
        if negb (te_device_id e =? dev_id device) then pret (reject i "entry uuid belongs to another device" b) else pret (accept i b)
    | None =>
        let* why := refusal i in
        match why with
        | Some why => pret (reject i why b)
        | None => store_entry i b
        end
    end.
Fixpoint apply_entries (l : list IncomingEntry) (b : BatchState) : Prog BatchState :=
  match l with
  | [] => pret b
  | i :: l => let* b := apply_entry i b in apply_entries l b
  end.

(** What follows the loop. *)
Definition report_zone (b : BatchState) : Prog (list Z) :=
  let key := mkKey "local_clock_mismatch" (dev_employee_id device) (dev_id device) 0 0 in
  if b_zone_disagrees b then
    opening key ("device reports site zone '" +:+ b_zone_claimed b +:+ "', the server's record for the employee is '" +:+ employee_zone
      +:+ "'; the server's record was used") now_us (b_opened b)
  else if b_zone_agrees b then
    let* _ := resolve_matching dump rec key "device agreed with the server's site zone" now_us in pret (b_opened b)
  else pret (b_opened b).
Definition report_rejected (rejected_detail : string) (opened : list Z) : Prog (list Z) :=
  if String.eqb rejected_detail "" then pret opened
  else
    let key := mkKey "entry_rejected" (dev_employee_id device) (dev_id device) 0 0 in
    let detail := String.substring 0 2048 rejected_detail in
    let* existing := open_exceptions [dev_employee_id device] "entry_rejected" in
    if existsb (fun x => (ex_device_id x =? dev_id device) && String.eqb (ex_detail x) detail) existing then pret opened
    else
      let* _ := resolve_matching dump rec key "sync" now_us in
      opening key detail now_us opened.
Fixpoint apply_reports (l : list IncomingReport) (opened : list Z) : Prog (list Z) :=
  match l with
  | [] => pret opened
  | r :: l =>
      if negb (String.eqb (rp_kind r) "retry_exhausted") && negb (String.eqb (rp_kind r) "journal_recovery") then
        PRet (invalid_argument "report kind must be retry_exhausted or journal_recovery")
      else
        let* opened := opening (mkKey (rp_kind r) (dev_employee_id device) (dev_id device) 0 0) (String.substring 0 512 (rp_detail r)) now_us opened in
        apply_reports l opened
  end.
Definition heard_from (acked : list Z) : Device :=
  mkDevice (dev_id device) (dev_device_uuid device) (dev_name device) (dev_employee_id device) (dev_credential_hash device) (dev_enrolled_at device)
    (dev_enrolled_by device) (dev_revoked_at device) (dev_revoked_reason device) now_us (fold_left Z.max acked (dev_last_acked_sequence device))
    (Some (ib_journal_id batch)) (dev_employee_id_rejections device).
Definition acknowledge (acked : list Z) : Prog Z :=
  let d := heard_from acked in
  do* rec_update dump rec "devices" (to_row d) in
  let* _ := resolve_matching dump rec (mkKey "device_stale" (dev_employee_id device) (dev_id device) 0 0) "sync" now_us in
  pret (dev_last_acked_sequence d).
Definition record_batch (seen : option SyncBatch) (b : BatchState) : Prog unit :=
  match seen with
  | Some s =>
      rec_update dump rec "sync_batches" (to_row (mkSyncBatch (sb_id s) (sb_batch_uuid s) (sb_device_id s) now_us (sb_first_sequence s) (sb_last_sequence s)
        (b_accepted b) (b_rejected b) (sb_client_time_us s) (sb_clock_divergence_us s) (sb_journal_id s)))
  | None =>
      let* id := next_id "sync_batches" in
      rec_insert dump rec "sync_batches" (to_row (mkSyncBatch id (ib_batch_uuid batch) (dev_id device) now_us (Z.max (b_first_seq b) 0) (Z.max (b_last_seq b) 0)
        (b_accepted b) (b_rejected b) (ib_client_time_us batch) divergence (Some (ib_journal_id batch))))
  end.
Fixpoint count_periods (l : list Z) (opened : list Z) : Prog (list Z) :=
  match l with
  | [] => pret opened
  | p :: l => let* opened := count_device_attested (dev_employee_id device) p now_us opened in count_periods l opened
  end.
End batch.

Definition by_sequence (a b : IncomingEntry) : Prop := in_journal_sequence a <= in_journal_sequence b.
#[export] Instance by_sequence_dec : RelDecision by_sequence.
Proof. intros a b. unfold by_sequence. apply _. Defined.

Definition clock_check (device : Device) (client_time_us now_us : Z) : Prog (option Z * list Z) :=
  if client_time_us =? 0 then pret (None, [])
  else
    let diff := now_us - client_time_us in
    let tol := clock_divergence_tolerance_seconds cfg * 1000000 in
    if (tol <? diff) || (diff <? - tol) then
      let* opened := opening (mkKey "clock_divergence" (dev_employee_id device) (dev_id device) 0 0)
        ("device clock differs from the server's by " +:+ to_string (Z.quot diff 1000000) +:+ " s") now_us [] in
      pret (Some diff, opened)
    else pret (Some diff, []).

(** What follows the pairing: counts, reports, the acknowledgement, the record
    of the batch and the answer. *)
Definition finish_batch (device : Device) (batch : IncomingBatch) (now_us : Z) (zone : string) (divergence : option Z) (seen : option SyncBatch)
    (b : BatchState) (opened : list Z) : Prog SyncOutcome :=
  let* opened := count_periods device now_us (sorted_ids (b_periods_touched b)) opened in
  let* opened := report_zone device now_us zone (set_opened opened b) in
  let* opened := report_rejected device now_us (b_rejected_detail b) opened in
  let* opened := apply_reports device now_us (ib_reports batch) opened in
  let* last_acked := acknowledge device batch now_us (b_acked b) in
  do* record_batch device batch now_us divergence seen b in
  pret (mkSyncOutcome (b_outcomes b) (sorted_ids (b_acked b)) last_acked (b_accepted b) (b_rejected b) (bool_decide (is_Some seen)) divergence opened).
Definition apply_batch (release_stamp : string) (fuel : nat) (device : Device) (batch : IncomingBatch) (now_us : Z) : Prog SyncOutcome :=
  if max_batch_entries cfg <? Z.of_nat (length (ib_entries batch)) then
    PRet (invalid_argument ("batch exceeds " +:+ to_string (max_batch_entries cfg) +:+ " entries"))
  else
    let* seen := batch_by_uuid (ib_batch_uuid batch) in
    let* employee := employee_by_id (dev_employee_id device) in
    match employee with
    | None => PRet (not_found "the device's employee does not exist")
    | Some emp =>
        let zone := emp_site_zone emp in
        let* (divergence, opened) := clock_check device (ib_client_time_us batch) now_us in
        let* b := apply_entries device batch now_us zone release_stamp divergence (merge_sort by_sequence (ib_entries batch)) (no_entries opened) in
        let* opened :=
          (if b_earliest_new b =? 0 then pret (b_opened b) else repair_pairing (dev_employee_id device) now_us fuel (b_earliest_new b) (b_opened b)) in
        finish_batch device batch now_us zone divergence seen b opened
    end.

(** * Manual entries *)

Definition reason_char (c : Z) : bool := ((65 <=? c) && (c <=? 90)) || ((48 <=? c) && (c <=? 57)) || (c =? 95).
(** The checks of the request itself. *)
Definition manual_checks (m : ManualEntry) : Result LocalTime :=
  if negb (String.eqb (me_kind m) "in") && negb (String.eqb (me_kind m) "out") then invalid_argument "kind must be in or out"
  else if me_device_time_us m <=? 0 then invalid_argument "device_time_us must be positive"
  else
    let? lt := parse_local_time (bytes_of_string (me_local_time m)) in
    if String.eqb (me_reason m) "" then constraint "PL-4: a manual entry needs a reason"
    else if negb (String.eqb (me_edit_class m) "payroll") && negb (String.eqb (me_edit_class m) "supervisor") then
      invalid_argument "edit_class must be payroll or supervisor"
    else if String.eqb (me_reason_code m) "" || size_over (me_reason_code m) 16 then invalid_argument "a reason_code of 1 to 16 characters is required"
    else if negb (forallb reason_char (bytes_of_string (me_reason_code m))) then invalid_argument "reason_code is upper-case letters, digits and underscore"
    else if negb (String.eqb (me_break_code m) "") && negb (String.eqb (me_kind m) "out") then invalid_argument "a break code applies to an out punch"
    else Ret lt.

Definition no_device : Device := mkDevice 0 (replicate 16 0) "" 0 [] 0 "" 0 "" 0 (-1) None 0.
Definition better_device (row : Row) (best : Device) : bool * Device :=
  let d : Device := from_row row in
  (true, if (dev_id best =? 0) || (dev_revoked_at d =? 0) || (dev_enrolled_at best <? dev_enrolled_at d) then d else best).
(** The entry a correction is of, and the device the entry is attributed to. *)
Definition attribution (m : ManualEntry) : Prog (option TimeEntry * Z) :=
  if negb (me_correction_of m =? 0) then
    do* correction_valid (me_correction_of m) (me_employee_id m) (me_reason m) in
    let* o := entry_by_id (me_correction_of m) in
    match o with
    | None => PRet (not_found "no such entry to correct")
    | Some original =>
        if negb (te_superseded_by original =? 0) then PRet (constraint "PL-4: that entry has already been corrected")
        else if later_than_submitted (te_state original) then
          PRet (constraint ("PL-4: an entry that is " +:+ te_state original +:+ " takes a retroactive adjustment, not a correction"))
        else pret (Some original, te_device_id original)
    end
  else
    let* best := pscan "devices" "devices_employee" (eq_bound [Integer (me_employee_id m)]) (eq_bound [Integer (me_employee_id m)]) false better_device no_device in
    if dev_id best =? 0 then PRet (constraint "employee has no device to attribute a manual entry to") else pret (None, dev_id best).
(** The period of the entry, which must not be locked nor, for payroll, held. *)
Definition manual_period (m : ManualEntry) (local_day_ : Z) : Prog Z :=
  let* period := period_for_day local_day_ in
  match period with
  | None => pret 0
  | Some p =>
      if String.eqb (pp_state p) "locked" then PRet (constraint "pay period is locked; a retroactive adjustment is the payroll console's action")
      else if String.eqb (me_edit_class m) "payroll" then
        let* hold := open_hold (me_employee_id m) (pp_id p) in
        match hold with Some _ => PRet (not_found "no such timesheet") | None => pret (pp_id p) end
      else pret (pp_id p)
  end.
Definition manual_uuid (id : Z) : Bytes := 238 :: replicate 7 0 ++ rev (le_bytes 8 (u64_of_i64 id)).
Definition superseded (e : TimeEntry) (id : Z) : TimeEntry :=
  mkTimeEntry (te_id e) (te_entry_uuid e) (te_employee_id e) (te_device_id e) (te_journal_id e) (te_journal_sequence e) (te_kind e) (te_device_time e)
    (te_local_time e) (te_site_zone e) (te_tzdb_version e) (te_receipt_time e) (te_attestation e) (te_clock_divergence_us e) (te_period_id e) (te_state e)
    (te_pay_code e) (te_approval_audit_id e) (te_correction_of e) (te_correction_reason e) (te_created_at e) (te_note e) id.
(** Superseding the corrected entry and resolving its exceptions; where the
    pairing starts again. *)
Definition supersede (m : ManualEntry) (e : TimeEntry) (original : option TimeEntry) (now_us : Z) : Prog Z :=
  match original with
  | None => pret (te_device_time e)
  | Some o =>
      do* rec_update dump rec "time_entries" (to_row (superseded o (te_id e))) in
      do* pfor kPairingKinds (fun kind =>
        let* _ := resolve_matching dump rec (mkKey kind (me_employee_id m) 0 (te_id o) 0) "correction" now_us in
        let* _ := resolve_matching dump rec (mkKey kind (me_employee_id m) (te_device_id o) (te_id o) 0) "correction" now_us in
        pret tt) in
      pret (Z.min (te_device_time e) (te_device_time o))
  end.

Definition record_manual_entry (release_stamp : string) (fuel : nat) (m : ManualEntry) (now_us : Z) : Prog TimeEntry :=
  let* lt := PRet (manual_checks m) in
  let* emp := employee_by_id (me_employee_id m) in
  match emp with
  | None => PRet (not_found "no such employee")
  | Some emp =>
      let* (original, device_id) := attribution m in
      let* pay_ok := (if String.eqb (me_pay_code m) "" then pret true else pay_code_active (me_pay_code m)) in
      if negb pay_ok then PRet (invalid_argument ("unknown or inactive pay code '" +:+ me_pay_code m +:+ "'"))
      else
        let* period_id := manual_period m (local_day lt) in
        let* id := next_id "time_entries" in
        let e := mkTimeEntry id (manual_uuid id) (me_employee_id m) device_id None 0 (me_kind m) (me_device_time_us m) (me_local_time m) (emp_site_zone emp)
                   release_stamp now_us "manual" None period_id "recorded" (me_pay_code m) 0 (me_correction_of m) (me_reason m) now_us (me_note m) 0 in
        do* entry_period_valid (local_day lt) period_id in
        do* rec_insert dump rec "time_entries" (to_row e) in
        do* (if String.eqb (me_break_code m) "" then pret tt else mark_entry_break dump rec id (me_break_code m)) in
        do* record_entry_edit dump rec id (me_edit_class m) (me_reason_code m) (me_editor m) now_us in
        let* from := supersede m e original now_us in
        let* _ := repair_pairing (me_employee_id m) now_us fuel from [] in
        pret e
  end.
End sync.
