(* ===== verification/PunchFrames.v ===== *)
(** The tables that each operation of the module may change.

    [frame_run] turns such a bound into an equation between the tables before
    and after. *)

From stdpp Require Import base numbers list gmap strings sorting.
From S2P Require Import Prelude Bytes PageFormat Types Record LocalTime StoreSchema Store StoreRep StoreSpec CoreSchema Program Recorder PunchData PunchRules PunchPayroll PunchSync.
From stdpp Require Import list.
Open Scope Z_scope.
Open Scope prog_scope.

(** Follows a program to its writes. *)
Ltac follow :=
  repeat (cbv beta iota zeta; first
    [ exact I | assumption | solve [eauto with writes]
    | apply writes_bind; [|intros ?] | apply writes_for; intros ?
    | match goal with
      | |- writes_only _ (if ?b then _ else _) => destruct b
      | |- writes_only _ (match ?x with _ => _ end) => destruct x
      | |- forall _, _ => intros ?
      end ]).

Lemma run_writes {A} max_key cat names (p : Prog A) d a d' : writes_only names p -> run max_key cat p d = (Ret a, d') -> same_but names d d'.
Proof. intros Hw Hr. pose proof (run_same max_key cat names p Hw d) as H. by rewrite Hr in H. Qed.

(** * Reads *)

Section reads.
Context (names : list string).
Lemma by_pk_writes {T} `{RowCodec T} table_ id : writes_only names (by_pk table_ id).
Proof. intros r. by destruct r. Qed.
Lemma scan_eq_writes table_ iname values : writes_only names (scan_eq table_ iname values).
Proof. intros r. exact I. Qed.
Lemma all_writes {T} `{RowCodec T} table_ iname values : writes_only names (all (scan_eq table_ iname values)).
Proof. intros r. by destruct r. Qed.
Lemma first_writes {T} `{RowCodec T} table_ iname values : writes_only names (first (scan_eq table_ iname values)).
Proof. intros r. by destruct r as [[|]|]. Qed.
Lemma open_where_writes p : writes_only names (open_where p).
Proof. intros r. exact I. Qed.
Lemma entries_in_period_writes p e : writes_only names (entries_in_period p e).
Proof. apply writes_bind; [apply all_writes|done]. Qed.
Lemma shifts_in_period_writes p e : writes_only names (shifts_in_period p e).
Proof. apply writes_bind; [apply all_writes|done]. Qed.
Lemma totals_writes cfg e p : writes_only names (totals_of cfg e p).
Proof. apply writes_bind; [apply shifts_in_period_writes|done]. Qed.
Lemma hours_at_writes e day : writes_only names (schedule_hours_at e day).
Proof. apply writes_bind; [apply all_writes|done]. Qed.
Lemma open_hold_writes e p : writes_only names (open_hold e p).
Proof. apply writes_bind; [apply all_writes|done]. Qed.
Lemma authorization_writes e p : writes_only names (latest_authorization e p).
Proof. apply writes_bind; [apply all_writes|done]. Qed.
Lemma rule_at_writes code day : writes_only names (premium_rule_at code day).
Proof. apply writes_bind; [apply all_writes|done]. Qed.
Lemma supervises_reads e at_us who : writes_only names (supervises e at_us who).
Proof. unfold supervises. destruct (st_employee_id who); [|done]. destruct (holds who "supervisor"); [|done]. apply writes_bind; [intros r; exact I|done]. Qed.
Lemma allowed_reads e from to who at_us : writes_only names (transition_allowed e from to who at_us).
Proof.
  unfold transition_allowed, pguard. repeat (first [done | apply writes_bind; [apply supervises_reads|intros [|]] | match goal with |- writes_only _ (if ?b then _ else _) => destruct b end]).
Qed.
End reads.
#[export] Hint Resolve by_pk_writes scan_eq_writes all_writes first_writes open_where_writes entries_in_period_writes shifts_in_period_writes totals_writes
  hours_at_writes open_hold_writes authorization_writes rule_at_writes allowed_reads : writes.

Lemma breaches_writes names e limit reason pre post l : forall acc, writes_only names (breaches_in e limit reason pre post l acc).
Proof. induction l as [|[day us] l IH]; intros acc; cbn [breaches_in]; [done|]. follow; apply IH. Qed.
Lemma excess_over_writes names e limit l : forall acc, writes_only names (excess_over e limit l acc).
Proof. induction l as [|[day us] l IH]; intros acc; cbn [excess_over]; [done|]. follow; apply IH. Qed.
Lemma excess_writes names e t : writes_only names (overtime_excess_minutes e t).
Proof. apply writes_bind; [apply excess_over_writes|]. intros daily. apply writes_bind; [apply excess_over_writes|done]. Qed.
Lemma code_active_writes names code : writes_only names (break_code_active code).
Proof. intros r. by destruct r. Qed.
Lemma pay_code_writes names code : writes_only names (pay_code_active code).
Proof. intros r. by destruct r. Qed.
Lemma meal_of_writes names e code day out following : writes_only names (meal_of e code day out following).
Proof. unfold meal_of. follow. Qed.
Lemma entries_of_writes names e from to : writes_only names (entries_of e from to).
Proof. intros r. exact I. Qed.
Lemma current_entries_writes names e from : writes_only names (current_entries_from e from).
Proof. intros r. by destruct r. Qed.
Lemma shifts_in_states_writes names e from states : forall out, writes_only names (shifts_in_states e from states out).
Proof. induction states as [|s states IH]; intros out; cbn [shifts_in_states]; [done|]. intros [r|]; [apply IH|done]. Qed.
Lemma shifts_from_writes names e from : writes_only names (shifts_from e from).
Proof. apply writes_bind; [apply shifts_in_states_writes|done]. Qed.
Lemma rebuild_range_writes names e fuel : forall start, writes_only names (rebuild_range e fuel start).
Proof.
  induction fuel as [|fuel IH]; intros start; cbn [rebuild_range]; [done|]. apply writes_bind; [apply shifts_from_writes|]. intros touched. cbv zeta.
  destruct (_ =? start); [done|apply IH].
Qed.
#[export] Hint Resolve breaches_writes excess_writes code_active_writes pay_code_writes meal_of_writes entries_of_writes current_entries_writes
  shifts_from_writes rebuild_range_writes : writes.

(** * Writes *)

Section touches.
Context (dump : Json -> string) (rec : Recorder) (cfg : Config) (names : list string) (Hfeed : kChangeFeed ∈ names).

Lemma open_exception_writes key detail now_us : "exceptions" ∈ names -> writes_only names (open_exception dump rec key detail now_us).
Proof. intros Hx. unfold open_exception, open_matching. follow. Qed.
Lemma close_writes id new_state by_ now_us : "exceptions" ∈ names -> writes_only names (close_exception dump rec id new_state by_ now_us).
Proof. intros Hx. unfold close_exception, exception_by_id. follow. Qed.
Lemma resolve_writes key by_ now_us : "exceptions" ∈ names -> writes_only names (resolve_matching dump rec key by_ now_us).
Proof. intros Hx. apply writes_bind; [apply open_where_writes|]. intros l. apply writes_bind; [|done]. apply writes_for. intros x. by apply close_writes. Qed.
Lemma opening_writes key detail now_us opened : "exceptions" ∈ names -> writes_only names (opening dump rec key detail now_us opened).
Proof. intros Hx. apply writes_bind; [by apply open_exception_writes|done]. Qed.
Lemma check_schedule_writes in_ out now_us opened : "exceptions" ∈ names -> writes_only names (check_schedule dump rec cfg in_ out now_us opened).
Proof.
  intros Hx. unfold check_schedule. destruct (parse_local_time _); [|done]. destruct (parse_local_time _); [|done]. apply writes_bind; [apply all_writes|]. intros scheds. cbv zeta.
  destruct (List.filter _ scheds); [by apply opening_writes|]. destruct (last_where _ _); [|by apply opening_writes]. destruct (_ || _); [by apply opening_writes|done].
Qed.
Lemma count_attested_writes e p now_us opened : "exceptions" ∈ names -> writes_only names (count_device_attested dump rec cfg e p now_us opened).
Proof.
  intros Hx. unfold count_device_attested. destruct (_ || _); [done|]. apply writes_bind; [apply entries_in_period_writes|]. intros l. cbv zeta. destruct (_ <? _); [done|]. by apply opening_writes.
Qed.
Lemma remove_annotations_writes id : "shift_annotations" ∈ names -> writes_only names (remove_annotations dump rec id).
Proof. intros Hx. unfold remove_annotations. follow. Qed.
Lemma record_annotations_writes s in_ out : "shift_annotations" ∈ names -> writes_only names (record_annotations dump rec cfg s in_ out).
Proof.
  intros Hx. apply writes_bind; [by apply remove_annotations_writes|]. intros _. destruct (parse_local_time _); [|done]. destruct (parse_local_time _); [|done].
  apply writes_bind; [apply all_writes|]. intros scheds. destruct (last_where _ _); [|done]. follow.
Qed.
Lemma rebuild_from_writes e live : "meal_breaks" ∈ names -> writes_only names (rebuild_from dump rec e live).
Proof.
  intros Hx. induction live as [|out live IH]; cbn [rebuild_from]; [done|]. destruct (negb _); [done|]. apply writes_bind; [done|]. intros [mark|]; [|done].
  destruct (parse_local_time _); [|done]. follow.
Qed.
Lemma rebuild_meals_writes e from : "meal_breaks" ∈ names -> writes_only names (rebuild_meals dump rec e from).
Proof.
  intros Hx. unfold rebuild_meals. apply writes_bind; [apply entries_of_writes|]. intros l. cbv zeta. apply writes_bind; [follow|]. intros _. by apply rebuild_from_writes.
Qed.
Lemma evaluate_hold_writes e p now_us : "timesheet_holds" ∈ names -> writes_only names (evaluate_hold dump rec cfg e p now_us).
Proof. intros Hx. unfold evaluate_hold, period_by_id. follow. Qed.
Lemma mark_break_writes id code : "entry_break_codes" ∈ names -> writes_only names (mark_entry_break dump rec id code).
Proof. intros Hx. unfold mark_entry_break. follow. Qed.
Lemma entry_edit_writes id c r e now_us : "entry_edits" ∈ names -> writes_only names (record_entry_edit dump rec id c r e now_us).
Proof. intros Hx. unfold record_entry_edit. follow. Qed.
End touches.
#[export] Hint Resolve open_exception_writes close_writes resolve_writes opening_writes check_schedule_writes count_attested_writes remove_annotations_writes
  record_annotations_writes rebuild_meals_writes evaluate_hold_writes mark_break_writes entry_edit_writes : writes.

(** ** Pairing *)

Definition pairing_tables : list string := ["shifts"; "exceptions"; "shift_annotations"; "meal_breaks"; "timesheet_holds"; kChangeFeed].
Section pairing.
Context (dump : Json -> string) (rec : Recorder) (cfg : Config) (e now_us : Z) (names : list string) (Hfeed : kChangeFeed ∈ names) (Hx : "exceptions" ∈ names).

Lemma resolve_pairing_writes kind entry : writes_only names (resolve_pairing dump rec e now_us kind entry).
Proof. unfold resolve_pairing. follow. Qed.
Lemma flag_writes te why opened : writes_only names (flag_unpaired dump rec e now_us te why opened).
Proof. by apply opening_writes. Qed.
Hint Resolve resolve_pairing_writes flag_writes : writes.
Context (Hs : "shifts" ∈ names) (Ha : "shift_annotations" ∈ names).
Lemma remove_shift_writes s : writes_only names (remove_shift dump rec e now_us s).
Proof. unfold remove_shift. follow. Qed.
Lemma persist_open_writes i open opened : writes_only names (persist_open dump rec cfg e now_us i open opened).
Proof. unfold persist_open. follow. Qed.
Lemma close_shift_writes s i te opened : writes_only names (close_shift dump rec cfg e now_us s i te opened).
Proof. unfold close_shift. follow. Qed.
Hint Resolve persist_open_writes close_shift_writes remove_shift_writes : writes.
Lemma pair_punch_writes te open opened : writes_only names (pair_punch dump rec cfg e now_us te open opened).
Proof. unfold pair_punch. follow. Qed.
Lemma pair_punches_writes l : forall open opened, writes_only names (pair_punches dump rec cfg e now_us l open opened).
Proof. induction l as [|te l IH]; intros open opened; cbn [pair_punches]; [done|]. apply writes_bind; [apply pair_punch_writes|]. intros [o p]. apply IH. Qed.
Lemma pair_all_writes l opened : writes_only names (pair_all dump rec cfg e now_us l opened).
Proof. apply writes_bind; [apply pair_punches_writes|]. intros [open o]. apply persist_open_writes. Qed.
End pairing.
Lemma repair_writes dump rec cfg e now_us fuel from opened : writes_only pairing_tables (repair_pairing dump rec cfg e now_us fuel from opened).
Proof.
  unfold repair_pairing. apply writes_bind; [apply rebuild_range_writes|]. intros [start affected].
  apply writes_bind; [apply writes_for; intros s; apply remove_shift_writes; set_solver|]. intros _. apply writes_bind; [apply current_entries_writes|]. intros l. cbv zeta.
  apply writes_bind; [apply writes_for; intros x; apply resolve_pairing_writes; set_solver|]. intros _.
  apply writes_bind; [apply pair_all_writes; set_solver|]. intros o2.
  apply writes_bind; [apply rebuild_meals_writes; set_solver|]. intros _. apply writes_bind; [|done]. apply writes_for. intros p. apply evaluate_hold_writes; set_solver.
Qed.
