(* ===== verification/PunchRows.v ===== *)
(** The structs and the rows of their tables.

    [to_row] agrees with the declaration order, the types and the nullability
    of the columns in the schema, and [from_row] reads back what it wrote. *)

From stdpp Require Import base numbers list gmap strings.
From S2P Require Import Prelude Bytes PageFormat Types Record StoreSchema Store LocalTime CoreSchema Recorder PunchSchema PunchData PunchPayroll.
From stdpp Require Import list.
Open Scope Z_scope.

(** * Fields *)

Lemma text_back s : as_text (text s) = s.
Proof. apply string_bytes. Qed.
Lemma opt_text_back s : text_or_empty (opt_text s) = s.
Proof. unfold opt_text. destruct (String.eqb_spec s "") as [->|]; [done|]. apply string_bytes. Qed.
Lemma opt_ts_back x : int_or_zero (opt_ts x) = x.
Proof. unfold opt_ts. by destruct (Z.eqb_spec x 0) as [->|]. Qed.
Lemma opt_id_back x : int_or_zero (opt_id x) = x.
Proof. unfold opt_id. by destruct (Z.eqb_spec x 0) as [->|]. Qed.
Lemma opt_int_back x : int_opt (opt_int x) = x.
Proof. by destruct x. Qed.
Lemma opt_uuid_back x : uuid_opt (opt_uuid x) = x.
Proof. by destruct x. Qed.
Lemma boolean_back b : as_bool (Boolean b) = b.
Proof. by destruct b. Qed.
Lemma nonneg_back x : -1 <= x -> int_or_minus_one (opt_nonneg x) = x.
Proof. unfold opt_nonneg. destruct (Z.ltb_spec x 0); cbn; lia. Qed.
Lemma to_int_back x : - 2 ^ 31 <= x < 2 ^ 31 -> to_int x = x.
Proof. intros H. unfold to_int. rewrite Z.mod_small by lia. lia. Qed.
#[export] Hint Rewrite text_back opt_text_back opt_ts_back opt_id_back opt_int_back opt_uuid_back boolean_back : fields.

(** A struct all of whose fields come back. *)
Ltac field_wise := cbv -[text opt_text opt_ts opt_id opt_int opt_uuid opt_nonneg as_text text_or_empty int_or_zero
  int_opt uuid_opt as_bool int_or_minus_one to_int]; autorewrite with fields.
Ltac reads_back := intros x; destruct x; field_wise; reflexivity.

(** * The schema *)

Definition column_takes (c : ColumnDef) (v : Value) : Prop := if is_null v then nullable c = true else matches v (col_type c) = true.
(** A row with a value of its type for each column, NULL only where that is
    allowed. *)
Definition row_shape (t : TableDef) (row : Row) : Prop := Forall2 column_takes (td_columns t) row.

Lemma takes_opt_text n s : column_takes (col n TText true) (opt_text s).
Proof. unfold opt_text. by destruct (String.eqb s ""). Qed.
Lemma takes_opt_ts n x : column_takes (col n TTimestamp true) (opt_ts x).
Proof. unfold opt_ts. by destruct (x =? 0). Qed.
Lemma takes_opt_id n x : column_takes (col n TInteger true) (opt_id x).
Proof. unfold opt_id. by destruct (x =? 0). Qed.
Lemma takes_opt_int n x : column_takes (col n TInteger true) (opt_int x).
Proof. by destruct x. Qed.
Lemma takes_opt_uuid n x : column_takes (col n TUuid true) (opt_uuid x).
Proof. by destruct x. Qed.
Lemma takes_opt_nonneg n x : column_takes (col n TInteger true) (opt_nonneg x).
Proof. unfold opt_nonneg. by destruct (x <? 0). Qed.
Create HintDb shapes.
#[export] Hint Resolve takes_opt_text takes_opt_ts takes_opt_id takes_opt_int takes_opt_uuid takes_opt_nonneg : shapes.
Ltac has_shape := intros x; unfold row_shape; cbn [td_columns to_row]; repeat (apply Forall2_cons; split; [solve [eauto with shapes | reflexivity]|]); apply Forall2_nil; exact I.

(** The structs agree with the schema: every row that [to_row] builds has, in
    the order of the columns, values of their types, and NULL only in nullable
    columns. *)
Theorem rows_match_schema :
  (forall x : Employee, row_shape employees (to_row x)) /\ (forall x : Device, row_shape devices (to_row x))
  /\ (forall x : PayPeriod, row_shape pay_periods (to_row x)) /\ (forall x : SupervisorAssignment, row_shape supervisor_assignments (to_row x))
  /\ (forall x : Schedule, row_shape schedules (to_row x)) /\ (forall x : TimeEntry, row_shape time_entries (to_row x))
  /\ (forall x : Shift, row_shape shifts (to_row x)) /\ (forall x : SyncBatch, row_shape sync_batches (to_row x))
  /\ (forall x : Approval, row_shape approvals (to_row x)) /\ (forall x : Exception, row_shape exceptions (to_row x))
  /\ (forall x : ScheduleHours, row_shape schedule_hours (to_row x)) /\ (forall x : OvertimeAuthorization, row_shape overtime_authorizations (to_row x))
  /\ (forall x : TimesheetHold, row_shape timesheet_holds (to_row x)) /\ (forall x : BreakPremiumRule, row_shape break_premium_rules (to_row x))
  /\ (forall x : MealBreak, row_shape meal_breaks (to_row x)) /\ (forall x : EntryEdit, row_shape entry_edits (to_row x)).
Proof. split_and!; has_shape. Qed.

Lemma entry_roundtrip : forall x : TimeEntry, from_row (to_row x) = x.
Proof. reads_back. Qed.
Lemma shift_roundtrip : forall x : Shift, from_row (to_row x) = x.
Proof. reads_back. Qed.
Lemma exception_roundtrip : forall x : Exception, from_row (to_row x) = x.
Proof. reads_back. Qed.
Lemma hold_roundtrip : forall x : TimesheetHold, from_row (to_row x) = x.
Proof. reads_back. Qed.
Lemma period_roundtrip : forall x : PayPeriod, from_row (to_row x) = x.
Proof. reads_back. Qed.
Lemma hours_roundtrip : forall x : ScheduleHours, from_row (to_row x) = x.
Proof. reads_back. Qed.

(** What a struct can hold that its row cannot: a count below -1, and a small
    integer outside its range. *)
Definition device_plain (x : Device) : Prop := -1 <= dev_last_acked_sequence x.
Definition meal_plain (x : MealBreak) : Prop := -1 <= mb_minutes x.
Definition int_ok (x : Z) : Prop := - 2 ^ 31 <= x < 2 ^ 31.
Definition schedule_plain (x : Schedule) : Prop := int_ok (sc_weekday x) /\ int_ok (sc_start_minute x) /\ int_ok (sc_end_minute x).

Lemma device_roundtrip (x : Device) : device_plain x -> from_row (to_row x) = x.
Proof. intros H. unfold device_plain in H. destruct x. cbn in H. field_wise. by rewrite nonneg_back. Qed.
Lemma schedule_roundtrip (x : Schedule) : schedule_plain x -> from_row (to_row x) = x.
Proof. intros (H1 & H2 & H3). unfold int_ok in *. destruct x. cbn in H1, H2, H3. field_wise. by rewrite !to_int_back. Qed.
Lemma meal_roundtrip (x : MealBreak) : meal_plain x -> from_row (to_row x) = x.
Proof. intros H. unfold meal_plain in H. destruct x. cbn in H. field_wise. by rewrite nonneg_back. Qed.

(** [from_row] reads back every struct that [to_row] wrote. *)
Theorem rows_roundtrip :
  (forall x : Employee, from_row (to_row x) = x) /\ (forall x : Device, device_plain x -> from_row (to_row x) = x)
  /\ (forall x : PayPeriod, from_row (to_row x) = x) /\ (forall x : SupervisorAssignment, from_row (to_row x) = x)
  /\ (forall x : Schedule, schedule_plain x -> from_row (to_row x) = x) /\ (forall x : TimeEntry, from_row (to_row x) = x)
  /\ (forall x : Shift, from_row (to_row x) = x) /\ (forall x : SyncBatch, from_row (to_row x) = x)
  /\ (forall x : Approval, from_row (to_row x) = x) /\ (forall x : Exception, from_row (to_row x) = x)
  /\ (forall x : ScheduleHours, from_row (to_row x) = x) /\ (forall x : OvertimeAuthorization, from_row (to_row x) = x)
  /\ (forall x : TimesheetHold, from_row (to_row x) = x) /\ (forall x : BreakPremiumRule, from_row (to_row x) = x)
  /\ (forall x : MealBreak, meal_plain x -> from_row (to_row x) = x) /\ (forall x : EntryEdit, from_row (to_row x) = x).
Proof.
  split_and!; first [exact device_roundtrip | exact schedule_roundtrip | exact meal_roundtrip | reads_back].
Qed.

Lemma rows_roundtrip_witness :
  from_row (to_row (mkDevice 1 (replicate 16 7) "clock" 1 [1; 2] 1 "admin" 0 "" 0 (-1) None 0)) = mkDevice 1 (replicate 16 7) "clock" 1 [1; 2] 1 "admin" 0 "" 0 (-1) None 0.
Proof. destruct rows_roundtrip as (_ & Hd & _). apply Hd. unfold device_plain. cbn. lia. Defined.
