(* ===== verification/PunchScan.v ===== *)
(** What a program learns from a scan, and what a recorded change does.

    [visited_iff]: a scan bounded by the same values on both sides visits
    exactly the rows with these values.  [next_id_above]: the next identifier
    is above every identifier of the table.  [rec_insert_effect] and its
    companions: a recorded change changes its table and the change feed and
    nothing else. *)

From stdpp Require Import base numbers list gmap strings sorting.
From S2P Require Import Prelude Bytes PageFormat Types Record StoreSchema BTreeNode BTreeNodeFacts BTree BTreeTree Store Grove StoreRep StoreSpec StoreReads StoreRefine.
From S2P Require Import CoreSchema Program Recorder PunchData.
From stdpp Require Import list.
Open Scope Z_scope.
Open Scope prog_scope.

(** * Scans *)

Lemma within_eq values key : within (eq_bound values) (eq_bound values) key = starts_with key (encode_key values).
Proof.
  set (p := encode_key values). unfold within, past_lower, past_upper, eq_bound. cbn [b_values inclusive]. fold p. apply eq_true_iff_eq.
  rewrite andb_true_iff, !negb_true_iff, andb_false_iff, negb_false_iff, !key_less_kle. split.
  - intros [Hle [Hge|Hs]]; [|done]. apply starts_with_iff. exists []. rewrite app_nil_r. apply kle_cases in Hle as [->|Hlt]; [done|].
    apply kle_not_klt in Hge. done.
  - intros Hs. split; [|by right]. apply starts_with_iff in Hs as [s ->]. apply kle_app.
Qed.

Section visited.
Context (t : TableDef) (rows : gmap Bytes Row) (Hok : rows_ok t rows).

Lemma visited_elem idx lower upper r :
  r ∈ visited t idx lower upper rows <-> exists k, rows !! k = Some r /\ within lower upper (entry_key t idx k r) = true.
Proof.
  unfold visited, scan_entries. rewrite list_elem_of_fmap. split.
  - intros ([key r'] & -> & Hin). apply list_elem_of_In, List.filter_In in Hin as [Hin Hw]. apply list_elem_of_In in Hin.
    rewrite merge_sort_Permutation in Hin. apply list_elem_of_fmap in Hin as ([k r0] & [= -> ->] & Hin). apply elem_of_map_to_list in Hin. by exists k.
  - intros (k & Hk & Hw). exists (entry_key t idx k r, r). split; [done|]. apply list_elem_of_In, List.filter_In. split; [|done]. apply list_elem_of_In.
    rewrite merge_sort_Permutation. apply list_elem_of_fmap. exists (k, r). split; [done|]. by apply elem_of_map_to_list.
Qed.

Lemma entry_prefix idx cols values k r : index_resolves t idx -> is_prefix cols (ix_columns idx) = true -> typed values (types_of t cols) ->
  rows !! k = Some r -> starts_with (entry_key t (Some idx) k r) (encode_key values) = true <-> project t r cols = values.
Proof.
  intros Hi Hp Hv Hk. apply is_prefix_app in Hp as [more Em]. unfold index_resolves in Hi. rewrite Em in Hi. apply Forall_app in Hi as [Hi1 Hi2].
  destruct (Hok k r Hk) as [Ek Hg]. pose proof (row_values_ok _ (proj2 Hg)) as Hvok. cbn [entry_key]. unfold index_key_of.
  rewrite Em, project_app, encode_key_app by (by apply project_values_ok). rewrite <- app_assoc. rewrite starts_with_iff.
  assert (Hrest : bytes_ok (encode_key (project t r more) ++ k)).
  { apply bytes_ok_app. split; [by apply encode_key_ok, project_values_ok|]. rewrite Ek. apply pk_key_bytes, Hg. }
  split.
  - intros [s E]. assert (bytes_ok s).
    { assert (Hall : bytes_ok (encode_key values ++ s)).
      { rewrite <- E. apply bytes_ok_app. split; [by apply encode_key_ok, project_values_ok|done]. }
      by apply bytes_ok_app in Hall as [_ ?]. }
    exact (proj1 (encode_key_split _ _ _ _ _ (project_typed t r cols Hg Hi1) Hv Hrest H E)).
  - intros <-. by eexists.
Qed.

Lemma visited_iff idx cols values r : index_resolves t idx -> is_prefix cols (ix_columns idx) = true -> typed values (types_of t cols) ->
  r ∈ visited t (Some idx) (eq_bound values) (eq_bound values) rows <-> exists k, rows !! k = Some r /\ project t r cols = values.
Proof.
  intros Hi Hp Hv. rewrite visited_elem. split; intros (k & Hk & H); exists k; (split; [done|]).
  - rewrite within_eq in H. by apply (entry_prefix idx cols values k r).
  - rewrite within_eq. by apply (entry_prefix idx cols values k r).
Qed.
End visited.

(** ** Folding over the visited rows *)

Lemma fold_all {A} (f : Row -> list A) rows : forall out, fold_until (fun r out => (true, out ++ f r)) rows out = out ++ concat (map f rows).
Proof. induction rows as [|r rows IH]; intros out; cbn [fold_until map concat]; [by rewrite app_nil_r|]. by rewrite IH, app_assoc. Qed.
Lemma fold_collect {A} (p : A -> bool) (f : Row -> A) rows : forall out,
  fold_until (fun r out => (true, if p (f r) then out ++ [f r] else out)) rows out = out ++ List.filter p (map f rows).
Proof.
  induction rows as [|r rows IH]; intros out; cbn [fold_until map List.filter]; [by rewrite app_nil_r|]. rewrite IH. destruct (p (f r)); [|done].
  by rewrite <- app_assoc.
Qed.
(** A search: [fn] goes on with the state unless the row satisfies [p]. *)
Lemma fold_search {B} (fn : Row -> B -> bool * B) (p : Row -> bool) (hit : Row -> B) rows b :
  (forall r b, fn r b = if p r then (false, hit r) else (true, b)) ->
  fold_until fn rows b = match List.find p rows with Some r => hit r | None => b end.
Proof. intros Hfn. induction rows as [|r rows IH]; cbn [fold_until List.find]; [done|]. rewrite Hfn. destruct (p r); [done|apply IH]. Qed.

(** * Tables of the catalog *)

Section programs.
Context (max_key : nat) (cat : Catalog).

Definition scan_ready (name iname : string) (t : TableDef) (idx : IndexDef) (values : Row) : Prop :=
  StoreSchema.table cat name = Some t /\ String.eqb iname "" = false /\ StoreSchema.index t iname = Some idx
  /\ check_bound t (key_columns t (Some idx)) (eq_bound values) = Ret tt.
Lemma run_scan {B} name iname t idx values (fn : Row -> B -> bool * B) b d : scan_ready name iname t idx values ->
  run max_key cat (pscan name iname (eq_bound values) (eq_bound values) false fn b) d
  = (Ret (fold_until fn (visited t (Some idx) (eq_bound values) (eq_bound values) (rows_of d name)) b), d).
Proof.
  intros (Ht & Hn & Hi & Hb). unfold pscan. cbn [run]. unfold spec_scan. rewrite Ht, Hn, Hi. cbn [rbind]. by rewrite Hb.
Qed.
Lemma run_scan_eq name iname t idx values d : scan_ready name iname t idx values ->
  run max_key cat (scan_eq name iname values) d = (Ret (visited t (Some idx) (eq_bound values) (eq_bound values) (rows_of d name)), d).
Proof.
  intros Hs. unfold scan_eq, pscan_all. rewrite (run_scan _ _ t idx) by done. f_equal. f_equal. rewrite (fold_all (fun r => [r])). cbn [app].
  induction (visited _ _ _ _ _) as [|r l IH]; [done|]. cbn [map concat app]. by rewrite IH.
Qed.
Lemma run_all_rows {T} `{RowCodec T} (p : Prog (list Row)) d rows : run max_key cat p d = (Ret rows, d) ->
  run max_key cat (all p) d = (Ret (map from_row rows : list T), d).
Proof. intros Hp. unfold all. rewrite run_bind, Hp. done. Qed.

(** ** Recorded changes *)

Lemma run_write_inv op d d' : run max_key cat (pwrite op) d = (Ret tt, d') -> spec_row_op max_key cat d op = (Ret tt, d').
Proof. unfold pwrite. cbn [run]. destruct (spec_row_op max_key cat d op) as [r d1]. cbn [run]. done. Qed.
Lemma spec_insert_inv d name row d' : spec_insert max_key cat d name row = (Ret tt, d') ->
  exists t, StoreSchema.table cat name = Some t /\ insert_allowed max_key cat d t row = Ret tt /\ d' = <[name := <[pk_key_of t row := row]> (rows_of d name)]> d.
Proof.
  unfold spec_insert, changing. destruct (StoreSchema.table cat name) as [t|]; [|done]. destruct (insert_allowed max_key cat d t row) as [[]|] eqn:E; [|done].
  intros [= <-]. by exists t.
Qed.
Lemma spec_update_inv d name row d' : spec_update max_key cat d name row = (Ret tt, d') ->
  exists t old, StoreSchema.table cat name = Some t /\ validate_row t row = Ret tt /\ rows_of d name !! pk_key_of t row = Some old
    /\ (rows_equal old row = true /\ d' = d \/ d' = <[name := <[pk_key_of t row := row]> (rows_of d name)]> d).
Proof.
  unfold spec_update, changing. destruct (StoreSchema.table cat name) as [t|]; [|done]. destruct (validate_row t row) as [[]|] eqn:Ev; [|done].
  destruct (rows_of d name !! pk_key_of t row) as [old|] eqn:E0; [|done]. destruct (rows_equal old row) eqn:Er; [intros [= <-]; exists t, old; split_and!; [done..|by left]|].
  destruct (update_allowed max_key cat d t old row) as [[]|]; [|done]. intros [= <-]. exists t, old. split_and!; [done..|by right].
Qed.

Lemma next_id_reads name d : snd (run max_key cat (next_id name) d) = d.
Proof.
  unfold next_id, pcatalog. cbn [pbind run pret]. destruct (StoreSchema.table cat name) as [t|]; [|done].
  destruct (td_primary_key t) as [|c [|]]; [done| |done]. destruct (negb _); [done|]. rewrite run_bind. unfold pscan. cbn [run].
  by destruct (spec_scan _ _ _ _ _ _ _ _ _).
Qed.

(** The row of the change feed. *)
Definition feed_row (dump : Json -> string) (rec : Recorder) (id : Z) (table_ op : string) (key : Json) (before after : option Json) : Row :=
  [Integer id; Integer (audit_id rec); Timestamp (now_us_ rec); text table_; text op; text (dump key); opt_image dump before; opt_image dump after].

Lemma feed_effect dump rec table_ op key before after d d' : run max_key cat (feed dump rec table_ op key before after) d = (Ret tt, d') ->
  exists id, run max_key cat (next_id kChangeFeed) d = (Ret id, d)
    /\ spec_insert max_key cat d kChangeFeed (feed_row dump rec id table_ op key before after) = (Ret tt, d').
Proof.
  unfold feed. rewrite run_bind. pose proof (next_id_reads kChangeFeed d) as Hd. destruct (run max_key cat (next_id kChangeFeed) d) as [[id|] d1]; [|done].
  cbn in Hd. subst d1. intros H. apply run_write_inv in H. by exists id.
Qed.
Lemma feed_same dump rec table_ op key before after d d' : run max_key cat (feed dump rec table_ op key before after) d = (Ret tt, d') -> same_but [kChangeFeed] d d'.
Proof.
  intros H. apply feed_effect in H as (id & _ & H). apply spec_insert_inv in H as (t & _ & _ & ->). intros n Hn. apply rows_of_ne. intros ->. apply Hn. by left.
Qed.

Lemma recording_inv rec name (m : TableDef -> Prog unit) d d' : run max_key cat (while_recording rec name m) d = (Ret tt, d') ->
  exists t, StoreSchema.table cat name = Some t /\ run max_key cat (m t) d = (Ret tt, d').
Proof.
  unfold while_recording. destruct (status_ rec); [|done]. unfold pcatalog. cbn [pbind run pret]. destruct (StoreSchema.table cat name) as [t|]; [|done].
  by exists t.
Qed.

(** A recorded change that succeeds: what became of its table. *)
Lemma rec_insert_effect dump rec name row d d' : name <> kChangeFeed -> run max_key cat (rec_insert dump rec name row) d = (Ret tt, d') ->
  exists t, StoreSchema.table cat name = Some t /\ insert_allowed max_key cat d t row = Ret tt
    /\ rows_of d' name = <[pk_key_of t row := row]> (rows_of d name) /\ same_but [name; kChangeFeed] d d'.
Proof.
  intros Hne H. apply recording_inv in H as (t & Ht & H). rewrite run_bind in H. exists t. split; [done|].
  destruct (run max_key cat (pwrite (RInsert name row)) d) as [[[]|] d1] eqn:E1; [|done]. apply run_write_inv, spec_insert_inv in E1 as (t' & Ht' & Hok & ->).
  simplify_eq. split; [done|]. apply feed_same in H. split.
  - rewrite H by (by rewrite list_elem_of_singleton). apply rows_of_eq.
  - intros n [Hn1 Hn2]%not_elem_of_cons. rewrite H by done. by apply rows_of_ne.
Qed.
Lemma rec_update_effect dump rec name row d d' : name <> kChangeFeed -> run max_key cat (rec_update dump rec name row) d = (Ret tt, d') ->
  exists t old, StoreSchema.table cat name = Some t /\ validate_row t row = Ret tt /\ rows_of d name !! pk_key_of t row = Some old
    /\ (rows_of d' name = <[pk_key_of t row := row]> (rows_of d name) \/ rows_equal old row = true /\ rows_of d' name = rows_of d name)
    /\ same_but [name; kChangeFeed] d d'.
Proof.
  intros Hne H. apply recording_inv in H as (t & Ht & H). rewrite run_bind in H. unfold pget in H. cbn [run] in H.
  destruct (spec_get cat d name _) as [[old|]|]; [|done|done]. rewrite run_bind in H.
  destruct (run max_key cat (pwrite (RUpdate name row)) d) as [[[]|] d1] eqn:E1; [|done].
  apply run_write_inv, spec_update_inv in E1 as (t' & old' & Ht' & Hv & H0 & Hd1). simplify_eq. exists t, old'. apply feed_same in H.
  split_and!; [done|done|done| |].
  - rewrite H by (by rewrite list_elem_of_singleton). destruct Hd1 as [[Heq ->]| ->]; [by right|left; apply rows_of_eq].
  - intros n [Hn1 Hn2]%not_elem_of_cons. rewrite H by done. destruct Hd1 as [[_ ->]| ->]; [done|by apply rows_of_ne].
Qed.
End programs.

(** * Identifiers *)

Lemma integer_key_order a b : i64_ok a -> i64_ok b -> kle (encode_key [Integer a]) (encode_key [Integer b]) -> a <= b.
Proof.
  intros Ha Hb. unfold kle. rewrite !encode_key_bytes by (constructor; [done|constructor]).
  rewrite (lex_keys [TInteger]) by (constructor; [done|constructor]). cbn. destruct (Z.compare_spec a b); [lia|lia|done].
Qed.
Lemma sorted_last {A} (R : A -> A -> Prop) l x : StronglySorted R (l ++ [x]) -> Forall (fun y => y = x \/ R y x) (l ++ [x]).
Proof.
  induction l as [|a l IH]; cbn [app]; intros Hs; [by repeat constructor|]. apply StronglySorted_inv in Hs as [Hs Ha]. constructor; [|by apply IH].
  rewrite Forall_forall in Ha. right. apply Ha, elem_of_app. right. by left.
Qed.
(** The value of a column that holds integers and no NULL. *)
Lemma integer_field t r c : good_row t r -> has_column t c -> col_type (column t c) = TInteger -> nullable (column t c) = false ->
  exists i, field t r c = Integer i /\ i64_ok i.
Proof.
  intros [[Hrow _] Hfits] [j Hj] Hty Hnull. pose proof (row_values_ok _ Hfits) as Hok. unfold field, column in *. rewrite Hj in *.
  destruct (lookup_lt_is_Some_2 _ _ (position_bound _ _ _ Hj)) as [cd Hcd]. rewrite (nth_lookup_Some _ _ _ _ Hcd) in Hty, Hnull.
  destruct (Forall2_lookup_l _ _ _ _ _ Hrow Hcd) as (v & Hv & Hfit). rewrite (nth_lookup_Some _ _ _ _ Hv).
  rewrite Forall_lookup in Hok. specialize (Hok j v Hv). destruct v as [|i| | | | | |]; cbn in Hfit; rewrite ?Hty, ?Hnull in Hfit; try done; [by exists i|].
  by destruct Hfit.
Qed.

Lemma next_id_above max_key cat d name t c id : StoreSchema.table cat name = Some t -> rows_ok t (rows_of d name) ->
  td_primary_key t = [c] -> has_column t c -> nullable (column t c) = false ->
  run max_key cat (next_id name) d = (Ret id, d) ->
  forall k r, rows_of d name !! k = Some r -> exists i, field t r c = Integer i /\ i < id.
Proof.
  intros Ht Hok Hpk Hc Hnull Hrun k r Hk. unfold next_id, pcatalog in Hrun. cbn [pbind run pret] in Hrun. rewrite Ht, Hpk in Hrun.
  case_bool_decide as Hty; [|done]. cbn [negb] in Hrun. rewrite run_bind in Hrun. unfold pscan in Hrun. cbn [run] in Hrun. unfold spec_scan in Hrun.
  rewrite Ht in Hrun. cbn [String.eqb rbind check_bound] in Hrun. injection Hrun as Hid.
  assert (Hint : forall k r, rows_of d name !! k = Some r -> exists i, field t r c = Integer i /\ i64_ok i /\ k = encode_key [Integer i]).
  { clear Hid k r Hk. intros k r Hk. destruct (Hok k r Hk) as [Ek Hg].
    pose proof (integer_field t r c Hg Hc Hty Hnull) as (i & Ei & Hi). exists i. split_and!; [done|done|]. rewrite Ek. unfold pk_key_of. rewrite Hpk. cbn. by rewrite Ei. }
  destruct (Hint k r Hk) as (i & Ei & Hi & Eki). exists i. split; [done|].
  set (l := visited t None None None (rows_of d name)) in Hid. assert (Hr : r ∈ l) by (apply visited_elem; by exists k).
  set (es := scan_entries t None (rows_of d name)). assert (El : l = map snd es) by apply visited_all.
  assert (Hes : forall e, e ∈ es <-> rows_of d name !! fst e = Some (snd e)).
  { intros [ke re]. unfold es, scan_entries. rewrite merge_sort_Permutation, list_elem_of_fmap. cbn [fst snd entry_key]. split.
    - intros ([k' r'] & [= -> ->] & Hin). by apply elem_of_map_to_list in Hin.
    - intros Hin. exists (ke, re). split; [done|]. by apply elem_of_map_to_list. }
  assert (Hin : (k, r) ∈ es) by (by apply Hes). assert (Hsort : StronglySorted entry_le es) by (apply StronglySorted_merge_sort; apply _).
  destruct es as [|e0 es'] using rev_ind; [by apply not_elem_of_nil in Hin|]. clear IHes'. rewrite El, map_app, rev_app_distr in Hid. cbn in Hid.
  apply sorted_last in Hsort. rewrite Forall_forall in Hsort. specialize (Hsort _ Hin).
  destruct (Hint (fst e0) (snd e0)) as (i0 & Ei0 & Hi0 & Eki0); [apply Hes, elem_of_app; right; by left|]. rewrite Ei0 in Hid. cbn in Hid.
  assert (i <= i0); [|lia]. apply integer_key_order; [done|done|]. rewrite <- Eki, <- Eki0. destruct Hsort as [<-|Hle]; [apply kle_refl|].
  unfold entry_le in Hle. cbn [fst] in Hle. by apply key_less_kle in Hle.
Qed.

(** * Loops of updates *)

Lemma pfor_updates max_key cat dump rec name t {A} (f : A -> Row) l : name <> kChangeFeed -> StoreSchema.table cat name = Some t ->
  NoDup (map (fun x => pk_key_of t (f x)) l) -> forall d d',
  (forall x old, x ∈ l -> rows_of d name !! pk_key_of t (f x) = Some old -> rows_equal old (f x) = false) ->
  run max_key cat (pfor l (fun x => rec_update dump rec name (f x))) d = (Ret tt, d') ->
  (forall x, x ∈ l -> rows_of d' name !! pk_key_of t (f x) = Some (f x))
  /\ (forall k, k ∉ map (fun x => pk_key_of t (f x)) l -> rows_of d' name !! k = rows_of d name !! k).
Proof.
  intros Hne Ht. induction l as [|x l IH]; intros Hnd d d' Hdiff Hrun; cbn [pfor] in Hrun.
  { injection Hrun as <-. split; [by intros x ?%not_elem_of_nil|done]. }
  cbn [map] in Hnd. apply NoDup_cons in Hnd as [Hx Hnd]. rewrite run_bind in Hrun.
  destruct (run max_key cat (rec_update dump rec name (f x)) d) as [[[]|] d1] eqn:E1; [|done].
  apply rec_update_effect in E1 as (t' & old & Ht' & _ & Hold & Hd1 & _); [|done]. rewrite Ht in Ht'. injection Ht' as <-.
  assert (Hrows : rows_of d1 name = <[pk_key_of t (f x) := f x]> (rows_of d name)).
  { destruct Hd1 as [?|[Heq _]]; [done|]. rewrite (Hdiff x old) in Heq; [done|by left|done]. }
  assert (Hkeys : forall y, y ∈ l -> pk_key_of t (f y) <> pk_key_of t (f x)).
  { intros y Hy E. apply Hx. rewrite <- E. exact (list_elem_of_fmap_2 (fun x => pk_key_of t (f x)) _ _ Hy). }
  destruct (IH Hnd d1 d') as [Hin Hout].
  { intros y old' Hy. rewrite Hrows, lookup_insert_ne by (apply not_eq_sym; by apply Hkeys). apply Hdiff. by right. }
  { exact Hrun. }
  split.
  - intros y [->|Hy]%elem_of_cons; [|by apply Hin]. rewrite Hout by done. by rewrite Hrows, lookup_insert_eq.
  - intros k [Hk1 Hk2]%not_elem_of_cons. rewrite Hout by done. by rewrite Hrows, lookup_insert_ne.
Qed.

(** The rows of a scan have different keys. *)
Lemma visited_keys t idx lower upper rows : rows_ok t rows -> NoDup (map (pk_key_of t) (visited t idx lower upper rows)).
Proof.
  intros Hok. unfold visited, scan_entries. set (g := fun x : Bytes * Row => (entry_key t idx (fst x) (snd x), snd x)).
  assert (Hbase : NoDup (map (fun e => pk_key_of t (snd e)) (map g (map_to_list rows)))).
  { rewrite List.map_map. cbn [g snd]. replace (map (fun x : Bytes * Row => pk_key_of t (snd x)) (map_to_list rows)) with (map fst (map_to_list rows)); [apply NoDup_fst_map_to_list|].
    apply List.map_ext_in. intros [k r] Hin. apply list_elem_of_In, elem_of_map_to_list in Hin. by destruct (Hok k r Hin) as [-> _]. }
  rewrite List.map_map. rewrite <- (merge_sort_Permutation entry_le (map g (map_to_list rows))) in Hbase.
  revert Hbase. generalize (merge_sort entry_le (map g (map_to_list rows))) as l. induction l as [|e l IH]; cbn [map List.filter]; [done|].
  intros [He Hl]%NoDup_cons. destruct (within _ _ _); [|by apply IH]. cbn [map]. apply NoDup_cons. split; [|by apply IH].
  intros Hin. apply He. apply list_elem_of_fmap in Hin as (e' & E & Hin). rewrite E. apply list_elem_of_In, List.filter_In in Hin as [Hin _].
  apply list_elem_of_In in Hin. exact (list_elem_of_fmap_2 (fun e => pk_key_of t (snd e)) _ _ Hin).
Qed.

(** Rows that differ in a text column are different. *)
Lemma rows_equal_at a : forall b i s s', rows_equal a b = true -> a !! i = Some (Text s) -> b !! i = Some (Text s') -> s = s'.
Proof.
  induction a as [|x a IH]; intros [|y b] i s s' Heq Ha Hb; try done. cbn in Heq. apply andb_true_iff in Heq as [He Heq]. destruct i as [|i].
  - cbn in Ha, Hb. simplify_eq. unfold value_eqb in He. cbn in He. rewrite compare_bytes_lex in He. destruct (lex s s') eqn:E; try done. by apply lex_eq.
  - cbn in Ha, Hb. by eapply IH.
Qed.

(** * Updates of the rows a scan found *)

Section moves.
Context (max_key : nat) (cat : Catalog) (dump : Json -> string) (rec : Recorder) (name : string) (t : TableDef) (idx : IndexDef) (cols : list string) (values : Row).
Context {T : Type} `{RowCodec T} (sel : T -> bool) (g : T -> T) (d : Data).
Context (Ht : StoreSchema.table cat name = Some t) (Hres : index_resolves t idx) (Hpre : is_prefix cols (ix_columns idx) = true).
Context (Hok : rows_ok t (rows_of d name)) (Htyped : typed values (types_of t cols)).
Context (Hkey : forall k r, rows_of d name !! k = Some r -> pk_key_of t (to_row (g (from_row r))) = k).
Context (Hdiff : forall k r, rows_of d name !! k = Some r -> sel (from_row r) = true -> rows_equal r (to_row (g (from_row r))) = false).

(** What becomes of a row. *)
Definition moved (r : Row) : Row :=
  if bool_decide (project t r cols = values) && sel (from_row r) then to_row (g (from_row r)) else r.

Lemma moves_effect (xs : list T) d' : name <> kChangeFeed -> xs ≡ₚ map from_row (visited t (Some idx) (eq_bound values) (eq_bound values) (rows_of d name)) ->
  run max_key cat (pfor (List.filter sel xs) (fun x => rec_update dump rec name (to_row (g x)))) d = (Ret tt, d') ->
  forall k, rows_of d' name !! k = moved <$> rows_of d name !! k.
Proof.
  intros Hne Hxs Hrun. set (key := fun x => pk_key_of t (to_row (g x))).
  assert (Hsel : forall x, x ∈ List.filter sel xs <-> sel x = true /\ exists k r, rows_of d name !! k = Some r /\ project t r cols = values /\ x = from_row r).
  { intros x. rewrite list_elem_of_In, List.filter_In, <- list_elem_of_In, Hxs, list_elem_of_fmap. split.
    - intros [(r & -> & Hr) Hx]. apply (visited_iff t (rows_of d name) Hok idx cols) in Hr as (k & Hk & Hp); [|done..]. split; [done|]. by exists k, r.
    - intros [Hx (k & r & Hk & Hp & ->)]. split; [|done]. exists r. split; [done|]. apply (visited_iff t (rows_of d name) Hok idx cols); [done..|]. by exists k. }
  assert (Hnd : NoDup (map key (List.filter sel xs))).
  { rewrite (filter_perm sel _ _ Hxs). pose proof (visited_keys t (Some idx) (eq_bound values) (eq_bound values) _ Hok) as Hv.
    assert (Hk : forall r, r ∈ visited t (Some idx) (eq_bound values) (eq_bound values) (rows_of d name) -> key (from_row r) = pk_key_of t r).
    { intros r Hr. apply (visited_iff t (rows_of d name) Hok idx cols) in Hr as (k & Hk & _); [|done..]. unfold key. rewrite (Hkey k r Hk). by destruct (Hok k r Hk). }
    revert Hv Hk. generalize (visited t (Some idx) (eq_bound values) (eq_bound values) (rows_of d name)) as l. induction l as [|r l IH]; cbn [map List.filter]; [done|]. intros [Hr Hl]%NoDup_cons Hk.
    specialize (IH Hl ltac:(intros r' Hr'; apply Hk; by right)). destruct (sel (from_row r)); [|done]. cbn [map]. apply NoDup_cons. split; [|done].
    rewrite Hk by (by left). intros Hin. apply Hr. apply list_elem_of_fmap in Hin as (x & E & Hin). apply list_elem_of_In, List.filter_In in Hin as [Hin _].
    apply List.in_map_iff in Hin as (r' & <- & Hin). apply list_elem_of_In in Hin. rewrite E, Hk by (by right). exact (list_elem_of_fmap_2 _ _ _ Hin). }
  destruct (pfor_updates max_key cat dump rec name t (fun x => to_row (g x)) (List.filter sel xs) Hne Ht Hnd d d') as [Hin Hout].
  { intros x old Hx Hold. apply Hsel in Hx as [Hx (k & r & Hk & Hp & ->)]. rewrite (Hkey k r Hk), Hk in Hold. injection Hold as <-. by apply (Hdiff k). }
  { exact Hrun. }
  intros k. unfold moved. destruct (rows_of d name !! k) as [r|] eqn:Ek; cbn [fmap option_fmap option_map].
  - case_bool_decide as Hp; cbn [andb]; [destruct (sel (from_row r)) eqn:Es|].
    + rewrite <- (Hkey k r Ek) at 1. apply Hin, Hsel. split; [done|]. by exists k, r.
    + rewrite Hout; [done|]. intros Hk. apply list_elem_of_fmap in Hk as (x & E & Hx). apply Hsel in Hx as [Hx (k' & r' & Hk' & Hp' & ->)].
      rewrite (Hkey k' r' Hk') in E. subst k'. rewrite Ek in Hk'. injection Hk' as <-. congruence.
    + rewrite Hout; [done|]. intros Hk. apply list_elem_of_fmap in Hk as (x & E & Hx). apply Hsel in Hx as [Hx (k' & r' & Hk' & Hp' & ->)].
      rewrite (Hkey k' r' Hk') in E. subst k'. rewrite Ek in Hk'. injection Hk' as <-. done.
  - rewrite Hout; [done|]. intros Hk. apply list_elem_of_fmap in Hk as (x & E & Hx). apply Hsel in Hx as [Hx (k' & r' & Hk' & Hp' & ->)].
    rewrite (Hkey k' r' Hk') in E. subst k'. congruence.
Qed.
End moves.
