(* ===== verification/PunchTables.v ===== *)
(** The tables of the catalog that the migrations install, and what a scan of
    one of their indexes visits. *)

From stdpp Require Import base numbers list gmap strings sorting.
From S2P Require Import Prelude Bytes PageFormat Types Record StoreSchema BTreeNode BTree Store Grove StoreRep StoreSpec StoreReads StoreRefine StoreIntegrity.
From S2P Require Import CoreSchema Program Recorder PunchSchema PunchInstall PunchData  PunchScan.
From stdpp Require Import list.
Open Scope Z_scope.
Open Scope prog_scope.

(** * The installed tables *)

Definition no_table : TableDef := mkTableDef "" [] [] [] [] [] 0.
Definition tbl (name : string) : TableDef := default no_table (StoreSchema.table installed_catalog name).
Definition idx_of (name iname : string) : IndexDef := default (mkIndexDef "" [] false 0) (StoreSchema.index (tbl name) iname).

Opaque installed_catalog.
(** A table of the catalog, by evaluation. *)
Ltac by_eval := vm_compute; reflexivity.

Lemma tbl_resolves name t : StoreSchema.table installed_catalog name = Some t -> names_resolve t.
Proof. intros Ht. apply (table_resolves installed_catalog) with name; [apply catalog_check_ok; by_eval|by apply table_in]. Qed.
Lemma tbl_is name t : StoreSchema.table installed_catalog name = Some t -> t = tbl name.
Proof. unfold tbl. by intros ->. Qed.
Lemma index_of_table name iname : StoreSchema.table installed_catalog name = Some (tbl name) -> StoreSchema.index (tbl name) iname = Some (idx_of name iname) ->
  index_resolves (tbl name) (idx_of name iname).
Proof.
  intros Ht Hi. pose proof (nr_indexes _ (tbl_resolves _ _ Ht)) as Hni. rewrite Forall_forall in Hni. unfold StoreSchema.index in Hi.
  apply List.find_some in Hi as [Hi _]. by apply Hni, list_elem_of_In.
Qed.


(** Rows that are listed and validate. *)
Lemma rows_ok_listed t rows l : map_to_list rows = map (fun r => (pk_key_of t r, r)) l -> Forall (fun r => validate_row t r = Ret tt /\ row_fits r) l -> rows_ok t rows.
Proof.
  intros E Hl k r Hk. apply elem_of_map_to_list in Hk. rewrite E in Hk. apply list_elem_of_fmap in Hk as (r' & [= -> ->] & Hr). rewrite Forall_forall in Hl.
  destruct (Hl _ Hr) as [Hv Hf]. split; [done|]. by apply validated.
Qed.

Definition ready (name iname : string) (cols : list string) : Prop :=
  StoreSchema.table installed_catalog name = Some (tbl name) /\ StoreSchema.index (tbl name) iname = Some (idx_of name iname)
  /\ is_prefix cols (ix_columns (idx_of name iname)) = true.
(** The rows of the table [name] with the given values in the leading columns
    of the index. *)
Definition found (d : Data) (name iname : string) (values : Row) : list Row :=
  visited (tbl name) (Some (idx_of name iname)) (eq_bound values) (eq_bound values) (rows_of d name).
Lemma found_iff d name iname cols values r : ready name iname cols -> rows_ok (tbl name) (rows_of d name) -> typed values (types_of (tbl name) cols) ->
  r ∈ found d name iname values <-> exists k, rows_of d name !! k = Some r /\ project (tbl name) r cols = values.
Proof. intros (Ht & Hi & Hp) Hok Hv. apply visited_iff; [exact Hok|by apply index_of_table|exact Hp|exact Hv]. Qed.
Opaque tbl idx_of.
