(* ===== verification/PunchExample.v ===== *)
(** A small company for the examples: three employees, a device, a pay period
    and an audit row. *)

From stdpp Require Import base numbers list gmap strings.
From S2P Require Import Prelude Bytes PageFormat Types Record StoreSchema Store StoreRep StoreSpec CoreSchema Program Recorder PunchSchema PunchInstall PunchData.
From stdpp Require Import list.
Open Scope Z_scope.
Open Scope prog_scope.

Definition sample_employee (id : Z) (number name : string) : Employee :=
  mkEmployee id number name "" "" "" true "" "America/New_York" 1 1 "" "".
Definition sample_device : Device := mkDevice 1 (replicate 16 7) "clock" 1 [1; 2; 3] 1 "admin" 0 "" 0 (-1) None 0.
Definition sample_period : PayPeriod := mkPayPeriod 1 100 113 "America/New_York" "2024a" "open" 0 0 0.
Definition sample_setup : Prog Recorder :=
  let* rec := new_recorder ∅ (mkActor KSystem "" "" "" None "") "setup" 5 "" in
  do* pwrite (RInsert "employees" (to_row (sample_employee 1 "E1" "Ada"))) in
  do* pwrite (RInsert "employees" (to_row (sample_employee 2 "E2" "Grace"))) in
  do* pwrite (RInsert "employees" (to_row (sample_employee 3 "E3" "Mary"))) in
  do* pwrite (RInsert "devices" (to_row sample_device)) in
  do* pwrite (RInsert "pay_periods" (to_row sample_period)) in
  pret rec.
Definition sample_run : Result Recorder * Data := run 300 installed_catalog sample_setup ∅.
Definition sample : Data := snd sample_run.
Definition sample_recorder : Recorder :=
  match fst sample_run with Ret r => r | Err e => mkRecorder ∅ 0 0 (Err e) [] end.
Definition sample_dump (j : Json) : string := "{}".

Lemma sample_runs : fst sample_run = Ret sample_recorder /\ status_ sample_recorder = Ret tt /\ audit_id sample_recorder = 1.
Proof. vm_compute. done. Qed.
