(* ===== verification/PunchIds.v ===== *)
(** Identifiers: [next_id] never gives one that is in use. *)

From stdpp Require Import base numbers list gmap strings sorting.
From S2P Require Import Prelude Bytes PageFormat Types Record StoreSchema BTreeNode BTreeNodeFacts BTree BTreeTree Store Grove StoreRep StoreSpec StoreReads StoreRefine.
From S2P Require Import CoreSchema Program Recorder PunchSchema PunchInstall PunchData PunchScan PunchTables PunchExample.
From stdpp Require Import list.
Open Scope Z_scope.
Open Scope prog_scope.

(** Every identifier of the table is below [id]. *)
Definition all_below (t : TableDef) (c : string) (rows : gmap Bytes Row) (id : Z) : Prop :=
  forall k r, rows !! k = Some r -> exists i, field t r c = Integer i /\ i < id.

(** The identifier that [next_id] gives is above every identifier of the
    table, so that a row with it collides with none; the table is only read. *)
Theorem next_id_fresh max_key cat d d' name t c id : StoreSchema.table cat name = Some t -> rows_ok t (rows_of d name) ->
  td_primary_key t = [c] -> has_column t c -> nullable (column t c) = false -> i64_ok id ->
  run max_key cat (next_id name) d = (Ret id, d') ->
  d' = d /\ all_below t c (rows_of d name) id
  /\ rows_of d name !! encode_key [Integer id] = None.
Proof.
  intros Ht Hok Hpk Hc Hn Hid Hrun. pose proof (next_id_reads max_key cat name d) as Hd. rewrite Hrun in Hd. cbn in Hd. subst d'.
  pose proof (next_id_above max_key cat d name t c id Ht Hok Hpk Hc Hn Hrun) as Habove. split_and!; [done|done|].
  destruct (rows_of d name !! encode_key [Integer id]) as [r|] eqn:E; [|done]. exfalso. destruct (Habove _ _ E) as (i & Ei & Hlt).
  destruct (Hok _ _ E) as [Ek Hg]. unfold pk_key_of in Ek. rewrite Hpk in Ek. unfold project in Ek. cbn [map] in Ek. rewrite Ei in Ek.
  assert (Hi : i64_ok i).
  { pose proof (project_values_ok t r [c] (row_values_ok _ (proj2 Hg))) as Hv. unfold project in Hv. cbn [map] in Hv. rewrite Ei in Hv. by apply Forall_inv in Hv. }
  assert (id <= i); [|lia]. apply integer_key_order; [done|done|]. rewrite Ek. apply kle_refl.
Qed.

Lemma next_id_fresh_witness : rows_of sample "employees" !! encode_key [Integer 4] = None.
Proof.
  apply (next_id_fresh 300 installed_catalog sample sample "employees" (tbl "employees") "id" 4).
  - by_eval.
  - apply (rows_ok_listed _ _ (map emp_to_row [sample_employee 3 "E3" "Mary"; sample_employee 1 "E1" "Ada"; sample_employee 2 "E2" "Grace"])); [by_eval|].
    repeat (apply Forall_cons_2; [split; [by_eval|decide_now]|]). apply Forall_nil_2.
  - by_eval.
  - exists 0%nat. by_eval.
  - by_eval.
  - decide_now.
  - rewrite (surjective_pairing (run 300 installed_catalog (next_id "employees") sample)). rewrite next_id_reads. by f_equal.
Defined.
