(* ===== verification/CoreAccounts.v ===== *)
(** Accounts, authorization and credentials (core/src/accounts.cpp,
    core/src/authz.cpp, core/src/credentials.cpp, core/src/module.cpp).

    Each operation on accounts runs in a transaction of its own
    ([in_transaction]): what it wrote is discarded when it returns before its
    commit.  Its body is a program whose answer is what the operation returns
    once the commit has succeeded, which is an error when an expired account
    has been disabled.  Argon2 is libsodium's: [pwhash_str], given the salt it
    draws, and [pwhash_verify] are parameters.  Random bytes are arguments. *)

From stdpp Require Import base numbers list gmap strings.
From S2P Require Import Prelude Bytes PageFormat Types Record StoreSchema Store StoreRep StoreSpec CoreSchema Program Recorder PunchData.
From stdpp Require Import list.
Open Scope Z_scope.
Open Scope prog_scope.

(** * Credentials *)

Definition kAlphabet : string := "ABCDEFGHIJKLMNOPQRSTUVWXYZabcdefghijklmnopqrstuvwxyz0123456789-_".
Definition alphabet_at (i : Z) : Ascii.ascii := default Ascii.zero (String.get (Z.to_nat i) kAlphabet).

(** The inner loop: [bits] falls below six within three rounds. *)
Fixpoint take_sixes (fuel : nat) (acc bits : Z) (out : string) : Z * string :=
  match fuel with
  | O => (bits, out)
  | S fuel =>
      if bits <? 6 then (bits, out)
      else take_sixes fuel acc (bits - 6) (out +:+ String (alphabet_at (Z.land (Z.shiftr acc (bits - 6)) 63)) EmptyString)
  end.
Fixpoint secret_from (raw : Bytes) (acc bits : Z) (out : string) : string :=
  match raw with
  | [] => if 0 <? bits then out +:+ String (alphabet_at (Z.land (wrap32 (Z.shiftl acc (6 - bits))) 63)) EmptyString else out
  | b :: raw =>
      let acc := Z.lor (wrap32 (Z.shiftl acc 8)) b in
      let '(bits, out) := take_sixes 3 acc (bits + 8) out in
      secret_from raw acc bits out
  end.
(** [raw] is what [randombytes_buf] gives. *)
Definition random_secret (raw : Bytes) : string := secret_from raw 0 0 "".

Definition random_uuid (raw : Bytes) : Bytes :=
  let u := <[6%nat := Z.lor (Z.land (nth 6 raw 0) 15) 64]> raw in
  <[8%nat := Z.lor (Z.land (nth 8 u 0) 63) 128]> u.

(** The value of a hexadecimal digit. *)
Definition hex_value (c : Ascii.ascii) : option Z :=
  let x := Z.of_nat (Ascii.nat_of_ascii c) in
  if (48 <=? x) && (x <=? 57) then Some (x - 48)
  else if (97 <=? x) && (x <=? 102) then Some (x - 97 + 10)
  else if (65 <=? x) && (x <=? 70) then Some (x - 65 + 10)
  else None.
(** The loop of [uuid_from_string]: the bytes so far, [n] of them, and the
    high digit that waits for its low one. *)
Fixpoint uuid_digits (s : string) (u : Bytes) (hi : option Z) : Result (Bytes * option Z) :=
  match s with
  | EmptyString => Ret (u, hi)
  | String c s =>
      if Ascii.eqb c (ascii_of_byte 45) then uuid_digits s u hi
      else
        match hex_value c with
        | None => invalid_argument "not a uuid"
        | Some v =>
            match hi with
            | None => uuid_digits s u (Some v)
            | Some h =>
                if (16 <=? length u)%nat then invalid_argument "not a uuid"
                else uuid_digits s (u ++ [Z.land (Z.lor (Z.shiftl h 4) v) 255]) None
            end
        end
  end.
Definition uuid_from_string (s : string) : Result Bytes :=
  let? x := uuid_digits s [] None in
  let '(u, hi) := x in
  if negb (length u =? 16)%nat || bool_decide (is_Some hi) then invalid_argument "not a uuid" else Ret u.

Definition crypto_pwhash_STRBYTES : nat := 128.
(** The bytes before the first NUL. *)
Fixpoint c_string (b : Bytes) : Bytes :=
  match b with
  | [] => []
  | x :: b => if x =? 0 then [] else x :: c_string b
  end.

Section credentials.
(** [crypto_pwhash_str] with the salt it draws, at the interactive cost: the
    contents of the buffer, or no memory. *)
Variable pwhash_str : Bytes -> string -> option Bytes.
(** [crypto_pwhash_str_verify] on the buffer. *)
Variable pwhash_verify : Bytes -> string -> bool.

Definition make_verifier (salt : Bytes) (secret : string) : Result Bytes :=
  match pwhash_str salt secret with
  | None => io "argon2id: out of memory"
  | Some out => Ret (c_string out)
  end.
Definition verify_secret (verifier : Bytes) (secret : string) : bool :=
  if (length verifier =? 0)%nat || (crypto_pwhash_STRBYTES <=? length verifier)%nat then false
  else pwhash_verify (verifier ++ replicate (crypto_pwhash_STRBYTES - length verifier) 0) secret.

(** * Accounts *)

Record LocalAccount := mkLocalAccount {
  la_id : Z; la_username : string; la_kind : string; la_enabled : bool; la_created_at : Z; la_expires_at : Z; la_last_used_at : Z }.
Definition account_from_row (r : Row) : LocalAccount :=
  mkLocalAccount (as_int64 (at_ r 0)) (as_text (at_ r 1)) (as_text (at_ r 2)) (as_bool (at_ r 4)) (as_int64 (at_ r 5))
    (int_or_zero (at_ r 6)) (int_or_zero (at_ r 7)).
Record CreatedAccount := mkCreatedAccount { ca_account : LocalAccount; ca_password : string }.

(** [if (!rec.status().ok()) return rec.status();] *)
Definition prec_ok (rec : Recorder) : Prog unit := PRet (status_ rec).

Definition console : Actor := mkActor KSystem "" "" "console" None "".
Definition find_account (username : string) : Prog (option Row) :=
  let* rows := scan_eq kLocalAccounts "local_accounts_username" [text username] in
  pret (head rows).
Definition list_accounts : Prog (list LocalAccount) :=
  let* rows := pscan_all kLocalAccounts "" None None in
  pret (map account_from_row rows).

Section accounts.
(** The longest key, the catalog, and what [begin_write] and [commit]
    return. *)
Context (max_key : nat) (cat : Catalog) (begin_ commit_ : Result unit).
Variable dump : Json -> string.
Variable policy : RecordPolicy.

(** A writer that is destroyed without a commit rolls back. *)
Definition in_transaction {A} (body : Prog (Result A)) (d : Data) : Result A * Data :=
  match begin_ with
  | Err e => (Err e, d)
  | Ret _ =>
      match run max_key cat body d with
      | (Err e, _) => (Err e, d)
      | (Ret r, d') => match commit_ with Err e => (Err e, d) | Ret _ => (r, d') end
      end
  end.

(** The last part of an operation: the change of the account's row under an
    audit row of its own. *)
Definition record_update (actor : Actor) (action : string) (now_us : Z) (detail : string) (r : Row) : Prog unit :=
  let* rec := new_recorder policy actor action now_us detail in
  do* prec_ok rec in
  do* rec_update dump rec kLocalAccounts r in
  let* _ := set_target rec kLocalAccounts (int_to_string (as_int64 (at_ r 0))) in
  pret tt.

Definition create_body (raw salt : Bytes) (username kind : string) (now_us : Z) : Prog (Result CreatedAccount) :=
  let* existing := find_account username in
  match existing with
  | Some _ => PRet (already_exists ("account " +:+ username))
  | None =>
      let* id := next_id kLocalAccounts in
      let password := random_secret raw in
      let* verifier := PRet (make_verifier salt password) in
      let r := [Integer id; text username; text kind; Blob verifier; Boolean false; Timestamp now_us; Null; Null] in
      let* rec := new_recorder policy console "account.create" now_us "" in
      do* prec_ok rec in
      do* rec_insert dump rec kLocalAccounts r in
      let* _ := set_target rec kLocalAccounts (int_to_string id) in
      pret (Ret (mkCreatedAccount (account_from_row r) password))
  end.
Definition create_account (raw salt : Bytes) (username kind : string) (now_us : Z) (d : Data) : Result CreatedAccount * Data :=
  if String.eqb username "" then (invalid_argument "username is empty", d)
  else in_transaction (create_body raw salt username kind now_us) d.

Definition enable_body (username : string) (expires_at_us now_us : Z) : Prog (Result unit) :=
  let* found := find_account username in
  match found with
  | None => PRet (not_found ("account " +:+ username))
  | Some r =>
      let r := <[6%nat := Timestamp expires_at_us]> (<[4%nat := Boolean true]> r) in
      do* record_update console "account.enable" now_us ("expires_at=" +:+ int_to_string expires_at_us) r in
      pret (Ret tt)
  end.
Definition enable_account (username : string) (expires_at_us now_us : Z) (d : Data) : Result unit * Data :=
  if expires_at_us <=? now_us then (invalid_argument "expiry must be in the future", d)
  else in_transaction (enable_body username expires_at_us now_us) d.

Definition disable_body (username : string) (now_us : Z) : Prog (Result unit) :=
  let* found := find_account username in
  match found with
  | None => PRet (not_found ("account " +:+ username))
  | Some r =>
      do* record_update console "account.disable" now_us "" (<[4%nat := Boolean false]> r) in
      pret (Ret tt)
  end.
Definition disable_account (username : string) (now_us : Z) : Data -> Result unit * Data := in_transaction (disable_body username now_us).

Definition verify_body (username password request_id : string) (now_us : Z) : Prog (Result LocalAccount) :=
  let* found := find_account username in
  match found with
  | None => PRet (not_found "unknown account")
  | Some r =>
      let a := account_from_row r in
      if negb (la_enabled a) then PRet (not_found "account disabled")
      else if negb (la_expires_at a =? 0) && (la_expires_at a <=? now_us) then
        do* record_update console "account.expire" now_us "" (<[4%nat := Boolean false]> r) in
        pret (not_found "account expired")
      else if negb (verify_secret (as_blob (at_ r 3)) password) then PRet (invalid_argument "wrong password")
      else
        let r := <[7%nat := Timestamp now_us]> r in
        do* record_update (mkActor KAccount "" "" username None request_id) "account.use" now_us "" r in
        pret (Ret (account_from_row r))
  end.
Definition verify_account (username password request_id : string) (now_us : Z) : Data -> Result LocalAccount * Data :=
  in_transaction (verify_body username password request_id now_us).
End accounts.
End credentials.

(** * Authorization *)

Definition roles_for (tid oid : string) : Prog (gset string) :=
  if String.eqb tid "" || String.eqb oid "" then pret ∅
  else
    let* rows := scan_eq kRoleGrants "role_grants_principal" [text tid; text oid] in
    pret (fold_left (fun out r => out ∪ {[as_text (at_ r 3)]}) rows ∅).
Definition datasets_for (tid oid permission : string) : Prog (gset string) :=
  if String.eqb tid "" || String.eqb oid "" then pret ∅
  else
    let* rows := scan_eq kDatasetGrants "dataset_grants_principal" [text tid; text oid] in
    pret (fold_left (fun out r => if String.eqb (as_text (at_ r 4)) permission then out ∪ {[as_text (at_ r 3)]} else out) rows ∅).

Section grants.
Variable dump : Json -> string.
Definition grant_role (rec : Recorder) (tid oid role granted_by : string) (now_us : Z) : Prog Z :=
  let* id := next_id kRoleGrants in
  do* rec_insert dump rec kRoleGrants [Integer id; text tid; text oid; text role; text granted_by; Timestamp now_us] in
  pret id.
Definition revoke_role (rec : Recorder) (grant_id : Z) : Prog unit := rec_remove dump rec kRoleGrants [Integer grant_id].
Definition grant_dataset (rec : Recorder) (tid oid dataset permission granted_by : string) (now_us : Z) : Prog Z :=
  let* id := next_id kDatasetGrants in
  do* rec_insert dump rec kDatasetGrants [Integer id; text tid; text oid; text dataset; text permission; text granted_by; Timestamp now_us] in
  pret id.
Definition revoke_dataset (rec : Recorder) (grant_id : Z) : Prog unit := rec_remove dump rec kDatasetGrants [Integer grant_id].
End grants.

(** [build_policy], of what each module adds in [extend_policy]. *)
Definition build_policy (modules : list (RecordPolicy -> RecordPolicy)) : RecordPolicy :=
  fold_left (fun p m => m p) modules
    (allow kLocalAccounts ["id"; "username"; "kind"; "enabled"; "created_at"; "expires_at"; "last_used_at"]
      (allow kDatasetGrants ["id"; "tid"; "oid"; "dataset"; "permission"; "granted_by"; "granted_at"]
        (allow kRoleGrants ["id"; "tid"; "oid"; "role"; "granted_by"; "granted_at"] ∅))).
