(* ===== verification/CoreAccountsSpec.v ===== *)
(** Local accounts: who may sign in, what each use leaves behind, and how an
    account that has run out closes itself. *)

From stdpp Require Import base numbers list gmap strings sorting.
From S2P Require Import Prelude Bytes PageFormat Types Record StoreSchema BTreeNode BTree Store Grove StoreRep StoreSpec StoreReads StoreRefine StoreIntegrity.
From S2P Require Import CoreSchema Program Recorder PunchSchema PunchInstall PunchData PunchRules PunchRows PunchScan PunchTables PunchExample CoreAccounts.
From stdpp Require Import list.
Open Scope Z_scope.
Open Scope prog_scope.

(** * The table *)

Definition accounts (d : Data) : gmap Bytes Row := rows_of d kLocalAccounts.
Definition audits (d : Data) : gmap Bytes Row := rows_of d kAuditLog.
Definition accounts_ok (d : Data) : Prop :=
  rows_ok (tbl kLocalAccounts) (accounts d) /\ unique_rows (tbl kLocalAccounts) ["username"] (accounts d).
Definition named (username : string) (r : Row) : Prop := at_ r 1 = text username.

Lemma accounts_scan u : scan_ready installed_catalog kLocalAccounts "local_accounts_username" (tbl kLocalAccounts) (idx_of kLocalAccounts "local_accounts_username") [text u].
Proof. split_and!; by_eval. Qed.
Lemma accounts_ready : ready kLocalAccounts "local_accounts_username" ["username"].
Proof. split_and!; by_eval. Qed.
Lemma accounts_project r : project (tbl kLocalAccounts) r ["username"] = [at_ r 1].
Proof. by_eval. Qed.
(** A table whose first column, the identifier, is its key. *)
Lemma id_key name r : td_primary_key (tbl name) = ["id"] -> position (fun c => String.eqb (col_name c) "id") (td_columns (tbl name)) = Some 0%nat ->
  pk_key_of (tbl name) r = encode_key [at_ r 0].
Proof. intros Hk Hp. unfold pk_key_of, project. rewrite Hk. cbn [map]. unfold field, column_index. by rewrite Hp. Qed.
Lemma accounts_key r : pk_key_of (tbl kLocalAccounts) r = encode_key [at_ r 0].
Proof. exact (id_key kLocalAccounts r ltac:(by_eval) ltac:(by_eval)). Qed.
Lemma audit_key r : pk_key_of (tbl kAuditLog) r = encode_key [at_ r 0].
Proof. exact (id_key kAuditLog r ltac:(by_eval) ltac:(by_eval)). Qed.
Lemma text_ok s : value_ok (text s).
Proof.
  cbn. induction s as [|a s IH]; cbn; constructor; [|exact IH]. unfold is_byte. pose proof (Ascii.N_ascii_bounded a) as H.
  apply N2Z.inj_lt in H. split; [apply N2Z.is_nonneg|exact H].
Qed.

Lemma named_found d u r : rows_ok (tbl kLocalAccounts) (accounts d) ->
  r ∈ found d kLocalAccounts "local_accounts_username" [text u] <-> exists k, accounts d !! k = Some r /\ named u r.
Proof.
  intros Hok. rewrite (found_iff d _ _ ["username"]).
  - unfold named. split; intros (k & Hk & E); exists k; (split; [exact Hk|]); [rewrite accounts_project in E; by injection E|by rewrite accounts_project, E].
  - exact accounts_ready.
  - exact Hok.
  - replace (types_of (tbl kLocalAccounts) ["username"]) with [TText] by by_eval. constructor; [|constructor]. split; [apply text_ok|done].
Qed.

(** [find_account] finds the account of the name, if there is one. *)
Lemma find_account_finds max_key d u : accounts_ok d -> exists o, run max_key installed_catalog (find_account u) d = (Ret o, d)
  /\ forall r, o = Some r <-> exists k, accounts d !! k = Some r /\ named u r.
Proof.
  intros [Hok Huniq]. unfold find_account. rewrite run_bind, (run_scan_eq _ _ _ _ _ _ _ _ (accounts_scan u)).
  fold (found d kLocalAccounts "local_accounts_username" [text u]). eexists. split; [reflexivity|]. intros r. split.
  - intros Hr. apply named_found; [exact Hok|]. destruct (found _ _ _ _); [done|]. injection Hr as ->. by left.
  - intros (k & Hk & Hn). assert (Hin : r ∈ found d kLocalAccounts "local_accounts_username" [text u]) by (apply named_found; [exact Hok|by exists k]).
    destruct (found d kLocalAccounts _ _) as [|r' l] eqn:El; [by apply not_elem_of_nil in Hin|]. cbn [head]. f_equal.
    assert (Hr' : r' ∈ found d kLocalAccounts "local_accounts_username" [text u]) by (rewrite El; by left).
    apply named_found in Hr' as (k' & Hk' & Hn'); [|exact Hok]. assert (k' = k) as ->.
    { apply (Huniq _ _ _ _ Hk' Hk); rewrite !accounts_project; unfold named in *; by rewrite ?Hn', ?Hn. }
    by simplify_eq.
Qed.

(** * Recording one change *)

Lemma run_attempt {A} max_key cat (p : Prog A) : forall d, run max_key cat (pattempt p) d = (Ret (fst (run max_key cat p d)), snd (run max_key cat p d)).
Proof.
  induction p as [r|k IH|t pk k IH|C t i lo hi rv fn b k IH|op k IH]; intros d; cbn [pattempt run]; [done|apply IH..|].
  destruct (spec_row_op max_key cat d op) as [r d']. apply IH.
Qed.
Lemma rows_equal_nth a : forall b i x y, rows_equal a b = true -> a !! i = Some x -> b !! i = Some y -> value_eqb x y = true.
Proof.
  induction a as [|v a IH]; intros [|w b] i x y Heq Ha Hb; try done. cbn in Heq. apply andb_true_iff in Heq as [He Heq]. destruct i as [|i].
  - cbn in Ha, Hb. by simplify_eq.
  - cbn in Ha, Hb. by eapply IH.
Qed.

(** The audit row of an action, without and with its target. *)
Definition audit_row (id now_us : Z) (actor : Actor) (action detail : string) (target : option (string * string)) : Row :=
  [Integer id; Timestamp now_us; text (actor_kind_name (actor_kind actor)); opt_text (tid actor); opt_text (oid actor);
   opt_text (account actor); match device actor with Some u => Uuid u | None => Null end; text action;
   match target with Some (t, _) => text t | None => Null end; match target with Some (_, i) => text i | None => Null end;
   opt_text (request_id actor); opt_text detail].

Section effects.
Context (max_key : nat) (dump : Json -> string).
Notation run := (run max_key installed_catalog).

Lemma insert_effect name row d d' : run (pwrite (RInsert name row)) d = (Ret tt, d') ->
  insert_allowed max_key installed_catalog d (tbl name) row = Ret tt /\ rows_of d' name = <[pk_key_of (tbl name) row := row]> (rows_of d name) /\ same_but [name] d d'.
Proof.
  intros H. apply run_write_inv, spec_insert_inv in H as (t & Ht & Hi & ->). apply tbl_is in Ht as ->. split_and!; [done|apply rows_of_eq|].
  intros n Hn. apply rows_of_ne. intros ->. apply Hn. by left.
Qed.
(** The key of a row that is inserted is free. *)
Lemma insert_fresh name row d : td_name (tbl name) = name -> insert_allowed max_key installed_catalog d (tbl name) row = Ret tt ->
  rows_of d name !! pk_key_of (tbl name) row = None.
Proof.
  intros Hname. unfold insert_allowed. rewrite Hname. destruct (validate_row _ _); [|done]. cbn [rbind]. unfold guard. destruct (_ <=? _)%nat; [|done]. cbn [rbind].
  by destruct (decide (rows_of d name !! pk_key_of (tbl name) row = None)) as [|?]; [|rewrite bool_decide_false by done].
Qed.
Lemma recorder_effect policy actor action now_us detail rec d d' : run (new_recorder policy actor action now_us detail) d = (Ret rec, d') ->
  status_ rec = Ret tt ->
  exists id, audit_row_ rec = audit_row id now_us actor action detail None /\ audits d !! encode_key [Integer id] = None
    /\ audits d' = <[encode_key [Integer id] := audit_row_ rec]> (audits d) /\ same_but [kAuditLog] d d'.
Proof.
  unfold new_recorder. rewrite run_bind, run_attempt. pose proof (next_id_reads max_key installed_catalog kAuditLog d) as Hd.
  destruct (run (next_id kAuditLog) d) as [[id|e] d1]; cbn [fst snd] in *; subst d1; [|by intros [= <- <-]].
  rewrite run_bind, run_attempt. destruct (run (pwrite _) d) as [[[]|] d2] eqn:E; cbn [fst snd]; intros [= <- <-]; [|done]. intros _. cbn [audit_row_].
  apply insert_effect in E as (Hi & Hr & Hs). rewrite audit_key in Hr. exists id. split_and!; [done| |exact Hr|exact Hs].
  apply insert_fresh in Hi; [|by_eval]. by rewrite audit_key in Hi.
Qed.
Lemma update_effect name row d d' : run (pwrite (RUpdate name row)) d = (Ret tt, d') ->
  exists old, validate_row (tbl name) row = Ret tt /\ rows_of d name !! pk_key_of (tbl name) row = Some old
    /\ (rows_of d' name = <[pk_key_of (tbl name) row := row]> (rows_of d name) \/ rows_equal old row = true /\ rows_of d' name = rows_of d name)
    /\ same_but [name] d d'.
Proof.
  intros H. apply run_write_inv, spec_update_inv in H as (t & old & Ht & Hv & Ho & Hd). apply tbl_is in Ht as ->. exists old. split_and!; [done|done| |].
  - destruct Hd as [[He ->]| ->]; [by right|left; apply rows_of_eq].
  - intros n Hn. destruct Hd as [[_ ->]| ->]; [done|]. apply rows_of_ne. intros ->. apply Hn. by left.
Qed.
Lemma target_effect rec rec' id now_us actor action detail table_ i d d' : audit_row_ rec = audit_row id now_us actor action detail None ->
  audits d !! encode_key [Integer id] = Some (audit_row_ rec) -> run (set_target rec table_ i) d = (Ret rec', d') ->
  audits d' = <[encode_key [Integer id] := audit_row id now_us actor action detail (Some (table_, i))]> (audits d) /\ same_but [kAuditLog] d d'.
Proof.
  intros Hrow Hk. unfold set_target. destruct (status_ rec); [|done]. rewrite run_bind. rewrite Hrow.
  set (row := <[9%nat := _]> _). change row with (audit_row id now_us actor action detail (Some (table_, i))). clear row.
  destruct (run (pwrite _) d) as [[[]|] d1] eqn:E; [|done]. intros [= _ <-]. apply update_effect in E as (old & _ & Ho & Hd & Hs). rewrite audit_key in Ho, Hd.
  split; [|exact Hs]. change (at_ (audit_row id now_us actor action detail (Some (table_, i))) 0) with (Integer id) in *. fold (audits d) in Ho, Hd.
  destruct Hd as [Hd|[Heq _]]; [exact Hd|]. exfalso. rewrite Hk in Ho. injection Ho as <-. rewrite Hrow in Heq.
  by pose proof (rows_equal_nth _ _ 8 _ _ Heq eq_refl eq_refl).
Qed.

(** What a recorded change of an account that succeeds leaves behind: the row,
    and one new audit row that names it. *)
Definition recorded (actor : Actor) (action detail : string) (now_us : Z) (r : Row) (d d' : Data) : Prop :=
  accounts d' = <[encode_key [at_ r 0] := r]> (accounts d)
  /\ (exists id, audits d !! encode_key [Integer id] = None
       /\ audits d' = <[encode_key [Integer id] := audit_row id now_us actor action detail (Some (kLocalAccounts, int_to_string (as_int64 (at_ r 0))))]> (audits d))
  /\ same_but [kLocalAccounts; kChangeFeed; kAuditLog] d d'.

Lemma record_update_effect policy actor action now_us detail r old d d' : accounts d !! encode_key [at_ r 0] = Some old ->
  Forall value_ok old -> Forall value_ok r -> run (record_update dump policy actor action now_us detail r) d = (Ret tt, d') ->
  validate_row (tbl kLocalAccounts) r = Ret tt /\ recorded actor action detail now_us r d d'.
Proof.
  intros Hold Hvo Hvr Hrun. unfold record_update in Hrun. apply run_bind_inv in Hrun as (rec & d1 & Hrec & Hrun).
  apply run_bind_inv in Hrun as ([] & d1' & [Hst <-]%pair_equal_spec & Hrun).
  apply run_bind_inv in Hrun as ([] & d2 & Hup & Hrun). apply run_bind_inv in Hrun as (rec' & d3 & Htg & [= <-]).
  apply recorder_effect in Hrec as (id & Erow & Hfree & Haud & Hs1); [|exact Hst].
  apply rec_update_effect in Hup as (t & old' & Ht & Hv & Ho & Hd & Hs2); [|done]. apply tbl_is in Ht as ->. rewrite accounts_key in Ho, Hd.
  assert (Ha1 : accounts d1 = accounts d) by (apply Hs1; decide_now).
  assert (Haud2 : audits d2 = audits d1) by (apply Hs2; decide_now).
  fold (accounts d1) in Ho, Hd. rewrite Ha1, Hold in Ho. injection Ho as <-. rewrite Ha1 in Hd. fold (accounts d2) in Hd.
  destruct (target_effect rec rec' id now_us actor action detail kLocalAccounts (int_to_string (as_int64 (at_ r 0))) d2 d3 Erow) as [Haud3 Hs3]; [|exact Htg|].
  { rewrite Haud2, Haud. apply lookup_insert_eq. }
  assert (Ha3 : accounts d3 = accounts d2) by (apply Hs3; decide_now). split; [exact Hv|]. split_and!.
  - rewrite Ha3. destruct Hd as [Hd|[Heq Hd]]; [exact Hd|]. rewrite Hd. apply rows_equal_eq in Heq; [|done|done]. rewrite <- Heq at 2. symmetry. by apply insert_id.
  - exists id. split; [exact Hfree|]. rewrite Haud3, Haud2, Haud. apply insert_insert_eq.
  - intros n Hn. rewrite (Hs3 n), (Hs2 n), (Hs1 n); [done|set_solver..].
Qed.
End effects.

(** * Signing in *)

Lemma at_insert_ne (r : Row) i j v : i <> j -> at_ (<[i := v]> r) j = at_ r j.
Proof. intros Hij. unfold at_. rewrite !nth_lookup. by rewrite list_lookup_insert_ne. Qed.
Lemma insert_values_ok (r : Row) i v : Forall value_ok r -> value_ok v -> Forall value_ok (<[i := v]> r).
Proof. intros Hr Hv. by apply Forall_insert. Qed.
Lemma account_row d k r : accounts_ok d -> accounts d !! k = Some r -> k = encode_key [at_ r 0] /\ Forall value_ok r.
Proof. intros [Hok _] Hk. destruct (Hok k r Hk) as [-> Hg]. rewrite accounts_key. split; [done|]. by eapply row_values_ok, Hg. Qed.

Definition spent (now_us : Z) (r : Row) : bool :=
  negb (la_expires_at (account_from_row r) =? 0) && (la_expires_at (account_from_row r) <=? now_us).
Definition disabled (r : Row) : Row := <[4%nat := Boolean false]> r.
Definition used (now_us : Z) (r : Row) : Row := <[7%nat := Timestamp now_us]> r.

Section verify.
Context (pwhash_verify : Bytes -> string -> bool) (max_key : nat) (begin_ commit_ : Result unit) (dump : Json -> string) (policy : RecordPolicy).
Notation verify := (verify_account pwhash_verify max_key installed_catalog begin_ commit_ dump policy).

(** The account may be used with the password. *)
Definition admits (now_us : Z) (password : string) (r : Row) : Prop :=
  la_enabled (account_from_row r) = true /\ spent now_us r = false /\ verify_secret pwhash_verify (as_blob (at_ r 3)) password = true.

(** [C26] Signing in.  A sign-in that succeeds found the account of that name
    enabled, not expired and with this password; it stamped the account with
    the time of use and left one new audit row that names the account, and
    nothing else but the change feed moved.  One that fails left everything
    as it was, except when it met an enabled account whose time has run out,
    whatever the password: that account is disabled, on record. *)
Theorem verify_account_spec username password request_id now_us d res d' : accounts_ok d -> i64_ok now_us ->
  verify username password request_id now_us d = (res, d') ->
  match res with
  | Ret a => exists k r, accounts d !! k = Some r /\ named username r /\ admits now_us password r
      /\ a = account_from_row (used now_us r) /\ recorded (mkActor KAccount "" "" username None request_id) "account.use" "" now_us (used now_us r) d d'
  | Err e => d' = d
      \/ exists k r, accounts d !! k = Some r /\ named username r /\ la_enabled (account_from_row r) = true /\ spent now_us r = true
           /\ e = mkStatus NotFound "account expired" /\ recorded console "account.expire" "" now_us (disabled r) d d'
  end.
Proof.
  intros Hok Hnow. unfold verify_account, in_transaction. destruct begin_ as [[]|e]; [|intros [= <- <-]; by left].
  destruct (run max_key installed_catalog _ d) as [[r0|e0] d1] eqn:Erun; [|intros [= <- <-]; by left].
  destruct commit_ as [[]|e]; [|intros [= <- <-]; by left]. intros [= -> ->].
  apply run_bind_inv in Erun as (o & d0 & Hf & Erun). destruct (find_account_finds max_key d username Hok) as (o' & Hf' & Ho). rewrite Hf' in Hf. injection Hf as -> <-. clear Hf'.
  destruct o as [r|]; [|discriminate Erun]. destruct (proj1 (Ho r) eq_refl) as (k & Hk & Hn). destruct (account_row d k r Hok Hk) as [-> Hvr].
  revert Erun. cbn beta iota zeta. fold (spent now_us r). destruct (la_enabled (account_from_row r)) eqn:Een; cbn [negb]; [|discriminate].
  destruct (spent now_us r) eqn:Esp; [|destruct (verify_secret pwhash_verify _ _) eqn:Epw; cbn [negb]; [|discriminate]].
  all: intros ([] & d2 & Hup & [= <- <-])%run_bind_inv.
  all: apply (record_update_effect max_key dump _ _ _ _ _ _ r) in Hup as [_ Hup]; [|by rewrite at_insert_ne|exact Hvr|by apply insert_values_ok].
  - right. exists (encode_key [at_ r 0]), r. exact (conj Hk (conj Hn (conj Een (conj Esp (conj eq_refl Hup))))).
  - exists (encode_key [at_ r 0]), r. exact (conj Hk (conj Hn (conj (conj Een (conj Esp Epw)) (conj eq_refl Hup)))).
Qed.
End verify.

(** * Creating *)

Section create.
Context (pwhash_str : Bytes -> string -> option Bytes) (pwhash_verify : Bytes -> string -> bool).
Context (max_key : nat) (begin_ commit_ : Result unit) (dump : Json -> string) (policy : RecordPolicy).
(** What libsodium documents: the string has at most 127 characters, and it
    verifies the password it was made from. *)
Definition pwhash_documented : Prop := forall salt secret out, pwhash_str salt secret = Some out ->
  (0 < length (c_string out) < crypto_pwhash_STRBYTES)%nat
  /\ pwhash_verify (c_string out ++ replicate (crypto_pwhash_STRBYTES - length (c_string out)) 0) secret = true.

Lemma made_verifies salt secret v : pwhash_documented -> make_verifier pwhash_str salt secret = Ret v -> verify_secret pwhash_verify v secret = true.
Proof.
  intros Hdoc. unfold make_verifier. destruct (pwhash_str salt secret) as [out|] eqn:E; [|done]. intros [= <-]. destruct (Hdoc _ _ _ E) as [Hl Hv].
  unfold verify_secret. destruct (Nat.eqb_spec (length (c_string out)) 0); [lia|]. destruct (Nat.leb_spec crypto_pwhash_STRBYTES (length (c_string out))); [lia|done].
Qed.

(** [C27] Creating an account.  It succeeds only for a name that no account
    has; it adds one account, disabled, without expiry, whose verifier
    accepts the password that is returned, and one audit row that names it.
    Until it is enabled no password opens it. *)
Theorem create_account_spec raw salt username kind now_us d c d' : accounts_ok d -> pwhash_documented ->
  create_account pwhash_str max_key installed_catalog begin_ commit_ dump policy raw salt username kind now_us d = (Ret c, d') ->
  username <> "" /\ (forall k r, accounts d !! k = Some r -> ~ named username r)
  /\ exists id v, let r := [Integer id; text username; text kind; Blob v; Boolean false; Timestamp now_us; Null; Null] in
       c = mkCreatedAccount (mkLocalAccount id username kind false now_us 0 0) (random_secret raw)
       /\ accounts d !! encode_key [Integer id] = None /\ verify_secret pwhash_verify v (ca_password c) = true
       /\ recorded console "account.create" "" now_us r d d'
       /\ (accounts_ok d' -> forall password request_id now2, verify_account pwhash_verify max_key installed_catalog begin_ commit_ dump policy username password request_id now2 d'
            = (not_found "account disabled", d')).
Proof.
  intros Hok Hdoc. unfold create_account. destruct (String.eqb_spec username "") as [|Hu]; [discriminate|]. unfold in_transaction.
  destruct begin_ as [[]|]; [|discriminate]. destruct (run max_key installed_catalog _ d) as [[r0|e0] d1] eqn:Erun; [|discriminate].
  destruct commit_ as [[]|]; [|discriminate]. intros [= -> ->]. split; [exact Hu|].
  destruct (find_account_finds max_key d username Hok) as (o' & Hf' & Ho). unfold create_body in Erun. rewrite run_bind, Hf' in Erun. clear Hf'.
  destruct o' as [r|]; [discriminate Erun|]. split; [intros k r Hk Hn; discriminate (proj2 (Ho r) (ex_intro _ k (conj Hk Hn)))|].
  cbn beta iota in Erun. rewrite run_bind in Erun. pose proof (next_id_reads max_key installed_catalog kLocalAccounts d) as Hd.
  destruct (run max_key installed_catalog (next_id kLocalAccounts) d) as [[id|] d0]; [|discriminate Erun]. cbn in Hd. subst d0. cbn beta iota zeta in Erun.
  apply run_bind_inv in Erun as (v & d0 & [Hv <-]%pair_equal_spec & Erun). apply (made_verifies _ _ _ Hdoc) in Hv.
  set (r := [Integer id; _; _; _; _; _; _; _]) in Erun. exists id, v. fold r. cbv zeta.
  apply run_bind_inv in Erun as (rec & d2 & Hrec & Erun). apply run_bind_inv in Erun as ([] & d2' & [Hst <-]%pair_equal_spec & Erun).
  apply run_bind_inv in Erun as ([] & d3 & Hins & Erun). apply run_bind_inv in Erun as (rec' & d4 & Htg & [= <- <-]).
  assert (Hacct : account_from_row r = mkLocalAccount id username kind false now_us 0 0) by (unfold account_from_row; cbn; by rewrite !string_bytes).
  rewrite Hacct. split; [reflexivity|].
  apply recorder_effect in Hrec as (aid & Erow & Hfree & Haud & Hs1); [|exact Hst].
  apply rec_insert_effect in Hins as (t & Ht & Hall & Hrows & Hs2); [|discriminate]. apply tbl_is in Ht as ->. apply insert_fresh in Hall; [|by_eval].
  rewrite accounts_key in Hrows, Hall. change (at_ r 0) with (Integer id) in Hrows, Hall.
  assert (Ha1 : accounts d2 = accounts d) by (apply Hs1; decide_now). assert (Haud2 : audits d3 = audits d2) by (apply Hs2; decide_now).
  fold (accounts d2) in Hrows, Hall. rewrite Ha1 in Hrows, Hall. fold (accounts d3) in Hrows.
  destruct (target_effect max_key rec rec' aid now_us console "account.create" "" kLocalAccounts (int_to_string id) d3 d4 Erow) as [Haud3 Hs3]; [|exact Htg|].
  { rewrite Haud2, Haud. apply lookup_insert_eq. }
  assert (Ha3 : accounts d4 = accounts d3) by (apply Hs3; decide_now).
  split; [exact Hall|]. split; [exact Hv|]. split.
  - split; [rewrite Ha3; exact Hrows|]. split.
    + exists aid. split; [exact Hfree|]. rewrite Haud3, Haud2, Haud. apply insert_insert_eq.
    + intros n Hn. rewrite (Hs3 n), (Hs2 n), (Hs1 n); [reflexivity|set_solver..].
  - intros Hok' password request_id now2. unfold verify_account, in_transaction, verify_body. rewrite run_bind.
    destruct (find_account_finds max_key d4 username Hok') as (o & Hf' & Ho'). rewrite Hf'. clear Hf'.
    rewrite (proj2 (Ho' r)); [reflexivity|]. exists (encode_key [Integer id]). rewrite Ha3, Hrows. split; [apply lookup_insert_eq|reflexivity].
Qed.
End create.

(** * A run *)

(** A stand-in for Argon2: the verifier is the secret itself. *)
Definition toy_str (salt : Bytes) (secret : string) : option Bytes :=
  let b := bytes_of_string secret in
  if (0 <? length (c_string b))%nat && (length b <? crypto_pwhash_STRBYTES)%nat && bool_decide (c_string b = b) then Some b else None.
Definition toy_verify (buf : Bytes) (secret : string) : bool := bool_decide (c_string buf = bytes_of_string secret).
Lemma c_string_prefix b n : c_string b = b -> c_string (b ++ replicate n 0) = b.
Proof.
  induction b as [|x b IH]; cbn [c_string app]; [by destruct n|]. destruct (x =? 0); [done|]. intros [= E]. by rewrite IH.
Qed.
Lemma toy_documented : pwhash_documented toy_str toy_verify.
Proof.
  intros salt secret out. unfold toy_str. set (b := bytes_of_string secret). destruct (_ && _) eqn:E; [|done]. intros [= <-].
  apply andb_true_iff in E as [[Hl Hm]%andb_true_iff He%bool_decide_eq_true]. apply Nat.ltb_lt in Hl, Hm. rewrite He in *. split; [lia|].
  unfold toy_verify. apply bool_decide_eq_true. by apply c_string_prefix.
Qed.

Notation create_it := (create_account toy_str 300 installed_catalog (Ret tt) (Ret tt) sample_dump ∅ [1; 2; 3] [] "breakglass" "break_glass" 5 sample).
Definition created_account : CreatedAccount := mkCreatedAccount (mkLocalAccount 1 "breakglass" "break_glass" false 5 0 0) "AQID".
Definition created : Data := snd create_it.
Lemma account_create_runs : create_it = (Ret created_account, created).
Proof. unfold created. rewrite (surjective_pairing create_it) at 1. by f_equal. Qed.
Notation enable_it := (enable_account 300 installed_catalog (Ret tt) (Ret tt) sample_dump ∅ "breakglass" 100 6 created).
Definition enabled : Data := snd enable_it.
Definition enabled_row : Row :=
  [Integer 1; text "breakglass"; text "break_glass"; Blob (bytes_of_string "AQID"); Boolean true; Timestamp 5; Timestamp 100; Null].
Lemma enabled_rows : accounts enabled = {[ encode_key [Integer 1] := enabled_row ]}.
Proof. vm_compute. reflexivity. Qed.
Lemma one_account_ok d r : accounts d = {[ encode_key [Integer 1] := r ]} -> at_ r 0 = Integer 1 -> validate_row (tbl kLocalAccounts) r = Ret tt -> row_fits r -> accounts_ok d.
Proof.
  intros E H0 Hv Hf. split; rewrite E.
  - intros k r' [<- <-]%lookup_singleton_Some. split; [by rewrite accounts_key, H0|by apply validated].
  - intros k1 k2 r1 r2 [<- _]%lookup_singleton_Some [<- _]%lookup_singleton_Some. reflexivity.
Qed.

Lemma create_account_spec_witness :
  verify_account toy_verify 300 installed_catalog (Ret tt) (Ret tt) sample_dump ∅ "breakglass" "AQID" "" 9 created = (not_found "account disabled", created).
Proof.
  destruct (create_account_spec toy_str toy_verify 300 (Ret tt) (Ret tt) sample_dump ∅ [1; 2; 3] [] "breakglass" "break_glass" 5 sample created_account created)
    as (_ & _ & id & v & _ & _ & _ & _ & Hshut).
  - split; replace (accounts sample) with (∅ : gmap Bytes Row) by by_eval; [apply map_Forall_empty|]. intros k1 k2 r1 r2 H1. rewrite lookup_empty in H1. discriminate H1.
  - exact toy_documented.
  - exact account_create_runs.
  - apply Hshut. apply (one_account_ok created (<[4%nat := Boolean false]> (<[6%nat := Null]> enabled_row))); [by_eval|reflexivity|by_eval|decide_now].
Defined.
Lemma verify_account_spec_witness :
  exists k r, accounts enabled !! k = Some r /\ named "breakglass" r /\ admits toy_verify 50 "AQID" r.
Proof.
  pose proof (verify_account_spec toy_verify 300 (Ret tt) (Ret tt) sample_dump ∅ "breakglass" "AQID" "r1" 50 enabled
    (fst (verify_account toy_verify 300 installed_catalog (Ret tt) (Ret tt) sample_dump ∅ "breakglass" "AQID" "r1" 50 enabled))
    (snd (verify_account toy_verify 300 installed_catalog (Ret tt) (Ret tt) sample_dump ∅ "breakglass" "AQID" "r1" 50 enabled))
    (one_account_ok enabled enabled_row enabled_rows eq_refl ltac:(by_eval) ltac:(decide_now)) ltac:(decide_now) (surjective_pairing _)) as H.
  replace (fst _) with (Ret (mkLocalAccount 1 "breakglass" "break_glass" true 5 100 50)) in H by by_eval.
  destruct H as (k & r & Hk & Hn & Ha & _). exists k, r. exact (conj Hk (conj Hn Ha)).
Defined.
