(* ===== verification/CoreGrants.v ===== *)
(** Roles and secrets: a grant gives exactly its role to exactly its
    principal, revoking takes it back; generated secrets and printed uuids
    lose nothing. *)

From stdpp Require Import base numbers list gmap strings sorting.
From S2P Require Import Prelude Bytes PageFormat Types Record StoreSchema BTreeNode BTree Store Grove StoreRep StoreSpec StoreReads StoreRefine StoreIntegrity.
From S2P Require Import CoreSchema Program Recorder PunchSchema PunchInstall PunchData PunchRules PunchRows PunchScan PunchTables PunchExample CoreAccounts CoreAccountsSpec.
From stdpp Require Import list.
Open Scope Z_scope.
Open Scope prog_scope.

(** * Roles *)

Definition grants (d : Data) : gmap Bytes Row := rows_of d kRoleGrants.
(** The principal holds_role the role by some grant on file. *)
Definition holds_role (d : Data) (tid oid role : string) : Prop :=
  exists k r, grants d !! k = Some r /\ at_ r 1 = text tid /\ at_ r 2 = text oid /\ as_text (at_ r 3) = role.

Lemma text_inj a b : text a = text b -> a = b.
Proof. intros E. rewrite <- (text_back a), <- (text_back b). by rewrite E. Qed.
Lemma roles_scan t o : scan_ready installed_catalog kRoleGrants "role_grants_principal" (tbl kRoleGrants) (idx_of kRoleGrants "role_grants_principal") [text t; text o].
Proof. split_and!; by_eval. Qed.
Lemma roles_ready : ready kRoleGrants "role_grants_principal" ["tid"; "oid"].
Proof. split_and!; by_eval. Qed.
Lemma roles_project r : project (tbl kRoleGrants) r ["tid"; "oid"] = [at_ r 1; at_ r 2].
Proof. by_eval. Qed.
Lemma roles_key r : pk_key_of (tbl kRoleGrants) r = encode_key [at_ r 0].
Proof. exact (id_key kRoleGrants r ltac:(by_eval) ltac:(by_eval)). Qed.

Lemma elem_of_texts (l : list Row) i s : forall out : gset string,
  s ∈ fold_left (fun out r => out ∪ {[as_text (at_ r i)]}) l out <-> s ∈ out \/ exists r, r ∈ l /\ as_text (at_ r i) = s.
Proof.
  induction l as [|r l IH]; intros out; cbn [fold_left].
  - split; [by left|]. intros [H|(r & H & _)]; [done|by apply not_elem_of_nil in H].
  - rewrite IH, elem_of_union, elem_of_singleton. setoid_rewrite elem_of_cons. naive_solver.
Qed.

Lemma roles_for_holds max_key d t o : rows_ok (tbl kRoleGrants) (grants d) -> t <> "" -> o <> "" ->
  exists s, run max_key installed_catalog (roles_for t o) d = (Ret s, d) /\ forall role, role ∈ s <-> holds_role d t o role.
Proof.
  intros Hok Ht Ho. unfold roles_for. apply String.eqb_neq in Ht, Ho. rewrite Ht, Ho. cbn [orb].
  rewrite run_bind, (run_scan_eq _ _ _ _ _ _ _ _ (roles_scan t o)). eexists. split; [reflexivity|]. intros role. rewrite elem_of_texts.
  fold (found d kRoleGrants "role_grants_principal" [text t; text o]). unfold holds_role.
  assert (Hf : forall r, r ∈ found d kRoleGrants "role_grants_principal" [text t; text o] <-> exists k, grants d !! k = Some r /\ at_ r 1 = text t /\ at_ r 2 = text o).
  { intros r. rewrite (found_iff d _ _ ["tid"; "oid"] _ _ roles_ready Hok).
    - split; intros (k & Hk & E); exists k; (split; [exact Hk|]); [rewrite roles_project in E; by injection E|destruct E as [E1 E2]; by rewrite roles_project, E1, E2].
    - replace (types_of (tbl kRoleGrants) ["tid"; "oid"]) with [TText; TText] by by_eval. repeat constructor; apply text_ok. }
  split.
  - intros [H|(r & Hr & E)]; [destruct (not_elem_of_empty _ H)|]. apply Hf in Hr as (k & Hk & E1 & E2). exists k, r. auto.
  - intros (k & r & Hk & E1 & E2 & Hr). right. exists r. split; [|exact Hr]. apply Hf. exists k. auto.
Qed.

Section remove.
Context (max_key : nat) (dump : Json -> string).
Notation run := (run max_key installed_catalog).
Lemma rec_remove_effect rec name key d d' : name <> kChangeFeed -> run (rec_remove dump rec name key) d = (Ret tt, d') ->
  rows_of d' name = delete (encode_key key) (rows_of d name) /\ same_but [name; kChangeFeed] d d'.
Proof.
  intros Hne H. apply recording_inv in H as (t & Ht & H). apply run_bind_inv in H as (old & d0 & Hg & H).
  assert (d0 = d) as ->. { eapply reads_run; [|exact Hg]. intros r. exact I. }
  destruct old as [old|]; [|discriminate H]. apply run_bind_inv in H as ([] & d1 & Hw & H). apply run_write_inv in Hw. cbn [spec_row_op] in Hw.
  apply feed_same in H. unfold spec_remove in Hw. rewrite Ht in Hw. destruct (negb _); [discriminate Hw|]. destruct (primary_key_ok _ _ _); [|discriminate Hw].
  destruct (rows_of d name !! encode_key key); [|discriminate Hw]. unfold changing in Hw. destruct (spec_children _ _ _ _ _) as [[]|]; [|discriminate Hw].
  injection Hw as <-. split.
  - rewrite (H name) by (by rewrite list_elem_of_singleton). apply rows_of_eq.
  - intros n [Hn1 Hn2]%not_elem_of_cons. rewrite (H n) by done. by apply rows_of_ne.
Qed.
End remove.

(** [C28] Roles are granted and revoked one by one.  After [grant_role] a
    principal holds_role a role exactly if it held it before or it is the one
    granted, which is what [roles_for] then answers, and what no other table
    than the change feed knows of; revoking the grant by the identifier that
    [grant_role] gave restores the table of grants. *)
Theorem grant_role_exact max_key dump rec tid oid role granted_by now_us d id d' :
  rows_ok (tbl kRoleGrants) (grants d) ->
  row_fits [Integer id; text tid; text oid; text role; text granted_by; Timestamp now_us] ->
  run max_key installed_catalog (grant_role dump rec tid oid role granted_by now_us) d = (Ret id, d') ->
  (forall t o r, holds_role d' t o r <-> holds_role d t o r \/ (t, o, r) = (tid, oid, role))
  /\ same_but [kRoleGrants; kChangeFeed] d d'
  /\ (forall t o, t <> "" -> o <> "" ->
       exists s, run max_key installed_catalog (roles_for t o) d' = (Ret s, d') /\ forall r, r ∈ s <-> holds_role d' t o r)
  /\ forall rec2 d2, run max_key installed_catalog (revoke_role dump rec2 id) d' = (Ret tt, d2) -> grants d2 = grants d.
Proof.
  intros Hok Hfits Hrun. unfold grant_role in Hrun. apply run_bind_inv in Hrun as (id0 & d0 & Hid & Hrun).
  apply run_bind_inv in Hrun as ([] & d1 & Hins & Hret). injection Hret as -> ->.
  pose proof (next_id_reads max_key installed_catalog kRoleGrants d) as Hd. rewrite Hid in Hd. cbn [snd] in Hd. subst d0. clear Hid.
  apply rec_insert_effect in Hins as (t & Ht & Hall & Hrows & Hs); [|discriminate]. apply tbl_is in Ht as ->.
  set (row := [Integer id; _; _; _; _; _]) in *.
  assert (Hfree : grants d !! encode_key [Integer id] = None).
  { apply insert_fresh in Hall; [|by_eval]. rewrite roles_key in Hall. exact Hall. }
  rewrite roles_key in Hrows. change (at_ row 0) with (Integer id) in Hrows. fold (grants d') (grants d) in Hrows.
  assert (Hok' : rows_ok (tbl kRoleGrants) (grants d')).
  { rewrite Hrows. apply map_Forall_insert_2; [|exact Hok]. split; [symmetry; apply (roles_key row)|]. unfold insert_allowed in Hall.
    destruct (validate_row _ _) as [[]|] eqn:Ev; [|discriminate Hall]. exact (validated _ _ Ev Hfits). }
  split; [|split; [exact Hs|split]].
  - intros t o r. unfold holds_role. rewrite Hrows. split.
    + intros (k & x & Hk & E1 & E2 & E3). apply lookup_insert_Some in Hk as [[<- <-]|[_ Hk]]; [right|left; exists k, x; auto].
      apply text_inj in E1 as <-. apply text_inj in E2 as <-. rewrite <- E3. exact (f_equal (pair (tid, oid)) (text_back role)).
    + intros [(k & x & Hk & E)|[= -> -> ->]].
      * exists k, x. split; [|exact E]. apply lookup_insert_Some. right. split; [|exact Hk]. intros <-. congruence.
      * exists (encode_key [Integer id]), row. split; [apply lookup_insert_eq|]. split; [reflexivity|]. split; [reflexivity|]. apply string_bytes.
  - intros t o Hto Hoo. by apply roles_for_holds.
  - intros rec2 d2 Hrev. apply rec_remove_effect in Hrev as [Hdel _]; [|discriminate]. fold (grants d2) (grants d') in Hdel. rewrite Hdel, Hrows.
    apply delete_insert_id, Hfree.
Qed.

(** A grant on an installed schema. *)
Notation grant_it := (run 300 installed_catalog (grant_role sample_dump sample_recorder "t1" "o1" "payroll" "console" 7) sample).
Definition granted : Data := snd grant_it.
Lemma grant_runs : grant_it = (Ret 1, granted).
Proof. unfold granted. rewrite (surjective_pairing grant_it) at 1. by f_equal. Qed.
Lemma grant_role_exact_witness : holds_role granted "t1" "o1" "payroll".
Proof.
  apply (grant_role_exact 300 sample_dump sample_recorder "t1" "o1" "payroll" "console" 7 sample 1 granted).
  - replace (grants sample) with (∅ : gmap Bytes Row) by by_eval. apply map_Forall_empty.
  - decide_now.
  - exact grant_runs.
  - right. reflexivity.
Defined.

(** * Secrets *)

(** The sextets of a secret, as numbers: [r] holds_role the last [bits] bits that
    have not been written yet. *)
Fixpoint sextets (raw : Bytes) (r bits : Z) : list Z :=
  match raw with
  | [] => if 0 <? bits then [r * 2 ^ (6 - bits)] else []
  | b :: raw =>
      let x := r * 256 + b in
      if bits <? 4 then x / 2 ^ (bits + 2) :: sextets raw (x mod 2 ^ (bits + 2)) (bits + 2)
      else x / 64 :: x mod 64 :: sextets raw 0 0
  end.
Definition secret_of (l : list Z) : string := fold_right (fun i s => String (alphabet_at i) s) EmptyString l.

Lemma string_app_assoc (a b c : string) : (a +:+ b) +:+ c = a +:+ (b +:+ c).
Proof. induction a as [|x a IH]; [done|]. change (String x ((a +:+ b) +:+ c) = String x (a +:+ (b +:+ c))). by rewrite IH. Qed.
Lemma string_app_empty (a : string) : a +:+ "" = a.
Proof. induction a as [|x a IH]; [done|]. change (String x (a +:+ "") = String x a). by rewrite IH. Qed.

Lemma land_63 x : Z.land x 63 = x mod 64.
Proof. apply (Z.land_ones x 6). lia. Qed.
(** The accumulator with one more byte, modulo its last bits. *)
Lemma more_mod acc b bits : is_byte b -> bits = 0 \/ bits = 2 \/ bits = 4 ->
  Z.lor (wrap32 (Z.shiftl acc 8)) b mod 2 ^ (bits + 8) = acc mod 2 ^ bits * 256 + b.
Proof.
  intros [Hb1 Hb2] Hbits. rewrite <- (Z.land_ones _ (bits + 8)) by lia. rewrite Z.land_lor_distr_l.
  assert (Eb : Z.land b (Z.ones (bits + 8)) = b).
  { rewrite Z.land_ones by lia. apply Z.mod_small. split; [done|]. apply Z.lt_le_trans with (2 ^ 8); [exact Hb2|]. apply Z.pow_le_mono_r; lia. }
  assert (Ea : Z.land (wrap32 (Z.shiftl acc 8)) (Z.ones (bits + 8)) = Z.shiftl (acc mod 2 ^ bits) 8).
  { unfold wrap32. rewrite !Z.land_ones by lia. rewrite !Z.shiftl_mul_pow2 by lia. change (2 ^ 8) with 256. change (2 ^ 32) with 4294967296.
    destruct Hbits as [->|[->| ->]]; cbn [Z.add]; Z.to_euclidean_division_equations; lia. }
  rewrite Ea, Eb, Z.lor_comm. rewrite (lor_disjoint b _ 8); [change (2 ^ 8) with 256; lia|lia|exact (conj Hb1 Hb2)|apply Z.mod_pos_bound; lia].
Qed.

Lemma shift_land acc j : 0 <= j -> Z.land (Z.shiftr acc j) 63 = acc / 2 ^ j mod 64.
Proof. intros Hj. by rewrite land_63, Z.shiftr_div_pow2. Qed.

(** The digits of [a] in its last bits. *)
Lemma high_sextet a s x : 0 < s -> a mod (s * 64) = x -> a / s mod 64 = x / s.
Proof. intros Hs <-. rewrite Z.rem_mul_r by lia. rewrite (Z.mul_comm s (a / s mod 64)), Z.div_add, (Z.div_small (a mod s) s) by (try apply Z.mod_pos_bound; lia). lia. Qed.
Lemma low_bits a s x : 0 < s -> a mod (s * 64) = x -> a mod s = x mod s.
Proof. intros Hs <-. rewrite Z.rem_mul_r, (Z.mul_comm s (a / s mod 64)), Z.mod_add, Z.mod_mod by lia. done. Qed.

(** [secret_from] writes the sextets. *)
Lemma secret_from_sextets raw : bytes_ok raw -> forall acc bits out, bits = 0 \/ bits = 2 \/ bits = 4 ->
  secret_from raw acc bits out = out +:+ secret_of (sextets raw (acc mod 2 ^ bits) bits).
Proof.
  induction 1 as [|b raw Hb Hraw IH]; intros acc bits out Hbits; cbn [secret_from sextets].
  - destruct (Z.ltb_spec 0 bits) as [Hlt|]; [|by rewrite string_app_empty]. cbn [secret_of fold_right]. do 4 f_equal.
    rewrite land_63. unfold wrap32. rewrite Z.shiftl_mul_pow2 by lia. change (2 ^ 32) with 4294967296.
    destruct Hbits as [->|[->| ->]]; [lia|..]; cbn [Z.sub Z.add Z.opp Z.pos_sub Pos.pred_double Z.pow Z.pow_pos Pos.iter Z.mul Pos.mul];
      Z.to_euclidean_division_equations; lia.
  - pose proof (more_mod acc b bits Hb Hbits) as Hm. set (acc' := Z.lor _ _) in *. set (x := acc mod 2 ^ bits * 256 + b) in *.
    assert (Hb0 : 0 <= acc mod 2 ^ bits < 2 ^ bits) by (apply Z.mod_pos_bound; lia). destruct Hb as [Hb1 Hb2].
    set (char n := String (alphabet_at (Z.land (Z.shiftr acc' n) 63)) EmptyString).
    assert (Hchar : forall n, 0 <= n -> char n = String (alphabet_at (acc' / 2 ^ n mod 64)) EmptyString).
    { intros n Hn. unfold char. by rewrite shift_land. }
    destruct Hbits as [->|[->| ->]].
    + change (take_sixes 3 acc' (0 + 8) out) with (2, out +:+ char 2). cbv beta iota. rewrite IH by lia. rewrite string_app_assoc, Hchar by lia.
      apply (f_equal (fun s => out +:+ s)). change (0 <? 4) with true. cbv iota. change (0 + 2) with 2. cbn [secret_of fold_right].
      change (2 ^ (0 + 8)) with 256 in Hm. change (2 ^ 0) with 1 in *. change (2 ^ 2) with 4 in *.
      rewrite (high_sextet acc' 4 x) by (lia || exact Hm). rewrite (low_bits acc' 4 x) by (lia || exact Hm).
      reflexivity.
    + change (take_sixes 3 acc' (2 + 8) out) with (4, out +:+ char 4). cbv beta iota. rewrite IH by lia. rewrite string_app_assoc, Hchar by lia.
      apply (f_equal (fun s => out +:+ s)). change (2 <? 4) with true. cbv iota. change (2 + 2) with 4. cbn [secret_of fold_right].
      change (2 ^ (2 + 8)) with 1024 in Hm. change (2 ^ 2) with 4 in *. change (2 ^ 4) with 16 in *.
      rewrite (high_sextet acc' 16 x) by (lia || exact Hm). rewrite (low_bits acc' 16 x) by (lia || exact Hm).
      reflexivity.
    + change (take_sixes 3 acc' (4 + 8) out) with (0, (out +:+ char 6) +:+ char 0). cbv beta iota. rewrite IH by lia. rewrite !string_app_assoc, !Hchar by lia.
      apply (f_equal (fun s => out +:+ s)). change (4 <? 4) with false. cbv iota. cbn [secret_of fold_right].
      change (2 ^ (4 + 8)) with 4096 in Hm. change (2 ^ 4) with 16 in *. change (2 ^ 6) with 64 in *. change (2 ^ 0) with 1 in *.
      rewrite (high_sextet acc' 64 x) by (lia || exact Hm). rewrite Z.div_1_r, (low_bits acc' 64 x) by (lia || exact Hm).
      rewrite Z.mod_1_r. reflexivity.
Qed.

(** The numbers of a secret determine its bytes. *)
Lemma sextets_inj raw1 : bytes_ok raw1 -> forall raw2 r1 r2 bits, bytes_ok raw2 -> bits = 0 \/ bits = 2 \/ bits = 4 ->
  0 <= r1 < 2 ^ bits -> 0 <= r2 < 2 ^ bits -> sextets raw1 r1 bits = sextets raw2 r2 bits -> r1 = r2 /\ raw1 = raw2.
Proof.
  assert (Hlen : forall b raw r bits, bits = 0 \/ bits = 2 \/ bits = 4 -> (2 <= length (sextets (b :: raw) r bits))%nat).
  { intros b raw r bits Hbits. cbn [sextets]. destruct Hbits as [->|[->| ->]]; destruct raw; cbn [length sextets];
      first [change (0 + 2) with 2|change (2 + 2) with 4|idtac]; repeat (let c := constr:(Z.ltb) in match goal with |- context [c ?x ?y] => destruct (c x y) eqn:? end); cbn [length]; lia. }
  induction 1 as [|b raw1 [Hb1 Hb2] Hraw IH]; intros [|b2 raw2] r1 r2 bits Hok2 Hbits Hr1 Hr2 E.
  - split; [|done]. destruct Hbits as [->|[->| ->]]; cbn in E; [lia|injection E; lia..].
  - apply (f_equal length) in E. specialize (Hlen b2 raw2 r2 bits Hbits). rewrite <- E in Hlen. cbn in Hlen. destruct (0 <? bits); cbn in Hlen; lia.
  - apply (f_equal length) in E. specialize (Hlen b raw1 r1 bits Hbits). rewrite E in Hlen. cbn in Hlen. destruct (0 <? bits); cbn in Hlen; lia.
  - inversion Hok2 as [|? ? [Hc1 Hc2] Hraw2]; subst. destruct Hbits as [->|[->| ->]]; cbn [sextets] in E.
    + change (0 <? 4) with true in E. cbv iota in E. change (0 + 2) with 2 in E. injection E as E1 E2. apply IH in E2 as [E2 ->]; [|done|lia|apply Z.mod_pos_bound; lia..].
      change (2 ^ 2) with 4 in *. change (2 ^ 0) with 1 in *. assert (r1 = r2 /\ b = b2) as [-> ->]; [|done]. Z.to_euclidean_division_equations; lia.
    + change (2 <? 4) with true in E. cbv iota in E. change (2 + 2) with 4 in E. injection E as E1 E2. apply IH in E2 as [E2 ->]; [|done|lia|apply Z.mod_pos_bound; lia..].
      change (2 ^ 2) with 4 in *. change (2 ^ 4) with 16 in *. assert (r1 = r2 /\ b = b2) as [-> ->]; [|done]. Z.to_euclidean_division_equations; lia.
    + change (4 <? 4) with false in E. cbv iota in E. injection E as E1 E3 E2. apply IH in E2 as [_ ->]; [|done|lia|cbn; lia..].
      change (2 ^ 4) with 16 in *. assert (r1 = r2 /\ b = b2) as [-> ->]; [|done]. Z.to_euclidean_division_equations; lia.
Qed.

Lemma sextets_range raw : bytes_ok raw -> forall r bits, bits = 0 \/ bits = 2 \/ bits = 4 -> 0 <= r < 2 ^ bits -> Forall (fun i => 0 <= i < 64) (sextets raw r bits).
Proof.
  induction 1 as [|b raw [Hb1 Hb2] Hraw IH]; intros r bits Hbits Hr; cbn [sextets].
  - destruct Hbits as [->|[->| ->]]; cbn; repeat constructor; cbn in *; lia.
  - destruct Hbits as [->|[->| ->]].
    + change (0 <? 4) with true. cbv iota. change (0 + 2) with 2. constructor; [|apply IH; [lia|apply Z.mod_pos_bound; lia]].
      change (2 ^ 0) with 1 in Hr. change (2 ^ 2) with 4. Z.to_euclidean_division_equations; lia.
    + change (2 <? 4) with true. cbv iota. change (2 + 2) with 4. constructor; [|apply IH; [lia|apply Z.mod_pos_bound; lia]].
      change (2 ^ 2) with 4 in Hr. change (2 ^ 4) with 16. Z.to_euclidean_division_equations; lia.
    + change (4 <? 4) with false. cbv iota. change (2 ^ 4) with 16 in Hr.
      constructor; [Z.to_euclidean_division_equations; lia|]. constructor; [apply Z.mod_pos_bound; lia|]. apply IH; [lia|cbn; lia].
Qed.
Lemma alphabet_inj i j : 0 <= i < 64 -> 0 <= j < 64 -> alphabet_at i = alphabet_at j -> i = j.
Proof.
  intros Hi Hj E. assert (Hnd : NoDup (map alphabet_at (seqZ 0 64))) by (apply (bool_decide_unpack _); vm_compute; exact I).
  assert (Hat : forall k, 0 <= k < 64 -> map alphabet_at (seqZ 0 64) !! Z.to_nat k = Some (alphabet_at k)).
  { intros k Hk. change (alphabet_at <$> seqZ 0 64) with (map alphabet_at (seqZ 0 64)). rewrite list_lookup_fmap, lookup_seqZ_lt by lia. by replace (0 + Z.of_nat (Z.to_nat k)) with k by lia. }
  pose proof (Hat j Hj) as Hj2. rewrite <- E in Hj2. pose proof (NoDup_lookup _ _ _ _ Hnd (Hat i Hi) Hj2). lia.
Qed.
Lemma secret_of_inj l1 : Forall (fun i => 0 <= i < 64) l1 -> forall l2, Forall (fun i => 0 <= i < 64) l2 -> secret_of l1 = secret_of l2 -> l1 = l2.
Proof.
  induction 1 as [|x l1 Hx H1 IH]; intros [|y l2] H2 E; try discriminate E; [done|]. inversion H2; subst. injection E as E1 E2.
  f_equal; [by apply alphabet_inj|by apply IH].
Qed.

(** A generated secret loses nothing of the random bytes it is made of:
    different bytes give different secrets. *)
Theorem random_secret_injective raw1 raw2 : bytes_ok raw1 -> bytes_ok raw2 -> random_secret raw1 = random_secret raw2 -> raw1 = raw2.
Proof.
  intros H1 H2. unfold random_secret. rewrite !secret_from_sextets by (auto; lia). change (0 mod 2 ^ 0) with 0. intros E.
  apply secret_of_inj in E; [|apply sextets_range; [done|lia|cbn; lia]..]. apply sextets_inj in E as [_ E]; [done|done|done|lia|cbn; lia|cbn; lia].
Qed.
Lemma random_secret_injective_witness : random_secret [1; 2] <> random_secret [1; 3].
Proof.
  intros E. apply random_secret_injective in E; [discriminate E|decide_now|decide_now].
Defined.

(** * Uuids *)

Lemma hex_back d : 0 <= d < 16 -> hex_value (hex_digit d) = Some d /\ Ascii.eqb (hex_digit d) (ascii_of_byte 45) = false.
Proof.
  intros Hd. assert (Hall : Forall (fun d => hex_value (hex_digit d) = Some d /\ Ascii.eqb (hex_digit d) (ascii_of_byte 45) = false) (seqZ 0 16)) by (apply (bool_decide_unpack _); vm_compute; exact I).
  rewrite Forall_forall in Hall. apply Hall. apply elem_of_seqZ. lia.
Qed.
Lemma digits_app a : forall b u hi, uuid_digits (a +:+ b) u hi = rbind (uuid_digits a u hi) (fun x => uuid_digits b (fst x) (snd x)).
Proof.
  induction a as [|c a IH]; intros b u hi; [done|]. change ((String c a) +:+ b) with (String c (a +:+ b)). cbn [uuid_digits].
  destruct (Ascii.eqb c _); [apply IH|]. destruct (hex_value c); [|done]. destruct hi; [|apply IH]. destruct (16 <=? length u)%nat; [done|apply IH].
Qed.
Lemma byte_digits b u : is_byte b -> (length u < 16)%nat ->
  uuid_digits (String (hex_digit (Z.shiftr b 4)) (String (hex_digit (Z.land b 15)) EmptyString)) u None = Ret (u ++ [b], None).
Proof.
  intros [Hb1 Hb2] Hu. assert (E15 : Z.land b 15 = b mod 16) by (apply (Z.land_ones b 4); lia).
  assert (E4 : Z.shiftr b 4 = b / 16) by (by apply Z.shiftr_div_pow2).
  destruct (hex_back (Z.shiftr b 4)) as [Eh Hh]; [rewrite E4; Z.to_euclidean_division_equations; lia|].
  destruct (hex_back (Z.land b 15)) as [El Hl]; [rewrite E15; Z.to_euclidean_division_equations; lia|]. cbn [uuid_digits]. rewrite Hh, Eh, Hl, El.
  destruct (Nat.leb_spec 16 (length u)); [lia|]. do 4 f_equal. rewrite Z.lor_comm, lor_disjoint by (rewrite ?E15, ?E4; Z.to_euclidean_division_equations; lia).
  rewrite E15, E4. change (2 ^ 4) with 16. assert (Hx : b mod 16 + b / 16 * 16 = b) by (Z.to_euclidean_division_equations; lia). rewrite Hx.
  change 255 with (Z.ones 8). rewrite Z.land_ones by lia. by apply Z.mod_small.
Qed.

(** A printed uuid reads back as its sixteen bytes. *)
Theorem uuid_roundtrip u : length u = 16%nat -> bytes_ok u -> uuid_from_string (uuid_to_string u) = Ret u.
Proof.
  intros Hl Hok. unfold uuid_from_string, uuid_to_string. set (f := fun (s : string) (i : nat) => _).
  assert (Hpre : forall n, (n <= 16)%nat -> uuid_digits (fold_left f (seq 0 n) EmptyString) [] None = Ret (take n u, None)).
  { induction n as [|n IH]; intros Hn; [done|]. rewrite seq_S, fold_left_app. cbn [fold_left Nat.add]. specialize (IH ltac:(lia)).
    set (s := fold_left f (seq 0 n) EmptyString) in *.
    assert (Hs : uuid_digits (s +:+ String (hex_digit (Z.shiftr (byte_at u n) 4)) (String (hex_digit (Z.land (byte_at u n) 15)) EmptyString)) [] None = Ret (take (S n) u, None)).
    { rewrite digits_app, IH. cbn [rbind fst snd]. destruct (lookup_lt_is_Some_2 u n) as [b Hb]; [lia|].
      assert (Eb : byte_at u n = b) by (unfold byte_at; by rewrite (nth_lookup_Some _ _ _ _ Hb)). rewrite Eb, byte_digits; [|by eapply Forall_lookup_1|rewrite length_take; lia].
      by rewrite (take_S_r _ _ _ Hb). }
    unfold f. fold s. cbv zeta. destruct (_ || _); [|exact Hs]. rewrite digits_app, Hs. done. }
  rewrite Hpre by lia. cbn [rbind]. rewrite take_ge by lia. by rewrite Hl.
Qed.
Lemma uuid_roundtrip_witness : uuid_from_string (uuid_to_string (replicate 16 171)) = Ret (replicate 16 171).
Proof. apply uuid_roundtrip; [reflexivity|decide_now]. Defined.
