(* ===== verification/PunchSupervision.v ===== *)
(** Supervisor assignments (PL-2): one supervisor at a time. *)

From stdpp Require Import base numbers list gmap strings sorting.
From S2P Require Import Prelude Bytes PageFormat Types Record StoreSchema BTreeNode BTree Store Grove StoreRep StoreSpec StoreReads StoreRefine StoreIntegrity.
From S2P Require Import CoreSchema Program Recorder PunchSchema PunchInstall PunchData PunchRules PunchPayroll PunchLifecycle PunchScan PunchTables PunchExample.
From stdpp Require Import list.
Open Scope Z_scope.
Open Scope prog_scope.

(** * Supervisors (PL-2) *)

Definition assignments (d : Data) : gmap Bytes Row := rows_of d "supervisor_assignments".
Definition employee_of (r : Row) : Value := at_ r 1.
Definition from_of (r : Row) : Z := as_int64 (at_ r 3).
(** No two assignments of one employee overlap. *)
Definition assignments_apart (d : Data) : Prop :=
  forall k1 k2 r1 r2, assignments d !! k1 = Some r1 -> assignments d !! k2 = Some r2 -> k1 <> k2 -> employee_of r1 = employee_of r2 ->
    apart (from_of r1) (range_end r1) (from_of r2) (range_end r2) = true.

Lemma apart_not_both f1 t1 f2 t2 at_us : apart f1 t1 f2 t2 = true -> in_force f1 t1 at_us = true -> in_force f2 t2 at_us = true -> False.
Proof. unfold apart, in_force. lia. Qed.
Lemma apart_sym f1 t1 f2 t2 : apart f1 t1 f2 t2 = apart f2 t2 f1 t1.
Proof. unfold apart. apply orb_comm. Qed.

Lemma assignments_scan e : scan_ready installed_catalog "supervisor_assignments" "supervisor_assignments_employee"
  (tbl "supervisor_assignments") (idx_of "supervisor_assignments" "supervisor_assignments_employee") [Integer e].
Proof. split_and!; by_eval. Qed.
Lemma assignments_employee r : project (tbl "supervisor_assignments") r ["employee_id"] = [at_ r 1].
Proof. by_eval. Qed.
Lemma assignments_ready : ready "supervisor_assignments" "supervisor_assignments_employee" ["employee_id"].
Proof. split_and!; by_eval. Qed.

Section supervisors.
Context (max_key : nat) (d : Data) (Hok : rows_ok (tbl "supervisor_assignments") (assignments d)).

Lemma assignments_visited e r : i64_ok e ->
  r ∈ found d "supervisor_assignments" "supervisor_assignments_employee" [Integer e]
  <-> exists k, assignments d !! k = Some r /\ employee_of r = Integer e.
Proof.
  intros He. rewrite (found_iff d _ _ ["employee_id"]).
  - unfold employee_of. split; intros (k & Hk & E); exists k; (split; [exact Hk|]).
    + rewrite assignments_employee in E. by injection E.
    + by rewrite assignments_employee, E.
  - exact assignments_ready.
  - exact Hok.
  - replace (types_of (tbl "supervisor_assignments") ["employee_id"]) with [TInteger] by by_eval. constructor; [split; [exact He|done]|constructor].
Qed.

Lemma supervisor_at_finds e at_us : i64_ok e -> assignments_apart d -> exists o, run max_key installed_catalog (supervisor_at e at_us) d = (Ret o, d)
  /\ forall s, o = Some s <-> exists k r, assignments d !! k = Some r /\ employee_of r = Integer e /\ in_force (from_of r) (range_end r) at_us = true
       /\ as_int64 (at_ r 2) = s.
Proof.
  intros He Hapart. unfold supervisor_at. rewrite (run_scan _ _ _ _ _ _ _ _ _ _ (assignments_scan e)).
  rewrite (fold_search _ (fun r => in_force (from_of r) (range_end r) at_us) (fun r => Some (as_int64 (at_ r 2)))) by done.
  eexists. split; [done|]. intros s. destruct (List.find _ _) as [r|] eqn:Ef.
  - apply List.find_some in Ef as [Hin Hf]. apply list_elem_of_In, assignments_visited in Hin as (k & Hk & Hr); [|done]. split.
    + intros [= <-]. by exists k, r.
    + intros (k' & r' & Hk' & Hr' & Hf' & <-). destruct (decide (k = k')) as [->|Hne]; [by simplify_eq|].
      exfalso. eapply (apart_not_both _ _ _ _ at_us); [apply (Hapart k k' r r' Hk Hk' Hne)| |]; [congruence|done|done].
  - split; [done|]. intros (k & r & Hk & Hr & Hf & <-). exfalso.
    assert (Hin : r ∈ found d "supervisor_assignments" "supervisor_assignments_employee" [Integer e]) by (apply assignments_visited; [done|by exists k]).
    apply list_elem_of_In in Hin. pose proof (List.find_none _ _ Ef _ Hin). cbn in *. congruence.
Qed.

Lemma valid_is_apart e s from to except : i64_ok e -> run max_key installed_catalog (supervisor_assignment_valid e s from to except) d = (Ret tt, d) ->
  e <> s /\ (to = 0 \/ from < to)
  /\ forall k r, assignments d !! k = Some r -> employee_of r = Integer e -> as_int64 (at_ r 0) = except \/ apart from to (from_of r) (range_end r) = true.
Proof.
  intros He. unfold supervisor_assignment_valid. destruct (Z.eqb_spec e s) as [|Hes]; [done|]. destruct (negb (to =? 0) && (to <=? from)) eqn:Ert; [done|].
  rewrite run_bind, (run_scan _ _ _ _ _ _ _ _ _ _ (assignments_scan e)).
  rewrite (fold_search _ (fun r => negb (as_int64 (at_ r 0) =? except) && negb (apart from to (from_of r) (range_end r))) (fun _ => true)).
  2: { intros r b. unfold from_of. by destruct (as_int64 (at_ r 0) =? except), (apart from to _ (range_end r)). }
  destruct (List.find _ _) as [r|] eqn:Ef; [done|]. intros _. split_and!; [done|lia|]. intros k r Hk Hr.
  assert (Hin : r ∈ found d "supervisor_assignments" "supervisor_assignments_employee" [Integer e]) by (apply assignments_visited; [done|by exists k]).
  apply list_elem_of_In in Hin. pose proof (List.find_none _ _ Ef _ Hin) as Hn. cbn in Hn. apply andb_false_iff in Hn as [Hn|Hn]; [left; lia|right].
  by apply negb_false_iff in Hn.
Qed.
End supervisors.

Lemma range_end_row a : range_end (to_row a) = sa_effective_to a.
Proof. unfold range_end. cbn. unfold opt_ts. by destruct (Z.eqb_spec (sa_effective_to a) 0) as [->|]. Qed.

(** [C22] PL-2 keeps the supervisor unique.  If no two assignments of an employee
    overlap, and one that [supervisor_assignment_valid] accepts is inserted,
    no two overlap afterwards; and then [supervisor_at] returns, for every
    instant, the supervisor of the only assignment in force, or none. *)
Theorem supervisor_unique max_key d d' a e at_us :
  rows_ok (tbl "supervisor_assignments") (assignments d) -> assignments_apart d ->
  (forall k r, assignments d !! k = Some r -> as_int64 (at_ r 0) <> 0) ->
  row_fits (to_row a) -> i64_ok e ->
  run max_key installed_catalog
    (do* supervisor_assignment_valid (sa_employee_id a) (sa_supervisor_employee_id a) (sa_effective_from a) (sa_effective_to a) 0 in
     pwrite (RInsert "supervisor_assignments" (to_row a))) d = (Ret tt, d') ->
  assignments_apart d'
  /\ exists o, run max_key installed_catalog (supervisor_at e at_us) d' = (Ret o, d')
     /\ forall s, o = Some s <-> exists k r, assignments d' !! k = Some r /\ employee_of r = Integer e /\ in_force (from_of r) (range_end r) at_us = true
          /\ as_int64 (at_ r 2) = s.
Proof.
  intros Hok Hapart Hids Hfits He Hrun. rewrite run_bind in Hrun.
  assert (Ha : i64_ok (sa_employee_id a)) by (destruct Hfits as [Hf _]; inversion Hf as [|?? _ Hf2]; by inversion Hf2 as [|?? [? _] _]).
  destruct (run max_key installed_catalog (supervisor_assignment_valid _ _ _ _ _) d) as [[[]|] d1] eqn:Ev; [|done].
  assert (d1 = d) as ->.
  { revert Ev. unfold supervisor_assignment_valid. destruct (_ =? _); [done|]. destruct (_ && _); [done|].
    rewrite run_bind, (run_scan _ _ _ _ _ _ _ _ _ _ (assignments_scan _)). unfold pguard. destruct (fold_until _ _ _); by intros [= ->]. }
  apply (valid_is_apart max_key d Hok _ _ _ _ _ Ha) in Ev as (_ & _ & Hnew).
  apply run_write_inv, spec_insert_inv in Hrun as (t & Ht & Hins & ->).
  apply tbl_is in Ht as ->.
  set (key := pk_key_of _ _). fold (assignments d).
  assert (Hrows : assignments (<["supervisor_assignments" := <[key := to_row a]> (assignments d)]> d) = <[key := to_row a]> (assignments d)) by apply rows_of_eq.
  assert (Happ : assignments_apart (<["supervisor_assignments" := <[key := to_row a]> (assignments d)]> d)).
  { assert (Hfresh : forall k r, assignments d !! k = Some r -> employee_of r = employee_of (to_row a) ->
      apart (from_of (to_row a)) (range_end (to_row a)) (from_of r) (range_end r) = true).
    { intros k r Hk E. rewrite range_end_row. destruct (Hnew k r Hk E) as [H0|Hap]; [by destruct (Hids k r Hk)|exact Hap]. }
    intros k1 k2 r1 r2 H1 H2 Hne E. rewrite Hrows in H1, H2.
    apply lookup_insert_Some in H1 as [[<- <-]|[Hk1 H1]]; apply lookup_insert_Some in H2 as [[<- <-]|[Hk2 H2]].
    - destruct (Hne eq_refl).
    - exact (Hfresh k2 r2 H2 (eq_sym E)).
    - rewrite apart_sym. exact (Hfresh k1 r1 H1 E).
    - exact (Hapart k1 k2 r1 r2 H1 H2 Hne E). }
  split; [exact Happ|]. apply supervisor_at_finds; [|exact He|exact Happ]. rewrite Hrows. apply map_Forall_insert_2; [|exact Hok].
  split; [reflexivity|]. unfold insert_allowed in Hins. destruct (validate_row _ _) as [[]|] eqn:Evr; [|done]. exact (validated _ _ Evr Hfits).
Qed.

Lemma no_assignments : assignments sample = ∅.
Proof. vm_compute. reflexivity. Qed.
Definition first_assignment : SupervisorAssignment := mkSupervisorAssignment 1 1 2 10 20 "hr" 1.
Definition assign (a : SupervisorAssignment) : Prog unit :=
  do* supervisor_assignment_valid (sa_employee_id a) (sa_supervisor_employee_id a) (sa_effective_from a) (sa_effective_to a) 0 in
  pwrite (RInsert "supervisor_assignments" (to_row a)).
Definition assigned : Data := snd (run 300 installed_catalog (assign first_assignment) sample).
Lemma assigned_runs : run 300 installed_catalog (assign first_assignment) sample = (Ret tt, assigned).
Proof. unfold assigned. rewrite (surjective_pairing (run 300 installed_catalog (assign first_assignment) sample)) at 1. by f_equal. Qed.
Lemma supervisor_unique_witness :
  assignments_apart assigned
  /\ exists o, run 300 installed_catalog (supervisor_at 1 15) assigned = (Ret o, assigned)
     /\ forall s, o = Some s <-> exists k r, assignments assigned !! k = Some r /\ employee_of r = Integer 1 /\ in_force (from_of r) (range_end r) 15 = true
          /\ as_int64 (at_ r 2) = s.
Proof.
  apply (supervisor_unique 300 sample assigned first_assignment 1 15).
  - rewrite no_assignments. apply map_Forall_empty.
  - intros k1 k2 r1 r2 H1. rewrite no_assignments, lookup_empty in H1. discriminate H1.
  - intros k r H1. rewrite no_assignments, lookup_empty in H1. discriminate H1.
  - decide_now.
  - decide_now.
  - exact assigned_runs.
Defined.
