(* ===== verification/PunchQueue.v ===== *)
(** The exception queue: opening is idempotent. *)

From stdpp Require Import base numbers list gmap strings sorting.
From S2P Require Import Prelude Bytes PageFormat Types Record StoreSchema BTreeNode BTree Store Grove StoreRep StoreSpec StoreReads StoreRefine.
From S2P Require Import CoreSchema Program Recorder PunchSchema PunchInstall PunchData PunchRules PunchPayroll PunchRows PunchScan PunchTables PunchExample.
From stdpp Require Import list.
Open Scope Z_scope.
Open Scope prog_scope.

Lemma exceptions_scan : scan_ready installed_catalog "exceptions" "exceptions_state" (tbl "exceptions") (idx_of "exceptions" "exceptions_state") [text "open"].
Proof. split_and!; by_eval. Qed.
Lemma exceptions_ready : ready "exceptions" "exceptions_state" ["state"].
Proof. split_and!; by_eval. Qed.
Lemma exceptions_key r : project (tbl "exceptions") r ["state"] = [at_ r 2].
Proof. by_eval. Qed.

(** The open exceptions of the queue, as structs. *)
Definition open_now (d : Data) : list Exception := map from_row (found d "exceptions" "exceptions_state" [text "open"]).

Lemma run_open_where max_key p d : run max_key installed_catalog (open_where p) d = (Ret (List.filter p (open_now d)), d).
Proof.
  unfold open_where. rewrite (run_scan _ _ _ _ _ _ _ _ _ _ exceptions_scan). rewrite (fold_collect p from_row). reflexivity.
Qed.

Lemma open_found d r : rows_ok (tbl "exceptions") (rows_of d "exceptions") ->
  r ∈ found d "exceptions" "exceptions_state" [text "open"] <-> exists k, rows_of d "exceptions" !! k = Some r /\ at_ r 2 = text "open".
Proof.
  intros Hok. rewrite (found_iff d _ _ ["state"]).
  - split; intros (k & Hk & E); exists k; (split; [exact Hk|]); [rewrite exceptions_key in E; by injection E|by rewrite exceptions_key, E].
  - exact exceptions_ready.
  - exact Hok.
  - replace (types_of (tbl "exceptions") ["state"]) with [TText] by by_eval. constructor; [|constructor]. split; [decide_now|done].
Qed.

Definition new_exception (id : Z) (key : ExceptionKey) (detail : string) (now_us : Z) : Exception :=
  mkException id (xk_kind key) "open" (xk_employee_id key) (xk_device_id key) (xk_entry_id key) (xk_period_id key) detail now_us 0 "" 0.
Lemma new_matches id key detail now_us : key_matches (new_exception id key detail now_us) key = true.
Proof. unfold key_matches, new_exception. cbn. rewrite String.eqb_refl, !Z.eqb_refl. cbn [negb]. by rewrite andb_false_r. Qed.

Lemma only_one {A} (l : list A) x : x ∈ l -> (forall y, y ∈ l -> y = x) -> exists l', l = x :: l'.
Proof. destruct l as [|y l]; [by intros ?%not_elem_of_nil|]. intros _ H. exists l. rewrite (H y); [done|by left]. Qed.

(** [C23] Opening an exception is idempotent.  Whatever [open_exception] did, the
    next call with the same key returns the same identifier, reports that it
    did not open one, and changes nothing; and a call that did not open one
    changed nothing. *)
Theorem open_exception_idempotent max_key dump rec key detail now_us id created d d' :
  rows_ok (tbl "exceptions") (rows_of d "exceptions") -> row_fits (to_row (new_exception id key detail now_us)) ->
  run max_key installed_catalog (open_exception dump rec key detail now_us) d = (Ret (id, created), d') ->
  (created = false -> d' = d)
  /\ forall detail2 now2, run max_key installed_catalog (open_exception dump rec key detail2 now2) d' = (Ret (id, false), d').
Proof.
  intros Hok Hfits Hrun. unfold open_exception in Hrun. rewrite run_bind in Hrun. unfold open_matching in Hrun. rewrite run_open_where in Hrun.
  assert (Hagain : forall d, (exists x l, List.filter (fun x => key_matches x key) (open_now d) = x :: l /\ ex_id x = id) ->
    forall detail2 now2, run max_key installed_catalog (open_exception dump rec key detail2 now2) d = (Ret (id, false), d)).
  { intros d0 (x & l & E & <-) detail2 now2. unfold open_exception. rewrite run_bind. unfold open_matching. rewrite run_open_where, E. reflexivity. }
  destruct (List.filter (fun x => key_matches x key) (open_now d)) as [|x l] eqn:El.
  2: { injection Hrun as <- <- <-. split; [done|]. apply Hagain. by exists x, l. }
  rewrite run_bind in Hrun. pose proof (next_id_reads max_key installed_catalog "exceptions" d) as Hd.
  destruct (run max_key installed_catalog (next_id "exceptions") d) as [[nid|] d0]; [|done]. cbn in Hd. subst d0. rewrite run_bind in Hrun.
  destruct (run max_key installed_catalog (rec_insert _ _ _ _) d) as [[[]|] d1] eqn:E1; [|done]. injection Hrun as -> <- ->. split; [done|]. apply Hagain.
  apply rec_insert_effect in E1 as (t & Ht & Hins & Hrows & _); [|done]. apply tbl_is in Ht as ->. fold (new_exception id key detail now_us) in *.
  set (x := new_exception id key detail now_us) in *.
  assert (Hok' : rows_ok (tbl "exceptions") (rows_of d' "exceptions")).
  { rewrite Hrows. apply map_Forall_insert_2; [|exact Hok]. split; [reflexivity|]. unfold insert_allowed in Hins.
    destruct (validate_row _ _) as [[]|] eqn:Evr; [|done]. exact (validated _ _ Evr Hfits). }
  assert (Hx : to_row x ∈ found d' "exceptions" "exceptions_state" [text "open"]).
  { apply open_found; [exact Hok'|]. exists (pk_key_of (tbl "exceptions") (to_row x)). rewrite Hrows. split; [|reflexivity].
    generalize (pk_key_of (tbl "exceptions") (to_row x)) as k. intros k. apply lookup_insert_eq. }
  (* Only the new exception matches. *)
  assert (Honly : forall y, y ∈ List.filter (fun x => key_matches x key) (open_now d') -> y = x).
  { intros y Hy. apply list_elem_of_In, List.filter_In in Hy as [Hy Hm]. apply List.in_map_iff in Hy as (r & <- & Hr). apply list_elem_of_In, open_found in Hr as (k & Hk & Ho); [|exact Hok'].
    rewrite Hrows in Hk. apply lookup_insert_Some in Hk as [[_ <-]|[_ Hk]]; [apply exception_roundtrip|]. exfalso.
    assert (Hin : from_row r ∈ List.filter (fun x => key_matches x key) (open_now d)).
    { apply list_elem_of_In, List.filter_In. split; [|exact Hm]. apply List.in_map, list_elem_of_In, open_found; [exact Hok|]. exists k. split; [exact Hk|exact Ho]. }
    rewrite El in Hin. by apply not_elem_of_nil in Hin. }
  assert (Hmem : x ∈ List.filter (fun x => key_matches x key) (open_now d')).
  { apply list_elem_of_In, List.filter_In. split; [|apply new_matches]. rewrite <- (exception_roundtrip x). apply List.in_map, list_elem_of_In. exact Hx. }
  destruct (only_one _ x Hmem Honly) as [l' El']. exists x, l'. split; [exact El'|reflexivity].
Qed.

Definition sample_key : ExceptionKey := mkKey "late_punch" 1 0 0 1.
Definition after_open : Data := snd (run 300 installed_catalog (open_exception sample_dump sample_recorder sample_key "late" 7) sample).
Lemma after_open_runs : run 300 installed_catalog (open_exception sample_dump sample_recorder sample_key "late" 7) sample = (Ret (1, true), after_open).
Proof. unfold after_open. rewrite (surjective_pairing (run 300 installed_catalog _ sample)) at 1. by f_equal. Qed.
Lemma open_exception_idempotent_witness :
  run 300 installed_catalog (open_exception sample_dump sample_recorder sample_key "again" 8) after_open = (Ret (1, false), after_open).
Proof.
  apply (open_exception_idempotent 300 sample_dump sample_recorder sample_key "late" 7 1 true sample after_open).
  - replace (rows_of sample "exceptions") with (∅ : gmap Bytes Row) by by_eval. apply map_Forall_empty.
  - decide_now.
  - exact after_open_runs.
Defined.
