(* ===== verification/PunchMonitor.v ===== *)
(** The monitor of the Punchline module (server/src/modules/punchline_module.cpp,
    [monitor_once]): what is overdue gets an open exception.

    One pass runs in one transaction: it raises an exception for each stale
    device, each shift left open too long and each employee behind the cutoff
    of a pay period, and rolls back when nothing new was opened.  The log lines
    it writes and the thread that calls it are left out; times are not wrapped
    (overflow of a signed integer is undefined in the code). *)

From stdpp Require Import base numbers list gmap strings sorting.
From S2P Require Import Prelude Bytes PageFormat Types Record StoreSchema BTreeNode BTree Store Grove StoreRep StoreSpec StoreReads StoreRefine StoreIntegrity.
From S2P Require Import CoreSchema Program Recorder PunchSchema PunchInstall PunchData PunchRules PunchPayroll PunchRows PunchScan PunchTables PunchExample.
From S2P Require Import CoreAccounts CoreAccountsSpec PunchQueue.
From stdpp Require Import list.
Open Scope Z_scope.
Open Scope prog_scope.

(** [std::set<std::pair<int64_t, std::string>>::insert]. *)
Fixpoint insert_pair (x : Z * string) (l : list (Z * string)) : list (Z * string) :=
  match l with
  | [] => [x]
  | y :: l' =>
      match Z.compare (fst x) (fst y), String.compare (snd x) (snd y) with
      | Lt, _ | Eq, Lt => x :: l
      | Eq, Eq => l
      | _, _ => y :: insert_pair x l'
      end
  end.
(** [for (x : l)] with the counter of opened exceptions. *)
Fixpoint pfold {A} (l : list A) (f : A -> Z -> Prog Z) (opened : Z) : Prog Z :=
  match l with
  | [] => pret opened
  | x :: l => let* opened := f x opened in pfold l f opened
  end.

Section monitor.
Context (max_key : nat) (cat : Catalog) (begin_ commit_ : Result unit).
Variable dump : Json -> string.
Variable policy : RecordPolicy.
Variable config_ : Config.
Variable now : Z.

Definition flag (rec : Recorder) (key : ExceptionKey) (detail : string) (opened : Z) : Prog Z :=
  let* o := open_exception dump rec key detail now in
  pret (if snd o then opened + 1 else opened).

Definition last_heard (d : Device) : Z := if negb (dev_last_seen_at d =? 0) then dev_last_seen_at d else dev_enrolled_at d.
Definition check_device (rec : Recorder) (row : Row) (opened : Z) : Prog Z :=
  let d : Device := from_row row in
  if negb (dev_revoked_at d =? 0) then pret opened
  else if now - last_heard d <? device_stale_seconds config_ * 1000000 then pret opened
  else flag rec (mkKey "device_stale" (dev_employee_id d) (dev_id d) 0 0)
         ("no sync or heartbeat for " +:+ int_to_string (Z.quot (now - last_heard d) 3600000000) +:+ " hours") opened.
Definition check_shift (rec : Recorder) (row : Row) (opened : Z) : Prog Z :=
  let sh : Shift := from_row row in
  if negb (sh_out_entry_id sh =? 0) || (now - sh_in_time sh <? long_shift_hours config_ * 3600 * 1000000) then pret opened
  else flag rec (mkKey "unpaired_punch" (sh_employee_id sh) (sh_device_id sh) (sh_in_entry_id sh) 0)
         "in punch still open past the long-shift threshold" opened.

Definition past_submit (p : PayPeriod) : bool := negb (pp_submit_by p =? 0) && (pp_submit_by p <=? now).
Definition past_approve (p : PayPeriod) : bool := negb (pp_approve_by p =? 0) && (pp_approve_by p <=? now).
(** The employees behind a cutoff of the period, by the state of an entry. *)
Definition behind_of (p : PayPeriod) (rows : list Row) : list (Z * string) :=
  fold_left (fun behind row =>
    let e : TimeEntry := from_row row in
    if negb (te_superseded_by e =? 0) then behind
    else if past_submit p && String.eqb (te_state e) "recorded" || past_approve p && String.eqb (te_state e) "submitted" then
      insert_pair (te_employee_id e, te_state e) behind
    else behind) rows [].
Definition flag_behind (rec : Recorder) (p : PayPeriod) (x : Z * string) (opened : Z) : Prog Z :=
  flag rec (mkKey "past_cutoff" (fst x) 0 0 (pp_id p))
    (if String.eqb (snd x) "recorded" then "not submitted by the submit cutoff" else "not approved by the approval cutoff") opened.
Definition check_period (rec : Recorder) (row : Row) (opened : Z) : Prog Z :=
  let p : PayPeriod := from_row row in
  if negb (String.eqb (pp_state p) "open") then pret opened
  else if negb (past_submit p) && negb (past_approve p) then pret opened
  else
    let* entries := scan_eq "time_entries" "time_entries_period" [Integer (pp_id p)] in
    pfold (behind_of p entries) (flag_behind rec p) opened.

Definition checks (rec : Recorder) (opened : Z) : Prog Z :=
  let* devices := pscan_all "devices" "" None None in
  let* opened := pfold devices (check_device rec) opened in
  let* shifts := pscan_all "shifts" "" None None in
  let* opened := pfold shifts (check_shift rec) opened in
  let* periods := pscan_all "pay_periods" "" None None in
  pfold periods (check_period rec) opened.
Definition monitor_body : Prog Z :=
  let* rec := new_recorder policy (mkActor KSystem "" "" "monitor" None "") "monitor.tick" now "" in
  do* prec_ok rec in
  checks rec 0.
Definition monitor_once (d : Data) : Result Z * Data :=
  match begin_ with
  | Err e => (Err e, d)
  | Ret _ =>
      match run max_key cat monitor_body d with
      | (Err e, _) => (Err e, d)
      | (Ret opened, d') =>
          if opened =? 0 then (Ret 0, d)
          else match commit_ with Err e => (Err e, d) | Ret _ => (Ret opened, d') end
      end
  end.
End monitor.

(** * Raising a list of alerts *)

Definition exception_rows (d : Data) : gmap Bytes Row := rows_of d "exceptions".
Definition ex_ok (d : Data) : Prop := rows_ok (tbl "exceptions") (exception_rows d).
(** There is an open exception with the key. *)
Definition covers (d : Data) (key : ExceptionKey) : Prop := exists x, x ∈ open_now d /\ key_matches x key = true.
(** Only exceptions were added, and the change feed written. *)
Definition grows (d d' : Data) : Prop := same_but ["exceptions"; kChangeFeed] d d' /\ exception_rows d ⊆ exception_rows d'.
#[local] Instance grows_trans : PreOrder grows.
Proof.
  split; [by split|]. intros d1 d2 d3 [H1 H2] [H3 H4]. split; [by eapply same_but_trans|by etrans].
Qed.
Lemma ex_ok_below d d' : grows d d' -> ex_ok d' -> ex_ok d.
Proof. intros [_ Hs] Hok k r Hk. apply Hok. by eapply lookup_weaken. Qed.
Lemma covers_grows d d' key : grows d d' -> ex_ok d' -> covers d key -> covers d' key.
Proof.
  intros Hg Hok (x & Hx & Hm). pose proof (ex_ok_below _ _ Hg Hok) as Hok0. exists x. split; [|exact Hm]. destruct Hg as [_ Hs].
  unfold open_now in *. apply list_elem_of_In, List.in_map_iff in Hx as (r & Er & Hr). apply list_elem_of_In, open_found in Hr as (k & Hk & Ho); [|exact Hok0].
  apply list_elem_of_In, List.in_map_iff. exists r. split; [exact Er|]. apply list_elem_of_In, open_found; [exact Hok|]. exists k. split; [|exact Ho]. by eapply lookup_weaken.
Qed.

Section alerts.
Context (max_key : nat) (dump : Json -> string) (rec : Recorder) (now : Z).
Notation run := (run max_key installed_catalog).

Lemma open_exception_effect key detail d id created d' : run (open_exception dump rec key detail now) d = (Ret (id, created), d') -> ex_ok d' ->
  grows d d' /\ covers d' key /\ (created = false -> d' = d).
Proof.
  intros Hrun Hok'. unfold open_exception in Hrun. rewrite run_bind in Hrun. unfold open_matching in Hrun. rewrite run_open_where in Hrun.
  destruct (List.filter (fun x => key_matches x key) (open_now d)) as [|x l] eqn:El.
  2: { injection Hrun as <- <- <-. split; [reflexivity|]. split; [|reflexivity]. exists x.
    assert (Hx : In x (List.filter (fun x => key_matches x key) (open_now d))) by (rewrite El; left; reflexivity).
    apply List.filter_In in Hx as [Hx Hm]. split; [by apply list_elem_of_In|exact Hm]. }
  apply run_bind_inv in Hrun as (nid & d0 & Hid & Hrun). pose proof (next_id_reads max_key installed_catalog "exceptions" d) as Hd. rewrite Hid in Hd. cbn [snd] in Hd. subst d0.
  apply run_bind_inv in Hrun as ([] & d1 & Hins & Hret). injection Hret as -> <- ->.
  apply rec_insert_effect in Hins as (t & Ht & Hall & Hrows & Hs); [|discriminate]. apply tbl_is in Ht as ->. apply insert_fresh in Hall; [|by_eval].
  fold (new_exception id key detail now) in *. set (x := new_exception id key detail now) in *. fold (exception_rows d') (exception_rows d) in Hrows. fold (exception_rows d) in Hall.
  split; [|split; [|discriminate]].
  - split; [exact Hs|]. rewrite Hrows. by apply insert_subseteq.
  - exists x. split; [|apply new_matches]. unfold open_now. rewrite <- (exception_roundtrip x). apply list_elem_of_In, List.in_map, list_elem_of_In, open_found; [exact Hok'|].
    exists (pk_key_of (tbl "exceptions") (to_row x)). unfold exception_rows in Hrows. rewrite Hrows. split; [apply lookup_insert_eq|reflexivity].
Qed.
Lemma open_exception_covered key detail d : covers d key -> exists id, run (open_exception dump rec key detail now) d = (Ret (id, false), d).
Proof.
  intros (x & Hx & Hm). unfold open_exception. rewrite run_bind. unfold open_matching. rewrite run_open_where.
  assert (Hin : In x (List.filter (fun x => key_matches x key) (open_now d))) by (apply List.filter_In; split; [by apply list_elem_of_In|exact Hm]).
  destruct (List.filter _ _) as [|y l]; [destruct Hin|]. by exists (ex_id y).
Qed.

(** The keys and details that a pass raises, one after the other. *)
Definition raise_all (l : list (ExceptionKey * string)) (opened : Z) : Prog Z :=
  pfold l (fun a => flag dump now rec (fst a) (snd a)) opened.
Lemma run_flag key detail opened d : run (flag dump now rec key detail opened) d =
  match run (open_exception dump rec key detail now) d return Result Z * Data with
  | (Ret o, d') => (Ret (if snd o then opened + 1 else opened), d')
  | (Err e, d') => (Err e, d')
  end.
Proof. unfold flag. rewrite run_bind. by destruct (run _ d) as [[o|e] d']. Qed.

(** The counter counts what was created. *)
Lemma raise_all_count l : forall opened d n d', run (raise_all l opened) d = (Ret n, d') -> opened <= n /\ (n = opened -> d' = d).
Proof.
  induction l as [|[key detail] l IH]; intros opened d n d' Hrun; [injection Hrun as <- <-; by split; [lia|]|].
  unfold raise_all in Hrun. cbn [pfold fst snd] in Hrun. rewrite run_bind, run_flag in Hrun. destruct (run (open_exception _ _ _ _ _) d) as [[[id created]|] d1] eqn:E; [|discriminate Hrun].
  cbn [snd] in Hrun. destruct (IH _ _ _ _ Hrun) as [Hle Hsame]. split; [destruct created; lia|]. intros ->. destruct created; [lia|]. rewrite Hsame by reflexivity.
  unfold open_exception in E. rewrite run_bind in E. unfold open_matching in E. rewrite run_open_where in E.
  destruct (List.filter _ _) as [|x l']; [|by injection E]. apply run_bind_inv in E as (nid & d0 & _ & E). apply run_bind_inv in E as ([] & d2 & _ & E). discriminate E.
Qed.
Lemma raise_all_effect l : forall opened d n d', run (raise_all l opened) d = (Ret n, d') -> ex_ok d' ->
  opened <= n /\ (n = opened -> d' = d) /\ grows d d' /\ Forall (fun a => covers d' (fst a)) l.
Proof.
  induction l as [|[key detail] l IH]; intros opened d n d' Hrun Hok.
  - injection Hrun as <- <-. split; [lia|]. split; [done|]. split; [reflexivity|constructor].
  - unfold raise_all in Hrun. cbn [pfold fst snd] in Hrun. rewrite run_bind, run_flag in Hrun. destruct (run (open_exception _ _ _ _ _) d) as [[[id created]|] d1] eqn:E; [|discriminate Hrun].
    cbn [snd] in Hrun. fold (raise_all l (if created then opened + 1 else opened)) in Hrun. destruct (IH _ _ _ _ Hrun Hok) as (Hle & Hsame & Hg & Hcov).
    apply open_exception_effect in E as (Hg1 & Hc & Hfalse); [|by eapply ex_ok_below].
    split; [destruct created; lia|]. split; [|split; [by etrans|constructor; [by eapply covers_grows|exact Hcov]]].
    intros ->. destruct created; [lia|]. rewrite Hsame by reflexivity. by apply Hfalse.
Qed.
Lemma raise_all_covered l opened d : Forall (fun a => covers d (fst a)) l -> run (raise_all l opened) d = (Ret opened, d).
Proof.
  induction 1 as [|[key detail] l Hc _ IH]; [done|]. unfold raise_all. cbn [pfold fst snd]. rewrite run_bind, run_flag.
  destruct (open_exception_covered key detail d Hc) as [id ->]. exact IH.
Qed.
Lemma pfold_app {A} (f : A -> Z -> Prog Z) l1 l2 : forall opened d, run (pfold (l1 ++ l2) f opened) d =
  match run (pfold l1 f opened) d with (Ret n, d') => run (pfold l2 f n) d' | (Err e, d') => (Err e, d') end.
Proof.
  induction l1 as [|x l1 IH]; intros opened d; [done|]. cbn [app pfold]. rewrite !run_bind. destruct (run (f x opened) d) as [[n|e] d1]; [apply IH|done].
Qed.
Lemma raise_all_writes l : forall n, writes_only ["exceptions"; kChangeFeed] (raise_all l n).
Proof.
  induction l as [|a l IH]; intros n; [exact I|]. unfold raise_all. cbn [pfold]. apply writes_bind; [|intros o; apply IH].
  unfold flag, open_exception. apply writes_bind; [|intros o; exact I]. apply writes_bind; [intros ?; exact I|]. intros [|y ys]; [|exact I].
  apply writes_bind; [apply next_id_writes|]. intros id. apply writes_bind; [apply rec_insert_writes; set_solver|]. intros u. exact I.
Qed.
(** A loop each of whose steps raises alerts. *)
Lemma pfold_alerts {A} (P : Data -> Prop) (f : A -> Z -> Prog Z) (al : A -> list (ExceptionKey * string)) l :
  (forall d names, P d -> (forall n, n ∈ names -> n = "exceptions" \/ n = kChangeFeed) -> forall d', same_but names d d' -> P d') ->
  (forall x, x ∈ l -> forall n d, P d -> run (f x n) d = run (raise_all (al x) n) d) ->
  forall n d, P d -> run (pfold l f n) d = run (raise_all (concat (map al l)) n) d.
Proof.
  intros Hstable. induction l as [|x l IH]; intros Hf n d HP; [done|]. cbn [pfold map concat]. unfold raise_all. rewrite pfold_app, run_bind.
  fold (raise_all (al x) n). rewrite <- (Hf x) by (by left || done).
  assert (HP' : P (snd (run (f x n) d))).
  { rewrite (Hf x) by (by left || done). apply (Hstable d ["exceptions"; kChangeFeed]); [exact HP|set_solver|]. apply run_same, raise_all_writes. }
  destruct (run (f x n) d) as [[m|e] d1]; [|done]. apply IH; [|exact HP']. intros y Hy. apply Hf. by right.
Qed.
End alerts.

(** * One pass *)

Lemma insert_pair_new x l : x ∈ insert_pair x l.
Proof.
  induction l as [|y l IH]; cbn [insert_pair]; [by left|]. destruct (Z.compare_spec (fst x) (fst y)) as [E| |]; [|by left|by right].
  destruct (String.compare (snd x) (snd y)) eqn:Ec; [|by left|by right]. apply String.compare_eq_iff in Ec. destruct x, y; cbn in *; subst. by left.
Qed.
Lemma insert_pair_old x y l : x ∈ l -> x ∈ insert_pair y l.
Proof.
  induction l as [|z l IH]; cbn [insert_pair]; [by intros ?%not_elem_of_nil|]. intros [->|Hx]%elem_of_cons.
  - destruct (fst y ?= fst z), (String.compare (snd y) (snd z)); try (by left); right; by left.
  - destruct (fst y ?= fst z), (String.compare (snd y) (snd z)); try (by right); right; solve [by apply IH|by right].
Qed.
Lemma as_int64_ok v : value_ok v -> i64_ok (as_int64 v).
Proof. destruct v as [| | | | | |b|]; cbn; intros H; try done; try (unfold i64_ok; lia). destruct b; unfold i64_ok; lia. Qed.
Lemma at_ok r i : Forall value_ok r -> value_ok (at_ r i).
Proof. intros Hr. unfold at_. rewrite nth_lookup. destruct (r !! i) eqn:E; cbn; [by eapply Forall_lookup_1|exact I]. Qed.

Section pass.
Context (max_key : nat) (begin_ commit_ : Result unit) (dump : Json -> string) (policy : RecordPolicy) (config_ : Config) (now : Z).
Notation run := (run max_key installed_catalog).

Definition all_rows (d : Data) (name : string) : list Row := visited (tbl name) None None None (rows_of d name).
Lemma all_rows_iff d name r : r ∈ all_rows d name <-> exists k, rows_of d name !! k = Some r.
Proof. unfold all_rows. rewrite visited_elem. split; [intros (k & Hk & _); by exists k|intros (k & Hk); by exists k]. Qed.
Lemma run_whole_table name d : StoreSchema.table installed_catalog name = Some (tbl name) ->
  run (pscan_all name "" None None) d = (Ret (all_rows d name), d).
Proof.
  intros Ht. unfold pscan_all, pscan. cbn [Program.run]. unfold spec_scan. rewrite Ht. cbn [String.eqb rbind check_bound]. f_equal. f_equal.
  fold (all_rows d name). rewrite (fold_all (fun r => [r])). cbn [app]. induction (all_rows d name) as [|r l IH]; [done|]. cbn [map concat app]. by rewrite IH.
Qed.

(** What is overdue, row by row. *)
Definition stale (row : Row) : bool :=
  let d : Device := from_row row in (dev_revoked_at d =? 0) && (device_stale_seconds config_ * 1000000 <=? now - last_heard d).
Definition device_key (row : Row) : ExceptionKey := let d : Device := from_row row in mkKey "device_stale" (dev_employee_id d) (dev_id d) 0 0.
Definition left_open (row : Row) : bool :=
  let sh : Shift := from_row row in (sh_out_entry_id sh =? 0) && (long_shift_hours config_ * 3600 * 1000000 <=? now - sh_in_time sh).
Definition shift_key (row : Row) : ExceptionKey := let sh : Shift := from_row row in mkKey "unpaired_punch" (sh_employee_id sh) (sh_device_id sh) (sh_in_entry_id sh) 0.
Definition behind (period entry : Row) : bool :=
  let p : PayPeriod := from_row period in
  let e : TimeEntry := from_row entry in
  String.eqb (pp_state p) "open" && (te_superseded_by e =? 0)
  && (past_submit now p && String.eqb (te_state e) "recorded" || past_approve now p && String.eqb (te_state e) "submitted").
Definition cutoff_key (period entry : Row) : ExceptionKey := mkKey "past_cutoff" (te_employee_id (from_row entry)) 0 0 (pp_id (from_row period)).
(** Every overdue device, shift and entry has an open exception. *)
Definition all_raised (d d' : Data) : Prop :=
  (forall k r, rows_of d "devices" !! k = Some r -> stale r = true -> covers d' (device_key r))
  /\ (forall k r, rows_of d "shifts" !! k = Some r -> left_open r = true -> covers d' (shift_key r))
  /\ (forall k p k2 e, rows_of d "pay_periods" !! k = Some p -> rows_of d "time_entries" !! k2 = Some e -> at_ e 14 = Integer (pp_id (from_row p)) ->
        behind p e = true -> covers d' (cutoff_key p e)).

Definition device_alerts (row : Row) : list (ExceptionKey * string) :=
  if stale row then [(device_key row, "no sync or heartbeat for " +:+ int_to_string (Z.quot (now - last_heard (from_row row)) 3600000000) +:+ " hours")] else [].
Definition shift_alerts (row : Row) : list (ExceptionKey * string) :=
  if left_open row then [(shift_key row, "in punch still open past the long-shift threshold")] else [].
Definition cutoff_alert (p : PayPeriod) (x : Z * string) : ExceptionKey * string :=
  (mkKey "past_cutoff" (fst x) 0 0 (pp_id p), if String.eqb (snd x) "recorded" then "not submitted by the submit cutoff" else "not approved by the approval cutoff").
Definition period_alerts (d : Data) (row : Row) : list (ExceptionKey * string) :=
  let p : PayPeriod := from_row row in
  if String.eqb (pp_state p) "open" then
    map (cutoff_alert p) (behind_of now p (found d "time_entries" "time_entries_period" [Integer (pp_id p)]))
  else [].
Definition alerts (d : Data) : list (ExceptionKey * string) :=
  concat (map device_alerts (all_rows d "devices")) ++ concat (map shift_alerts (all_rows d "shifts")) ++ concat (map (period_alerts d) (all_rows d "pay_periods")).

Lemma behind_none p rows : past_submit now p = false -> past_approve now p = false -> behind_of now p rows = [].
Proof.
  intros H1 H2. unfold behind_of. rewrite H1, H2. cbn [andb orb]. induction rows as [|r rows IH]; [done|]. cbn [fold_left]. by destruct (negb _).
Qed.
Lemma behind_elem p rows : forall out r, let e : TimeEntry := from_row r in
  let fold := fold_left (fun behind row =>
    let e : TimeEntry := from_row row in
    if negb (te_superseded_by e =? 0) then behind
    else if past_submit now p && String.eqb (te_state e) "recorded" || past_approve now p && String.eqb (te_state e) "submitted" then
      insert_pair (te_employee_id e, te_state e) behind
    else behind) rows out in
  (forall x, x ∈ out -> x ∈ fold)
  /\ (r ∈ rows -> te_superseded_by e = 0 ->
      past_submit now p && String.eqb (te_state e) "recorded" || past_approve now p && String.eqb (te_state e) "submitted" = true -> (te_employee_id e, te_state e) ∈ fold).
Proof.
  cbv zeta. induction rows as [|r0 rows IH]; intros out r; cbn [fold_left]; [split; [done|by intros ?%not_elem_of_nil]|].
  set (out' := if negb _ then _ else _). assert (Hsub : forall x, x ∈ out -> x ∈ out').
  { intros x Hx. unfold out'. destruct (negb _); [done|]. destruct (_ || _); [by apply insert_pair_old|done]. }
  destruct (IH out' r) as [H1 H2]. split; [auto|]. intros [->|Hr]%elem_of_cons Hs Hb; [|by apply H2]. apply H1. unfold out'. rewrite Hs. cbn [negb Z.eqb]. rewrite Hb.
  apply insert_pair_new.
Qed.

Section same_entries.
Context (rec : Recorder).
Lemma run_device d row n : run (check_device dump config_ now rec row n) d = run (raise_all dump rec now (device_alerts row) n) d.
Proof.
  unfold check_device, device_alerts, stale. cbv zeta. destruct (_ =? 0); cbn [negb andb]; [|done]. rewrite Z.ltb_antisym. destruct (_ <=? _); cbn [negb]; [|done].
  unfold raise_all. cbn [pfold fst snd]. rewrite run_bind. unfold device_key. destruct (run (flag _ _ _ _ _ _) d) as [[m|e] d1]; done.
Qed.
Lemma run_shift d row n : run (check_shift dump config_ now rec row n) d = run (raise_all dump rec now (shift_alerts row) n) d.
Proof.
  unfold check_shift, shift_alerts, left_open. cbv zeta. destruct (_ =? 0); cbn [negb andb orb]; [|done]. rewrite Z.ltb_antisym. destruct (_ <=? _); cbn [negb]; [|done].
  unfold raise_all. cbn [pfold fst snd]. rewrite run_bind. unfold shift_key. destruct (run (flag _ _ _ _ _ _) d) as [[m|e] d1]; done.
Qed.
Lemma entries_scan p : scan_ready installed_catalog "time_entries" "time_entries_period" (tbl "time_entries") (idx_of "time_entries" "time_entries_period") [Integer p].
Proof. split_and!; by_eval. Qed.
Lemma run_cutoffs p l : forall n d, run (pfold l (flag_behind dump now rec p) n) d = run (raise_all dump rec now (map (cutoff_alert p) l) n) d.
Proof.
  induction l as [|x l IH]; intros n d; [done|]. unfold raise_all. cbn [pfold map]. rewrite !run_bind. unfold flag_behind at 1. cbn [cutoff_alert fst snd].
  destruct (run (flag _ _ _ _ _ _) d) as [[m|e] d1]; [apply IH|done].
Qed.
Lemma run_period d0 d row n : rows_of d "time_entries" = rows_of d0 "time_entries" ->
  run (check_period dump now rec row n) d = run (raise_all dump rec now (period_alerts d0 row) n) d.
Proof.
  intros Hsame. unfold check_period, period_alerts. cbv zeta. destruct (String.eqb _ "open"); cbn [negb]; [|done].
  destruct (past_submit now (from_row row)) eqn:E1, (past_approve now (from_row row)) eqn:E2; cbn [negb andb].
  4: { rewrite (behind_none (from_row row) _ E1 E2). reflexivity. }
  all: rewrite run_bind, (run_scan_eq _ _ _ _ _ _ _ _ (entries_scan _)), Hsame; apply run_cutoffs.
Qed.

(** The tables that the checks read and no alert writes. *)
Definition read_alike (d d' : Data) : Prop := Forall (fun n => rows_of d' n = rows_of d n) ["shifts"; "pay_periods"; "time_entries"].
Lemma read_alike_stable d0 d names : read_alike d0 d -> (forall n, n ∈ names -> n = "exceptions" \/ n = kChangeFeed) -> forall d', same_but names d d' -> read_alike d0 d'.
Proof.
  intros Ha Hn d' Hs. unfold read_alike in *. rewrite Forall_forall in *. intros n Hin. rewrite <- (Ha n Hin). apply Hs. intros Hnin. apply Hn in Hnin.
  repeat (apply elem_of_cons in Hin as [->|Hin]; [by destruct Hnin|]). by apply not_elem_of_nil in Hin.
Qed.
Lemma alike_rows d d' name : read_alike d d' -> name ∈ ["shifts"; "pay_periods"; "time_entries"] -> all_rows d' name = all_rows d name.
Proof. unfold read_alike. rewrite Forall_forall. intros Ha Hn. unfold all_rows. by rewrite (Ha name Hn). Qed.
Lemma raise_alike d0 d l n n' d' : read_alike d0 d -> run (raise_all dump rec now l n) d = (n', d') -> read_alike d0 d'.
Proof.
  intros Ha Hr. pose proof (run_same max_key installed_catalog _ _ (raise_all_writes dump rec now l n) d) as Hs. rewrite Hr in Hs.
  apply (read_alike_stable d0 d _ Ha) in Hs; [exact Hs|set_solver].
Qed.
Lemma run_checks d n : run (checks dump config_ now rec n) d = run (raise_all dump rec now (alerts d) n) d.
Proof.
  assert (Hd : read_alike d d) by (by apply Forall_forall).
  unfold checks, alerts, raise_all. rewrite pfold_app, run_bind, run_whole_table by by_eval. rewrite run_bind.
  rewrite (pfold_alerts max_key dump rec now (read_alike d) (check_device dump config_ now rec) device_alerts _ (read_alike_stable d) (fun x _ n d _ => run_device d x n) n d Hd).
  destruct (run (raise_all _ _ _ _ n) d) as [[n1|e] d1] eqn:E1; [|unfold raise_all in E1; by rewrite E1]. pose proof (raise_alike _ _ _ _ _ _ Hd E1) as Hd1.
  unfold raise_all in E1. rewrite E1. clear E1. rewrite pfold_app, run_bind, run_whole_table by by_eval. rewrite run_bind, (alike_rows d d1 "shifts" Hd1) by set_solver.
  rewrite (pfold_alerts max_key dump rec now (read_alike d) (check_shift dump config_ now rec) shift_alerts _ (read_alike_stable d) (fun x _ n d _ => run_shift d x n) n1 d1 Hd1).
  destruct (run (raise_all _ _ _ _ n1) d1) as [[n2|e] d2] eqn:E2; [|unfold raise_all in E2; by rewrite E2]. pose proof (raise_alike _ _ _ _ _ _ Hd1 E2) as Hd2.
  unfold raise_all in E2. rewrite E2. clear E2. rewrite run_bind, run_whole_table by by_eval. rewrite (alike_rows d d2 "pay_periods" Hd2) by set_solver.
  apply (pfold_alerts max_key dump rec now (read_alike d) (check_period dump now rec) (period_alerts d) _ (read_alike_stable d)); [|exact Hd2].
  intros x _ m dd Hdd. apply run_period. unfold read_alike in Hdd. rewrite Forall_forall in Hdd. apply Hdd. set_solver.
Qed.
End same_entries.

Lemma covers_same d d' key : exception_rows d' = exception_rows d -> covers d key -> covers d' key.
Proof. unfold covers, open_now, found, exception_rows. by intros ->. Qed.
(** The alerts are what is overdue. *)
Lemma alerts_raised d d' : rows_ok (tbl "time_entries") (rows_of d "time_entries") -> rows_ok (tbl "pay_periods") (rows_of d "pay_periods") ->
  Forall (fun a => covers d' (fst a)) (alerts d) -> all_raised d d'.
Proof.
  intros Hte Hpp Hall. unfold alerts in Hall. rewrite Forall_forall in Hall.
  assert (Hin : forall (f : Row -> list (ExceptionKey * string)) name k r a, rows_of d name !! k = Some r -> a ∈ f r -> a ∈ concat (map f (all_rows d name))).
  { intros f name k r a Hk Ha. apply list_elem_of_In, List.in_concat. exists (f r). split; [|by apply list_elem_of_In]. apply List.in_map, list_elem_of_In, all_rows_iff. by exists k. }
  split; [|split].
  - intros k r Hk Hs. refine (Hall (_, _) _). apply elem_of_app. left. apply (Hin device_alerts "devices" k r _ Hk). unfold device_alerts. rewrite Hs. by left.
  - intros k r Hk Hs. refine (Hall (_, _) _). apply elem_of_app. right. apply elem_of_app. left. apply (Hin shift_alerts "shifts" k r _ Hk). unfold shift_alerts. rewrite Hs. by left.
  - intros k p k2 e Hk Hk2 Hper Hb. unfold behind in Hb. cbv zeta in Hb. apply andb_true_iff in Hb as [[Hopen Hsup]%andb_true_iff Hb]. apply Z.eqb_eq in Hsup.
    refine (Hall (cutoff_alert (from_row p) (te_employee_id (from_row e), te_state (from_row e))) _).
    apply elem_of_app. right. apply elem_of_app. right. apply (Hin (period_alerts d) "pay_periods" k p _ Hk). unfold period_alerts. cbv zeta. rewrite Hopen.
    apply list_elem_of_In, List.in_map, list_elem_of_In, behind_elem; [|exact Hsup|exact Hb].
    apply (found_iff d _ _ ["period_id"]); [split_and!; by_eval|exact Hte| |exists k2; split; [exact Hk2|]].
    + replace (types_of (tbl "time_entries") ["period_id"]) with [TInteger] by by_eval. constructor; [|constructor]. split; [|reflexivity]. cbn.
      apply as_int64_ok, at_ok. eapply row_values_ok, (Hpp k p Hk).
    + replace (project (tbl "time_entries") e ["period_id"]) with [at_ e 14] by by_eval. by rewrite Hper.
Qed.

Lemma alerts_alike d d0 : rows_of d0 "devices" = rows_of d "devices" -> rows_of d0 "shifts" = rows_of d "shifts" ->
  rows_of d0 "pay_periods" = rows_of d "pay_periods" -> rows_of d0 "time_entries" = rows_of d "time_entries" -> alerts d0 = alerts d.
Proof.
  intros E1 E2 E3 E4. unfold alerts. f_equal; [|f_equal].
  - unfold all_rows. by rewrite E1.
  - unfold all_rows. by rewrite E2.
  - unfold all_rows. rewrite E3. f_equal. apply List.map_ext. intros r. unfold period_alerts, found. by rewrite E4.
Qed.

(** [C24] A pass of the monitor that succeeds leaves an open exception for
    everything overdue: each device silent for too long that is not revoked,
    each shift left open for too long, and each employee with a live entry
    behind a cutoff of an open pay period.  A pass that opens nothing leaves
    no trace, not even its audit row, and that is what a second pass at the
    same time does.  What is on file in every other table but the audit log
    and the change feed stays as it was. *)
Theorem monitor_raises d n d' :
  rows_ok (tbl "time_entries") (rows_of d "time_entries") -> rows_ok (tbl "pay_periods") (rows_of d "pay_periods") -> ex_ok d' ->
  monitor_once max_key installed_catalog begin_ commit_ dump policy config_ now d = (Ret n, d') ->
  0 <= n /\ all_raised d d' /\ (n = 0 -> d' = d)
  /\ same_but ["exceptions"; kChangeFeed; kAuditLog] d d' /\ exception_rows d ⊆ exception_rows d'
  /\ (forall m d2, monitor_once max_key installed_catalog begin_ commit_ dump policy config_ now d' = (Ret m, d2) -> m = 0 /\ d2 = d').
Proof.
  intros Hte Hpp Hok. unfold monitor_once. destruct begin_ as [[]|]; [|discriminate].
  (* What the body of a pass that gets to its checks does. *)
  assert (Hbody : forall d n d1, run (monitor_body dump policy config_ now) d = (Ret n, d1) ->
    exists rec d0, same_but [kAuditLog] d d0 /\ run (raise_all dump rec now (alerts d0) 0) d0 = (Ret n, d1)).
  { intros e m e1 Hrun. apply run_bind_inv in Hrun as (rec & e0 & Hrec & Hrun). apply run_bind_inv in Hrun as ([] & e0' & [Hst <-]%pair_equal_spec & Hrun).
    rewrite run_checks in Hrun. exists rec, e0. split; [|exact Hrun]. apply recorder_effect in Hrec as (id & _ & _ & _ & Hs); [exact Hs|exact Hst]. }
  destruct (run (monitor_body dump policy config_ now) d) as [[n1|] d1] eqn:E1; [|discriminate]. destruct (Hbody _ _ _ E1) as (rec & d0 & Hs0 & Hr).
  assert (Hd0 : forall n, n <> kAuditLog -> rows_of d0 n = rows_of d n) by (intros x Hx; apply Hs0; intros Hin; exact (Hx (proj1 (list_elem_of_singleton _ _) Hin))).
  rewrite (alerts_alike d d0) in Hr by (apply Hd0; discriminate).
  assert (Hex0 : exception_rows d0 = exception_rows d) by (by apply Hd0).
  destruct (raise_all_count max_key dump rec now _ _ _ _ _ Hr) as [Hle Hnone].
  (* A pass that starts from a state where all is raised. *)
  assert (Hagain : forall e, Forall (fun a => covers e (fst a)) (alerts d) -> alerts e = alerts d ->
    forall m e2, monitor_once max_key installed_catalog (Ret tt) commit_ dump policy config_ now e = (Ret m, e2) -> m = 0 /\ e2 = e).
  { intros e Hcov Ha m e2. unfold monitor_once. destruct (run (monitor_body dump policy config_ now) e) as [[k|] e1] eqn:E2; [|discriminate].
    destruct (Hbody _ _ _ E2) as (rec2 & e0 & Hse & Hre). assert (He0 : forall n, n <> kAuditLog -> rows_of e0 n = rows_of e n) by
      (intros x Hx; apply Hse; intros Hin; exact (Hx (proj1 (list_elem_of_singleton _ _) Hin))).
    rewrite (alerts_alike e e0), Ha in Hre by (apply He0; discriminate). rewrite raise_all_covered in Hre; [apply (f_equal fst) in Hre; injection Hre as <-; change (0 =? 0) with true; cbv iota; intros Heq; injection Heq as <- <-; split; reflexivity|].
    eapply Forall_impl; [exact Hcov|]. intros a. apply covers_same. by apply He0. }
  destruct (Z.eqb_spec n1 0) as [->|Hn1].
  - intros Heq. injection Heq as <- <-. specialize (Hnone eq_refl) as ->.
    assert (Hok0 : ex_ok d0) by (unfold ex_ok; rewrite Hex0; exact Hok).
    destruct (raise_all_effect max_key dump rec now _ _ _ _ _ Hr Hok0) as (_ & _ & _ & Hall).
    assert (Hcov : Forall (fun a => covers d (fst a)) (alerts d)) by (eapply Forall_impl; [exact Hall|]; intros a; by apply covers_same).
    split; [lia|]. split; [by apply alerts_raised|]. split; [intros _; reflexivity|]. split; [intros x _; reflexivity|]. split; [reflexivity|]. exact (Hagain d Hcov eq_refl).
  - destruct commit_ as [[]|]; [|discriminate]. intros Heq. injection Heq as <- <-.
    destruct (raise_all_effect max_key dump rec now _ _ _ _ _ Hr Hok) as (_ & _ & [Hs1 Hsub] & Hall). rewrite Hex0 in Hsub.
    assert (Hd1 : forall n, n <> "exceptions" -> n <> kChangeFeed -> n <> kAuditLog -> rows_of d1 n = rows_of d n).
    { intros x H1 H2 H3. rewrite (Hs1 x); [by apply Hd0|]. intros Hin. apply elem_of_cons in Hin as [?|Hin]; [by apply H1|]. exact (H2 (proj1 (list_elem_of_singleton _ _) Hin)). }
    split; [lia|]. split; [by apply alerts_raised|]. split; [intros ->; by destruct Hn1|]. split; [|split; [exact Hsub|]].
    + intros x Hx. apply Hd1; intros ->; apply Hx; repeat first [by left | right].
    + apply (Hagain d1 Hall). apply alerts_alike; apply Hd1; discriminate.
Qed.
End pass.

(** The clock of the example has not been heard of for more than a day. *)
Definition a_day_later : Z := 100000 * 1000000.
Notation pass_it := (monitor_once 300 installed_catalog (Ret tt) (Ret tt) sample_dump ∅ default_config a_day_later sample).
Definition watched : Data := snd pass_it.
Lemma pass_runs : pass_it = (Ret 1, watched).
Proof. unfold watched. rewrite (surjective_pairing pass_it) at 1. by f_equal. Qed.
Lemma monitor_raises_witness : covers watched (mkKey "device_stale" 1 1 0 0).
Proof.
  pose proof (monitor_raises 300 (Ret tt) (Ret tt) sample_dump ∅ default_config a_day_later sample 1 watched) as H. destruct H as (_ & [Hdev _] & _).
  - replace (rows_of sample "time_entries") with (∅ : gmap Bytes Row) by by_eval. apply map_Forall_empty.
  - apply (rows_ok_listed _ _ [to_row sample_period]); [by_eval|]. apply Forall_cons_2; [split; [by_eval|decide_now]|apply Forall_nil_2].
  - apply (rows_ok_listed _ _ [to_row (new_exception 1 (mkKey "device_stale" 1 1 0 0) "no sync or heartbeat for 27 hours" a_day_later)]); [by_eval|].
    apply Forall_cons_2; [split; [by_eval|decide_now]|apply Forall_nil_2].
  - exact pass_runs.
  - replace (mkKey "device_stale" 1 1 0 0) with (device_key (to_row sample_device)) by by_eval.
    apply (Hdev (pk_key_of (tbl "devices") (to_row sample_device)) (to_row sample_device)); by_eval.
Defined.
