(* ===== verification/PunchRollback.v ===== *)
(** The rollback export (modules/punchline/src/rollback.cpp): the completed
    shifts of a pay period as batches of entries for the server that Archivum
    replaced.

    A JSON object with fixed members is a record here.  The maps of employees
    and devices already read, the map of entries by device and the counters are
    the state that the loop over the shifts threads ([Export]).  [int] counters
    and times are not wrapped. *)

From stdpp Require Import base numbers list gmap strings sorting.
From S2P Require Import Prelude Bytes PageFormat Types Record StoreSchema BTreeNode BTree Store Grove StoreRep StoreSpec StoreReads StoreRefine LocalTime.
From S2P Require Import CoreSchema Program Recorder PunchSchema PunchInstall PunchData PunchRules PunchPayroll PunchRows PunchScan PunchTables PunchExample.
From stdpp Require Import list.
Open Scope Z_scope.
Open Scope prog_scope.

(** * Times *)

(** [snprintf] with ["%0<width>d"]. *)
Definition zero_padded (width : nat) (z : Z) : string := string_of_bytes (printf_0d width z).
Definition iso_utc (us : Z) : string :=
  let secs := Z.quot us 1000000 in
  let days := Z.quot secs 86400 in
  let rem := Z.rem secs 86400 in
  let '(days, rem) := if rem <? 0 then (days - 1, rem + 86400) else (days, rem) in
  let z := days + 719468 in
  let era := Z.quot (if 0 <=? z then z else z - 146096) 146097 in
  let doe := z - era * 146097 in
  let yoe := Z.quot (doe - Z.quot doe 1460 + Z.quot doe 36524 - Z.quot doe 146096) 365 in
  let doy := doe - (365 * yoe + Z.quot yoe 4 - Z.quot yoe 100) in
  let mp := Z.quot (5 * doy + 2) 153 in
  let d := doy - Z.quot (153 * mp + 2) 5 + 1 in
  let m := mp + (if mp <? 10 then 3 else -9) in
  let y := yoe + era * 400 + (if m <=? 2 then 1 else 0) in
  zero_padded 4 (Z.rem y 10000) +:+ "-" +:+ zero_padded 2 m +:+ "-" +:+ zero_padded 2 d +:+ "T"
  +:+ zero_padded 2 (Z.quot rem 3600) +:+ ":" +:+ zero_padded 2 (Z.quot (Z.rem rem 3600) 60) +:+ ":" +:+ zero_padded 2 (Z.rem rem 60) +:+ "Z".

(** * The export *)

Record RollbackEntry := mkEntry {
  re_uuid : string; re_employee_id : string; re_employee_name : string; re_company : string; re_cost_center : string;
  re_clock_in : string; re_clock_out : string; re_minutes : Z; re_note : string; re_archivum_state : string }.
Record RollbackBatch := mkBatch { rb_device_id : string; rb_submitted_at : string; rb_entries : list RollbackEntry }.
Record RollbackExport := mkRollbackExport { rx_batches : list RollbackBatch; rx_shifts : Z; rx_open_shifts_skipped : Z; rx_employees_without_routing : Z }.

Record Export := mkExport {
  x_employees : gmap Z Employee; x_devices : gmap Z Device; x_per_device : list (string * list RollbackEntry);
  x_shifts : Z; x_open_skipped : Z; x_without_routing : Z }.
Definition export0 : Export := mkExport ∅ ∅ [] 0 0 0.

(** [per_device[name].push_back(e)]: the map keeps the order of the names. *)
Fixpoint push_entry (name : string) (e : RollbackEntry) (l : list (string * list RollbackEntry)) : list (string * list RollbackEntry) :=
  match l with
  | [] => [(name, [e])]
  | (n, es) :: l' =>
      match String.compare name n with
      | Lt => (name, [e]) :: l
      | Eq => (n, es ++ [e]) :: l'
      | Gt => (n, es) :: push_entry name e l'
      end
  end.
(** A row by its identifier, read once. *)
Definition cached {T} (m : gmap Z T) (id : Z) (read : Prog (option T)) (missing : Result (T * gmap Z T)) : Prog (T * gmap Z T) :=
  match m !! id with
  | Some x => pret (x, m)
  | None =>
      let* x := read in
      match x with
      | None => PRet missing
      | Some x => pret (x, <[id := x]> m)
      end
  end.
Definition entry_of (sh : Shift) (emp : Employee) (in_ : TimeEntry) : RollbackEntry :=
  mkEntry (uuid_to_string (te_entry_uuid in_)) (emp_employee_number emp) (emp_display_name emp) (emp_company emp) (emp_cost_center emp)
    (iso_utc (sh_in_time sh)) (iso_utc (sh_out_time sh)) (Z.quot (sh_out_time sh - sh_in_time sh) 60000000) (te_note in_) (sh_state sh).
Definition unrouted (emp : Employee) : bool := String.eqb (emp_company emp) "" || String.eqb (emp_cost_center emp) "".

Definition export_shift (released_only : bool) (r : Row) (x : Export) : Prog Export :=
  let sh : Shift := from_row r in
  if sh_out_entry_id sh =? 0 then
    pret (mkExport (x_employees x) (x_devices x) (x_per_device x) (x_shifts x) (x_open_skipped x + 1) (x_without_routing x))
  else if released_only && negb (String.eqb (sh_state sh) "released") && negb (String.eqb (sh_state sh) "locked") then pret x
  else
    let* (emp, employees) := cached (x_employees x) (sh_employee_id sh) (employee_by_id (sh_employee_id sh))
      (corrupt ("shift " +:+ int_to_string (sh_id sh) +:+ " names a missing employee")) in
    let* (dev, devices) := cached (x_devices x) (sh_device_id sh) (device_by_id (sh_device_id sh))
      (corrupt ("shift " +:+ int_to_string (sh_id sh) +:+ " names a missing device")) in
    let* in_ := entry_by_id (sh_in_entry_id sh) in
    match in_ with
    | None => PRet (corrupt ("shift " +:+ int_to_string (sh_id sh) +:+ " names a missing in punch"))
    | Some in_ =>
        pret (mkExport employees devices (push_entry (uuid_to_string (dev_device_uuid dev)) (entry_of sh emp in_) (x_per_device x))
          (x_shifts x + 1) (x_open_skipped x) (if unrouted emp then x_without_routing x + 1 else x_without_routing x))
    end.
Fixpoint export_shifts (released_only : bool) (rows : list Row) (x : Export) : Prog Export :=
  match rows with
  | [] => pret x
  | r :: rows => let* x := export_shift released_only r x in export_shifts released_only rows x
  end.

(** The loop over the entries of one device, from entry [i], in 64-bit
    unsigned arithmetic; [None] when the fuel ends first. *)
Fixpoint batches_from (fuel : nat) (device submitted_at : string) (entries : list RollbackEntry) (size i : Z) : option (list RollbackBatch) :=
  if i <? Z.of_nat (length entries) then
    match fuel with
    | O => None
    | S fuel =>
        let k_end := Z.min (Z.of_nat (length entries)) (wrap64 (i + size)) in
        let batch := mkBatch device submitted_at (take (Z.to_nat (k_end - i)) (drop (Z.to_nat i) entries)) in
        cons batch <$> batches_from fuel device submitted_at entries size (wrap64 (i + size))
    end
  else Some [].
Fixpoint all_batches (fuel : nat) (submitted_at : string) (size : Z) (l : list (string * list RollbackEntry)) : option (list RollbackBatch) :=
  match l with
  | [] => Some []
  | (device, entries) :: l =>
      match batches_from fuel device submitted_at entries size 0 with
      | None => None
      | Some b => app b <$> all_batches fuel submitted_at size l
      end
  end.

(** The export; [None] when the loop over a device's entries has not ended
    within the fuel. *)
Definition rollback_export (fuel : nat) (period_id : Z) (released_only : bool) (now_us device_batch_size : Z) : Prog (option RollbackExport) :=
  let* period := period_by_id period_id in
  match period with
  | None => PRet (not_found "no such pay period")
  | Some _ =>
      let* rows := scan_eq "shifts" "shifts_period" [Integer period_id] in
      let* x := export_shifts released_only rows export0 in
      pret ((fun b => mkRollbackExport b (x_shifts x) (x_open_skipped x) (x_without_routing x))
        <$> all_batches fuel (iso_utc now_us) (wrap64 device_batch_size) (x_per_device x))
  end.

(** * The entries of a device *)


Definition names_ascend (l : list (string * list RollbackEntry)) : Prop := StronglySorted (fun a b => String.compare a b = Lt) (map fst l).
Definition for_device (name : string) (l : list (string * list RollbackEntry)) : list RollbackEntry :=
  concat (map (fun x => if String.eqb (fst x) name then snd x else []) l).

Lemma for_device_above name l : Forall (fun n => String.compare name n = Lt) (map fst l) -> for_device name l = [].
Proof.
  induction l as [|[n es] l IH]; cbn; intros Hl; [done|]. inversion Hl as [|? ? Hn Hl']; subst. unfold for_device. cbn [map concat fst snd].
  destruct (String.eqb_spec n name) as [->|]; [by rewrite string_compare_refl in Hn|]. by apply IH.
Qed.
Lemma push_entry_names name e l n : n ∈ map fst (push_entry name e l) -> n = name \/ n ∈ map fst l.
Proof.
  induction l as [|[m es] l IH]; cbn [push_entry map fst]; [intros Hn; left; by apply list_elem_of_singleton in Hn|].
  destruct (String.compare name m) eqn:E; cbn [map fst].
  - by right.
  - intros [->|Hn]%elem_of_cons; [by left|by right].
  - intros [->|Hn]%elem_of_cons; [right; by left|]. apply IH in Hn as [->|Hn]; [by left|right; by right].
Qed.
Lemma push_entry_ascend name e l : names_ascend l -> names_ascend (push_entry name e l).
Proof.
  unfold names_ascend. induction l as [|[m es] l IH]; cbn [push_entry map fst]; intros Hs; [by repeat constructor|].
  apply StronglySorted_inv in Hs as [Hs Hm]. destruct (String.compare name m) eqn:E; cbn [map fst]; constructor; try done.
  - constructor; done.
  - constructor; [done|]. eapply Forall_impl; [exact Hm|]. intros n Hn. by eapply string_compare_trans.
  - by apply IH.
  - apply Forall_forall. intros n Hn. apply push_entry_names in Hn as [->|Hn]; [by apply string_compare_gt|]. rewrite Forall_forall in Hm. by apply Hm.
Qed.
Lemma push_entry_device name e l n : names_ascend l ->
  for_device n (push_entry name e l) = for_device n l ++ (if String.eqb name n then [e] else []).
Proof.
  unfold names_ascend. induction l as [|[m es] l IH]; cbn [push_entry map fst]; intros Hs.
  - unfold for_device. cbn. by destruct (String.eqb name n).
  - apply StronglySorted_inv in Hs as [Hs Hm]. destruct (String.compare name m) eqn:E.
    + apply String.compare_eq_iff in E as ->. unfold for_device. cbn [map concat fst snd]. fold (for_device n l).
      destruct (String.eqb_spec m n) as [->|]; [|by rewrite app_nil_r]. rewrite (for_device_above n l Hm), !app_nil_r. done.
    + destruct (String.eqb_spec name n) as [->|Hne].
      * pose proof (for_device_above n ((m, es) :: l)) as Ha. unfold for_device in *. cbn [map concat fst snd] in *. rewrite String.eqb_refl. rewrite Ha; [done|].
        cbn [map fst]. constructor; [done|]. eapply Forall_impl; [exact Hm|]. intros k Hk. by eapply string_compare_trans.
      * unfold for_device at 1. cbn [map concat fst snd]. apply String.eqb_neq in Hne. rewrite Hne. by rewrite app_nil_r.
    + unfold for_device. cbn [map concat fst snd]. fold (for_device n (push_entry name e l)) (for_device n l). rewrite IH by done. by rewrite app_assoc.
Qed.

(** * Batches *)

Definition batch_fits (size : Z) (b : RollbackBatch) : Prop := (0 < length (rb_entries b))%nat /\ Z.of_nat (length (rb_entries b)) <= size.
Lemma batches_from_ok size device at_ entries : 0 < size < 2 ^ 31 -> Z.of_nat (length entries) < 2 ^ 62 ->
  forall fuel i, 0 <= i -> i < 2 ^ 63 -> Z.of_nat (length entries) - i <= Z.of_nat fuel ->
  exists bs, batches_from fuel device at_ entries size i = Some bs /\ Forall (batch_fits size) bs /\ Forall (fun b => rb_device_id b = device) bs
    /\ concat (map rb_entries bs) = drop (Z.to_nat i) entries.
Proof.
  intros Hsize Hlen. induction fuel as [|fuel IH]; intros i Hi Hi2 Hf; cbn [batches_from].
  - destruct (Z.ltb_spec i (Z.of_nat (length entries))); [lia|]. exists []. split_and!; try done. rewrite drop_ge by lia. done.
  - destruct (Z.ltb_spec i (Z.of_nat (length entries))) as [Hlt|].
    2: { exists []. split_and!; try done. rewrite drop_ge by lia. done. }
    assert (Hw : wrap64 (i + size) = i + size) by (unfold wrap64; apply Z.mod_small; lia). rewrite Hw.
    destruct (IH (i + size)) as (bs & -> & Hfit & Hdev & Hcat); [lia..|]. eexists. split; [reflexivity|]. set (n := Z.to_nat (Z.min _ _ - i)).
    assert (Hn : length (take n (drop (Z.to_nat i) entries)) = n) by (rewrite length_take, length_drop; lia). split_and!.
    + constructor; [|done]. split; cbn [rb_entries]; rewrite Hn; lia.
    + by constructor.
    + cbn [map concat rb_entries]. rewrite Hcat. rewrite <- (take_drop n (drop (Z.to_nat i) entries)) at 2. f_equal. rewrite drop_drop.
      destruct (Z.le_gt_cases (i + size) (Z.of_nat (length entries))); [f_equal; lia|]. rewrite !drop_ge by lia. done.
Qed.
Definition of_device (name : string) (b : list RollbackBatch) : list RollbackEntry :=
  concat (map (fun b => if String.eqb (rb_device_id b) name then rb_entries b else []) b).
Lemma of_device_one name device bs : Forall (fun b => rb_device_id b = device) bs ->
  of_device name bs = if String.eqb device name then concat (map rb_entries bs) else [].
Proof.
  induction 1 as [|b bs <- _ IH]; [by destruct (String.eqb _ _)|]. unfold of_device in *. cbn [map concat]. rewrite IH. by destruct (String.eqb _ _).
Qed.
Lemma all_batches_ok size at_ fuel l : 0 < size < 2 ^ 31 -> Z.of_nat fuel < 2 ^ 62 -> Forall (fun x => (length (snd x) <= fuel)%nat) l ->
  exists bs, all_batches fuel at_ size l = Some bs /\ Forall (batch_fits size) bs /\ (forall name, of_device name bs = for_device name l).
Proof.
  intros Hsize Hfuel. induction 1 as [|[device es] l Hes _ IH]; cbn [all_batches]; [by exists []|]. cbn [snd] in Hes.
  destruct (batches_from_ok size device at_ es Hsize ltac:(lia) fuel 0) as (b & -> & Hfit & Hdev & Hcat); [lia..|]. destruct IH as (bs & -> & Hfits & Hall).
  eexists. split; [reflexivity|]. split; [by apply Forall_app|]. intros name. unfold of_device. rewrite map_app, concat_app.
  fold (of_device name b) (of_device name bs). rewrite Hall, (of_device_one name device b Hdev), Hcat. done.
Qed.

(** * The loop over the shifts *)

(** A row by its identifier. *)
Definition at_id {T} `{RowCodec T} (name : string) (d : Data) (id : Z) : option T := from_row <$> rows_of d name !! encode_key [Integer id].
Definition wanted (released_only : bool) (sh : Shift) : bool :=
  negb (sh_out_entry_id sh =? 0) && negb (released_only && negb (String.eqb (sh_state sh) "released") && negb (String.eqb (sh_state sh) "locked")).
(** The parts a shift names are on file. *)
Definition parts (d : Data) (sh : Shift) : option (Employee * Device * TimeEntry) :=
  match at_id "employees" d (sh_employee_id sh), at_id "devices" d (sh_device_id sh), at_id "time_entries" d (sh_in_entry_id sh) with
  | Some emp, Some dev, Some in_ => Some (emp, dev, in_)
  | _, _, _ => None
  end.
(** The entry of a shift, if it was made on the device of that name. *)
Definition entry_on (d : Data) (name : string) (sh : Shift) : list RollbackEntry :=
  match parts d sh with
  | Some (emp, dev, in_) => if String.eqb (uuid_to_string (dev_device_uuid dev)) name then [entry_of sh emp in_] else []
  | None => []
  end.
Definition lacks_routing (d : Data) (sh : Shift) : bool :=
  match parts d sh with Some (emp, _, _) => unrouted emp | None => false end.

Section export.
Context (max_key : nat) (d : Data).
Notation run := (run max_key installed_catalog).

Lemma run_by_pk {T} `{RowCodec T} name id : spec_get installed_catalog d name [Integer id] = Ret (rows_of d name !! encode_key [Integer id]) ->
  run (by_pk name id : Prog (option T)) d = (Ret (at_id name d id), d).
Proof. intros Hg. unfold by_pk. rewrite run_bind. unfold pget. cbn [Program.run]. rewrite Hg. reflexivity. Qed.
Definition keyed_by_id (name : string) : Prop := StoreSchema.table installed_catalog name = Some (tbl name) /\ length (td_primary_key (tbl name)) = 1%nat
  /\ forall id, primary_key_ok (tbl name) [Integer id] (td_primary_key (tbl name)) = Ret tt.
Lemma get_by_id name id : keyed_by_id name -> spec_get installed_catalog d name [Integer id] = Ret (rows_of d name !! encode_key [Integer id]).
Proof. intros (Ht & Hl & Hp). unfold spec_get. rewrite Ht, Hl, Hp. reflexivity. Qed.
Lemma employees_keyed : keyed_by_id "employees".
Proof. split_and!; [by_eval|by_eval|intros id; by_eval]. Qed.
Lemma devices_keyed : keyed_by_id "devices".
Proof. split_and!; [by_eval|by_eval|intros id; by_eval]. Qed.
Lemma entries_keyed : keyed_by_id "time_entries".
Proof. split_and!; [by_eval|by_eval|intros id; by_eval]. Qed.
Lemma periods_keyed : keyed_by_id "pay_periods".
Proof. split_and!; [by_eval|by_eval|intros id; by_eval]. Qed.

(** A cache that holds what is on file. *)
Definition cache_ok {T} `{RowCodec T} (name : string) (m : gmap Z T) : Prop := forall id x, m !! id = Some x -> at_id name d id = Some x.
Lemma run_cached {T} `{RowCodec T} name (m : gmap Z T) id missing a d1 : keyed_by_id name -> cache_ok name m -> (forall x, missing <> Ret x) ->
  run (cached m id (by_pk name id) missing) d = (Ret a, d1) -> d1 = d /\ at_id name d id = Some (fst a) /\ cache_ok name (snd a).
Proof.
  intros Hk Hm Hmiss. unfold cached. destruct (m !! id) as [x|] eqn:E.
  - intros Heq. injection Heq as <- <-. split; [done|]. split; [by apply Hm|exact Hm].
  - intros (o & d2 & Ho & Hrun)%run_bind_inv. pose proof (run_by_pk (T := T) name id (get_by_id name id Hk)) as Hg. rewrite Hg in Ho. clear Hg.
    apply pair_equal_spec in Ho as [Ho <-]. injection Ho as <-. destruct (at_id name d id) as [x|] eqn:Ex; [|injection Hrun as Hrun _; by destruct (Hmiss a)].
    injection Hrun as <- <-. split; [reflexivity|]. split; [reflexivity|]. cbn [snd]. intros i y [[<- <-]|[_ Hy]]%lookup_insert_Some; [exact Ex|by apply Hm].
Qed.

Definition count (p : Shift -> bool) (l : list Shift) : Z := Z.of_nat (length (List.filter p l)).
Lemma count_snoc p l sh : count p (l ++ [sh]) = count p l + (if p sh then 1 else 0).
Proof. unfold count. rewrite List.filter_app, length_app. cbn [List.filter]. destruct (p sh); cbn [length]; lia. Qed.

(** What the state of the loop says of the shifts it has seen. *)
Record exported (released_only : bool) (seen : list Shift) (x : Export) : Prop := {
  ex_emps : cache_ok "employees" (x_employees x);
  ex_devs : cache_ok "devices" (x_devices x);
  ex_names : names_ascend (x_per_device x);
  ex_counts : x_shifts x = count (wanted released_only) seen /\ x_open_skipped x = count (fun sh => sh_out_entry_id sh =? 0) seen
    /\ x_without_routing x = count (fun sh => wanted released_only sh && lacks_routing d sh) seen;
  ex_parts : Forall (fun sh => is_Some (parts d sh)) (List.filter (wanted released_only) seen);
  ex_entries name : for_device name (x_per_device x) = concat (map (entry_on d name) (List.filter (wanted released_only) seen));
  ex_longest : Forall (fun a => (length (snd a) <= length seen)%nat) (x_per_device x)
}.
Lemma longest_weaken n l : Forall (fun a : string * list RollbackEntry => (length (snd a) <= n)%nat) l -> Forall (fun a => (length (snd a) <= S n)%nat) l.
Proof. intros H. eapply Forall_impl; [exact H|]. intros a Ha. cbn in *. lia. Qed.
Lemma push_longest name e n l : Forall (fun a : string * list RollbackEntry => (length (snd a) <= n)%nat) l ->
  Forall (fun a => (length (snd a) <= S n)%nat) (push_entry name e l).
Proof.
  induction 1 as [|[m es] l Hm Hl IH]; cbn [push_entry]; [constructor; [cbn; lia|constructor]|]. cbn [snd] in Hm. destruct (String.compare name m).
  - constructor; [cbn; rewrite length_app; cbn; lia|by apply longest_weaken].
  - constructor; [cbn; lia|]. apply longest_weaken. by constructor.
  - constructor; [cbn; lia|exact IH].
Qed.
Lemma filter_snoc {A} (p : A -> bool) l x : List.filter p (l ++ [x]) = List.filter p l ++ (if p x then [x] else []).
Proof. rewrite List.filter_app. cbn [List.filter]. by destruct (p x). Qed.

Lemma export_shift_step ro seen r x x' d1 : exported ro seen x -> run (export_shift ro r x) d = (Ret x', d1) ->
  d1 = d /\ exported ro (seen ++ [from_row r]) x'.
Proof.
  intros [He Hd Hn (Hc1 & Hc2 & Hc3) Hp Hent Hlong]. unfold export_shift. cbv zeta. generalize (from_row r : Shift) as sh. intros sh.
  assert (Hl : length (seen ++ [sh]) = S (length seen)) by (rewrite length_app; cbn; lia).
  destruct (sh_out_entry_id sh =? 0) eqn:Eo.
  { intros Heq. injection Heq as <- <-. assert (Hw : wanted ro sh = false) by (unfold wanted; by rewrite Eo). split; [done|].
    constructor; cbn [x_employees x_devices x_per_device x_shifts x_open_skipped x_without_routing]; rewrite ?count_snoc, ?filter_snoc, ?Hw, ?Eo, ?Hl, ?app_nil_r;
      auto using longest_weaken. split_and!; cbn [andb]; lia. }
  destruct (ro && _ && _) eqn:Er.
  { intros Heq. injection Heq as <- <-. assert (Hw : wanted ro sh = false) by (unfold wanted; by rewrite Er, andb_false_r). split; [done|].
    constructor; cbn [x_employees x_devices x_per_device x_shifts x_open_skipped x_without_routing]; rewrite ?count_snoc, ?filter_snoc, ?Hw, ?Eo, ?Hl, ?app_nil_r;
      auto using longest_weaken. split_and!; cbn [andb]; lia. }
  assert (Hw : wanted ro sh = true) by (unfold wanted; by rewrite Er, Eo).
  intros ([emp emps] & d2 & Hemp & Hrun)%run_bind_inv. apply run_cached in Hemp as (-> & Hemp & He'); [|exact employees_keyed|exact He|discriminate].
  apply run_bind_inv in Hrun as ([dev devs] & d2 & Hdev & Hrun). apply run_cached in Hdev as (-> & Hdev & Hd'); [|exact devices_keyed|exact Hd|discriminate].
  cbn [fst snd] in *. apply run_bind_inv in Hrun as (in_ & d2 & Hin & Hrun). unfold entry_by_id in Hin. rewrite (run_by_pk "time_entries" _ (get_by_id "time_entries" _ entries_keyed)) in Hin.
  apply pair_equal_spec in Hin as [Ein <-]. injection Ein as Ein. destruct in_ as [in_|]; [|discriminate Hrun]. injection Hrun as <- <-. split; [reflexivity|].
  assert (Hparts : parts d sh = Some (emp, dev, in_)) by (unfold parts; by rewrite Hemp, Hdev, Ein).
  assert (Hlack : lacks_routing d sh = unrouted emp) by (unfold lacks_routing; by rewrite Hparts).
  constructor; cbn [x_employees x_devices x_per_device x_shifts x_open_skipped x_without_routing]; rewrite ?count_snoc, ?filter_snoc, ?Hw, ?Eo, ?Hl, ?Hlack; try done.
  - by apply push_entry_ascend.
  - split_and!; [lia..|]. cbn [andb]. destruct (unrouted emp); lia.
  - apply Forall_app. split; [done|]. constructor; [by rewrite Hparts|constructor].
  - intros name. rewrite push_entry_device by done. rewrite Hent, map_app, concat_app. f_equal. cbn [map concat]. unfold entry_on. rewrite Hparts, app_nil_r. done.
  - by apply push_longest.
Qed.
End export.

Lemma export_shifts_done max_key d ro rows : forall seen x x' d1, exported d ro seen x -> run max_key installed_catalog (export_shifts ro rows x) d = (Ret x', d1) ->
  d1 = d /\ exported d ro (seen ++ map from_row rows) x'.
Proof.
  induction rows as [|r rows IH]; cbn [export_shifts map]; intros seen x x' d1 Hx Hrun.
  - injection Hrun as <- <-. by rewrite app_nil_r.
  - apply run_bind_inv in Hrun as (x1 & d2 & H1 & Hrun). apply (export_shift_step max_key d ro seen r x x1 d2 Hx) in H1 as [-> Hx1].
    destruct (IH _ _ _ _ Hx1 Hrun) as [-> Hx']. split; [done|]. by rewrite <- app_assoc in Hx'.
Qed.
Lemma period_shifts_scan p : scan_ready installed_catalog "shifts" "shifts_period" (tbl "shifts") (idx_of "shifts" "shifts_period") [Integer p].
Proof. split_and!; by_eval. Qed.

(** [C25] The rollback export is complete.  It reads and changes nothing, its
    loops end within as many rounds as the period has shifts, and the export
    holds for every device exactly the entries of the period's finished
    shifts that were made on it, in the order of the shifts, in batches that
    are never empty and never longer than asked.  It counts the shifts it
    wrote and the open ones it left out; and it counts a missing company or
    cost centre once for every shift, not once for every employee. *)
Theorem rollback_export_complete max_key fuel p ro now_us size d o d' : 0 < size < 2 ^ 31 ->
  let shifts : list Shift := map from_row (found d "shifts" "shifts_period" [Integer p]) in
  (length shifts <= fuel)%nat -> Z.of_nat fuel < 2 ^ 62 ->
  run max_key installed_catalog (rollback_export fuel p ro now_us size) d = (Ret o, d') ->
  d' = d /\ exists x, o = Some x
  /\ rx_shifts x = count (wanted ro) shifts /\ rx_open_shifts_skipped x = count (fun sh => sh_out_entry_id sh =? 0) shifts
  /\ rx_employees_without_routing x = count (fun sh => wanted ro sh && lacks_routing d sh) shifts
  /\ Forall (fun sh => is_Some (parts d sh)) (List.filter (wanted ro) shifts)
  /\ (forall name, of_device name (rx_batches x) = concat (map (entry_on d name) (List.filter (wanted ro) shifts)))
  /\ Forall (batch_fits size) (rx_batches x).
Proof.
  intros Hsize shifts Hfuel Hsmall Hrun. unfold rollback_export in Hrun. apply run_bind_inv in Hrun as (period & d1 & Hper & Hrun).
  unfold period_by_id in Hper. rewrite (run_by_pk max_key d "pay_periods" p (get_by_id d "pay_periods" p periods_keyed)) in Hper. apply pair_equal_spec in Hper as [_ <-].
  destruct period as [period|]; [|discriminate Hrun]. apply run_bind_inv in Hrun as (rows & d1 & Hrows & Hrun).
  rewrite (run_scan_eq _ _ _ _ _ _ _ _ (period_shifts_scan p)) in Hrows. apply pair_equal_spec in Hrows as [Hrows <-]. injection Hrows as <-.
  fold (found d "shifts" "shifts_period" [Integer p]) in Hrun. apply run_bind_inv in Hrun as (x & d1 & Hx & Hrun).
  assert (H0 : exported d ro [] export0).
  { constructor; cbn; try done; try (by intros ? ? ?%lookup_empty_Some). constructor. }
  destruct (export_shifts_done max_key d ro _ _ _ _ _ H0 Hx) as [-> [_ _ _ (Hc1 & Hc2 & Hc3) Hp Hent Hlong]]. cbn [app] in *. fold shifts in Hc1, Hc2, Hc3, Hp, Hent, Hlong.
  injection Hrun as <- <-. split; [reflexivity|]. assert (Hw : wrap64 size = size) by (apply Z.mod_small; lia). rewrite Hw.
  destruct (all_batches_ok size (iso_utc now_us) fuel (x_per_device x) Hsize Hsmall) as (bs & -> & Hfit & Hdev).
  { eapply Forall_impl; [exact Hlong|]. intros a Ha. cbn in Ha |- *. lia. }
  eexists. split; [reflexivity|]. cbn [rx_batches rx_shifts rx_open_shifts_skipped rx_employees_without_routing]. split_and!; try done.
  intros name. by rewrite Hdev.
Qed.

(** Two finished shifts of one employee who has no company on file, and one
    still open; batches of one entry. *)
Definition punch (id : Z) (byte : Z) (kind : string) : TimeEntry :=
  mkTimeEntry id (replicate 16 byte) 1 1 None id kind (id * 3600000000) "08:00" "America/New_York" "2024a" 1000 "device" None 1 "recorded" "" 0 0 "" 1000 "" 0.
Definition worked (id in_ out : Z) : Shift := mkShift id 1 1 in_ out 100 1 (in_ * 3600000000) (out * 3600000000) None "" "recorded".
Definition with_shifts : Data :=
  <["shifts" := list_to_map (map (fun s => (encode_key [Integer (sh_id s)], to_row s)) [worked 1 1 2; worked 2 3 4; worked 3 5 0])]>
  (<["time_entries" := list_to_map (map (fun e => (encode_key [Integer (te_id e)], to_row e)) [punch 1 7 "in"; punch 2 8 "out"; punch 3 9 "in"; punch 4 10 "out"; punch 5 11 "in"])]> sample).
Notation export_it := (run 300 installed_catalog (rollback_export 3 1 false 0 1) with_shifts).
Definition written : option RollbackExport := Eval vm_compute in (fun r : Result (option RollbackExport) => match r with Ret o => o | Err _ => None end) (fst export_it).
Lemma export_runs : export_it = (Ret written, with_shifts).
Proof. rewrite (surjective_pairing export_it). f_equal; by_eval. Qed.
Lemma shifts_found : map from_row (found with_shifts "shifts" "shifts_period" [Integer 1]) = [worked 1 1 2; worked 2 3 4; worked 3 5 0].
Proof. by_eval. Qed.
Lemma rollback_export_complete_witness :
  exists x, written = Some x /\ rx_shifts x = 2 /\ rx_open_shifts_skipped x = 1 /\ rx_employees_without_routing x = 2 /\ Forall (batch_fits 1) (rx_batches x).
Proof.
  destruct (rollback_export_complete 300 3 1 false 0 1 with_shifts written with_shifts) as (_ & x & Hx & H1 & H2 & H3 & _ & _ & Hfit).
  - lia.
  - rewrite shifts_found. cbn. lia.
  - lia.
  - exact export_runs.
  - rewrite shifts_found in H1, H2, H3. exists x. split; [exact Hx|]. split; [exact H1|]. split; [exact H2|]. split; [|exact Hfit].
    rewrite H3. vm_compute. reflexivity.
Defined.

(** The time it prints is that of the calendar that the rest of the module
    uses. *)
Theorem iso_utc_day us : 0 <= us ->
  iso_utc us = let '(y, m, d) := civil_from_days (us / 1000000 / 86400) in
    zero_padded 4 (Z.rem y 10000) +:+ "-" +:+ zero_padded 2 m +:+ "-" +:+ zero_padded 2 d +:+ "T"
    +:+ zero_padded 2 (us / 1000000 mod 86400 / 3600) +:+ ":" +:+ zero_padded 2 (us / 1000000 mod 86400 mod 3600 / 60) +:+ ":"
    +:+ zero_padded 2 (us / 1000000 mod 86400 mod 60) +:+ "Z".
Proof.
  intros Hus. assert (Hs : 0 <= us / 1000000) by (apply Z.div_pos; lia). assert (Hr : 0 <= us / 1000000 mod 86400) by (apply Z.mod_pos_bound; lia).
  assert (Hm : 0 <= us / 1000000 mod 86400 mod 3600) by (apply Z.mod_pos_bound; lia).
  unfold iso_utc, civil_from_days. rewrite (Z.quot_div_nonneg us 1000000) by lia. rewrite (Z.quot_div_nonneg (us / 1000000) 86400), (Z.rem_mod_nonneg (us / 1000000) 86400) by lia.
  destruct (Z.ltb_spec (us / 1000000 mod 86400) 0); [lia|]. rewrite (Z.quot_div_nonneg (us / 1000000 mod 86400) 3600), (Z.rem_mod_nonneg (us / 1000000 mod 86400) 3600) by lia.
  rewrite (Z.quot_div_nonneg _ 60), (Z.rem_mod_nonneg _ 60) by lia. cbv zeta. unfold Z.b2z. reflexivity.
Qed.
