(* ===== verification/PunchMoves.v ===== *)
(** The lifecycle moves what it should.

    [transition_moves] says what a transition that succeeds did to the
    entries and shifts of the employee's period, and what had to hold for
    it. *)

From stdpp Require Import base numbers list gmap strings sorting.
From S2P Require Import Prelude Bytes PageFormat Types Record StoreSchema BTreeNode BTree Store Grove StoreRep StoreSpec StoreReads StoreRefine.
From S2P Require Import CoreSchema Program Recorder PunchSchema PunchInstall PunchData PunchRules PunchPayroll PunchLifecycle PunchSync PunchFrames PunchRows PunchScan PunchTables PunchExample.
From stdpp Require Import list.
Open Scope Z_scope.
Open Scope prog_scope.

(** * Tables of one employee's period *)

(** A table with the period and the employee in the columns [pi] and [ei], and
    an index on them. *)
Record sheet_table (cat : Catalog) (name iname : string) (t : TableDef) (idx : IndexDef) (pname ename : string) (pi ei : nat) : Prop := {
  st_scan p e : scan_ready cat name iname t idx [Integer p; Integer e];
  st_resolves : index_resolves t idx;
  st_prefix : is_prefix [pname; ename] (ix_columns idx) = true;
  st_project r : project t r [pname; ename] = [at_ r pi; at_ r ei];
  st_types : types_of t [pname; ename] = [TInteger; TInteger];
  st_key r : pk_key_of t r = encode_key [at_ r 0];
  st_id r : field t r "id" = at_ r 0;
  st_id_column : has_column t "id" /\ col_type (column t "id") = TInteger /\ nullable (column t "id") = false
}.

Definition in_sheet (pi ei : nat) (p e : Z) (r : Row) : bool := bool_decide (at_ r pi = Integer p) && bool_decide (at_ r ei = Integer e).

Section sheet.
Context (max_key : nat) (cat : Catalog) (name iname : string) (t : TableDef) (idx : IndexDef) (pname ename : string) (pi ei : nat).
Context (Hst : sheet_table cat name iname t idx pname ename pi ei) (p e : Z) (Hp : i64_ok p) (He : i64_ok e).
Context (d : Data) (Hok : rows_ok t (rows_of d name)).

Definition sheet_rows : list Row := visited t (Some idx) (eq_bound [Integer p; Integer e]) (eq_bound [Integer p; Integer e]) (rows_of d name).
Lemma sheet_typed : typed [Integer p; Integer e] (types_of t [pname; ename]).
Proof. rewrite (st_types _ _ _ _ _ _ _ _ _ Hst). constructor; [by split|]. constructor; [by split|]. constructor. Qed.
Lemma sheet_iff r : project t r [pname; ename] = [Integer p; Integer e] <-> in_sheet pi ei p e r = true.
Proof.
  rewrite (st_project _ _ _ _ _ _ _ _ _ Hst). unfold in_sheet. rewrite andb_true_iff, !bool_decide_eq_true. split; [by intros [= -> ->]|by intros [-> ->]].
Qed.
Lemma sheet_elem r : r ∈ sheet_rows <-> exists k, rows_of d name !! k = Some r /\ in_sheet pi ei p e r = true.
Proof.
  unfold sheet_rows. rewrite (visited_iff t _ Hok idx [pname; ename]); [|apply Hst|apply Hst|apply sheet_typed]. by setoid_rewrite sheet_iff.
Qed.
Lemma run_sheet : run max_key cat (scan_eq name iname [Integer p; Integer e]) d = (Ret sheet_rows, d).
Proof. apply run_scan_eq, Hst. Qed.
Lemma sheet_id k r : rows_of d name !! k = Some r -> exists i, at_ r 0 = Integer i /\ k = encode_key [Integer i].
Proof.
  intros Hk. destruct (Hok k r Hk) as [Ek Hg]. destruct (st_id_column _ _ _ _ _ _ _ _ _ Hst) as (Hc & Hty & Hn).
  destruct (integer_field t r "id" Hg Hc Hty Hn) as (i & Ei & _). rewrite (st_id _ _ _ _ _ _ _ _ _ Hst) in Ei. exists i. split; [done|].
  by rewrite Ek, (st_key _ _ _ _ _ _ _ _ _ Hst), Ei.
Qed.

(** Moving the selected structs of the sheet. *)
Lemma sheet_moves dump rec {T} `{RowCodec T} (sel : T -> bool) (g : T -> T) (xs : list T) d' :
  (forall r, at_ (to_row (g (from_row r))) 0 = Integer (as_int64 (at_ r 0))) ->
  (forall k r, rows_of d name !! k = Some r -> sel (from_row r) = true -> rows_equal r (to_row (g (from_row r))) = false) ->
  name <> kChangeFeed -> xs ≡ₚ map from_row sheet_rows ->
  run max_key cat (pfor (List.filter sel xs) (fun x => rec_update dump rec name (to_row (g x)))) d = (Ret tt, d') ->
  forall k, rows_of d' name !! k = (fun r => if in_sheet pi ei p e r && sel (from_row r) then to_row (g (from_row r)) else r) <$> rows_of d name !! k.
Proof.
  intros Hid Hdiff Hne Hxs Hrun k. destruct (st_scan _ _ _ _ _ _ _ _ _ Hst p e) as (Ht & _).
  rewrite (moves_effect max_key cat dump rec name t idx [pname; ename] [Integer p; Integer e] sel g d Ht) with (xs := xs);
    [|apply Hst|apply Hst|exact Hok|apply sheet_typed| |exact Hdiff|exact Hne|exact Hxs|exact Hrun].
  - destruct (rows_of d name !! k) as [r|]; [|done]. cbn. f_equal. unfold moved. rewrite (bool_decide_ext _ _ (sheet_iff r)).
    by destruct (in_sheet pi ei p e r).
  - clear k. intros k r Hk. destruct (sheet_id k r Hk) as (i & Ei & ->). by rewrite (st_key _ _ _ _ _ _ _ _ _ Hst), Hid, Ei.
Qed.
End sheet.

(** * States *)

Lemma movable_ok from l : forall n m, movable from l n = Ret m -> Forall (fun e => te_superseded_by e = 0 -> rank from <= rank (te_state e)) l.
Proof.
  induction l as [|e l IH]; intros n m; cbn [movable]; [constructor|]. destruct (Z.eqb_spec (te_superseded_by e) 0) as [E|E]; cbn [negb].
  - destruct (Z.ltb_spec (rank (te_state e)) (rank from)); [done|]. intros Hl. constructor; [lia|by eapply IH].
  - intros Hl. constructor; [done|by eapply IH].
Qed.
Lemma rank_known s : 0 <= rank s -> s = "recorded" \/ s = "submitted" \/ s = "approved" \/ s = "released" \/ s = "locked".
Proof.
  unfold rank. repeat (match goal with |- context [String.eqb s ?x] => destruct (String.eqb_spec s x); [by auto 6|] end). lia.
Qed.
(** A state between the predecessor and the next is the predecessor. *)
Lemma rank_step to s : predecessor to <> "" -> rank (predecessor to) <= rank s -> s <> predecessor to -> rank to <= rank s.
Proof.
  unfold predecessor. intros Hto Hle Hne.
  assert (0 <= rank s) as Hs%rank_known.
  { revert Hle. repeat (match goal with |- context [String.eqb to ?x] => destruct (String.eqb_spec to x) end); cbn; try lia. done. }
  destruct (String.eqb_spec to "submitted") as [->|]; [|destruct (String.eqb_spec to "approved") as [->|]; [|destruct (String.eqb_spec to "released") as [->|];
    [|destruct (String.eqb_spec to "locked") as [->|]; [|done]]]];
  destruct Hs as [->|[->|[->|[->| ->]]]]; vm_compute in Hle |- *; try done; by destruct Hne.
Qed.
Lemma predecessor_ne to : predecessor to <> "" -> predecessor to <> to.
Proof.
  unfold predecessor. repeat (match goal with |- context [String.eqb to ?x] => destruct (String.eqb_spec to x) as [->|]; [done|] end). done.
Qed.

(** A row with the given text in column [i] differs from one with another. *)
Lemma text_differs r r' i s s' : as_text (at_ r i) = s -> s <> "" -> at_ r' i = text s' -> s' <> s -> rows_equal r r' = false.
Proof.
  intros Hs Hne Hs' Hd. destruct (rows_equal r r') eqn:E; [|done]. exfalso.
  destruct (at_ r i) as [| | |b| | | |] eqn:Er; cbn in Hs; try congruence.
  assert (Hl : forall (l : Row) v, at_ l i = v -> v <> Null -> l !! i = Some v).
  { intros l v Hv Hnn. unfold at_ in Hv. rewrite nth_lookup in Hv. destruct (l !! i); cbn in Hv; congruence. }
  assert (E1 : r !! i = Some (Text b)) by (by apply Hl). assert (E2 : r' !! i = Some (text s')) by (by apply Hl).
  pose proof (rows_equal_at r r' i b _ E E1 E2) as ->. apply Hd. rewrite <- Hs. symmetry. apply string_bytes.
Qed.

(** * The tables the steps touch *)

Section touches.
Context (dump : Json -> string) (rec : Recorder) (names : list string) (Hfeed : kChangeFeed ∈ names).

Lemma write_approval_writes p e from to tid oid account note now_us : "approvals" ∈ names ->
  writes_only names (write_approval dump rec p e from to tid oid account note now_us).
Proof. intros Hx. apply writes_bind; [apply next_id_writes|]. intros id. apply writes_bind; [by apply rec_insert_writes|done]. Qed.
Lemma on_approval_writes e p now_us : "exceptions" ∈ names -> writes_only names (resolve_on_approval dump rec e p now_us).
Proof.
  intros Hx. apply writes_bind; [by apply resolve_writes|]. intros n1. apply writes_bind; [by apply resolve_writes|]. intros n2. apply writes_bind; [apply open_where_writes|]. intros l.
  apply writes_bind; [|done]. apply writes_for. intros x. by apply close_writes.
Qed.
Lemma move_entry_writes to e : "time_entries" ∈ names -> writes_only names (move_entry dump rec to e).
Proof. intros Hx. by apply rec_update_writes. Qed.
Lemma move_shift_writes to s : "shifts" ∈ names -> writes_only names (move_shift dump rec to s).
Proof. intros Hx. by apply rec_update_writes. Qed.
End touches.

Lemma checks_reads req from : writes_only [] (transition_checks req from).
Proof.
  unfold transition_checks. apply writes_bind; [apply by_pk_writes|]. intros [p|]; [|done]. destruct (negb _); [done|]. apply writes_bind; [apply allowed_reads|]. intros _.
  destruct (String.eqb _ _); [|done]. apply writes_bind; [|by intros [h|]]. apply writes_bind; [apply all_writes|done].
Qed.

(** * Transitions *)

Definition moves_to (req : TransitionRequest) (audit : Z) (e : TimeEntry) : TimeEntry :=
  entry_in_state e (rq_to_state req) (if String.eqb (rq_to_state req) "approved" then audit else te_approval_audit_id e).
Definition live_in (from : string) (e : TimeEntry) : bool := (te_superseded_by e =? 0) && String.eqb (te_state e) from.
(** What a transition makes of a row of [time_entries] and of [shifts]. *)
Definition entry_after (req : TransitionRequest) (audit : Z) (r : Row) : Row :=
  if in_sheet 14 2 (rq_period_id req) (rq_employee_id req) r && live_in (predecessor (rq_to_state req)) (from_row r)
  then to_row (moves_to req audit (from_row r)) else r.
Definition shift_after (req : TransitionRequest) (r : Row) : Row :=
  if in_sheet 6 1 (rq_period_id req) (rq_employee_id req) r && String.eqb (sh_state (from_row r)) (predecessor (rq_to_state req))
  then to_row (shift_in_state (from_row r) (rq_to_state req)) else r.

Section transition.
Context (max_key : nat) (cat : Catalog) (dump : Json -> string) (rec : Recorder) (req : TransitionRequest) (d d' : Data) (res : TransitionResult).
Context (te sh th : TableDef) (tei shi thi : IndexDef).
Context (Hte : sheet_table cat "time_entries" "time_entries_period" te tei "period_id" "employee_id" 14 2).
Context (Hsh : sheet_table cat "shifts" "shifts_period" sh shi "period_id" "employee_id" 6 1).
Context (Hth : sheet_table cat "timesheet_holds" "timesheet_holds_timesheet" th thi "employee_id" "period_id" 1 2).
Context (Hokte : rows_ok te (rows_of d "time_entries")) (Hoksh : rows_ok sh (rows_of d "shifts")) (Hokth : rows_ok th (rows_of d "timesheet_holds")).
Context (Hp : i64_ok (rq_period_id req)) (He : i64_ok (rq_employee_id req)).

Notation from := (predecessor (rq_to_state req)).
Definition touched : list string := ["time_entries"; "shifts"; "approvals"; "exceptions"; kChangeFeed].

Lemma entry_differs k r : from <> "" -> rows_of d "time_entries" !! k = Some r -> live_in from (from_row r) = true ->
  rows_equal r (to_row (moves_to req (audit_id rec) (from_row r))) = false.
Proof.
  intros Hfrom Hk Hl. unfold live_in in Hl. apply andb_true_iff in Hl as [_ Hs]. apply String.eqb_eq in Hs.
  apply (text_differs r _ 15 from (rq_to_state req)); [exact Hs|done|done|]. apply not_eq_sym. by apply predecessor_ne.
Qed.

(** The caller is the employee's supervisor in force. *)
Definition is_supervisor : Prop :=
  holds (rq_who req) "supervisor" = true /\ is_Some (st_employee_id (rq_who req))
  /\ run max_key cat (supervisor_at (rq_employee_id req) (rq_now_us req)) d = (Ret (st_employee_id (rq_who req)), d).
(** What had to hold before the entries were looked at: the caller's standing,
    state by state. *)
Definition standing_ok : Prop :=
  match rq_to_state req with
  | "submitted" => st_employee_id (rq_who req) = Some (rq_employee_id req) \/ holds (rq_who req) "payroll" = true \/ is_supervisor
  | "approved" => is_supervisor \/ (holds (rq_who req) "payroll" = true /\ override_reason (rq_who req) <> "")
  | "released" => holds (rq_who req) "payroll" = true
                  /\ forall k r, rows_of d "timesheet_holds" !! k = Some r -> in_sheet 1 2 (rq_employee_id req) (rq_period_id req) r = true ->
                       th_cleared_at (from_row r) <> 0
  | _ => False
  end.

Lemma last_found {T} (p : T -> bool) l : forall found, is_Some found -> is_Some (fold_left (fun found x => if p x then Some x else found) l found).
Proof. induction l as [|x l IH]; intros found Hf; cbn; [done|]. apply IH. by destruct (p x). Qed.
Lemma last_where_none {T} (p : T -> bool) l : last_where p l = None -> Forall (fun x => p x = false) l.
Proof.
  unfold last_where. induction l as [|x l IH]; cbn [fold_left]; [constructor|]. destruct (p x) eqn:E; [|intros Hn; constructor; [done|by apply IH]].
  intros Hn. destruct (last_found p l (Some x)) as [y Hy]; [by eexists|]. congruence.
Qed.

Lemma supervises_true e at_us who : run max_key cat (supervises e at_us who) d = (Ret true, d) ->
  holds who "supervisor" = true /\ is_Some (st_employee_id who) /\ run max_key cat (supervisor_at e at_us) d = (Ret (st_employee_id who), d).
Proof.
  unfold supervises. destruct (st_employee_id who) as [me|]; [|done]. destruct (holds who "supervisor"); [|done]. intros Hr.
  apply run_bind_inv in Hr as (o & d1 & Hs & Hr). assert (d1 = d) as -> by (eapply reads_run; [|exact Hs]; intros r; exact I). cbn in Hr.
  injection Hr as Hb. apply bool_decide_eq_true in Hb as ->. split_and!; [done|by eexists|done].
Qed.

Lemma checks_period : run max_key cat (transition_checks req from) d = (Ret tt, d) ->
  exists p, run max_key cat (period_by_id (rq_period_id req)) d = (Ret (Some p), d) /\ pp_state p = "open".
Proof.
  intros Hc. unfold transition_checks in Hc. apply run_bind_inv in Hc as (po & d1 & Hpo & Hc).
  assert (d1 = d) as -> by (eapply reads_run; [|exact Hpo]; apply by_pk_writes). destruct po as [p|]; [|done].
  destruct (String.eqb_spec (pp_state p) "open") as [Ep|]; [|done]. by exists p.
Qed.
Lemma checks_ok : from <> "" -> rq_to_state req <> "locked" -> run max_key cat (transition_checks req from) d = (Ret tt, d) -> standing_ok.
Proof.
  intros Hfrom Hnl Hc. unfold transition_checks in Hc. apply run_bind_inv in Hc as (po & d1 & Hpo & Hc).
  assert (d1 = d) as -> by (eapply reads_run; [|exact Hpo]; apply by_pk_writes). destruct po as [p|]; [|done]. destruct (negb _); [done|].
  apply run_bind_inv in Hc as ([] & d1 & Ha & Hc). assert (d1 = d) as -> by (eapply reads_run; [apply allowed_reads|exact Ha]).
  unfold standing_ok. revert Hfrom Hnl Ha Hc. unfold predecessor, transition_allowed. generalize (rq_to_state req) as to. intros to.
  destruct (String.eqb_spec to "submitted") as [->|Hs1].
  { intros _ _ Ha _. cbn in Ha. case_bool_decide as Hme; [by left|]. destruct (holds (rq_who req) "payroll"); [by right; left|].
    apply run_bind_inv in Ha as (b & d1 & Hsup & Ha). assert (d1 = d) as -> by (eapply reads_run; [apply supervises_reads|exact Hsup]).
    destruct b; [right; right; by apply supervises_true|done]. }
  destruct (String.eqb_spec to "approved") as [->|Hs2].
  { intros _ _ Ha _. cbn in Ha. apply run_bind_inv in Ha as (b & d1 & Hsup & Ha). assert (d1 = d) as -> by (eapply reads_run; [apply supervises_reads|exact Hsup]).
    destruct b; [left; by apply supervises_true|]. right. destruct (holds _ "payroll"); [|done]. unfold pguard in Ha.
    destruct (String.eqb_spec (override_reason (rq_who req)) ""); done. }
  destruct (String.eqb_spec to "released") as [->|Hs3]; [|destruct (String.eqb_spec to "locked") as [->|]; [by intros _ []|done]].
  intros _ _ Ha Hc. cbn in Ha. split; [by destruct (holds _ "payroll")|]. cbn [String.eqb Ascii.eqb Bool.eqb] in Hc.
  apply run_bind_inv in Hc as (h & d1 & Hh & Hc). destruct h as [h|]; [done|]. intros k r Hk Hin.
  unfold open_hold in Hh. apply run_bind_inv in Hh as (rows & d2 & Hrows & Hh). cbn in Hh. injection Hh as Hlast _.
  rewrite (run_all_rows max_key cat _ d (sheet_rows "timesheet_holds" th thi (rq_employee_id req) (rq_period_id req) d)) in Hrows.
  2: { exact (run_sheet max_key cat _ _ _ _ _ _ _ _ Hth _ _ d). }
  injection Hrows as <- _. apply last_where_none in Hlast. rewrite Forall_forall in Hlast.
  assert (Hel : th_from_row r ∈ map th_from_row (sheet_rows "timesheet_holds" th thi (rq_employee_id req) (rq_period_id req) d)).
  { apply (list_elem_of_fmap_2 th_from_row), (sheet_elem cat _ _ _ _ _ _ _ _ Hth _ _ He Hp d Hokth). by exists k. }
  specialize (Hlast _ Hel). cbn in Hlast. by apply Z.eqb_neq.
Qed.

Lemma entries_read p e l d0 d1 : run max_key cat (entries_in_period p e) d0 = (Ret l, d1) -> d1 = d0 /\ l ≡ₚ map from_row (sheet_rows "time_entries" te tei p e d0).
Proof.
  unfold entries_in_period. intros H. apply run_bind_inv in H as (rows & d2 & Hr & H). rewrite (run_all_rows max_key cat _ d0 _ (run_sheet max_key cat _ _ _ _ _ _ _ _ Hte p e d0)) in Hr.
  injection Hr as <- <-. injection H as <- <-. split; [done|]. apply merge_sort_Permutation.
Qed.
Lemma shifts_read p e l d0 d1 : run max_key cat (shifts_in_period p e) d0 = (Ret l, d1) -> d1 = d0 /\ l ≡ₚ map from_row (sheet_rows "shifts" sh shi p e d0).
Proof.
  unfold shifts_in_period. intros H. apply run_bind_inv in H as (rows & d2 & Hr & H). rewrite (run_all_rows max_key cat _ d0 _ (run_sheet max_key cat _ _ _ _ _ _ _ _ Hsh p e d0)) in Hr.
  injection Hr as <- <-. injection H as <- <-. split; [done|]. apply merge_sort_Permutation.
Qed.

(** The approval a transition records. *)
Definition approval_row (id : Z) : Row :=
  to_row (mkApproval id (rq_period_id req) (rq_employee_id req) from (rq_to_state req) (rq_acted_by_tid req) (rq_acted_by_oid req) (rq_acted_by_account req) (rq_now_us req)
    (if String.eqb (override_reason (rq_who req)) "" then rq_note req else "override: " +:+ override_reason (rq_who req)) (audit_id rec)).

(** What a transition is, once it is known to succeed. *)
Record transition_done : Prop := {
  td_period : exists p, run max_key cat (period_by_id (rq_period_id req)) d = (Ret (Some p), d) /\ pp_state p = "open";
  td_standing : standing_ok;
  td_ready k r : rows_of d "time_entries" !! k = Some r -> in_sheet 14 2 (rq_period_id req) (rq_employee_id req) r = true ->
    te_superseded_by (from_row r) = 0 -> rank from <= rank (te_state (from_row r));
  td_entries k : rows_of d' "time_entries" !! k = entry_after req (audit_id rec) <$> rows_of d "time_entries" !! k;
  td_shifts k : rows_of d' "shifts" !! k = shift_after req <$> rows_of d "shifts" !! k;
  td_approval : exists t, StoreSchema.table cat "approvals" = Some t
    /\ rows_of d' "approvals" = <[pk_key_of t (approval_row (tr_approval_id res)) := approval_row (tr_approval_id res)]> (rows_of d "approvals");
  td_frame : same_but touched d d'
}.

Lemma entries_moved entries d1 : from <> "" -> entries ≡ₚ map from_row (sheet_rows "time_entries" te tei (rq_period_id req) (rq_employee_id req) d) ->
  run max_key cat (pfor (to_move from entries) (move_entry dump rec (rq_to_state req))) d = (Ret tt, d1) ->
  (forall k, rows_of d1 "time_entries" !! k = entry_after req (audit_id rec) <$> rows_of d "time_entries" !! k) /\ same_but ["time_entries"; kChangeFeed] d d1.
Proof.
  intros Hfrom Hl Hr. split.
  - intros k. rewrite (sheet_moves max_key cat _ _ _ _ _ _ _ _ Hte _ _ Hp He d Hokte dump rec (live_in from) (moves_to req (audit_id rec)) entries d1); [done|done| |done|exact Hl|exact Hr].
    intros k' r Hk Hs. by apply (entry_differs k').
  - eapply run_writes; [|exact Hr]. apply writes_for. intros x. apply move_entry_writes; set_solver.
Qed.
Lemma shifts_moved shifts d0 d1 : from <> "" -> rows_ok sh (rows_of d0 "shifts") ->
  shifts ≡ₚ map from_row (sheet_rows "shifts" sh shi (rq_period_id req) (rq_employee_id req) d0) ->
  run max_key cat (pfor (shifts_to_move from shifts) (move_shift dump rec (rq_to_state req))) d0 = (Ret tt, d1) ->
  (forall k, rows_of d1 "shifts" !! k = shift_after req <$> rows_of d0 "shifts" !! k) /\ same_but ["shifts"; kChangeFeed] d0 d1.
Proof.
  intros Hfrom Hok Hl Hr. split.
  - intros k. rewrite (sheet_moves max_key cat _ _ _ _ _ _ _ _ Hsh _ _ Hp He d0 Hok dump rec (fun s => String.eqb (sh_state s) from) (fun s => shift_in_state s (rq_to_state req)) shifts d1);
      [done|done| |done|exact Hl|exact Hr].
    intros k' r Hk Hs. apply String.eqb_eq in Hs. apply (text_differs r _ 11 from (rq_to_state req)); [exact Hs|done|done|]. apply not_eq_sym. by apply predecessor_ne.
  - eapply run_writes; [|exact Hr]. apply writes_for. intros x. apply move_shift_writes; set_solver.
Qed.
Lemma approval_written id d0 d1 p e f t tid oid acct note now_us :
  run max_key cat (write_approval dump rec p e f t tid oid acct note now_us) d0 = (Ret id, d1) ->
  (exists tb, StoreSchema.table cat "approvals" = Some tb
    /\ rows_of d1 "approvals" = (let row := to_row (mkApproval id p e f t tid oid acct now_us note (audit_id rec)) in <[pk_key_of tb row := row]> (rows_of d0 "approvals")))
  /\ same_but ["approvals"; kChangeFeed] d0 d1.
Proof.
  intros Hr. unfold write_approval in Hr. apply run_bind_inv in Hr as (id' & d2 & Hid & Hr). pose proof (next_id_reads max_key cat "approvals" d0) as H. rewrite Hid in H. cbn in H. subst d2.
  apply run_bind_inv in Hr as ([] & d2 & Hr & E). injection E as -> ->. apply rec_insert_effect in Hr as (tb & Htb & _ & Hrows & Hs); [|done].
  split; [|exact Hs]. by exists tb.
Qed.

Lemma transition_effect : run max_key cat (transition dump rec req) d = (Ret res, d') -> transition_done.
Proof.
  unfold transition. destruct (String.eqb_spec from "") as [|Hfrom]; [done|]. destruct (String.eqb_spec (rq_to_state req) "locked") as [|Hnl]; [done|]. cbn [orb]. intros Hr.
  apply run_bind_inv in Hr as ([] & d1 & Hc & Hr). assert (d1 = d) as -> by (eapply reads_run; [apply checks_reads|exact Hc]).
  apply run_bind_inv in Hr as (entries & d1 & Hen & Hr). apply entries_read in Hen as [-> Hl].
  apply run_bind_inv in Hr as (n & d1 & Hn & Hr). cbn in Hn. injection Hn as Hn <-. destruct (n =? 0); [done|].
  apply run_bind_inv in Hr as ([] & d1 & Hm & Hr). destruct (entries_moved entries d1 Hfrom Hl Hm) as [Hentries Hs1].
  apply run_bind_inv in Hr as (shifts & d2 & Hsr & Hr). apply shifts_read in Hsr as [-> Hl2].
  apply run_bind_inv in Hr as ([] & d2 & Hm2 & Hr). assert (Hsd : rows_of d1 "shifts" = rows_of d "shifts") by (apply Hs1; set_solver).
  destruct (shifts_moved shifts d1 d2 Hfrom) as [Hshifts Hs2]; [by rewrite Hsd|exact Hl2|exact Hm2|].
  apply run_bind_inv in Hr as (aid & d3 & Ha & Hr). apply approval_written in Ha as [Ha Hs3].
  apply run_bind_inv in Hr as (nres & d4 & Hx & Hr). cbn in Hr. injection Hr as Eres ->.
  assert (Hs4 : same_but ["exceptions"; kChangeFeed] d3 d').
  { eapply run_writes; [|exact Hx]. destruct (String.eqb (rq_to_state req) "approved"); [|exact I]. apply on_approval_writes; set_solver. }
  constructor.
  - by apply checks_period.
  - by apply checks_ok.
  - intros k r Hk Hin Hlive. pose proof (movable_ok _ _ _ _ Hn) as Hall. rewrite Forall_forall in Hall. apply Hall; [|done].
    rewrite Hl. apply (list_elem_of_fmap_2 te_from_row), (sheet_elem cat _ _ _ _ _ _ _ _ Hte _ _ Hp He d Hokte). by exists k.
  - intros k. rewrite (Hs4 "time_entries"), (Hs3 "time_entries"), (Hs2 "time_entries") by set_solver. apply Hentries.
  - intros k. rewrite (Hs4 "shifts"), (Hs3 "shifts") by set_solver. rewrite Hshifts. by rewrite Hsd.
  - destruct Ha as (tb & Htb & Ha). exists tb. split; [done|]. rewrite <- Eres. rewrite (Hs4 "approvals") by set_solver. rewrite Ha.
    by rewrite (Hs2 "approvals"), (Hs1 "approvals") by set_solver.
  - eapply same_but_trans; [eapply same_but_weaken, Hs1; set_solver|]. eapply same_but_trans; [eapply same_but_weaken, Hs2; set_solver|].
    eapply same_but_trans; [eapply same_but_weaken, Hs3; set_solver|]. eapply same_but_weaken, Hs4; set_solver.
Qed.

(** After it no live entry of the sheet is behind. *)
Lemma transition_ahead : transition_done -> from <> "" -> forall k r, rows_of d' "time_entries" !! k = Some r ->
  in_sheet 14 2 (rq_period_id req) (rq_employee_id req) r = true -> te_superseded_by (from_row r) = 0 -> rank (rq_to_state req) <= rank (te_state (from_row r)).
Proof.
  intros Hd Hfrom k r Hk Hin Hlive. rewrite (td_entries Hd) in Hk. apply fmap_Some in Hk as (r0 & Hk & ->). unfold entry_after in *.
  destruct (in_sheet 14 2 _ _ r0) eqn:Hin0; cbn [andb] in *; [|congruence]. destruct (live_in from (from_row r0)) eqn:Hl.
  - change (te_state (from_row _)) with (as_text (text (rq_to_state req))). cbn. rewrite string_bytes. lia.
  - apply rank_step; [done|by apply (td_ready Hd k)|]. intros Hs. unfold live_in in Hl. rewrite Hlive, Hs, String.eqb_refl in Hl. done.
Qed.
End transition.

(** * The installed tables *)

Notation sheet_here name iname := (sheet_table installed_catalog name iname (tbl name) (idx_of name iname)).
(** The facts of a sheet table, by evaluation. *)
Ltac sheet_facts :=
  constructor; [intros p e; split_and!; by_eval|apply index_of_table; by_eval|by_eval|intros r; by_eval|by_eval
    |intros r; unfold pk_key_of; f_equal; by_eval|intros r; by_eval|split_and!; [exists 0%nat|..]; by_eval].
Lemma entries_sheet : sheet_here "time_entries" "time_entries_period" "period_id" "employee_id" 14 2.
Proof. sheet_facts. Qed.
Lemma shifts_sheet : sheet_here "shifts" "shifts_period" "period_id" "employee_id" 6 1.
Proof. sheet_facts. Qed.
Lemma holds_sheet : sheet_here "timesheet_holds" "timesheet_holds_timesheet" "employee_id" "period_id" 1 2.
Proof. sheet_facts. Qed.

(** [C21] What a transition that succeeds did.  The pay period was open and the
    caller had the standing the next state asks for (for a submission: the
    employee, payroll, or the supervisor in force; for an approval: the
    supervisor in force, or payroll with a reason; for a release: payroll, and
    no open hold on the timesheet; no other state can be asked for);
    no live entry of the employee's period was behind the state before; each
    live entry in that state, and each shift, is now in the next one, and every
    other row of the two tables is as it was; one approval was recorded; no
    table but these, the exceptions and the change feed changed; and no live
    entry of the period is behind the new state. *)
Theorem transition_moves max_key dump rec req res d d' :
  rows_ok (tbl "time_entries") (rows_of d "time_entries") -> rows_ok (tbl "shifts") (rows_of d "shifts") ->
  rows_ok (tbl "timesheet_holds") (rows_of d "timesheet_holds") -> i64_ok (rq_period_id req) -> i64_ok (rq_employee_id req) ->
  run max_key installed_catalog (transition dump rec req) d = (Ret res, d') ->
  transition_done max_key installed_catalog rec req d d' res
  /\ forall k r, rows_of d' "time_entries" !! k = Some r -> in_sheet 14 2 (rq_period_id req) (rq_employee_id req) r = true ->
       te_superseded_by (from_row r) = 0 -> rank (rq_to_state req) <= rank (te_state (from_row r)).
Proof.
  intros Hte Hsh Hth Hp He Hr.
  pose proof (transition_effect max_key installed_catalog dump rec req d d' res _ _ _ _ _ _ entries_sheet shifts_sheet holds_sheet Hte Hsh Hth Hp He Hr) as Hd.
  split; [exact Hd|]. apply (transition_ahead _ _ _ _ _ _ _ Hd). intros E. unfold transition in Hr. rewrite E in Hr. discriminate Hr.
Qed.

(** ** An example *)

Definition sample_entry : TimeEntry :=
  mkTimeEntry 1 (replicate 16 9) 1 1 None 0 "in" 1000 "08:00" "America/New_York" "2024a" 1000 "device" None 1 "recorded" "" 0 0 "" 1000 "" 0.
Definition with_entry : Data := snd (run 300 installed_catalog (pwrite (RInsert "time_entries" (to_row sample_entry))) sample).
Definition submit : TransitionRequest := mkRequest 1 1 "submitted" (mkStanding ∅ (Some 1) "") "" "" "ada" "" 2000.
Definition submitted : Data := snd (run 300 installed_catalog (transition sample_dump sample_recorder submit) with_entry).
Lemma submitted_runs : run 300 installed_catalog (transition sample_dump sample_recorder submit) with_entry = (Ret (mkTransition "recorded" 1 0 1 0), submitted).
Proof. unfold submitted. rewrite (surjective_pairing (run 300 installed_catalog _ with_entry)) at 1. by f_equal. Qed.
Lemma with_entry_rows : rows_of with_entry "time_entries" = {[ pk_key_of (tbl "time_entries") (to_row sample_entry) := to_row sample_entry ]}.
Proof. by_eval. Qed.
Definition sample_entry_key : Bytes := pk_key_of (tbl "time_entries") (to_row sample_entry).
Lemma transition_moves_witness :
  rows_of submitted "time_entries" !! sample_entry_key = Some (entry_after submit 1 (to_row sample_entry)).
Proof.
  rewrite (td_entries 300 installed_catalog sample_recorder submit with_entry submitted (mkTransition "recorded" 1 0 1 0)).
  { rewrite with_entry_rows. unfold sample_entry_key. by rewrite lookup_singleton_eq. }
  apply (transition_moves 300 sample_dump sample_recorder submit).
  - rewrite with_entry_rows. apply map_Forall_singleton. split; [reflexivity|]. apply validated; [by_eval|decide_now].
  - replace (rows_of with_entry "shifts") with (∅ : gmap Bytes Row) by by_eval. apply map_Forall_empty.
  - replace (rows_of with_entry "timesheet_holds") with (∅ : gmap Bytes Row) by by_eval. apply map_Forall_empty.
  - decide_now.
  - decide_now.
  - exact submitted_runs.
Defined.
