(* ===== verification/PunchIngest.v ===== *)
(** What a batch does to the punches on file.

    [batch_effect]: a batch that is applied only adds entries, each of them the
    device's own, and what it acknowledges is on file or repeats a uuid that it
    refused.  [foreign_effect] says what becomes of such a uuid.
    [replay_effect]: a batch whose entries are all on file changes no punch and
    no shift. *)

From stdpp Require Import base numbers list gmap strings sorting.
From S2P Require Import Prelude Bytes PageFormat Types Record LocalTime StoreSchema BTreeNode BTree Store Grove StoreRep StoreSpec StoreReads StoreRefine.
From S2P Require Import CoreSchema Program Recorder PunchSchema PunchInstall PunchData PunchRules PunchPayroll PunchSync PunchFrames PunchRows PunchScan PunchTables PunchExample.
From stdpp Require Import list.
Open Scope Z_scope.
Open Scope prog_scope.

Notation entries_in d := (rows_of d "time_entries").
(** An entry of the device with this uuid is on file. *)
Definition on_file (d : Data) (device_id : Z) (uuid : Bytes) : Prop :=
  exists k r, entries_in d !! k = Some r /\ at_ r 1 = Uuid uuid /\ at_ r 3 = Integer device_id.
(** The batch refused an entry with this uuid. *)
Definition refused (l : list EntryOutcome) (uuid : Bytes) : Prop := Exists (fun o => oc_entry_uuid o = uuid /\ oc_accepted o = false) l.

(** An entry of another device with this uuid is on file. *)
Definition elsewhere (d : Data) (device_id : Z) (uuid : Bytes) : Prop := exists other, other <> device_id /\ on_file d other uuid.
(** The uuid is on file for the device, or it is another device's and the batch
    has refused it. *)
Definition vouched (d : Data) (device_id : Z) (l : list EntryOutcome) (uuid : Bytes) : Prop :=
  on_file d device_id uuid \/ (elsewhere d device_id uuid /\ refused l uuid).
(** The verdicts on a uuid, and those on [n] entries with another device's
    uuid. *)
Definition verdicts (uuid : Bytes) (l : list EntryOutcome) : list bool := map oc_accepted (List.filter (fun o => bool_decide (oc_entry_uuid o = uuid)) l).
Definition repeats (uuid : Bytes) (l : list IncomingEntry) : nat := length (List.filter (fun i => bool_decide (in_entry_uuid i = uuid)) l).
Definition first_refused (seen : bool) (n : nat) : list bool := if seen then replicate n true else match n with O => [] | S n => false :: replicate n true end.

Lemma on_file_grows d d' device_id uuid : entries_in d ⊆ entries_in d' -> on_file d device_id uuid -> on_file d' device_id uuid.
Proof. intros Hs (k & r & Hk & H). exists k, r. split; [by eapply lookup_weaken|done]. Qed.
Lemma refused_app l l' uuid : refused l uuid -> refused (l ++ l') uuid.
Proof. intros H. apply Exists_app. by left. Qed.

Lemma elsewhere_grows d d' device_id uuid : entries_in d ⊆ entries_in d' -> elsewhere d device_id uuid -> elsewhere d' device_id uuid.
Proof. intros Hs (other & Hne & Hf). exists other. split; [done|by eapply on_file_grows]. Qed.
Lemma vouched_grows d d' device_id l l' uuid : entries_in d ⊆ entries_in d' -> vouched d device_id l uuid -> vouched d' device_id (l ++ l') uuid.
Proof. intros Hs [H|[He Hr]]; [left; by eapply on_file_grows|right]. split; [by eapply elsewhere_grows|by apply refused_app]. Qed.
Lemma verdicts_app uuid l l' : verdicts uuid (l ++ l') = verdicts uuid l ++ verdicts uuid l'.
Proof. unfold verdicts. by rewrite List.filter_app, map_app. Qed.

Lemma insert_allowed_fresh max_key cat d t row : insert_allowed max_key cat d t row = Ret tt -> rows_of d (td_name t) !! pk_key_of t row = None.
Proof.
  unfold insert_allowed, guard. destruct (validate_row t row); [|done]. cbn [rbind]. destruct (_ <=? _)%nat; [|done]. cbn [rbind]. case_bool_decide; done.
Qed.

(** The table of entries, as its scans use it. *)
Record punch_table (cat : Catalog) (te : TableDef) (uidx : IndexDef) : Prop := {
  pt_table : StoreSchema.table cat "time_entries" = Some te;
  pt_name : td_name te = "time_entries";
  pt_scan u : scan_ready cat "time_entries" "time_entries_uuid" te uidx [Uuid u];
  pt_resolves : index_resolves te uidx;
  pt_prefix : is_prefix ["entry_uuid"] (ix_columns uidx) = true;
  pt_project r : project te r ["entry_uuid"] = [at_ r 1];
  pt_types : types_of te ["entry_uuid"] = [TUuid];
  pt_device r : field te r "device_id" = at_ r 3;
  pt_device_column : has_column te "device_id" /\ col_type (column te "device_id") = TInteger /\ nullable (column te "device_id") = false
}.

Section ingest.
Context (max_key : nat) (cat : Catalog) (dump : Json -> string) (rec : Recorder) (cfg : Config) (te : TableDef) (uidx : IndexDef).
Context (Hpt : punch_table cat te uidx).
Context (device : Device) (batch : IncomingBatch) (now_us : Z) (zone release : string) (divergence : option Z).

Notation step := (apply_entry dump rec device batch now_us zone release divergence).
Notation steps := (apply_entries dump rec device batch now_us zone release divergence).
Definition entry_tables : list string := ["time_entries"; "entry_break_codes"; "exceptions"; kChangeFeed].

(** ** Looking an entry up *)

Lemma uuid_found d u o d' : rows_ok te (entries_in d) -> value_ok (Uuid u) -> run max_key cat (entry_by_uuid u) d = (Ret o, d') ->
  d' = d /\ match o with
            | Some e => on_file d (te_device_id e) u
            | None => forall k r, entries_in d !! k = Some r -> at_ r 1 <> Uuid u
            end.
Proof.
  intros Hok Hu Hr. unfold entry_by_uuid, first in Hr. apply run_bind_inv in Hr as (rows & d1 & Hrows & Hr).
  rewrite (run_scan_eq max_key cat _ _ te uidx) in Hrows by apply Hpt. injection Hrows as <- <-. injection Hr as <- <-. split; [done|].
  assert (Hiff : forall r, r ∈ visited te (Some uidx) (eq_bound [Uuid u]) (eq_bound [Uuid u]) (entries_in d) <-> exists k, entries_in d !! k = Some r /\ at_ r 1 = Uuid u).
  { intros r. rewrite (visited_iff te _ Hok uidx ["entry_uuid"]); [|apply Hpt|apply Hpt|rewrite (pt_types _ _ _ Hpt); constructor; [by split|constructor]].
    setoid_rewrite (pt_project _ _ _ Hpt). split; intros (k & Hk & E); exists k; (split; [done|]); [by injection E|by rewrite E]. }
  destruct (visited te (Some uidx) _ _ _) as [|r l] eqn:El; cbn.
  - intros k r Hk E. assert (Hin : r ∈ @nil Row) by (apply Hiff; by exists k). by apply not_elem_of_nil in Hin.
  - destruct (proj1 (Hiff r)) as (k & Hk & E); [by left|]. exists k, r. split_and!; [done|done|]. destruct (Hok k r Hk) as [_ Hg]. destruct (pt_device_column _ _ _ Hpt) as (Hc & Hty & Hn).
    destruct (integer_field te r "device_id" Hg Hc Hty Hn) as (i & Ei & _). rewrite (pt_device _ _ _ Hpt) in Ei. by rewrite Ei.
Qed.

(** ** One entry *)

Lemma settled_reads p b : writes_only [] (settled device p b).
Proof. unfold settled. destruct (b_settled b !! p); [done|]. apply writes_bind; [apply entries_in_period_writes|done]. Qed.
Lemma attempt_writes {A} names (p : Prog A) : writes_only names p -> writes_only names (pattempt p).
Proof. induction p as [r|k IH|t pk k IH|C t i lo hi rv fn b k IH|op k IH]; cbn [pattempt writes_only]; auto. intros [Hin Hk]. auto. Qed.
Lemma refusal_reads i : writes_only [] (refusal device batch now_us i).
Proof.
  unfold refusal. destruct (validate_incoming i); [|done]. apply writes_bind; [apply scan_eq_writes|]. intros dup. destruct (negb _); [done|].
  apply writes_bind; [destruct (String.eqb _ _); [done|apply pay_code_writes]|]. intros [|]; [|done]. cbn [negb].
  apply writes_bind; [destruct (String.eqb _ _); [done|apply code_active_writes]|]. intros [|]; [|done]. cbn [negb].
  apply writes_bind; [apply attempt_writes; unfold device_attested_valid, device_by_id, pguard; follow|]. intros [|s]; [done|]. by destruct (bool_decide _).
Qed.
Lemma settled_same p b any b' d d' : run max_key cat (settled device p b) d = (Ret (any, b'), d') ->
  d' = d /\ b_in_batch b' = b_in_batch b /\ b_outcomes b' = b_outcomes b /\ b_acked b' = b_acked b.
Proof.
  intros Hr. split; [by eapply reads_run; [apply settled_reads|]|]. unfold settled in Hr. destruct (b_settled b !! p); [by injection Hr as <- <- <-|].
  apply run_bind_inv in Hr as (l & d1 & _ & Hr). by injection Hr as <- <- <-.
Qed.

(** Storing an entry. *)
Lemma store_effect i b b' d d' : run max_key cat (store_entry dump rec device batch now_us zone release divergence i b) d = (Ret b', d') ->
  exists id p, let row := to_row (new_entry device batch now_us zone release divergence i id p) in
    entries_in d !! pk_key_of te row = None /\ entries_in d' = <[pk_key_of te row := row]> (entries_in d)
    /\ b_in_batch b' = {[in_entry_uuid i]} ∪ b_in_batch b
    /\ b_outcomes b' = b_outcomes b ++ [mkOutcome (in_entry_uuid i) (in_journal_sequence i) true ""]
    /\ b_acked b' = b_acked b ++ [in_journal_sequence i] /\ same_but entry_tables d d'.
Proof.
  unfold store_entry. destruct (parse_local_time _) as [lt|]; [|done]. intros Hr. apply run_bind_inv in Hr as (period & d1 & H1 & Hr).
  assert (d1 = d) as -> by (eapply reads_run; [|exact H1]; intros r; exact I). cbv zeta in Hr. set (p := match period with Some _ => _ | None => 0 end) in Hr.
  apply run_bind_inv in Hr as (id & d1 & H2 & Hr). assert (d1 = d) as -> by (eapply reads_run; [|exact H2]; apply next_id_writes).
  apply run_bind_inv in Hr as ([] & d1 & H3 & Hr). assert (d1 = d) as -> by (eapply reads_run; [|exact H3]; unfold entry_period_valid, period_by_id, pguard; follow).
  apply run_bind_inv in Hr as ([late b1] & d1 & H4 & Hr).
  assert (d1 = d /\ b_in_batch b1 = b_in_batch b /\ b_outcomes b1 = b_outcomes b /\ b_acked b1 = b_acked b) as (-> & Hb1 & Hb2 & Hb3).
  { destruct (p =? 0); [by injection H4 as <- <- <-|]. by eapply settled_same. }
  apply run_bind_inv in Hr as ([] & d1 & H5 & Hr). apply rec_insert_effect in H5 as (t & Ht' & Hins & Hrows & Hs1); [|done].
  assert (t = te) as -> by (rewrite (pt_table _ _ _ Hpt) in Ht'; congruence). apply insert_allowed_fresh in Hins. rewrite (pt_name _ _ _ Hpt) in Hins.
  apply run_bind_inv in Hr as ([] & d2 & H6 & Hr). assert (Hs2 : same_but ["entry_break_codes"; "exceptions"; kChangeFeed] d1 d2).
  { eapply run_writes; [|exact H6]. destruct (String.eqb _ _); [done|]. apply mark_break_writes; set_solver. }
  apply run_bind_inv in Hr as (opened & d3 & H7 & Hr). assert (Hs3 : same_but ["entry_break_codes"; "exceptions"; kChangeFeed] d2 d3).
  { eapply run_writes; [|exact H7]. destruct late; [|done]. apply opening_writes; set_solver. }
  assert (Hs4 : same_but ["entry_break_codes"; "exceptions"; kChangeFeed] d3 d').
  { eapply run_writes; [|exact Hr]. destruct period as [pp|]; [|done]. destruct (String.eqb (pp_state pp) "locked"); [|exact I]. apply writes_bind; [apply opening_writes; set_solver|done]. }
  assert (Hb : b_in_batch b' = {[in_entry_uuid i]} ∪ b_in_batch b /\ b_outcomes b' = b_outcomes b ++ [mkOutcome (in_entry_uuid i) (in_journal_sequence i) true ""]
    /\ b_acked b' = b_acked b ++ [in_journal_sequence i]).
  { rewrite <- Hb1, <- Hb2, <- Hb3. destruct period as [pp|]; [|by injection Hr as <- <-]. destruct (String.eqb (pp_state pp) "locked"); [|by injection Hr as <- <-].
    apply run_bind_inv in Hr as (o & d4 & _ & Hr). by injection Hr as <- <-. }
  exists id, p. cbv zeta. destruct Hb as (Hbi & Hbo & Hba). split_and!; [exact Hins| |exact Hbi|exact Hbo|exact Hba|].
  - rewrite Hs4, Hs3, Hs2 by set_solver. exact Hrows.
  - intros n Hn. rewrite Hs4, Hs3, Hs2, Hs1; [done|..]; unfold entry_tables in Hn; set_solver.
Qed.

(** An entry of [l] was stored, or nothing was. *)
Definition added (l : list IncomingEntry) (d d' : Data) : Prop :=
  entries_in d ⊆ entries_in d'
  /\ forall k r, entries_in d' !! k = Some r -> entries_in d !! k = Some r
       \/ exists i id p, i ∈ l /\ r = to_row (new_entry device batch now_us zone release divergence i id p).
Lemma added_none l d d' : entries_in d' = entries_in d -> added l d d'.
Proof. intros E. split; [by rewrite E|]. intros k r Hk. left. by rewrite <- E. Qed.
Lemma added_one i id p d d' : let row := to_row (new_entry device batch now_us zone release divergence i id p) in
  entries_in d !! pk_key_of te row = None -> entries_in d' = <[pk_key_of te row := row]> (entries_in d) -> added [i] d d'.
Proof.
  intros row Hn E. split; [rewrite E; by apply insert_subseteq|]. intros k r Hk. rewrite E in Hk. apply lookup_insert_Some in Hk as [[_ <-]|[_ Hk]]; [|by left].
  right. exists i, id, p. split; [by left|done].
Qed.
Lemma added_weaken l l' d d' : l ⊆ l' -> added l d d' -> added l' d d'.
Proof. intros Hl [Hs Ha]. split; [done|]. intros k r Hk. destruct (Ha k r Hk) as [?|(i & id & p & Hi & ->)]; [by left|]. right. exists i, id, p. split; [by apply Hl|done]. Qed.
Lemma added_trans l d1 d2 d3 : added l d1 d2 -> added l d2 d3 -> added l d1 d3.
Proof. intros [Hs1 H1] [Hs2 H2]. split; [by etrans|]. intros k r Hk. destruct (H2 k r Hk) as [Hk2|]; [|by right]. by apply H1. Qed.

(** What the uuids seen and the outcomes so far say about the file. *)
Record accounted (d : Data) (b : BatchState) : Prop := {
  ac_seen u : u ∈ b_in_batch b -> vouched d (dev_id device) (b_outcomes b) u;
  ac_acked : Forall (fun o => oc_accepted o = true -> vouched d (dev_id device) (b_outcomes b) (oc_entry_uuid o)) (b_outcomes b);
  ac_sequences : b_acked b = map oc_journal_sequence (List.filter oc_accepted (b_outcomes b))
}.
Lemma accounted_grows d d' b b' o : entries_in d ⊆ entries_in d' -> accounted d b -> b_outcomes b' = b_outcomes b ++ [o] ->
  (forall u, u ∈ b_in_batch b' -> u ∈ b_in_batch b \/ vouched d' (dev_id device) (b_outcomes b') u) ->
  (oc_accepted o = true -> oc_entry_uuid o ∈ b_in_batch b \/ on_file d' (dev_id device) (oc_entry_uuid o)) ->
  b_acked b' = b_acked b ++ (if oc_accepted o then [oc_journal_sequence o] else []) -> accounted d' b'.
Proof.
  intros Hs [Hseen Hacked Hseq] Eo Hb Ho Eq.
  assert (Hup : forall u, vouched d (dev_id device) (b_outcomes b) u -> vouched d' (dev_id device) (b_outcomes b') u).
  { intros u H. rewrite Eo. by eapply vouched_grows. }
  constructor.
  - intros u Hu. destruct (Hb u Hu) as [H|H]; [by apply Hup, Hseen|done].
  - apply Forall_forall. intros o' Hin Ha. rewrite Eo in Hin. rewrite Forall_forall in Hacked. apply elem_of_app in Hin as [Hin|Hin].
    + by apply Hup, Hacked.
    + apply list_elem_of_singleton in Hin as ->. destruct (Ho Ha) as [H|H]; [by apply Hup, Hseen|by left].
  - rewrite Eq, Hseq, Eo, List.filter_app, map_app. f_equal. cbn [List.filter]. by destruct (oc_accepted o).
Qed.

Lemma step_effect i b b' d d' : rows_ok te (entries_in d) -> value_ok (Uuid (in_entry_uuid i)) -> accounted d b ->
  run max_key cat (step i b) d = (Ret b', d') ->
  added [i] d d' /\ accounted d' b' /\ same_but entry_tables d d'
  /\ exists ok why, b_outcomes b' = b_outcomes b ++ [mkOutcome (in_entry_uuid i) (in_journal_sequence i) ok why].
Proof.
  intros Hok Hu Hac Hr. unfold apply_entry in Hr. set (b0 := claim_zone zone i b) in Hr.
  assert (Hb0 : b_in_batch b0 = b_in_batch b /\ b_outcomes b0 = b_outcomes b /\ b_acked b0 = b_acked b) by (unfold b0, claim_zone; by destruct (String.eqb _ _)).
  destruct Hb0 as (Hb1 & Hb2 & Hb3). clearbody b0.
  assert (Hac0 : accounted d b0) by (destruct Hac; constructor; rewrite ?Hb1, ?Hb2, ?Hb3; done). rewrite <- Hb2. clear Hac Hb1 Hb2 Hb3 b.
  cbv zeta in Hr. case_bool_decide as Hseen.
  { injection Hr as <- <-. split_and!; [by apply added_none| |done|by exists true, ""]. eapply accounted_grows; [done|exact Hac0|reflexivity| | |reflexivity]; cbn.
    - intros u Hin. by left.
    - intros _. by left. }
  apply run_bind_inv in Hr as (o & d1 & Hf & Hr). apply uuid_found in Hf as [-> Hf]; [|done|done]. destruct o as [e|].
  { destruct (Z.eqb_spec (te_device_id e) (dev_id device)) as [Ed|Ed]; cbn [negb] in Hr; injection Hr as <- <-.
    - rewrite Ed in Hf. split_and!; [by apply added_none| |done|by exists true, ""]. eapply accounted_grows; [done|exact Hac0|reflexivity| | |reflexivity]; cbn.
      + intros u [->%elem_of_singleton|Hin]%elem_of_union; [by right; left|by left].
      + intros _. by right.
    - split_and!; [by apply added_none| |done|by eexists false, _]. eapply accounted_grows; [done|exact Hac0|reflexivity| |done|symmetry; apply app_nil_r]; cbn.
      intros u [->%elem_of_singleton|Hin]%elem_of_union; [right; right|by left]. split; [by exists (te_device_id e)|]. apply Exists_app. right. by apply Exists_cons; left. }
  apply run_bind_inv in Hr as (why & d1 & Hw & Hr). assert (d1 = d) as -> by (eapply reads_run; [apply refusal_reads|exact Hw]). destruct why as [why|].
  { injection Hr as <- <-. split_and!; [by apply added_none| |done|by exists false, why]. eapply accounted_grows; [done|exact Hac0|reflexivity| |done|symmetry; apply app_nil_r]; cbn.
    intros u Hin. by left. }
  apply store_effect in Hr as (id & p & Hn & Hrows & Hin & Hout & Hacked & Hsame).
  pose proof (added_one i id p d d' Hn Hrows) as Hadd.
  split_and!; [done| |done|by exists true, ""]. eapply accounted_grows; [apply Hadd|exact Hac0|exact Hout| | |exact Hacked].
  - intros u Hu'. rewrite Hin in Hu'. apply elem_of_union in Hu' as [->%elem_of_singleton|Hu']; [right; left|by left].
    eexists _, _. rewrite Hrows. split_and!; [apply lookup_insert_eq|done|done].
  - intros _. right. eexists _, _. rewrite Hrows. split_and!; [apply lookup_insert_eq|done|done].
Qed.

(** A uuid that only another device has stays so, and its verdict is whether the
    batch has had it before. *)
Definition foreign (d : Data) (u : Bytes) : Prop := elsewhere d (dev_id device) u /\ ~ on_file d (dev_id device) u.
Lemma foreign_step i b b' d d' u : rows_ok te (entries_in d) -> value_ok (Uuid (in_entry_uuid i)) -> foreign d u ->
  run max_key cat (step i b) d = (Ret b', d') ->
  foreign d' u /\ (u ∈ b_in_batch b' <-> u ∈ b_in_batch b \/ in_entry_uuid i = u)
  /\ exists ok why, b_outcomes b' = b_outcomes b ++ [mkOutcome (in_entry_uuid i) (in_journal_sequence i) ok why]
       /\ (in_entry_uuid i = u -> ok = bool_decide (u ∈ b_in_batch b)).
Proof.
  intros Hok Hu [(other & Hne & Hother) Hnot] Hr. unfold apply_entry in Hr. set (b0 := claim_zone zone i b) in Hr.
  assert (Hb0 : b_in_batch b0 = b_in_batch b /\ b_outcomes b0 = b_outcomes b) by (unfold b0, claim_zone; by destruct (String.eqb _ _)).
  destruct Hb0 as [<- <-]. clearbody b0. clear b. cbv zeta in Hr. assert (Hf0 : foreign d u) by (split; [by exists other|done]). case_bool_decide as Hseen.
  { injection Hr as <- <-. split_and!; [done|cbn; split; [by left|by intros [?|<-]]|]. exists true, "". split; [done|]. intros <-. by rewrite bool_decide_eq_true_2. }
  apply run_bind_inv in Hr as (o & d1 & Hf & Hr). apply uuid_found in Hf as [-> Hf]; [|done|done]. destruct o as [e|].
  { destruct (Z.eqb_spec (te_device_id e) (dev_id device)) as [Ed|Ed]; cbn [negb] in Hr; injection Hr as <- <-.
    - assert (in_entry_uuid i <> u) by (intros <-; rewrite Ed in Hf; done). split_and!; [done|cbn; set_solver|]. by exists true, "".
    - split_and!; [done|cbn; set_solver|]. eexists false, _. split; [done|]. intros <-. by rewrite bool_decide_eq_false_2. }
  assert (Hiu : in_entry_uuid i <> u) by (intros <-; destruct Hother as (k & r & Hk & Er & _); by destruct (Hf k r Hk)).
  apply run_bind_inv in Hr as (why & d1 & Hw & Hr). assert (d1 = d) as -> by (eapply reads_run; [apply refusal_reads|exact Hw]). destruct why as [why|].
  { injection Hr as <- <-. split_and!; [done|cbn; naive_solver|]. by exists false, why. }
  apply store_effect in Hr as (id & p & Hn & Hrows & Hin & Hout & _ & _).
  split_and!; [|rewrite Hin; set_solver|by exists true, ""]. split.
  - eapply elsewhere_grows, Hf0. rewrite Hrows. by apply insert_subseteq.
  - intros (k & r & Hk & Er & Ed). rewrite Hrows in Hk. apply lookup_insert_Some in Hk as [[_ <-]|[_ Hk]]; [cbn in Er; congruence|]. apply Hnot. by exists k, r.
Qed.

(** ** The loop *)

Lemma step_grows i b b' d d' : run max_key cat (step i b) d = (Ret b', d') -> entries_in d ⊆ entries_in d'.
Proof.
  intros Hr. unfold apply_entry in Hr. cbv zeta in Hr. case_bool_decide; [by injection Hr as <- <-|]. apply run_bind_inv in Hr as (o & d1 & Hf & Hr).
  assert (d1 = d) as -> by (eapply reads_run; [|exact Hf]; apply first_writes). destruct o as [e|].
  { by destruct (negb _); injection Hr as <- <-. }
  apply run_bind_inv in Hr as (why & d1 & Hw & Hr). assert (d1 = d) as -> by (eapply reads_run; [apply refusal_reads|exact Hw]).
  destruct why as [why|]; [by injection Hr as <- <-|]. apply store_effect in Hr as (id & p & Hn & Hrows & _). rewrite Hrows. by apply insert_subseteq.
Qed.
Lemma steps_grow l : forall b b' d d', run max_key cat (steps l b) d = (Ret b', d') -> entries_in d ⊆ entries_in d'.
Proof.
  induction l as [|i l IH]; intros b b' d d' Hr; cbn [apply_entries] in Hr; [by injection Hr as <- <-|].
  apply run_bind_inv in Hr as (b1 & d1 & H1 & Hr). etrans; [by eapply step_grows|by eapply IH].
Qed.
Lemma rows_ok_sub (rows rows' : gmap Bytes Row) : rows ⊆ rows' -> rows_ok te rows' -> rows_ok te rows.
Proof. intros Hs Hok k r Hk. apply Hok. by eapply lookup_weaken. Qed.

Lemma steps_effect l : forall b b' d d', rows_ok te (entries_in d') -> Forall (fun i => value_ok (Uuid (in_entry_uuid i))) l -> accounted d b ->
  run max_key cat (steps l b) d = (Ret b', d') ->
  added l d d' /\ accounted d' b' /\ same_but entry_tables d d'
  /\ map (fun o => (oc_entry_uuid o, oc_journal_sequence o)) (b_outcomes b')
     = map (fun o => (oc_entry_uuid o, oc_journal_sequence o)) (b_outcomes b) ++ map (fun i => (in_entry_uuid i, in_journal_sequence i)) l.
Proof.
  induction l as [|i l IH]; intros b b' d d' Hok Hl Hac Hr; cbn [apply_entries] in Hr.
  { injection Hr as <- <-. split_and!; [by apply added_none|done|done|by rewrite app_nil_r]. }
  apply Forall_cons in Hl as [Hi Hl]. apply run_bind_inv in Hr as (b1 & d1 & H1 & Hr).
  pose proof (rows_ok_sub _ _ (steps_grow _ _ _ _ _ Hr) Hok) as Hok1. pose proof (rows_ok_sub _ _ (step_grows _ _ _ _ _ H1) Hok1) as Hok0.
  destruct (step_effect i b b1 d d1 Hok0 Hi Hac H1) as (Ha1 & Hac1 & Hs1 & ok & why & Eo).
  destruct (IH b1 b' d1 d' Hok Hl Hac1 Hr) as (Ha2 & Hac2 & Hs2 & Em). split_and!; [|done|by eapply same_but_trans|].
  - eapply added_trans; [eapply added_weaken, Ha1|eapply added_weaken, Ha2]; set_solver.
  - rewrite Em, Eo, map_app, <- app_assoc. done.
Qed.
Lemma foreign_steps u l : forall b b' d d', rows_ok te (entries_in d') -> Forall (fun i => value_ok (Uuid (in_entry_uuid i))) l -> foreign d u ->
  run max_key cat (steps l b) d = (Ret b', d') ->
  foreign d' u /\ verdicts u (b_outcomes b') = verdicts u (b_outcomes b) ++ first_refused (bool_decide (u ∈ b_in_batch b)) (repeats u l).
Proof.
  induction l as [|i l IH]; intros b b' d d' Hok Hl Hf Hr; cbn [apply_entries] in Hr.
  { injection Hr as <- <-. split; [done|]. change (repeats u []) with 0%nat. by case_bool_decide; rewrite app_nil_r. }
  apply Forall_cons in Hl as [Hi Hl]. apply run_bind_inv in Hr as (b1 & d1 & H1 & Hr).
  pose proof (rows_ok_sub _ _ (steps_grow _ _ _ _ _ Hr) Hok) as Hok1. pose proof (rows_ok_sub _ _ (step_grows _ _ _ _ _ H1) Hok1) as Hok0.
  destruct (foreign_step i b b1 d d1 u Hok0 Hi Hf H1) as (Hf1 & Hin & ok & why & Eo & Hv). destruct (IH b1 b' d1 d' Hok Hl Hf1 Hr) as [Hf2 Ev].
  split; [done|]. rewrite Ev, Eo, verdicts_app, <- app_assoc. f_equal. unfold repeats. cbn [List.filter].
  unfold verdicts at 1. cbn [List.filter oc_entry_uuid]. destruct (decide (in_entry_uuid i = u)) as [Eu|Eu].
  - rewrite bool_decide_eq_true_2 by done. rewrite (bool_decide_eq_true_2 (u ∈ b_in_batch b1)) by (apply Hin; by right). cbn [map oc_accepted length].
    rewrite (Hv Eu). by destruct (bool_decide (u ∈ b_in_batch b)).
  - rewrite bool_decide_eq_false_2 by done. cbn [map app]. f_equal. apply bool_decide_ext. rewrite Hin. naive_solver.
Qed.
End ingest.

(** * Batches *)

Lemma sorted_ids_elem l x : x ∈ sorted_ids l <-> x ∈ l.
Proof.
  unfold sorted_ids. rewrite <- (merge_sort_Permutation Z.le l) at 2. generalize (merge_sort Z.le l) as m. clear l.
  induction m as [|y [|z m] IH]; [done|done|]. change (unique_ids (y :: z :: m)) with (if y =? z then unique_ids (z :: m) else y :: unique_ids (z :: m)).
  destruct (Z.eqb_spec y z) as [->|Hne]; rewrite ?elem_of_cons, IH, ?elem_of_cons; tauto.
Qed.

Section tail.
Context (dump : Json -> string) (rec : Recorder) (cfg : Config) (device : Device) (batch : IncomingBatch) (now_us : Z) (names : list string).
Context (Hfeed : kChangeFeed ∈ names) (Hx : "exceptions" ∈ names).

Lemma clock_writes client : writes_only names (clock_check dump rec cfg device client now_us).
Proof. unfold clock_check. follow. Qed.
Lemma count_periods_writes l : forall opened, writes_only names (count_periods dump rec cfg device now_us l opened).
Proof. induction l as [|p l IH]; intros opened; cbn [count_periods]; [done|]. apply writes_bind; [by apply count_attested_writes|apply IH]. Qed.
Lemma zone_writes zone b : writes_only names (report_zone dump rec device now_us zone b).
Proof. unfold report_zone. follow. Qed.
Lemma rejected_writes detail opened : writes_only names (report_rejected dump rec device now_us detail opened).
Proof. unfold report_rejected, open_exceptions. follow. Qed.
Lemma reports_writes l : forall opened, writes_only names (apply_reports dump rec device now_us l opened).
Proof. induction l as [|r l IH]; intros opened; cbn [apply_reports]; [done|]. destruct (_ && _); [done|]. apply writes_bind; [by apply opening_writes|apply IH]. Qed.
Lemma acknowledge_writes acked : "devices" ∈ names -> writes_only names (acknowledge dump rec device batch now_us acked).
Proof. intros Hd. unfold acknowledge. follow. Qed.
Lemma record_batch_writes divergence seen b : "sync_batches" ∈ names -> writes_only names (record_batch dump rec device batch now_us divergence seen b).
Proof. intros Hd. unfold record_batch. follow. Qed.
End tail.

Definition replay_tables : list string := ["exceptions"; "devices"; "sync_batches"; kChangeFeed].
Lemma finish_effect max_key cat dump rec cfg device batch now_us zone divergence seen b opened d d' out :
  run max_key cat (finish_batch dump rec cfg device batch now_us zone divergence seen b opened) d = (Ret out, d') ->
  same_but replay_tables d d' /\ so_outcomes out = b_outcomes b /\ so_acked_sequences out = sorted_ids (b_acked b).
Proof.
  intros Hr. split.
  - eapply run_writes; [|exact Hr]. unfold finish_batch. apply writes_bind; [apply count_periods_writes; set_solver|]. intros o1.
    apply writes_bind; [apply zone_writes; set_solver|]. intros o2. apply writes_bind; [apply rejected_writes; set_solver|]. intros o3.
    apply writes_bind; [apply reports_writes; set_solver|]. intros o4. apply writes_bind; [apply acknowledge_writes; set_solver|]. intros o5.
    apply writes_bind; [apply record_batch_writes; set_solver|done].
  - unfold finish_batch in Hr. do 6 (apply run_bind_inv in Hr as (? & ? & _ & Hr)). by injection Hr as <- <-.
Qed.

Section batch.
Context (max_key : nat) (cat : Catalog) (dump : Json -> string) (rec : Recorder) (cfg : Config) (te : TableDef) (uidx : IndexDef).
Context (Hpt : punch_table cat te uidx) (release : string) (fuel : nat) (device : Device) (batch : IncomingBatch) (now_us : Z).

(** What is true of the file and the answer once a batch is applied. *)
Record batch_applied (d d' : Data) (out : SyncOutcome) : Prop := {
  ba_added : exists zone divergence, added device batch now_us zone release divergence (ib_entries batch) d d';
  ba_outcomes : map (fun o => (oc_entry_uuid o, oc_journal_sequence o)) (so_outcomes out)
    ≡ₚ map (fun i => (in_entry_uuid i, in_journal_sequence i)) (ib_entries batch);
  ba_acked seq : seq ∈ so_acked_sequences out <-> exists o, o ∈ so_outcomes out /\ oc_journal_sequence o = seq /\ oc_accepted o = true;
  ba_on_file o : o ∈ so_outcomes out -> oc_accepted o = true -> vouched d' (dev_id device) (so_outcomes out) (oc_entry_uuid o)
}.
(** A batch that is applied, as the run of its loop between changes of other
    tables. *)
Lemma batch_loop d d' out : run max_key cat (apply_batch dump rec cfg release fuel device batch now_us) d = (Ret out, d') ->
  exists zone divergence opened l b d0 d1, l ≡ₚ ib_entries batch /\ entries_in d0 = entries_in d /\ entries_in d' = entries_in d1
    /\ run max_key cat (apply_entries dump rec device batch now_us zone release divergence l (no_entries opened)) d0 = (Ret b, d1)
    /\ so_outcomes out = b_outcomes b /\ so_acked_sequences out = sorted_ids (b_acked b).
Proof.
  intros Hr. unfold apply_batch in Hr. destruct (_ <? _); [done|].
  apply run_bind_inv in Hr as (seen & d1 & H1 & Hr). assert (d1 = d) as -> by (eapply reads_run; [|exact H1]; apply first_writes).
  apply run_bind_inv in Hr as (emp & d1 & H2 & Hr). assert (d1 = d) as -> by (eapply reads_run; [|exact H2]; apply by_pk_writes). destruct emp as [emp|]; [|done].
  cbv zeta in Hr. apply run_bind_inv in Hr as ([divergence opened] & d0 & H3 & Hr).
  assert (Hs0 : same_but pairing_tables d d0) by (eapply run_writes; [|exact H3]; apply clock_writes; set_solver).
  apply run_bind_inv in Hr as (b & d1 & H4 & Hr). apply run_bind_inv in Hr as (o1 & d2 & H5 & Hr).
  assert (Hs1 : same_but pairing_tables d1 d2).
  { eapply run_writes; [|exact H5]. destruct (b_earliest_new b =? 0); [exact I|]. eapply writes_weaken; [|apply repair_writes]. set_solver. }
  apply finish_effect in Hr as (Hs2 & Eo & Ea). exists (emp_site_zone emp), divergence, opened, (merge_sort by_sequence (ib_entries batch)), b, d0, d1.
  split_and!; [apply merge_sort_Permutation|apply Hs0; set_solver|rewrite Hs2, Hs1; [done|set_solver..]|exact H4|exact Eo|exact Ea].
Qed.
Lemma batch_effect d d' out : rows_ok te (entries_in d') -> Forall (fun i => value_ok (Uuid (in_entry_uuid i))) (ib_entries batch) ->
  run max_key cat (apply_batch dump rec cfg release fuel device batch now_us) d = (Ret out, d') -> batch_applied d d' out.
Proof.
  intros Hok Hu (zone & divergence & opened & l & b & d0 & d1 & Hl & Hd0 & Hsame & Hr & Eo & Ea)%batch_loop. rewrite Hsame in Hok.
  destruct (steps_effect max_key cat dump rec te uidx Hpt device batch now_us zone release divergence l (no_entries opened) b d0 d1) as (Hadd & Hac & _ & Em);
    [exact Hok|by rewrite Hl| |exact Hr|].
  { constructor; cbn; [set_solver|constructor|done]. }
  constructor; rewrite ?Eo, ?Ea.
  - exists zone, divergence. eapply added_weaken; [|unfold added; rewrite Hsame, <- Hd0; exact Hadd]. intros i. by rewrite Hl.
  - rewrite Em. cbn. by rewrite Hl.
  - intros seq. rewrite sorted_ids_elem, (ac_sequences _ _ _ Hac), list_elem_of_fmap. setoid_rewrite list_elem_of_In. setoid_rewrite List.filter_In.
    split; [intros (o & -> & Ho & Ha)|intros (o & Ho & <- & Ha)]; by exists o.
  - intros o Ho Ha. pose proof (ac_acked _ _ _ Hac) as Hall. rewrite Forall_forall in Hall.
    unfold vouched, elsewhere, on_file. rewrite Hsame. by apply Hall.
Qed.
Lemma foreign_effect u d d' out : rows_ok te (entries_in d') -> Forall (fun i => value_ok (Uuid (in_entry_uuid i))) (ib_entries batch) ->
  elsewhere d (dev_id device) u -> ~ on_file d (dev_id device) u ->
  run max_key cat (apply_batch dump rec cfg release fuel device batch now_us) d = (Ret out, d') ->
  ~ on_file d' (dev_id device) u /\ verdicts u (so_outcomes out) = first_refused false (repeats u (ib_entries batch)).
Proof.
  intros Hok Hu He Hn (zone & divergence & opened & l & b & d0 & d1 & Hl & Hd0 & Hsame & Hr & Eo & Ea)%batch_loop. rewrite Hsame in Hok.
  destruct (foreign_steps max_key cat dump rec te uidx Hpt device batch now_us zone release divergence u l (no_entries opened) b d0 d1) as [[_ Hf] Hv];
    [exact Hok|by rewrite Hl|unfold foreign, elsewhere, on_file; by rewrite Hd0|exact Hr|].
  split; [unfold on_file; by rewrite Hsame|]. rewrite Eo, Hv. change (verdicts u (b_outcomes (no_entries opened))) with (@nil bool). cbn [app].
  rewrite bool_decide_eq_false_2 by (cbn; set_solver). f_equal. unfold repeats. apply Permutation_length. by apply filter_perm.
Qed.
End batch.

(** * Replays *)

Section replay.
Context (max_key : nat) (cat : Catalog) (dump : Json -> string) (rec : Recorder) (cfg : Config) (te : TableDef) (uidx : IndexDef).
Context (Hpt : punch_table cat te uidx) (device : Device) (batch : IncomingBatch) (now_us : Z) (release : string) (d : Data).
Context (Hok : rows_ok te (entries_in d)).
(** No two entries have the same uuid, as the unique index has it. *)
Definition uuids_unique : Prop := forall k1 k2 r1 r2, entries_in d !! k1 = Some r1 -> entries_in d !! k2 = Some r2 -> at_ r1 1 = at_ r2 1 -> k1 = k2.
Context (Huniq : uuids_unique).

Lemma replayed_entry zone divergence i b : value_ok (Uuid (in_entry_uuid i)) -> on_file d (dev_id device) (in_entry_uuid i) ->
  exists b', run max_key cat (apply_entry dump rec device batch now_us zone release divergence i b) d = (Ret b', d)
    /\ b_earliest_new b' = b_earliest_new b /\ b_outcomes b' = b_outcomes b ++ [mkOutcome (in_entry_uuid i) (in_journal_sequence i) true ""].
Proof.
  intros Hu (k & r & Hk & Eu & Ed). unfold apply_entry. cbv zeta. set (b0 := claim_zone zone i b).
  assert (Hb0 : b_outcomes b0 = b_outcomes b /\ b_earliest_new b0 = b_earliest_new b) by (unfold b0, claim_zone; by destruct (String.eqb _ _)).
  destruct Hb0 as [<- <-]. clearbody b0. case_bool_decide; [by eexists|]. rewrite run_bind.
  destruct (run max_key cat (entry_by_uuid (in_entry_uuid i)) d) as [[o|e] d1] eqn:Ef.
  2: { unfold entry_by_uuid, first in Ef. rewrite run_bind, (run_scan_eq max_key cat _ _ te uidx) in Ef by apply Hpt. done. }
  apply (uuid_found max_key cat te uidx Hpt) in Ef as [-> Hf]; [|done|done]. destruct o as [e|]; [|by destruct (Hf k r Hk)].
  destruct Hf as (k' & r' & Hk' & Eu' & Ed'). assert (k' = k) as -> by (eapply Huniq; [done|done|congruence]). assert (te_device_id e = dev_id device) as -> by congruence.
  rewrite Z.eqb_refl. by eexists.
Qed.
Lemma replayed_entries zone divergence l : Forall (fun i => value_ok (Uuid (in_entry_uuid i)) /\ on_file d (dev_id device) (in_entry_uuid i)) l -> forall b,
  exists b', run max_key cat (apply_entries dump rec device batch now_us zone release divergence l b) d = (Ret b', d)
    /\ b_earliest_new b' = b_earliest_new b
    /\ b_outcomes b' = b_outcomes b ++ map (fun i => mkOutcome (in_entry_uuid i) (in_journal_sequence i) true "") l.
Proof.
  induction 1 as [|i l [Hu Hf] _ IH]; intros b; cbn [apply_entries map]; [exists b; by rewrite app_nil_r|].
  destruct (replayed_entry zone divergence i b Hu Hf) as (b1 & E1 & Hn1 & Ho1). destruct (IH b1) as (b2 & E2 & Hn2 & Ho2). exists b2. rewrite run_bind, E1, E2, Hn2, Ho2, Hn1, Ho1.
  by rewrite <- app_assoc.
Qed.

End replay.

Lemma rows_same te d d' : same_but replay_tables d d' -> rows_ok te (entries_in d) -> rows_ok te (entries_in d') /\ (uuids_unique d -> uuids_unique d')
  /\ (forall dev u, on_file d dev u -> on_file d' dev u).
Proof.
  intros Hs. assert (E : entries_in d' = entries_in d) by (apply Hs; set_solver). unfold uuids_unique, on_file. by rewrite E.
Qed.
Lemma replay_effect max_key cat dump rec cfg te uidx release fuel device batch now_us d d' out : punch_table cat te uidx ->
  rows_ok te (entries_in d) -> uuids_unique d ->
  Forall (fun i => value_ok (Uuid (in_entry_uuid i)) /\ on_file d (dev_id device) (in_entry_uuid i)) (ib_entries batch) ->
  run max_key cat (apply_batch dump rec cfg release fuel device batch now_us) d = (Ret out, d') ->
  same_but replay_tables d d' /\ Forall (fun o => oc_accepted o = true) (so_outcomes out).
Proof.
  intros Hpt Hok Huniq Hfile Hr. unfold apply_batch in Hr. destruct (_ <? _); [done|].
  apply run_bind_inv in Hr as (seen & d1 & H1 & Hr). assert (d1 = d) as -> by (eapply reads_run; [|exact H1]; apply first_writes).
  apply run_bind_inv in Hr as (emp & d1 & H2 & Hr). assert (d1 = d) as -> by (eapply reads_run; [|exact H2]; apply by_pk_writes). destruct emp as [emp|]; [|done].
  cbv zeta in Hr. apply run_bind_inv in Hr as ([divergence opened] & d0 & H3 & Hr).
  assert (Hs0 : same_but replay_tables d d0) by (eapply run_writes; [|exact H3]; apply clock_writes; set_solver).
  destruct (rows_same te d d0 Hs0 Hok) as (Hok0 & Huniq0 & Hfile0).
  apply run_bind_inv in Hr as (b & d1 & H4 & Hr).
  destruct (replayed_entries max_key cat dump rec te uidx Hpt device batch now_us release d0 Hok0 (Huniq0 Huniq) (emp_site_zone emp) divergence
    (merge_sort by_sequence (ib_entries batch))) with (b := no_entries opened) as (b1 & E1 & Hn & Ho).
  { rewrite merge_sort_Permutation. eapply Forall_impl; [exact Hfile|]. intros i [? ?]. split; [done|by apply Hfile0]. }
  rewrite E1 in H4. injection H4 as <- <-. rewrite Hn in Hr. cbn [b_earliest_new no_entries Z.eqb] in Hr.
  apply run_bind_inv in Hr as (o1 & d2 & H5 & Hr). injection H5 as <- <-.
  apply finish_effect in Hr as (Hs & Eo & _). split; [by eapply same_but_trans|]. rewrite Eo, Ho. cbn [b_outcomes no_entries app].
  apply Forall_forall. intros o Hin. by apply list_elem_of_fmap in Hin as (i & -> & _).
Qed.
