(* ===== verification/PunchSyncSpec.v ===== *)
(** Sync on the installed tables: what a batch does to the punches on file,
    replays, and the uuid of another device. *)

From stdpp Require Import base numbers list gmap strings sorting.
From S2P Require Import Prelude Bytes PageFormat Types Record LocalTime StoreSchema BTreeNode BTree Store Grove StoreRep StoreSpec StoreReads StoreRefine.
From S2P Require Import CoreSchema Program Recorder PunchSchema PunchInstall PunchData PunchRules PunchPayroll PunchSync PunchFrames PunchRows PunchScan PunchTables PunchExample PunchIngest.
From stdpp Require Import list.
Open Scope Z_scope.
Open Scope prog_scope.

Lemma punches_here : punch_table installed_catalog (tbl "time_entries") (idx_of "time_entries" "time_entries_uuid").
Proof.
  constructor; [by_eval|by_eval|intros u; split_and!; by_eval|apply index_of_table; by_eval|by_eval|intros r; by_eval|by_eval|intros r; by_eval|].
  split_and!; [exists 3%nat|..]; by_eval.
Qed.

(** A batch applied by the code, from one state of the tables to another. *)
Definition applies (max_key : nat) (dump : Json -> string) (rec : Recorder) (cfg : Config) (release : string) (fuel : nat) (device : Device)
    (batch : IncomingBatch) (now_us : Z) (d : Data) (out : SyncOutcome) (d' : Data) : Prop :=
  run max_key installed_catalog (apply_batch dump rec cfg release fuel device batch now_us) d = (Ret out, d').

(** [C17] A batch that is applied loses no punch, and what it acknowledges is on
    file for the device, with one exception.  No entry that was on file is
    changed or removed; each entry that is added is one of the batch, recorded
    as the device's and its employee's with the server's zone and release; the
    answer has one outcome per entry; the acknowledged sequences are those of
    the accepted outcomes; and an entry that was accepted is on file for the
    device, unless its uuid is on file for another device and the same batch
    has also refused it: a repetition within the batch, as
    [refused_uuid_acknowledged] shows. *)
Theorem batch_keeps_punches max_key dump rec cfg release fuel device batch now_us d out d' :
  rows_ok (tbl "time_entries") (entries_in d') -> Forall (fun i => value_ok (Uuid (in_entry_uuid i))) (ib_entries batch) ->
  applies max_key dump rec cfg release fuel device batch now_us d out d' -> batch_applied release device batch now_us d d' out.
Proof. intros Hok Hu Hr. exact (batch_effect max_key installed_catalog dump rec cfg _ _ punches_here release fuel device batch now_us d d' out Hok Hu Hr). Qed.

(** [C20] A replay stores nothing.  When every entry of a batch is on file for
    the device and no two entries on file share a uuid, a batch that is applied
    accepts every entry again and changes no table but the exceptions, the
    device's acknowledgement, the record of the batch and the change feed: no
    punch, no shift, no hold. *)
Theorem replay_stores_nothing max_key dump rec cfg release fuel device batch now_us d out d' :
  rows_ok (tbl "time_entries") (entries_in d) -> uuids_unique d ->
  Forall (fun i => value_ok (Uuid (in_entry_uuid i)) /\ on_file d (dev_id device) (in_entry_uuid i)) (ib_entries batch) ->
  applies max_key dump rec cfg release fuel device batch now_us d out d' ->
  same_but replay_tables d d' /\ Forall (fun o => oc_accepted o = true) (so_outcomes out).
Proof.
  intros Hok Hu Hf Hr. exact (replay_effect max_key installed_catalog dump rec cfg _ _ release fuel device batch now_us d d' out punches_here Hok Hu Hf Hr).
Qed.

(** * Examples *)

Definition sample_punch (n seq at_us : Z) (kind local : string) : IncomingEntry := mkIncoming (replicate 16 n) seq kind at_us local "" "" "" "" "".
Definition sample_batch (n : Z) (l : list IncomingEntry) : IncomingBatch := mkBatch (replicate 16 n) (replicate 16 9) 0 l [].
Definition sync (device : Device) (b : IncomingBatch) (d : Data) : Result SyncOutcome * Data :=
  run 300 installed_catalog (apply_batch sample_dump sample_recorder default_config "2024a" 5 device b 3000000000) d.

Definition out_first : IncomingBatch := sample_batch 1 [sample_punch 21 1 2000000000 "out" "1970-04-11T17:00:00"].
Definition in_later : IncomingBatch := sample_batch 2 [sample_punch 22 2 1000000000 "in" "1970-04-11T08:00:00"].
Definition first_sync : Data := snd (sync sample_device out_first sample).
Definition accepted_one (n seq : Z) (replayed : bool) (opened : list Z) (last : Z) : SyncOutcome :=
  mkSyncOutcome [mkOutcome (replicate 16 n) seq true ""] [seq] last 1 0 replayed None opened.
Lemma first_synced : applies 300 sample_dump sample_recorder default_config "2024a" 5 sample_device out_first 3000000000 sample (accepted_one 21 1 false [1] 1) first_sync.
Proof. unfold applies, first_sync, sync. rewrite (surjective_pairing (run 300 installed_catalog _ sample)) at 1. by f_equal. Qed.
Definition first_entry : TimeEntry := new_entry sample_device out_first 3000000000 "America/New_York" "2024a" None (sample_punch 21 1 2000000000 "out" "1970-04-11T17:00:00") 1 1.
Lemma first_entries : entries_in first_sync = {[ pk_key_of (tbl "time_entries") (to_row first_entry) := to_row first_entry ]}.
Proof. by_eval. Qed.
Lemma first_entries_ok : rows_ok (tbl "time_entries") (entries_in first_sync).
Proof. rewrite first_entries. apply map_Forall_singleton. split; [reflexivity|]. apply validated; [by_eval|decide_now]. Qed.

Lemma batch_keeps_punches_witness : on_file first_sync 1 (replicate 16 21).
Proof.
  assert (H : batch_applied "2024a" sample_device out_first 3000000000 sample first_sync (accepted_one 21 1 false [1] 1)).
  { apply (batch_keeps_punches 300 sample_dump sample_recorder default_config "2024a" 5).
    - exact first_entries_ok.
    - apply Forall_singleton. decide_now.
    - exact first_synced. }
  destruct (ba_on_file _ _ _ _ _ _ _ H (mkOutcome (replicate 16 21) 1 true "")) as [Hf|[_ Hr]]; [by left|reflexivity|exact Hf|].
  apply Exists_exists in Hr as (o & Ho & _ & Ha). apply list_elem_of_singleton in Ho as ->. discriminate Ha.
Defined.

Definition second_sync : Data := snd (sync sample_device out_first first_sync).
Lemma second_synced : applies 300 sample_dump sample_recorder default_config "2024a" 5 sample_device out_first 3000000000 first_sync (accepted_one 21 1 true [] 1) second_sync.
Proof. unfold applies, second_sync, sync. rewrite (surjective_pairing (run 300 installed_catalog _ first_sync)) at 1. by f_equal. Qed.
Lemma replay_stores_nothing_witness :
  entries_in second_sync = entries_in first_sync /\ rows_of second_sync "shifts" = rows_of first_sync "shifts".
Proof.
  enough (H : same_but replay_tables first_sync second_sync) by (split; apply H; decide_now).
  apply (replay_stores_nothing 300 sample_dump sample_recorder default_config "2024a" 5 sample_device out_first 3000000000 first_sync (accepted_one 21 1 true [] 1)).
  - exact first_entries_ok.
  - intros k1 k2 r1 r2 H1 H2 _. rewrite first_entries in H1, H2. apply lookup_singleton_Some in H1 as [<- _]. apply lookup_singleton_Some in H2 as [<- _]. reflexivity.
  - apply Forall_singleton. split; [decide_now|]. exists (pk_key_of (tbl "time_entries") (to_row first_entry)), (to_row first_entry). rewrite first_entries.
    split_and!; [apply lookup_singleton_eq|reflexivity|reflexivity].
  - exact second_synced.
Defined.

(** * The uuid of another device *)

Definition pairs_on_file (d : Data) : list (Z * Z) := map (fun x => (sh_in_entry_id (from_row (snd x)), sh_out_entry_id (from_row (snd x)))) (map_to_list (rows_of d "shifts")).


