(* ===== verification/PunchFlags.v ===== *)
(** What the pairing leaves in the exception queue.

    [repair_pairing] resolves with keys that have no device, and a key matches
    only exceptions with its device: so no exception that names a device is
    resolved by pairing ([unpaired_stays_open]), although the pairing itself
    opens [unpaired_punch] with the device of the punch. *)

From stdpp Require Import base numbers list gmap strings sorting.
From S2P Require Import Prelude Bytes PageFormat Types Record LocalTime StoreSchema BTreeNode BTree Store Grove StoreRep StoreSpec StoreReads StoreRefine.
From S2P Require Import CoreSchema Program Recorder PunchSchema PunchInstall PunchData PunchRules PunchPayroll PunchSync PunchFrames PunchRows PunchScan PunchTables PunchExample PunchIngest PunchSyncSpec.
From stdpp Require Import list.
Open Scope Z_scope.
Open Scope prog_scope.

(** The table of exceptions, as its scans use it. *)
Record queue_table (cat : Catalog) (t : TableDef) (idx : IndexDef) : Prop := {
  qt_scan : scan_ready cat "exceptions" "exceptions_state" t idx [text "open"];
  qt_name : td_name t = "exceptions";
  qt_key r : pk_key_of t r = encode_key [at_ r 0]
}.
#[local] Notation queue d := (rows_of d "exceptions").
#[local] Notation exc r := (from_row r : Exception).

Section flags.
Context (max_key : nat) (cat : Catalog) (dump : Json -> string) (rec : Recorder) (cfg : Config) (t : TableDef) (idx : IndexDef).
Context (Hqt : queue_table cat t idx).

(** Rows are under the keys of their identifiers. *)
Definition keyed (d : Data) : Prop := map_Forall (fun k r => k = encode_key [Integer (ex_id (exc r))]) (queue d).
Definition flags_kept (d d' : Data) : Prop := forall k r, queue d !! k = Some r -> ex_device_id (exc r) <> 0 -> queue d' !! k = Some r.
(** A step that leaves the exceptions that name a device as they are. *)
Definition spares {A} (p : Prog A) : Prop := forall d a d', keyed d -> run max_key cat p d = (Ret a, d') -> keyed d' /\ flags_kept d d'.

Lemma kept_refl d : flags_kept d d.
Proof. by intros k r. Qed.
#[local] Hint Resolve kept_refl : core.
Lemma spares_bind {A B} (p : Prog A) (f : A -> Prog B) : spares p -> (forall a, spares (f a)) -> spares (pbind p f).
Proof.
  intros Hp Hf d b d' Hk Hr. apply run_bind_inv in Hr as (a & d1 & H1 & Hr). destruct (Hp _ _ _ Hk H1) as [Hk1 Hs1]. destruct (Hf a _ _ _ Hk1 Hr) as [Hk2 Hs2].
  split; [done|]. intros k r Hr0 Hd. by apply Hs2, Hd; apply Hs1.
Qed.
Lemma spares_writes {A} names (p : Prog A) : writes_only names p -> "exceptions" ∉ names -> spares p.
Proof.
  intros Hw Hn d a d' Hk Hr. pose proof (run_writes max_key cat names p d a d' Hw Hr "exceptions" Hn) as E. unfold keyed, flags_kept. by rewrite E.
Qed.
Lemma spares_for {A} (l : list A) (f : A -> Prog unit) : (forall x, spares (f x)) -> spares (pfor l f).
Proof. intros Hf. induction l as [|x l IH]; cbn [pfor]; [apply (spares_writes []); [done|set_solver]|]. by apply spares_bind. Qed.

Lemma open_where_rows p d l d' : run max_key cat (open_where p) d = (Ret l, d') -> d' = d /\ forall x, x ∈ l -> p x = true /\ exists k r, queue d !! k = Some r /\ x = exc r.
Proof.
  unfold open_where. rewrite (run_scan max_key cat _ _ _ _ _ _ _ _ (qt_scan _ _ _ Hqt)), (fold_collect p from_row). intros [= <- <-]. split; [done|].
  intros x Hx. apply list_elem_of_In, filter_In in Hx as [Hx Hp]. split; [done|]. apply list_elem_of_In, list_elem_of_fmap in Hx as (r & -> & Hr).
  apply visited_elem in Hr as (k & Hk & _). by exists k, r.
Qed.
Lemma opening_spares key detail now_us opened : spares (opening dump rec key detail now_us opened).
Proof.
  apply spares_bind; [|intros o; apply (spares_writes []); [done|set_solver]]. intros d a d' Hk Hr. unfold open_exception, open_matching in Hr.
  apply run_bind_inv in Hr as (l & d1 & Hl & Hr). apply open_where_rows in Hl as [-> _]. destruct l as [|x l]; [|injection Hr as _ <-; by split].
  apply run_bind_inv in Hr as (id & d1 & Hid & Hr). assert (d1 = d) as -> by (eapply reads_run; [apply next_id_writes|exact Hid]).
  apply run_bind_inv in Hr as ([] & d1 & Hi & Hr). injection Hr as _ <-. apply rec_insert_effect in Hi as (t' & Ht' & Hins & Hrows & _); [|done].
  destruct (qt_scan _ _ _ Hqt) as (Ht & _). assert (t' = t) as -> by congruence. apply insert_allowed_fresh in Hins. rewrite (qt_name _ _ _ Hqt) in Hins.
  unfold keyed, flags_kept. rewrite Hrows. split.
  - apply map_Forall_insert_2; [by rewrite (qt_key _ _ _ Hqt)|exact Hk].
  - intros k r Hr _. rewrite lookup_insert_ne; [done|]. intros <-. congruence.
Qed.

Lemma closed_device e st by_ now_us audit : ex_device_id (exc (to_row (closed e st by_ now_us audit))) = ex_device_id e.
Proof. cbn. unfold opt_id. by destruct (Z.eqb_spec (ex_device_id e) 0) as [->|]. Qed.
Lemma exception_read id d o d' : run max_key cat (exception_by_id id) d = (Ret o, d') ->
  d' = d /\ o = (from_row <$> queue d !! encode_key [Integer id]).
Proof.
  intros Hg. split; [eapply reads_run; [|exact Hg]; apply by_pk_writes|]. unfold exception_by_id, by_pk in Hg.
  apply run_bind_inv in Hg as (row & d1 & Hg & E). injection E as <- _. f_equal. unfold pget in Hg. cbn [run] in Hg. injection Hg as Hg _. unfold spec_get in Hg.
  destruct (qt_scan _ _ _ Hqt) as (Ht & _). rewrite Ht in Hg. destruct (negb _); [done|]. destruct (primary_key_ok _ _ _) as [[]|]; [|done]. by injection Hg.
Qed.
Lemma close_exception_effect id st by_ now_us d a d' : keyed d -> run max_key cat (close_exception dump rec id st by_ now_us) d = (Ret a, d') ->
  keyed d' /\ (forall k, k <> encode_key [Integer id] -> queue d' !! k = queue d !! k)
  /\ is_Some (queue d !! encode_key [Integer id])
  /\ forall r r', queue d !! encode_key [Integer id] = Some r -> queue d' !! encode_key [Integer id] = Some r' -> ex_device_id (exc r') = ex_device_id (exc r).
Proof.
  intros Hk Hr. unfold close_exception in Hr. apply run_bind_inv in Hr as (o & d1 & Hg & Hr). apply exception_read in Hg as [-> ->].
  destruct (queue d !! encode_key [Integer id]) as [r|] eqn:Hr0; [|done]. cbn [fmap option_fmap option_map] in Hr. pose proof (Hk _ _ Hr0) as Ek. cbn beta in Ek.
  destruct (negb _); [done|]. destruct a. apply rec_update_effect in Hr as (t' & old & Ht' & _ & Hold & Hrows & _); [|done].
  destruct (qt_scan _ _ _ Hqt) as (Ht & _). assert (t' = t) as -> by congruence. clear Hold.
  assert (Epk : pk_key_of t (to_row (closed (exc r) st by_ now_us (audit_id rec))) = encode_key [Integer id]) by (rewrite (qt_key _ _ _ Hqt); symmetry; exact Ek).
  unfold keyed. destruct Hrows as [Hrows|[_ Hrows]]; rewrite Hrows; [|split_and!; [exact Hk|done|by exists r|congruence]]. rewrite Epk. split_and!.
  - apply map_Forall_insert_2; [exact Ek|exact Hk].
  - intros k Hne. by rewrite lookup_insert_ne.
  - by exists r.
  - intros r1 r2 H1 H2. rewrite lookup_insert_eq in H2. injection H1 as <-. injection H2 as <-. apply closed_device.
Qed.
(** Closing exceptions without a device. *)
Lemma closes_spare st by_ now_us l : forall d a d', keyed d ->
  Forall (fun x => forall r, queue d !! encode_key [Integer (ex_id x)] = Some r -> ex_device_id (exc r) = 0) l ->
  run max_key cat (pfor l (fun x => close_exception dump rec (ex_id x) st by_ now_us)) d = (Ret a, d') -> keyed d' /\ flags_kept d d'.
Proof.
  induction l as [|x l IH]; intros d a d' Hk Hl Hr; cbn [pfor] in Hr; [injection Hr as _ <-; by split|].
  apply run_bind_inv in Hr as (u & d1 & H1 & Hr). destruct (close_exception_effect _ _ _ _ _ _ _ Hk H1) as (Hk1 & Hoth & [r0 Hr0] & Hsame). apply Forall_cons in Hl as [Hx Hl].
  destruct (IH d1 a d' Hk1) as [Hk2 Hs2]; [|exact Hr|].
  - eapply Forall_impl; [exact Hl|]. cbn beta. intros y Hy r Hr1. destruct (decide (encode_key [Integer (ex_id y)] = encode_key [Integer (ex_id x)])) as [E|Hne].
    + rewrite E in Hy, Hr1. rewrite (Hsame r0 r); [by apply Hy|done|done].
    + rewrite Hoth in Hr1 by done. by apply Hy.
  - split; [done|]. intros k r Hkr Hd. apply Hs2; [|done]. rewrite Hoth; [done|]. intros ->. by apply Hd, Hx.
Qed.
Lemma resolve_spares key by_ now_us : xk_device_id key = 0 -> spares (resolve_matching dump rec key by_ now_us).
Proof.
  intros Hkey d a d' Hk Hr. unfold resolve_matching, open_matching in Hr. apply run_bind_inv in Hr as (l & d1 & Hl & Hr). apply open_where_rows in Hl as [-> Hl].
  apply run_bind_inv in Hr as (u & d1 & Hc & Hr). injection Hr as _ <-. eapply closes_spare; [exact Hk| |exact Hc]. apply Forall_forall. intros x Hx r Hr.
  destruct (Hl x Hx) as (Hm & k & r0 & Hr0 & ->). rewrite <- (Hk _ _ Hr0) in Hr. assert (r = r0) as -> by congruence. unfold key_matches in Hm.
  destruct (_ && _); [done|]. rewrite !andb_true_iff, !Z.eqb_eq in Hm. rewrite <- Hkey. apply Hm.
Qed.

(** ** Pairing *)

Context (employee now_us : Z).
Lemma flag_spares e why opened : spares (flag_unpaired dump rec employee now_us e why opened).
Proof. apply opening_spares. Qed.
Lemma resolve_pairing_spares kind entry : spares (resolve_pairing dump rec employee now_us kind entry).
Proof. apply spares_bind; [by apply resolve_spares|]. intros n. by apply (spares_writes []); [|set_solver]. Qed.
Lemma quiet_spares {A} (p : Prog A) : writes_only [] p -> spares p.
Proof. intros Hp. apply (spares_writes [] p Hp). set_solver. Qed.
Lemma remove_shift_spares s : spares (remove_shift dump rec employee now_us s).
Proof.
  apply spares_bind.
  - apply spares_for. intros kind. apply spares_for. intros entry. destruct (entry =? 0); [by apply quiet_spares|apply resolve_pairing_spares].
  - intros _. apply (spares_writes ["shifts"; "shift_annotations"; kChangeFeed]); [|set_solver].
    apply writes_bind; [apply remove_annotations_writes; set_solver|]. intros _. apply rec_remove_writes; set_solver.
Qed.
Lemma persist_spares i open opened : spares (persist_open dump rec cfg employee now_us i open opened).
Proof.
  destruct open as [[s open_in]|]; [|by apply quiet_spares]. apply spares_bind; [apply quiet_spares, next_id_writes|]. intros id.
  apply spares_bind; [apply (spares_writes ["shifts"; kChangeFeed]); [apply rec_insert_writes|]; set_solver|]. intros _. cbv zeta.
  destruct (_ || _); [apply flag_spares|by apply quiet_spares].
Qed.
Lemma check_schedule_spares in_ out opened : spares (check_schedule dump rec cfg in_ out now_us opened).
Proof.
  unfold check_schedule. destruct (parse_local_time _); [|by apply quiet_spares]. destruct (parse_local_time _); [|by apply quiet_spares].
  apply spares_bind; [apply quiet_spares, all_writes|]. intros scheds. cbv zeta. destruct (List.filter _ scheds); [apply opening_spares|].
  destruct (last_where _ _); [|apply opening_spares]. destruct (_ || _); [apply opening_spares|by apply quiet_spares].
Qed.
Lemma close_shift_spares s open_in e opened : spares (close_shift dump rec cfg employee now_us s open_in e opened).
Proof.
  unfold close_shift. cbv zeta. apply spares_bind; [apply quiet_spares, next_id_writes|]. intros id.
  apply spares_bind; [apply (spares_writes ["shifts"; kChangeFeed]); [apply rec_insert_writes|]; set_solver|]. intros _.
  apply spares_bind; [destruct (_ <=? _); [apply opening_spares|by apply quiet_spares]|]. intros o1. apply spares_bind; [apply check_schedule_spares|]. intros o2.
  apply spares_bind; [|intros _; by apply quiet_spares]. apply (spares_writes ["shift_annotations"; kChangeFeed]); [apply record_annotations_writes|]; set_solver.
Qed.
Lemma pair_punch_spares e open opened : spares (pair_punch dump rec cfg employee now_us e open opened).
Proof.
  unfold pair_punch. destruct (String.eqb _ _); [apply spares_bind; [apply persist_spares|intros o; by apply quiet_spares]|].
  destruct open as [[s open_in]|]; [|apply spares_bind; [apply flag_spares|intros o; by apply quiet_spares]].
  destruct (pair_out s e); [apply spares_bind; [apply close_shift_spares|intros o; by apply quiet_spares]|].
  destruct (negb _); [apply spares_bind; [apply flag_spares|intros o; by apply quiet_spares]|].
  apply spares_bind; [apply persist_spares|]. intros o1. apply spares_bind; [apply flag_spares|intros o; by apply quiet_spares].
Qed.
Lemma pair_punches_spares l : forall open opened, spares (pair_punches dump rec cfg employee now_us l open opened).
Proof. induction l as [|e l IH]; intros open opened; [by apply quiet_spares|]. apply spares_bind; [apply pair_punch_spares|]. intros [o p]. apply IH. Qed.
Lemma repair_spares fuel from opened : spares (repair_pairing dump rec cfg employee now_us fuel from opened).
Proof.
  unfold repair_pairing. apply spares_bind; [apply quiet_spares, rebuild_range_writes|]. intros [start affected].
  apply spares_bind; [apply spares_for; intros s; apply remove_shift_spares|]. intros _. apply spares_bind; [apply quiet_spares, current_entries_writes|]. intros l. cbv zeta.
  apply spares_bind; [apply spares_for; intros e; apply resolve_pairing_spares|]. intros _.
  apply spares_bind; [apply spares_bind; [apply pair_punches_spares|intros [open o]; apply persist_spares]|]. intros o2.
  apply (spares_writes ["meal_breaks"; "timesheet_holds"; kChangeFeed]); [|set_solver].
  apply writes_bind; [apply rebuild_meals_writes; set_solver|]. intros _. apply writes_bind; [|done]. apply writes_for. intros p. apply evaluate_hold_writes; set_solver.
Qed.
End flags.

(** * The installed table *)

Lemma queue_here : queue_table installed_catalog (tbl "exceptions") (idx_of "exceptions" "exceptions_state").
Proof. constructor; [split_and!; by_eval|by_eval|]. intros r. unfold pk_key_of. f_equal; by_eval. Qed.

(** [C35] Pairing resolves no exception that names a device.  When
    [repair_pairing] succeeds, every row of the exception queue that has a
    device is as it was, whatever its kind and whatever was paired.  (The key
    of [flag_unpaired] has the device of the punch, so this holds of the flags
    of device punches; the witness is one whose punch was paired.) *)
Theorem unpaired_stays_open max_key dump rec cfg employee now_us fuel from opened o d d' :
  rows_ok (tbl "exceptions") (queue d) ->
  run max_key installed_catalog (repair_pairing dump rec cfg employee now_us fuel from opened) d = (Ret o, d') ->
  forall k r, queue d !! k = Some r -> ex_device_id (exc r) <> 0 -> queue d' !! k = Some r.
Proof.
  intros Hok Hr. eapply (repair_spares max_key installed_catalog dump rec cfg _ _ queue_here employee now_us fuel from opened); [|exact Hr].
  intros k r Hk. destruct (Hok k r Hk) as [-> Hg].
  destruct (integer_field (tbl "exceptions") r "id" Hg) as (i & Ei & _); [exists 0%nat; by_eval|by_eval|by_eval|]. rewrite (qt_key _ _ _ queue_here).
  replace (field (tbl "exceptions") r "id") with (at_ r 0) in Ei by by_eval. cbn. by rewrite Ei.
Qed.

(** The out punch of [first_sync] is flagged; when its in punch is on file and
    the two are paired, the flag is still there. *)
Definition flag_row : Row := to_row (mkException 1 "unpaired_punch" "open" 1 1 1 0 "out punch without an in punch" 3000000000 0 "" 0).
Definition in_entry : TimeEntry := new_entry sample_device in_later 3000000000 "America/New_York" "2024a" None (sample_punch 22 2 1000000000 "in" "1970-04-11T08:00:00") 2 1.
Definition both_punches : Data := snd (run 300 installed_catalog (pwrite (RInsert "time_entries" (to_row in_entry))) first_sync).
Definition repaired : Data := snd (run 300 installed_catalog (repair_pairing sample_dump sample_recorder default_config 1 3000000000 5 1000000000 []) both_punches).
Lemma repair_runs : run 300 installed_catalog (repair_pairing sample_dump sample_recorder default_config 1 3000000000 5 1000000000 []) both_punches = (Ret [2], repaired).
Proof. unfold repaired. rewrite (surjective_pairing (run 300 installed_catalog _ both_punches)) at 1. by f_equal. Qed.
Lemma flagged_queue : queue both_punches = {[ encode_key [Integer 1] := flag_row ]}.
Proof. by_eval. Qed.
Lemma unpaired_stays_open_witness :
  pairs_on_file repaired = [(2, 1)] /\ queue repaired !! encode_key [Integer 1] = Some flag_row.
Proof.
  split; [by_eval|]. apply (unpaired_stays_open 300 sample_dump sample_recorder default_config 1 3000000000 5 1000000000 [] [2] both_punches).
  - rewrite flagged_queue. apply map_Forall_singleton. split; [reflexivity|]. apply validated; [by_eval|decide_now].
  - exact repair_runs.
  - rewrite flagged_queue. apply lookup_singleton_eq.
  - discriminate.
Defined.
