(* ===== verification/PunchRange.v ===== *)
(** The range that pairing rebuilds.

    [range_closed]: the loop of [repair_pairing] ends, after at most as many
    rounds as the employee has shifts and one more, with a range that no
    unsettled shift crosses. *)

From stdpp Require Import base numbers list gmap strings sorting.
From S2P Require Import Prelude Bytes PageFormat Types Record LocalTime StoreSchema BTreeNode BTree Store Grove StoreRep StoreSpec StoreReads StoreRefine.
From S2P Require Import CoreSchema Program Recorder PunchSchema PunchInstall PunchData PunchRules PunchPayroll PunchLifecycle PunchSync PunchFrames PunchRows PunchScan PunchTables PunchExample PunchSyncSpec.
From stdpp Require Import list.
Open Scope Z_scope.
Open Scope prog_scope.

(** * Rounds of the loop, over the list of the employee's shifts *)

Definition affected_by (l : list Shift) (start : Z) : list Shift := List.filter unsettled (merge_sort shift_before (List.filter (reaches start) l)).

Lemma affected_elem l start s : s ∈ affected_by l start <-> s ∈ l /\ reaches start s = true /\ unsettled s = true.
Proof.
  unfold affected_by. rewrite list_elem_of_In, List.filter_In, <- list_elem_of_In, merge_sort_Permutation, list_elem_of_In, List.filter_In, <- list_elem_of_In. tauto.
Qed.
Lemma earliest_le l : forall start, earliest l start <= start /\ Forall (fun s => earliest l start <= sh_in_time s) l.
Proof.
  unfold earliest. induction l as [|s l IH]; intros start; cbn [fold_left]; [split; [lia|constructor]|]. destruct (IH (Z.min start (sh_in_time s))) as [H1 H2].
  split; [lia|]. constructor; [lia|exact H2].
Qed.
Lemma earliest_is l : forall start, earliest l start = start \/ exists s, s ∈ l /\ earliest l start = sh_in_time s.
Proof.
  unfold earliest. induction l as [|s l IH]; intros start; cbn [fold_left]; [by left|]. destruct (IH (Z.min start (sh_in_time s))) as [E|(s' & Hs & E)].
  - rewrite E. destruct (Z.min_spec start (sh_in_time s)) as [[_ ->]|[_ ->]]; [by left|]. right. exists s. split; [by left|done].
  - right. exists s'. split; [by right|done].
Qed.

Lemma filter_all {A} (l : list A) : List.filter (fun _ => true) l = l.
Proof. induction l as [|x l IH]; [done|]. cbn. by rewrite IH. Qed.
(** The shifts that begin before the start: each round leaves fewer. *)
Definition before (l : list Shift) (start : Z) : nat := length (List.filter (fun s => sh_in_time s <? start) l).
Lemma filter_shorter {A} (p q : A -> bool) l : (forall x, p x = true -> q x = true) -> (length (List.filter p l) <= length (List.filter q l))%nat.
Proof.
  intros Hpq. induction l as [|x l IH]; [done|]. cbn [List.filter]. pose proof (Hpq x). destruct (p x); destruct (q x); cbn [length]; lia || by discriminate H.
Qed.
Lemma filter_strict {A} (p q : A -> bool) l x : (forall x, p x = true -> q x = true) -> x ∈ l -> p x = false -> q x = true ->
  (length (List.filter p l) < length (List.filter q l))%nat.
Proof.
  intros Hpq. induction l as [|y l IH]; [by intros ?%not_elem_of_nil|]. intros [<-|Hx]%elem_of_cons Hp Hq; cbn [List.filter].
  - rewrite Hp, Hq. cbn [length]. pose proof (filter_shorter p q l Hpq). lia.
  - specialize (IH Hx Hp Hq). pose proof (Hpq y). destruct (p y); destruct (q y); cbn [length]; lia || by discriminate H.
Qed.
Lemma before_less l start s : s ∈ l -> sh_in_time s < start -> (before l (sh_in_time s) < before l start)%nat.
Proof.
  intros Hs Hlt. apply (filter_strict _ _ l s); [|done|by apply Z.ltb_irrefl|by apply Z.ltb_lt]. intros x. rewrite !Z.ltb_lt. lia.
Qed.

(** * The loop *)

Section range.
Context (max_key : nat) (cat : Catalog) (sh : TableDef) (idx : IndexDef) (e : Z) (d : Data).
Context (Hscan : forall state, scan_ready cat "shifts" "shifts_employee_state" sh idx [Integer e; text state]).

Definition in_state (state : string) : list Shift :=
  map from_row (visited sh (Some idx) (eq_bound [Integer e; text state]) (eq_bound [Integer e; text state]) (rows_of d "shifts")).
Definition shifts_of : list Shift := concat (map in_state kShiftStates).

Lemma run_states from states : forall out, run max_key cat (shifts_in_states e from states out) d
  = (Ret (out ++ List.filter (reaches from) (concat (map in_state states))), d).
Proof.
  induction states as [|state states IH]; intros out; cbn [shifts_in_states map concat]; [cbn; by rewrite app_nil_r|].
  rewrite run_bind, (run_scan max_key cat _ _ sh idx) by apply Hscan. rewrite (fold_collect (reaches from) from_row), IH, List.filter_app, app_assoc. done.
Qed.
Lemma run_shifts_from from : run max_key cat (shifts_from e from) d = (Ret (merge_sort shift_before (List.filter (reaches from) shifts_of)), d).
Proof. unfold shifts_from. rewrite run_bind, run_states. done. Qed.

(** What the loop returns: a start at which the round changes nothing. *)
Definition closed_at (start : Z) : Prop := earliest (affected_by shifts_of start) start = start.
Lemma closed_below start q : q <= start -> closed_at q -> q <= earliest (affected_by shifts_of start) start.
Proof.
  intros Hq Hc. destruct (earliest_is (affected_by shifts_of start) start) as [->|(s & Hs & ->)]; [done|].
  apply affected_elem in Hs as (Hs & Hr & Hu). destruct (earliest_le (affected_by shifts_of q) q) as [_ Hall]. rewrite Hc, Forall_forall in Hall. apply Hall, affected_elem.
  split_and!; [done| |done]. revert Hr. unfold reaches. rewrite !orb_true_iff, !Z.leb_le. lia.
Qed.
Lemma range_runs fuel : forall start, (before shifts_of start < fuel)%nat ->
  exists start', run max_key cat (rebuild_range e fuel start) d = (Ret (start', affected_by shifts_of start'), d) /\ start' <= start /\ closed_at start'
    /\ forall q, q <= start -> closed_at q -> q <= start'.
Proof.
  induction fuel as [|fuel IH]; intros start Hf; [lia|]. cbn [rebuild_range]. rewrite run_bind, run_shifts_from. cbv zeta.
  change (List.filter unsettled (merge_sort shift_before (List.filter (reaches start) shifts_of))) with (affected_by shifts_of start).
  destruct (Z.eqb_spec (earliest (affected_by shifts_of start) start) start) as [E|Hne].
  { exists start. split_and!; [done|lia|done|done]. }
  pose proof (closed_below start) as Hmax.
  destruct (earliest_is (affected_by shifts_of start) start) as [?|(s & Hs & Es)]; [done|]. destruct (earliest_le (affected_by shifts_of start) start) as [Hle _].
  apply affected_elem in Hs as (Hs & _). pose proof (before_less shifts_of start s Hs ltac:(lia)) as Hb. rewrite Es in *.
  destruct (IH (sh_in_time s)) as (start' & E' & Hle' & Hc & Hm); [lia|]. exists start'. split_and!; [exact E'|lia|exact Hc|]. intros q Hq Hqc. apply Hm; [by apply Hmax|done].
Qed.

(** The shifts of the employee, as rows. *)
Context (Hres : index_resolves sh idx) (Hpre : is_prefix ["employee_id"; "state"] (ix_columns idx) = true).
Context (Hproj : forall r, project sh r ["employee_id"; "state"] = [at_ r 1; at_ r 11]) (Htypes : types_of sh ["employee_id"; "state"] = [TInteger; TText]).
Context (Hok : rows_ok sh (rows_of d "shifts")) (He : i64_ok e).
Lemma shifts_of_elem s : s ∈ shifts_of <-> exists k r state, rows_of d "shifts" !! k = Some r /\ at_ r 1 = Integer e /\ state ∈ kShiftStates /\ at_ r 11 = text state /\ s = from_row r.
Proof.
  assert (Hin : forall state, state ∈ kShiftStates -> forall s, s ∈ in_state state <-> exists k r, rows_of d "shifts" !! k = Some r /\ at_ r 1 = Integer e /\ at_ r 11 = text state /\ s = from_row r).
  { intros state Hst s0. unfold in_state. rewrite list_elem_of_fmap.
    assert (Hty : typed [Integer e; text state] (types_of sh ["employee_id"; "state"])).
    { rewrite Htypes. constructor; [by split|]. constructor; [|constructor]. split; [|done]. cbn in Hst. unfold kShiftStates in Hst.
      rewrite !elem_of_cons in Hst. destruct Hst as [->|[->|[->|[->|[->|Hst]]]]]; [decide_now..|by apply not_elem_of_nil in Hst]. }
    setoid_rewrite (visited_iff sh _ Hok idx ["employee_id"; "state"] _ _ Hres Hpre Hty). setoid_rewrite Hproj. split.
    - intros (r & -> & k & Hk & [= E1 E2]). by exists k, r.
    - intros (k & r & Hk & E1 & E2 & ->). exists r. split; [done|]. exists k. by rewrite E1, E2. }
  unfold shifts_of. rewrite list_elem_of_In, in_concat. setoid_rewrite in_map_iff. split.
  - intros (l & (state & <- & Hst) & Hs). apply list_elem_of_In in Hst, Hs. apply (Hin _ Hst) in Hs as (k & r & H). exists k, r, state. tauto.
  - intros (k & r & state & Hk & E1 & Hst & E2 & ->). exists (in_state state). split; [exists state; by rewrite <- list_elem_of_In|]. apply list_elem_of_In, (Hin _ Hst). by exists k, r.
Qed.
End range.

(** * The installed table *)

Notation shifts_now := (shifts_of (tbl "shifts") (idx_of "shifts" "shifts_employee_state")).
Lemma shifts_scan e state : scan_ready installed_catalog "shifts" "shifts_employee_state" (tbl "shifts") (idx_of "shifts" "shifts_employee_state") [Integer e; text state].
Proof. split_and!; by_eval. Qed.
Lemma shifts_now_elem e d s : rows_ok (tbl "shifts") (rows_of d "shifts") -> i64_ok e -> s ∈ shifts_now e d <->
  exists k r state, rows_of d "shifts" !! k = Some r /\ at_ r 1 = Integer e /\ state ∈ kShiftStates /\ at_ r 11 = text state /\ s = from_row r.
Proof. intros Hok He. apply shifts_of_elem; [apply index_of_table; by_eval|by_eval|intros r; by_eval|by_eval|exact Hok|exact He]. Qed.

(** A shift of the employee, in one of the states of the schema. *)
Definition employees_shift (d : Data) (e : Z) (s : Shift) : Prop :=
  exists k r state, rows_of d "shifts" !! k = Some r /\ at_ r 1 = Integer e /\ state ∈ kShiftStates /\ at_ r 11 = text state /\ s = from_row r.
(** No shift that may be rebuilt lies on both sides of [start]. *)
Definition no_crossing (d : Data) (e start : Z) : Prop :=
  forall s, employees_shift d e s -> unsettled s = true -> reaches start s = true -> start <= sh_in_time s.

(** [C19] The loop that widens the range to rebuild ends, with as many rounds as
    the employee has shifts and one more.  It only reads; it moves the start
    back to the latest instant that no shift crosses which may be rebuilt; and
    it returns exactly these shifts that reach the range. *)
Theorem rebuild_range_closed max_key d e start fuel : rows_ok (tbl "shifts") (rows_of d "shifts") -> i64_ok e -> (length (shifts_now e d) < fuel)%nat ->
  exists start' affected, run max_key installed_catalog (rebuild_range e fuel start) d = (Ret (start', affected), d)
    /\ start' <= start /\ no_crossing d e start' /\ (forall q, q <= start -> no_crossing d e q -> q <= start')
    /\ forall s, s ∈ affected <-> employees_shift d e s /\ unsettled s = true /\ reaches start' s = true.
Proof.
  intros Hok He Hf. set (l := shifts_now e d) in Hf. assert (Hl : forall s, s ∈ l <-> employees_shift d e s) by (intros s; by apply shifts_now_elem).
  assert (Hcl : forall q, closed_at (tbl "shifts") (idx_of "shifts" "shifts_employee_state") e d q <-> no_crossing d e q).
  { intros q. unfold closed_at. fold l. destruct (earliest_le (affected_by l q) q) as [_ Hall]. split.
    - intros E s Hs Hu Hr. rewrite E, Forall_forall in Hall. apply Hall, affected_elem. by rewrite Hl.
    - intros Hn. destruct (earliest_is (affected_by l q) q) as [?|(s & Hs & E)]; [done|]. apply affected_elem in Hs as (Hs%Hl & Hr & Hu). pose proof (Hn s Hs Hu Hr).
      destruct (earliest_le (affected_by l q) q). lia. }
  assert (Hb : (before l start < fuel)%nat) by (pose proof (filter_shorter (fun s => sh_in_time s <? start) (fun _ => true) l ltac:(done)) as H; rewrite filter_all in H; unfold before; lia).
  destruct (range_runs max_key installed_catalog _ _ e d (shifts_scan e) fuel start Hb) as (start' & E & Hle & Hc & Hm). exists start', (affected_by l start').
  split_and!; [exact E|done|by apply Hcl| |].
  - intros q Hq Hn. apply Hm; [done|by apply Hcl].
  - intros s. rewrite affected_elem, Hl. tauto.
Qed.

Definition paired : Data := snd (sync sample_device in_later first_sync).
Definition paired_shift : Shift := mkShift 1 1 1 2 1 100 1 1000000000 2000000000 (Some 1000000000) "" "recorded".
Lemma rebuild_range_closed_witness : exists start' affected,
  run 300 installed_catalog (rebuild_range 1 2 1500000000) paired = (Ret (start', affected), paired) /\ start' <= 1500000000.
Proof.
  assert (Hok : rows_ok (tbl "shifts") (rows_of paired "shifts")).
  { apply (rows_ok_listed _ _ [to_row paired_shift]); [by_eval|]. apply Forall_singleton. split; [by_eval|decide_now]. }
  destruct (rebuild_range_closed 300 paired 1 1500000000 2 Hok) as (start' & affected & E & Hle & _); [decide_now|vm_compute; lia|].
  exists start', affected. split; [exact E|exact Hle].
Defined.
