(* ===== verification/PunchPairing.v ===== *)
(** Pairing punches into shifts.

    [pairs] is the fold without tables: the shifts a list of punches makes.
    [pairing_refines] shows that the loop of [repair_pairing] adds exactly these
    shifts to the table, and [pairs_ins], [pairs_closed] and [pairs_outs] what
    they are. *)

From stdpp Require Import base numbers list gmap strings sorting.
From S2P Require Import Prelude Bytes PageFormat Types Record LocalTime StoreSchema BTreeNode BTree Store Grove StoreRep StoreSpec StoreReads StoreRefine.
From S2P Require Import CoreSchema Program Recorder PunchSchema PunchInstall PunchData PunchRules PunchPayroll PunchSync PunchFrames PunchRows PunchScan PunchTables PunchExample PunchIngest.
From stdpp Require Import list.
Open Scope Z_scope.
Open Scope prog_scope.

(** * The fold without tables *)

Definition is_in (e : TimeEntry) : bool := String.eqb (te_kind e) "in".
Definition closed (s : Shift) : bool := bool_decide (is_Some (sh_duration_us s)).

Section pure.
Context (employee : Z).
(** The shifts a punch completes, and the shift open after it. *)
Definition pair_step (e : TimeEntry) (open : option Shift) : list Shift * option Shift :=
  if is_in e then (option_list open, Some (opened_by employee e))
  else
    match open with
    | None => ([], None)
    | Some s =>
        match pair_out s e with
        | Ret _ => ([closed_by s e], None)
        | Err _ => if negb (sh_device_id s =? te_device_id e) then ([], Some s) else ([s], None)
        end
    end.
Fixpoint pairs (l : list TimeEntry) (open : option Shift) : list Shift :=
  match l with
  | [] => option_list open
  | e :: l => let '(out, open) := pair_step e open in out ++ pairs l open
  end.

(** Every in punch begins one shift, in order. *)
Lemma pairs_ins l : forall open, map sh_in_entry_id (pairs l open) = map sh_in_entry_id (option_list open) ++ map te_id (List.filter is_in l).
Proof.
  induction l as [|e l IH]; intros open; cbn [pairs List.filter map]; [by rewrite app_nil_r|]. unfold pair_step. destruct (is_in e) eqn:Ei.
  { cbv beta iota. rewrite map_app, IH. done. }
  destruct open as [s|]; [|apply IH]. destruct (pair_out s e); [cbv beta iota; by rewrite map_app, IH|]. destruct (negb _); [apply IH|]. cbv beta iota. by rewrite map_app, IH.
Qed.

(** The shift that is open was opened by one of the punches so far, and a
    closed one was opened by a punch and closed by a later one that fits it. *)
Definition made_of (l : list TimeEntry) (s : Shift) : Prop :=
  exists i, i ∈ l /\ is_in i = true
    /\ (s = opened_by employee i
        \/ exists o, o ∈ l /\ is_in o = false /\ pair_out (opened_by employee i) o = Ret tt /\ s = closed_by (opened_by employee i) o).
Lemma made_more l l' s : l ⊆ l' -> made_of l s -> made_of l' s.
Proof.
  intros Hl (i & Hi & Hin & H). exists i. split_and!; [by apply Hl|done|]. destruct H as [->|(o & Ho & H)]; [by left|]. right. exists o. split; [by apply Hl|done].
Qed.
Lemma pairs_made seen l : forall open, (forall s, open = Some s -> exists i, i ∈ seen /\ is_in i = true /\ s = opened_by employee i) ->
  Forall (made_of (seen ++ l)) (pairs l open).
Proof.
  revert seen. induction l as [|e l IH]; intros seen open Ho; cbn [pairs].
  { destruct open as [s|]; [|constructor]. destruct (Ho s eq_refl) as (i & Hi & Hin & ->). constructor; [|constructor]. exists i. split_and!; [set_solver|done|by left]. }
  assert (Hopen : forall s, open = Some s -> made_of (seen ++ e :: l) s).
  { intros s ->. destruct (Ho s eq_refl) as (i & Hi & Hin & ->). exists i. split_and!; [set_solver|done|by left]. }
  assert (Hnext : forall open', (forall s, open' = Some s -> exists i, i ∈ seen ++ [e] /\ is_in i = true /\ s = opened_by employee i) ->
    Forall (made_of (seen ++ e :: l)) (pairs l open')).
  { intros open' Ho'. specialize (IH (seen ++ [e]) open' Ho'). by rewrite <- app_assoc in IH. }
  unfold pair_step. destruct (is_in e) eqn:Ei.
  - apply Forall_app. split; [destruct open; [constructor; [by apply Hopen|constructor]|constructor]|]. apply Hnext. intros s [= <-]. exists e. split_and!; [set_solver|done|done].
  - destruct open as [s|]; [|by apply Hnext]. destruct (pair_out s e) as [[]|] eqn:Ep.
    + apply Forall_app. split; [|by apply Hnext]. constructor; [|constructor]. destruct (Ho s eq_refl) as (i & Hi & Hin & ->). exists i. split_and!; [set_solver|done|].
      right. exists e. split_and!; [set_solver|done|done|done].
    + destruct (negb _).
      * apply Hnext. intros s' [= <-]. destruct (Ho s eq_refl) as (i & Hi & H). exists i. split; [set_solver|done].
      * apply Forall_app. split; [constructor; [by apply Hopen|constructor]|by apply Hnext].
Qed.

(** No out punch closes two shifts. *)
Lemma pairs_outs l : forall open, (forall s, open = Some s -> closed s = false) ->
  sublist (map sh_out_entry_id (List.filter closed (pairs l open))) (map te_id (List.filter (fun e => negb (is_in e)) l)).
Proof.
  induction l as [|e l IH]; intros open Ho; cbn [pairs List.filter map].
  { destruct open as [s|]; [|constructor]. cbn. rewrite (Ho s eq_refl). constructor. }
  assert (Hskip : List.filter closed (option_list open) = []) by (destruct open as [s|]; [cbn; by rewrite (Ho s eq_refl)|done]).
  unfold pair_step. destruct (is_in e) eqn:Ei; cbn [negb].
  - cbv beta iota. rewrite List.filter_app, Hskip. apply IH. by intros s [= <-].
  - cbn [map]. destruct open as [s|]; [|cbv beta iota; cbn [app]; apply sublist_cons, IH; intros s Hs; discriminate Hs]. destruct (pair_out s e) as [[]|].
    + cbv beta iota. rewrite List.filter_app. change (List.filter closed [closed_by s e]) with [closed_by s e]. cbn [app map]. apply sublist_skip, IH. done.
    + destruct (negb _); [apply sublist_cons, IH; exact Ho|]. cbv beta iota. rewrite List.filter_app. change [s] with (option_list (Some s)). rewrite Hskip. by apply sublist_cons, IH.
Qed.
End pure.

(** * The table *)

(** The shifts were added in order, each under an identifier that was free. *)
Inductive stored_in (t : TableDef) : gmap Bytes Row -> list Shift -> gmap Bytes Row -> Prop :=
| stored_none m : stored_in t m [] m
| stored_next m s id l m' : m !! pk_key_of t (to_row (shift_as s id)) = None ->
    stored_in t (<[pk_key_of t (to_row (shift_as s id)) := to_row (shift_as s id)]> m) l m' -> stored_in t m (s :: l) m'.
Lemma stored_app t m1 l1 m2 l2 m3 : stored_in t m1 l1 m2 -> stored_in t m2 l2 m3 -> stored_in t m1 (l1 ++ l2) m3.
Proof. induction 1 as [|m s id l m' Hn _ IH]; intros H2; [done|]. by apply (stored_next t m s id), IH. Qed.
Lemma stored_keeps t m l m' : stored_in t m l m' -> m ⊆ m'.
Proof. induction 1 as [|m s id l m' Hn _ IH]; [done|]. etrans; [by apply insert_subseteq|exact IH]. Qed.

Section fold.
Context (max_key : nat) (cat : Catalog) (dump : Json -> string) (rec : Recorder) (cfg : Config) (sh : TableDef) (employee now_us : Z).
Context (Ht : StoreSchema.table cat "shifts" = Some sh) (Hname : td_name sh = "shifts").
Notation shifts_in d := (rows_of d "shifts").
(** What the other steps of a punch may change. *)
Definition side_tables : list string := ["exceptions"; "shift_annotations"; kChangeFeed].

Lemma insert_shift s id d d' : run max_key cat (rec_insert dump rec "shifts" (to_row (shift_as s id))) d = (Ret tt, d') -> stored_in sh (shifts_in d) [s] (shifts_in d').
Proof.
  intros Hr. apply rec_insert_effect in Hr as (t & Ht' & Hins & Hrows & _); [|done]. assert (t = sh) as -> by congruence. apply insert_allowed_fresh in Hins. rewrite Hname in Hins.
  apply (stored_next _ _ _ id); [done|]. rewrite Hrows. constructor.
Qed.
Lemma persist_effect i open opened o d d' : run max_key cat (persist_open dump rec cfg employee now_us i open opened) d = (Ret o, d') ->
  stored_in sh (shifts_in d) (option_list (fst <$> open)) (shifts_in d').
Proof.
  unfold persist_open. destruct open as [[s open_in]|]; [|intros [= <- <-]; constructor]. intros Hr. apply run_bind_inv in Hr as (id & d1 & H1 & Hr).
  assert (d1 = d) as -> by (eapply reads_run; [|exact H1]; apply next_id_writes). apply run_bind_inv in Hr as ([] & d1 & H2 & Hr). apply insert_shift in H2.
  assert (Hs : same_but side_tables d1 d') by (eapply run_writes; [|exact Hr]; cbv zeta; destruct (_ || _); [apply flag_writes; set_solver|exact I]).
  by rewrite Hs by set_solver.
Qed.
Lemma close_effect s open_in e opened o d d' : run max_key cat (close_shift dump rec cfg employee now_us s open_in e opened) d = (Ret o, d') ->
  stored_in sh (shifts_in d) [closed_by s e] (shifts_in d').
Proof.
  unfold close_shift. intros Hr. apply run_bind_inv in Hr as (id & d1 & H1 & Hr). assert (d1 = d) as -> by (eapply reads_run; [|exact H1]; apply next_id_writes).
  cbv zeta in Hr. apply run_bind_inv in Hr as ([] & d1 & H2 & Hr). apply insert_shift in H2.
  assert (Hs : same_but side_tables d1 d').
  { eapply run_writes; [|exact Hr]. apply writes_bind; [destruct (_ <=? _); [apply opening_writes; set_solver|exact I]|]. intros o1.
    apply writes_bind; [apply check_schedule_writes; set_solver|]. intros o2. apply writes_bind; [apply record_annotations_writes; set_solver|]. intros _. exact I. }
  by rewrite Hs by set_solver.
Qed.
Lemma flag_effect e why opened o d d' : run max_key cat (flag_unpaired dump rec employee now_us e why opened) d = (Ret o, d') -> shifts_in d' = shifts_in d.
Proof. intros Hr. assert (Hs : same_but side_tables d d') by (eapply run_writes; [|exact Hr]; apply flag_writes; set_solver). apply Hs. set_solver. Qed.

Lemma punch_effect e open opened open' o d d' : run max_key cat (pair_punch dump rec cfg employee now_us e open opened) d = (Ret (open', o), d') ->
  fst <$> open' = snd (pair_step employee e (fst <$> open)) /\ stored_in sh (shifts_in d) (fst (pair_step employee e (fst <$> open))) (shifts_in d').
Proof.
  unfold pair_punch, pair_step, is_in. destruct (String.eqb (te_kind e) "in").
  { intros Hr. apply run_bind_inv in Hr as (o1 & d1 & H1 & Hr). injection Hr as <- <- <-. split; [done|]. by eapply persist_effect. }
  destruct open as [[s open_in]|]; cbn [fmap option_fmap option_map fst].
  2: { intros Hr. apply run_bind_inv in Hr as (o1 & d1 & H1 & Hr). injection Hr as <- <- <-. split; [done|]. cbn [fst]. rewrite (flag_effect _ _ _ _ _ _ H1). constructor. }
  destruct (pair_out s e) as [[]|].
  { intros Hr. apply run_bind_inv in Hr as (o1 & d1 & H1 & Hr). injection Hr as <- <- <-. split; [done|]. by eapply close_effect. }
  destruct (negb (sh_device_id s =? te_device_id e)); intros Hr; apply run_bind_inv in Hr as (o1 & d1 & H1 & Hr).
  - injection Hr as <- <- <-. split; [done|]. cbn [fst]. rewrite (flag_effect _ _ _ _ _ _ H1). constructor.
  - apply run_bind_inv in Hr as (o2 & d2 & H2 & Hr). injection Hr as <- <- <-. split; [done|]. cbn [fst]. rewrite (flag_effect _ _ _ _ _ _ H2). by eapply (persist_effect true (Some (s, open_in))).
Qed.
Lemma punches_effect l : forall open opened open' o d d', run max_key cat (pair_punches dump rec cfg employee now_us l open opened) d = (Ret (open', o), d') ->
  exists out, stored_in sh (shifts_in d) out (shifts_in d') /\ pairs employee l (fst <$> open) = out ++ option_list (fst <$> open').
Proof.
  induction l as [|e l IH]; intros open opened open' o d d' Hr; cbn [pair_punches pairs] in *.
  { injection Hr as <- <- <-. exists []. split; [constructor|done]. }
  apply run_bind_inv in Hr as ([open1 o1] & d1 & H1 & Hr). apply punch_effect in H1 as [E1 H1]. destruct (IH _ _ _ _ _ _ Hr) as (out & Hout & Ep).
  destruct (pair_step employee e (fst <$> open)) as [out1 op1]. cbn [fst snd] in *. subst op1. exists (out1 ++ out). split; [by eapply stored_app|]. by rewrite Ep, app_assoc.
Qed.

Lemma pairing_refines l opened o d d' : run max_key cat (pair_all dump rec cfg employee now_us l opened) d = (Ret o, d') ->
  stored_in sh (shifts_in d) (pairs employee l None) (shifts_in d').
Proof.
  intros Hr. apply run_bind_inv in Hr as ([open o1] & d1 & H1 & Hr). apply punches_effect in H1 as (out & Hout & Ep). cbn in Ep. rewrite Ep.
  eapply stored_app; [exact Hout|by eapply persist_effect].
Qed.
End fold.

(** [C18] Pairing.  The fold over the punches adds to the table exactly the
    shifts that [pairs] computes, each under a free identifier, and changes no
    shift that is there.  Every in punch begins exactly one of them, in order;
    each is either still open or was closed by an out punch of the list that is
    of the same employee and device and later; and no out punch closes two. *)
Theorem pairing_adds_shifts max_key dump rec cfg employee now_us l opened o d d' :
  run max_key installed_catalog (pair_all dump rec cfg employee now_us l opened) d = (Ret o, d') ->
  let new := pairs employee l None in
  stored_in (tbl "shifts") (rows_of d "shifts") new (rows_of d' "shifts")
  /\ map sh_in_entry_id new = map te_id (List.filter is_in l)
  /\ Forall (made_of employee l) new
  /\ sublist (map sh_out_entry_id (List.filter closed new)) (map te_id (List.filter (fun e => negb (is_in e)) l)).
Proof.
  intros Hr. cbv zeta. split_and!.
  - eapply (pairing_refines max_key installed_catalog dump rec cfg (tbl "shifts") employee now_us); [by_eval|by_eval|exact Hr].
  - apply (pairs_ins employee l None).
  - apply (pairs_made employee [] l None). intros s Hs. discriminate Hs.
  - apply pairs_outs. intros s Hs. discriminate Hs.
Qed.

Definition sample_in : TimeEntry :=
  mkTimeEntry 1 (replicate 16 9) 1 1 None 0 "in" 1000000000 "1970-04-11T08:00:00" "America/New_York" "2024a" 1000 "device" None 1 "recorded" "" 0 0 "" 1000 "" 0.
Definition sample_out : TimeEntry :=
  mkTimeEntry 2 (replicate 16 10) 1 1 None 0 "out" 2000000000 "1970-04-11T17:00:00" "America/New_York" "2024a" 1000 "device" None 1 "recorded" "" 0 0 "" 1000 "" 0.
Definition with_punches : Data :=
  snd (run 300 installed_catalog (pfor [sample_in; sample_out] (fun e => pwrite (RInsert "time_entries" (to_row e)))) sample).
Definition sample_fold : Prog (list Z) := pair_all sample_dump sample_recorder default_config 1 3000000000 [sample_in; sample_out] [].
Definition with_shift : Data := snd (run 300 installed_catalog sample_fold with_punches).
Lemma folded : run 300 installed_catalog sample_fold with_punches = (Ret [1], with_shift).
Proof. unfold with_shift. rewrite (surjective_pairing (run 300 installed_catalog sample_fold with_punches)) at 1. by f_equal. Qed.
Lemma pairing_adds_shifts_witness :
  stored_in (tbl "shifts") (rows_of with_punches "shifts") [closed_by (opened_by 1 sample_in) sample_out] (rows_of with_shift "shifts").
Proof. apply (pairing_adds_shifts 300 sample_dump sample_recorder default_config 1 3000000000 [sample_in; sample_out] [] [1] with_punches with_shift). exact folded. Defined.
